(* ===== verification/_CoqProject ===== *)
-Q . S2P
Prelude.v
JsMap.v
GaloisField.v
FieldPoly.v
Lagrange.v
ErasureCodec.v
ErasureNewton.v
ErasureProofs.v
ProtoWire.v
ProtoFields.v
Utf8.v
Base64.v
SignalMessage.v
SignalMessageProofs.v
SenderKeyMessage.v
SenderKeyStore.v
ProtoProps.v
Crypto.v
SenderKeys.v
SenderKeyProofs.v
SenderKeySystem.v
DoubleRatchet.v
RatchetProofs.v
RatchetTrace.v
RatchetConversation.v
RatchetStore.v
RatchetToy.v
RatchetTheorems.v
SenderKeyTheorems.v
BraidState.v
SpqrWire.v
SpqrWireProofs.v
BraidAuth.v
Braid.v
BraidInv.v
BraidSides.v
BraidSystem.v
BraidTable.v
BraidBurst.v
BraidLiveness.v
SpqrState.v
Spqr.v
SpqrInv.v
SpqrKeys.v
SpqrSystem.v
SpqrToy.v
SpqrTheorems.v
BraidTheorems.v
Identity.v
IdentityProofs.v
KeyFormats.v
SessionRecord.v
Pqxdh.v
SessionBuilder.v
PqxdhProofs.v
SessionTheorems.v
SessionStore.v
SessionStoreProofs.v
MessageCipher.v
SessionCipher.v
SessionCipherProofs.v
SessionEffects.v
SessionManager.v
SessionCipherTheorems.v
SessionStoreTheorems.v
GroupTypes.v
GroupAccess.v
GroupChange.v
GroupProofs.v
GroupValid.v
GroupAuthority.v
GroupTheorems.v
SealedSenderWire.v
SealedSender.v
SealedSenderProofs.v
SealedSenderDelivery.v
SealedSenderTheorems.v
FanOut.v
KeyedLock.v
SafetyNumber.v
