(* ===== verification/Prelude.v ===== *)
(** * Verification of the OpenE2EE Signal Protocol SDK (TypeScript)

    This library models the protocol core of the SDK (under
    [src/internal/]) in Rocq and proves it correct.  The definitions are
    executable translations of the TypeScript source; they keep its names
    where Rocq allows it.

    ** The parts of the program and their models

    A session of two devices takes its message keys from two ratchets.  The
    Double Ratchet ([internal/protocol/double-ratchet/], [internal/session/])
    derives a key per message from HKDF and HMAC chains and from X25519.  SPQR
    ([internal/protocol/spqr/]) derives a second, post-quantum key; its epoch
    secrets come either from a direct ML-KEM exchange or from the ML-KEM Braid
    ([spqr/ml-kem-braid/]), which sends ML-KEM keys and ciphertexts as the
    chunks of an erasure code over GF(2^16).  Messages are framed with
    protobuf ([internal/encoding/proto/]).  Group messages use sender keys
    ([internal/protocol/sender-keys/]), which the local store keeps
    ([local/store/]).  A session begins with PQXDH ([internal/protocol/pqxdh/],
    [internal/session/]), is kept in a record with its archive, and its
    messages are sealed and opened by the session cipher, which the manager
    ([internal/manager/]) runs on the store.  A group is a state that signed
    changes move from revision to revision ([internal/groups/]).  Sealed sender
    ([internal/protocol/sealed-sender/], [client/sealed-sender.ts]) wraps a
    message so that the relay does not learn who sent it.  Safety numbers
    ([safety/]) let two users check each other's identity.  Around these, the
    calls of one session take turns under a keyed lock and the relay requests
    of one client share a bound ([utils/]).

    - [Prelude], [JsMap]: errors as values ([result]), the state-and-error
      monad [M] whose result carries the state also when the computation
      throws, JavaScript's 32-bit operations and [Map], list lemmas, tactics.
    - [GaloisField], [FieldPoly], [Lagrange]: [rs/galois/field.ts] and
      [rs/lagrange.ts].  The log and exp tables of [tables-16.ts] are recomputed
      from the generator relation that file states.  [GaloisFieldLaws] is the
      interface to the erasure code.
    - [ErasureCodec] ([rs/codec.ts], [chunk-domain.ts]) with
      [ErasureNewton] and [ErasureProofs].
    - [ProtoWire] ([proto/primitives.ts]), [Utf8] ([platform/utf8.ts]),
      [Base64] ([crypto/utils.ts]), [SignalMessage] ([signal-message.ts]),
      [SenderKeyMessage] ([sender-key-message.ts], [envelope.ts]), with
      [ProtoFields], [SignalMessageProofs], [ProtoProps].
    - [Crypto]: HMAC, AES-CBC, SHA-256 and Ed25519 as parameters and
      [crypto/kdf/hkdf.ts] over them.
    - [DoubleRatchet] ([double-ratchet/chains.ts], [ratchet.ts],
      [session/ratchet.ts] and the key path of [session/cipher.ts]) with
      [RatchetProofs], [RatchetTrace] (a chain under any delivery order),
      [RatchetConversation], [RatchetStore] (bounds), [RatchetTheorems].
    - [BraidState] ([ml-kem-braid/types.ts]), [BraidAuth] ([kdf.ts],
      [authenticator.ts], [incremental-kem.ts]), [Braid] ([state-machine.ts])
      with [BraidInv], [BraidSides], [BraidSystem] (the two parties and their
      network), [BraidTable] (single calls on arbitrary states), [BraidBurst],
      [BraidLiveness], [BraidTheorems].
    - [SpqrWire] ([proto/pq-ratchet-serialize.ts]), [SpqrState] ([spqr.ts]
      types, [validate.ts], [version.ts]), [Spqr] ([spqr.ts], [braid.ts])
      with [SpqrWireProofs], [SpqrInv], [SpqrKeys], [SpqrSystem],
      [SpqrTheorems].
    - [SenderKeyStore] ([local/store/memory/adapter.ts],
      [sender-key-handoff-table.ts]), [SenderKeys] ([sender-keys/manager.ts],
      [handoff-ledger.ts]) with [SenderKeyProofs], [SenderKeySystem],
      [SenderKeyTheorems].
    - [Identity] ([keys/identity.ts]), [KeyFormats] ([crypto/key-prefix.ts],
      [padding.ts], [x25519-validation.ts], [keys/prekey-signature.ts], the
      ML-KEM-1024 formats) with [IdentityProofs].
    - [SessionRecord] ([types/session.ts], [session-resolver.ts]), [Pqxdh]
      ([pqxdh.ts], [session/handshake.ts], [keys/generation.ts]),
      [SessionBuilder] ([builder.ts], [factory.ts]) with [PqxdhProofs] and
      [SessionTheorems].
    - [SessionStore] (the session part of the in-memory store and
      [kyber-prekey-lifecycle.ts]) with [SessionStoreProofs],
      [SessionStoreTheorems].
    - [MessageCipher] ([session/decryption.ts], [identity-binding.ts],
      [validation.ts]), [SessionCipher] ([session/cipher.ts]),
      [SessionManager] ([manager/manager.ts]) with [SessionCipherProofs],
      [SessionEffects] (what each call changes), [SessionCipherTheorems].
    - [GroupTypes] ([groups/types.ts]), [GroupAccess] ([access-control.ts],
      [change-authorization.ts]), [GroupChange] ([change-actions.ts] and the
      acceptance of a change in [groups/manager.ts]) with [GroupProofs]
      (validation against application, each action), [GroupValid],
      [GroupAuthority], [GroupTheorems].
    - [SealedSenderWire] (the formats: [multi-recipient-message.ts],
      [sealed-sender/proto/], [certificate.ts]), [SealedSender]
      ([multi-recipient-crypto.ts], [encryption.ts], [decryption.ts],
      [aes-gcm-siv.ts], [client/sealed-sender.ts], [group-sealed-sender.ts],
      [hosted-anonymous-delivery.ts]) with [SealedSenderProofs] (round trips),
      [SealedSenderDelivery] (from sender to device), [SealedSenderTheorems].
    - [FanOut] ([utils/bounded-fan-out.ts]) and [KeyedLock]
      ([utils/keyed-lock.ts]): step systems whose steps are the pieces of code
      between two [await]s.
    - [SafetyNumber] ([safety/core.ts], [protobuf.ts], [fingerprint.ts],
      [index.ts]): fingerprints, the digits and the code that two users
      compare, and the cache.
    - [RatchetToy], [SpqrToy] and the first part of [SessionTheorems]: concrete
      instances of the cryptographic classes, on which the witnesses evaluate.

    ** What is proved

    - Agreement: what a receiver derives or decrypts from genuine bytes is what
      the sender used, under any loss, repetition and reordering
      ([conversation_agrees], [spqr_keys_agree], [braid_agreement],
      [group_delivery], [group_agreement], [direct_ratchet_agrees]).
    - Sessions: the two sides of PQXDH agree and can converse
      ([first_session_agrees]); what the cipher seals opens,
      up to lone surrogates and a leading U+FEFF ([sealed_message_opens]); a
      call of the cipher changes the store by one trust commit or not at all,
      but for a stored record of another version, which reading deletes
      ([message_calls_atomic]); a text is returned only for a MAC, addresses
      and a pinned identity of the session ([decrypted_text_authentic]); which session is current afterwards
      ([archived_session_convergence]).
    - Trust: pinned identities stay until an accepted rotation or the
      clearing of all keys, a reusable prekey is used once per first message,
      the history of a contact only grows ([identity_pin_stable],
      [kyber_use_committed_once], [contact_record_history]); when a rotation
      of the signed prekey takes effect ([rotation_takes_effect_iff]).
    - Groups: validation and application of a change agree
      ([validation_mirrors_application]), accepted changes keep the state
      well-formed ([accepted_changes_valid]), and what an editor who is no
      administrator can do ([member_change_confined]).
    - Sealed sender: a sealed message reaches and is unsealed by each device it
      names ([sealed_sender_delivers]); whatever is unsealed is vouched for by a
      trust root ([unsealed_sender_bound]); the route respects the configured
      policy, and which access key it sends ([sealed_route_respects_policy]);
      [sent_message_roundtrip].
    - Safety numbers: two users see the same number and a scan matches exactly
      when the fingerprints they believe in are the true ones
      ([safety_numbers_agree]); the cache changes no result and evicts the
      least recently used entry ([safety_cache_is_lru]).
    - Concurrency: the keyed lock refines a specification in call order
      ([keyed_lock_refines]); the relay requests of a client stay within their
      bound and are served in order ([fan_out_bounded]); what a stop signal
      stops ([stop_signal_scope]).
    - Exactly-once ([accepted_once], [spqr_accepted_once]), out-of-order and
      late messages ([spqr_out_of_order], [late_messages]).
    - Progress: from every reachable state of the Braid some schedule leads
      both parties any number of epochs further ([braid_progress]); what a
      party has sent is never rejected ([braid_no_rejection]); and what the
      driver around it does with it ([spqr_stops_after_one_epoch],
      [spqrBraidSend_termination]).
    - Codes: the erasure decoder recovers the message from enough chunks
      ([erasure_roundtrip]); a restored encoder refines a fresh one; Newton and
      Lagrange interpolation compute the interpolating polynomial.
    - Formats: the round trips of every codec, and decoding characterised on
      arbitrary bytes ([decode_signal_message_iff], [varint64_bijection],
      [base64_bijection]).
    - Hostile input, on arbitrary states and bytes: bounds of the stored keys,
      failures that leave the state unchanged, and the states to which each
      call of the Braid can go ([braid_follows_table]).

    ** Conventions

    A Base64 string stands for the bytes it encodes; [Base64.base64_bijection]
    is why.  The clock and the random bytes are arguments.  A mutated object is
    the state of [M]; where the source works on a copy that it commits at the
    end, so does the model.  Cryptographic primitives of third-party packages
    (HMAC, X25519, Ed25519, AES-CBC, AES-GCM-SIV, AES-GCM, SHA-2, SHA-3, ML-KEM and
    its fork in [noble-pq/]) are operations of type classes; their documented behaviour
    (sizes, the Diffie-Hellman equation, decryption inverts encryption) is a
    class of laws, and every theorem that uses it has a witness on an instance.
    No law says that a primitive is hard to break: the theorems are about what
    honest parties compute and about what arbitrary input cannot do to the
    state, not about secrecy.

    ** Bounds and fuel

    Varints take at most the 5, 9 or 10 rounds that their bounds leave.  Field
    loops have the length of the input as fuel and consume a byte per
    round; the devices of a sealed message take three bytes a round.  Eviction
    loops have the number of stored keys as fuel.  The decimal digits of a
    fingerprint chunk have fuel 5, for numbers below 100000.  The
    key-advancing loops run the difference of the indices, which the code has
    bounded before (2000 skipped keys for the Double Ratchet, [maxJump] for
    SPQR, [maxChainAdvance] for sender keys).  [spqrBraidSend] is given fuel,
    and [spqrBraidSend_termination] says for which states 100 rounds are enough
    and for which no fuel is.  HKDF is defined for at most 255 blocks; every
    caller is far below.  Encoders of the erasure code emit at most 65536
    chunks; [braid_progress] leaves a margin for the chunks a stage needs.

    ** Not modelled

    Store adapters other than the in-memory one, and of that one the injected
    failures of the tests, receive records, device, user and message records
    (of the modelled state, what these change is the session records and the
    handoffs, and the theorems on sequences of store operations allow any such
    change);
    the relay, the client, React hooks and media: effects of external services.
    The zero-knowledge credentials and the username hashes, which compute in
    the group of a third-party curve library.  Of the manager, the start-up
    from retained identities; of the cipher, the diagnostics and the records of
    rejected replays; of the groups, the wire format, the encrypted state and
    the other operations of their manager; of sealed sender, the posts to the
    relay and their repeats; of the safety numbers, the deep links.  The device registry, which orchestrates storage and
    relay calls, and the JSON snapshots of the Braid and of SPQR.  An operation
    of the session cipher is one step: the lock that makes it one is modelled
    apart ([KeyedLock]), and what an interleaving could do without it only for
    the epoch addition of SPQR ([spqr_epoch_added_once]). *)
From stdpp Require Export prelude list gmap strings.
From Stdlib Require Export ZArith Lia.

#[global] Open Scope Z_scope.

(** ** JavaScript errors and results

    A TypeScript function that can throw is a function into [result].  The
    error value keeps the class of the exception and what callers branch on:
    the message of a plain [Error], the code of an [EncryptionError] or of
    another coded class. *)
Inductive exn : Type :=
  | Error (message : string)
  | CodedError (cls : string) (code : string).

(** [new EncryptionError(message, code)]: callers branch on the code. *)
Definition EncryptionError (code : string) : exn := CodedError "EncryptionError" code.

#[export] Instance exn_eq_dec : EqDecision exn.
Proof. solve_decision. Defined.

Inductive result (A : Type) : Type :=
  | Ok (a : A)
  | Throw (e : exn).
Arguments Ok {A} a.
Arguments Throw {A} e.

#[export] Instance result_eq_dec `{EqDecision A} : EqDecision (result A).
Proof. solve_decision. Defined.

#[export] Instance result_ret : MRet result := fun A a => Ok a.
#[export] Instance result_bind : MBind result := fun A B f r =>
  match r with Ok a => f a | Throw e => Throw e end.
#[export] Instance result_fmap : FMap result := fun A B f r =>
  match r with Ok a => Ok (f a) | Throw e => Throw e end.

Definition is_ok {A} (r : result A) : bool :=
  match r with Ok _ => true | Throw _ => false end.

(** [throw_when b e]: the guard [if (b) throw e]. *)
Definition throw_when (b : bool) (e : exn) : result unit :=
  if b then Throw e else Ok tt.

(** Map a throwing function over a list, left to right, as a [for] loop that
    pushes each value does. *)
Fixpoint mapM_result {A B} (f : A -> result B) (l : list A) : result (list B) :=
  match l with
  | [] => Ok []
  | a :: l' => b ← f a; bs ← mapM_result f l'; Ok (b :: bs)
  end.

(** [for (const a of l) b = f(b, a)] with a body that may throw. *)
Fixpoint foldM_result {A B} (f : B -> A -> result B) (b : B) (l : list A) : result B :=
  match l with
  | [] => Ok b
  | a :: l' => b' ← f b a; foldM_result f b' l'
  end.

(** ** Mutation and exceptions together

    An operation that mutates an object and may throw returns the state the
    object has after the call in both cases: a JavaScript exception does not
    undo the assignments that precede it. *)
Definition M (S A : Type) : Type := S -> S * result A.

Definition M_ret {S A} (a : A) : M S A := fun s => (s, Ok a).
Definition M_bind {S A B} (f : A -> M S B) (m : M S A) : M S B := fun s =>
  match m s with
  | (s', Ok a) => f a s'
  | (s', Throw e) => (s', Throw e)
  end.
Definition M_throw {S A} (e : exn) : M S A := fun s => (s, Throw e).
Definition M_get {S} : M S S := fun s => (s, Ok s).
Definition M_put {S} (s : S) : M S unit := fun _ => (s, Ok tt).
Definition M_modify {S} (f : S -> S) : M S unit := fun s => (f s, Ok tt).
Definition M_lift {S A} (r : result A) : M S A := fun s => (s, r).

Declare Scope st_scope.
Delimit Scope st_scope with st.
Notation "'do' x <- m ; k" := (M_bind (fun x => k) m)
  (at level 60, x pattern, m at next level, right associativity) : st_scope.
Notation "'do_' m ; k" := (M_bind (fun _ => k) m)
  (at level 60, m at next level, right associativity) : st_scope.

Lemma M_bind_Ok {S A B} (f : A -> M S B) (m : M S A) s s' a : m s = (s', Ok a) -> M_bind f m s = f a s'.
Proof. intros H. unfold M_bind. by rewrite H. Qed.

Lemma M_bind_inv {S A B} (f : A -> M S B) (m : M S A) s s' b : M_bind f m s = (s', Ok b) ->
  exists s1 a, m s = (s1, Ok a) /\ f a s1 = (s', Ok b).
Proof. unfold M_bind. destruct (m s) as [s1 [a|e]]; [|done]. eauto. Qed.

Lemma M_modify_inv {S} (f : S -> S) s s' u : M_modify f s = (s', Ok u) -> s' = f s.
Proof. by intros [= <- _]. Qed.
Lemma M_lift_inv {S A} (r : result A) (s s' : S) a : M_lift r s = (s', Ok a) -> s' = s /\ r = Ok a.
Proof. unfold M_lift. by intros [= <- ->]. Qed.

(** Take the first step off a composite computation that has returned. *)
Ltac inv_bind E x s1 E1 := apply M_bind_inv in E as (s1 & x & E1 & E).

Lemma M_is_ok {S A} (m : M S A) s : is_ok (m s).2 = true -> exists a, m s = ((m s).1, Ok a).
Proof. destruct (m s) as [s' [a|e]]; [by exists a|done]. Qed.

(** A value computed from the state. *)
Definition M_gets {S A} (f : S -> A) : M S A := fun s => (s, Ok (f s)).

(** [for (const a of l) f(a)] *)
Fixpoint for_each {S A} (f : A -> M S unit) (l : list A) : M S unit :=
  match l with
  | [] => M_ret tt
  | a :: l => M_bind (fun _ => for_each f l) (f a)
  end.

(** One step of a computation. *)
Lemma run_gets {S A B} (f : A -> M S B) (g : S -> A) s : M_bind f (M_gets g) s = f (g s) s.
Proof. done. Qed.
Lemma run_lift {S A B} (f : A -> M S B) (a : A) s : M_bind f (M_lift (Ok a)) s = f a s.
Proof. done. Qed.
Lemma run_modify {S B} (f : unit -> M S B) (g : S -> S) s : M_bind f (M_modify g) s = f tt (g s).
Proof. done. Qed.

(** *** Computations that keep an invariant, also when they throw *)
Definition maintains {S A} (I : S -> Prop) (m : M S A) : Prop := forall s, I s -> I (m s).1.

Section Maintains.
Context {S : Type} (I : S -> Prop).

Lemma maintains_bind {A B} (m : M S A) (f : A -> M S B) : maintains I m -> (forall a, maintains I (f a)) -> maintains I (M_bind f m).
Proof.
  intros Hm Hf s Hs. unfold M_bind. specialize (Hm s Hs). destruct (m s) as [s' [a|e]]; [by apply Hf|done].
Qed.
Lemma maintains_pure {A} (m : M S A) : (forall s, (m s).1 = s) -> maintains I m.
Proof. intros Hm s Hs. by rewrite Hm. Qed.
Lemma maintains_modify f : (forall s, I s -> I (f s)) -> maintains I (M_modify f).
Proof. intros Hf s Hs. by apply Hf. Qed.
Lemma maintains_ret {A} (a : A) : maintains I (M_ret a).
Proof. by intros s. Qed.
Lemma maintains_throw {A} e : maintains I (M_throw e : M S A).
Proof. by intros s. Qed.
Lemma maintains_lift {A} (r : result A) : maintains I (M_lift r).
Proof. by intros s. Qed.
Lemma maintains_gets {A} (f : S -> A) : maintains I (M_gets f).
Proof. by intros s. Qed.
Lemma maintains_read : maintains I M_get.
Proof. by intros s. Qed.

(** A computation that depends on the current state. *)
Lemma maintains_get {B} (f : S -> M S B) : (forall s, I s -> I (f s s).1) -> maintains I (M_bind f M_get).
Proof. intros Hf s Hs. unfold M_bind, M_get. by apply Hf. Qed.
Lemma maintains_bind_gets {A B} (g : S -> A) (f : A -> M S B) : (forall s, I s -> I (f (g s) s).1) -> maintains I (M_bind f (M_gets g)).
Proof. intros Hf s Hs. unfold M_bind, M_gets. by apply Hf. Qed.
End Maintains.

Create HintDb maintain discriminated.
#[export] Hint Resolve maintains_ret maintains_throw maintains_lift maintains_gets maintains_read : maintain.

(** Walk through a computation; what remains are its changes of the state. *)
Ltac keeps :=
  repeat first
  [ match goal with |- maintains _ (M_bind _ _) => apply maintains_bind; [|intros ?] end
  | solve [auto 1 with maintain nocore]
  | match goal with |- maintains _ (match ?x with _ => _ end) => destruct x end
  | match goal with |- maintains _ (if ?x then _ else _) => destruct x end
  | match goal with |- maintains _ (let '_ := ?x in _) => destruct x end
  | progress cbn zeta ].

(** ** 32-bit integer operators of JavaScript *)
Definition to_uint32 (z : Z) : Z := z mod 2 ^ 32.
Definition to_int32 (z : Z) : Z :=
  let u := to_uint32 z in if u <? 2 ^ 31 then u else u - 2 ^ 32.
Definition js_shl (a b : Z) : Z := to_int32 (Z.shiftl (to_int32 a) (b mod 32)).
Definition js_ushr (a b : Z) : Z := Z.shiftr (to_uint32 a) (b mod 32).
Definition js_shr (a b : Z) : Z := Z.shiftr (to_int32 a) (b mod 32).
Definition js_or (a b : Z) : Z := Z.lor (to_int32 a) (to_int32 b).
Definition js_and (a b : Z) : Z := Z.land (to_int32 a) (to_int32 b).

(** [Number.MAX_SAFE_INTEGER], [Number.isSafeInteger] *)
Definition MAX_SAFE_INTEGER : Z := 2 ^ 53 - 1.
Definition isSafeInteger (v : Z) : bool := (- MAX_SAFE_INTEGER <=? v) && (v <=? MAX_SAFE_INTEGER).

(** ** Bytes

    A [Uint8Array] is a list of integers; storing an integer keeps its low
    eight bits. *)
Abbreviation bytes := (list Z).
Definition u8 (z : Z) : Z := z mod 256.
Definition is_byte (z : Z) : Prop := 0 <= z < 256.
Abbreviation is_bytes := (Forall is_byte).

#[export] Instance is_byte_dec z : Decision (is_byte z).
Proof. unfold is_byte. apply _. Defined.

(** The bytes, and the UTF-16 code units, of an ASCII literal. *)
Definition bytes_of_string (s : string) : bytes := map (fun a => Z.of_N (Ascii.N_of_ascii a)) (String.list_ascii_of_string s).

(** JavaScript's [length] of an array, as a number. *)
Definition len {A} (l : list A) : Z := Z.of_nat (length l).

(** [l[i]] for an index that the code has checked; [d] stands for
    [undefined]. *)
Definition nthZ {A} (d : A) (l : list A) (i : Z) : A := nth (Z.to_nat i) l d.

(** ** Tactics and hints *)
Create HintDb s2p.
#[export] Hint Unfold is_byte : s2p.

Ltac case_if :=
  match goal with
  | |- context [if ?b then _ else _] => let E := fresh "Hb" in destruct b eqn:E
  end.
Ltac case_if_in H :=
  match type of H with
  | context [if ?b then _ else _] => let E := fresh "Hb" in destruct b eqn:E
  end.

(** Turn boolean comparisons of [Z] in the context into propositions. *)
Ltac b2p :=
  repeat match goal with
  | H : context [_ >=? _] |- _ => rewrite Z.geb_leb in H
  | H : context [_ >? _] |- _ => rewrite Z.gtb_ltb in H
  | H : (_ && _)%bool = true |- _ => apply andb_true_iff in H; destruct H
  | H : (_ || _)%bool = false |- _ => apply orb_false_iff in H; destruct H
  | H : negb _ = true |- _ => apply negb_true_iff in H
  | H : negb _ = false |- _ => apply negb_false_iff in H
  | H : (_ <? _) = true |- _ => apply Z.ltb_lt in H
  | H : (_ <? _) = false |- _ => apply Z.ltb_ge in H
  | H : (_ <=? _) = true |- _ => apply Z.leb_le in H
  | H : (_ <=? _) = false |- _ => apply Z.leb_gt in H
  | H : (_ =? _) = true |- _ => apply Z.eqb_eq in H
  | H : (_ =? _) = false |- _ => apply Z.eqb_neq in H
  end.

(** ** Lemmas on results *)
Lemma Ok_inj {A} (a b : A) : Ok a = Ok b -> a = b.
Proof. by intros [= ->]. Qed.

Lemma bind_Ok {A B} (f : A -> result B) (r : result A) (b : B) :
  (r ≫= f) = Ok b <-> exists a, r = Ok a /\ f a = Ok b.
Proof.
  destruct r as [a|e]; cbn; split; [eauto| |discriminate|].
  - intros (a' & [= ->] & ?). done.
  - intros (a' & ? & ?). discriminate.
Qed.

Lemma throw_when_Ok b e u : throw_when b e = Ok u <-> b = false.
Proof. destruct b; [done|]. by destruct u. Qed.

Lemma mapM_result_Ok {A B} (f : A -> result B) (g : A -> B) (l : list A) :
  (forall a, a ∈ l -> f a = Ok (g a)) -> mapM_result f l = Ok (map g l).
Proof.
  induction l as [|a l IH]; intros Hf; cbn; [done|].
  rewrite Hf by left. cbn. rewrite IH; [done|].
  intros b Hb. apply Hf. by right.
Qed.

(** ** Lemmas on lengths and bytes *)
Lemma len_nonneg {A} (l : list A) : 0 <= len l.
Proof. unfold len. lia. Qed.

Lemma len_app {A} (l k : list A) : len (l ++ k) = len l + len k.
Proof. unfold len. rewrite length_app. lia. Qed.

Lemma len_cons {A} (a : A) l : len (a :: l) = 1 + len l.
Proof. unfold len. cbn [length]. lia. Qed.

Lemma len_nil {A} : len (@nil A) = 0.
Proof. done. Qed.

Lemma u8_byte z : is_byte (u8 z).
Proof. unfold is_byte, u8. apply Z.mod_pos_bound. lia. Qed.

Lemma u8_id z : is_byte z -> u8 z = z.
Proof. apply Z.mod_small. Qed.

Lemma NoDup_interval_length (l : list Z) (n : Z) : NoDup l -> (forall x, x ∈ l -> 0 <= x < n) -> 0 <= n -> len l <= n.
Proof.
  intros Hnd Hin Hn. assert (Hsub : l ⊆+ seqZ 0 n).
  { apply NoDup_submseteq; [done|]. intros x Hx. apply elem_of_seqZ. apply Hin in Hx. lia. }
  apply submseteq_length in Hsub. rewrite length_seqZ in Hsub. unfold len. lia.
Qed.

(** ** Positions of a list *)
Lemma nth_in {A} (l : list A) i d : (i < length l)%nat -> nth i l d ∈ l.
Proof. intros. rewrite list_elem_of_In. by apply nth_In. Qed.

Lemma nth_lookup_eq {A} (l : list A) i d : (i < length l)%nat -> l !! i = Some (nth i l d).
Proof. revert i. induction l as [|a l IH]; intros [|i] H; cbn in *; try lia; [done|]. apply IH. lia. Qed.

Lemma nodup_nth_delete {A} (l : list A) i d : NoDup l -> (i < length l)%nat -> nth i l d ∉ delete i l.
Proof.
  revert i. induction l as [|a l IH]; intros [|i] Hnd H; cbn in *; try lia; apply NoDup_cons in Hnd as [Hni Hnd].
  - done.
  - apply not_elem_of_cons. split; [|apply IH; [done|lia]].
    intros <-. apply Hni, nth_in. lia.
Qed.

Lemma nth_delete_other {A} (l : list A) i m d : (m < length l)%nat -> i <> m -> nth m l d ∈ delete i l.
Proof.
  revert i m. induction l as [|a l IH]; intros [|i] [|m] H Hne; cbn in *; try lia.
  - apply nth_in. lia.
  - left.
  - right. apply IH; lia.
Qed.

(** A loop [for (let j = 0; j < l.length; j++)] that reads [l[j]] is the fold
    that carries the index along. *)
Fixpoint fold_lefti {A B} (h : B -> nat -> A -> B) (l : list A) (o : nat) (acc : B) : B :=
  match l with [] => acc | x :: l => fold_lefti h l (S o) (h acc o x) end.

Lemma fold_seq_nth_app {A B} (h : B -> nat -> A -> B) (d : A) (l pre : list A) (acc : B) :
  fold_left (fun b j => h b j (nth j (pre ++ l) d)) (seq (length pre) (length l)) acc =
  fold_lefti h l (length pre) acc.
Proof.
  revert pre acc. induction l as [|x l IH]; intros pre acc; [done|]. cbn.
  rewrite app_nth2, Nat.sub_diag by lia. cbn [nth].
  specialize (IH (pre ++ [x]) (h acc (length pre) x)).
  rewrite <- app_assoc, length_app, Nat.add_comm in IH. apply IH.
Qed.

Lemma fold_seq_nth {A B} (h : B -> nat -> A -> B) (d : A) (l : list A) (acc : B) :
  fold_left (fun b j => h b j (nth j l d)) (seq 0 (length l)) acc = fold_lefti h l 0 acc.
Proof. apply (fold_seq_nth_app h d l []). Qed.

Lemma nth_insert {A} (d : A) (l : list A) i v m : (i < length l)%nat ->
  nth m (<[i := v]> l) d = if decide (m = i) then v else nth m l d.
Proof.
  revert i m. induction l as [|a l IH]; intros [|i] [|m] Hi; cbn in *; try lia; try done.
  rewrite IH by lia. destruct (decide (m = i)), (decide (S m = S i)); done || lia.
Qed.

Lemma nth_ext_eq {A} (d : A) (l k : list A) : length l = length k ->
  (forall i, (i < length l)%nat -> nth i l d = nth i k d) -> l = k.
Proof. intros Hlen H. by apply (nth_ext l k d d). Qed.

Lemma nth_replicate_same {A} (c : A) n i : nth i (replicate n c) c = c.
Proof. revert i. induction n as [|n IH]; intros [|i]; cbn; auto. Qed.

(** In-place updates.  A descending loop reads the old left neighbour; an
    ascending loop that reads only its own entry updates each entry once. *)
Lemma length_fold_insert {A} (g : list A -> nat -> A) ks l :
  length (fold_left (fun e i => <[i := g e i]> e) ks l) = length l.
Proof. revert l. induction ks as [|i ks IH]; intros l; cbn; [done|]. by rewrite IH, length_insert. Qed.

Lemma nth_fold_desc {A} (d : A) (h : nat -> A -> A -> A) s n m : forall l,
  (1 <= s)%nat -> (s + n <= length l)%nat ->
  nth m (fold_left (fun e i => <[i := h i (nth (i - 1) e d) (nth i e d)]> e) (rev (seq s n)) l) d =
  if decide (s <= m < s + n)%nat then h m (nth (m - 1) l d) (nth m l d) else nth m l d.
Proof.
  induction n as [|n IH]; intros l Hs Hn.
  - cbn. by rewrite decide_False by lia.
  - rewrite seq_S, rev_app_distr. cbn [rev app fold_left].
    rewrite IH by (rewrite ?length_insert; lia).
    destruct (decide (s <= m < s + n)%nat).
    + rewrite !nth_insert by lia. rewrite !decide_False by lia. by rewrite decide_True by lia.
    + rewrite nth_insert by lia. destruct (decide (m = s + n)%nat) as [->|].
      * by rewrite decide_True by lia.
      * by rewrite decide_False by lia.
Qed.

Lemma nth_fold_asc {A} (d : A) (h : nat -> A -> A) s n m : forall l,
  (s + n <= length l)%nat ->
  nth m (fold_left (fun e i => <[i := h i (nth i e d)]> e) (seq s n) l) d =
  if decide (s <= m < s + n)%nat then h m (nth m l d) else nth m l d.
Proof.
  revert s. induction n as [|n IH]; intros s l Hn; cbn [seq fold_left].
  - by rewrite decide_False by lia.
  - rewrite IH by (rewrite length_insert; lia). rewrite nth_insert by lia.
    destruct (decide (m = s)) as [->|].
    + rewrite decide_False by lia. by rewrite decide_True by lia.
    + destruct (decide (S s <= m < S s + n)%nat).
      * by rewrite decide_True by lia.
      * by rewrite decide_False by lia.
Qed.

(** A fold commutes with a map that each step commutes with. *)
Lemma fold_left_hom {A B C} (f : A -> C -> A) (g : B -> C -> B) (v : B -> A) l :
  (forall b c, c ∈ l -> f (v b) c = v (g b c)) ->
  forall b, fold_left f l (v b) = v (fold_left g l b).
Proof.
  induction l as [|c l IH]; intros H b; cbn; [done|].
  rewrite H by left. apply IH. intros. apply H. by right.
Qed.

(** ** Bit operations as arithmetic *)
Lemma lor_shiftl_add a b n : 0 <= n -> 0 <= a < 2 ^ n -> Z.lor a (Z.shiftl b n) = a + b * 2 ^ n.
Proof.
  intros Hn Ha. rewrite Z.shiftl_mul_pow2 by done. rewrite <- Z.add_lor_land.
  enough (E : Z.land a (b * 2 ^ n) = 0) by lia.
  apply Z.bits_inj'. intros i Hi. rewrite Z.land_spec, Z.bits_0, <- Z.shiftl_mul_pow2 by done.
  rewrite Z.shiftl_spec by done. destruct (Z_lt_dec i n).
  - by rewrite (Z.testbit_neg_r b), andb_false_r by lia.
  - destruct (decide (a = 0)) as [->|]; [by rewrite Z.bits_0|].
    rewrite (Z.bits_above_log2 a); [done|lia|].
    apply Z.lt_le_trans with n; [apply Z.log2_lt_pow2; lia|lia].
Qed.

Lemma land_127 z : Z.land z 127 = z mod 128.
Proof. change 127 with (Z.ones 7). by rewrite Z.land_ones. Qed.

Lemma land_7 z : Z.land z 7 = z mod 8.
Proof. change 7 with (Z.ones 3). by rewrite Z.land_ones. Qed.

Lemma land_255 z : Z.land z 255 = z mod 256.
Proof. change 255 with (Z.ones 8). by rewrite Z.land_ones. Qed.

Lemma lor_128 m : 0 <= m < 128 -> Z.lor m 128 = m + 128.
Proof. intros. change 128 with (Z.shiftl 1 7) at 1. rewrite lor_shiftl_add; lia. Qed.

(** A property of bytes checked by enumeration. *)
Lemma byte_forallb (P : Z -> bool) : forallb P (map Z.of_nat (seq 0 256)) = true ->
  forall b, is_byte b -> P b = true.
Proof.
  intros H b [? ?]. rewrite forallb_forall in H. apply H, in_map_iff.
  exists (Z.to_nat b). split; [lia|]. apply in_seq. lia.
Qed.

(** The high bit of a byte. *)
Lemma land_128 b : is_byte b -> (Z.land b 128 =? 0) = (b <? 128).
Proof.
  intros Hb. apply eqb_prop.
  by apply (byte_forallb (fun b => Bool.eqb (Z.land b 128 =? 0) (b <? 128))).
Qed.

(** 32-bit operators on numbers they do not change. *)
Lemma to_uint32_id z : 0 <= z < 2 ^ 32 -> to_uint32 z = z.
Proof. apply Z.mod_small. Qed.

Lemma to_int32_id z : 0 <= z < 2 ^ 31 -> to_int32 z = z.
Proof. intros. unfold to_int32. rewrite to_uint32_id by lia. by replace (z <? 2 ^ 31) with true by lia. Qed.

Lemma to_int32_cases z : 0 <= z < 2 ^ 32 -> to_int32 z = z \/ to_int32 z = z - 2 ^ 32.
Proof. intros. unfold to_int32. rewrite to_uint32_id by lia. case_if; auto. Qed.

Lemma js_and_small z n : 0 <= z < 2 ^ 32 -> 0 <= n <= 31 -> js_and z (Z.ones n) = z mod 2 ^ n.
Proof.
  intros Hz Hn. unfold js_and.
  assert (Ho : 0 <= Z.ones n < 2 ^ 31).
  { rewrite Z.ones_equiv. pose proof (Z.pow_pos_nonneg 2 n). pose proof (Z.pow_le_mono_r 2 n 31). lia. }
  rewrite (to_int32_id (Z.ones n)) by done. rewrite Z.land_ones by lia.
  destruct (to_int32_cases z Hz) as [->| ->]; [done|].
  replace (2 ^ 32) with (2 ^ (32 - n) * 2 ^ n) by (rewrite <- Z.pow_add_r by lia; f_equal; lia).
  rewrite Zminus_mod, Z_mod_mult, Z.sub_0_r. apply Z.mod_mod. pose proof (Z.pow_pos_nonneg 2 n). lia.
Qed.

Lemma js_ushr_div z n : 0 <= z < 2 ^ 32 -> 0 <= n < 32 -> js_ushr z n = z / 2 ^ n.
Proof.
  intros Hz Hn. unfold js_ushr. rewrite to_uint32_id by done. rewrite (Z.mod_small n 32) by lia.
  apply Z.shiftr_div_pow2. lia.
Qed.

(** The low 32 bits commute with the operators. *)
Lemma to_uint32_land z : to_uint32 z = Z.land z (Z.ones 32).
Proof. unfold to_uint32. by rewrite Z.land_ones. Qed.

Lemma to_uint32_int32 z : to_uint32 (to_int32 z) = to_uint32 z.
Proof.
  unfold to_int32. case_if; unfold to_uint32; [by rewrite Z.mod_mod|].
  rewrite Zminus_mod, Z_mod_same_full, Z.sub_0_r. by rewrite !Z.mod_mod.
Qed.

Lemma to_uint32_or a b : to_uint32 (js_or a b) = Z.lor (to_uint32 a) (to_uint32 b).
Proof.
  unfold js_or. rewrite to_uint32_land, Z.land_lor_distr_l, <- !to_uint32_land. by rewrite !to_uint32_int32.
Qed.

Lemma to_uint32_shl a n : 0 <= n < 32 -> 0 <= a < 2 ^ 31 -> to_uint32 (js_shl a n) = to_uint32 (a * 2 ^ n).
Proof.
  intros Hn Ha. unfold js_shl. rewrite to_uint32_int32, to_int32_id, (Z.mod_small n) by lia.
  by rewrite Z.shiftl_mul_pow2 by lia.
Qed.

Create Rewrite HintDb lens.
#[export] Hint Rewrite @len_app @len_cons @len_nil : lens.
#[export] Hint Resolve len_nonneg u8_byte : s2p.

(** Linear arithmetic on lengths. *)
Ltac len_pos :=
  repeat match goal with
  | |- context [len ?l] => lazymatch goal with H : 0 <= len l |- _ => fail | _ => pose proof (len_nonneg l) end
  | _ : context [len ?l] |- _ => lazymatch goal with H : 0 <= len l |- _ => fail | _ => pose proof (len_nonneg l) end
  end.
Ltac len_lia := autorewrite with lens in *; len_pos; lia.

(** ** Removal by collected positions

    The loops that collect positions in ascending order and then [splice] them
    out in descending order. *)
Fixpoint marked {A} (p : A -> bool) (l : list A) (i : nat) : list nat :=
  match l with
  | [] => []
  | x :: l => if p x then i :: marked p l (S i) else marked p l (S i)
  end.

Definition splice_reverse {A} (idxs : list nat) (l : list A) : list A := fold_left (fun l i => delete i l) (rev idxs) l.

Lemma marked_S {A} (p : A -> bool) l : forall i, marked p l (S i) = map S (marked p l i).
Proof. induction l as [|x l IH]; intros i; cbn; [done|]. destruct (p x); cbn; by rewrite IH. Qed.

Lemma fold_delete_S {A} (idxs : list nat) : forall (x : A) l,
  fold_left (fun l i => delete i l) (map S idxs) (x :: l) = x :: fold_left (fun l i => delete i l) idxs l.
Proof. induction idxs as [|i idxs IH]; intros x l; [done|]. cbn [map fold_left]. apply (IH x (delete i l)). Qed.

Lemma splice_marked {A} (p : A -> bool) l : splice_reverse (marked p l 0) l = List.filter (fun x => negb (p x)) l.
Proof.
  unfold splice_reverse. induction l as [|x l IH]; [done|]. cbn [marked List.filter]. rewrite marked_S. destruct (p x); cbn [negb].
  - cbn [rev]. rewrite fold_left_app, <- map_rev, fold_delete_S. cbn [fold_left delete list_delete]. exact IH.
  - by rewrite <- map_rev, fold_delete_S, IH.
Qed.
