(* ===== verification/JsMap.v ===== *)
(** * JavaScript's [Map]

    A [Map] iterates over its entries in the order of their insertion: it is
    the list of the entries.  Setting a key that is present keeps its place.
    String keys built with [JSON.stringify] of a tuple are the tuple, which the
    quotes make unambiguous. *)
From S2P Require Import Prelude.

Abbreviation Map K V := (list (K * V)).

Section JsMap.
Context {K V : Type} `{EqDecision K}.

Fixpoint Map_get (k : K) (m : Map K V) : option V :=
  match m with
  | [] => None
  | (k', v) :: m => if decide (k' = k) then Some v else Map_get k m
  end.

Fixpoint Map_set (k : K) (v : V) (m : Map K V) : Map K V :=
  match m with
  | [] => [(k, v)]
  | (k', v') :: m => if decide (k' = k) then (k, v) :: m else (k', v') :: Map_set k v m
  end.

Definition Map_delete (k : K) (m : Map K V) : Map K V := filter (fun e => e.1 <> k) m.

Lemma Map_get_set k v m k' : Map_get k' (Map_set k v m) = if decide (k = k') then Some v else Map_get k' m.
Proof.
  induction m as [|[a w] m IH]; cbn; [done|].
  destruct (decide (a = k)) as [->|]; cbn; [repeat case_decide; done|]. rewrite IH. repeat case_decide; congruence.
Qed.

Lemma Map_get_delete k m k' : Map_get k' (Map_delete k m) = if decide (k = k') then None else Map_get k' m.
Proof.
  unfold Map_delete. induction m as [|[a w] m IH]; [by case_decide|]. destruct (decide (a = k)) as [->|].
  - rewrite filter_cons_False by (cbn; auto). rewrite IH. cbn. by repeat case_decide.
  - rewrite filter_cons_True by done. cbn. rewrite IH. repeat case_decide; congruence.
Qed.

Lemma Map_get_In k v m : Map_get k m = Some v -> (k, v) ∈ m.
Proof. induction m as [|[a w] m IH]; cbn; [done|]. case_decide; [intros [= ->]; subst; left|right; auto]. Qed.

Lemma Map_get_Some k v m : NoDup m.*1 -> (k, v) ∈ m -> Map_get k m = Some v.
Proof.
  induction m as [|[a w] m IH]; cbn; intros Hd Hin; [by apply not_elem_of_nil in Hin|]. apply NoDup_cons in Hd as [Ha Hd].
  apply elem_of_cons in Hin as [[= -> ->]|Hin]; [by rewrite decide_True|]. rewrite decide_False; [auto|].
  intros ->. apply Ha, list_elem_of_fmap. by exists (k, v).
Qed.

Lemma Map_get_None k m : Map_get k m = None <-> k ∉ m.*1.
Proof.
  induction m as [|[a w] m IH]; cbn; [split; [intros _; apply not_elem_of_nil|done]|]. rewrite not_elem_of_cons, <- IH. case_decide; naive_solver.
Qed.

(** The keys of a map that has been built by [set] and [delete]. *)
Lemma Map_set_keys k v m : (Map_set k v m).*1 = if decide (k ∈ m.*1) then m.*1 else m.*1 ++ [k].
Proof.
  induction m as [|[a w] m IH]; [done|]. cbn [Map_set]. destruct (decide (a = k)) as [->|Ha]; cbn.
  - by rewrite decide_True by left.
  - rewrite IH. repeat case_decide; rewrite ?elem_of_cons in *; try done; naive_solver.
Qed.

Lemma Map_set_NoDup k v m : NoDup m.*1 -> NoDup (Map_set k v m).*1.
Proof. intros Hd. rewrite Map_set_keys. case_decide; [done|]. apply NoDup_app. split; [done|]. split; [set_solver|apply NoDup_singleton]. Qed.

Lemma Map_delete_sublist k m : Map_delete k m `sublist_of` m.
Proof. unfold Map_delete. induction m as [|e m IH]; [done|]. rewrite filter_cons. case_decide; by constructor. Qed.

Lemma filter_keys_NoDup (P : K * V -> Prop) `{!forall e, Decision (P e)} m : NoDup m.*1 -> NoDup (filter P m).*1.
Proof.
  induction m as [|[a w] m IH]; [done|]. intros [Ha Hd]%NoDup_cons. rewrite filter_cons. case_decide; [|auto]. cbn. apply NoDup_cons.
  split; [|auto]. intros (e & E & He)%list_elem_of_fmap. apply list_elem_of_filter in He as [_ He]. apply Ha, list_elem_of_fmap. by exists e.
Qed.

Lemma Map_delete_NoDup k m : NoDup m.*1 -> NoDup (Map_delete k m).*1.
Proof. apply filter_keys_NoDup. Qed.

Lemma length_Map_set k v m : (length (Map_set k v m) <= S (length m))%nat.
Proof. induction m as [|[a w] m IH]; cbn; [done|]. case_decide; cbn; lia. Qed.

Lemma length_Map_set_present k v m : is_Some (Map_get k m) -> length (Map_set k v m) = length m.
Proof. intros [w Hw]. induction m as [|[a u] m IH]; [done|]. cbn in *. case_decide; [done|]. cbn. by rewrite IH. Qed.
End JsMap.

#[global] Arguments Map_delete : simpl never.
