(* ===== verification/GaloisField.v ===== *)
(** * GF(2^16) arithmetic ([internal/protocol/spqr/ml-kem-braid/rs/galois])

    [GaloisField] is the interface of [field.ts]: the operations that the
    polynomial and erasure-coding components call.  [GaloisFieldLaws] states
    what they rely on, and the table-driven class [GaloisField16] is shown to
    satisfy it.  The last section packages the elements of a lawful field as
    a type with a [field_theory], so that [ring] and [field] work in the
    client components. *)
From Stdlib Require Import Field Field_theory Ring Eqdep_dec.
From S2P Require Import Prelude.

(** ** The interface *)
Class GaloisField := {
  gf_size : Z;
  gf_mul : Z -> Z -> Z;
  gf_div : Z -> Z -> result Z;
  gf_add : Z -> Z -> Z;
}.

Definition in_field `{GaloisField} (x : Z) : Prop := 0 <= x < gf_size.

#[export] Instance in_field_dec `{GaloisField} x : Decision (in_field x).
Proof. unfold in_field. apply _. Defined.

Class GaloisFieldLaws (F : GaloisField) : Prop := {
  gf_size_gt1 : 1 < gf_size;
  gf_add_xor : forall x y, gf_add x y = Z.lxor x y;
  gf_xor_closed : forall x y, in_field x -> in_field y -> in_field (Z.lxor x y);
  gf_mul_closed : forall x y, in_field x -> in_field y -> in_field (gf_mul x y);
  gf_mul_comm : forall x y, in_field x -> in_field y -> gf_mul x y = gf_mul y x;
  gf_mul_assoc : forall x y z, in_field x -> in_field y -> in_field z ->
    gf_mul (gf_mul x y) z = gf_mul x (gf_mul y z);
  gf_mul_1_l : forall x, in_field x -> gf_mul 1 x = x;
  gf_mul_xor_l : forall x y z, in_field x -> in_field y -> in_field z ->
    gf_mul (Z.lxor x y) z = Z.lxor (gf_mul x z) (gf_mul y z);
  gf_div_0 : forall x, exists e, gf_div x 0 = Throw e;
  gf_div_spec : forall x y, in_field x -> in_field y -> y <> 0 ->
    exists q, gf_div x y = Ok q /\ in_field q /\ gf_mul q y = x;
}.

(** ** The tables of [tables-16.ts]

    [EXP_TABLE[i]] is [alpha^i] and has 131,072 entries; [LOG_TABLE[alpha^i]]
    is [i] for [0 <= i < 65535], and [LOG_TABLE[0]] is 0. *)
Definition GF16_GENERATOR : Z := 0x100b.
Definition GF16_SIZE : Z := 65536.

(** Multiplication by the primitive element [alpha = 2]. *)
Definition xtime (v : Z) : Z :=
  let w := Z.shiftl v 1 in
  if Z.testbit w 16 then Z.lxor w (Z.lor GF16_SIZE GF16_GENERATOR) else w.

Fixpoint fill_exp (n : nat) (i v : Z) (m : gmap Z Z) : gmap Z Z :=
  match n with
  | O => m
  | S n => fill_exp n (i + 1) (xtime v) (<[i := v]> m)
  end.
Fixpoint fill_log (n : nat) (i v : Z) (m : gmap Z Z) : gmap Z Z :=
  match n with
  | O => m
  | S n => fill_log n (i + 1) (xtime v) (<[v := i]> m)
  end.
Definition EXP_TABLE : gmap Z Z := fill_exp (Z.to_nat 131072) 0 1 ∅.
Definition LOG_TABLE : gmap Z Z := fill_log (Z.to_nat 65535) 0 1 {[0 := 0]}.

(** Typed-array reads; [0] stands for the [undefined] of an index outside. *)
Definition exp_at (i : Z) : Z := default 0 (EXP_TABLE !! i).
Definition log_at (x : Z) : Z := default 0 (LOG_TABLE !! x).

(** ** [class GaloisField16] *)
Definition gf16_mask : Z := GF16_SIZE - 1.

(** [exp] and [log] check their bounds in development mode only. *)
Definition gf16_exp (dev : bool) (i : Z) : result (option Z) :=
  if dev && ((i <? 0) || (i >=? 131072)) then Throw (Error "GF(2^16) exp index out of bounds")
  else Ok (EXP_TABLE !! i).
Definition gf16_log (dev : bool) (x : Z) : result (option Z) :=
  if dev && ((x <=? 0) || (x >=? GF16_SIZE)) then Throw (Error "GF(2^16) log argument out of bounds")
  else Ok (LOG_TABLE !! x).

Definition gf16_mul (x y : Z) : Z :=
  if (x =? 0) || (y =? 0) then 0 else exp_at (log_at x + log_at y).

Definition gf16_div (x y : Z) : result Z :=
  if y =? 0 then Throw (Error "Division by zero in GF(2^16)")
  else
    let safeX := if x =? 0 then 1 else x in
    let computedResult := exp_at (log_at safeX + 65535 - log_at y) in
    Ok (if x =? 0 then 0 else computedResult).

Definition gf16_add (x y : Z) : Z := Z.lxor x y.

#[export] Instance GaloisField16 : GaloisField := {|
  gf_size := GF16_SIZE; gf_mul := gf16_mul; gf_div := gf16_div; gf_add := gf16_add |}.

(** ** The tables hold the powers of [alpha] *)
Definition xpow (n : nat) (v : Z) : Z := Nat.iter n xtime v.

Lemma xpow_add n m v : xpow (n + m) v = xpow n (xpow m v).
Proof. apply Nat.iter_add. Qed.

Lemma xpow_S n v : xpow (S n) v = xpow n (xtime v).
Proof. apply Nat.iter_succ_r. Qed.

Lemma fill_exp_lookup n : forall i v m j,
  fill_exp n i v m !! j =
    if decide (i <= j < i + Z.of_nat n) then Some (xpow (Z.to_nat (j - i)) v) else m !! j.
Proof.
  induction n as [|n IH]; intros i v m j; cbn [fill_exp].
  { rewrite decide_False by lia. done. }
  rewrite IH. destruct (decide (i + 1 <= j < i + 1 + Z.of_nat n)).
  - rewrite decide_True by lia.
    replace (Z.to_nat (j - i)) with (S (Z.to_nat (j - (i + 1)))) by lia.
    by rewrite xpow_S.
  - destruct (decide (i = j)) as [<-|].
    + rewrite lookup_insert_eq. rewrite decide_True by lia.
      rewrite Z.sub_diag. done.
    + rewrite lookup_insert_ne by done. rewrite decide_False by lia. done.
Qed.

Lemma exp_at_xpow n : (n < Z.to_nat 131072)%nat -> exp_at (Z.of_nat n) = xpow n 1.
Proof.
  intros Hn. unfold exp_at, EXP_TABLE. rewrite fill_exp_lookup, decide_True by lia.
  cbn [default]. by rewrite Z.sub_0_r, Nat2Z.id.
Qed.

Fixpoint check_log (n : nat) (x : Z) (et lt : gmap Z Z) : bool :=
  match n with
  | O => true
  | S n =>
      let l := default 0 (lt !! x) in
      (0 <=? l) && (l <? 65535) && (default 0 (et !! l) =? x) && check_log n (x + 1) et lt
  end.

Lemma check_log_spec n : forall x et lt y, check_log n x et lt = true ->
  x <= y < x + Z.of_nat n ->
  0 <= default 0 (lt !! y) < 65535 /\ default 0 (et !! default 0 (lt !! y)) = y.
Proof.
  induction n as [|n IH]; intros x et lt y H Hy; [lia|].
  cbn [check_log] in H. apply andb_true_iff in H as [H Hrec]. b2p.
  destruct (decide (x = y)) as [->|?H0]; [lia|].
  apply (IH (x + 1)); [done|lia].
Qed.

Lemma check_log_all : check_log (Z.to_nat 65535) 1 EXP_TABLE LOG_TABLE = true.
Proof. vm_compute. reflexivity. Qed.

#[global] Opaque EXP_TABLE LOG_TABLE.

Lemma log_at_spec x : 1 <= x < 65536 ->
  exists n, log_at x = Z.of_nat n /\ (n < Z.to_nat 65535)%nat /\ xpow n 1 = x.
Proof.
  intros Hx. destruct (check_log_spec _ _ _ _ x check_log_all) as [Hl He]; [lia|].
  assert (He' : exp_at (log_at x) = x) by exact He.
  assert (Hl' : 0 <= log_at x < 65535) by exact Hl. clear Hl He.
  revert He' Hl'. generalize (log_at x). intros l He Hl.
  exists (Z.to_nat l). rewrite <- exp_at_xpow, Z2Nat.id by lia.
  split; [done|]. split; [lia|done].
Qed.

Lemma xpow_period : xpow (Z.to_nat 65535) 1 = 1.
Proof. vm_compute. reflexivity. Qed.

(** ** [xtime] is linear and injective on 16-bit values *)
Definition range16 (x : Z) : Prop := 0 <= x < 2 ^ 16.

Lemma range16_bits x : 0 <= x -> (range16 x <-> forall i, 16 <= i -> Z.testbit x i = false).
Proof.
  intros H0. unfold range16. split.
  - intros Hx i Hi. destruct (decide (x = 0)) as [->|?H0]; [apply Z.bits_0|].
    apply Z.bits_above_log2; [lia|].
    enough (Z.log2 x < 16) by lia. apply Z.log2_lt_pow2; lia.
  - intros Hb. split; [done|]. destruct (decide (x = 0)) as [->|?H0]; [lia|].
    apply Z.log2_lt_pow2; [lia|]. apply Z.nle_gt. intros Hl.
    specialize (Hb _ Hl). rewrite Z.bit_log2 in Hb by lia. done.
Qed.

Lemma range16_lxor x y : range16 x -> range16 y -> range16 (Z.lxor x y).
Proof.
  intros Hx Hy.
  assert (0 <= Z.lxor x y) by (apply Z.lxor_nonneg; unfold range16 in *; lia).
  apply range16_bits; [done|]. intros i Hi. rewrite Z.lxor_spec.
  rewrite (proj1 (range16_bits x ltac:(apply Hx)) Hx i Hi).
  rewrite (proj1 (range16_bits y ltac:(apply Hy)) Hy i Hi). done.
Qed.

Lemma xtime_double x : xtime x =
  Z.lxor (2 * x) (if Z.testbit (2 * x) 16 then 0x1100b else 0).
Proof.
  unfold xtime. rewrite Z.shiftl_mul_pow2, Z.mul_comm by lia. change (2 ^ 1) with 2.
  change (Z.lor GF16_SIZE GF16_GENERATOR) with 0x1100b.
  case_if; [done|]. by rewrite Z.lxor_0_r.
Qed.

Lemma double_lxor x y : 2 * Z.lxor x y = Z.lxor (2 * x) (2 * y).
Proof.
  change 2 with (2 ^ 1). rewrite !(Z.mul_comm (2 ^ 1)), <- !Z.shiftl_mul_pow2 by lia.
  apply Z.shiftl_lxor.
Qed.

Lemma xtime_lxor x y : xtime (Z.lxor x y) = Z.lxor (xtime x) (xtime y).
Proof.
  rewrite !xtime_double, double_lxor, Z.lxor_spec.
  destruct (Z.testbit (2 * x) 16), (Z.testbit (2 * y) 16); cbn [xorb];
    apply Z.bits_inj'; intros n Hn; rewrite !Z.lxor_spec, ?Z.bits_0;
    repeat match goal with |- context [Z.testbit ?a n] => generalize (Z.testbit a n); intros [] end;
    done.
Qed.

Lemma xtime_range x : range16 x -> range16 (xtime x).
Proof.
  intros Hx. rewrite xtime_double.
  assert (Hn : 0 <= Z.lxor (2 * x) (if Z.testbit (2 * x) 16 then 69643 else 0)).
  { apply Z.lxor_nonneg. unfold range16 in Hx. destruct (Z.testbit _ _); lia. }
  apply range16_bits; [done|]. intros i Hi. rewrite Z.lxor_spec.
  destruct (decide (i = 16)) as [->|?H0].
  { destruct (Z.testbit (2 * x) 16); done. }
  assert (Z.testbit (2 * x) i = false) as ->.
  { change 2 with (2 ^ 1). rewrite Z.mul_comm, Z.mul_pow2_bits by lia.
    apply range16_bits; [apply Hx|done|lia]. }
  destruct (Z.testbit (2 * x) 16); [|apply Z.bits_0].
  apply Z.bits_above_log2; [lia|]. change (Z.log2 69643) with 16. lia.
Qed.

Lemma xpow_0 v : xpow 0 v = v.
Proof. done. Qed.

Lemma xtime_0_inv x : range16 x -> xtime x = 0 -> x = 0.
Proof.
  intros Hx H. rewrite xtime_double in H. apply Z.lxor_eq in H.
  destruct (Z.testbit (2 * x) 16); lia.
Qed.

Lemma xpow_lxor n x y : xpow n (Z.lxor x y) = Z.lxor (xpow n x) (xpow n y).
Proof. revert x y. induction n; intros; [done|]. by rewrite !xpow_S, xtime_lxor. Qed.

Lemma xpow_range n x : range16 x -> range16 (xpow n x).
Proof. revert x. induction n; intros; [done|]. rewrite xpow_S. auto using xtime_range. Qed.

Lemma xpow_0_inv n x : range16 x -> xpow n x = 0 -> x = 0.
Proof.
  revert x. induction n as [|n IH]; intros x Hx; [done|]. rewrite xpow_S. intros H.
  apply xtime_0_inv; [done|]. apply IH; [by apply xtime_range|done].
Qed.

Lemma xpow_comm n m x : xpow n (xpow m x) = xpow m (xpow n x).
Proof. by rewrite <- !xpow_add, Nat.add_comm. Qed.

(** ** Multiplication is repeated [xtime] *)
Lemma gf16_mul_spec x y : range16 x -> 1 <= y < 65536 ->
  exists n, log_at y = Z.of_nat n /\ (n < Z.to_nat 65535)%nat /\
    xpow n 1 = y /\ gf16_mul x y = xpow n x.
Proof.
  intros Hx Hy. destruct (log_at_spec y Hy) as (n & Hl & Hn & Hp).
  exists n. repeat split; [done..|]. unfold gf16_mul.
  destruct (Z.eqb_spec x 0) as [->|?H0]; cbn [orb].
  { clear. induction n as [|n IH]; [done|]. by rewrite xpow_S. }
  destruct (Z.eqb_spec y 0); [lia|].
  destruct (log_at_spec x) as (m & Hlm & Hm & Hpm); [unfold range16 in Hx; lia|].
  rewrite Hl, Hlm, <- Nat2Z.inj_add, exp_at_xpow by lia.
  by rewrite Nat.add_comm, xpow_add, Hpm.
Qed.

Lemma gf16_mul_0_l y : gf16_mul 0 y = 0.
Proof. done. Qed.
Lemma gf16_mul_0_r x : gf16_mul x 0 = 0.
Proof. unfold gf16_mul. by rewrite orb_true_r. Qed.

Lemma gf16_mul_range x y : range16 x -> range16 y -> range16 (gf16_mul x y).
Proof.
  intros Hx Hy. destruct (decide (y = 0)) as [->|?H0].
  { rewrite gf16_mul_0_r. done. }
  destruct (gf16_mul_spec x y) as (n & _ & _ & _ & ->); [done|unfold range16 in Hy; lia|].
  by apply xpow_range.
Qed.

Lemma gf16_mul_comm x y : range16 x -> range16 y -> gf16_mul x y = gf16_mul y x.
Proof.
  intros Hx Hy. unfold gf16_mul.
  rewrite orb_comm. by rewrite Z.add_comm.
Qed.

Lemma gf16_mul_assoc x y z : range16 x -> range16 y -> range16 z ->
  gf16_mul (gf16_mul x y) z = gf16_mul x (gf16_mul y z).
Proof.
  intros Hx Hy Hz.
  destruct (decide (z = 0)) as [->|Hz0]; [by rewrite !gf16_mul_0_r|].
  destruct (decide (x = 0)) as [->|Hx0]; [done|].
  assert (Hz' : 1 <= z < 65536) by (unfold range16 in Hz; lia).
  assert (Hx' : 1 <= x < 65536) by (unfold range16 in Hx; lia).
  rewrite (gf16_mul_comm x (gf16_mul y z)), (gf16_mul_comm x y) by auto using gf16_mul_range.
  destruct (gf16_mul_spec (gf16_mul y x) z) as (n & Hn & _ & _ & ->); [by apply gf16_mul_range|done|].
  destruct (gf16_mul_spec (gf16_mul y z) x) as (m & Hm & _ & _ & ->); [by apply gf16_mul_range|done|].
  destruct (gf16_mul_spec y z Hy Hz') as (n' & Hn' & _ & _ & ->).
  destruct (gf16_mul_spec y x Hy Hx') as (m' & Hm' & _ & _ & ->).
  assert (n' = n) as -> by lia. assert (m' = m) as -> by lia. apply xpow_comm.
Qed.

Lemma gf16_mul_1_l x : range16 x -> gf16_mul 1 x = x.
Proof.
  intros Hx. destruct (decide (x = 0)) as [->|?H0]; [apply gf16_mul_0_r|].
  destruct (gf16_mul_spec 1 x) as (n & _ & _ & Hp & ->); [done|unfold range16 in Hx; lia|done].
Qed.

Lemma gf16_mul_xor_l x y z : range16 x -> range16 y -> range16 z ->
  gf16_mul (Z.lxor x y) z = Z.lxor (gf16_mul x z) (gf16_mul y z).
Proof.
  intros Hx Hy Hz. destruct (decide (z = 0)) as [->|?H0]; [by rewrite !gf16_mul_0_r|].
  assert (Hz' : 1 <= z < 65536) by (unfold range16 in Hz; lia).
  destruct (gf16_mul_spec x z Hx Hz') as (n & Hn & _ & _ & ->).
  destruct (gf16_mul_spec y z Hy Hz') as (m & Hm & _ & _ & ->).
  destruct (gf16_mul_spec (Z.lxor x y) z (range16_lxor _ _ Hx Hy) Hz') as (k & Hk & _ & _ & ->).
  assert (m = n) as -> by lia. assert (k = n) as -> by lia. apply xpow_lxor.
Qed.

Lemma gf16_div_spec x y : range16 x -> range16 y -> y <> 0 ->
  exists q, gf16_div x y = Ok q /\ range16 q /\ gf16_mul q y = x.
Proof.
  intros Hx Hy Hy0. unfold gf16_div. destruct (Z.eqb_spec y 0) as [Hy1|_]; [contradiction|].
  destruct (Z.eqb_spec x 0) as [->|Hx0]; [exists 0; split; [done|]; split; done|].
  destruct (log_at_spec x) as (m & -> & Hm & Hpm); [unfold range16 in Hx; lia|].
  destruct (log_at_spec y) as (n & Hln & Hn & Hpn); [unfold range16 in Hy; lia|].
  rewrite Hln. eexists. split; [done|].
  replace (Z.of_nat m + 65535 - Z.of_nat n) with (Z.of_nat (m + (Z.to_nat 65535 - n))) by lia.
  rewrite exp_at_xpow by lia.
  assert (H1 : range16 1) by (unfold range16; lia). split; [exact (xpow_range _ _ H1)|].
  destruct (gf16_mul_spec (xpow (m + (Z.to_nat 65535 - n)) 1) y) as (n' & Hn' & _ & _ & ->);
    [exact (xpow_range _ _ H1)|unfold range16 in Hy; lia|].
  assert (n' = n) as -> by lia. rewrite <- xpow_add.
  replace (n + (m + (Z.to_nat 65535 - n)))%nat with (m + Z.to_nat 65535)%nat by lia.
  by rewrite xpow_add, xpow_period.
Qed.

#[export] Instance GaloisField16_laws : GaloisFieldLaws GaloisField16.
Proof.
  constructor; unfold in_field; cbn; fold GF16_SIZE; change GF16_SIZE with (2 ^ 16) in *.
  - done.
  - done.
  - apply range16_lxor.
  - apply gf16_mul_range.
  - apply gf16_mul_comm.
  - apply gf16_mul_assoc.
  - apply gf16_mul_1_l.
  - apply gf16_mul_xor_l.
  - intros x. unfold gf16_div. eexists. done.
  - apply gf16_div_spec.
Qed.

(** ** Field elements as a type

    [elt] is the carrier of a lawful field; [elt_field] lets [ring] and
    [field] work on it, and [val] maps its operations to the code's. *)
Section Elements.
Context {F : GaloisField} {HF : GaloisFieldLaws F}.

Definition in_fieldb (x : Z) : bool := (0 <=? x) && (x <? gf_size).
Definition elt : Type := { x : Z | in_fieldb x = true }.
Definition val (x : elt) : Z := `x.

Lemma in_fieldb_spec x : in_fieldb x = true <-> in_field x.
Proof. unfold in_fieldb, in_field. rewrite andb_true_iff, Z.leb_le, Z.ltb_lt. done. Qed.

Definition mk_elt (x : Z) (H : in_field x) : elt := exist _ x (proj2 (in_fieldb_spec x) H).

Lemma val_mk x H : val (mk_elt x H) = x.
Proof. done. Qed.
Lemma val_in (x : elt) : in_field (val x).
Proof. apply in_fieldb_spec, (proj2_sig x). Qed.
Lemma val_inj (x y : elt) : val x = val y -> x = y.
Proof.
  destruct x as [x Hx], y as [y Hy]; cbn. intros <-. f_equal. apply UIP_dec, bool_dec.
Qed.
Lemma val_eq (x y : elt) : x = y <-> val x = val y.
Proof. split; [by intros ->|apply val_inj]. Qed.

#[export] Instance elt_eq_dec : EqDecision elt.
Proof. refine (fun x y => cast_if (decide (val x = val y))); by rewrite val_eq. Defined.

Lemma zero_in : in_field 0.
Proof. pose proof gf_size_gt1. unfold in_field. lia. Qed.
Lemma one_in : in_field 1.
Proof. pose proof gf_size_gt1. unfold in_field. lia. Qed.

Definition e0 : elt := mk_elt 0 zero_in.
Definition e1 : elt := mk_elt 1 one_in.
Definition eadd (x y : elt) : elt := mk_elt _ (gf_xor_closed _ _ (val_in x) (val_in y)).
Definition emul (x y : elt) : elt := mk_elt _ (gf_mul_closed _ _ (val_in x) (val_in y)).
Definition einv_val (y : elt) : Z :=
  match gf_div 1 (val y) with Ok q => if in_fieldb q then q else 0 | Throw _ => 0 end.
Lemma einv_in y : in_field (einv_val y).
Proof.
  unfold einv_val. destruct (gf_div 1 (val y)) as [q|]; [|apply zero_in].
  destruct (in_fieldb q) eqn:E; [by apply in_fieldb_spec|apply zero_in].
Qed.
Definition einv (y : elt) : elt := mk_elt _ (einv_in y).
Definition ediv (x y : elt) : elt := emul x (einv y).

Lemma val_e0 : val e0 = 0. Proof. done. Qed.
Lemma val_e1 : val e1 = 1. Proof. done. Qed.
Lemma val_add x y : val (eadd x y) = Z.lxor (val x) (val y). Proof. done. Qed.
Lemma val_mul x y : val (emul x y) = gf_mul (val x) (val y). Proof. done. Qed.

Lemma elt_add_mul_distr x y z : emul (eadd x y) z = eadd (emul x z) (emul y z).
Proof. apply val_inj; cbn. apply gf_mul_xor_l; apply val_in. Qed.

Lemma elt_mul_inv x : x <> e0 -> emul (einv x) x = e1.
Proof.
  rewrite val_eq, val_e0. intros Hx. apply val_inj; cbn. unfold einv_val.
  destruct (gf_div_spec 1 (val x) one_in (val_in x) Hx) as (q & -> & Hq & Hm).
  by rewrite (proj2 (in_fieldb_spec q) Hq).
Qed.

Lemma elt_ring : ring_theory e0 e1 eadd emul eadd (fun x => x) eq.
Proof.
  constructor; intros; try apply val_inj; cbn.
  - apply Z.lxor_0_l.
  - apply Z.lxor_comm.
  - symmetry. apply Z.lxor_assoc.
  - apply gf_mul_1_l, val_in.
  - apply gf_mul_comm; apply val_in.
  - symmetry. apply gf_mul_assoc; apply val_in.
  - apply gf_mul_xor_l; apply val_in.
  - done.
  - apply Z.lxor_nilpotent.
Qed.

Lemma elt_field : field_theory e0 e1 eadd emul eadd (fun x => x) ediv einv eq.
Proof.
  constructor.
  - exact elt_ring.
  - rewrite val_eq. done.
  - done.
  - exact elt_mul_inv.
Qed.

(** Division of the code on elements. *)
Lemma div_elt (x y : elt) : y <> e0 -> gf_div (val x) (val y) = Ok (val (ediv x y)).
Proof.
  intros Hy. pose proof Hy as Hy'. rewrite val_eq, val_e0 in Hy'.
  destruct (gf_div_spec _ _ (val_in x) (val_in y) Hy') as (q & -> & Hq & Hm). f_equal.
  change q with (val (mk_elt q Hq)). rewrite <- val_eq.
  assert (E : x = emul (mk_elt q Hq) y) by (apply val_inj; done).
  rewrite E. clear E Hm. generalize (mk_elt q Hq). intros q'. unfold ediv.
  rewrite <- (Rmul_assoc elt_ring), (Rmul_comm elt_ring y), elt_mul_inv by done.
  by rewrite (Rmul_comm elt_ring), (Rmul_1_l elt_ring).
Qed.
End Elements.
Arguments elt F : clear implicits.
