(* ===== verification/FieldPoly.v ===== *)
(** * Polynomial functions over a field

    The mathematics that the erasure-coding components rest on: a polynomial
    function of degree at most [n] with a given coefficient of [x^n] is
    determined by its values at [n + 1] distinct points, Lagrange's sum is
    such a function, and the divided differences of Neville's scheme are the
    leading coefficients of the interpolants.  Nothing here is specific to
    the program; [Lagrange] and [ErasureCodec] apply it to the code. *)
From Stdlib Require Import Field Field_theory Ring.
From S2P Require Import Prelude.

Section FieldPoly.
Context {F : Type} (f0 f1 : F) (fadd fmul fsub : F -> F -> F) (fopp : F -> F)
  (fdiv : F -> F -> F) (finv : F -> F).
Context (Hfield : field_theory f0 f1 fadd fmul fsub fopp fdiv finv eq).
Context `{EqDecision F}.

Add Field F_field : Hfield.

Declare Scope F_scope.
Delimit Scope F_scope with F.
Local Notation "0" := f0 : F_scope.
Local Notation "1" := f1 : F_scope.
Local Infix "+" := fadd : F_scope.
Local Infix "*" := fmul : F_scope.
Local Infix "-" := fsub : F_scope.
Local Infix "/" := fdiv : F_scope.
Local Open Scope F_scope.

Implicit Types (a b c d k r t x y : F) (f g h : F -> F) (n : nat).

Lemma mul_0_inv x y : x * y = 0 -> x <> 0 -> y = 0.
Proof.
  intros H Hx. transitivity (finv x * (x * y)); [field; done|]. rewrite H. ring.
Qed.
Lemma sub_0_inv x y : x - y = 0 -> x = y.
Proof. intros H. transitivity (x - y + y); [ring|]. rewrite H. ring. Qed.
Lemma sub_neq x y : x <> y -> x - y <> 0.
Proof. intros H E. apply H, sub_0_inv, E. Qed.
Lemma mul_neq x y : x <> 0 -> y <> 0 -> x * y <> 0.
Proof. intros Hx Hy E. apply Hy, (mul_0_inv x); done. Qed.

(** ** Degree and leading coefficient of a function

    [pl n f c]: [f] is a polynomial function of degree at most [n] whose
    coefficient of [x^n] is [c], stated by division by [x - r]. *)
Fixpoint pl (n : nat) (f : F -> F) (c : F) : Prop :=
  match n with
  | O => forall x, f x = c
  | S n => forall r, exists g, pl n g c /\ forall x, f x = (x - r) * g x + f r
  end.

Lemma pl_ext n : forall f g c, (forall x, f x = g x) -> pl n f c -> pl n g c.
Proof.
  destruct n as [|n]; intros f g c E H; cbn in *.
  - intros x. by rewrite <- E.
  - intros r. destruct (H r) as (q & Hq & Hf). exists q. split; [done|].
    intros x. by rewrite <- !E.
Qed.

Lemma pl_const_up n : forall c, pl (S n) (fun _ => c) 0.
Proof.
  induction n as [|n IH]; intros c r; exists (fun _ => 0); (split; [|intros; ring]).
  - done.
  - apply IH.
Qed.

Lemma pl_up n : forall f c, pl n f c -> pl (S n) f 0.
Proof.
  induction n as [|n IH]; intros f c H r.
  - exists (fun _ => 0). split; [done|]. intros x. cbn in H. rewrite !H. ring.
  - destruct (H r) as (g & Hg & Hf). exists g. split; [by apply (IH _ c)|done].
Qed.

Lemma pl_add n : forall f g c d, pl n f c -> pl n g d -> pl n (fun x => f x + g x) (c + d).
Proof.
  induction n as [|n IH]; intros f g c d Hf Hg; cbn in *.
  - intros x. by rewrite Hf, Hg.
  - intros r. destruct (Hf r) as (f' & Hf' & Ef), (Hg r) as (g' & Hg' & Eg).
    exists (fun x => f' x + g' x). split; [by apply IH|]. intros x. rewrite (Ef x), (Eg x). ring.
Qed.

Lemma pl_scale n : forall f c a, pl n f c -> pl n (fun x => a * f x) (a * c).
Proof.
  induction n as [|n IH]; intros f c a Hf; cbn in *.
  - intros x. by rewrite Hf.
  - intros r. destruct (Hf r) as (f' & Hf' & Ef).
    exists (fun x => a * f' x). split; [by apply IH|]. intros x. rewrite (Ef x). ring.
Qed.

Lemma pl_mul_lin n : forall f c a, pl n f c -> pl (S n) (fun x => (x - a) * f x) c.
Proof.
  induction n as [|n IH]; intros f c a Hf r.
  - exists (fun _ => c). split; [done|]. cbn in Hf. intros x. rewrite !Hf. ring.
  - destruct (Hf r) as (g & Hg & Eg). exists (fun x => (x - a) * g x + f r). split.
    + replace c with (c + 0) by ring. apply pl_add; [by apply IH|apply pl_const_up].
    + intros x. rewrite (Eg x). ring.
Qed.

Lemma pl_sub n f g c d : pl n f c -> pl n g d -> pl n (fun x => f x - g x) (c - d).
Proof.
  intros Hf Hg. apply (pl_ext n (fun x => f x + (0 - 1) * g x)); [intros; ring|].
  replace (c - d) with (c + (0 - 1) * d) by ring. by apply pl_add, pl_scale.
Qed.

(** ** Products of linear factors *)
Fixpoint prodl (rs : list F) (x : F) : F :=
  match rs with [] => 1 | r :: rs => (x - r) * prodl rs x end.

Lemma prodl_pl rs : pl (length rs) (prodl rs) 1.
Proof. induction rs as [|r rs IH]; [done|]. by apply pl_mul_lin. Qed.

Lemma prodl_root rs x : x ∈ rs -> prodl rs x = 0.
Proof.
  induction rs as [|r rs IH]; intros Hx; [by apply not_elem_of_nil in Hx|]. cbn.
  apply elem_of_cons in Hx as [->|Hx]; [ring|]. rewrite IH by done. ring.
Qed.

Lemma prodl_neq rs x : x ∉ rs -> prodl rs x <> 0.
Proof.
  induction rs as [|r rs IH]; intros Hx; cbn.
  - apply (F_1_neq_0 Hfield).
  - apply not_elem_of_cons in Hx as [??]. apply mul_neq; [by apply sub_neq|by apply IH].
Qed.

Lemma prodl_app rs rs' x : prodl (rs ++ rs') x = prodl rs x * prodl rs' x.
Proof. induction rs as [|r rs IH]; cbn; [ring|]. rewrite IH. ring. Qed.

(** ** Uniqueness *)
Lemma pl_roots n : forall f c rs, pl n f c -> length rs = n -> NoDup rs ->
  (forall r, r ∈ rs -> f r = 0) -> forall x, f x = c * prodl rs x.
Proof.
  induction n as [|n IH]; intros f c rs Hf Hlen Hnd Hr x.
  - destruct rs; [|done]. cbn in *. rewrite Hf. ring.
  - destruct rs as [|r rs]; [done|]. destruct (Hf r) as (g & Hg & Eg).
    apply NoDup_cons in Hnd as [Hni Hnd].
    rewrite (Eg x), (Hr r) by left. cbn. rewrite (IH g c rs); [ring|done|cbn in Hlen; lia|done|].
    intros r' Hr'. specialize (Eg r'). rewrite (Hr r ltac:(by left)), (Hr r' ltac:(by right)) in Eg.
    apply (mul_0_inv (r' - r)).
    + rewrite Eg. ring.
    + apply sub_neq. intros ->. done.
Qed.

Lemma pl_zero n f c rs : pl n f c -> (n < length rs)%nat -> NoDup rs ->
  (forall r, r ∈ rs -> f r = 0) -> forall x, f x = 0.
Proof.
  intros Hf Hlen Hnd Hr.
  set (rs' := take n rs). destruct (drop n rs) as [|r0 rest] eqn:Ed.
  { apply (f_equal length) in Ed. rewrite length_drop in Ed. cbn in Ed. lia. }
  assert (Esplit : rs = rs' ++ r0 :: rest) by (rewrite <- Ed; symmetry; apply take_drop).
  rewrite Esplit in Hnd, Hr. apply NoDup_app in Hnd as (Hnd & Hdis & _).
  assert (Hp : forall x, f x = c * prodl rs' x).
  { apply (pl_roots n); [done|unfold rs'; rewrite length_take; lia|done|].
    intros r ?. apply Hr, elem_of_app. by left. }
  assert (Hc : c = 0).
  { apply (mul_0_inv (prodl rs' r0)).
    - transitivity (f r0); [rewrite Hp; ring|]. apply Hr, elem_of_app. right. left.
    - apply prodl_neq. intros Hi. apply (Hdis _ Hi). left. }
  intros x. rewrite Hp, Hc. ring.
Qed.

Lemma pl_unique n f g c d rs : pl n f c -> pl n g d -> (n < length rs)%nat -> NoDup rs ->
  (forall r, r ∈ rs -> f r = g r) -> forall x, f x = g x.
Proof.
  intros Hf Hg Hlen Hnd Hr x. apply sub_0_inv.
  apply (pl_zero n (fun x => f x - g x) (c - d) rs); [by apply pl_sub|done|done|].
  intros r Hi. rewrite (Hr r Hi). ring.
Qed.

(** ** Coefficient lists *)
Fixpoint peval (cs : list F) (x : F) : F :=
  match cs with [] => 0 | c :: cs => c + x * peval cs x end.

Lemma peval_pl cs : exists c, pl (length cs - 1) (peval cs) c.
Proof.
  induction cs as [|a cs [c IH]]; [by exists 0|].
  destruct cs as [|b cs].
  { exists a. intros x. cbn. ring. }
  exists c. cbn [length] in *. replace (S (S (length cs)) - 1)%nat with (S (length cs)) by lia.
  replace (S (length cs) - 1)%nat with (length cs) in IH by lia.
  apply (pl_ext _ (fun x => (x - 0) * peval (b :: cs) x + a)); [intros; cbn; ring|].
  replace c with (c + 0) by ring. apply pl_add; [by apply pl_mul_lin|apply pl_const_up].
Qed.

Lemma peval_zeros cs x : (forall i, nth i cs 0 = 0) -> peval cs x = 0.
Proof.
  induction cs as [|c cs IH]; intros H; cbn; [done|].
  rewrite (H O : c = 0), IH; [ring|]. intros i. apply (H (S i)).
Qed.

(** Adding a multiple of [es] entry by entry. *)
Lemma peval_lin d x : forall cs es cs', length cs = length es -> length cs' = length es ->
  (forall i, (i < length es)%nat -> nth i cs' 0 = nth i cs 0 + d * nth i es 0) ->
  peval cs' x = peval cs x + d * peval es x.
Proof.
  induction cs as [|c cs IH]; intros [|e es] [|c' cs'] H1 H2 H; cbn in H1, H2; try lia; cbn [peval].
  { ring. }
  rewrite (IH es cs'); [|lia|lia|].
  - rewrite (H O ltac:(cbn; lia) : c' = c + d * e). ring.
  - intros i Hi. apply (H (S i)). cbn. lia.
Qed.

(** Multiplication by [x + a]: every entry receives its left neighbour and
    [a] times itself.  The top entry must be zero. *)
Lemma peval_shift a x : forall cs p cs', length cs' = length cs ->
  (forall i, (i < length cs)%nat ->
     nth i cs' 0 = match i with O => p | S i' => nth i' cs 0 end + nth i cs 0 * a) ->
  last (p :: cs) = Some 0 -> peval cs' x = p + (x + a) * peval cs x.
Proof.
  induction cs as [|c cs IH]; intros p [|c' cs'] Hlen H Hl; cbn in Hlen; try lia; cbn [peval].
  { cbn in Hl. injection Hl as ->. ring. }
  rewrite (IH c cs'); [|lia| |done].
  - rewrite (H O ltac:(cbn; lia) : c' = p + c * a). ring.
  - intros i Hi. etransitivity; [apply (H (S i)); cbn; lia|]. by destruct i.
Qed.

(** ** Finite sums *)
Fixpoint sumf (l : list nat) (g : nat -> F) : F :=
  match l with [] => 0 | i :: l => g i + sumf l g end.

Lemma sumf_0 l (g : nat -> F) : (forall i, i ∈ l -> g i = 0) -> sumf l g = 0.
Proof.
  induction l as [|i l IH]; intros H; cbn; [done|].
  rewrite H by left. rewrite IH; [ring|]. intros j ?. apply H. by right.
Qed.

Lemma sumf_single l (g : nat -> F) m : NoDup l -> m ∈ l -> (forall i, i ∈ l -> i <> m -> g i = 0) ->
  sumf l g = g m.
Proof.
  induction l as [|i l IH]; intros Hnd Hm H; [by apply not_elem_of_nil in Hm|]. cbn.
  apply NoDup_cons in Hnd as [Hni Hnd]. destruct (decide (i = m)) as [->|Hne].
  - rewrite sumf_0; [ring|]. intros j Hj. apply H; [by right|]. intros ->. done.
  - rewrite H, IH; [ring|done| |..].
    + apply elem_of_cons in Hm as [->|]; done.
    + intros j ??. apply H; [by right|done].
    + by left.
    + done.
Qed.

Lemma sumf_pl n l (g : nat -> F -> F) : (forall i, i ∈ l -> exists c, pl n (g i) c) ->
  exists c, pl n (fun x => sumf l (fun i => g i x)) c.
Proof.
  induction l as [|i l IH]; intros H; cbn.
  - exists 0. destruct n; [done|apply pl_const_up].
  - destruct (H i ltac:(by left)) as [c Hc]. destruct IH as [d Hd].
    { intros j ?. apply H. by right. }
    exists (c + d). by apply pl_add.
Qed.

Lemma sumf_ext l (g h : nat -> F) : (forall i, i ∈ l -> g i = h i) -> sumf l g = sumf l h.
Proof.
  induction l as [|i l IH]; intros H; cbn; [done|].
  rewrite H, IH; [done| |by left]. intros j ?. apply H. by right.
Qed.

(** ** Lagrange's formula *)
Definition basis (xs : list F) (i : nat) (t : F) : F :=
  prodl (delete i xs) t / prodl (delete i xs) (nth i xs 0).
Definition lagrange (xs ys : list F) (t : F) : F :=
  sumf (seq 0 (length xs)) (fun i => nth i ys 0 * basis xs i t).

Lemma basis_other xs i m : (m < length xs)%nat -> i <> m -> NoDup xs -> (i < length xs)%nat ->
  basis xs i (nth m xs 0) = 0.
Proof.
  intros. unfold basis. rewrite (prodl_root (delete i xs)) by (by apply nth_delete_other).
  field. by apply prodl_neq, nodup_nth_delete.
Qed.

Lemma basis_self xs m : NoDup xs -> (m < length xs)%nat -> basis xs m (nth m xs 0) = 1.
Proof. intros. unfold basis. field. by apply prodl_neq, nodup_nth_delete. Qed.

Lemma basis_pl xs i : (i < length xs)%nat -> exists c, pl (length xs - 1) (basis xs i) c.
Proof.
  intros Hi. set (d := prodl (delete i xs) (nth i xs 0)).
  exists (finv d * 1).
  apply (pl_ext _ (fun t => finv d * prodl (delete i xs) t)).
  - intros x. unfold basis. fold d. rewrite (Fdiv_def Hfield). ring.
  - apply pl_scale. replace (length xs - 1)%nat with (length (delete i xs)); [apply prodl_pl|].
    rewrite length_delete; [lia|]. rewrite (nth_lookup_eq xs i 0 Hi). done.
Qed.

Lemma lagrange_pl xs ys : exists c, pl (length xs - 1) (lagrange xs ys) c.
Proof.
  apply (sumf_pl _ _ (fun i t => nth i ys 0 * basis xs i t)). intros i Hi.
  apply list_elem_of_In, in_seq in Hi. destruct (basis_pl xs i) as [c Hc]; [lia|].
  eexists. by apply pl_scale.
Qed.

Lemma lagrange_at xs ys m : NoDup xs -> (m < length xs)%nat ->
  lagrange xs ys (nth m xs 0) = nth m ys 0.
Proof.
  intros Hnd Hm. unfold lagrange.
  rewrite (sumf_single _ (fun i => nth i ys 0 * basis xs i (nth m xs 0)) m).
  - rewrite basis_self by done. ring.
  - apply NoDup_ListNoDup, seq_NoDup.
  - apply list_elem_of_In, in_seq. lia.
  - intros i Hi Hne. apply list_elem_of_In, in_seq in Hi. rewrite basis_other; [ring|done..|lia].
Qed.

(** A polynomial function is recovered from its values at enough points. *)
Theorem lagrange_recovers n xs ys f c t : pl n f c -> (n < length xs)%nat -> NoDup xs ->
  (forall i, (i < length xs)%nat -> nth i ys 0 = f (nth i xs 0)) -> lagrange xs ys t = f t.
Proof.
  intros Hf Hlen Hnd Hy. destruct (lagrange_pl xs ys) as [d Hd].
  assert (Hf' : exists c', pl (length xs - 1) f c').
  { clear Hnd Hy Hd. revert c Hf. assert (Hle : (n <= length xs - 1)%nat) by lia. clear Hlen.
    induction Hle as [|m Hle IH]; [eauto|]. intros c Hf.
    destruct (IH c Hf) as [c' Hc']. exists 0. by apply (pl_up _ _ c'). }
  destruct Hf' as [c' Hf'].
  apply (pl_unique (length xs - 1) _ _ d c' xs); [done|done|lia|done|].
  intros r Hr. apply list_elem_of_lookup in Hr as [i Hi].
  pose proof (lookup_lt_Some _ _ _ Hi) as Hlt.
  rewrite (nth_lookup_eq xs i 0 Hlt) in Hi. injection Hi as <-.
  rewrite lagrange_at by done. by apply Hy.
Qed.

(** ** Divided differences and Newton's form *)
Lemma neville n f g a b u v : u <> v -> pl n f a -> pl n g b ->
  let h := fun x => ((x - u) * g x - (x - v) * f x) / (v - u) in
  pl (S n) h ((b - a) / (v - u)) /\ h u = f u /\ h v = g v /\
  forall r, f r = g r -> h r = f r.
Proof.
  intros Huv Hf Hg h. assert (Hd : v - u <> 0) by (by apply sub_neq).
  repeat split.
  - apply (pl_ext _ (fun x => finv (v - u) * ((x - u) * g x - (x - v) * f x))).
    { intros x. unfold h. field. done. }
    replace ((b - a) / (v - u)) with (finv (v - u) * (b - a)) by (field; done).
    apply pl_scale, pl_sub; by apply pl_mul_lin.
  - unfold h. field. done.
  - unfold h. field. done.
  - intros r E. unfold h. rewrite E. field. done.
Qed.

(** [dd xs ys j i] is the divided difference of the points [i - j .. i]. *)
Fixpoint dd (xs ys : list F) (j i : nat) : F :=
  match j with
  | O => nth i ys 0
  | S j' => (dd xs ys j' i - dd xs ys j' (i - 1)) / (nth i xs 0 - nth (i - j) xs 0)
  end.

Lemma nth_inj xs i m : NoDup xs -> (i < length xs)%nat -> (m < length xs)%nat ->
  i <> m -> nth i xs 0 <> nth m xs 0.
Proof.
  intros Hnd Hi Hm Hne E. apply Hne. apply (NoDup_nth xs 0); [by apply NoDup_ListNoDup|done..].
Qed.

Lemma dd_lead xs ys j : NoDup xs -> forall i, (j <= i < length xs)%nat ->
  exists f, pl j f (dd xs ys j i) /\
    forall m, (i - j <= m <= i)%nat -> f (nth m xs 0) = nth m ys 0.
Proof.
  intros Hnd. induction j as [|j IH]; intros i Hi.
  - exists (fun _ => nth i ys 0). split; [done|]. intros m Hm. do 2 f_equal. lia.
  - destruct (IH (i - 1)%nat) as (f & Hf & Ef); [lia|].
    destruct (IH i) as (g & Hg & Eg); [lia|].
    destruct (neville j f g (dd xs ys j (i - 1)) (dd xs ys j i) (nth (i - S j) xs 0) (nth i xs 0))
      as (Hh & Hu & Hv & Hm); [apply nth_inj; [done|lia..]|done|done|].
    eexists. split; [exact Hh|]. intros m Hmi.
    destruct (decide (m = i)) as [->|]; [rewrite Hv; apply Eg; lia|].
    destruct (decide (m = i - S j)%nat) as [->|]; [rewrite Hu; apply Ef; lia|].
    rewrite Hm; [apply Ef; lia|]. rewrite Ef, Eg by lia. done.
Qed.

(** [newton d xs j]: the sum of [d m * (x - x_0) ... (x - x_(m-1))] for
    [m <= j]. *)
Fixpoint newton (d : nat -> F) (xs : list F) (j : nat) (x : F) : F :=
  match j with
  | O => d O
  | S j' => newton d xs j' x + d j * prodl (take j xs) x
  end.

Lemma newton_ext (d d' : nat -> F) xs j x : (forall i, (i <= j)%nat -> d i = d' i) ->
  newton d xs j x = newton d' xs j x.
Proof.
  induction j as [|j IH]; intros H; cbn [newton]; [by apply H|].
  rewrite IH, (H (S j)); [done|lia|]. intros i ?. apply H. lia.
Qed.

Lemma newton_pl (d : nat -> F) xs j : (j <= length xs)%nat -> exists c, pl j (newton d xs j) c.
Proof.
  induction j as [|j IH]; intros Hj; cbn [newton].
  - by exists (d O).
  - destruct IH as [c Hc]; [lia|]. exists (0 + d (S j) * 1). apply pl_add.
    + by apply (pl_up _ _ c).
    + apply pl_scale. pose proof (prodl_pl (take (S j) xs)) as Hp.
      rewrite length_take in Hp. by replace (S j `min` length xs)%nat with (S j) in Hp by lia.
Qed.

Lemma newton_interpolates xs ys j : NoDup xs -> (j < length xs)%nat ->
  forall m, (m <= j)%nat -> newton (fun i => dd xs ys i i) xs j (nth m xs 0) = nth m ys 0.
Proof.
  intros Hnd. induction j as [|j IH]; intros Hj m Hm.
  - replace m with O by lia. done.
  - destruct (dd_lead xs ys (S j) Hnd (S j)) as (p & Hp & Ep); [lia|].
    destruct (newton_pl (fun i => dd xs ys i i) xs j) as [c Hc]; [lia|].
    set (N := newton (fun i => dd xs ys i i) xs j) in *.
    rewrite <- (Ep m) by lia. cbn [newton]. fold N.
    assert (E : forall x, p x - N x = (dd xs ys (S j) (S j) - 0) * prodl (take (S j) xs) x).
    { apply (pl_roots (S j)).
      - apply pl_sub; [done|by apply (pl_up _ _ c)].
      - rewrite length_take. lia.
      - apply (sublist_NoDup _ xs); [done|apply sublist_take].
      - intros r Hr. apply list_elem_of_lookup in Hr as [i Hi].
        apply lookup_take_Some in Hi as [Hi Hij].
        rewrite (nth_lookup_eq xs i 0) in Hi by lia. injection Hi as <-.
        rewrite Ep by lia. unfold N. rewrite IH by lia. ring. }
    specialize (E (nth m xs 0)). transitivity (N (nth m xs 0) + (p (nth m xs 0) - N (nth m xs 0))); [|ring].
    rewrite E. ring.
Qed.
End FieldPoly.
