(* ===== verification/Lagrange.v ===== *)
(** * Lagrange interpolation ([rs/lagrange.ts])

    The interpolator of [LagrangeInterpolator], against the [GaloisField]
    interface.  Loops over arrays are folds over index lists; the duplicate
    check, the range check and the division that throws are kept.  The
    theorems say that, on distinct field points, the computation never throws
    and returns the value of [FieldPoly.lagrange]. *)
From Stdlib Require Import Field Field_theory Ring.
From S2P Require Import Prelude GaloisField FieldPoly.

Definition PRECOMPUTED_SIZES : list Z := [1; 3; 5; 30; 34; 36].

Definition hasPrecomputedDenominators (size : Z) : bool := existsb (Z.eqb size) PRECOMPUTED_SIZES.

(** The module-level [denominatorCache]. *)
Abbreviation cache := (gmap Z (list Z)).

Record Point := { x : Z; y : Z }.

Section Interpolator.
Context {F : GaloisField}.

(** The loop that rejects points outside the field and repeated points. *)
Fixpoint validate_points (xs seen : list Z) : result unit :=
  match xs with
  | [] => Ok tt
  | x :: xs' =>
      if (x <? 0) || (x >=? gf_size) then Throw (Error "Evaluation point out of field range")
      else if existsb (Z.eqb x) seen then Throw (Error "Duplicate evaluation point")
      else validate_points xs' (x :: seen)
  end.

(** The product over [j <> i] of [at ^ xs[j]]. *)
Definition product_except (xs : list Z) (i : nat) (at_ : Z) : Z :=
  fold_left (fun d j => if Nat.eqb i j then d else gf_mul d (Z.lxor at_ (nth j xs 0)))
    (seq 0 (length xs)) 1.

Definition computeDenominators (xs : list Z) : result (list Z) :=
  _ ← validate_points xs [];
  Ok (map (fun i => product_except xs i (nth i xs 0)) (seq 0 (length xs))).

Definition getConsecutiveDenominators (n : nat) : M cache (list Z) := (
  do c <- M_get;
  match c !! Z.of_nat n with
  | Some cached => M_ret cached
  | None =>
      let xs := map Z.of_nat (seq 0 n) in
      do denominators <- M_lift (computeDenominators xs);
      do_ (if hasPrecomputedDenominators (Z.of_nat n)
           then M_modify (<[Z.of_nat n := denominators]>) else M_ret tt);
      M_ret denominators
  end)%st.

Definition clearCache : M cache unit := M_put ∅.

Definition interpolateWithDenominators (xs ys denominators : list Z) (targetX : Z) : result Z :=
  foldM_result (fun result i =>
      basis ← gf_div (product_except xs i targetX) (nth i denominators 0);
      Ok (gf_add result (gf_mul (nth i ys 0) basis)))
    0 (seq 0 (length xs)).

Definition interpolate (points : list Point) (targetX : Z) : result Z :=
  match points with
  | [] => Ok 0
  | _ =>
      let xs := map x points in
      let ys := map y points in
      denominators ← computeDenominators xs;
      interpolateWithDenominators xs ys denominators targetX
  end.

Definition interpolateAt (points : list Point) (targetX : Z) : result Z :=
  interpolate points targetX.

(** [available] is a [Map] in insertion order; the result too. *)
Definition recoverMissing (available : list (Z * Z)) (missing : list Z)
    (evaluationPoint : Z -> Z) : result (list (Z * Z)) :=
  let xs := map (fun p => evaluationPoint p.1) available in
  let ys := map snd available in
  denominators ← computeDenominators xs;
  mapM_result (fun idx =>
    value ← interpolateWithDenominators xs ys denominators (evaluationPoint idx);
    Ok (idx, value)) missing.

(** [recoverMissingShards]: shards are byte arrays, and storing a field
    element in a [Uint8Array] keeps its low eight bits. *)
Fixpoint assoc_get {A} (i : Z) (l : list (Z * A)) : option A :=
  match l with [] => None | (j, a) :: l => if i =? j then Some a else assoc_get i l end.

Definition recoverMissingShards (availableShards : list (Z * bytes)) (missingIndices : list Z)
    (k : Z) : result (list (Z * bytes)) :=
  if len availableShards <? k then Throw (Error "Insufficient shards for recovery") else
  match availableShards with
  | [] => Throw (Error "No shards available")
  | (_, firstShard) :: _ =>
      let shardSize := length firstShard in
      let availableIndices := take (Z.to_nat k) (map fst availableShards) in
      denominators ← computeDenominators availableIndices;
      mapM_result (fun missingIdx =>
        recoveredShard ← mapM_result (fun pos =>
          ys ← mapM_result (fun idx =>
            match assoc_get idx availableShards with
            | None => Throw (Error "Shard not found in available shards")
            | Some shard =>
                match shard !! pos with
                | None => Throw (Error "Position out of bounds for shard")
                | Some b => Ok b
                end
            end) availableIndices;
          value ← interpolateWithDenominators availableIndices ys denominators missingIdx;
          Ok (u8 value)) (seq 0 shardSize);
        Ok (missingIdx, recoveredShard)) missingIndices
  end.
End Interpolator.

(** ** Correctness over a lawful field *)
Section Correctness.
Context {F : GaloisField} {HF : GaloisFieldLaws F}.

Abbreviation E := (elt F).
Abbreviation prodE := (prodl e1 emul eadd).
Abbreviation lagrangeE := (lagrange e0 e1 eadd emul eadd ediv).

Add Field elt_field_lagrange : elt_field.

Lemma existsb_eqb_spec x l : existsb (Z.eqb x) l = true <-> x ∈ l.
Proof.
  rewrite existsb_exists, list_elem_of_In. split.
  - intros (y & Hy & E). apply Z.eqb_eq in E. by subst.
  - intros. exists x. split; [done|apply Z.eqb_refl].
Qed.

Lemma validate_points_ok xs : forall seen, Forall in_field xs -> NoDup (rev seen ++ xs) ->
  validate_points xs seen = Ok tt.
Proof.
  induction xs as [|x xs IH]; intros seen Hin Hnd; [done|]. cbn [validate_points].
  apply Forall_cons in Hin as [Hx Hin]. unfold in_field in Hx.
  replace (x <? 0) with false by lia. replace (x >=? gf_size) with false by lia. cbn [orb].
  destruct (existsb (Z.eqb x) seen) eqn:Ex.
  - exfalso. apply existsb_eqb_spec in Ex. apply NoDup_app in Hnd as (_ & Hd & _).
    apply (Hd x); [|left]. rewrite list_elem_of_In, <- in_rev, <- list_elem_of_In. done.
  - apply IH; [done|]. cbn [rev]. by rewrite <- app_assoc.
Qed.

(** Repeated points are refused. *)
Lemma validate_points_dup x xs1 xs2 : Forall in_field (xs1 ++ x :: xs2) -> forall seen,
  NoDup (rev seen ++ xs1) -> x ∈ xs1 \/ x ∈ seen ->
  validate_points (xs1 ++ x :: xs2) seen = Throw (Error "Duplicate evaluation point").
Proof.
  induction xs1 as [|a xs1 IH]; intros Hin seen Hnd Hx.
  - destruct Hx as [Hx|Hx]; [by apply not_elem_of_nil in Hx|]. cbn.
    apply Forall_cons in Hin as [Ha _]. unfold in_field in Ha.
    replace (x <? 0) with false by lia. replace (x >=? gf_size) with false by lia. cbn [orb].
    by rewrite (proj2 (existsb_eqb_spec _ _) Hx).
  - cbn. apply Forall_cons in Hin as [Ha Hin]. unfold in_field in Ha.
    replace (a <? 0) with false by lia. replace (a >=? gf_size) with false by lia. cbn [orb].
    destruct (existsb (Z.eqb a) seen) eqn:Ea; [done|].
    apply IH; [done| |].
    + cbn [rev]. by rewrite <- app_assoc.
    + destruct Hx as [Hx|Hx]; [|by right; right].
      apply elem_of_cons in Hx as [->|Hx]; [by right; left|by left].
Qed.

Lemma product_skip (exs : list E) (et : E) i : forall o acc,
  fold_lefti (fun d j x => if Nat.eqb i j then d else gf_mul d (Z.lxor (val et) x))
    (map val exs) o (val acc) =
  val (emul acc (prodE (if decide (o <= i)%nat then delete (i - o)%nat exs else exs) et)).
Proof.
  induction exs as [|ex exs IH]; intros o acc.
  - cbn [map fold_lefti].
    replace (if decide (o <= i)%nat then delete (i - o)%nat [] else []) with (@nil E)
      by (destruct (decide _); [destruct (i - o)%nat|]; done).
    f_equal. cbn [prodl]. ring.
  - cbn [map fold_lefti]. destruct (Nat.eqb_spec i o) as [->|Hne].
    + rewrite IH, decide_False, decide_True by lia. by rewrite Nat.sub_diag.
    + change (gf_mul (val acc) (Z.lxor (val et) (val ex))) with (val (emul acc (eadd et ex))).
      rewrite IH. f_equal. destruct (decide (o <= i)%nat).
      * rewrite decide_True by lia. replace (i - o)%nat with (S (i - S o)) by lia. symmetry. apply (Rmul_assoc elt_ring).
      * rewrite decide_False by lia. symmetry. apply (Rmul_assoc elt_ring).
Qed.

Lemma product_except_elt (exs : list E) (et : E) i :
  product_except (map val exs) i (val et) = val (prodE (delete i exs) et).
Proof.
  unfold product_except.
  rewrite (fold_seq_nth (fun d j x => if Nat.eqb i j then d else gf_mul d (Z.lxor (val et) x))).
  change 1 with (val (e1 : E)). rewrite product_skip, decide_True, Nat.sub_0_r by lia.
  f_equal. ring.
Qed.

Lemma nth_map_val (es : list E) i : nth i (map val es) 0 = val (nth i es e0).
Proof. change 0 with (val (e0 : E)). apply map_nth. Qed.

Lemma Forall_val (es : list E) : Forall in_field (map val es).
Proof. apply Forall_forall. intros x Hx. apply list_elem_of_fmap in Hx as (e & -> & _). apply val_in. Qed.

Lemma NoDup_val (es : list E) : NoDup es -> NoDup (map val es).
Proof. apply (NoDup_fmap_2 (Inj0 := val_inj) val). Qed.

Lemma computeDenominators_elt (exs : list E) : NoDup exs ->
  computeDenominators (map val exs) =
  Ok (map (fun i => val (prodE (delete i exs) (nth i exs e0))) (seq 0 (length exs))).
Proof.
  intros Hnd. unfold computeDenominators.
  rewrite validate_points_ok by (apply Forall_val || by apply NoDup_val). cbn.
  rewrite length_map. f_equal. apply map_ext. intros i. by rewrite nth_map_val, product_except_elt.
Qed.

Lemma denominator_nth (exs : list E) i : (i < length exs)%nat ->
  nth i (map (fun i => val (prodE (delete i exs) (nth i exs e0))) (seq 0 (length exs))) 0 =
  val (prodE (delete i exs) (nth i exs e0)).
Proof.
  intros Hi. set (f := fun i => val (prodE (delete i exs) (nth i exs e0))).
  rewrite (nth_indep (map f _) 0 (f 0%nat)) by (rewrite length_map, length_seq; lia).
  rewrite map_nth, seq_nth by lia. done.
Qed.

Lemma interpolateWithDenominators_elt (exs eys : list E) (et : E) :
  NoDup exs ->
  interpolateWithDenominators (map val exs) (map val eys)
    (map (fun i => val (prodE (delete i exs) (nth i exs e0))) (seq 0 (length exs))) (val et) =
  Ok (val (lagrangeE exs eys et)).
Proof.
  intros Hnd. unfold interpolateWithDenominators, lagrange. rewrite length_map.
  set (g := fun i => emul (nth i eys e0) (basis e0 e1 emul eadd ediv exs i et)).
  assert (Hgen : forall l acc, (forall i, i ∈ l -> (i < length exs)%nat) ->
    foldM_result (fun result i =>
      basis ← gf_div (product_except (map val exs) i (val et))
        (nth i (map (fun i0 => val (prodE (delete i0 exs) (nth i0 exs e0))) (seq 0 (length exs))) 0);
      Ok (gf_add result (gf_mul (nth i (map val eys) 0) basis))) (val acc) l =
    Ok (val (eadd acc (sumf e0 eadd l g)))).
  { induction l as [|i l IH]; intros acc Hl; cbn [foldM_result sumf].
    - do 2 f_equal. ring.
    - assert (Hi : (i < length exs)%nat) by (apply Hl; left).
      rewrite product_except_elt.
      rewrite (denominator_nth exs i Hi), div_elt.
      2:{ apply (prodl_neq _ _ _ _ _ _ _ _ elt_field), nodup_nth_delete; done. }
      cbn [mbind result_bind]. rewrite nth_map_val, gf_add_xor.
      rewrite <- val_mul, <- val_add.
      etransitivity; [apply IH; intros; apply Hl; by right|].
      do 2 f_equal. unfold g at 2, basis. ring. }
  etransitivity; [apply (Hgen _ e0)|].
  - intros i Hi. apply list_elem_of_In, in_seq in Hi. lia.
  - by rewrite (Radd_0_l elt_ring).
Qed.
End Correctness.
