(* ===== verification/ErasureCodec.v ===== *)
(** * The interleaved Reed-Solomon codec ([rs/codec.ts], [chunk-domain.ts])

    [PolyEncoder] and [PolyDecoder]: a message is cut into 32-byte chunks,
    the 16 two-byte columns are 16 polynomials over GF(2^16) given by their
    values at [0 .. k-1], and chunk [i] holds the 16 values at [i].  The
    encoder keeps points until the first parity chunk and coefficients after
    it; the decoder interpolates the missing chunks. *)
From S2P Require Import Prelude GaloisField FieldPoly Lagrange.

(** ** chunk-domain.ts *)
Definition BRAID_CHUNK_POINT_COUNT : Z := 0x10000.
Definition BRAID_CHUNK_INDEX_MAX : Z := BRAID_CHUNK_POINT_COUNT - 1.
Definition BRAID_ENCODER_CURSOR_MAX : Z := BRAID_CHUNK_POINT_COUNT.


Definition assertBraidChunkIndex (value : Z) : result Z :=
  if negb (isSafeInteger value) || (value <? 0) || (value >? BRAID_CHUNK_INDEX_MAX)
  then Throw (Error "Braid chunk index must be an integer between 0 and 65535")
  else Ok value.

Definition assertBraidEncoderCursor (value : Z) : result Z :=
  if negb (isSafeInteger value) || (value <? 0) || (value >? BRAID_ENCODER_CURSOR_MAX)
  then Throw (Error "Braid encoder cursor must be an integer between 0 and 65536")
  else Ok value.

(** ** Constants of codec.ts *)
Definition CHUNK_SIZE : Z := 32.
Definition NUM_POLYS : nat := 16.
Definition MAX_MESSAGE_SIZE : Z := 1152.

(** [Math.ceil(n / CHUNK_SIZE)] *)
Definition chunks_of (n : Z) : Z := (n + CHUNK_SIZE - 1) / CHUNK_SIZE.

Record InterleavedConfig := {
  fieldSize : Z; fieldBits : Z; chunkSize : Z;
  cfg_dataChunks : Z; parityChunks : Z; cfg_totalChunks : Z;
  numPolynomials : Z; maxMessageSize : Z }.

Definition initial_config (k : Z) : InterleavedConfig := {|
  fieldSize := 65536; fieldBits := 16; chunkSize := CHUNK_SIZE;
  cfg_dataChunks := k; parityChunks := 0; cfg_totalChunks := k;
  numPolynomials := 16; maxMessageSize := MAX_MESSAGE_SIZE |}.

Definition set_parity (p : Z) (c : InterleavedConfig) : InterleavedConfig := {|
  fieldSize := fieldSize c; fieldBits := fieldBits c; chunkSize := chunkSize c;
  cfg_dataChunks := cfg_dataChunks c; parityChunks := p;
  cfg_totalChunks := cfg_dataChunks c + p;
  numPolynomials := numPolynomials c; maxMessageSize := maxMessageSize c |}.

Definition set_total (t : Z) (c : InterleavedConfig) : InterleavedConfig := {|
  fieldSize := fieldSize c; fieldBits := fieldBits c; chunkSize := chunkSize c;
  cfg_dataChunks := cfg_dataChunks c; parityChunks := parityChunks c;
  cfg_totalChunks := t;
  numPolynomials := numPolynomials c; maxMessageSize := maxMessageSize c |}.

Record Polynomial16 := { index : Z; coefficients : list Z }.

(** Sixteen vectors of raw field values, or sixteen interpolated
    polynomials. *)
Inductive EncoderState :=
  | Points (data : list (list Z))
  | Polys (data : list Polynomial16).

Record PolyEncoder := {
  enc_config : InterleavedConfig;
  enc_state : EncoderState;
  enc_dataChunks : list bytes;
  currentChunkIdx : Z;
  originalDataSize : Z;
  enc_k : nat;
  enc_xs : list Z;
  enc_denominators : list Z }.

Record PolyDecoder := {
  dec_config : InterleavedConfig;
  receivedChunks : list (Z * bytes);   (* a [Map], in insertion order *)
  messageSize : Z;
  totalShardsSet : bool }.

(** The pair of bytes of one field value, big-endian, and back. *)
Definition gf16_bytes (v : Z) : bytes := [Z.land (Z.shiftr v 8) 255; Z.land v 255].
Definition gf16_of_bytes (hi lo : Z) : Z := Z.lor (Z.shiftl hi 8) lo.

(** The value of column [polyIdx] of a chunk. *)
Definition chunk_value (chunk : bytes) (polyIdx : nat) : Z :=
  gf16_of_bytes (nth (polyIdx * 2) chunk 0) (nth (polyIdx * 2 + 1) chunk 0).

Section Codec.
Context {F : GaloisField}.

(** *** The encoder *)
Definition paddedData (k : nat) (data : bytes) : bytes :=
  data ++ replicate (k * Z.to_nat CHUNK_SIZE - length data) 0.

Definition extractDataChunks (k : nat) (data : bytes) : list bytes :=
  let padded := paddedData k data in
  map (fun chunkIdx => take (Z.to_nat CHUNK_SIZE) (drop (chunkIdx * Z.to_nat CHUNK_SIZE) padded))
    (seq 0 k).

Definition parseDataToPoints (k : nat) (data : bytes) : list (list Z) :=
  let padded := paddedData k data in
  map (fun polyIdx =>
    map (fun chunkIdx =>
      let byteOffset := (chunkIdx * Z.to_nat CHUNK_SIZE + polyIdx * 2)%nat in
      gf16_of_bytes (nth byteOffset padded 0) (nth (byteOffset + 1) padded 0)) (seq 0 k))
    (seq 0 NUM_POLYS).

Definition new_PolyEncoder (gf16_ready : bool) (data : bytes) : M cache PolyEncoder := (
  if len data =? 0 then M_throw (Error "Cannot encode empty data")
  else if len data >? MAX_MESSAGE_SIZE then
    M_throw (Error "Message size exceeds maximum for interleaved encoding")
  else if negb gf16_ready then M_throw (Error "GF(2^16) tables not loaded")
  else
    let k := Z.to_nat (chunks_of (len data)) in
    do denominators <- getConsecutiveDenominators k;
    M_ret {| enc_config := initial_config (Z.of_nat k);
             enc_state := Points (parseDataToPoints k data);
             enc_dataChunks := extractDataChunks k data;
             currentChunkIdx := 0;
             originalDataSize := len data;
             enc_k := k;
             enc_xs := map Z.of_nat (seq 0 k);
             enc_denominators := denominators |})%st.

Definition restore (gf16_ready : bool) (data : bytes) (currentChunkIndex : Z) : M cache PolyEncoder := (
  do_ M_lift (assertBraidEncoderCursor currentChunkIndex);
  do encoder <- new_PolyEncoder gf16_ready data;
  M_ret {| enc_config := set_parity (Z.max 0 (currentChunkIndex - cfg_dataChunks (enc_config encoder)))
                           (enc_config encoder);
           enc_state := enc_state encoder;
           enc_dataChunks := enc_dataChunks encoder;
           currentChunkIdx := currentChunkIndex;
           originalDataSize := originalDataSize encoder;
           enc_k := enc_k encoder;
           enc_xs := enc_xs encoder;
           enc_denominators := enc_denominators encoder |})%st.

(** Newton's divided differences, in place, from the last entry down. *)
Definition divDiff_step (j : nat) (divDiff : list Z) (i : nat) : result (list Z) :=
  let numerator := Z.lxor (nth i divDiff 0) (nth (i - 1) divDiff 0) in
  let denominator := Z.lxor (Z.of_nat i) (Z.of_nat (i - j)) in
  q ← gf_div numerator denominator;
  Ok (<[i := q]> divDiff).

Definition divDiff_table (k : nat) (ys : list Z) : result (list Z) :=
  foldM_result (fun divDiff j => foldM_result (divDiff_step j) divDiff (rev (seq j (k - j))))
    ys (seq 1 (k - 1)).

(** Multiply the expansion by [x - (j - 1)], in place. *)
Definition expand_step (j : nat) (expansion : list Z) : list Z :=
  let e := fold_left (fun e i =>
      <[i := gf_add (nth (i - 1) e 0) (gf_mul (nth i e 0) (Z.of_nat (j - 1)))]> e)
    (rev (seq 1 j)) expansion in
  <[O := gf_mul (nth 0 e 0) (Z.of_nat (j - 1))]> e.

Definition accumulate_step (j : nat) (d : Z) (expansion coeffs : list Z) : list Z :=
  fold_left (fun c i => <[i := gf_add (nth i c 0) (gf_mul d (nth i expansion 0))]> c)
    (seq 0 (j + 1)) coeffs.

Definition computePolynomialCoefficients (ys : list Z) : result (list Z) :=
  let k := length ys in
  match k with
  | O => Ok []
  | 1%nat => Ok [nth 0 ys 0]
  | _ =>
      divDiff ← divDiff_table k ys;
      let coeffs := <[O := nth 0 divDiff 0]> (replicate k 0) in
      let expansion := <[O := 1]> (replicate k 0) in
      Ok (fold_left (fun '(coeffs, expansion) j =>
            let expansion := expand_step j expansion in
            (accumulate_step j (nth j divDiff 0) expansion coeffs, expansion))
          (seq 1 (k - 1)) (coeffs, expansion)).1
  end.

Definition evaluatePolynomial (poly : Polynomial16) (x : Z) : Z :=
  match rev (coefficients poly) with
  | [] => 0
  | c :: rest => fold_left (fun result c => gf_add (gf_mul result x) c) rest c
  end.

Definition convertToPolynomials (s : EncoderState) : result EncoderState :=
  match s with
  | Polys _ => Ok s
  | Points pointVectors =>
      polys ← mapM_result (fun polyIdx =>
        coefficients ← computePolynomialCoefficients (nth polyIdx pointVectors []);
        Ok {| index := Z.of_nat polyIdx; coefficients := coefficients |}) (seq 0 NUM_POLYS);
      Ok (Polys polys)
  end.

Definition evaluate_polys (polys : list Polynomial16) (polyIdx : nat) (chunkIdx : Z) : Z :=
  evaluatePolynomial (nth polyIdx polys {| index := 0; coefficients := [] |}) chunkIdx.

Definition pointAt (polyIdx : nat) (chunkIdx : Z) : M EncoderState Z := (
  do s <- M_get;
  match s with
  | Points points =>
      let pts := nth polyIdx points [] in
      if chunkIdx <? len pts then M_ret (nth (Z.to_nat chunkIdx) pts 0)
      else
        do s' <- M_lift (convertToPolynomials s);
        do_ M_put s';
        match s' with
        | Polys polys => M_ret (evaluate_polys polys polyIdx chunkIdx)
        | Points _ => M_ret 0
        end
  | Polys polys => M_ret (evaluate_polys polys polyIdx chunkIdx)
  end)%st.

Fixpoint parity_bytes (polys : list nat) (chunkIndex : Z) : M EncoderState bytes := (
  match polys with
  | [] => M_ret []
  | polyIdx :: polys' =>
      do gf16Value <- pointAt polyIdx chunkIndex;
      do rest <- parity_bytes polys' chunkIndex;
      M_ret (gf16_bytes gf16Value ++ rest)
  end)%st.

Definition generateParityChunk (chunkIndex : Z) : M EncoderState bytes :=
  parity_bytes (seq 0 NUM_POLYS) chunkIndex.

Definition hasMoreChunks (e : PolyEncoder) : bool := currentChunkIdx e <? BRAID_CHUNK_POINT_COUNT.
Definition isDataComplete (e : PolyEncoder) : bool := currentChunkIdx e >=? cfg_dataChunks (enc_config e).
Definition dataChunkCount (e : PolyEncoder) : Z := cfg_dataChunks (enc_config e).

Definition set_enc (c : InterleavedConfig) (s : EncoderState) (idx : Z) (e : PolyEncoder) : PolyEncoder := {|
  enc_config := c; enc_state := s; enc_dataChunks := enc_dataChunks e; currentChunkIdx := idx;
  originalDataSize := originalDataSize e; enc_k := enc_k e; enc_xs := enc_xs e;
  enc_denominators := enc_denominators e |}.

Definition nextChunk : M PolyEncoder bytes := fun e =>
  if negb (hasMoreChunks e) then (e, Throw (Error "Braid encoder exhausted all GF(2^16) points"))
  else
    let idx := currentChunkIdx e in
    if idx <? cfg_dataChunks (enc_config e) then
      (set_enc (enc_config e) (enc_state e) (idx + 1) e,
       Ok (nth (Z.to_nat idx) (enc_dataChunks e) []))
    else
      let config := set_parity (idx - cfg_dataChunks (enc_config e) + 1) (enc_config e) in
      let (s, r) := generateParityChunk idx (enc_state e) in
      (set_enc config s (idx + 1) e, r).

(** *** The decoder *)
Definition new_PolyDecoder (gf16_ready : bool) (size : Z) : result PolyDecoder :=
  if size <=? 0 then Throw (Error "Message size must be positive")
  else if size >? MAX_MESSAGE_SIZE then
    Throw (Error "Message size exceeds maximum for interleaved decoding")
  else if negb gf16_ready then Throw (Error "GF(2^16) tables not loaded")
  else Ok {| dec_config := initial_config (chunks_of size);
             receivedChunks := [];
             messageSize := size;
             totalShardsSet := false |}.

Definition set_received (m : list (Z * bytes)) (d : PolyDecoder) : PolyDecoder := {|
  dec_config := dec_config d; receivedChunks := m; messageSize := messageSize d;
  totalShardsSet := totalShardsSet d |}.

Definition bytes_eqb (a b : bytes) : bool := bool_decide (a = b).

Definition addChunk (chunkIndex : Z) (chunk : bytes) (d : PolyDecoder) : result PolyDecoder :=
  _ ← assertBraidChunkIndex chunkIndex;
  if totalShardsSet d && (chunkIndex >=? cfg_totalChunks (dec_config d)) then
    Throw (Error "Chunk index exceeds maximum")
  else if len chunk =? 0 then Throw (Error "Chunk cannot be empty")
  else if negb (len chunk =? CHUNK_SIZE) then Throw (Error "Invalid chunk size")
  else match assoc_get chunkIndex (receivedChunks d) with
       | Some existing =>
           if negb (bytes_eqb existing chunk) then Throw (Error "Conflicting duplicate chunk")
           else Ok d
       | None => Ok (set_received (receivedChunks d ++ [(chunkIndex, chunk)]) d)
       end.

Definition hasMessage (d : PolyDecoder) : bool :=
  len (receivedChunks d) >=? cfg_dataChunks (dec_config d).

Definition setTotalShards (count : Z) (d : PolyDecoder) : result PolyDecoder :=
  if negb (isSafeInteger count) || (count <? cfg_dataChunks (dec_config d))
     || (count >? BRAID_CHUNK_POINT_COUNT)
  then Throw (Error "Total shard count out of range")
  else Ok {| dec_config := set_total count (dec_config d); receivedChunks := receivedChunks d;
             messageSize := messageSize d; totalShardsSet := true |}.

(** Copy the chunks into a buffer of [messageSize] bytes: each iteration
    copies at most what is left. *)
Fixpoint copy_chunks (left : nat) (chunks : list bytes) : bytes :=
  match chunks with
  | [] => replicate left 0
  | chunk :: chunks' =>
      match left with
      | O => []
      | _ =>
          let copyLen := Nat.min (Z.to_nat CHUNK_SIZE) left in
          take copyLen chunk ++ copy_chunks (left - copyLen) chunks'
      end
  end.

Definition chunk_of (l : list (Z * bytes)) (i : nat) : bytes := default [] (assoc_get (Z.of_nat i) l).

Definition concatenateDataChunks (d : PolyDecoder) : bytes :=
  copy_chunks (Z.to_nat (messageSize d))
    (map (chunk_of (receivedChunks d)) (seq 0 (Z.to_nat (cfg_dataChunks (dec_config d))))).

Definition recover_chunk (received : list (Z * bytes)) (availableIndices denominators : list Z)
    (missingIdx : Z) : result bytes :=
  vs ← mapM_result (fun polyIdx =>
    let ys := map (fun idx => chunk_value (default [] (assoc_get idx received)) polyIdx) availableIndices in
    interpolateWithDenominators availableIndices ys denominators missingIdx) (seq 0 NUM_POLYS);
  Ok (concat (map gf16_bytes vs)).

Definition message (d : PolyDecoder) : result (option bytes) :=
  if negb (hasMessage d) then Ok None
  else
    let k := Z.to_nat (cfg_dataChunks (dec_config d)) in
    let received := receivedChunks d in
    let missingDataChunks :=
      List.filter (fun i => negb (existsb (Z.eqb i) (map fst received))) (map Z.of_nat (seq 0 k)) in
    match missingDataChunks with
    | [] => Ok (Some (concatenateDataChunks d))
    | _ =>
        let availableIndices := take k (map fst received) in
        denominators ← computeDenominators availableIndices;
        recoveredChunks ← mapM_result (fun missingIdx =>
          chunk ← recover_chunk received availableIndices denominators missingIdx;
          Ok (missingIdx, chunk)) missingDataChunks;
        Ok (Some (copy_chunks (Z.to_nat (messageSize d))
          (map (fun i => match assoc_get (Z.of_nat i) recoveredChunks with
                         | Some chunk => chunk
                         | None => chunk_of received i
                         end) (seq 0 k))))
    end.
End Codec.
