(* ===== verification/ErasureNewton.v ===== *)
(** * Newton interpolation of the encoder is correct

    [computePolynomialCoefficients] builds a divided-difference table in
    place and expands Newton's form into coefficients.  Over any lawful field
    it never throws and its result, evaluated by [evaluatePolynomial], takes
    the given values at [0 .. k-1]. *)
From Stdlib Require Import Field Field_theory Ring.
From S2P Require Import Prelude GaloisField FieldPoly Lagrange ErasureCodec.

Section Newton.
Context {F : GaloisField} {HF : GaloisFieldLaws F}.

Abbreviation E := (elt F).
Add Field elt_field_newton : elt_field.

Abbreviation pevalE := (peval e0 eadd emul).
Abbreviation prodE := (prodl e1 emul eadd).
Abbreviation ddE := (dd e0 eadd ediv).
Abbreviation newtonE := (newton e1 eadd emul eadd).
Abbreviation lagrangeE := (lagrange e0 e1 eadd emul eadd ediv).

(** The element of a number of the code. *)
Definition to_elt (z : Z) : E :=
  match decide (in_field z) with left H => mk_elt z H | right _ => e0 end.

Lemma val_to_elt z : in_field z -> val (to_elt z) = z.
Proof. intros H. unfold to_elt. by destruct (decide _). Qed.
Lemma to_elt_val (e : E) : to_elt (val e) = e.
Proof. apply val_inj, val_to_elt, val_in. Qed.
Lemma map_val_to_elt l : Forall in_field l -> map val (map to_elt l) = l.
Proof.
  intros H. rewrite map_map. induction H as [|z l Hz _ IH]; [done|]. cbn. by rewrite val_to_elt, IH.
Qed.

(** The evaluation points [0 .. k-1]. *)
Definition pts (k : nat) : list E := map (fun i => to_elt (Z.of_nat i)) (seq 0 k).

Lemma length_pts k : length (pts k) = k.
Proof. unfold pts. by rewrite length_map, length_seq. Qed.

Context (k : nat) (Hk : Z.of_nat k <= gf_size).

Lemma pt_in i : (i < k)%nat -> in_field (Z.of_nat i).
Proof. unfold in_field. lia. Qed.

Lemma nth_pts i : (i < k)%nat -> nth i (pts k) e0 = to_elt (Z.of_nat i).
Proof.
  intros Hi. unfold pts. rewrite (nth_indep _ e0 (to_elt (Z.of_nat 0))) by (by rewrite length_map, length_seq).
  rewrite (map_nth (fun i => to_elt (Z.of_nat i))), seq_nth by done. done.
Qed.

Lemma val_pt i : (i < k)%nat -> val (nth i (pts k) e0) = Z.of_nat i.
Proof. intros Hi. rewrite nth_pts by done. by apply val_to_elt, pt_in. Qed.

Lemma pts_NoDup : NoDup (pts k).
Proof.
  apply NoDup_ListNoDup, (NoDup_nth _ e0). rewrite length_pts. intros i j Hi Hj E.
  apply (f_equal val) in E. rewrite !val_pt in E by done. lia.
Qed.

Lemma take_S_pts j : (j < k)%nat -> take (S j) (pts k) = take j (pts k) ++ [nth j (pts k) e0].
Proof. intros Hj. apply take_S_r, nth_lookup_eq. by rewrite length_pts. Qed.

(** *** The divided-difference table *)
Definition edd_step (j : nat) (es : list E) (i : nat) : list E :=
  <[i := ediv (eadd (nth i es e0) (nth (i - 1) es e0)) (eadd (nth i (pts k) e0) (nth (i - j) (pts k) e0))]> es.

Lemma divDiff_step_elt j i (es : list E) : (1 <= j <= i)%nat -> (i < k)%nat ->
  divDiff_step j (map val es) i = Ok (map val (edd_step j es i)).
Proof.
  intros Hj Hi. unfold divDiff_step. rewrite !nth_map_val.
  rewrite <- (val_pt i), <- (val_pt (i - j)) by lia. rewrite <- !val_add, div_elt.
  2:{ rewrite val_eq, val_add, !val_pt, val_e0 by lia. rewrite Z.lxor_eq_0_iff. lia. }
  cbn [mbind result_bind]. unfold edd_step. do 2 f_equal. symmetry. apply list_fmap_insert.
Qed.

Lemma divDiff_inner_elt j l : (1 <= j)%nat -> (forall i, i ∈ l -> (j <= i < k)%nat) -> forall es : list E,
  foldM_result (divDiff_step j) (map val es) l = Ok (map val (fold_left (edd_step j) l es)).
Proof.
  intros Hj. induction l as [|i l IH]; intros Hl es; cbn [foldM_result fold_left]; [done|].
  rewrite divDiff_step_elt by (try split; try apply Hl; try left; done). cbn [mbind result_bind].
  apply IH. intros. apply Hl. by right.
Qed.

(** Column [j] of the table: entry [i] is the divided difference of order
    [min i j]. *)
Definition row (eys : list E) (j : nat) (es : list E) : Prop :=
  length es = k /\ forall i, (i < k)%nat -> nth i es e0 = ddE (pts k) eys (Nat.min i j) i.

Lemma row_step eys j es : (1 <= j < k)%nat -> row eys (j - 1) es ->
  row eys j (fold_left (edd_step j) (rev (seq j (k - j))) es).
Proof.
  intros Hj [Hlen Hrow]. split; [unfold edd_step; by rewrite length_fold_insert|]. intros i Hi.
  unfold edd_step.
  rewrite (nth_fold_desc e0 (fun i a b => ediv (eadd b a) (eadd (nth i (pts k) e0) (nth (i - j) (pts k) e0))))
    by lia.
  destruct (decide _) as [Hin|Hout].
  - rewrite !Hrow by lia. replace (i `min` j)%nat with (S (j - 1)) by lia. cbn [dd].
    replace (i `min` (j - 1))%nat with (j - 1)%nat by lia.
    replace ((i - 1) `min` (j - 1))%nat with (j - 1)%nat by lia.
    by replace (S (j - 1)) with j by lia.
  - rewrite Hrow by lia. f_equal. lia.
Qed.

Lemma divDiff_table_elt (eys : list E) : (1 <= k)%nat -> length eys = k ->
  exists es, divDiff_table k (map val eys) = Ok (map val es) /\ length es = k /\
    forall i, (i < k)%nat -> nth i es e0 = ddE (pts k) eys i i.
Proof.
  intros Hk1 Hlen. unfold divDiff_table.
  assert (Hgen : forall n j es, (j + n <= k)%nat -> (1 <= j)%nat -> row eys (j - 1) es ->
    exists es', foldM_result (fun divDiff j => foldM_result (divDiff_step j) divDiff (rev (seq j (k - j))))
      (map val es) (seq j n) = Ok (map val es') /\ row eys (j + n - 1) es').
  { induction n as [|n IH]; intros j es Hj H1 Hrow; cbn [seq foldM_result].
    - exists es. split; [done|]. by rewrite Nat.add_0_r.
    - rewrite divDiff_inner_elt; [|done|].
      2:{ intros i Hi. rewrite list_elem_of_In, <- in_rev, in_seq in Hi. lia. }
      cbn [mbind result_bind].
      destruct (IH (S j) (fold_left (edd_step j) (rev (seq j (k - j))) es)) as (es' & He & Hr); [lia..| |].
      + replace (S j - 1)%nat with j by lia. apply row_step; [lia|done].
      + exists es'. split; [done|]. by replace (j + S n - 1)%nat with (S j + n - 1)%nat by lia. }
  destruct (Hgen (k - 1)%nat 1%nat eys) as (es & He & [Hl Hr]); [lia|lia| |].
  - split; [done|]. intros i Hi. by replace (i `min` (1 - 1))%nat with 0%nat by lia.
  - exists es. split; [done|]. split; [done|]. intros i Hi. rewrite Hr by done. f_equal. lia.
Qed.

(** *** From Newton's form to coefficients *)
Definition eexpand (j : nat) (es : list E) : list E :=
  let a := nth (j - 1) (pts k) e0 in
  let e := fold_left (fun e i => <[i := eadd (nth (i - 1) e e0) (emul (nth i e e0) a)]> e)
             (rev (seq 1 j)) es in
  <[O := emul (nth 0 e e0) a]> e.

Lemma fold_insert_elt (f : list Z -> nat -> Z) (g : list E -> nat -> E) l :
  (forall es i, i ∈ l -> f (map val es) i = val (g es i)) -> forall es,
  fold_left (fun e i => <[i := f e i]> e) l (map val es) =
  map val (fold_left (fun e i => <[i := g e i]> e) l es).
Proof.
  intros H. apply fold_left_hom. intros es i Hi. rewrite H by done. symmetry. apply list_fmap_insert.
Qed.

Lemma expand_step_elt j (es : list E) : (1 <= j < k)%nat ->
  expand_step j (map val es) = map val (eexpand j es).
Proof.
  intros Hj. unfold expand_step, eexpand. rewrite <- (val_pt (j - 1)) by lia.
  rewrite (fold_insert_elt
    (fun e i => gf_add (nth (i - 1) e 0) (gf_mul (nth i e 0) (val (nth (j - 1) (pts k) e0))))
    (fun e i => eadd (nth (i - 1) e e0) (emul (nth i e e0) (nth (j - 1) (pts k) e0)))).
  2:{ intros es' i _. by rewrite !nth_map_val, gf_add_xor. }
  rewrite nth_map_val, <- val_mul. symmetry. apply list_fmap_insert.
Qed.

Lemma length_eexpand j es : length (eexpand j es) = length es.
Proof.
  unfold eexpand. rewrite length_insert.
  apply (length_fold_insert (fun e i => eadd (nth (i - 1) e e0) (emul (nth i e e0) _))).
Qed.

Lemma nth_eexpand j es m : (1 <= j < k)%nat -> length es = k ->
  nth m (eexpand j es) e0 =
    let a := nth (j - 1) (pts k) e0 in
    if decide (m = 0)%nat then emul (nth 0 es e0) a
    else if decide (m <= j)%nat then eadd (nth (m - 1) es e0) (emul (nth m es e0) a)
    else nth m es e0.
Proof.
  intros Hj Hlen. unfold eexpand. cbn zeta. set (a := nth (j - 1) (pts k) e0).
  pose proof (length_fold_insert (fun e i => eadd (nth (i - 1) e e0) (emul (nth i e e0) a)) (rev (seq 1 j)) es) as Hl.
  rewrite nth_insert by (rewrite Hl; lia).
  rewrite !(nth_fold_desc e0 (fun i x y => eadd x (emul y a))) by lia.
  rewrite (decide_False (P := (1 <= 0 < 1 + j)%nat)) by lia.
  destruct (decide (m = 0)%nat); [done|].
  destruct (decide (m <= j)%nat); [by rewrite decide_True by lia|by rewrite decide_False by lia].
Qed.

Definition top_zero (j : nat) (es : list E) : Prop := forall m, (j < m)%nat -> nth m es e0 = e0.

Lemma peval_eexpand j es x : (1 <= j < k)%nat -> length es = k -> top_zero (j - 1) es ->
  pevalE (eexpand j es) x = emul (eadd x (nth (j - 1) (pts k) e0)) (pevalE es x) /\
  top_zero j (eexpand j es).
Proof.
  intros Hj Hlen Hz. split.
  - rewrite (peval_shift _ _ _ _ _ _ _ _ elt_field (nth (j - 1) (pts k) e0) x es e0).
    + ring.
    + apply length_eexpand.
    + intros i Hi. rewrite nth_eexpand by done. cbn zeta. destruct i as [|i]; cbn [decide].
      * rewrite decide_True by done. ring.
      * rewrite decide_False by lia. destruct (decide (S i <= j)%nat).
        { by replace (S i - 1)%nat with i by lia. }
        rewrite (Hz i), (Hz (S i)) by lia. ring.
    + assert (Hlast : nth (length es - 1) es e0 = e0) by (apply Hz; lia).
      rewrite last_lookup. cbn [length pred]. destruct es as [|e es]; [cbn in *; lia|].
      cbn [length] in *. change ((e0 :: e :: es) !! S (length es)) with ((e :: es) !! length es).
      rewrite (nth_lookup_eq (e :: es) (length es) e0) by (cbn; lia). f_equal.
      by replace (S (length es) - 1)%nat with (length es) in Hlast by lia.
  - intros m Hm. rewrite nth_eexpand by done. cbn zeta. rewrite !decide_False by lia. apply Hz. lia.
Qed.

Definition eaccumulate (j : nat) (d : E) (es cs : list E) : list E :=
  fold_left (fun c i => <[i := eadd (nth i c e0) (emul d (nth i es e0))]> c) (seq 0 (j + 1)) cs.

Lemma accumulate_step_elt j (d : E) (es cs : list E) :
  accumulate_step j (val d) (map val es) (map val cs) = map val (eaccumulate j d es cs).
Proof.
  unfold accumulate_step, eaccumulate.
  apply (fold_insert_elt (fun c i => gf_add (nth i c 0) (gf_mul (val d) (nth i (map val es) 0)))
           (fun c i => eadd (nth i c e0) (emul d (nth i es e0)))).
  intros c i _. by rewrite !nth_map_val, gf_add_xor.
Qed.

Lemma length_eaccumulate j d es cs : length (eaccumulate j d es cs) = length cs.
Proof. apply (length_fold_insert (fun c i => eadd (nth i c e0) (emul d (nth i es e0)))). Qed.

Lemma peval_eaccumulate j d es cs x : (j < k)%nat -> length es = k -> length cs = k -> top_zero j es ->
  pevalE (eaccumulate j d es cs) x = eadd (pevalE cs x) (emul d (pevalE es x)).
Proof.
  intros Hj He Hc Hz. apply (peval_lin _ _ _ _ _ _ _ _ elt_field); [lia|rewrite length_eaccumulate; lia|].
  intros i Hi. unfold eaccumulate.
  rewrite (nth_fold_asc e0 (fun i y => eadd y (emul d (nth i es e0)))) by lia.
  destruct (decide _); [done|]. rewrite (Hz i) by lia. ring.
Qed.

(** The state after the iterations [1 .. j] of the second phase. *)
Definition phase2 (ds : list E) (j : nat) (st : list E * list E) : Prop :=
  length st.1 = k /\ length st.2 = k /\ top_zero j st.2 /\
  (forall x, pevalE st.1 x = newtonE (fun i => nth i ds e0) (pts k) j x) /\
  (forall x, pevalE st.2 x = prodE (take j (pts k)) x).

Lemma phase2_step ds j cs es : (1 <= j < k)%nat -> phase2 ds (j - 1) (cs, es) ->
  phase2 ds j (eaccumulate j (nth j ds e0) (eexpand j es) cs, eexpand j es).
Proof.
  intros Hj (Hc & He & Hz & Pc & Pe). cbn [fst snd] in *.
  destruct (peval_eexpand j es e0 Hj He Hz) as [_ Hz'].
  assert (Pe' : forall x, pevalE (eexpand j es) x = prodE (take j (pts k)) x).
  { intros x. rewrite (proj1 (peval_eexpand j es x Hj He Hz)), Pe.
    assert (Ht : take j (pts k) = take (j - 1) (pts k) ++ [nth (j - 1) (pts k) e0]).
    { replace j with (S (j - 1)) at 1 by lia. apply take_S_pts. lia. }
    rewrite Ht, (prodl_app _ _ _ _ _ _ _ _ elt_field).
    cbn [prodl]. ring. }
  repeat split; cbn [fst snd].
  - by rewrite length_eaccumulate.
  - by rewrite length_eexpand.
  - done.
  - intros x. rewrite peval_eaccumulate by (rewrite ?length_eexpand; done || lia).
    rewrite Pc, Pe'. destruct j as [|j']; [lia|]. cbn [newton].
    by replace (S j' - 1)%nat with j' by lia.
  - done.
Qed.

Lemma phase2_fold ds n : forall j cs es, (j + n <= k)%nat -> (1 <= j)%nat -> phase2 ds (j - 1) (cs, es) ->
  exists st, fold_left (fun '(coeffs, expansion) j =>
      let expansion := expand_step j expansion in
      (accumulate_step j (nth j (map val ds) 0) expansion coeffs, expansion))
    (seq j n) (map val cs, map val es) = (map val st.1, map val st.2) /\ phase2 ds (j + n - 1) st.
Proof.
  induction n as [|n IH]; intros j cs es Hn Hj Hp; cbn [seq fold_left].
  - exists (cs, es). split; [done|]. by rewrite Nat.add_0_r.
  - rewrite expand_step_elt, nth_map_val, accumulate_step_elt by lia.
    destruct (IH (S j) (eaccumulate j (nth j ds e0) (eexpand j es) cs) (eexpand j es)) as (st & E & H); [lia..| |].
    + replace (S j - 1)%nat with j by lia. apply phase2_step; [lia|done].
    + exists st. split; [done|]. by replace (j + S n - 1)%nat with (S j + n - 1)%nat by lia.
Qed.

Lemma peval_insert0 c m x : (1 <= m)%nat -> pevalE (<[O := c]> (replicate m e0)) x = c.
Proof.
  intros Hm. destruct m as [|n]; [lia|].
  cbn [replicate insert list_insert peval]. rewrite (peval_zeros _ _ _ _ _ _ _ _ elt_field); [ring|].
  intros i. apply nth_replicate_same.
Qed.

(** The coefficients interpolate the values. *)
Lemma computePolynomialCoefficients_elt (eys : list E) : length eys = k -> (1 <= k)%nat ->
  exists ecs, computePolynomialCoefficients (map val eys) = Ok (map val ecs) /\ length ecs = k /\
    forall x, pevalE ecs x = lagrangeE (pts k) eys x.
Proof.
  intros Hlen Hk1.
  assert (Hlag : forall ecs c, pl eadd emul eadd (k - 1) (pevalE ecs) c ->
    (forall m, (m <= k - 1)%nat -> pevalE ecs (nth m (pts k) e0) = nth m eys e0) ->
    forall x, pevalE ecs x = lagrangeE (pts k) eys x).
  { intros ecs c Hpl Hat x. symmetry.
    apply (lagrange_recovers _ _ _ _ _ _ _ _ elt_field (k - 1) _ _ _ c); [done| |apply pts_NoDup|].
    - rewrite length_pts. lia.
    - rewrite length_pts. intros i Hi. symmetry. apply Hat. lia. }
  unfold computePolynomialCoefficients. rewrite length_map, Hlen.
  destruct (decide (k = 1)%nat) as [H1|Hn1].
  - exists [nth 0 eys e0]. split; [by rewrite H1, nth_map_val|]. split; [done|]. intros x.
    apply (Hlag _ (nth 0 eys e0)).
    + rewrite H1. intros y. cbn [peval]. ring.
    + intros m Hm. replace m with 0%nat by lia. cbn [peval]. ring.
  - destruct (divDiff_table_elt eys Hk1 Hlen) as (ds & Hd & Hdl & Hdd).
    assert (Hinit : phase2 ds (1 - 1) (<[O := nth 0 ds e0]> (replicate k e0), <[O := e1]> (replicate k e0))).
    { refine (conj _ (conj _ (conj _ (conj _ _)))); cbn [fst snd].
      - by rewrite length_insert, length_replicate.
      - by rewrite length_insert, length_replicate.
      - intros m Hm. rewrite nth_insert by (rewrite length_replicate; lia).
        rewrite decide_False by lia. apply nth_replicate_same.
      - intros x. by apply peval_insert0.
      - intros x. by apply peval_insert0. }
    destruct (phase2_fold ds (k - 1) 1 _ _ ltac:(lia) ltac:(lia) Hinit) as (st & Est & (Hc & _ & _ & Pc & _)).
    exists st.1. split; [|split; [done|]].
    + assert (Hrep : forall c : E, map val (<[O := c]> (replicate k e0)) = <[O := val c]> (replicate k 0)).
      { intros c. etransitivity; [apply (list_fmap_insert val)|]. f_equal. apply (fmap_replicate val). }
      rewrite !Hrep in Est. rewrite Hd. cbn [mbind result_bind].
      apply (f_equal fst) in Est. cbn [fst] in Est.
      destruct k as [|[|k']]; [lia|done|].
      by rewrite <- Est, <- nth_map_val.
    + replace (1 + (k - 1) - 1)%nat with (k - 1)%nat in Pc by lia.
      assert (Hnewt : forall x, pevalE st.1 x = newtonE (fun i => ddE (pts k) eys i i) (pts k) (k - 1) x).
      { intros x. rewrite Pc. apply newton_ext. intros i Hi. apply Hdd. lia. }
      destruct (newton_pl _ _ _ _ _ _ _ _ elt_field (fun i => ddE (pts k) eys i i) (pts k) (k - 1)) as [c Hpl].
      { rewrite length_pts. lia. }
      apply (Hlag _ c).
      * by apply (pl_ext _ _ _ _ (newtonE (fun i => ddE (pts k) eys i i) (pts k) (k - 1))).
      * intros m Hm. rewrite Hnewt.
        apply (newton_interpolates _ _ _ _ _ _ _ _ elt_field); [apply pts_NoDup|rewrite length_pts; lia|done].
Qed.

(** Horner's loop computes [peval]. *)
Lemma evaluatePolynomial_elt i (ecs : list E) (ex : E) :
  evaluatePolynomial {| index := i; coefficients := map val ecs |} (val ex) = val (pevalE ecs ex).
Proof.
  unfold evaluatePolynomial. cbn [coefficients]. rewrite <- map_rev.
  assert (Hgen : forall l acc, fold_left (fun result c => gf_add (gf_mul result (val ex)) c) (map val l) (val acc) =
    val (fold_left (fun r c => eadd (emul r ex) c) l acc)).
  { induction l as [|c l IH]; intros acc; cbn [map fold_left]; [done|].
    rewrite gf_add_xor, <- val_mul, <- val_add. apply IH. }
  assert (Hh : forall l, match l with [] => e0 | c :: rest => fold_left (fun r c => eadd (emul r ex) c) rest c end =
    pevalE (rev l) ex).
  { intros l. assert (Hacc : forall rest acc, fold_left (fun r c => eadd (emul r ex) c) rest acc = pevalE (rev rest ++ [acc]) ex).
    { induction rest as [|c rest IH]; intros acc; cbn [fold_left rev]; [cbn; ring|].
      rewrite IH, <- app_assoc. cbn [app].
      generalize (rev rest). intros l'. induction l' as [|a l' IHl]; cbn [app peval]; [ring|]. by rewrite IHl. }
    destruct l as [|c rest]; [done|]. rewrite Hacc. done. }
  destruct (rev ecs) as [|c rest] eqn:Er; cbn [map].
  - apply (f_equal (@rev _)) in Er. rewrite rev_involutive in Er. by subst.
  - rewrite Hgen. f_equal. specialize (Hh (c :: rest)). by rewrite Hh, <- Er, rev_involutive.
Qed.
End Newton.
