(* ===== verification/ErasureProofs.v ===== *)
(** * The codec is an erasure code

    [codeword k data i] is the 32-byte chunk of index [i]: the 16 values at
    [i] of the polynomials of degree below [k] through the columns of the
    padded message.  The encoder emits the codeword in either of its states
    and at any cursor; the decoder, given any [k] different chunks in any
    order and with any repetitions, returns the message. *)
From Stdlib Require Import Field Field_theory Ring.
From S2P Require Import Prelude GaloisField FieldPoly Lagrange ErasureCodec ErasureNewton.

(** ** Two bytes of a value *)
Lemma gf16_of_bytes_add hi lo : 0 <= hi -> is_byte lo -> gf16_of_bytes hi lo = hi * 256 + lo.
Proof.
  unfold is_byte. intros Hh Hl. unfold gf16_of_bytes.
  rewrite Z.lor_comm, lor_shiftl_add by lia. change (2 ^ 8) with 256. lia.
Qed.

Lemma gf16_bytes_of_bytes hi lo : is_byte hi -> is_byte lo -> gf16_bytes (gf16_of_bytes hi lo) = [hi; lo].
Proof.
  unfold is_byte. intros Hh Hl. rewrite gf16_of_bytes_add by (unfold is_byte; lia). unfold gf16_bytes.
  rewrite Z.shiftr_div_pow2 by lia. change 255 with (Z.ones 8). rewrite !Z.land_ones by lia.
  change (2 ^ 8) with 256. rewrite Z.div_add_l, (Z.div_small lo), Z.add_0_r by lia.
  rewrite (Z.mod_small hi) by lia.
  rewrite Z.add_comm, Z.mod_add, Z.mod_small by lia. done.
Qed.

Lemma gf16_bytes_value v : 0 <= v < 65536 ->
  exists hi lo, gf16_bytes v = [hi; lo] /\ is_byte hi /\ is_byte lo /\ gf16_of_bytes hi lo = v.
Proof.
  intros Hv. exists (v / 256), (v mod 256).
  assert (H1 : is_byte (v / 256)).
  { unfold is_byte. split; [apply Z.div_pos; lia|apply Z.div_lt_upper_bound; lia]. }
  assert (H2 : is_byte (v mod 256)) by (apply Z.mod_pos_bound; lia).
  pose proof (Z.div_mod v 256 ltac:(lia)) as E; rewrite Z.mul_comm in E.
  split; [|split; [done|split; [done|]]].
  - rewrite E at 1. rewrite <- gf16_of_bytes_add by (unfold is_byte in *; lia).
    by rewrite gf16_bytes_of_bytes.
  - by rewrite gf16_of_bytes_add by (unfold is_byte in *; lia).
Qed.

Lemma gf16_of_bytes_range hi lo : is_byte hi -> is_byte lo -> 0 <= gf16_of_bytes hi lo < 65536.
Proof. unfold is_byte. intros. rewrite gf16_of_bytes_add by (unfold is_byte; lia). lia. Qed.

(** ** Sixteen pairs *)
Lemma chunk_value_join (f : nat -> Z) n p : (forall i, 0 <= f i < 65536) -> (p < n)%nat ->
  chunk_value (concat (map (fun i => gf16_bytes (f i)) (seq 0 n))) p = f p.
Proof.
  intros Hf. unfold chunk_value. revert f p Hf. induction n as [|n IH]; intros f p Hf Hp; [lia|].
  rewrite <- cons_seq. cbn [map concat].
  destruct (gf16_bytes_value (f 0%nat) (Hf 0%nat)) as (hi & lo & E & Hh & Hl & Ev).
  destruct p as [|p].
  - rewrite E. by cbn.
  - rewrite E. cbn [app]. replace (S p * 2)%nat with (S (S (p * 2))) by lia. cbn [nth Nat.add].
    rewrite <- seq_shift, map_map. apply (IH (fun i => f (S i))); [done|lia].
Qed.

Lemma length_join_pairs (f : nat -> Z) l : length (concat (map (fun i => gf16_bytes (f i)) l)) = (2 * length l)%nat.
Proof. induction l as [|i l IH]; [done|]. cbn [map concat]. rewrite length_app, IH. cbn. lia. Qed.

Lemma join_pairs_of_chunk n (chunk : bytes) : length chunk = (2 * n)%nat -> is_bytes chunk ->
  concat (map (fun i => gf16_bytes (chunk_value chunk i)) (seq 0 n)) = chunk.
Proof.
  revert chunk. induction n as [|n IH]; intros chunk Hlen Hb.
  - by destruct chunk.
  - destruct chunk as [|hi [|lo chunk]]; cbn in Hlen; try lia.
    apply Forall_cons in Hb as [Hh Hb]. apply Forall_cons in Hb as [Hl Hb].
    rewrite <- cons_seq. cbn [map concat].
    unfold chunk_value at 1. cbn [nth Nat.mul Nat.add]. rewrite gf16_bytes_of_bytes by done. cbn [app].
    do 2 f_equal. rewrite <- seq_shift, map_map. apply (IH chunk); [lia|done].
Qed.

(** ** The padded message *)
Section Padding.
Context (k : nat) (data : bytes) (Hb : is_bytes data) (Hlen : (length data <= k * 32)%nat).

Lemma length_padded : length (paddedData k data) = (k * 32)%nat.
Proof.
  unfold paddedData. rewrite length_app, length_replicate. change (Z.to_nat CHUNK_SIZE) with 32%nat. lia.
Qed.

Lemma padded_bytes : is_bytes (paddedData k data).
Proof. apply Forall_app. split; [done|]. apply Forall_replicate. unfold is_byte. lia. Qed.

Lemma nth_padded i : is_byte (nth i (paddedData k data) 0).
Proof.
  destruct (decide (i < length (paddedData k data))%nat).
  - eapply Forall_forall; [apply padded_bytes|]. by apply nth_in.
  - rewrite nth_overflow by lia. unfold is_byte. lia.
Qed.

Definition data_chunk (c : nat) : bytes := take 32 (drop (c * 32) (paddedData k data)).

Lemma extractDataChunks_nth c : (c < k)%nat -> nth c (extractDataChunks k data) [] = data_chunk c.
Proof.
  intros Hc. unfold extractDataChunks. change (Z.to_nat CHUNK_SIZE) with 32%nat.
  set (f := fun chunkIdx => take 32 (drop (chunkIdx * 32) (paddedData k data))).
  rewrite (nth_indep _ [] (f 0%nat)) by (by rewrite length_map, length_seq).
  by rewrite map_nth, seq_nth.
Qed.

Lemma length_data_chunk c : (c < k)%nat -> length (data_chunk c) = 32%nat.
Proof. intros Hc. unfold data_chunk. rewrite length_take, length_drop, length_padded. lia. Qed.

Lemma data_chunk_bytes c : is_bytes (data_chunk c).
Proof. apply Forall_take, Forall_drop, padded_bytes. Qed.

Lemma nth_data_chunk c j : (j < 32)%nat -> nth j (data_chunk c) 0 = nth (c * 32 + j) (paddedData k data) 0.
Proof.
  intros Hj. unfold data_chunk. rewrite !nth_lookup. f_equal.
  rewrite lookup_take_lt by done. by rewrite lookup_drop.
Qed.

(** Column [p] of the message. *)
Definition column (p : nat) : list Z := nth p (parseDataToPoints k data) [].

Lemma column_map p : (p < 16)%nat ->
  column p = map (fun c => chunk_value (data_chunk c) p) (seq 0 k).
Proof.
  intros Hp. unfold column, parseDataToPoints.
  set (f := fun polyIdx => map (fun chunkIdx =>
    gf16_of_bytes (nth (chunkIdx * Z.to_nat CHUNK_SIZE + polyIdx * 2) (paddedData k data) 0)
      (nth (chunkIdx * Z.to_nat CHUNK_SIZE + polyIdx * 2 + 1) (paddedData k data) 0)) (seq 0 k)).
  rewrite (nth_indep _ [] (f 0%nat)) by (by rewrite length_map, length_seq).
  rewrite map_nth, seq_nth by done. unfold f. change (Z.to_nat CHUNK_SIZE) with 32%nat.
  apply map_ext_in. intros c Hc. apply in_seq in Hc. unfold chunk_value.
  rewrite !nth_data_chunk by lia. do 2 f_equal; lia.
Qed.

Lemma length_column p : (p < 16)%nat -> length (column p) = k.
Proof. intros Hp. by rewrite column_map, length_map, length_seq. Qed.

Lemma nth_column p c : (p < 16)%nat -> (c < k)%nat -> nth c (column p) 0 = chunk_value (data_chunk c) p.
Proof.
  intros Hp Hc. rewrite column_map by done.
  rewrite (nth_indep _ 0 (chunk_value (data_chunk 0) p)) by (by rewrite length_map, length_seq).
  by rewrite (map_nth (fun c => chunk_value (data_chunk c) p)), seq_nth.
Qed.

Lemma chunk_value_range c p : 0 <= chunk_value (data_chunk c) p < 65536.
Proof.
  assert (H : forall i, is_byte (nth i (data_chunk c) 0)).
  { intros i. destruct (decide (i < length (data_chunk c))%nat).
    - eapply Forall_forall; [apply data_chunk_bytes|]. by apply nth_in.
    - rewrite nth_overflow by lia. unfold is_byte. lia. }
  apply gf16_of_bytes_range; apply H.
Qed.
End Padding.

(** ** The codeword and the encoder *)
Section Code.
Context {F : GaloisField} {HF : GaloisFieldLaws F} (Hsize : gf_size = 65536).
Context (k : nat) (Hk1 : (1 <= k)%nat) (Hk : Z.of_nat k <= 65536).
Context (data : bytes) (Hb : is_bytes data) (Hlen : (length data <= k * 32)%nat).

Abbreviation E := (elt F).
Add Field elt_field_code : elt_field.
Abbreviation lagrangeE := (lagrange e0 e1 eadd emul eadd ediv).

Definition point_value (p : nat) (i : Z) : E :=
  lagrangeE (pts k) (map to_elt (column k data p)) (to_elt i).

Definition codeword (i : Z) : bytes :=
  concat (map (fun p => gf16_bytes (val (point_value p i))) (seq 0 NUM_POLYS)).

Lemma val_range (e : E) : 0 <= val e < 65536.
Proof. pose proof (val_in e) as H. unfold in_field in H. by rewrite Hsize in H. Qed.

Lemma Hk_size : Z.of_nat k <= gf_size.
Proof. by rewrite Hsize. Qed.

Lemma column_elt p : (p < 16)%nat -> map val (map to_elt (column k data p)) = column k data p.
Proof.
  intros Hp. apply map_val_to_elt, Forall_forall. intros v Hv.
  rewrite column_map in Hv by done. apply list_elem_of_fmap in Hv as (c & -> & _).
  unfold in_field. rewrite Hsize. by apply chunk_value_range.
Qed.

Lemma point_value_data p c : (p < 16)%nat -> (c < k)%nat ->
  val (point_value p (Z.of_nat c)) = chunk_value (data_chunk k data c) p.
Proof.
  intros Hp Hc. unfold point_value. rewrite <- (nth_pts k c) by done.
  rewrite (lagrange_at _ _ _ _ _ _ _ _ elt_field) by
    (first [apply pts_NoDup, Hk_size | by rewrite length_pts]).
  by rewrite <- nth_map_val, column_elt, nth_column.
Qed.

Lemma chunk_value_codeword i p : (p < 16)%nat -> chunk_value (codeword i) p = val (point_value p i).
Proof. intros Hp. apply (chunk_value_join (fun p => val (point_value p i)) 16); [intros; apply val_range|done]. Qed.

Lemma length_codeword i : length (codeword i) = 32%nat.
Proof. apply (length_join_pairs (fun p => val (point_value p i))). Qed.

(** The code is systematic. *)
Lemma codeword_data c : (c < k)%nat -> codeword (Z.of_nat c) = data_chunk k data c.
Proof.
  intros Hc. unfold codeword. rewrite <- (join_pairs_of_chunk 16 (data_chunk k data c)).
  - f_equal. apply map_ext_in. intros p Hp. apply in_seq in Hp. by rewrite point_value_data by (done || (change NUM_POLYS with 16%nat in Hp; lia)).
  - by apply length_data_chunk.
  - by apply data_chunk_bytes.
Qed.

Definition polys_ok (polys : list Polynomial16) : Prop :=
  forall p i, (p < 16)%nat -> in_field i -> evaluate_polys polys p i = val (point_value p i).

Definition state_ok (s : EncoderState) : Prop :=
  s = Points (parseDataToPoints k data) \/ exists polys, s = Polys polys /\ polys_ok polys.

Lemma mapM_seq {A} (f : nat -> result A) (P : nat -> A -> Prop) n o :
  (forall p, (o <= p < o + n)%nat -> exists a, f p = Ok a /\ P p a) ->
  exists l, mapM_result f (seq o n) = Ok l /\ length l = n /\
    forall p d, (p < n)%nat -> P (o + p)%nat (nth p l d).
Proof.
  revert o. induction n as [|n IH]; intros o Hf; cbn [seq mapM_result].
  - exists []. split; [done|]. split; [done|]. intros; lia.
  - destruct (Hf o) as (a & -> & Ha); [lia|].
    destruct (IH (S o)) as (l & -> & Hl & Hn); [intros; apply Hf; lia|].
    exists (a :: l). split; [done|]. split; [cbn; by rewrite Hl|].
    intros [|p] d Hp; cbn [nth]; [by rewrite Nat.add_0_r|].
    replace (o + S p)%nat with (S o + p)%nat by lia. apply Hn. lia.
Qed.

Lemma convert_ok : exists polys,
  convertToPolynomials (Points (parseDataToPoints k data)) = Ok (Polys polys) /\ polys_ok polys.
Proof.
  cbn [convertToPolynomials].
  destruct (mapM_seq (fun polyIdx =>
      coefficients ← computePolynomialCoefficients (nth polyIdx (parseDataToPoints k data) []);
      Ok {| index := Z.of_nat polyIdx; coefficients := coefficients |})
    (fun p q => forall i, in_field i -> evaluatePolynomial q i = val (point_value p i)) NUM_POLYS 0)
    as (polys & E & _ & Hp).
  - intros p Hp. change NUM_POLYS with 16%nat in Hp.
    destruct (computePolynomialCoefficients_elt k Hk_size (map to_elt (column k data p))) as (ecs & Ec & _ & Hp').
    + by rewrite length_map, length_column by lia.
    + done.
    + rewrite column_elt in Ec by lia. unfold column in Ec. rewrite Ec. cbn.
      eexists. split; [done|]. intros i Hi. rewrite <- (val_to_elt i) at 1 by done.
      by rewrite evaluatePolynomial_elt, Hp'.
  - cbn in E |- *. rewrite E. cbn. exists polys. split; [done|]. intros p i Hp16 Hi. unfold evaluate_polys.
    by apply Hp.
Qed.

Lemma pointAt_ok p i s : (p < 16)%nat -> in_field i -> state_ok s ->
  exists s', pointAt p i s = (s', Ok (val (point_value p i))) /\ state_ok s'.
Proof.
  intros Hp Hi [->|(polys & -> & Hpolys)].
  - unfold pointAt, M_bind, M_get. fold (column k data p).
    destruct (i <? len (column k data p)) eqn:Hlt.
    + eexists. split; [|by left]. unfold M_ret. repeat f_equal. b2p.
      unfold len in Hlt. rewrite length_column in Hlt by done.
      unfold in_field in Hi. rewrite nth_column by (done || lia).
      by rewrite <- point_value_data, Z2Nat.id by lia.
    + destruct convert_ok as (polys & E & Hpolys). unfold M_lift. rewrite E. cbn.
      eexists. split; [by rewrite Hpolys|]. right. eauto.
  - unfold pointAt, M_bind, M_get, M_ret. eexists. split; [by rewrite Hpolys|]. right. eauto.
Qed.

Lemma parity_bytes_ok i ps : in_field i -> (forall p, p ∈ ps -> (p < 16)%nat) -> forall s, state_ok s ->
  exists s', parity_bytes ps i s = (s', Ok (concat (map (fun p => gf16_bytes (val (point_value p i))) ps))) /\ state_ok s'.
Proof.
  intros Hi. induction ps as [|p ps IH]; intros Hps s Hs; cbn [parity_bytes map concat].
  - eexists. split; [done|done].
  - destruct (pointAt_ok p i s) as (s1 & E1 & H1); [apply Hps; left|done|done|].
    destruct (IH ltac:(intros; apply Hps; by right) s1 H1) as (s2 & E2 & H2).
    exists s2. split; [|done]. unfold M_bind at 1. rewrite E1. unfold M_bind. by rewrite E2.
Qed.

(** The invariant of an encoder of [data]. *)
Definition encoder_ok (e : PolyEncoder) : Prop :=
  cfg_dataChunks (enc_config e) = Z.of_nat k /\
  enc_dataChunks e = extractDataChunks k data /\
  state_ok (enc_state e) /\ 0 <= currentChunkIdx e <= 65536.

Lemma nextChunk_ok e : encoder_ok e -> currentChunkIdx e < 65536 ->
  exists e', nextChunk e = (e', Ok (codeword (currentChunkIdx e))) /\ encoder_ok e' /\
    currentChunkIdx e' = currentChunkIdx e + 1.
Proof.
  intros (Hc & Hd & Hs & Hi) Hlt. unfold nextChunk, hasMoreChunks.
  change BRAID_CHUNK_POINT_COUNT with 65536. replace (currentChunkIdx e <? 65536) with true by lia. cbn [negb].
  rewrite Hc. case_if; b2p.
  - eexists. split; [apply (f_equal (pair _)), (f_equal Ok)|split; [repeat split; cbn; done || lia|done]].
    rewrite Hd, extractDataChunks_nth by lia. by rewrite <- codeword_data, Z2Nat.id by lia.
  - destruct (parity_bytes_ok (currentChunkIdx e) (seq 0 NUM_POLYS)) with (s := enc_state e) as (s' & E & Hs'); [|..|done|].
    + unfold in_field. rewrite Hsize. lia.
    + intros p Hp. apply list_elem_of_In, in_seq in Hp. change NUM_POLYS with 16%nat in Hp. lia.
    + unfold generateParityChunk. rewrite E. eexists. split; [done|].
      split; [repeat split; cbn; done || lia|done].
Qed.

Lemma nextChunk_exhausted e : encoder_ok e -> currentChunkIdx e = 65536 ->
  nextChunk e = (e, Throw (Error "Braid encoder exhausted all GF(2^16) points")).
Proof.
  intros (Hc & Hd & Hs & Hi) Hlt. unfold nextChunk, hasMoreChunks. by rewrite Hlt.
Qed.

(** *** The decoder *)
Lemma assoc_get_None {A} i (l : list (Z * A)) : assoc_get i l = None <-> i ∉ map fst l.
Proof.
  induction l as [|[j a] l IH]; cbn; [split; [intros _; apply not_elem_of_nil|done]|].
  rewrite not_elem_of_cons. destruct (Z.eqb_spec i j) as [E|E].
  - split; [done|]. by intros [? _].
  - rewrite IH. by split; [|intros [_ ?]].
Qed.

Lemma assoc_get_Some {A} i (a : A) l : assoc_get i l = Some a -> (i, a) ∈ l.
Proof.
  induction l as [|[j b] l IH]; cbn; [done|]. destruct (Z.eqb_spec i j) as [->|].
  - intros [= ->]. left.
  - intros. right. by apply IH.
Qed.

Definition decoder_ok (d : PolyDecoder) : Prop :=
  cfg_dataChunks (dec_config d) = Z.of_nat k /\ messageSize d = len data /\
  totalShardsSet d = false /\ NoDup (map fst (receivedChunks d)) /\
  Forall (fun ic => 0 <= ic.1 < 65536 /\ ic.2 = codeword ic.1) (receivedChunks d).

Definition keys (d : PolyDecoder) : list Z := map fst (receivedChunks d).

Lemma received_get d i : decoder_ok d -> i ∈ keys d -> assoc_get i (receivedChunks d) = Some (codeword i).
Proof.
  intros (_ & _ & _ & _ & Hall) Hi. destruct (assoc_get i (receivedChunks d)) as [c|] eqn:E.
  - apply assoc_get_Some in E. rewrite Forall_forall in Hall. destruct (Hall _ E) as [_ H]. cbn in H. by rewrite H.
  - by apply assoc_get_None in E.
Qed.

Lemma addChunk_ok d i : decoder_ok d -> 0 <= i < 65536 ->
  exists d', addChunk i (codeword i) d = Ok d' /\ decoder_ok d' /\
    keys d' = if decide (i ∈ keys d) then keys d else keys d ++ [i].
Proof.
  intros Hd Hi. pose proof Hd as (Hc & Hm & Ht & Hnd & Hall). unfold addChunk.
  assert (Ha : assertBraidChunkIndex i = Ok i).
  { unfold assertBraidChunkIndex, isSafeInteger, MAX_SAFE_INTEGER, BRAID_CHUNK_INDEX_MAX, BRAID_CHUNK_POINT_COUNT.
    case_if; [|done]. b2p. exfalso. apply orb_true_iff in Hb0 as [H|H]; b2p; [|lia].
    apply orb_true_iff in H as [H|H]; b2p; [|lia]. apply andb_false_iff in H as [H|H]; b2p; lia. }
  rewrite Ha, Ht. cbn [mbind result_bind andb]. unfold len at 1 2. rewrite length_codeword. cbn -[codeword assoc_get].
  destruct (decide (i ∈ keys d)) as [Hin|Hni].
  - rewrite (received_get d i Hd Hin). unfold bytes_eqb. rewrite bool_decide_true by done. cbn.
    by exists d.
  - pose proof Hni as Hn. apply assoc_get_None in Hn. rewrite Hn.
    eexists. split; [done|]. split; [|by unfold keys; cbn; rewrite map_app].
    split; [done|]. split; [done|]. split; [done|]. cbn [receivedChunks set_received].
    rewrite map_app. split.
    + apply NoDup_app. split; [done|]. split; [|apply NoDup_singleton].
      intros j Hj Hj'. apply list_elem_of_singleton in Hj'. cbn in Hj'. by subst.
    + apply Forall_app. split; [done|]. apply Forall_singleton. done.
Qed.

(** Adding chunks of the code in any order, with any repetitions, collects
    exactly the chunks of the distinct indices. *)
Lemma addChunks_ok idxs : forall d, decoder_ok d -> Forall (fun i => 0 <= i < 65536) idxs ->
  exists d', foldM_result (fun d i => addChunk i (codeword i) d) d idxs = Ok d' /\ decoder_ok d' /\
    forall i, i ∈ keys d' <-> i ∈ keys d \/ i ∈ idxs.
Proof.
  induction idxs as [|i idxs IH]; intros d Hd Hidx; cbn [foldM_result].
  - exists d. split; [done|]. split; [done|]. intros i. rewrite elem_of_nil. tauto.
  - apply Forall_cons in Hidx as [Hi Hidx].
    destruct (addChunk_ok d i Hd Hi) as (d1 & -> & H1 & Hk1'). cbn [mbind result_bind].
    destruct (IH d1 H1 Hidx) as (d2 & -> & H2 & Hk2). exists d2. split; [done|]. split; [done|].
    intros j. rewrite Hk2, Hk1', elem_of_cons. destruct (decide _) as [Hin|Hni].
    + split; [tauto|]. intros [?|[->|?]]; tauto.
    + rewrite elem_of_app, list_elem_of_singleton. tauto.
Qed.

Lemma length_keys d idxs : decoder_ok d -> (forall i, i ∈ keys d <-> i ∈ idxs) ->
  length (keys d) = length (remove_dups idxs).
Proof.
  intros (_ & _ & _ & Hnd & _) H. apply Permutation_length, NoDup_Permutation; [done|apply NoDup_remove_dups|].
  intros i. by rewrite H, elem_of_remove_dups.
Qed.

Lemma hasMessage_keys d : decoder_ok d -> hasMessage d = (k <=? length (keys d))%nat.
Proof.
  intros (Hc & _). unfold hasMessage, keys. rewrite Hc, length_map. unfold len.
  destruct (Nat.leb_spec k (length (receivedChunks d))); lia.
Qed.

Lemma copy_chunks_take n chunks : Forall (fun c : bytes => length c = 32%nat) chunks ->
  (n <= 32 * length chunks)%nat -> copy_chunks n chunks = take n (concat chunks).
Proof.
  revert n. induction chunks as [|c chunks IH]; intros n Hc Hn; cbn [copy_chunks concat length] in *.
  - by replace n with 0%nat by lia.
  - apply Forall_cons in Hc as [Hl Hc]. change (Z.to_nat CHUNK_SIZE) with 32%nat.
    destruct n as [|n]; [done|]. rewrite take_app, IH by (done || lia).
    rewrite Hl. f_equal; [|f_equal; lia].
    destruct (Nat.min_spec 32 (S n)) as [[? ->]|[? ->]]; [|done].
    by rewrite !take_ge by lia.
Qed.

Lemma concat_data_chunks : concat (map (data_chunk k data) (seq 0 k)) = paddedData k data.
Proof.
  pose proof (length_padded k data Hlen) as Hl. unfold data_chunk. revert Hl.
  generalize (paddedData k data). clear. induction k as [|n IH]; intros l Hl.
  - by destruct l.
  - rewrite <- cons_seq. cbn [map concat Nat.mul drop]. rewrite <- seq_shift, map_map.
    rewrite (map_ext (fun x => take 32 (drop (S x * 32) l)) (fun x => take 32 (drop (x * 32) (drop 32 l)))).
    2:{ intros x. rewrite drop_drop. done. }
    rewrite IH; [apply take_drop|]. rewrite length_drop. lia.
Qed.

Lemma take_data_codewords :
  take (length data) (concat (map (fun i => codeword (Z.of_nat i)) (seq 0 k))) = data.
Proof.
  rewrite (map_ext_in _ (data_chunk k data)).
  - rewrite concat_data_chunks. apply take_app_length.
  - intros c Hc. apply in_seq in Hc. apply codeword_data. lia.
Qed.

Lemma copy_codewords : copy_chunks (length data) (map (fun i => codeword (Z.of_nat i)) (seq 0 k)) = data.
Proof.
  rewrite copy_chunks_take; [apply take_data_codewords| |].
  - apply Forall_fmap, Forall_forall. intros i _. apply length_codeword.
  - rewrite length_map, length_seq. lia.
Qed.

(** Interpolation through any [k] chunks gives the chunk at any index. *)
Lemma recover_chunk_ok d idxs denominators i : decoder_ok d ->
  (forall j, j ∈ idxs -> j ∈ keys d) -> NoDup idxs -> length idxs = k ->
  computeDenominators idxs = Ok denominators -> 0 <= i < 65536 ->
  recover_chunk (receivedChunks d) idxs denominators i = Ok (codeword i).
Proof.
  intros Hd Hin Hnd Hl Hden Hi. unfold recover_chunk.
  assert (Hfield : Forall in_field idxs).
  { apply Forall_forall. intros j Hj. apply Hin in Hj. destruct Hd as (_ & _ & _ & _ & Hall).
    apply list_elem_of_fmap in Hj as (jc & -> & Hj). rewrite Forall_forall in Hall.
    unfold in_field. rewrite Hsize. by apply (Hall _ Hj). }
  set (exs := map to_elt idxs). assert (Hexs : map val exs = idxs) by (by apply map_val_to_elt).
  assert (Hnde : NoDup exs) by (apply (NoDup_fmap_1 val); change (NoDup (map val exs)); by rewrite Hexs).
  rewrite <- Hexs, computeDenominators_elt in Hden by done. injection Hden as <-.
  rewrite (mapM_result_Ok _ (fun p => val (point_value p i))); [done|].
  intros p Hp. apply list_elem_of_In, in_seq in Hp. change NUM_POLYS with 16%nat in Hp.
  assert (Hys : map (fun idx => chunk_value (default [] (assoc_get idx (receivedChunks d))) p) idxs =
                map val (map (fun ex => point_value p (val ex)) exs)).
  { rewrite <- Hexs at 1. rewrite !map_map. apply map_ext_in. intros ex Hex.
    rewrite received_get by (done || (apply Hin; rewrite <- Hexs; by apply list_elem_of_In, in_map)).
    cbn [default from_option id]. by rewrite chunk_value_codeword by lia. }
  rewrite Hys. rewrite <- Hexs at 1. rewrite <- (val_to_elt i) at 1 by (unfold in_field; by rewrite Hsize).
  rewrite interpolateWithDenominators_elt by done. do 2 f_equal.
  destruct (lagrange_pl _ _ _ _ _ _ _ _ elt_field (pts k) (map to_elt (column k data p))) as [c Hpl].
  assert (Hle : length exs = k) by (unfold exs; by rewrite length_map).
  rewrite (lagrange_recovers _ _ _ _ _ _ _ _ elt_field _ _ _ _ _ (to_elt i) Hpl); [done| |done|].
  - rewrite length_pts. lia.
  - intros m Hm. set (g := fun ex : E => point_value p (val ex)).
    rewrite (nth_indep _ e0 (g e0)) by (by rewrite length_map). rewrite map_nth. unfold g, point_value.
    by rewrite to_elt_val.
Qed.

Lemma keys_in_field d idxs : decoder_ok d -> (forall j, j ∈ idxs -> j ∈ keys d) -> Forall in_field idxs.
Proof.
  intros (_ & _ & _ & _ & Hall) Hin. apply Forall_forall. intros j Hj. apply Hin in Hj.
  apply list_elem_of_fmap in Hj as (jc & -> & Hj). rewrite Forall_forall in Hall.
  unfold in_field. rewrite Hsize. by apply (Hall _ Hj).
Qed.

Lemma computeDenominators_total idxs : Forall in_field idxs -> NoDup idxs ->
  exists ds, computeDenominators idxs = Ok ds.
Proof.
  intros Hf Hnd. rewrite <- (map_val_to_elt idxs) by done. rewrite computeDenominators_elt; [eauto|].
  apply (NoDup_fmap_1 val). change (NoDup (map val (map to_elt idxs))). by rewrite map_val_to_elt.
Qed.

Lemma concatenate_ok d : decoder_ok d -> (forall i, (i < k)%nat -> Z.of_nat i ∈ keys d) ->
  concatenateDataChunks d = data.
Proof.
  intros Hd Hall. pose proof Hd as (Hc & Hm & _). unfold concatenateDataChunks. rewrite Hc, Hm. unfold len.
  rewrite !Nat2Z.id. rewrite <- copy_codewords at 2. f_equal. apply map_ext_in. intros i Hi.
  apply in_seq in Hi. unfold chunk_of. rewrite received_get; [done|done|]. apply Hall. lia.
Qed.

Lemma assoc_get_map {A} (f : Z -> A) l i :
  assoc_get i (map (fun j => (j, f j)) l) = if decide (i ∈ l) then Some (f i) else None.
Proof.
  induction l as [|j l IH]; cbn [map assoc_get]; [done|]. rewrite IH.
  destruct (Z.eqb_spec i j) as [->|Hne]; [by rewrite decide_True by left|].
  destruct (decide (i ∈ l)) as [Hi|Hi].
  - by rewrite decide_True by (by right).
  - rewrite decide_False; [done|]. rewrite elem_of_cons. tauto.
Qed.

Lemma message_ok d : decoder_ok d ->
  message d = Ok (if (k <=? length (keys d))%nat then Some data else None).
Proof.
  intros Hd. unfold message. rewrite hasMessage_keys by done.
  destruct (Nat.leb_spec k (length (keys d))) as [Hle|]; [|done]. cbn [negb].
  pose proof Hd as (Hc & Hm & _ & Hnd & _). rewrite Hc, Nat2Z.id. fold (keys d).
  set (missing := List.filter _ _).
  assert (Hmiss : forall i, (i < k)%nat -> Z.of_nat i ∉ missing -> Z.of_nat i ∈ keys d).
  { intros i Hi Hni. apply existsb_eqb_spec. destruct (existsb _ _) eqn:E; [done|]. exfalso. apply Hni.
    apply list_elem_of_In, filter_In. split; [apply in_map, in_seq; lia|]. by rewrite E. }
  assert (Hrange : forall i, i ∈ missing -> 0 <= i < 65536).
  { intros i Hi. apply list_elem_of_In, filter_In in Hi as [Hi _]. apply in_map_iff in Hi as (n & <- & Hn).
    apply in_seq in Hn. lia. }
  assert (Hsub : forall j, j ∈ take k (keys d) -> j ∈ keys d).
  { intros j. apply subseteq_take. }
  assert (Hnd' : NoDup (take k (keys d))) by (eapply sublist_NoDup; [done|apply sublist_take]).
  destruct missing as [|m0 ms] eqn:Em.
  - rewrite concatenate_ok; [done|done|]. intros i Hi. apply Hmiss; [done|]. apply not_elem_of_nil.
  - rewrite <- Em in *. clear Em m0 ms.
    destruct (computeDenominators_total (take k (keys d))) as [ds Hds]; [by apply (keys_in_field d)|done|].
    rewrite Hds. cbn [mbind result_bind].
    rewrite (mapM_result_Ok _ (fun i => (i, codeword i))).
    2:{ intros i Hi. rewrite (recover_chunk_ok d); [done|done|done|done| |done|by apply Hrange].
        rewrite length_take. lia. }
    cbn [mbind result_bind]. do 2 f_equal. etransitivity; [|apply copy_codewords].
    rewrite Hm. unfold len. rewrite Nat2Z.id. f_equal. apply map_ext_in. intros i Hi. apply in_seq in Hi.
    rewrite assoc_get_map. destruct (decide (Z.of_nat i ∈ missing)) as [Hin|Hni]; [done|].
    unfold chunk_of. rewrite received_get; [done|done|]. apply Hmiss; [lia|done].
Qed.
End Code.

(** ** Properties of the erasure code over GF(2^16)

    The statements of [ErasureProofs] for the field the code uses, from the
    constructors of the encoder and the decoder to the decoded message. *)
(** The [i]-th chunk that an encoder emits, from where it stands. *)
Fixpoint nth_chunk {F : GaloisField} (i : nat) (e : PolyEncoder) : result bytes :=
  match i with
  | O => (nextChunk e).2
  | S i => nth_chunk i (nextChunk e).1
  end.

(** The decoder is given the emitted chunks of the indices [idxs], in this
    order. *)
Definition deliver {F : GaloisField} (e : PolyEncoder) (d : PolyDecoder) (idxs : list Z) : result PolyDecoder :=
  foldM_result (fun d i => chunk ← nth_chunk (Z.to_nat i) e; addChunk i chunk d) d idxs.

Section Gf16.
Lemma size16 : gf_size (GaloisField := GaloisField16) = 65536.
Proof. done. Qed.

Context (data : bytes) (Hb : is_bytes data) (Hlen : 1 <= len data <= MAX_MESSAGE_SIZE).

Definition data_k : nat := Z.to_nat (chunks_of (len data)).

Lemma data_k_bounds : (1 <= data_k)%nat /\ Z.of_nat data_k = chunks_of (len data) /\
  Z.of_nat data_k <= 36 /\ (length data <= data_k * 32)%nat.
Proof.
  unfold data_k, chunks_of, CHUNK_SIZE, MAX_MESSAGE_SIZE in *. unfold len in *.
  set (n := Z.of_nat (length data)) in *.
  assert (H : n + 32 - 1 = 32 * ((n + 32 - 1) / 32) + (n + 32 - 1) mod 32) by (apply Z.div_mod; lia).
  pose proof (Z.mod_pos_bound (n + 32 - 1) 32). lia.
Qed.

Lemma k_le : Z.of_nat data_k <= 65536.
Proof. pose proof data_k_bounds. lia. Qed.

Lemma consecutive_total k c : Z.of_nat k <= 65536 ->
  exists c' ds, getConsecutiveDenominators k c = (c', Ok ds).
Proof.
  intros Hk. unfold getConsecutiveDenominators, M_bind, M_get.
  destruct (c !! Z.of_nat k) as [ds|]; [by exists c, ds|].
  destruct (computeDenominators_total (map Z.of_nat (seq 0 k))) as [ds Hds].
  - apply Forall_fmap, Forall_forall. intros i Hi. apply list_elem_of_In, in_seq in Hi.
    unfold in_field. cbn. change GF16_SIZE with 65536. lia.
  - apply (NoDup_fmap_2 Z.of_nat), NoDup_ListNoDup, seq_NoDup.
  - unfold M_lift. rewrite Hds. case_if; eauto.
Qed.

Lemma new_PolyEncoder_ok c : exists c' e, new_PolyEncoder true data c = (c', Ok e) /\
  encoder_ok data_k data e /\ currentChunkIdx e = 0.
Proof.
  unfold new_PolyEncoder. replace (len data =? 0) with false by lia.
  replace (len data >? MAX_MESSAGE_SIZE) with false by lia. cbn [negb]. fold data_k.
  destruct (consecutive_total data_k c k_le) as (c' & ds & E). unfold M_bind. rewrite E.
  eexists _, _. split; [done|]. split; [|done]. split; [done|]. split; [done|].
  split; [by left|]. cbn. lia.
Qed.

Lemma cursor_check i : assertBraidEncoderCursor i = if decide (0 <= i <= 65536) then Ok i
  else Throw (Error "Braid encoder cursor must be an integer between 0 and 65536").
Proof.
  unfold assertBraidEncoderCursor, isSafeInteger, MAX_SAFE_INTEGER, BRAID_ENCODER_CURSOR_MAX, BRAID_CHUNK_POINT_COUNT.
  destruct (decide _); [replace (negb _ || _ || _) with false by lia|replace (negb _ || _ || _) with true by lia]; done.
Qed.

Lemma restore_ok c i : 0 <= i <= 65536 -> exists c' e, restore true data i c = (c', Ok e) /\
  currentChunkIdx e = i /\ encoder_ok data_k data e.
Proof.
  intros Hi. destruct (new_PolyEncoder_ok c) as (c' & e & Ee & (? & ? & ? & ?) & H0).
  unfold restore, M_bind, M_lift. rewrite cursor_check, decide_True, Ee by done.
  eexists _, _. split; [done|]. split; [done|]. repeat (split; [done|]); done.
Qed.

Lemma nth_chunk_ok n : forall e, encoder_ok data_k data e -> currentChunkIdx e + Z.of_nat n < 65536 ->
  nth_chunk n e = Ok (codeword data_k data (currentChunkIdx e + Z.of_nat n)).
Proof.
  destruct data_k_bounds as (H1 & _ & _ & Hl).
  induction n as [|n IH]; intros e He Hn; cbn [nth_chunk];
    destruct (nextChunk_ok size16 data_k H1 k_le data Hb Hl e He ltac:(lia)) as (e' & -> & He' & Hi).
  - cbn [snd]. by rewrite Z.add_0_r.
  - cbn [fst]. rewrite IH by (done || lia). do 2 f_equal. lia.
Qed.

Lemma new_PolyDecoder_ok : exists d, new_PolyDecoder true (len data) = Ok d /\
  decoder_ok data_k data d /\ keys d = [].
Proof.
  destruct data_k_bounds as (_ & Hk & _). unfold new_PolyDecoder.
  replace (len data <=? 0) with false by lia. replace (len data >? MAX_MESSAGE_SIZE) with false by lia. cbn [negb].
  eexists. split; [done|]. split; [|done]. split; [done|]. repeat split; constructor.
Qed.

Lemma deliver_codewords e d idxs : encoder_ok data_k data e -> currentChunkIdx e = 0 ->
  Forall (fun i => 0 <= i < 65536) idxs ->
  deliver e d idxs = foldM_result (fun d i => addChunk i (codeword data_k data i) d) d idxs.
Proof.
  intros He H0 Hidx. unfold deliver. revert d. induction Hidx as [|i idxs Hi _ IH]; intros d; [done|].
  cbn [foldM_result]. rewrite nth_chunk_ok by (done || lia). rewrite H0, Z.add_0_l, Z2Nat.id by lia.
  cbn [mbind result_bind]. destruct (addChunk _ _ _); cbn [mbind result_bind]; [apply IH|done].
Qed.
End Gf16.

(** C17: Erasure correction.  For every message of 1 to 1152 bytes the encoder
    is created; whichever of its first 65536 chunks reach the decoder, in any
    order and with any repetitions, the decoder accepts them all; once
    [ceil(n / 32)] different chunks have arrived [message] returns exactly
    the encoded message, before that it returns [null]. *)
Theorem erasure_roundtrip data c idxs :
  is_bytes data -> 1 <= len data <= MAX_MESSAGE_SIZE -> Forall (fun i => 0 <= i < 65536) idxs ->
  exists c' e d0 d,
    new_PolyEncoder true data c = (c', Ok e) /\ new_PolyDecoder true (len data) = Ok d0 /\
    deliver e d0 idxs = Ok d /\
    message d = Ok (if decide (chunks_of (len data) <= Z.of_nat (length (remove_dups idxs)))
                    then Some data else None).
Proof.
  intros Hb Hlen Hidx. destruct (data_k_bounds data Hlen) as (H1 & Hk & _ & Hl).
  destruct (new_PolyEncoder_ok data Hlen c) as (c' & e & Ee & He & H0).
  destruct (new_PolyDecoder_ok data Hlen) as (d0 & Ed & Hd0 & Hkeys).
  destruct (addChunks_ok (data_k data) H1 data Hl idxs d0 Hd0 Hidx)
    as (d & Hadd & Hd & Hk').
  exists c', e, d0, d. split; [done|]. split; [done|].
  split; [by rewrite (deliver_codewords data Hb Hlen)|].
  rewrite (message_ok size16 (data_k data) H1 (k_le data Hlen) data Hb Hl d Hd), (length_keys (data_k data) data d idxs Hd).
  2:{ intros i. rewrite Hk', Hkeys, elem_of_nil. tauto. }
  rewrite <- Hk. destruct (Nat.leb_spec (data_k data) (length (remove_dups idxs))).
  - by rewrite decide_True by lia.
  - by rewrite decide_False by lia.
Qed.

Lemma erasure_roundtrip_witness : exists c' e d0 d,
  new_PolyEncoder true [104; 105] ∅ = (c', Ok e) /\ new_PolyDecoder true (len [104; 105]) = Ok d0 /\
  deliver e d0 [700; 700] = Ok d /\ message d = Ok (Some [104; 105]).
Proof.
  apply (erasure_roundtrip [104; 105] ∅ [700; 700]).
  - repeat constructor; unfold is_byte; lia.
  - vm_compute. split; discriminate.
  - repeat constructor; lia.
Defined.

(** Restoring from a cursor.  [restore data i] is indistinguishable, for
    the chunks it emits, from a fresh encoder advanced [i] times: no earlier
    chunk has to be replayed.  At cursor 65536 it is exhausted, and a cursor
    outside [0 .. 65536] is refused. *)
Theorem restore_nextChunk data c i :
  is_bytes data -> 1 <= len data <= MAX_MESSAGE_SIZE ->
  (0 <= i <= 65536 -> exists c' e c'' e', new_PolyEncoder true data c = (c', Ok e) /\
     restore true data i c = (c'', Ok e') /\ currentChunkIdx e' = i /\
     forall n, i + Z.of_nat n < 65536 -> nth_chunk n e' = nth_chunk (Z.to_nat i + n) e) /\
  (0 <= i <= 65536 -> forall e' c'', restore true data i c = (c'', Ok e') -> i = 65536 ->
     nextChunk e' = (e', Throw (Error "Braid encoder exhausted all GF(2^16) points"))) /\
  (i < 0 \/ 65536 < i -> is_ok (restore true data i c).2 = false).
Proof.
  intros Hb Hlen. destruct (new_PolyEncoder_ok data Hlen c) as (c' & e & Ee & He & H0).
  assert (Hrestore : 0 <= i <= 65536 -> exists e', restore true data i c = (c', Ok e') /\
      currentChunkIdx e' = i /\ encoder_ok (data_k data) data e').
  { intros Hi. destruct (restore_ok data Hlen c i Hi) as (c2 & e' & Er & H). exists e'. split; [|done].
    rewrite Er. f_equal. unfold restore, M_bind, M_lift in Er. rewrite cursor_check, decide_True, Ee in Er by done. by injection Er. }
  split; [|split].
  - intros Hi. destruct (Hrestore Hi) as (e' & Er & Hc & He').
    exists c', e, c', e'. repeat split; [done|done|done|]. intros n Hn.
    rewrite !(nth_chunk_ok data Hb Hlen) by (done || lia). do 2 f_equal. lia.
  - intros Hi e' c'' Er ->. destruct (Hrestore Hi) as (e2 & Er2 & Hc & He').
    rewrite Er in Er2. injection Er2 as _ ->. by apply (nextChunk_exhausted (data_k data) data).
  - intros Hi. unfold restore, M_bind, M_lift. rewrite cursor_check, decide_False by lia. done.
Qed.

Lemma restore_nextChunk_witness : is_ok (restore true [7] 65537 ∅).2 = false.
Proof.
  apply (restore_nextChunk [7] ∅ 65537).
  - repeat constructor; unfold is_byte; lia.
  - vm_compute. split; discriminate.
  - lia.
Defined.

(** Encoder coefficients.  For any values of the field at the points
    [0 .. k-1], the in-place divided-difference routine returns, without
    throwing, [k] coefficients of a polynomial that [evaluatePolynomial]
    (Horner) takes back to every one of those values. *)
Theorem computePolynomialCoefficients_interpolates ys :
  Forall (fun v => 0 <= v < 65536) ys -> 1 <= len ys <= 65536 ->
  exists cs, computePolynomialCoefficients ys = Ok cs /\ length cs = length ys /\
    forall i m, (m < length ys)%nat ->
      evaluatePolynomial {| index := i; coefficients := cs |} (Z.of_nat m) = nth m ys 0.
Proof.
  unfold len. intros Hys Hk. assert (Hsz : Z.of_nat (length ys) <= gf_size) by (cbn; change GF16_SIZE with 65536; lia).
  assert (E : map val (map to_elt ys) = ys) by (by apply map_val_to_elt).
  destruct (computePolynomialCoefficients_elt (length ys) Hsz (map to_elt ys)) as (ecs & Ec & Hl & Hp);
    [by rewrite length_map|lia|].
  rewrite E in Ec. exists (map val ecs). split; [done|]. split; [by rewrite length_map|].
  intros i m Hm. rewrite <- (val_to_elt (Z.of_nat m)) by (by apply (pt_in (length ys))).
  rewrite evaluatePolynomial_elt, Hp, <- (nth_pts (length ys) m) by done.
  rewrite (lagrange_at _ _ _ _ _ _ _ _ elt_field) by (by apply pts_NoDup || by rewrite length_pts).
  by rewrite <- nth_map_val, E.
Qed.

Lemma computePolynomialCoefficients_interpolates_witness :
  exists cs, computePolynomialCoefficients [5; 65535; 7] = Ok cs /\ length cs = 3%nat /\
    forall i m, (m < 3)%nat ->
      evaluatePolynomial {| index := i; coefficients := cs |} (Z.of_nat m) = nth m [5; 65535; 7] 0.
Proof.
  apply (computePolynomialCoefficients_interpolates [5; 65535; 7]).
  - repeat constructor; lia.
  - vm_compute; split; discriminate.
Defined.

Lemma interpolate_eq `{GaloisField} points t : points <> [] ->
  interpolate points t = (denominators ← computeDenominators (map x points);
    interpolateWithDenominators (map x points) (map y points) denominators t).
Proof. by destruct points. Qed.

(** Interpolation.  From the values of a polynomial with [n] or fewer
    coefficients at [n] distinct points of the field, [interpolate] returns,
    without throwing, its value at any point of the field. *)
Theorem interpolate_polynomial xs cs t :
  xs <> [] -> NoDup xs -> Forall (fun x => 0 <= x < 65536) (t :: xs ++ cs) -> (length cs <= length xs)%nat ->
  interpolate (map (fun x => {| x := x; y := evaluatePolynomial {| index := 0; coefficients := cs |} x |}) xs) t =
  Ok (evaluatePolynomial {| index := 0; coefficients := cs |} t).
Proof.
  intros Hne Hnd Hall Hlen. apply Forall_cons in Hall as [Ht Hall]. apply Forall_app in Hall as [Hxs Hcs].
  assert (Ex : map val (map to_elt xs) = xs) by (by apply map_val_to_elt).
  assert (Ec : map val (map to_elt cs) = cs) by (by apply map_val_to_elt).
  assert (Hev : forall i v, 0 <= v < 65536 -> evaluatePolynomial {| index := i; coefficients := cs |} v =
      val (peval e0 eadd emul (map to_elt cs) (to_elt v))).
  { intros i v Hv. by rewrite <- (evaluatePolynomial_elt i), Ec, val_to_elt. }
  set (exs := map to_elt xs) in *. set (ecs := map to_elt cs) in *.
  assert (Hnde : NoDup exs) by (apply (NoDup_fmap_1 val); change (NoDup (map val exs)); by rewrite Ex).
  assert (Hlx : length exs = length xs) by apply length_map.
  rewrite interpolate_eq by (by destruct xs).
  rewrite !map_map. cbn [x y]. rewrite map_id.
  rewrite <- Ex at 1. rewrite computeDenominators_elt by done. cbn [mbind result_bind].
  rewrite (map_ext_in _ (fun v => val (peval e0 eadd emul ecs (to_elt v)))).
  2:{ intros v Hv. apply Hev. apply list_elem_of_In in Hv. by eapply Forall_forall in Hxs. }
  rewrite <- (map_map to_elt (fun e => val (peval e0 eadd emul ecs e))). fold exs.
  rewrite <- (map_map (peval e0 eadd emul ecs) val).
  rewrite <- Ex at 1. rewrite <- (val_to_elt t) at 1 by done.
  rewrite interpolateWithDenominators_elt by done. rewrite Hev by done. do 2 f_equal.
  destruct (peval_pl _ _ _ _ _ _ _ _ elt_field ecs) as [c Hpl].
  apply (lagrange_recovers _ _ _ _ _ _ _ _ elt_field _ _ _ _ c (to_elt t) Hpl); [|done|].
  - unfold ecs. rewrite length_map. destruct xs; [done|]. cbn in *. lia.
  - intros i Hi. rewrite (nth_indep _ e0 (peval e0 eadd emul ecs e0)) by (by rewrite length_map).
    by rewrite map_nth.
Qed.

Lemma interpolate_polynomial_witness :
  interpolate (map (fun x => {| x := x; y := evaluatePolynomial {| index := 0; coefficients := [3; 65000] |} x |})
    [40000; 2]) 77 = Ok (evaluatePolynomial {| index := 0; coefficients := [3; 65000] |} 77).
Proof.
  apply interpolate_polynomial; [done|apply (bool_decide_unpack (NoDup [40000; 2])); vm_compute; done|repeat constructor; lia|cbn; lia].
Defined.
