(* ===== verification/ProtoWire.v ===== *)
(** * Protobuf wire primitives ([encoding/proto/primitives.ts])

    Varints of 32 and 64 bits, tags, field encoders and the [ProtoReader]
    cursor.  A [bigint] is a [Z]; a JavaScript number argument whose guards
    test more than integers is a [jsnum].  [ProtoReader] methods are state
    transformers on the cursor and the recorded wire type. *)
From S2P Require Import Prelude.

Definition WIRE_TYPE_VARINT : Z := 0.
Definition WIRE_TYPE_FIXED64 : Z := 1.
Definition WIRE_TYPE_LENGTH_DELIMITED : Z := 2.
Definition WIRE_TYPE_FIXED32 : Z := 5.
Definition UINT32_MAX : Z := 0xffffffff.
Definition UINT64_MAX : Z := 2 ^ 64 - 1.
Definition MAX_VARINT64_BYTES : Z := 10.
Definition MAX_FIELD_NUMBER : Z := 536870911.

(** A JavaScript number: an integer, a number strictly between the integers
    [z] and [z + 1], or one of the non-finite values. *)
Inductive jsnum :=
  | Int (z : Z)
  | Frac (z : Z)
  | NaN
  | Infinity (negative : bool).

Definition js_lt (n : jsnum) (m : Z) : bool :=
  match n with Int z | Frac z => z <? m | NaN => false | Infinity neg => neg end.
Definition js_gt (n : jsnum) (m : Z) : bool :=
  match n with Int z => z >? m | Frac z => z >=? m | NaN => false | Infinity neg => negb neg end.
Definition isInteger (n : jsnum) : bool := match n with Int _ => true | _ => false end.
Definition int_of (n : jsnum) : Z := match n with Int z => z | _ => 0 end.

(** [bytes[i]] read for arithmetic: [undefined] counts as 0. *)
Definition byte_at (b : bytes) (i : Z) : Z := if i <? 0 then 0 else nthZ 0 b i.

(** ** Varints *)
(** The [while (value > 0x7f)] loop; a uint32 takes at most four rounds. *)
Fixpoint encodeVarint_loop (fuel : nat) (value : Z) : bytes :=
  match fuel with
  | O => [u8 (js_and value 0x7f)]
  | S fuel =>
      if value >? 0x7f
      then u8 (js_or (js_and value 0x7f) 0x80) :: encodeVarint_loop fuel (js_ushr value 7)
      else [u8 (js_and value 0x7f)]
  end.

Definition encodeVarint (value : jsnum) : result bytes :=
  if js_lt value 0 then Throw (Error "Varint value must be non-negative")
  else if js_gt value UINT32_MAX then Throw (Error "Varint value exceeds uint32 range")
  else if negb (isInteger value) then Throw (Error "Varint value must be an integer")
  else Ok (encodeVarint_loop 4 (int_of value)).

(** The body throws after the fifth byte, so five rounds are enough. *)
Fixpoint decodeVarint_loop (fuel : nat) (b : bytes) (offset value shift bytesRead : Z) : result (Z * Z) :=
  match fuel with
  | O => Throw (Error "Varint too long")
  | S fuel =>
      if offset + bytesRead <? len b then
        let byte := byte_at b (offset + bytesRead) in
        let bytesRead := bytesRead + 1 in
        let value := js_or value (js_shl (js_and byte 0x7f) shift) in
        let shift := shift + 7 in
        if js_and byte 0x80 =? 0 then Ok (to_uint32 value, bytesRead)
        else if bytesRead >=? 5 then Throw (Error "Varint too long")
        else decodeVarint_loop fuel b offset value shift bytesRead
      else Ok (to_uint32 value, bytesRead)
  end.

Definition decodeVarint (b : bytes) (offset : Z) : result (Z * Z) :=
  decodeVarint_loop 5 b offset 0 0 0.

(** A uint64 takes at most nine rounds. *)
Fixpoint encodeVarint64_loop (fuel : nat) (value : Z) : bytes :=
  match fuel with
  | O => [u8 value]
  | S fuel =>
      if value >? 0x7f
      then u8 (Z.lor (Z.land value 0x7f) 0x80) :: encodeVarint64_loop fuel (Z.shiftr value 7)
      else [u8 value]
  end.

Definition encodeVarint64 (value : Z) : result bytes :=
  if value <? 0 then Throw (Error "Varint value must be non-negative")
  else if value >? UINT64_MAX then Throw (Error "Varint value exceeds uint64 range")
  else Ok (encodeVarint64_loop 9 value).

Fixpoint decodeVarint64_loop (fuel : nat) (b : bytes) (offset value shift bytesRead : Z) : result (Z * Z) :=
  match fuel with
  | O => Throw (Error "Varint too long")
  | S fuel =>
      if offset + bytesRead >=? len b then Throw (Error "Varint truncated")
      else
        let byte := byte_at b (offset + bytesRead) in
        let bytesRead := bytesRead + 1 in
        if (bytesRead =? MAX_VARINT64_BYTES) && (Z.land byte 0x7f >? 0x01)
        then Throw (Error "Varint value exceeds uint64 range")
        else
          let value := Z.lor value (Z.shiftl (Z.land byte 0x7f) shift) in
          let shift := shift + 7 in
          if Z.land byte 0x80 =? 0 then
            if (bytesRead >? 1) && (byte =? 0x00) then Throw (Error "Varint is not canonically encoded")
            else Ok (value, bytesRead)
          else if bytesRead >=? MAX_VARINT64_BYTES then Throw (Error "Varint too long")
          else decodeVarint64_loop fuel b offset value shift bytesRead
  end.

Definition decodeVarint64 (b : bytes) (offset : Z) : result (Z * Z) :=
  decodeVarint64_loop 10 b offset 0 0 0.

(** ** Tags and fields *)
Definition encodeTag (fieldNumber wireType : Z) : result bytes :=
  encodeVarint (Int (js_or (js_shl fieldNumber 3) wireType)).

Definition decodeTag (b : bytes) (offset : Z) : result (Z * Z * Z) :=
  '(tag, bytesRead) ← decodeVarint b offset;
  Ok (js_ushr tag 3, js_and tag 0x07, bytesRead).

Definition concatFields (arrays : list bytes) : bytes := concat arrays.

Definition encodeUint32Field (fieldNumber : Z) (value : jsnum) : result bytes :=
  tag ← encodeTag fieldNumber WIRE_TYPE_VARINT;
  val ← encodeVarint value;
  Ok (tag ++ val).

Definition encodeBytesField (fieldNumber : Z) (data : bytes) : result bytes :=
  tag ← encodeTag fieldNumber WIRE_TYPE_LENGTH_DELIMITED;
  l ← encodeVarint (Int (len data));
  Ok (tag ++ l ++ data).

Definition encodeUint64Field (fieldNumber value : Z) : result bytes :=
  tag ← encodeTag fieldNumber WIRE_TYPE_VARINT;
  val ← encodeVarint64 value;
  Ok (concatFields [tag; val]).

Definition encodeBoolField (fieldNumber : Z) (value : bool) : result bytes :=
  tag ← encodeTag fieldNumber WIRE_TYPE_VARINT;
  val ← encodeVarint (Int (if value then 1 else 0));
  Ok (concatFields [tag; val]).

Definition encodeEnumField (fieldNumber : Z) (value : jsnum) : result bytes :=
  if negb (isInteger value) || js_lt value 0
  then Throw (Error "Enum value must be a non-negative integer")
  else encodeUint32Field fieldNumber value.

Fixpoint fixed64_loop (n : nat) (remaining : Z) : bytes :=
  match n with
  | O => []
  | S n => u8 (Z.land remaining 0xff) :: fixed64_loop n (Z.shiftr remaining 8)
  end.

Definition encodeFixed64Field (fieldNumber value : Z) : result bytes :=
  if value <? 0 then Throw (Error "Fixed64 value must be non-negative")
  else if value >? UINT64_MAX then Throw (Error "Fixed64 value exceeds uint64 range")
  else
    tag ← encodeTag fieldNumber WIRE_TYPE_FIXED64;
    Ok (concatFields [tag; fixed64_loop 8 value]).

Definition encodeMessageField (fieldNumber : Z) (encodedMessage : bytes) : result bytes :=
  encodeBytesField fieldNumber encodedMessage.

Definition encodeRepeatedBytesField (fieldNumber : Z) (values : list bytes) : result bytes :=
  fields ← mapM_result (encodeBytesField fieldNumber) values;
  Ok (concat fields).

Definition encodeRepeatedMessageField (fieldNumber : Z) (encodedMessages : list bytes) : result bytes :=
  encodeRepeatedBytesField fieldNumber encodedMessages.

Definition skipUnknownField (wireType : Z) (b : bytes) (offset : Z) : result Z :=
  if wireType =? WIRE_TYPE_VARINT then
    '(_, bytesRead) ← decodeVarint b offset;
    Ok (offset + bytesRead)
  else if wireType =? WIRE_TYPE_LENGTH_DELIMITED then
    '(length, lengthBytes) ← decodeVarint b offset;
    Ok (offset + lengthBytes + length)
  else Throw (Error "Unsupported wire type").

(** ** The reader *)
Record ProtoReader := { rd_bytes : bytes; cursor : Z; wireType : option Z }.

Definition new_ProtoReader (b : bytes) : ProtoReader := {| rd_bytes := b; cursor := 0; wireType := None |}.

Definition set_cursor (c : Z) (r : ProtoReader) : ProtoReader :=
  {| rd_bytes := rd_bytes r; cursor := c; wireType := wireType r |}.
Definition set_wireType (w : option Z) (r : ProtoReader) : ProtoReader :=
  {| rd_bytes := rd_bytes r; cursor := cursor r; wireType := w |}.

Definition hasMore (r : ProtoReader) : bool := cursor r <? len (rd_bytes r).

(** [bytes.slice(a, b)] for [0 <= a <= b]. *)
Definition slice (b : bytes) (start end_ : Z) : bytes :=
  take (Z.to_nat (end_ - start)) (drop (Z.to_nat start) b).

Section Reader.
Local Open Scope st_scope.

(** [decodeVarint64(this.bytes, this.cursor)] and the cursor update. *)
Definition readVarint64 : M ProtoReader Z :=
  do r <- M_get;
  do vn <- M_lift (decodeVarint64 (rd_bytes r) (cursor r));
  do_ M_modify (fun r => set_cursor (cursor r + vn.2) r);
  M_ret vn.1.

Definition readTag : M ProtoReader (Z * Z) :=
  do tag <- readVarint64;
  let number := Z.shiftr tag 3 in
  let wireType := Z.land tag 0x07 in
  if (number =? 0) || (number >? MAX_FIELD_NUMBER) then M_throw (Error "Invalid protobuf field number")
  else
    do_ M_modify (set_wireType (Some wireType));
    M_ret (number, wireType).

Definition takeWireType : M ProtoReader Z :=
  do r <- M_get;
  match wireType r with
  | None => M_throw (Error "No field tag has been read")
  | Some w => do_ M_modify (set_wireType None); M_ret w
  end.

Definition expectWireType (expected : Z) : M ProtoReader unit :=
  do w <- takeWireType;
  if negb (w =? expected) then M_throw (Error "Expected another wire type") else M_ret tt.

Definition readVarintValue : M ProtoReader Z :=
  do_ expectWireType WIRE_TYPE_VARINT;
  readVarint64.

Definition readUint32 : M ProtoReader Z :=
  do value <- readVarintValue;
  if value >? UINT32_MAX then M_throw (Error "Varint value exceeds uint32 range") else M_ret value.

Definition readUint64 : M ProtoReader Z := readVarintValue.

Definition readBool : M ProtoReader bool :=
  do value <- readVarintValue;
  M_ret (negb (value =? 0)).

Definition readEnum : M ProtoReader Z := readUint32.

(** The loop [for (let i = 7; i >= 0; i--)]. *)
Fixpoint fixed64_value (n : nat) (b : bytes) (cursor value : Z) : Z :=
  match n with
  | O => value
  | S i => fixed64_value i b cursor (Z.lor (Z.shiftl value 8) (byte_at b (cursor + Z.of_nat i)))
  end.

Definition readFixed64 : M ProtoReader Z :=
  do_ expectWireType WIRE_TYPE_FIXED64;
  do r <- M_get;
  let end_ := cursor r + 8 in
  if end_ >? len (rd_bytes r) then M_throw (Error "Fixed64 field truncated")
  else
    let value := fixed64_value 8 (rd_bytes r) (cursor r) 0 in
    do_ M_modify (set_cursor end_);
    M_ret value.

Definition readLengthPrefix : M ProtoReader Z :=
  do length <- readVarint64;
  do r <- M_get;
  let end_ := cursor r + length in
  if end_ >? len (rd_bytes r)
  then M_throw (Error "Length-delimited field extends past the end of the message")
  else M_ret end_.

Definition readBytes : M ProtoReader bytes :=
  do_ expectWireType WIRE_TYPE_LENGTH_DELIMITED;
  do end_ <- readLengthPrefix;
  do r <- M_get;
  let data := slice (rd_bytes r) (cursor r) end_ in
  do_ M_modify (set_cursor end_);
  M_ret data.

Definition readMessage : M ProtoReader bytes := readBytes.

Definition advance (count : Z) (message : string) : M ProtoReader unit :=
  do r <- M_get;
  if cursor r + count >? len (rd_bytes r) then M_throw (Error message)
  else M_modify (set_cursor (cursor r + count)).

Definition skipField : M ProtoReader unit :=
  do w <- takeWireType;
  if w =? WIRE_TYPE_VARINT then do_ readVarint64; M_ret tt
  else if w =? WIRE_TYPE_FIXED64 then advance 8 "Fixed64 field truncated"
  else if w =? WIRE_TYPE_LENGTH_DELIMITED then
    do end_ <- readLengthPrefix;
    M_modify (set_cursor end_)
  else if w =? WIRE_TYPE_FIXED32 then advance 4 "Fixed32 field truncated"
  else M_throw (Error "Unsupported wire type").

(** The loop of every message decoder,
    [while (reader.hasMore()) { const { fieldNumber } = reader.readTag(); ... }],
    over the local variables [A] of the decoder. *)
Fixpoint read_fields {A} (fuel : nat) (field : Z -> A -> M ProtoReader A) (a : A) : M ProtoReader A :=
  do r <- M_get;
  if negb (hasMore r) then M_ret a
  else match fuel with
       | O => M_throw (Error "out of fuel")
       | S fuel =>
           do tag <- readTag;
           do a' <- field tag.1 a;
           read_fields fuel field a'
       end.
End Reader.
