(* ===== verification/ProtoFields.v ===== *)
(** * Protobuf: canonical varints and sequences of fields *)
From S2P Require Import Prelude ProtoWire.

(** ** Varints are canonical

    [varint] is the base-128 form written with arithmetic.  Both encoders
    compute it, and [decodeVarint64] accepts exactly its values. *)
Fixpoint varint (fuel : nat) (v : Z) : bytes :=
  match fuel with
  | O => [v]
  | S fuel => if v >? 127 then (v mod 128 + 128) :: varint fuel (v / 128) else [v]
  end.

Lemma div128 v : 127 < v -> 0 < v / 128 < v.
Proof. intros. split; [apply Z.div_str_pos; lia|apply Z.div_lt; lia]. Qed.

Lemma encodeVarint64_varint fuel v : 0 <= v < 128 ^ Z.of_nat (S fuel) -> encodeVarint64_loop fuel v = varint fuel v.
Proof.
  revert v. induction fuel as [|fuel IH]; intros v Hv; cbn [encodeVarint64_loop varint].
  - f_equal. apply u8_id. unfold is_byte. cbn in Hv. lia.
  - case_if; b2p.
    + rewrite land_127, lor_128 by (apply Z.mod_pos_bound; lia).
      pose proof (Z.mod_pos_bound v 128).
      f_equal; [apply u8_id; unfold is_byte; lia|]. rewrite Z.shiftr_div_pow2 by lia. apply IH.
      split; [apply Z.div_pos; lia|]. apply Z.div_lt_upper_bound; [lia|].
      rewrite Nat2Z.inj_succ, Z.pow_succ_r in Hv by lia. lia.
    + f_equal. apply u8_id. unfold is_byte. lia.
Qed.

Lemma encodeVarint_varint fuel v : 0 <= v < 128 ^ Z.of_nat (S fuel) -> v < 2 ^ 32 ->
  encodeVarint_loop fuel v = varint fuel v.
Proof.
  revert v. induction fuel as [|fuel IH]; intros v Hv H32; cbn [encodeVarint_loop varint];
    change 0x7f with (Z.ones 7); rewrite js_and_small by lia; change (2 ^ 7) with 128.
  - cbn in Hv. rewrite Z.mod_small by lia. f_equal. apply u8_id. unfold is_byte. lia.
  - change (Z.ones 7) with 127. case_if; b2p.
    + pose proof (Z.mod_pos_bound v 128).
      unfold js_or. rewrite !to_int32_id by lia. rewrite lor_128 by lia.
      rewrite js_ushr_div by lia. change (2 ^ 7) with 128. pose proof (div128 v).
      f_equal; [apply u8_id; unfold is_byte; lia|]. apply IH; [|lia].
      split; [lia|]. apply Z.div_lt_upper_bound; [lia|].
      rewrite Nat2Z.inj_succ, Z.pow_succ_r in Hv by lia. lia.
    + rewrite Z.mod_small by lia. f_equal. apply u8_id. unfold is_byte. lia.
Qed.

(** More fuel than digits changes nothing. *)
Lemma varint_fuel f g v : 0 <= v < 128 ^ Z.of_nat (S f) -> (f <= g)%nat -> varint f v = varint g v.
Proof.
  revert g v. induction f as [|f IH]; intros [|g] v Hv Hg; cbn [varint]; try lia; [done| |].
  - cbn in Hv. by replace (v >? 127) with false by lia.
  - case_if; [|done]. b2p. f_equal. apply IH; [|lia]. pose proof (div128 v).
    split; [lia|]. apply Z.div_lt_upper_bound; [lia|]. rewrite Nat2Z.inj_succ, Z.pow_succ_r in Hv by lia. lia.
Qed.

Lemma varint_length f v : (1 <= length (varint f v) <= S f)%nat.
Proof.
  revert v. induction f as [|f IH]; intros v; cbn [varint]; [cbn; lia|].
  case_if; cbn [length]; [|lia]. specialize (IH (v / 128)). lia.
Qed.

Lemma varint_bytes f v : 0 <= v < 128 ^ Z.of_nat (S f) -> is_bytes (varint f v).
Proof.
  revert v. induction f as [|f IH]; intros v Hv; cbn [varint].
  - constructor; [|constructor]. unfold is_byte. cbn in Hv. lia.
  - case_if; b2p.
    + pose proof (Z.mod_pos_bound v 128). constructor; [unfold is_byte; lia|]. apply IH. pose proof (div128 v).
      split; [lia|]. apply Z.div_lt_upper_bound; [lia|]. rewrite Nat2Z.inj_succ, Z.pow_succ_r in Hv by lia. lia.
    + constructor; [|constructor]. unfold is_byte. lia.
Qed.

(** ** Reading at an offset *)
Lemma byte_at_app pre x rest o : o = len pre -> byte_at (pre ++ x :: rest) o = x.
Proof.
  intros ->. unfold byte_at, nthZ. pose proof (len_nonneg pre). replace (len pre <? 0) with false by lia.
  unfold len. rewrite Nat2Z.id. by rewrite nth_middle.
Qed.

(** One digit [m] added above the accumulator. *)
Lemma digit_lor acc m r : 0 <= acc < 2 ^ (7 * r) -> 0 <= r ->
  Z.lor acc (Z.shiftl m (7 * r)) = acc + m * 2 ^ (7 * r).
Proof. intros. apply lor_shiftl_add; [lia|done]. Qed.

Lemma digit_lor_mul acc m r : 0 <= acc < 2 ^ (7 * r) -> 0 <= r ->
  Z.lor acc (m * 2 ^ (7 * r)) = acc + m * 2 ^ (7 * r).
Proof. intros. rewrite <- (Z.shiftl_mul_pow2 m) at 1 by lia. by apply digit_lor. Qed.

Lemma pow7_succ r : 0 <= r -> 2 ^ (7 * (r + 1)) = 128 * 2 ^ (7 * r).
Proof. intros. replace (7 * (r + 1)) with (7 + 7 * r) by lia. by rewrite Z.pow_add_r by lia. Qed.

Lemma decodeVarint64_loop_S fuel b offset value shift bytesRead :
  decodeVarint64_loop (S fuel) b offset value shift bytesRead =
  if offset + bytesRead >=? len b then Throw (Error "Varint truncated")
  else
    let byte := byte_at b (offset + bytesRead) in
    let bytesRead := bytesRead + 1 in
    if (bytesRead =? MAX_VARINT64_BYTES) && (Z.land byte 0x7f >? 0x01)
    then Throw (Error "Varint value exceeds uint64 range")
    else
      let value := Z.lor value (Z.shiftl (Z.land byte 0x7f) shift) in
      let shift := shift + 7 in
      if Z.land byte 0x80 =? 0 then
        if (bytesRead >? 1) && (byte =? 0x00) then Throw (Error "Varint is not canonically encoded")
        else Ok (value, bytesRead)
      else if bytesRead >=? MAX_VARINT64_BYTES then Throw (Error "Varint too long")
      else decodeVarint64_loop fuel b offset value shift bytesRead.
Proof. done. Qed.

Lemma decode_varint fuel : forall v r acc pre rest o,
  Z.of_nat fuel = 9 - r -> 0 <= r -> 0 <= v -> (0 < r -> 0 < v) -> v * 2 ^ (7 * r) < 2 ^ 64 ->
  0 <= acc < 2 ^ (7 * r) -> o + r = len pre ->
  decodeVarint64_loop (S fuel) (pre ++ varint fuel v ++ rest) o acc (7 * r) r =
  Ok (acc + v * 2 ^ (7 * r), r + len (varint fuel v)).
Proof.
  induction fuel as [|fuel IH]; intros v r acc pre rest o Hf Hr Hv Hpos Hmax Hacc Ho.
  - assert (r = 9) as -> by lia. change (2 ^ (7 * 9)) with (2 ^ 63) in *.
    assert (Hv1 : v = 1) by (specialize (Hpos ltac:(lia)); lia). subst v.
    cbn [varint app]. rewrite decodeVarint64_loop_S. cbn zeta. replace (_ >=? _) with false by len_lia.
    rewrite byte_at_app by done. cbn [Z.add Z.eqb]. cbn [andb]. rewrite digit_lor by (done || lia). done.
  - cbn [varint]. set (b0 := if v >? 127 then _ else _) in *.
    assert (Hcase : (v >? 127) = true \/ (v >? 127) = false) by (destruct (v >? 127); auto).
    destruct Hcase as [Hc|Hc]; unfold b0; rewrite Hc; cbn [app]; b2p;
      rewrite decodeVarint64_loop_S; cbn zeta;
      (replace (_ >=? _) with false by len_lia);
      rewrite byte_at_app by done;
      (replace (r + 1 =? MAX_VARINT64_BYTES) with false by (unfold MAX_VARINT64_BYTES; lia)); cbn [andb].
    + pose proof (Z.mod_pos_bound v 128) as Hm. pose proof (div128 v ltac:(lia)) as Hd.
      pose proof (Z.div_mod v 128) as Hdm.
      rewrite land_128 by (unfold is_byte; lia). replace (v mod 128 + 128 <? 128) with false by lia.
      replace (r + 1 >=? MAX_VARINT64_BYTES) with false by (unfold MAX_VARINT64_BYTES; lia).
      rewrite land_127. replace ((v mod 128 + 128) mod 128) with (v mod 128)
        by (rewrite <- Zplus_mod_idemp_r, Z_mod_same_full, Z.add_0_r, Z.mod_mod; lia).
      rewrite digit_lor by done. replace (7 * r + 7) with (7 * (r + 1)) by lia.
      assert (Hp : 0 < 2 ^ (7 * r)) by (apply Z.pow_pos_nonneg; lia).
      assert (E : (pre ++ (v mod 128 + 128) :: varint fuel (v / 128) ++ rest) =
                  (pre ++ [v mod 128 + 128]) ++ varint fuel (v / 128) ++ rest) by (by rewrite <- app_assoc).
      rewrite E, IH; [|try rewrite !pow7_succ by lia; try nia..].
      * f_equal. f_equal; [rewrite pow7_succ by lia; nia|]. rewrite len_cons. lia.
      * len_lia.
    + rewrite land_128 by (unfold is_byte; lia). replace (v <? 128) with true by lia.
      replace ((r + 1 >? 1) && (v =? 0)) with false by lia.
      rewrite land_127, Z.mod_small by lia. rewrite digit_lor by done. f_equal.
Qed.

Lemma drop_byte b o : 0 <= o < len b ->
  drop (Z.to_nat o) b = byte_at b o :: drop (Z.to_nat (o + 1)) b.
Proof.
  unfold len. intros Ho. unfold byte_at, nthZ. replace (o <? 0) with false by lia.
  replace (Z.to_nat (o + 1)) with (S (Z.to_nat o)) by lia. apply drop_S, nth_lookup_eq. lia.
Qed.

Lemma byte_at_is_byte b o : is_bytes b -> is_byte (byte_at b o).
Proof.
  intros Hb. unfold byte_at, nthZ. case_if; [unfold is_byte; lia|].
  destruct (decide (Z.to_nat o < length b)%nat).
  - eapply Forall_forall; [exact Hb|]. by apply nth_in.
  - rewrite nth_overflow by lia. unfold is_byte. lia.
Qed.

Lemma varint_step fuel m v : 0 <= m < 128 -> 0 < v ->
  varint (S fuel) (m + 128 * v) = (m + 128) :: varint fuel v.
Proof.
  intros Hm Hv. cbn [varint]. replace (m + 128 * v >? 127) with true by lia.
  rewrite (Z.mul_comm 128 v), Z.mod_add, Z.div_add, Z.mod_small, Z.div_small by lia. done.
Qed.

Lemma decode_varint_inv fuel : forall r acc b o v' n,
  Z.of_nat fuel = 9 - r -> 0 <= r -> 0 <= acc < 2 ^ (7 * r) -> is_bytes b -> 0 <= o ->
  decodeVarint64_loop (S fuel) b o acc (7 * r) r = Ok (v', n) ->
  exists v, 0 <= v /\ (0 < r -> 0 < v) /\ v * 2 ^ (7 * r) < 2 ^ 64 /\ v' = acc + v * 2 ^ (7 * r) /\
    n = r + len (varint fuel v) /\ n <= len b - o /\
    take (length (varint fuel v)) (drop (Z.to_nat (o + r)) b) = varint fuel v.
Proof.
  induction fuel as [|fuel IH]; intros r acc b o v' n Hf Hr Hacc Hb Ho; rewrite decodeVarint64_loop_S; cbn zeta;
    (case_if; [done|]); b2p; rewrite (drop_byte b (o + r)) by lia;
    pose proof (byte_at_is_byte b (o + r) Hb) as Hby; set (byte := byte_at b (o + r)) in *;
    rewrite land_128, land_127 by done; assert (Hp : 0 < 2 ^ (7 * r)) by (apply Z.pow_pos_nonneg; lia).
  - assert (r = 9) as -> by lia. change (9 + 1 =? MAX_VARINT64_BYTES) with true. cbn [andb].
    case_if; [done|]. b2p. unfold is_byte in Hby.
    case_if; [|done]. b2p. rewrite Z.mod_small in * by lia. change (9 + 1 >? 1) with true. cbn [andb].
    case_if; [done|]. b2p. rewrite digit_lor by (done || lia). intros [= <- <-].
    exists byte. cbn [varint length take len]. repeat split; try lia.
  - replace (r + 1 =? MAX_VARINT64_BYTES) with false by (unfold MAX_VARINT64_BYTES; lia). cbn [andb].
    unfold is_byte in Hby. case_if; b2p.
    + case_if; [done|]. rewrite Z.mod_small by lia. rewrite digit_lor by done. intros [= <- <-].
      exists byte. cbn [varint]. replace (byte >? 127) with false by lia. cbn [length take].
      assert (Hv : 2 ^ (7 * r) * 128 <= 2 ^ 63).
      { replace (2 ^ (7 * r) * 128) with (2 ^ (7 * r + 7)) by (by rewrite Z.pow_add_r by lia).
        apply Z.pow_le_mono_r; lia. }
      change (2 ^ 64) with (2 * 2 ^ 63).
      repeat split; try lia; nia.
    + replace (r + 1 >=? MAX_VARINT64_BYTES) with false by (unfold MAX_VARINT64_BYTES; lia).
      pose proof (Z.mod_pos_bound byte 128) as Hm. rewrite digit_lor by done.
      replace (7 * r + 7) with (7 * (r + 1)) by lia. intros H.
      apply IH in H as (v & Hv0 & Hvp & Hvm & -> & -> & Hn & Htake); [|try rewrite pow7_succ by lia; try nia; done..].
      specialize (Hvp ltac:(lia)). rewrite pow7_succ in * by lia.
      assert (Eb : byte mod 128 + 128 = byte).
      { replace byte with (byte - 128 + 1 * 128) at 1 by lia. rewrite Z.mod_add, Z.mod_small by lia. lia. }
      assert (Hdvd : 2 ^ 64 = 2 ^ (57 - 7 * r) * (128 * 2 ^ (7 * r))).
      { change 128 with (2 ^ 7). rewrite <- !Z.pow_add_r by lia. f_equal. lia. }
      specialize (Hm ltac:(lia)). rewrite Hdvd in *.
      assert (Hvk : v < 2 ^ (57 - 7 * r)) by (apply (Z.mul_lt_mono_pos_r (128 * 2 ^ (7 * r))); lia).
      exists (byte mod 128 + 128 * v). rewrite varint_step by lia.
      split; [lia|]. split; [lia|]. split; [nia|]. split; [lia|]. split; [len_lia|]. split; [len_lia|].
      cbn [length take]. rewrite Eb. f_equal. by replace (o + r + 1) with (o + (r + 1)) by lia.
Qed.

(** ** The 32-bit decoder *)
Lemma decodeVarint_loop_S fuel b offset value shift bytesRead :
  decodeVarint_loop (S fuel) b offset value shift bytesRead =
  if offset + bytesRead <? len b then
    let byte := byte_at b (offset + bytesRead) in
    let bytesRead := bytesRead + 1 in
    let value := js_or value (js_shl (js_and byte 0x7f) shift) in
    let shift := shift + 7 in
    if js_and byte 0x80 =? 0 then Ok (to_uint32 value, bytesRead)
    else if bytesRead >=? 5 then Throw (Error "Varint too long")
    else decodeVarint_loop fuel b offset value shift bytesRead
  else Ok (to_uint32 value, bytesRead).
Proof. done. Qed.

Lemma decode32_varint fuel : forall v r value pre rest o,
  Z.of_nat fuel = 4 - r -> 0 <= r -> 0 <= v -> v * 2 ^ (7 * r) < 2 ^ 32 ->
  0 <= to_uint32 value < 2 ^ (7 * r) -> o + r = len pre ->
  decodeVarint_loop (S fuel) (pre ++ varint fuel v ++ rest) o value (7 * r) r =
  Ok (to_uint32 value + v * 2 ^ (7 * r), r + len (varint fuel v)).
Proof.
  induction fuel as [|fuel IH]; intros v r value pre rest o Hf Hr Hv Hmax Hacc Ho;
    assert (Hp : 0 < 2 ^ (7 * r)) by (apply Z.pow_pos_nonneg; lia).
  - assert (r = 4) as -> by lia. change (2 ^ (7 * 4)) with (2 ^ 28) in *.
    cbn [varint app]. rewrite decodeVarint_loop_S. cbn zeta. replace (_ <? _) with true by len_lia.
    rewrite byte_at_app by done. unfold js_and. rewrite !to_int32_id by lia. rewrite land_128 by (unfold is_byte; lia).
    replace (v <? 128) with true by lia. rewrite land_127, Z.mod_small, to_uint32_or, to_uint32_shl by lia.
    rewrite (to_uint32_id (_ * _)), (digit_lor_mul _ _ 4) by lia. done.
  - cbn [varint]. assert (Hcase : (v >? 127) = true \/ (v >? 127) = false) by (destruct (v >? 127); auto).
    destruct Hcase as [Hc|Hc]; rewrite Hc; cbn [app]; b2p; rewrite decodeVarint_loop_S; cbn zeta;
      (replace (_ <? _) with true by len_lia); rewrite byte_at_app by done.
    + pose proof (Z.mod_pos_bound v 128) as Hm. pose proof (div128 v ltac:(lia)) as Hd.
      pose proof (Z.div_mod v 128) as Hdm. unfold js_and. rewrite !to_int32_id by lia.
      rewrite land_128 by (unfold is_byte; lia). replace (v mod 128 + 128 <? 128) with false by lia.
      replace (r + 1 >=? 5) with false by lia.
      rewrite land_127. replace ((v mod 128 + 128) mod 128) with (v mod 128)
        by (rewrite <- Zplus_mod_idemp_r, Z_mod_same_full, Z.add_0_r, Z.mod_mod; lia).
      replace (7 * r + 7) with (7 * (r + 1)) by lia.
      assert (E : (pre ++ (v mod 128 + 128) :: varint fuel (v / 128) ++ rest) =
                  (pre ++ [v mod 128 + 128]) ++ varint fuel (v / 128) ++ rest) by (by rewrite <- app_assoc).
      assert (Hval : to_uint32 (js_or value (js_shl (v mod 128) (7 * r))) = to_uint32 value + v mod 128 * 2 ^ (7 * r)).
      { rewrite to_uint32_or, to_uint32_shl by lia. rewrite (to_uint32_id (_ * _)) by nia.
        by apply digit_lor_mul. }
      rewrite E, IH; rewrite ?Hval; [|try rewrite !pow7_succ by lia; try nia..].
      * f_equal. f_equal; [rewrite pow7_succ by lia; nia|]. rewrite len_cons. lia.
      * len_lia.
    + unfold js_and. rewrite !to_int32_id by lia. rewrite land_128 by (unfold is_byte; lia).
      replace (v <? 128) with true by lia. rewrite land_127, Z.mod_small, to_uint32_or, to_uint32_shl by lia.
      rewrite (to_uint32_id (_ * _)), digit_lor_mul by nia. done.
Qed.

Lemma decodeVarint_varint pre v rest : 0 <= v < 2 ^ 32 ->
  decodeVarint (pre ++ varint 9 v ++ rest) (len pre) = Ok (v, len (varint 9 v)).
Proof.
  intros Hv. rewrite <- (varint_fuel 4 9) by (cbn; lia). unfold decodeVarint.
  change (decodeVarint_loop 5 ?b ?o 0 0 0) with (decodeVarint_loop 5 b o 0 (7 * 0) 0).
  rewrite (decode32_varint 4 v 0 0 pre rest (len pre)); change (to_uint32 0) with 0; change (2 ^ (7 * 0)) with 1;
    try done; try lia. do 2 f_equal; lia.
Qed.

(** ** Messages as sequences of fields

    [wfield] is one tagged field of an encoded message.  The reader run over
    the encoding of a list of fields sees exactly these fields, in order; and
    a byte string that a decoder accepts is the encoding of a list of fields.
    The decoders are therefore determined by what they do with each field. *)
#[local] Arguments varint : simpl never.

Inductive wfield :=
  | WVarint (n v : Z)
  | WFixed64 (n : Z) (d : bytes)
  | WBytes (n : Z) (d : bytes)
  | WFixed32 (n : Z) (d : bytes).

Definition fnum (f : wfield) : Z :=
  match f with WVarint n _ | WFixed64 n _ | WBytes n _ | WFixed32 n _ => n end.
Definition wtype (f : wfield) : Z :=
  match f with
  | WVarint _ _ => WIRE_TYPE_VARINT | WFixed64 _ _ => WIRE_TYPE_FIXED64
  | WBytes _ _ => WIRE_TYPE_LENGTH_DELIMITED | WFixed32 _ _ => WIRE_TYPE_FIXED32
  end.
Definition payload (f : wfield) : bytes :=
  match f with
  | WVarint _ v => varint 9 v
  | WBytes _ d => varint 9 (len d) ++ d
  | WFixed64 _ d | WFixed32 _ d => d
  end.
Definition wtag (f : wfield) : Z := 8 * fnum f + wtype f.
Definition encode_field (f : wfield) : bytes := varint 9 (wtag f) ++ payload f.
Definition encode_fields (fs : list wfield) : bytes := concat (map encode_field fs).

Definition wf_field (f : wfield) : Prop :=
  1 <= fnum f <= MAX_FIELD_NUMBER /\
  match f with
  | WVarint _ v => 0 <= v < 2 ^ 64
  | WFixed64 _ d => length d = 8%nat
  | WBytes _ d => len d < 2 ^ 64
  | WFixed32 _ d => length d = 4%nat
  end.

Lemma wtype_range f : 0 <= wtype f < 8.
Proof. destruct f; cbn; vm_compute; split; done. Qed.

(** ** The encoders produce fields *)
Lemma encodeVarint_ok v : 0 <= v < 2 ^ 32 -> encodeVarint (Int v) = Ok (varint 9 v).
Proof.
  intros Hv. unfold encodeVarint, js_lt, js_gt, UINT32_MAX.
  replace (v <? 0) with false by lia. replace (v >? 0xffffffff) with false by lia. cbn [negb isInteger int_of].
  rewrite encodeVarint_varint by (cbn; lia). f_equal. apply varint_fuel; [cbn|]; lia.
Qed.

Lemma encodeVarint64_ok v : 0 <= v < 2 ^ 64 -> encodeVarint64 v = Ok (varint 9 v).
Proof.
  intros Hv. unfold encodeVarint64, UINT64_MAX. replace (v <? 0) with false by lia.
  replace (v >? 2 ^ 64 - 1) with false by lia. rewrite encodeVarint64_varint by (cbn; lia). done.
Qed.

Lemma tag_value n w : 0 <= n < 2 ^ 28 -> 0 <= w < 8 -> js_or (js_shl n 3) w = 8 * n + w.
Proof.
  intros Hn Hw. unfold js_or, js_shl. rewrite (to_int32_id n) by lia.
  change (3 mod 32) with 3. rewrite Z.shiftl_mul_pow2 by lia. change (2 ^ 3) with 8.
  rewrite !to_int32_id by (rewrite ?to_int32_id; lia).
  replace (n * 8) with (Z.shiftl n 3) by (rewrite Z.shiftl_mul_pow2 by lia; lia).
  rewrite Z.lor_comm, lor_shiftl_add by lia. lia.
Qed.

Lemma encodeTag_ok n w : 0 <= n < 2 ^ 28 -> 0 <= w < 8 -> encodeTag n w = Ok (varint 9 (8 * n + w)).
Proof. intros. unfold encodeTag. rewrite tag_value by done. apply encodeVarint_ok. lia. Qed.

Lemma encodeUint32Field_ok n v : 0 <= n < 2 ^ 28 -> 0 <= v < 2 ^ 32 ->
  encodeUint32Field n (Int v) = Ok (encode_field (WVarint n v)).
Proof.
  intros. unfold encodeUint32Field. rewrite encodeTag_ok by (done || vm_compute; done).
  cbn [mbind result_bind]. rewrite encodeVarint_ok by done. done.
Qed.

Lemma encodeBytesField_ok n d : 0 <= n < 2 ^ 28 -> len d < 2 ^ 32 ->
  encodeBytesField n d = Ok (encode_field (WBytes n d)).
Proof.
  intros. unfold encodeBytesField. rewrite encodeTag_ok by (done || vm_compute; done).
  cbn [mbind result_bind]. rewrite encodeVarint_ok by len_lia. done.
Qed.

(** ** The reader on one field *)
Definition at_ (pre l : bytes) (w : option Z) : ProtoReader :=
  {| rd_bytes := pre ++ l; cursor := len pre; wireType := w |}.

Lemma decode_varint9 pre v rest : 0 <= v < 2 ^ 64 ->
  decodeVarint64 (pre ++ varint 9 v ++ rest) (len pre) = Ok (v, len (varint 9 v)).
Proof.
  intros Hv. unfold decodeVarint64.
  change (decodeVarint64_loop 10 ?b ?o 0 0 0) with (decodeVarint64_loop 10 b o 0 (7 * 0) 0).
  rewrite (decode_varint 9 v 0 0 pre rest (len pre)); try done; try lia. do 2 f_equal; lia.
Qed.

Lemma readVarint64_at pre v rest w : 0 <= v < 2 ^ 64 ->
  readVarint64 (at_ pre (varint 9 v ++ rest) w) = (at_ (pre ++ varint 9 v) rest w, Ok v).
Proof.
  intros Hv. unfold readVarint64, M_bind, M_get, M_lift, M_modify, M_ret, at_. cbn [rd_bytes cursor].
  rewrite decode_varint9 by done. cbn. unfold set_cursor. cbn. by rewrite <- app_assoc, len_app.
Qed.

Lemma readTag_at pre f rest w : wf_field f ->
  readTag (at_ pre (encode_field f ++ rest) w) =
  (at_ (pre ++ varint 9 (wtag f)) (payload f ++ rest) (Some (wtype f)), Ok (fnum f, wtype f)).
Proof.
  intros [Hn _]. pose proof (wtype_range f) as Hw. unfold MAX_FIELD_NUMBER in Hn.
  unfold readTag, encode_field. unfold M_bind at 1. rewrite <- app_assoc, readVarint64_at by (unfold wtag; lia).
  rewrite land_7, Z.shiftr_div_pow2 by lia. change (2 ^ 3) with 8. unfold wtag.
  rewrite (Z.mul_comm 8), Z.div_add_l, Z.div_small, Z.add_0_r by lia.
  rewrite Z.add_comm, Z.mod_add, Z.mod_small by lia.
  replace ((fnum f =? 0) || (fnum f >? MAX_FIELD_NUMBER)) with false by (unfold MAX_FIELD_NUMBER; lia).
  rewrite (Z.add_comm (wtype f)). done.
Qed.

Lemma expectWireType_at pre l w expected : w = expected ->
  expectWireType expected (at_ pre l (Some w)) = (at_ pre l None, Ok tt).
Proof. intros ->. unfold expectWireType, takeWireType, M_bind, M_get, M_modify. cbn. by rewrite Z.eqb_refl. Qed.

Lemma expectWireType_ne pre l w expected : w <> expected ->
  expectWireType expected (at_ pre l (Some w)) = (at_ pre l None, Throw (Error "Expected another wire type")).
Proof.
  intros H. unfold expectWireType, takeWireType, M_bind, M_get, M_modify. cbn.
  apply Z.eqb_neq in H. by rewrite H.
Qed.

Lemma slice_app pre d rest : slice (pre ++ d ++ rest) (len pre) (len pre + len d) = d.
Proof.
  unfold slice, len. rewrite Nat2Z.id. rewrite drop_app_length.
  replace (Z.to_nat _) with (length d) by lia. apply take_app_length.
Qed.

Lemma readLengthPrefix_at pre d rest w : len d < 2 ^ 64 ->
  readLengthPrefix (at_ pre (varint 9 (len d) ++ d ++ rest) w) =
  (at_ (pre ++ varint 9 (len d)) (d ++ rest) w, Ok (len (pre ++ varint 9 (len d)) + len d)).
Proof.
  intros Hd. unfold readLengthPrefix. unfold M_bind at 1. rewrite readVarint64_at by len_lia.
  unfold M_bind, M_get, at_. cbn [rd_bytes cursor].
  replace (_ >? _) with false by len_lia. done.
Qed.

Definition after (pre : bytes) (f : wfield) (rest : bytes) : ProtoReader :=
  at_ (pre ++ payload f) rest None.

Lemma readBytes_at pre n d rest : len d < 2 ^ 64 ->
  readBytes (at_ pre (payload (WBytes n d) ++ rest) (Some WIRE_TYPE_LENGTH_DELIMITED)) =
  (after pre (WBytes n d) rest, Ok d).
Proof.
  intros Hd. unfold readBytes, M_bind at 1. rewrite expectWireType_at by done.
  cbn [payload]. rewrite <- app_assoc. unfold M_bind at 1. rewrite readLengthPrefix_at by done.
  unfold M_bind, M_get, M_modify, M_ret. cbn [rd_bytes cursor at_]. rewrite slice_app.
  unfold after, at_, set_cursor. cbn. by rewrite <- !app_assoc, !len_app, Z.add_assoc.
Qed.

Lemma readUint32_at pre n v rest : 0 <= v < 2 ^ 64 ->
  readUint32 (at_ pre (payload (WVarint n v) ++ rest) (Some WIRE_TYPE_VARINT)) =
  (after pre (WVarint n v) rest,
   if v >? UINT32_MAX then Throw (Error "Varint value exceeds uint32 range") else Ok v).
Proof.
  intros Hv. unfold readUint32, readVarintValue, M_bind at 1. unfold M_bind at 1.
  rewrite expectWireType_at by done. cbn [payload]. rewrite readVarint64_at by done.
  by case_if.
Qed.

Lemma skipField_at pre f rest : wf_field f ->
  skipField (at_ pre (payload f ++ rest) (Some (wtype f))) = (after pre f rest, Ok tt).
Proof.
  intros [_ Hf]. unfold skipField, M_bind at 1, takeWireType, M_bind at 1, M_get.
  cbn [at_ wireType]. unfold M_bind at 1, M_modify, set_wireType. cbn [at_ rd_bytes cursor].
  change {| rd_bytes := pre ++ payload f ++ rest; cursor := len pre; wireType := None |}
    with (at_ pre (payload f ++ rest) None).
  destruct f as [n v|n d|n d|n d]; cbn [wtype payload] in *; cbn -[varint at_ payload readVarint64 readLengthPrefix advance].
  - unfold M_bind. by rewrite readVarint64_at.
  - unfold advance, M_bind, M_get, M_modify. cbn [at_ rd_bytes cursor].
    assert (Hl : len d = 8) by (unfold len; lia).
    replace (_ >? _) with false by len_lia. unfold after, at_, set_cursor. cbn. by rewrite <- app_assoc, len_app, Hl.
  - rewrite <- app_assoc. unfold M_bind. rewrite readLengthPrefix_at by done. unfold M_modify, set_cursor.
    unfold after, at_. cbn [rd_bytes cursor wireType payload]. by rewrite <- !app_assoc, !len_app, Z.add_assoc.
  - unfold advance, M_bind, M_get, M_modify. cbn [at_ rd_bytes cursor].
    assert (Hl : len d = 4) by (unfold len; lia).
    replace (_ >? _) with false by len_lia. unfold after, at_, set_cursor. cbn. by rewrite <- app_assoc, len_app, Hl.
Qed.

(** ** What the reader accepts is a field *)
Lemma readVarint64_inv pre l w s v : is_bytes (pre ++ l) -> readVarint64 (at_ pre l w) = (s, Ok v) ->
  0 <= v < 2 ^ 64 /\ exists rest, l = varint 9 v ++ rest.
Proof.
  intros Hb. unfold readVarint64, M_bind, M_get, M_lift, M_modify, M_ret. cbn [at_ rd_bytes cursor].
  destruct (decodeVarint64 _ _) as [[v' n]|e] eqn:E; [|done]. intros [= _ <-]. cbn [fst].
  unfold decodeVarint64 in E. change (decodeVarint64_loop 10 ?b ?o 0 0 0) with (decodeVarint64_loop 10 b o 0 (7 * 0) 0) in E.
  apply decode_varint_inv in E as (v & Hv & _ & Hmax & Ev & En & Hn & Ht); try done; try lia; [|apply len_nonneg].
  replace v' with v by lia. split; [lia|]. exists (drop (length (varint 9 v)) l).
  rewrite Z.add_0_r in Ht. unfold len in Ht. rewrite Nat2Z.id, drop_app_length in Ht.
  rewrite <- Ht at 1. symmetry. apply take_drop.
Qed.

(** The payload of [f], whatever its number. *)
Definition wf_payload (f : wfield) : Prop :=
  match f with
  | WVarint _ v => 0 <= v < 2 ^ 64
  | WFixed64 _ d => length d = 8%nat
  | WBytes _ d => len d < 2 ^ 64
  | WFixed32 _ d => length d = 4%nat
  end.

Definition no_payload (w : Z) (l : bytes) : Prop :=
  forall f rest, wtype f = w -> wf_payload f -> l <> payload f ++ rest.

Lemma no_payload_varint l pre w : is_bytes (pre ++ l) -> no_payload WIRE_TYPE_VARINT l ->
  is_ok (readVarint64 (at_ pre l w)).2 = false.
Proof.
  intros Hb Hno. destruct (readVarint64 (at_ pre l w)) as [s [v|e]] eqn:E; [|done].
  apply readVarint64_inv in E as (Hv & rest & ->); [|done]. by destruct (Hno (WVarint 1 v) rest).
Qed.

Lemma no_payload_prefix l pre w : is_bytes (pre ++ l) -> no_payload WIRE_TYPE_LENGTH_DELIMITED l ->
  is_ok (readLengthPrefix (at_ pre l w)).2 = false.
Proof.
  intros Hb Hno. unfold readLengthPrefix. unfold M_bind at 1.
  destruct (readVarint64 (at_ pre l w)) as [s [v|e]] eqn:E; [|done].
  pose proof E as E'. apply readVarint64_inv in E' as (Hv & rest & ->); [|done].
  rewrite readVarint64_at in E by done. injection E as <-. unfold M_bind, M_get. cbn [at_ rd_bytes cursor].
  case_if; [done|]. b2p. exfalso. rewrite !len_app in Hb0.
  apply (Hno (WBytes 1 (take (Z.to_nat v) rest)) (drop (Z.to_nat v) rest)); [done| |].
  - cbn. unfold len in *. rewrite length_take. lia.
  - cbn [payload]. assert (El : len (take (Z.to_nat v) rest) = v) by (unfold len in *; rewrite length_take; lia).
    by rewrite El, <- app_assoc, take_drop.
Qed.

Lemma no_payload_fixed (mk : bytes -> wfield) c l pre msg w :
  (forall d, payload (mk d) = d) -> (forall d, length d = c -> wf_payload (mk d)) ->
  no_payload (wtype (mk [])) l -> (forall d, wtype (mk d) = wtype (mk [])) ->
  is_ok (advance (Z.of_nat c) msg (at_ pre l w)).2 = false.
Proof.
  intros Hp Hw Hno Ht. unfold advance, M_bind, M_get. cbn [at_ rd_bytes cursor]. case_if; [done|].
  exfalso. b2p. rewrite len_app in Hb. apply (Hno (mk (take c l)) (drop c l)); [by rewrite Ht| |].
  - apply Hw. unfold len in *. rewrite length_take. lia.
  - by rewrite Hp, take_drop.
Qed.

Lemma payload_fixed_dec (mk : bytes -> wfield) c l :
  (forall d, payload (mk d) = d /\ wtype (mk d) = wtype (mk []) /\ (wf_payload (mk d) <-> length d = c)) ->
  (forall f, wtype f = wtype (mk []) -> wf_payload f -> exists d, length d = c /\ payload f = d) ->
  (exists f rest, wtype f = wtype (mk []) /\ wf_payload f /\ l = payload f ++ rest) \/ no_payload (wtype (mk [])) l.
Proof.
  intros Hmk Hinv. destruct (decide (c <= length l)%nat) as [Hc|Hc].
  - left. destruct (Hmk (take c l)) as (E1 & E2 & E3). exists (mk (take c l)), (drop c l).
    split; [done|]. split; [apply E3; rewrite length_take; lia|]. by rewrite E1, take_drop.
  - right. intros f rest Ht Hf ->. destruct (Hinv f Ht Hf) as (d & Hd & E). rewrite E, length_app in Hc. lia.
Qed.

Lemma payload_dec w l : is_bytes l ->
  (exists f rest, wtype f = w /\ wf_payload f /\ l = payload f ++ rest) \/ no_payload w l.
Proof.
  intros Hb. destruct (decide (w = WIRE_TYPE_FIXED64)) as [->|H1].
  { apply (payload_fixed_dec (WFixed64 1) 8); [done|]. intros [] Ht Hf; try done. eauto. }
  destruct (decide (w = WIRE_TYPE_FIXED32)) as [->|H5].
  { apply (payload_fixed_dec (WFixed32 1) 4); [done|]. intros [] Ht Hf; try done. eauto. }
  destruct (readVarint64 (at_ [] l None)) as [s [v|e]] eqn:E.
  - apply readVarint64_inv in E as (Hv & rest & ->); [|done].
    destruct (decide (w = WIRE_TYPE_VARINT)) as [->|H0]; [left; by exists (WVarint 1 v), rest|].
    destruct (decide (w = WIRE_TYPE_LENGTH_DELIMITED)) as [->|H2].
    2:{ right. intros [] rest' Ht Hf; cbn in Ht; by subst w. }
    destruct (decide (v <= len rest)) as [Hle|Hgt].
    + left. exists (WBytes 1 (take (Z.to_nat v) rest)), (drop (Z.to_nat v) rest).
      assert (El : len (take (Z.to_nat v) rest) = v) by (unfold len in *; rewrite length_take; lia).
      split; [done|]. split; [cbn; lia|]. cbn [payload]. by rewrite El, <- app_assoc, take_drop.
    + right. intros [] rest' Ht Hf; try done. cbn [payload wf_payload] in *. rewrite <- app_assoc. intros E.
      pose proof (decode_varint9 [] v rest Hv) as D1.
      pose proof (decode_varint9 [] (len d) (d ++ rest') ltac:(len_lia)) as D2. cbn [app] in D1, D2.
      rewrite E, D2 in D1. injection D1 as Ev El. rewrite <- Ev in E.
      apply app_inv_head in E. subst rest v. len_lia.
  - right. intros f rest Ht Hf ->. destruct f as [n v|n d|n d|n d]; cbn in Ht; subst w; try done; cbn [payload wf_payload] in *.
    + by rewrite readVarint64_at in E.
    + rewrite <- app_assoc, readVarint64_at in E by len_lia. done.
Qed.

(** ** Readers of one field

    [field_reader r sem]: after the tag of a field [f], [r] consumes the
    payload and returns [sem f] or throws as [sem f] says, and it throws when
    no payload of the recorded wire type follows. *)
Record field_reader {X} (r : M ProtoReader X) (sem : wfield -> result X) : Prop := {
  fr_ok : forall pre f rest, wf_payload f ->
    (r (at_ pre (payload f ++ rest) (Some (wtype f)))).2 = sem f /\
    (is_ok (sem f) = true -> (r (at_ pre (payload f ++ rest) (Some (wtype f)))).1 = after pre f rest);
  fr_bad : forall pre l w, is_bytes (pre ++ l) -> no_payload w l -> is_ok (r (at_ pre l (Some w))).2 = false }.

Definition bytes_of (f : wfield) : result bytes :=
  match f with WBytes _ d => Ok d | _ => Throw (Error "Expected another wire type") end.
Definition uint32_of (f : wfield) : result Z :=
  match f with
  | WVarint _ v => if v >? UINT32_MAX then Throw (Error "Varint value exceeds uint32 range") else Ok v
  | _ => Throw (Error "Expected another wire type")
  end.

Lemma readBytes_reader : field_reader readBytes bytes_of.
Proof.
  constructor.
  - intros pre f rest Hf. destruct f as [n v|n d|n d|n d]; cbn [bytes_of];
      try (unfold readBytes, M_bind at 1; rewrite expectWireType_ne by done; done).
    change (wtype (WBytes n d)) with WIRE_TYPE_LENGTH_DELIMITED. by rewrite readBytes_at.
  - intros pre l w Hb Hno. unfold readBytes, M_bind at 1.
    destruct (decide (w = WIRE_TYPE_LENGTH_DELIMITED)) as [->|Hne]; [|by rewrite expectWireType_ne].
    rewrite expectWireType_at by done. unfold M_bind at 1.
    pose proof (no_payload_prefix l pre None Hb Hno) as H. by destruct (readLengthPrefix _) as [s [x|e]].
Qed.

Lemma readUint32_reader : field_reader readUint32 uint32_of.
Proof.
  constructor.
  - intros pre f rest Hf. destruct f as [n v|n d|n d|n d]; cbn [uint32_of];
      try (unfold readUint32, readVarintValue; unfold M_bind at 1 4; unfold M_bind at 1 2;
           rewrite expectWireType_ne by done; done).
    change (wtype (WVarint n v)) with WIRE_TYPE_VARINT. by rewrite readUint32_at.
  - intros pre l w Hb Hno. unfold readUint32, readVarintValue, M_bind at 1. unfold M_bind at 1.
    destruct (decide (w = WIRE_TYPE_VARINT)) as [->|Hne]; [|by rewrite expectWireType_ne].
    rewrite expectWireType_at by done.
    pose proof (no_payload_varint l pre None Hb Hno) as H. by destruct (readVarint64 _) as [s [x|e]].
Qed.

Lemma skipField_reader : field_reader skipField (fun _ => Ok tt).
Proof.
  constructor.
  - intros pre f rest Hf. assert (Hw : exists n, wf_field (match f with WVarint _ v => WVarint n v | WFixed64 _ d => WFixed64 n d
      | WBytes _ d => WBytes n d | WFixed32 _ d => WFixed32 n d end)).
    { exists 1. split; [destruct f; cbn; unfold MAX_FIELD_NUMBER; lia|]. by destruct f. }
    destruct Hw as [n Hw]. destruct f; pose proof (skipField_at pre _ rest Hw) as E; cbn [payload wtype] in *;
      rewrite E; done.
  - intros pre l w Hb Hno. unfold skipField, M_bind at 1, takeWireType, M_bind at 1, M_get.
    cbn [at_ wireType]. unfold M_bind at 1, M_modify, set_wireType, M_ret. cbn [at_ rd_bytes cursor].
    change {| rd_bytes := pre ++ l; cursor := len pre; wireType := None |} with (at_ pre l None).
    case_if; b2p; [|case_if; b2p; [|case_if; b2p; [|case_if; b2p; [|done]]]]; subst w.
    + pose proof (no_payload_varint l pre None Hb Hno) as H. unfold M_bind. by destruct (readVarint64 _) as [s [x|e]].
    + apply (no_payload_fixed (WFixed64 1) 8); done.
    + pose proof (no_payload_prefix l pre None Hb Hno) as H. unfold M_bind. by destruct (readLengthPrefix _) as [s [x|e]].
    + apply (no_payload_fixed (WFixed32 1) 4); done.
Qed.

Lemma field_reader_map {X Y} (r : M ProtoReader X) sem (g : X -> Y) : field_reader r sem ->
  field_reader (M_bind (fun x => M_ret (g x)) r) (fun f => x ← sem f; Ok (g x)).
Proof.
  intros [Hok Hbad]. constructor.
  - intros pre f rest Hf. destruct (Hok pre f rest Hf) as [H1 H2]. unfold M_bind.
    destruct (r _) as [s [x|e]]; cbn [snd fst] in *; rewrite <- H1 in *; cbn; [|done].
    split; [done|]. intros _. by apply H2.
  - intros pre l w Hb Hno. specialize (Hbad pre l w Hb Hno). unfold M_bind. by destruct (r _) as [s [x|e]].
Qed.

(** ** The decoding loop *)
Lemma encode_field_length f : (1 <= length (encode_field f))%nat.
Proof. unfold encode_field. rewrite length_app. pose proof (varint_length 9 (wtag f)). lia. Qed.

Lemma encode_fields_length fs : (length fs <= length (encode_fields fs))%nat.
Proof.
  induction fs as [|f fs IH]; [done|]. unfold encode_fields in *. cbn [map concat length].
  rewrite length_app. pose proof (encode_field_length f). lia.
Qed.

Lemma readTag_inv pre l w s n wt : is_bytes (pre ++ l) ->
  readTag (at_ pre l w) = (s, Ok (n, wt)) ->
  1 <= n <= MAX_FIELD_NUMBER /\ 0 <= wt < 8 /\ exists rest, l = varint 9 (8 * n + wt) ++ rest /\
    s = at_ (pre ++ varint 9 (8 * n + wt)) rest (Some wt).
Proof.
  intros Hb. unfold readTag, M_bind at 1.
  destruct (readVarint64 _) as [s1 [tag|e]] eqn:E; [|done].
  pose proof E as E'. apply readVarint64_inv in E' as (Hv & rest & ->); [|done].
  rewrite readVarint64_at in E by done. injection E as <-.
  rewrite land_7, Z.shiftr_div_pow2 by lia. change (2 ^ 3) with 8.
  case_if; [done|]. b2p. unfold M_bind, M_modify, M_ret, set_wireType. cbn [at_ rd_bytes cursor].
  intros [= <- <- <-]. pose proof (Z.mod_pos_bound tag 8). pose proof (Z.div_mod tag 8).
  pose proof (Z.div_pos tag 8).
  replace (8 * (tag / 8) + tag mod 8) with tag by lia.
  split; [lia|]. split; [lia|]. exists rest. done.
Qed.

Section Loop.
Context {A : Type} (h : Z -> A -> M ProtoReader A) (upd : Z -> wfield -> A -> result A).
Context (Hh : forall n a, field_reader (h n a) (fun f => upd n f a)).

Definition fold_fields (a : A) (fs : list wfield) : result A :=
  foldM_result (fun a f => upd (fnum f) f a) a fs.

Lemma read_fields_end fuel a pre w : read_fields fuel h a (at_ pre [] w) = (at_ pre [] w, Ok a).
Proof.
  destruct fuel; cbn; unfold M_bind, M_get, hasMore; cbn [at_ rd_bytes cursor];
    rewrite app_nil_r, Z.ltb_irrefl; done.
Qed.

Lemma hasMore_at pre l w : l <> [] -> hasMore (at_ pre l w) = true.
Proof. intros Hl. unfold hasMore. cbn. destruct l; [done|]. apply Z.ltb_lt. len_lia. Qed.

Lemma read_fields_step fuel a pre l w : l <> [] ->
  read_fields (S fuel) h a (at_ pre l w) =
  M_bind (fun tag => M_bind (fun a' => read_fields fuel h a') (h tag.1 a)) readTag (at_ pre l w).
Proof. intros Hl. cbn [read_fields]. unfold M_bind at 1, M_get. by rewrite hasMore_at. Qed.

Lemma encode_field_nonempty f rest : encode_field f ++ rest <> [].
Proof. pose proof (encode_field_length f). destruct (encode_field f); [cbn in *; lia|done]. Qed.

(** The loop over an encoded list of fields is the fold over the list. *)
Lemma read_fields_ok fs : forall fuel a pre w, Forall wf_field fs -> (length fs <= fuel)%nat ->
  (read_fields fuel h a (at_ pre (encode_fields fs) w)).2 = fold_fields a fs.
Proof.
  induction fs as [|f fs IH]; intros fuel a pre w Hwf Hfuel; [by rewrite read_fields_end|].
  apply Forall_cons in Hwf as [Hf Hwf]. destruct fuel as [|fuel]; [cbn in Hfuel; lia|].
  unfold encode_fields. cbn [map concat]. rewrite read_fields_step by apply encode_field_nonempty.
  unfold M_bind at 1. rewrite readTag_at by done. cbn [fst].
  destruct (fr_ok _ _ (Hh (fnum f) a) (pre ++ varint 9 (wtag f)) f (concat (map encode_field fs))) as [H1 H2].
  { by destruct Hf as [_ Hf]. }
  unfold M_bind, fold_fields. cbn [foldM_result]. destruct (h _ _ _) as [s [a'|e]]; cbn [fst snd] in *; rewrite <- H1 in *; [|done].
  cbn [mbind result_bind]. rewrite H2 by done. apply IH; [done|cbn in Hfuel; lia].
Qed.

(** The loop either reads one field or throws. *)
Lemma read_fields_first a pre l w : is_bytes (pre ++ l) -> l <> [] ->
  (exists f rest a', wf_field f /\ l = encode_field f ++ rest /\ upd (fnum f) f a = Ok a' /\
    forall fuel, read_fields (S fuel) h a (at_ pre l w) = read_fields fuel h a' (at_ (pre ++ encode_field f) rest None)) \/
  exists s e, forall fuel, read_fields (S fuel) h a (at_ pre l w) = (s, Throw e).
Proof.
  intros Hb Hl. setoid_rewrite (fun fuel => read_fields_step fuel a pre l w Hl). unfold M_bind at 1 3.
  destruct (readTag (at_ pre l w)) as [s [[n wt]|e]] eqn:E; [|by right; eauto]. cbn [fst].
  apply readTag_inv in E as (Hn & Hwt & rest & -> & ->); [|done].
  assert (Hp : (exists f rest', wtype f = wt /\ wf_payload f /\ rest = payload f ++ rest') \/ no_payload wt rest).
  { apply payload_dec. apply Forall_app in Hb as [_ Hb]. by apply Forall_app in Hb as [_ Hb]. }
  destruct Hp as [(f0 & rest' & <- & Hf & ->)|Hno].
  - set (f := match f0 with WVarint _ v => WVarint n v | WFixed64 _ d => WFixed64 n d
              | WBytes _ d => WBytes n d | WFixed32 _ d => WFixed32 n d end).
    assert (Ef : fnum f = n /\ wtype f = wtype f0 /\ payload f = payload f0 /\ wf_payload f) by (by destruct f0).
    destruct Ef as (E1 & E2 & E3 & E4). rewrite <- E2, <- E3, <- E1 in *. fold (wtag f).
    destruct (fr_ok _ _ (Hh (fnum f) a) (pre ++ varint 9 (wtag f)) f rest' E4) as [H1 H2].
    unfold M_bind. destruct (h _ _ _) as [s [a'|e]]; cbn [fst snd] in *; [left|by right; eauto].
    rewrite <- H1 in H2. specialize (H2 eq_refl). subst s.
    exists f, rest', a'. split; [split; [done|by destruct f]|].
    unfold encode_field. rewrite <- !app_assoc. split; [done|]. split; [done|]. intros fuel.
    unfold after. by rewrite <- app_assoc.
  - right. unfold M_bind. pose proof (fr_bad _ _ (Hh n a) (pre ++ varint 9 (8 * n + wt)) rest wt) as H.
    rewrite <- app_assoc in H. specialize (H Hb Hno). destruct (h _ _ _) as [s [a'|e]]; [done|eauto].
Qed.

(** A string on which the loop returns is the encoding of a list of fields. *)
Lemma read_fields_inv fuel : forall a pre l w r, is_bytes (pre ++ l) ->
  (read_fields fuel h a (at_ pre l w)).2 = Ok r ->
  exists fs, Forall wf_field fs /\ l = encode_fields fs /\ fold_fields a fs = Ok r.
Proof.
  induction fuel as [|fuel IH]; intros a pre l w r Hb;
    (destruct (decide (l = [])) as [->|Hl]; [rewrite read_fields_end; intros [= <-]; by exists []|]).
  - cbn [read_fields]. unfold M_bind, M_get. by rewrite hasMore_at.
  - destruct (read_fields_first a pre l w Hb Hl) as [(f & rest & a' & Hf & -> & Hu & E)|(s & e & E)];
      rewrite E; [|done]. intros Hr.
    apply IH in Hr as (fs & Hfs & -> & Hfold); [|by rewrite <- app_assoc].
    exists (f :: fs). split; [by constructor|]. split; [done|].
    unfold fold_fields. cbn [foldM_result]. by rewrite Hu.
Qed.

(** As much fuel as bytes is enough: more changes nothing. *)
Lemma read_fields_fuel f1 : forall f2 a pre l w, is_bytes (pre ++ l) ->
  (length l <= f1)%nat -> (length l <= f2)%nat ->
  read_fields f1 h a (at_ pre l w) = read_fields f2 h a (at_ pre l w).
Proof.
  induction f1 as [|f1 IH]; intros f2 a pre l w Hb H1 H2;
    (destruct (decide (l = [])) as [->|Hl]; [by rewrite !read_fields_end|]).
  - destruct l; [done|cbn in H1; lia].
  - destruct f2 as [|f2]; [destruct l; [done|cbn in H2; lia]|].
    destruct (read_fields_first a pre l w Hb Hl) as [(f & rest & a' & Hf & -> & Hu & E)|(s & e & E)];
      rewrite !E; [|done].
    pose proof (encode_field_length f). rewrite length_app in *.
    apply IH; [by rewrite <- app_assoc|lia|lia].
Qed.
End Loop.
