(* ===== verification/Utf8.v ===== *)
(** * UTF-8 ([internal/platform/utf8.ts])

    A JavaScript string is the list of its UTF-16 code units.  [utf8Encode] is
    [TextEncoder.encode] of the WHATWG Encoding Standard, which the code takes
    from the host; [utf8DecodePortable] is the decoder of the source. *)
From S2P Require Import Prelude.

Abbreviation jsstring := (list Z).

Definition REPLACEMENT : Z := 0xfffd.

(** ** TextEncoder *)
Definition high_surrogate (u : Z) : bool := (0xd800 <=? u) && (u <=? 0xdbff).
Definition low_surrogate (u : Z) : bool := (0xdc00 <=? u) && (u <=? 0xdfff).

(** Code points of a string; a surrogate without its pair becomes U+FFFD. *)
Fixpoint code_points (s : jsstring) : list Z :=
  match s with
  | [] => []
  | u :: s' =>
      if high_surrogate u then
        match s' with
        | v :: s'' =>
            if low_surrogate v
            then (0x10000 + (u - 0xd800) * 0x400 + (v - 0xdc00)) :: code_points s''
            else REPLACEMENT :: code_points s'
        | [] => [REPLACEMENT]
        end
      else if low_surrogate u then REPLACEMENT :: code_points s'
      else u :: code_points s'
  end.

Definition encode_point (c : Z) : bytes :=
  if c <? 0x80 then [c]
  else if c <? 0x800 then [0xc0 + c / 64; 0x80 + c mod 64]
  else if c <? 0x10000 then [0xe0 + c / 4096; 0x80 + c / 64 mod 64; 0x80 + c mod 64]
  else [0xf0 + c / 262144; 0x80 + c / 4096 mod 64; 0x80 + c / 64 mod 64; 0x80 + c mod 64].

Definition utf8Encode (s : jsstring) : bytes := concat (map encode_point (code_points s)).

(** ** The portable decoder *)
Record decoder := {
  units : list Z; codePoint : Z; needed : Z; seen : Z; lower : Z; upper : Z }.

Definition emit_units (codePoint : Z) : list Z :=
  if codePoint >? 0xffff then
    let offset := codePoint - 0x10000 in
    [Z.lor 0xd800 (Z.shiftr offset 10); Z.lor 0xdc00 (Z.land offset 0x3ff)]
  else [codePoint].

Definition idle (out : list Z) : decoder :=
  {| units := out; codePoint := 0; needed := 0; seen := 0; lower := 0x80; upper := 0xbf |}.

Definition emit (c : Z) (d : decoder) : decoder :=
  {| units := units d ++ emit_units c; codePoint := codePoint d; needed := needed d; seen := seen d;
     lower := lower d; upper := upper d |}.

Definition invalid (fatal : bool) (d : decoder) : result decoder :=
  if fatal then Throw (CodedError "TypeError" "The encoded data is not valid UTF-8")
  else Ok (emit REPLACEMENT d).

(** The branch [needed === 0] of the loop. *)
Definition start_byte (fatal : bool) (byte : Z) (d : decoder) : result decoder :=
  let begin n c lo up := Ok {| units := units d; codePoint := c; needed := n; seen := seen d; lower := lo; upper := up |} in
  if byte <=? 0x7f then Ok (emit byte d)
  else if (byte >=? 0xc2) && (byte <=? 0xdf) then begin 1 (Z.land byte 0x1f) (lower d) (upper d)
  else if (byte >=? 0xe0) && (byte <=? 0xef) then
    begin 2 (Z.land byte 0x0f) (if byte =? 0xe0 then 0xa0 else lower d) (if byte =? 0xed then 0x9f else upper d)
  else if (byte >=? 0xf0) && (byte <=? 0xf4) then
    begin 3 (Z.land byte 0x07) (if byte =? 0xf0 then 0x90 else lower d) (if byte =? 0xf4 then 0x8f else upper d)
  else invalid fatal d.

(** One byte.  After [index -= 1; continue] the loop meets the same byte
    again with [needed === 0], which is the second call of [start_byte]. *)
Definition decode_byte (fatal : bool) (d : decoder) (byte : Z) : result decoder :=
  if needed d =? 0 then start_byte fatal byte d
  else if (byte <? lower d) || (byte >? upper d) then
    d' ← invalid fatal (idle (units d));
    start_byte fatal byte d'
  else
    let codePoint := Z.lor (Z.shiftl (codePoint d) 6) (Z.land byte 0x3f) in
    let seen := seen d + 1 in
    if seen =? needed d then Ok (emit codePoint (idle (units d)))
    else Ok {| units := units d; codePoint := codePoint; needed := needed d; seen := seen;
               lower := 0x80; upper := 0xbf |}.

Definition has_bom (b : bytes) : bool :=
  (len b >=? 3) && (nthZ 0 b 0 =? 0xef) && (nthZ 0 b 1 =? 0xbb) && (nthZ 0 b 2 =? 0xbf).

Definition utf8DecodePortable (fatal : bool) (b : bytes) : result jsstring :=
  let start := if has_bom b then 3%nat else 0%nat in
  d ← foldM_result (decode_byte fatal) (idle []) (drop start b);
  d' ← (if negb (needed d =? 0) then invalid fatal d else Ok d);
  Ok (units d').

(** ** Round trip *)
(** A Unicode scalar value. *)
Definition scalar (c : Z) : Prop := 0 <= c < 0xd800 \/ 0xe000 <= c < 0x110000.

Lemma foldM_app {A B} (f : B -> A -> result B) b l k :
  foldM_result f b (l ++ k) = (b' ← foldM_result f b l; foldM_result f b' k).
Proof.
  revert b. induction l as [|a l IH]; intros b; cbn [app foldM_result]; [done|].
  destruct (f b a); cbn [mbind result_bind]; [apply IH|done].
Qed.

Lemma land_low z n m : m = Z.ones n -> 0 <= n -> Z.land z m = z mod 2 ^ n.
Proof. intros -> Hn. by rewrite Z.land_ones. Qed.

Lemma push6 acc x : 0 <= acc -> 0 <= x < 64 -> Z.lor (Z.shiftl acc 6) (Z.land (0x80 + x) 0x3f) = acc * 64 + x.
Proof.
  intros Ha Hx. rewrite (land_low _ 6) by done. change (2 ^ 6) with 64.
  replace (0x80 + x) with (x + 2 * 64) by lia. rewrite Z.mod_add, Z.mod_small by lia.
  rewrite Z.lor_comm, lor_shiftl_add by lia. change (2 ^ 6) with 64. lia.
Qed.

(** A continuation byte within the bounds. *)
Lemma decode_cont fatal d x : needed d <> 0 -> 0 <= codePoint d -> 0 <= x < 64 ->
  lower d <= 0x80 + x <= upper d ->
  decode_byte fatal d (0x80 + x) =
    (if seen d + 1 =? needed d then Ok (emit (codePoint d * 64 + x) (idle (units d)))
     else Ok {| units := units d; codePoint := codePoint d * 64 + x; needed := needed d; seen := seen d + 1;
                lower := 0x80; upper := 0xbf |}).
Proof.
  intros Hn Hc Hx Hb. unfold decode_byte. replace (needed d =? 0) with false by lia.
  replace ((0x80 + x <? lower d) || (0x80 + x >? upper d)) with false by lia. by rewrite push6.
Qed.

Lemma decode_point fatal out c : scalar c ->
  foldM_result (decode_byte fatal) (idle out) (encode_point c) = Ok (idle (out ++ emit_units c)).
Proof.
  intros Hc. unfold scalar in Hc. unfold encode_point.
  pose proof (Z.mod_pos_bound c 64 ltac:(lia)) as H0. pose proof (Z.div_mod c 64 ltac:(lia)) as E0.
  pose proof (Z.mod_pos_bound (c / 64) 64 ltac:(lia)) as H1. pose proof (Z.div_mod (c / 64) 64 ltac:(lia)) as E1.
  pose proof (Z.mod_pos_bound (c / 4096) 64 ltac:(lia)) as H2. pose proof (Z.div_mod (c / 4096) 64 ltac:(lia)) as E2.
  rewrite Z.div_div in E1, E2 by lia. change (64 * 64) with 4096 in E1. change (4096 * 64) with 262144 in E2.
  assert (Hland : forall k n, 0 <= n <= 7 -> 0 <= k < 2 ^ n -> forall b, b mod 2 ^ n = 0 -> Z.land (b + k) (Z.ones n) = k).
  { intros k n Hn Hk b Hb. rewrite Z.land_ones by lia. rewrite <- Zplus_mod_idemp_l, Hb, Z.add_0_l. by apply Z.mod_small. }
  repeat (case_if; b2p).
  - cbn [foldM_result]. unfold decode_byte. cbn [needed idle]. cbn [Z.eqb]. unfold start_byte.
    by replace (c <=? 0x7f) with true by lia.
  - cbn [foldM_result]. unfold decode_byte at 2. cbn [needed idle Z.eqb]. unfold start_byte.
    replace (0xc0 + c / 64 <=? 0x7f) with false by lia.
    replace ((0xc0 + c / 64 >=? 0xc2) && (0xc0 + c / 64 <=? 0xdf)) with true by lia. cbn [mbind result_bind].
    change 0x1f with (Z.ones 5). rewrite Hland by (done || (cbn; lia)).
    rewrite decode_cont by (cbn; lia). cbn [codePoint]. by replace (c / 64 * 64 + c mod 64) with c by lia.
  - cbn [foldM_result]. unfold decode_byte at 3. cbn [needed idle Z.eqb]. unfold start_byte.
    replace (0xe0 + c / 4096 <=? 0x7f) with false by lia.
    replace ((0xe0 + c / 4096 >=? 0xc2) && (0xe0 + c / 4096 <=? 0xdf)) with false by lia.
    replace ((0xe0 + c / 4096 >=? 0xe0) && (0xe0 + c / 4096 <=? 0xef)) with true by lia. cbn [mbind result_bind].
    change 0x0f with (Z.ones 4). rewrite Hland by (done || (cbn; lia)). cbn [lower upper idle seen units].
    rewrite decode_cont; [|cbn; lia..|cbn [lower upper]; repeat case_if; b2p; lia].
    cbn [seen needed codePoint units]. change (0 + 1 =? 2) with false. cbn [mbind result_bind].
    rewrite decode_cont by (cbn; lia). cbn [codePoint].
    by replace ((c / 4096 * 64 + c / 64 mod 64) * 64 + c mod 64) with c by lia.
  - cbn [foldM_result]. unfold decode_byte at 4. cbn [needed idle Z.eqb]. unfold start_byte.
    replace (0xf0 + c / 262144 <=? 0x7f) with false by lia.
    replace ((0xf0 + c / 262144 >=? 0xc2) && (0xf0 + c / 262144 <=? 0xdf)) with false by lia.
    replace ((0xf0 + c / 262144 >=? 0xe0) && (0xf0 + c / 262144 <=? 0xef)) with false by lia.
    replace ((0xf0 + c / 262144 >=? 0xf0) && (0xf0 + c / 262144 <=? 0xf4)) with true by lia. cbn [mbind result_bind].
    change 0x07 with (Z.ones 3). rewrite Hland by (done || (cbn; lia)). cbn [lower upper idle seen units].
    rewrite decode_cont; [|cbn; lia..|cbn [lower upper]; repeat case_if; b2p; lia].
    cbn [seen needed codePoint units]. change (0 + 1 =? 3) with false. cbn [mbind result_bind].
    rewrite decode_cont by (cbn; lia).
    cbn [seen needed codePoint units]. change (0 + 1 + 1 =? 3) with false. cbn [mbind result_bind].
    rewrite decode_cont by (cbn; lia). cbn [codePoint].
    by replace (((c / 262144 * 64 + c / 4096 mod 64) * 64 + c / 64 mod 64) * 64 + c mod 64) with c by lia.
Qed.

Lemma decode_points fatal cps : Forall scalar cps -> forall out,
  foldM_result (decode_byte fatal) (idle out) (concat (map encode_point cps)) =
  Ok (idle (out ++ concat (map emit_units cps))).
Proof.
  induction 1 as [|c cps Hc _ IH]; intros out; cbn [map concat foldM_result]; [by rewrite app_nil_r|].
  rewrite foldM_app, decode_point by done. cbn [mbind result_bind]. by rewrite IH, <- app_assoc.
Qed.

Lemma emit_units_eq c : scalar c ->
  emit_units c = if c >? 0xffff then [0xd800 + (c - 0x10000) / 1024; 0xdc00 + (c - 0x10000) mod 1024] else [c].
Proof.
  intros Hc. unfold emit_units. case_if; [|done]. b2p. unfold scalar in Hc.
  rewrite Z.shiftr_div_pow2 by lia. rewrite (land_low _ 10) by done. change (2 ^ 10) with 1024.
  pose proof (Z.mod_pos_bound (c - 0x10000) 1024 ltac:(lia)).
  assert (0 <= (c - 0x10000) / 1024 < 1024) by (split; [apply Z.div_pos|apply Z.div_lt_upper_bound]; lia).
  change 0xd800 with (Z.shiftl 54 10) at 1. change 0xdc00 with (Z.shiftl 55 10) at 1.
  rewrite !(Z.lor_comm (Z.shiftl _ _)), !lor_shiftl_add by lia. change (2 ^ 10) with 1024. f_equal; [lia|f_equal; lia].
Qed.

Lemma code_points_units cps : Forall scalar cps -> code_points (concat (map emit_units cps)) = cps.
Proof.
  induction 1 as [|c cps Hc _ IH]; cbn [map concat]; [done|]. rewrite emit_units_eq by done. unfold scalar in Hc.
  case_if; b2p; cbn [app code_points].
  - pose proof (Z.mod_pos_bound (c - 0x10000) 1024 ltac:(lia)). pose proof (Z.div_mod (c - 0x10000) 1024 ltac:(lia)).
    assert (0 <= (c - 0x10000) / 1024 < 1024) by (split; [apply Z.div_pos|apply Z.div_lt_upper_bound]; lia).
    unfold high_surrogate, low_surrogate.
    replace (_ && _) with true by lia. replace (_ && _) with true by lia. rewrite IH. f_equal. lia.
  - unfold high_surrogate, low_surrogate. replace (_ && _) with false by lia. replace (_ && _) with false by lia.
    by rewrite IH.
Qed.

(** A string without lone surrogates. *)
Definition well_formed (s : jsstring) : Prop :=
  exists cps, Forall scalar cps /\ s = concat (map emit_units cps).

Definition BOM : Z := 0xfeff.

Lemma has_bom_first c rest : scalar c -> has_bom (encode_point c ++ rest) = true -> c = BOM.
Proof.
  unfold scalar, encode_point, has_bom. intros Hc.
  pose proof (Z.mod_pos_bound c 64 ltac:(lia)). pose proof (Z.div_mod c 64 ltac:(lia)).
  pose proof (Z.mod_pos_bound (c / 64) 64 ltac:(lia)). pose proof (Z.div_mod (c / 64) 64 ltac:(lia)) as E.
  rewrite Z.div_div in E by lia. change (64 * 64) with 4096 in E.
  assert (c / 262144 >= 0) by (apply Z.le_ge, Z.div_pos; lia).
  repeat case_if; b2p; cbn [app]; unfold nthZ;
    change (Z.to_nat 0) with 0%nat; change (Z.to_nat 1) with 1%nat; change (Z.to_nat 2) with 2%nat; cbn [nth];
    intros Hbom; b2p; unfold BOM; lia.
Qed.

(** *** What is left of a string that was encoded

    The decoder drops one leading U+FEFF, which it takes for a byte order mark,
    and the encoder has replaced every lone surrogate. *)
(** A string, as a list of 16-bit units. *)
Definition utf16 (s : jsstring) : Prop := Forall (fun u => 0 <= u < 0x10000) s.
Definition to_well_formed (s : jsstring) : jsstring := concat (map emit_units (code_points s)).
Definition without_bom (s : jsstring) : jsstring :=
  match s with u :: s' => if u =? BOM then s' else s | [] => [] end.
Definition received_text (s : jsstring) : jsstring := without_bom (to_well_formed s).

Lemma code_points_scalar s : utf16 s -> Forall scalar (code_points s).
Proof.
  unfold utf16. assert (HR : scalar REPLACEMENT) by (unfold scalar, REPLACEMENT; lia).
  remember (length s) as n eqn:En. revert s En. induction (lt_wf n) as [n _ IH]. intros s -> Hs.
  destruct s as [|u s]; [constructor|]. apply Forall_cons in Hs as [Hu Hs]. cbn [code_points]. unfold high_surrogate, low_surrogate.
  case_if; b2p; [destruct s as [|v s]; [by constructor|apply Forall_cons in Hs as [Hv Hs]; case_if; b2p]|case_if; b2p];
    (constructor; [first [exact HR|unfold scalar; lia]|]); eapply IH; try reflexivity; try (cbn [length]; lia); try done.
  by constructor.
Qed.

Lemma emit_units_head c rest : scalar c -> c <> BOM -> without_bom (emit_units c ++ rest) = emit_units c ++ rest.
Proof.
  intros Hc Hne. rewrite emit_units_eq by done. unfold scalar, BOM in *. case_if; b2p; cbn [app without_bom]; unfold BOM.
  - assert (0 <= (c - 0x10000) / 1024 < 1024) by (split; [apply Z.div_pos|apply Z.div_lt_upper_bound]; lia).
    by replace (_ =? _) with false by lia.
  - by replace (_ =? _) with false by lia.
Qed.

Lemma utf8_decode_points fatal cps : Forall scalar cps ->
  utf8DecodePortable fatal (concat (map encode_point cps)) = Ok (without_bom (concat (map emit_units cps))).
Proof.
  intros Hc. unfold utf8DecodePortable. cbv zeta. destruct cps as [|c cps]; [done|]. pose proof Hc as [H1 H2]%Forall_cons.
  destruct (decide (c = BOM)) as [->|Hne].
  - change (concat (map encode_point (BOM :: cps))) with (0xef :: 0xbb :: 0xbf :: concat (map encode_point cps)).
    replace (has_bom _) with true by (unfold has_bom; rewrite !len_cons; pose proof (len_nonneg (concat (map encode_point cps)));
      cbn [nthZ nth Z.to_nat Pos.to_nat Z.eqb Pos.eqb]; replace (_ >=? 3) with true by lia; reflexivity).
    match goal with |- context [drop ?n ?l] => change (drop n l) with (concat (map encode_point cps)) end. by rewrite decode_points.
  - replace (has_bom _) with false.
    2:{ symmetry. apply not_true_iff_false. intros E. cbn [map concat] in E. by apply has_bom_first in E. }
    rewrite drop_0, decode_points by done. cbn [mbind result_bind needed idle units app]. cbn [map concat] in *.
    by rewrite emit_units_head.
Qed.

Lemma utf8_decode_encode_any fatal s : utf16 s -> utf8DecodePortable fatal (utf8Encode s) = Ok (received_text s).
Proof. intros Hs. by apply utf8_decode_points, code_points_scalar. Qed.

Lemma received_same s : well_formed s -> head s <> Some BOM -> received_text s = s.
Proof.
  intros (cps & Hc & ->) Hb. unfold received_text, to_well_formed. rewrite code_points_units by done.
  destruct (concat (map emit_units cps)) as [|u l]; [done|]. cbn. destruct (Z.eqb_spec u BOM); [|done]. by subst.
Qed.

Lemma received_after_bom s : well_formed s -> received_text (BOM :: s) = s.
Proof.
  intros (cps & Hc & ->). unfold received_text, to_well_formed.
  change (BOM :: concat (map emit_units cps)) with (concat (map emit_units (BOM :: cps))).
  rewrite code_points_units by (constructor; [unfold scalar, BOM; lia|done]). done.
Qed.

Lemma well_formed_utf16 s : well_formed s -> utf16 s.
Proof.
  intros (cps & Hc & ->). unfold utf16. induction Hc as [|c cps Hc _ IH]; cbn [map concat]; [constructor|].
  apply Forall_app. split; [|done]. rewrite emit_units_eq by done. unfold scalar in Hc. case_if; b2p.
  - pose proof (Z.mod_pos_bound (c - 0x10000) 1024 ltac:(lia)).
    assert (0 <= (c - 0x10000) / 1024 < 1024) by (split; [apply Z.div_pos|apply Z.div_lt_upper_bound]; lia).
    repeat constructor; lia.
  - repeat constructor; lia.
Qed.

Lemma utf8_decode_encode fatal s : well_formed s -> head s <> Some BOM -> utf8DecodePortable fatal (utf8Encode s) = Ok s.
Proof. intros Hs Hb. rewrite utf8_decode_encode_any by by apply well_formed_utf16. by rewrite received_same. Qed.

(** Decoding without [fatal] never fails. *)
Lemma start_byte_total byte d : exists d', start_byte false byte d = Ok d'.
Proof. unfold start_byte, invalid. repeat case_if; by eexists. Qed.

Lemma decode_byte_total d byte : exists d', decode_byte false d byte = Ok d'.
Proof.
  unfold decode_byte. case_if; [apply start_byte_total|]. case_if; [apply start_byte_total|]. cbv zeta. case_if; by eexists.
Qed.

Lemma utf8_lenient_total b : exists s, utf8DecodePortable false b = Ok s.
Proof.
  unfold utf8DecodePortable. cbv zeta. generalize (drop (if has_bom b then 3%nat else 0%nat) b) (idle []). intros l.
  assert (T : forall d, exists d', foldM_result (decode_byte false) d l = Ok d').
  { induction l as [|x l IH]; intros d; [by eexists|]. cbn [foldM_result]. destruct (decode_byte_total d x) as [d' ->]. apply IH. }
  intros d. destruct (T d) as [d' ->]. cbn [mbind result_bind]. case_if; by eexists.
Qed.

(** ASCII is its own encoding. *)
Lemma utf8_ascii s : Forall (fun c => 0 <= c < 0x80) s -> utf8Encode s = s.
Proof.
  unfold utf8Encode. induction 1 as [|c s Hc _ IH]; [done|]. cbn [code_points]. unfold high_surrogate, low_surrogate.
  do 2 (replace (_ && _) with false by lia). cbn [map concat]. rewrite IH. unfold encode_point. by replace (c <? 0x80) with true by lia.
Qed.
