(* ===== verification/Base64.v ===== *)
(** * Base64 ([internal/crypto/utils.ts])

    The portable encoder and decoder of the source, and the proof that they
    are inverse to each other: on strings without white space an encoded
    string and its bytes determine each other.  The other components
    therefore keep the bytes where the source keeps their Base64 string. *)
From stdpp Require Import pretty.
From S2P Require Import Prelude Utf8.

Definition BASE64_ALPHABET : jsstring :=
  bytes_of_string "ABCDEFGHIJKLMNOPQRSTUVWXYZabcdefghijklmnopqrstuvwxyz0123456789+/".
Definition BASE64_LOOKUP : list Z :=
  fold_left (fun lookup index => <[Z.to_nat (nthZ 0 BASE64_ALPHABET index) := index]> lookup)
    (map Z.of_nat (seq 0 64)) (replicate 256 (-1)).

Definition PAD : Z := 0x3d.

(** [BASE64_ALPHABET[(value >> shift) & 0x3f]] *)
Definition sextet (value shift : Z) : Z := nthZ 0 BASE64_ALPHABET (js_and (js_shr value shift) 0x3f).

Fixpoint bytesToBase64 (b : bytes) : jsstring :=
  match b with
  | first :: second :: third :: b =>
      let value := js_or (js_or (js_shl first 16) (js_shl second 8)) third in
      sextet value 18 :: sextet value 12 :: sextet value 6 :: sextet value 0 :: bytesToBase64 b
  | [first; second] =>
      let value := js_or (js_shl first 16) (js_shl second 8) in
      [sextet value 18; sextet value 12; sextet value 6; PAD]
  | [first] =>
      let value := js_or (js_shl first 16) (js_shl 0 8) in
      [sextet value 18; sextet value 12; PAD; PAD]
  | [] => []
  end.

(** ** Decoding *)
(** The class [\s] of a regular expression. *)
Definition white_space (c : Z) : bool :=
  ((9 <=? c) && (c <=? 13)) || (c =? 0x20) || (c =? 0xa0) || (c =? 0x1680) || ((0x2000 <=? c) && (c <=? 0x200a)) ||
  (c =? 0x2028) || (c =? 0x2029) || (c =? 0x202f) || (c =? 0x205f) || (c =? 0x3000) || (c =? 0xfeff).
Definition normalized (s : jsstring) : jsstring := filter (fun c => white_space c = false) s.

Definition decodeBase64Char (code index : Z) : result Z :=
  let value := if code <? len BASE64_LOOKUP then nthZ (-1) BASE64_LOOKUP code else -1 in
  if value <? 0 then Throw (Error ("Invalid base64 character at offset " +:+ pretty index)) else Ok value.

Definition padding_of (s : jsstring) : Z :=
  if bool_decide (drop (length s - 2) s = [PAD; PAD]) then 2 else if bool_decide (drop (length s - 1) s = [PAD]) then 1 else 0.

(** One round of the loop: the three bytes of four characters. *)
Definition decode_quad (padding offset : Z) (final : bool) (first second third fourth : Z) : result bytes :=
  let bad := Error "Invalid base64 padding" in
  throw_when ((first =? PAD) || (second =? PAD)) bad ;;
  throw_when (negb final && ((third =? PAD) || (fourth =? PAD))) bad ;;
  throw_when ((third =? PAD) && negb (fourth =? PAD)) bad ;;
  throw_when ((third =? PAD) && negb (padding =? 2)) bad ;;
  throw_when ((fourth =? PAD) && (padding =? 0)) bad ;;
  firstValue ← decodeBase64Char first offset;
  secondValue ← decodeBase64Char second (offset + 1);
  thirdValue ← (if third =? PAD then Ok 0 else decodeBase64Char third (offset + 2));
  fourthValue ← (if fourth =? PAD then Ok 0 else decodeBase64Char fourth (offset + 3));
  throw_when (final && (padding =? 2) && negb (js_and secondValue 0x0f =? 0)) (Error "Invalid base64 padding bits") ;;
  throw_when (final && (padding =? 1) && negb (js_and thirdValue 0x03 =? 0)) (Error "Invalid base64 padding bits") ;;
  let value := js_or (js_or (js_or (js_shl firstValue 18) (js_shl secondValue 12)) (js_shl thirdValue 6)) fourthValue in
  Ok [js_and (js_shr value 16) 0xff; js_and (js_shr value 8) 0xff; js_and value 0xff].

Fixpoint decode_quads (padding offset : Z) (s : jsstring) : result bytes :=
  match s with
  | first :: second :: third :: fourth :: s =>
      b ← decode_quad padding offset (bool_decide (s = [])) first second third fourth;
      bs ← decode_quads padding (offset + 4) s;
      Ok (b ++ bs)
  | _ => Ok []
  end.

(** The writes past the end of [output] are skipped by the guards. *)
Definition base64ToBytesPortable (base64 : jsstring) : result bytes :=
  let s := normalized base64 in
  if len s =? 0 then Ok []
  else if negb (len s mod 4 =? 0) then Throw (Error "Invalid base64 string length")
  else
    let padding := padding_of s in
    output ← decode_quads padding 0 s;
    Ok (take (Z.to_nat (len s / 4 * 3 - padding)) output).

(** ** The characters *)
Definition alpha (i : Z) : Z := nthZ 0 BASE64_ALPHABET i.

Lemma alpha_spec i : 0 <= i < 64 ->
  (forall k, decodeBase64Char (alpha i) k = Ok i) /\ alpha i <> PAD /\ white_space (alpha i) = false.
Proof.
  intros Hi. pose proof (byte_forallb (fun i => (64 <=? i) || (let c := alpha i in
    (nthZ (-1) BASE64_LOOKUP c =? i) && (c <? 256) && negb (c =? PAD) && negb (white_space c)))) as F.
  specialize (F ltac:(by vm_compute) i). specialize (F ltac:(unfold is_byte; lia)). cbv beta zeta in F.
  apply orb_true_iff in F as [F|F]; b2p; [lia|].
  split; [|by split]. intros k. unfold decodeBase64Char. change (len BASE64_LOOKUP) with 256.
  replace (_ <? 256) with true by lia. replace (nthZ _ _ _) with i by done. by replace (i <? 0) with false by lia.
Qed.

Lemma decode_char_inv c k v : decodeBase64Char c k = Ok v -> 0 <= v < 64 /\ alpha v = c.
Proof.
  unfold decodeBase64Char. change (len BASE64_LOOKUP) with 256. destruct (c <? 256) eqn:Hc; [|done].
  destruct (nthZ _ _ _ <? 0) eqn:Hv; [done|]. intros <-%Ok_inj. b2p.
  pose proof (byte_forallb (fun c => let v := nthZ (-1) BASE64_LOOKUP c in (v <? 0) || ((v <? 64) && (alpha v =? c)))) as F.
  specialize (F ltac:(by vm_compute) c).
  assert (0 <= c).
  { destruct (decide (0 <= c)); [done|]. exfalso. revert Hv. unfold nthZ. replace (Z.to_nat c) with 0%nat by lia. vm_compute. intros X; by apply X. }
  specialize (F ltac:(unfold is_byte; lia)). cbv beta zeta in F. apply orb_true_iff in F as [F|F]; b2p; lia.
Qed.

(** ** Bits *)
Ltac divmod := Z.to_euclidean_division_equations; lia.

Lemma js_shl_small a n : 0 <= n < 32 -> 0 <= a -> a * 2 ^ n < 2 ^ 31 -> js_shl a n = a * 2 ^ n.
Proof.
  intros Hn Ha Hb. assert (1 <= 2 ^ n) by (apply (Z.pow_le_mono_r 2 0); lia).
  unfold js_shl. rewrite (to_int32_id a), (Z.mod_small n), Z.shiftl_mul_pow2 by nia. apply to_int32_id. nia.
Qed.

Lemma js_shr_small v n : 0 <= v < 2 ^ 31 -> 0 <= n < 32 -> js_shr v n = v / 2 ^ n.
Proof. intros Hv Hn. unfold js_shr. by rewrite to_int32_id, (Z.mod_small n), Z.shiftr_div_pow2 by lia. Qed.

Lemma js_or_disjoint a b n : 0 <= n <= 31 -> 0 <= b < 2 ^ n -> 0 <= a -> a * 2 ^ n < 2 ^ 31 -> js_or (a * 2 ^ n) b = a * 2 ^ n + b.
Proof.
  intros Hn Hb Ha Hs. assert (2 ^ n <= 2 ^ 31) by (apply Z.pow_le_mono_r; lia). unfold js_or.
  rewrite !to_int32_id by nia. rewrite Z.lor_comm, <- Z.shiftl_mul_pow2, lor_shiftl_add by lia.
  rewrite ?Z.shiftl_mul_pow2 by lia. lia.
Qed.

Lemma sextet_alpha v n : 0 <= v < 2 ^ 31 -> 0 <= n < 32 -> sextet v n = alpha (v / 2 ^ n mod 64).
Proof.
  intros Hv Hn. unfold sextet, alpha. rewrite js_shr_small by done. f_equal. change 0x3f with (Z.ones 6).
  assert (0 <= v / 2 ^ n <= v).
  { split; [apply Z.div_pos; lia|]. apply Z.div_le_upper_bound; [lia|]. assert (1 <= 2 ^ n) by (apply (Z.pow_le_mono_r 2 0); lia). nia. }
  apply js_and_small; lia.
Qed.

Lemma value3 a b c : is_byte a -> is_byte b -> is_byte c ->
  js_or (js_or (js_shl a 16) (js_shl b 8)) c = a * 65536 + b * 256 + c.
Proof.
  unfold is_byte. intros Ha Hb Hc. rewrite !js_shl_small by lia. rewrite (js_or_disjoint a _ 16) by lia.
  replace (a * 2 ^ 16 + b * 2 ^ 8) with ((a * 256 + b) * 2 ^ 8) by lia. rewrite js_or_disjoint by lia. lia.
Qed.

Lemma value4 p q r t : 0 <= p < 64 -> 0 <= q < 64 -> 0 <= r < 64 -> 0 <= t < 64 ->
  js_or (js_or (js_or (js_shl p 18) (js_shl q 12)) (js_shl r 6)) t = p * 262144 + q * 4096 + r * 64 + t.
Proof.
  intros Hp Hq Hr Ht. rewrite !js_shl_small by lia. rewrite (js_or_disjoint p _ 18) by lia.
  replace (p * 2 ^ 18 + q * 2 ^ 12) with ((p * 64 + q) * 2 ^ 12) by lia. rewrite js_or_disjoint by lia.
  replace ((p * 64 + q) * 2 ^ 12 + r * 2 ^ 6) with ((p * 4096 + q * 64 + r) * 2 ^ 6) by lia. rewrite js_or_disjoint by lia. lia.
Qed.

Lemma js_and_255 v : 0 <= v < 2 ^ 32 -> js_and v 0xff = v mod 256.
Proof. intros Hv. apply (js_and_small v 8); lia. Qed.

(** ** One group *)
(** The characters that stand for a value of 24 bits, and its bytes. *)
Definition chars (v : Z) : jsstring := map (fun n => alpha (v / 2 ^ n mod 64)) [18; 12; 6; 0].
Definition octets (v : Z) : bytes := [v / 65536 mod 256; v / 256 mod 256; v mod 256].

Lemma encode3 a b c l : is_byte a -> is_byte b -> is_byte c ->
  bytesToBase64 (a :: b :: c :: l) = chars (a * 65536 + b * 256 + c) ++ bytesToBase64 l.
Proof.
  intros Ha Hb Hc. cbn [bytesToBase64]. rewrite value3 by done. unfold is_byte in *. unfold chars. cbn [map app].
  by rewrite !sextet_alpha by lia.
Qed.

Lemma encode2 a b : is_byte a -> is_byte b -> bytesToBase64 [a; b] = take 3 (chars (a * 65536 + b * 256)) ++ [PAD].
Proof.
  intros Ha Hb. cbn [bytesToBase64]. unfold is_byte in *. rewrite !js_shl_small, (js_or_disjoint a _ 16) by lia.
  unfold chars. cbn [map take app]. by rewrite !sextet_alpha by lia.
Qed.

Lemma encode1 a : is_byte a -> bytesToBase64 [a] = take 2 (chars (a * 65536)) ++ [PAD; PAD].
Proof.
  intros Ha. cbn [bytesToBase64]. unfold is_byte in *. rewrite !js_shl_small, (js_or_disjoint a _ 16) by lia.
  unfold chars. cbn [map take app]. rewrite !sextet_alpha by lia. by rewrite !Z.add_0_r.
Qed.

Lemma octets_of a b c : is_byte a -> is_byte b -> is_byte c -> octets (a * 65536 + b * 256 + c) = [a; b; c].
Proof.
  unfold is_byte, octets. intros. f_equal; [|f_equal; [|f_equal]].
  - divmod.
  - divmod.
  - divmod.
Qed.

Lemma js_and_15 v : 0 <= v < 2 ^ 32 -> js_and v 0x0f = v mod 16.
Proof. intros Hv. apply (js_and_small v 4); lia. Qed.
Lemma js_and_3 v : 0 <= v < 2 ^ 32 -> js_and v 0x03 = v mod 4.
Proof. intros Hv. apply (js_and_small v 2); lia. Qed.

(** The four six-bit values of a group. *)
Lemma sextets p q r t : 0 <= p < 64 -> 0 <= q < 64 -> 0 <= r < 64 -> 0 <= t < 64 ->
  let v := p * 262144 + q * 4096 + r * 64 + t in
  0 <= v < 2 ^ 24 /\ v / 2 ^ 18 mod 64 = p /\ v / 2 ^ 12 mod 64 = q /\ v / 2 ^ 6 mod 64 = r /\ v / 2 ^ 0 mod 64 = t.
Proof.
  intros Hp Hq Hr Ht v. change (2 ^ 18) with 262144. change (2 ^ 12) with 4096. change (2 ^ 6) with 64. change (2 ^ 0) with 1.
  split; [lia|]. repeat split; unfold v; divmod.
Qed.

Lemma octets_eq p q r t : 0 <= p < 64 -> 0 <= q < 64 -> 0 <= r < 64 -> 0 <= t < 64 ->
  let value := js_or (js_or (js_or (js_shl p 18) (js_shl q 12)) (js_shl r 6)) t in
  [js_and (js_shr value 16) 0xff; js_and (js_shr value 8) 0xff; js_and value 0xff] = octets (p * 262144 + q * 4096 + r * 64 + t).
Proof.
  intros Hp Hq Hr Ht. cbv zeta. rewrite value4 by done. unfold octets.
  set (v := _ + t). assert (0 <= v < 16777216) by lia. clearbody v.
  rewrite !js_shr_small by lia. rewrite !js_and_255; [done|lia|..]; [change (2 ^ 8) with 256|change (2 ^ 16) with 65536]; divmod.
Qed.

(** The characters of a group whose last [n] are padding. *)
Definition padded_chars (v : Z) (n : nat) : jsstring := take (4 - n) (chars v) ++ replicate n PAD.

Lemma decode_quad_padded k n v : (n <= 2)%nat -> 0 <= v < 2 ^ 24 -> v mod 2 ^ (8 * Z.of_nat n) = 0 ->
  match padded_chars v n with
  | [c1; c2; c3; c4] => decode_quad (Z.of_nat n) k true c1 c2 c3 c4 = Ok (octets v)
  | _ => False
  end.
Proof.
  intros Hn Hv Hz. set (p := v / 2 ^ 18 mod 64). set (q := v / 2 ^ 12 mod 64). set (r := v / 2 ^ 6 mod 64). set (t := v / 2 ^ 0 mod 64).
  assert (0 <= p < 64 /\ 0 <= q < 64 /\ 0 <= r < 64 /\ 0 <= t < 64) as (Hp & Hq & Hr & Ht)
    by (unfold p, q, r, t; repeat split; apply Z.mod_pos_bound; lia).
  assert (E : v = p * 262144 + q * 4096 + r * 64 + t).
  { unfold p, q, r, t. change (2 ^ 18) with 262144. change (2 ^ 12) with 4096. change (2 ^ 6) with 64. change (2 ^ 0) with 1. divmod. }
  destruct (alpha_spec p Hp) as (D1 & P1 & _), (alpha_spec q Hq) as (D2 & P2 & _), (alpha_spec r Hr) as (D3 & P3 & _), (alpha_spec t Ht) as (D4 & P4 & _).
  apply Z.eqb_neq in P1, P2, P3, P4. unfold padded_chars, chars. cbn [map]. fold p q r t. clearbody p q r t. subst v.
  assert (n = 0 \/ n = 1 \/ n = 2)%nat as [->|[->| ->]] by lia; cbn [Nat.sub take app replicate]; unfold decode_quad.
  - rewrite P1, P2, P3, P4, D1, D2, D3, D4. cbn [orb andb negb throw_when mbind result_bind]. by rewrite octets_eq.
  - assert (t = 0 /\ r mod 4 = 0) as [-> Hr4] by (change (2 ^ _) with 256 in Hz; divmod).
    rewrite P1, P2, P3, D1, D2, D3, Z.eqb_refl. cbn -[js_and js_or js_shl js_shr]. rewrite js_and_3, Hr4 by lia. cbn -[js_and js_or js_shl js_shr].
    by rewrite octets_eq.
  - assert (t = 0 /\ r = 0 /\ q mod 16 = 0) as (-> & -> & Hq4) by (change (2 ^ _) with 65536 in Hz; divmod).
    rewrite P1, P2, D1, D2, Z.eqb_refl. cbn -[js_and js_or js_shl js_shr]. rewrite js_and_15, Hq4 by lia. cbn -[js_and js_or js_shl js_shr].
    by rewrite octets_eq.
Qed.

(** A group that is not the last one. *)
Lemma decode_quad_inner p k v : 0 <= v < 2 ^ 24 ->
  match chars v with
  | [c1; c2; c3; c4] => decode_quad p k false c1 c2 c3 c4 = Ok (octets v)
  | _ => False
  end.
Proof.
  intros Hv. pose proof (decode_quad_padded k 0 v ltac:(lia) Hv (Z.mod_1_r v)) as E. unfold padded_chars, chars in *. cbn [map Nat.sub take app replicate] in *.
  unfold decode_quad in *. revert E.
  destruct (alpha_spec (v / 2 ^ 6 mod 64)) as (_ & P3 & _); [apply Z.mod_pos_bound; lia|].
  destruct (alpha_spec (v / 2 ^ 0 mod 64)) as (_ & P4 & _); [apply Z.mod_pos_bound; lia|].
  apply Z.eqb_neq in P3, P4. rewrite P3, P4. cbn [andb orb negb Z.of_nat Z.eqb]. done.
Qed.

Lemma throw_when_inv b e u : throw_when b e = Ok u -> b = false.
Proof. by destruct b. Qed.

Lemma decode_quad_inv p k f c1 c2 c3 c4 out : decode_quad p k f c1 c2 c3 c4 = Ok out -> exists v n,
  (n <= 2)%nat /\ 0 <= v < 2 ^ 24 /\ out = octets v /\ [c1; c2; c3; c4] = padded_chars v n /\
  (n <> 0%nat -> f = true /\ p <> 0) /\ (f = true -> p = Z.of_nat n -> v mod 2 ^ (8 * Z.of_nat n) = 0).
Proof.
  unfold decode_quad. intros E. repeat (apply bind_Ok in E as ([] & X%throw_when_inv & E); revert X).
  apply bind_Ok in E as (q1 & E1 & E). apply bind_Ok in E as (q2 & E2 & E). apply bind_Ok in E as (q3 & E3 & E). apply bind_Ok in E as (q4 & E4 & E).
  apply bind_Ok in E as ([] & X2%throw_when_inv & E). apply bind_Ok in E as ([] & X1%throw_when_inv & E). apply Ok_inj in E as <-.
  intros P4 P3 P34 Pf P12. apply decode_char_inv in E1 as [H1 <-], E2 as [H2 <-].
  assert (exists n, (n <= 2)%nat /\ 0 <= q3 < 64 /\ 0 <= q4 < 64 /\ (n <> 0%nat -> f = true /\ p <> 0) /\
    match n with
    | 0%nat => c3 = alpha q3 /\ c4 = alpha q4
    | 1%nat => c3 = alpha q3 /\ c4 = PAD /\ q4 = 0
    | _ => c3 = PAD /\ c4 = PAD /\ q3 = 0 /\ q4 = 0
    end) as (n & Hn & H3 & H4 & Hp & Hc).
  { destruct (Z.eqb_spec c3 PAD) as [->|N3], (Z.eqb_spec c4 PAD) as [->|N4]; try done;
      rewrite ?andb_true_r, ?andb_true_l, ?orb_true_r, ?orb_true_l in *; cbn [negb andb orb] in *.
    - exists 2%nat. apply Ok_inj in E3 as <-. apply Ok_inj in E4 as <-. b2p. destruct f; [|done]. repeat split; lia.
    - exists 1%nat. apply decode_char_inv in E3 as [H3 <-]. apply Ok_inj in E4 as <-. b2p. destruct f; [|done]. repeat split; lia.
    - exists 0%nat. apply decode_char_inv in E3 as [H3 <-], E4 as [H4 <-]. repeat split; lia. }
  destruct (sextets q1 q2 q3 q4 H1 H2 H3 H4) as (Hv & S1 & S2 & S3 & S4). cbv zeta in Hv, S1, S2, S3, S4.
  exists (q1 * 262144 + q2 * 4096 + q3 * 64 + q4), n. split; [done|]. split; [done|]. split; [by apply octets_eq|].
  split; [|split; [done|]].
  - unfold padded_chars, chars. cbn [map]. rewrite S1, S2, S3, S4.
    destruct n as [|[|[|]]]; cbn [Nat.sub take app replicate]; [..|lia]; intuition congruence.
  - intros -> ->. destruct n as [|[|[|]]]; [apply Z.mod_1_r|..|lia]; cbn [andb Z.of_nat Z.eqb] in X1, X2.
    + destruct Hc as (-> & -> & ->). change (Z.of_nat 1 =? 1) with true in X1. rewrite js_and_3 in X1 by lia. b2p. change (2 ^ _) with 256. divmod.
    + destruct Hc as (-> & -> & -> & ->). change (Z.of_nat 2 =? 2) with true in X2. rewrite js_and_15 in X2 by lia. b2p. change (2 ^ _) with 65536. divmod.
Qed.

(** ** Whole strings *)
Lemma padding_cons c1 c2 c3 c4 s : (2 <= length s)%nat -> padding_of (c1 :: c2 :: c3 :: c4 :: s) = padding_of s.
Proof.
  intros Hs. unfold padding_of. cbn [length].
  replace (S (S (S (S (length s)))) - 2)%nat with (4 + (length s - 2))%nat by lia.
  replace (S (S (S (S (length s)))) - 1)%nat with (4 + (length s - 1))%nat by lia. done.
Qed.

Lemma chars_alpha v : 0 <= v -> Forall (fun c => c <> PAD /\ white_space c = false) (chars v).
Proof.
  intros Hv. apply Forall_forall. intros c Hc. apply list_elem_of_fmap in Hc as (n & -> & _).
  apply (alpha_spec (v / 2 ^ n mod 64)). apply Z.mod_pos_bound. lia.
Qed.

Lemma padding_padded v n : (n <= 2)%nat -> 0 <= v -> padding_of (padded_chars v n) = Z.of_nat n.
Proof.
  intros Hn Hv. pose proof (chars_alpha v Hv) as F. unfold chars in F. cbn [map] in F.
  repeat (apply Forall_cons in F as [[? _] F]). unfold padding_of, padded_chars, chars.
  destruct n as [|[|[|]]]; cbn [map Nat.sub take app replicate length drop]; [| |done|lia];
    repeat (case_bool_decide; try congruence); done.
Qed.

Lemma length_padded_chars v n : (n <= 2)%nat -> length (padded_chars v n) = 4%nat.
Proof. intros Hn. by destruct n as [|[|[|]]]; [..|lia]. Qed.

Lemma normalized_id s : Forall (fun c => white_space c = false) s -> normalized s = s.
Proof. unfold normalized. induction 1 as [|c s Hc _ IH]; [done|]. by rewrite filter_cons_True, IH. Qed.

Lemma padded_plain v n : 0 <= v -> Forall (fun c => white_space c = false) (padded_chars v n).
Proof.
  intros Hv. apply Forall_app. split; [|by apply Forall_replicate].
  apply Forall_take, (Forall_impl _ _ _ (chars_alpha v Hv)). by intros c [].
Qed.

(** The encoding of the last one, two or three bytes. *)
Lemma encode_last b : is_bytes b -> (1 <= length b <= 3)%nat -> exists v, 0 <= v < 2 ^ 24 /\
  bytesToBase64 b = padded_chars v (3 - length b) /\ v mod 2 ^ (8 * Z.of_nat (3 - length b)) = 0 /\ take (length b) (octets v) = b.
Proof.
  intros Hb Hl. destruct b as [|x [|y [|z [|]]]]; cbn [length] in *; try lia;
    repeat (apply Forall_cons in Hb as [? Hb]).
  - exists (x * 65536). rewrite encode1 by done. pose proof (octets_of x 0 0) as E. replace (x * 65536 + 0 * 256 + 0) with (x * 65536) in E by lia.
    rewrite E by (done || unfold is_byte; lia). unfold is_byte in *. split; [lia|]. split; [done|]. split; [|done].
    change (2 ^ _) with 65536. divmod.
  - exists (x * 65536 + y * 256). rewrite encode2 by done. pose proof (octets_of x y 0) as E. rewrite Z.add_0_r in E.
    rewrite E by (done || unfold is_byte; lia). unfold is_byte in *. split; [lia|]. split; [done|]. split; [|done].
    change (2 ^ _) with 256. divmod.
  - exists (x * 65536 + y * 256 + z). rewrite encode3, octets_of by done. unfold is_byte in *. split; [lia|]. split; [done|].
    split; [apply Z.mod_1_r|done].
Qed.

Lemma decode_quads_S p k c1 c2 c3 c4 s : decode_quads p k (c1 :: c2 :: c3 :: c4 :: s) =
  (b ← decode_quad p k (bool_decide (s = [])) c1 c2 c3 c4; bs ← decode_quads p (k + 4) s; Ok (b ++ bs)).
Proof. done. Qed.

Lemma decode_encode b : is_bytes b -> b <> [] -> forall k, exists out,
  decode_quads (padding_of (bytesToBase64 b)) k (bytesToBase64 b) = Ok out /\ take (length b) out = b /\
  (exists n, (1 <= n)%nat /\ length (bytesToBase64 b) = (4 * n)%nat /\ Z.of_nat n * 3 - padding_of (bytesToBase64 b) = len b) /\
  Forall (fun c => white_space c = false) (bytesToBase64 b).
Proof.
  induction b as [b IH] using (Wf_nat.induction_ltof1 _ (@length Z)). intros Hb Hne k.
  destruct (decide (length b <= 3)%nat) as [Hl|Hl].
  - assert (length b <> 0%nat) by (by destruct b). destruct (encode_last b Hb) as (v & Hv & E & Hz & Ho); [lia|]. rewrite E.
    rewrite padding_padded by lia. pose proof (decode_quad_padded k (3 - length b) v ltac:(lia) Hv Hz) as D.
    pose proof (padded_plain v (3 - length b) (proj1 Hv)) as F. pose proof (length_padded_chars v (3 - length b) ltac:(lia)) as L.
    destruct (padded_chars v (3 - length b)) as [|c1 [|c2 [|c3 [|c4 [|]]]]]; try done.
    rewrite decode_quads_S, bool_decide_true, D by done. exists (octets v ++ []). split; [done|]. rewrite app_nil_r. split; [done|].
    split; [exists 1%nat; unfold len; cbn [length]; lia|done].
  - destruct b as [|x [|y [|z b]]]; cbn [length] in Hl; try lia. apply Forall_cons in Hb as [Hx Hb].
    apply Forall_cons in Hb as [Hy Hb]. apply Forall_cons in Hb as [Hz Hb].
    destruct (IH b ltac:(unfold Wf_nat.ltof; cbn; lia) Hb ltac:(intros ->; cbn in Hl; lia) (k + 4)) as (out & E & Ht & (n & Hn & L & LE) & F).
    rewrite encode3 by done. set (v := _ + z). assert (Hv : 0 <= v < 2 ^ 24) by (unfold v, is_byte in *; lia).
    pose proof (decode_quad_inner (padding_of (bytesToBase64 b)) k v Hv) as D. pose proof (chars_alpha v (proj1 Hv)) as C. unfold chars in *. cbn [map app] in *.
    rewrite padding_cons, decode_quads_S, bool_decide_false, D, E by (lia || (intros X; rewrite X in L; cbn in L; lia)).
    cbn [mbind result_bind]. assert (O : octets v = [x; y; z]) by (by apply octets_of). rewrite O. exists ([x; y; z] ++ out). split; [done|].
    split; [cbn [length take app]; by rewrite Ht|]. split.
    + exists (S n). unfold len in *. cbn [length]. lia.
    + repeat (apply Forall_cons in C as [[_ ?] C]). by repeat (apply Forall_cons; split; [done|]).
Qed.

Lemma octets_bytes v : is_bytes (octets v).
Proof. unfold octets. repeat (apply Forall_cons; split; [unfold is_byte; apply Z.mod_pos_bound; lia|]). constructor. Qed.

Lemma value_octets v : 0 <= v < 2 ^ 24 -> v / 65536 mod 256 * 65536 + v / 256 mod 256 * 256 + v mod 256 = v.
Proof. change (2 ^ 24) with 16777216. intros Hv. divmod. Qed.

(** Encoding the bytes of a group gives its characters back. *)
Lemma encode_octets v n : (n <= 2)%nat -> 0 <= v < 2 ^ 24 -> v mod 2 ^ (8 * Z.of_nat n) = 0 ->
  bytesToBase64 (take (3 - n) (octets v)) = padded_chars v n.
Proof.
  intros Hn Hv Hz. pose proof (value_octets v Hv) as E. unfold octets. set (a := v / 65536 mod 256) in *. set (b := v / 256 mod 256) in *.
  assert (is_byte a /\ is_byte b /\ is_byte (v mod 256)) as (Ha & Hb & Hc)
    by (unfold a, b, is_byte; repeat split; apply Z.mod_pos_bound; lia).
  assert (n = 0 \/ n = 1 \/ n = 2)%nat as [->|[->| ->]] by lia; cbn [Nat.sub take].
  - rewrite encode3, E by done. unfold padded_chars. cbn [Nat.sub replicate bytesToBase64]. rewrite !app_nil_r. by rewrite take_ge by done.
  - rewrite encode2 by done. change (2 ^ _) with 256 in Hz. unfold padded_chars. cbn [Nat.sub replicate].
    by replace (a * 65536 + b * 256) with v by lia.
  - rewrite encode1 by done. unfold padded_chars. cbn [Nat.sub replicate]. change (2 ^ _) with 65536 in Hz.
    replace (a * 65536) with v; [done|]. unfold a. change (2 ^ 24) with 16777216 in Hv. divmod.
Qed.

Lemma encode_group v b : 0 <= v < 2 ^ 24 -> bytesToBase64 (octets v ++ b) = chars v ++ bytesToBase64 b.
Proof.
  intros Hv. pose proof (value_octets v Hv) as E. pose proof (octets_bytes v) as F. unfold octets in *. cbn [app].
  repeat (apply Forall_cons in F as [? F]). by rewrite encode3, E.
Qed.

Lemma padded_chars_0 v : padded_chars v 0 = chars v.
Proof. unfold padded_chars. by rewrite app_nil_r, take_ge. Qed.

Lemma encode_decode s : s <> [] -> forall m k out, length s = (4 * m)%nat -> decode_quads (padding_of s) k s = Ok out ->
  bytesToBase64 (take (Z.to_nat (Z.of_nat m * 3 - padding_of s)) out) = s /\ is_bytes out.
Proof.
  induction s as [s IH] using (Wf_nat.induction_ltof1 _ (@length Z)). intros Hne m k out L E.
  destruct m as [|m]; [by destruct s|]. destruct s as [|c1 [|c2 [|c3 [|c4 s]]]]; cbn [length] in L; try lia.
  rewrite decode_quads_S in E. apply bind_Ok in E as (g & Eg & E). apply bind_Ok in E as (bs & Es & E). apply Ok_inj in E as <-.
  apply decode_quad_inv in Eg as (v & n & Hn & Hv & -> & Ec & Hp & Hz). destruct (decide (s = [])) as [->|Hs].
  - rewrite bool_decide_true in Hz by done. rewrite Ec, padding_padded in * by lia. assert (m = 0)%nat as -> by (cbn in L; lia).
    apply Ok_inj in Es as <-. rewrite app_nil_r. replace (Z.to_nat _) with (3 - n)%nat by lia.
    split; [by apply encode_octets; auto|apply octets_bytes].
  - rewrite bool_decide_false in Hp by done. assert (n = 0%nat) as -> by (destruct n; [done|]; by destruct Hp).
    assert (4 <= length s)%nat by (destruct s as [|? [|? [|? [|]]]]; cbn [length] in *; lia || done).
    rewrite padding_cons in * by lia. destruct (IH s ltac:(unfold Wf_nat.ltof; cbn; lia) Hs m (k + 4) bs ltac:(lia) Es) as [IH1 IH2].
    assert (Hpad : padding_of s <= 2) by (unfold padding_of; repeat case_match; lia).
    replace (Z.to_nat _) with (length (octets v) + Z.to_nat (Z.of_nat m * 3 - padding_of s))%nat by (cbn [length octets]; lia).
    rewrite take_app_add', encode_group, IH1 by done. rewrite padded_chars_0 in Ec. split; [|apply Forall_app; split; [apply octets_bytes|done]].
    change (c1 :: c2 :: c3 :: c4 :: s) with ([c1; c2; c3; c4] ++ s). by rewrite Ec.
Qed.

Lemma quads_length n : (1 <= n)%nat -> (Z.of_nat (4 * n) =? 0) = false /\ Z.of_nat (4 * n) mod 4 = 0 /\ Z.of_nat (4 * n) / 4 = Z.of_nat n.
Proof. intros Hn. split; [apply Z.eqb_neq; lia|]. rewrite Nat2Z.inj_mul. split; divmod. Qed.

(** Base64 strings and bytes determine each other.  Every byte string is
    decoded from its encoding, and every string that the decoder accepts is,
    but for white space, the encoding of the bytes it decodes to. *)
Theorem base64_bijection b s :
  (is_bytes b -> base64ToBytesPortable (bytesToBase64 b) = Ok b) /\
  (base64ToBytesPortable s = Ok b -> bytesToBase64 b = normalized s /\ is_bytes b).
Proof.
  unfold base64ToBytesPortable. split.
  - intros Hb. destruct (decide (b = [])) as [->|Hne]; [done|].
    destruct (decode_encode b Hb Hne 0) as (out & E & Ht & (n & Hn & L & Lp) & F). rewrite normalized_id by done. unfold len at 1 2 3. rewrite L.
    destruct (quads_length n Hn) as (-> & -> & ->). cbn [negb Z.eqb].
    rewrite E. cbn [mbind result_bind]. f_equal. rewrite Lp. unfold len. by rewrite Nat2Z.id.
  - set (t := normalized s). clearbody t. destruct (len t =? 0) eqn:H0.
    { intros <-%Ok_inj. b2p. destruct t; [done|]. unfold len in H0. cbn in H0. lia. }
    destruct (negb _) eqn:H4; [done|]. b2p. intros E. apply bind_Ok in E as (out & E & <-%Ok_inj).
    unfold len in *. set (m := Z.to_nat (Z.of_nat (length t) / 4)).
    destruct (encode_decode t ltac:(by intros ->) m 0 out) as [E1 E2]; [unfold m; divmod|done|].
    replace (Z.of_nat (length t) / 4) with (Z.of_nat m) by (unfold m; divmod). split; [done|by apply Forall_take].
Qed.

Lemma base64_bijection_witness : base64ToBytesPortable (bytesToBase64 [0; 255; 62; 63]) = Ok [0; 255; 62; 63] /\
  bytesToBase64 [77; 97] = normalized (bytes_of_string "T W E=").
Proof.
  split.
  - apply (base64_bijection [0; 255; 62; 63] []). repeat constructor; unfold is_byte; lia.
  - apply (base64_bijection [77; 97] (bytes_of_string "T W E=")). vm_compute. reflexivity.
Defined.
