(* ===== verification/SignalMessage.v ===== *)
(** * Message codecs ([encoding/proto/signal-message.ts],
    [sender-key-message.ts], [envelope.ts])

    Fields whose TypeScript type is not optional are not options here: the
    [!== undefined] tests of the encoders on them are always true.  The
    decoders keep their local variables in a record and loop with
    [read_fields], with as much fuel as the message has bytes. *)
From S2P Require Import Prelude ProtoWire Utf8.

Definition MAX_SIGNAL_PROTOCOL_WIRE_MESSAGE_BYTES : Z := 16 * 1024 * 1024.

Definition assertWireMessageSize (b : bytes) (label : string) : result unit :=
  throw_when (len b >? MAX_SIGNAL_PROTOCOL_WIRE_MESSAGE_BYTES) (Error (label +:+ " exceeds input limit")).

(** [if (v !== undefined) fields.push(encode(v))] *)
Definition opt_field {A} (encode : A -> result bytes) (v : option A) : result bytes :=
  match v with None => Ok [] | Some v => encode v end.

(** ** The address binding (field 6) *)
Record ProtocolAddress := { userId : jsstring; deviceId : Z }.

#[export] Instance ProtocolAddress_eq_dec : EqDecision ProtocolAddress.
Proof. solve_decision. Defined.

Definition ADDRESS_BINDING_FORMAT_VERSION : Z := 1.

Definition encodeUint32BE (value : Z) : result bytes :=
  if (value <? 0) || (value >? 0xffffffff) then Throw (Error "deviceId must be a uint32")
  else Ok [value / 2 ^ 24 mod 256; value / 2 ^ 16 mod 256; value / 2 ^ 8 mod 256; value mod 256].

Definition readUint32BE (b : bytes) (offset : Z) : result Z :=
  if offset + 4 >? len b then Throw (Error "Address binding truncated while reading deviceId")
  else Ok (byte_at b offset * 2 ^ 24 + byte_at b (offset + 1) * 2 ^ 16 +
           byte_at b (offset + 2) * 2 ^ 8 + byte_at b (offset + 3)).

Definition encodeAddress (address : ProtocolAddress) : result bytes :=
  let userIdBytes := utf8Encode (userId address) in
  if len userIdBytes =? 0 then Throw (Error "Address binding userId cannot be empty")
  else
    l ← encodeVarint (Int (len userIdBytes));
    d ← encodeUint32BE (deviceId address);
    Ok (concat [l; userIdBytes; d]).

Definition decodeAddress (b : bytes) (offset : Z) : result (ProtocolAddress * Z) :=
  '(userIdLength, bytesRead) ← decodeVarint b offset;
  let offset := offset + bytesRead in
  if userIdLength =? 0 then Throw (Error "Address binding userId cannot be empty")
  else if offset + userIdLength >? len b then
    Throw (Error "Address binding truncated while reading userId")
  else
    userId ← utf8DecodePortable false (slice b offset (offset + userIdLength));
    let offset := offset + userIdLength in
    deviceId ← readUint32BE b offset;
    Ok ({| userId := userId; deviceId := deviceId |}, offset + 4).

Definition serializeSignalProtocolMessageAddresses (senderAddress recipientAddress : ProtocolAddress) : result bytes :=
  s ← encodeAddress senderAddress;
  r ← encodeAddress recipientAddress;
  Ok (concat [[ADDRESS_BINDING_FORMAT_VERSION]; s; r]).

Definition deserializeSignalProtocolMessageAddresses (b : bytes) : result (ProtocolAddress * ProtocolAddress) :=
  if len b =? 0 then Throw (Error "SignalProtocolMessage address binding is missing")
  else if negb (byte_at b 0 =? ADDRESS_BINDING_FORMAT_VERSION) then
    Throw (Error "Unsupported SignalProtocolMessage address binding version")
  else
    '(sender, offset) ← decodeAddress b 1;
    '(recipient, offset) ← decodeAddress b offset;
    if negb (offset =? len b) then Throw (Error "SignalProtocolMessage address binding has trailing bytes")
    else Ok (sender, recipient).

Definition signalProtocolMessageAddressesEqual (encoded : bytes)
    (senderAddress recipientAddress : ProtocolAddress) : result bool :=
  '(sender, recipient) ← deserializeSignalProtocolMessageAddresses encoded;
  Ok (bool_decide (userId sender = userId senderAddress) && (deviceId sender =? deviceId senderAddress) &&
      bool_decide (userId recipient = userId recipientAddress) && (deviceId recipient =? deviceId recipientAddress)).

(** ** SignalProtocolMessage *)
Record SignalProtocolMessageFields := {
  ratchetKey : bytes; counter : Z; previousCounter : Z; ciphertext : bytes;
  pqRatchet : option bytes; addresses : bytes; recipientIdentityType : option Z }.

Definition bad_identity_type (t : Z) : bool := negb (t =? 1) && negb (t =? 2).

Definition encodeSignalProtocolMessage (msg : SignalProtocolMessageFields) : result bytes :=
  if len (addresses msg) =? 0 then Throw (Error "SignalProtocolMessage addresses field is required")
  else if (match recipientIdentityType msg with Some t => bad_identity_type t | None => false end)
  then Throw (Error "SignalProtocolMessage recipientIdentityType must be ACI=1 or PNI=2")
  else
    f1 ← encodeBytesField 1 (ratchetKey msg);
    f2 ← encodeUint32Field 2 (Int (counter msg));
    f3 ← encodeUint32Field 3 (Int (previousCounter msg));
    f4 ← encodeBytesField 4 (ciphertext msg);
    f5 ← opt_field (encodeBytesField 5) (pqRatchet msg);
    f6 ← encodeBytesField 6 (addresses msg);
    f100 ← opt_field (fun t => encodeUint32Field 100 (Int t)) (recipientIdentityType msg);
    Ok (concatFields [f1; f2; f3; f4; f5; f6; f100]).

(** The local variables of the decoder. *)
Record sig_locals := {
  l_ratchetKey : option bytes; l_counter : option Z; l_previousCounter : option Z;
  l_ciphertext : option bytes; l_pqRatchet : option bytes; l_addresses : option bytes;
  l_recipientIdentityType : option Z }.

Definition no_sig_locals : sig_locals := {|
  l_ratchetKey := None; l_counter := None; l_previousCounter := None; l_ciphertext := None;
  l_pqRatchet := None; l_addresses := None; l_recipientIdentityType := None |}.

(** Assignment of a value read, [a = reader.read()]. *)
Definition assign {A X} (set : X -> A -> A) (a : A) (r : M ProtoReader X) : M ProtoReader A :=
  M_bind (fun v => M_ret (set v a)) r.

Definition sig_field (fieldNumber : Z) (a : sig_locals) : M ProtoReader sig_locals :=
  let '(Build_sig_locals rk c pc ct pq ad rt) := a in
  if fieldNumber =? 1 then assign (fun v _ => Build_sig_locals (Some v) c pc ct pq ad rt) a readBytes
  else if fieldNumber =? 2 then assign (fun v _ => Build_sig_locals rk (Some v) pc ct pq ad rt) a readUint32
  else if fieldNumber =? 3 then assign (fun v _ => Build_sig_locals rk c (Some v) ct pq ad rt) a readUint32
  else if fieldNumber =? 4 then assign (fun v _ => Build_sig_locals rk c pc (Some v) pq ad rt) a readBytes
  else if fieldNumber =? 5 then assign (fun v _ => Build_sig_locals rk c pc ct (Some v) ad rt) a readBytes
  else if fieldNumber =? 6 then assign (fun v _ => Build_sig_locals rk c pc ct pq (Some v) rt) a readBytes
  else if fieldNumber =? 100 then assign (fun v _ => Build_sig_locals rk c pc ct pq ad (Some v)) a readUint32
  else assign (fun _ a => a) a skipField.

(** [x?.length ? x : undefined] *)
Definition nonempty (x : option bytes) : option bytes :=
  match x with Some (_ :: _) => x | _ => None end.

(** The checks and the value returned, after the loop. *)
Definition sig_result (a : sig_locals) : result SignalProtocolMessageFields :=
  match nonempty (l_addresses a) with
  | None => Throw (Error "Missing required field: addresses")
  | Some ad =>
      match l_ratchetKey a with
      | None => Throw (Error "SignalProtocolMessage ratchetKey must contain exactly 33 bytes")
      | Some rk =>
          if negb (len rk =? 33)
          then Throw (Error "SignalProtocolMessage ratchetKey must contain exactly 33 bytes")
          else match nonempty (l_ciphertext a) with
          | None => Throw (Error "SignalProtocolMessage ciphertext must not be empty")
          | Some ct =>
              if (match l_recipientIdentityType a with Some t => bad_identity_type t | None => false end)
              then Throw (Error "SignalProtocolMessage recipientIdentityType must be ACI=1 or PNI=2")
              else Ok {| ratchetKey := rk; counter := default 0 (l_counter a);
                         previousCounter := default 0 (l_previousCounter a); ciphertext := ct;
                         pqRatchet := nonempty (l_pqRatchet a); addresses := ad;
                         recipientIdentityType := l_recipientIdentityType a |}
          end
      end
  end.

Definition decodeSignalProtocolMessage (b : bytes) : result SignalProtocolMessageFields :=
  _ ← assertWireMessageSize b "SignalProtocolMessage";
  a ← (read_fields (length b) sig_field no_sig_locals (new_ProtoReader b)).2;
  sig_result a.

(** ** PreKeySignalProtocolMessage *)
Record PreKeySignalProtocolMessageFields := {
  ecOneTimePreKeyId : option Z; baseKey : bytes; identityKey : bytes; pk_message : bytes;
  registrationId : Z; ecSignedPreKeyId : Z; kemLastResortPreKeyId : option Z;
  kemLastResortCiphertext : option bytes; kemOneTimePreKeyId : option Z;
  kemOneTimeCiphertext : option bytes; pk_recipientIdentityType : Z }.

Definition encodePreKeySignalProtocolMessage (msg : PreKeySignalProtocolMessageFields) : result bytes :=
  if bad_identity_type (pk_recipientIdentityType msg)
  then Throw (Error "PreKeySignalProtocolMessage recipientIdentityType must be ACI=1 or PNI=2")
  else
    f1 ← opt_field (fun v => encodeUint32Field 1 (Int v)) (ecOneTimePreKeyId msg);
    f2 ← encodeBytesField 2 (baseKey msg);
    f3 ← encodeBytesField 3 (identityKey msg);
    f4 ← encodeBytesField 4 (pk_message msg);
    f5 ← encodeUint32Field 5 (Int (registrationId msg));
    f6 ← encodeUint32Field 6 (Int (ecSignedPreKeyId msg));
    f7 ← opt_field (fun v => encodeUint32Field 7 (Int v)) (kemLastResortPreKeyId msg);
    f8 ← opt_field (encodeBytesField 8) (kemLastResortCiphertext msg);
    f100 ← opt_field (fun v => encodeUint32Field 100 (Int v)) (kemOneTimePreKeyId msg);
    f101 ← opt_field (encodeBytesField 101) (kemOneTimeCiphertext msg);
    f102 ← encodeUint32Field 102 (Int (pk_recipientIdentityType msg));
    Ok (concatFields [f1; f2; f3; f4; f5; f6; f7; f8; f100; f101; f102]).

(** The object [wireMessage]. *)
Record pk_locals := {
  w_oneTimePreKeyId : option Z; w_baseKey : option bytes; w_identityKey : option bytes;
  w_message : option bytes; w_registrationId : option Z; w_signedPreKeyId : option Z;
  w_kyberPreKeyId : option Z; w_kyberCiphertext : option bytes; w_kemOneTimePreKeyId : option Z;
  w_kemOneTimeCiphertext : option bytes; w_recipientIdentityType : option Z }.

Definition no_pk_locals : pk_locals :=
  Build_pk_locals None None None None None None None None None None None.

Definition pk_field (fieldNumber : Z) (a : pk_locals) : M ProtoReader pk_locals :=
  let '(Build_pk_locals ot bk ik ms ri sp kp kc op oc rt) := a in
  if fieldNumber =? 1 then assign (fun v _ => Build_pk_locals (Some v) bk ik ms ri sp kp kc op oc rt) a readUint32
  else if fieldNumber =? 2 then assign (fun v _ => Build_pk_locals ot (Some v) ik ms ri sp kp kc op oc rt) a readBytes
  else if fieldNumber =? 3 then assign (fun v _ => Build_pk_locals ot bk (Some v) ms ri sp kp kc op oc rt) a readBytes
  else if fieldNumber =? 4 then assign (fun v _ => Build_pk_locals ot bk ik (Some v) ri sp kp kc op oc rt) a readBytes
  else if fieldNumber =? 5 then assign (fun v _ => Build_pk_locals ot bk ik ms (Some v) sp kp kc op oc rt) a readUint32
  else if fieldNumber =? 6 then assign (fun v _ => Build_pk_locals ot bk ik ms ri (Some v) kp kc op oc rt) a readUint32
  else if fieldNumber =? 7 then assign (fun v _ => Build_pk_locals ot bk ik ms ri sp (Some v) kc op oc rt) a readUint32
  else if fieldNumber =? 8 then assign (fun v _ => Build_pk_locals ot bk ik ms ri sp kp (Some v) op oc rt) a readBytes
  else if fieldNumber =? 100 then assign (fun v _ => Build_pk_locals ot bk ik ms ri sp kp kc (Some v) oc rt) a readUint32
  else if fieldNumber =? 101 then assign (fun v _ => Build_pk_locals ot bk ik ms ri sp kp kc op (Some v) rt) a readBytes
  else if fieldNumber =? 102 then assign (fun v _ => Build_pk_locals ot bk ik ms ri sp kp kc op oc (Some v)) a readUint32
  else assign (fun _ a => a) a skipField.

(** [x?.length !== n] *)
Definition of_length (n : Z) (x : option bytes) (e : exn) : result bytes :=
  match x with Some b => if len b =? n then Ok b else Throw e | None => Throw e end.

Definition required {A} (x : option A) (e : exn) : result A :=
  match x with Some a => Ok a | None => Throw e end.

Definition pk_result (w : pk_locals) : result PreKeySignalProtocolMessageFields :=
  bk ← of_length 33 (w_baseKey w) (Error "PreKeySignalProtocolMessage baseKey must contain exactly 33 bytes");
  ik ← of_length 67 (w_identityKey w) (Error "PreKeySignalProtocolMessage identityKey must contain exactly 67 bytes");
  ms ← required (nonempty (w_message w)) (Error "PreKeySignalProtocolMessage message must not be empty");
  ri ← required (w_registrationId w) (Error "Missing required field: registrationId");
  sp ← required (w_signedPreKeyId w) (Error "Missing required field: signedPreKeyId");
  rt ← required (w_recipientIdentityType w)
         (Error "PreKeySignalProtocolMessage recipientIdentityType must be ACI=1 or PNI=2");
  if bad_identity_type rt
  then Throw (Error "PreKeySignalProtocolMessage recipientIdentityType must be ACI=1 or PNI=2")
  else Ok {| ecOneTimePreKeyId := w_oneTimePreKeyId w; baseKey := bk; identityKey := ik; pk_message := ms;
             registrationId := ri; ecSignedPreKeyId := sp; kemLastResortPreKeyId := w_kyberPreKeyId w;
             kemLastResortCiphertext := nonempty (w_kyberCiphertext w);
             kemOneTimePreKeyId := w_kemOneTimePreKeyId w;
             kemOneTimeCiphertext := nonempty (w_kemOneTimeCiphertext w);
             pk_recipientIdentityType := rt |}.

Definition decodePreKeySignalProtocolMessage (b : bytes) : result PreKeySignalProtocolMessageFields :=
  _ ← assertWireMessageSize b "PreKeySignalProtocolMessage";
  w ← (read_fields (length b) pk_field no_pk_locals (new_ProtoReader b)).2;
  pk_result w.
