(* ===== verification/SignalMessageProofs.v ===== *)
(** * The message codecs agree with the schema

    A message is the list of its fields; the decoder accepts exactly the
    encodings of field lists that its schema interprets. *)
From S2P Require Import Prelude ProtoWire ProtoFields Utf8 SignalMessage.

#[local] Arguments varint : simpl never.

(** ** Encoders, when they return *)
Lemma encodeVarint_inv v b : encodeVarint (Int v) = Ok b -> 0 <= v < 2 ^ 32 /\ b = varint 9 v.
Proof.
  intros H. assert (Hv : 0 <= v < 2 ^ 32).
  { revert H. unfold encodeVarint, js_lt, js_gt, UINT32_MAX. case_if; [done|]. case_if; [done|]. b2p. lia. }
  split; [done|]. rewrite encodeVarint_ok in H by done. by injection H.
Qed.

Lemma encodeBytesField_inv n d b : 0 <= n < 2 ^ 28 -> encodeBytesField n d = Ok b ->
  len d < 2 ^ 32 /\ b = encode_field (WBytes n d).
Proof.
  intros Hn H. assert (Hd : len d < 2 ^ 32).
  { unfold encodeBytesField in H. apply bind_Ok in H as (t & _ & H). apply bind_Ok in H as (l & Hl & _).
    apply encodeVarint_inv in Hl. lia. }
  split; [done|]. rewrite encodeBytesField_ok in H by done. by injection H.
Qed.

Lemma encodeUint32Field_inv n v b : 0 <= n < 2 ^ 28 -> encodeUint32Field n (Int v) = Ok b ->
  0 <= v < 2 ^ 32 /\ b = encode_field (WVarint n v).
Proof.
  intros Hn H. assert (Hv : 0 <= v < 2 ^ 32).
  { unfold encodeUint32Field in H. apply bind_Ok in H as (t & _ & H). apply bind_Ok in H as (l & Hl & _).
    by apply encodeVarint_inv in Hl as [? _]. }
  split; [done|]. rewrite encodeUint32Field_ok in H by done. by injection H.
Qed.

(** The field of an optional value. *)
Definition opt_list {A} (f : A -> wfield) (v : option A) : list wfield :=
  match v with Some v => [f v] | None => [] end.

Lemma opt_bytes_inv n d b : 0 <= n < 2 ^ 28 -> opt_field (encodeBytesField n) d = Ok b ->
  from_option (fun d => len d < 2 ^ 32) True d /\ b = encode_fields (opt_list (WBytes n) d).
Proof.
  intros Hn. destruct d as [d|]; cbn [opt_field]; [|intros [= <-]; done].
  intros H. apply encodeBytesField_inv in H as [? ->]; [|done]. split; [done|]. unfold encode_fields. cbn.
  by rewrite app_nil_r.
Qed.

Lemma opt_uint32_inv n v b : 0 <= n < 2 ^ 28 -> opt_field (fun v => encodeUint32Field n (Int v)) v = Ok b ->
  from_option (fun v => 0 <= v < 2 ^ 32) True v /\ b = encode_fields (opt_list (WVarint n) v).
Proof.
  intros Hn. destruct v as [v|]; cbn [opt_field]; [|intros [= <-]; done].
  intros H. apply encodeUint32Field_inv in H as [? ->]; [|done]. split; [done|]. unfold encode_fields. cbn.
  by rewrite app_nil_r.
Qed.

Lemma encode_fields_app fs gs : encode_fields (fs ++ gs) = encode_fields fs ++ encode_fields gs.
Proof. unfold encode_fields. by rewrite map_app, concat_app. Qed.

Lemma encode_fields_one f : encode_field f = encode_fields [f].
Proof. unfold encode_fields. cbn. by rewrite app_nil_r. Qed.

(** ** Field sequences are a prefix code *)
Lemma varint9_inj v1 v2 r1 r2 : 0 <= v1 < 2 ^ 64 -> 0 <= v2 < 2 ^ 64 ->
  varint 9 v1 ++ r1 = varint 9 v2 ++ r2 -> v1 = v2 /\ r1 = r2.
Proof.
  intros H1 H2 E. pose proof (decode_varint9 [] v1 r1 H1) as D1. pose proof (decode_varint9 [] v2 r2 H2) as D2.
  cbn [app] in D1, D2. rewrite E, D2 in D1. injection D1 as <- _. split; [done|]. by apply app_inv_head in E.
Qed.

Lemma app_inj_length {A} (d1 d2 r1 r2 : list A) : length d1 = length d2 -> d1 ++ r1 = d2 ++ r2 -> d1 = d2 /\ r1 = r2.
Proof. intros. by apply app_inj_1. Qed.

Lemma encode_field_inj f1 f2 r1 r2 : wf_field f1 -> wf_field f2 ->
  encode_field f1 ++ r1 = encode_field f2 ++ r2 -> f1 = f2 /\ r1 = r2.
Proof.
  intros [N1 W1] [N2 W2] E. unfold encode_field in E. rewrite <- !app_assoc in E.
  pose proof (wtype_range f1) as T1. pose proof (wtype_range f2) as T2. unfold MAX_FIELD_NUMBER in *.
  apply varint9_inj in E as [Et Ep]; [|unfold wtag; lia..].
  assert (En : fnum f1 = fnum f2 /\ wtype f1 = wtype f2) by (unfold wtag in Et; lia). destruct En as [En Ew].
  destruct f1 as [n1 v1|n1 d1|n1 d1|n1 d1], f2 as [n2 v2|n2 d2|n2 d2|n2 d2]; try done; cbn in En; subst n2; cbn [payload] in Ep.
  - by apply varint9_inj in Ep as [-> ->].
  - apply app_inj_length in Ep as [-> ->]; [done|lia].
  - rewrite <- !app_assoc in Ep. apply varint9_inj in Ep as [El Ep]; [|len_lia..].
    apply app_inj_length in Ep as [-> ->]; [done|]. unfold len in El. lia.
  - apply app_inj_length in Ep as [-> ->]; [done|lia].
Qed.

Lemma encode_fields_inj fs1 : forall fs2, Forall wf_field fs1 -> Forall wf_field fs2 ->
  encode_fields fs1 = encode_fields fs2 -> fs1 = fs2.
Proof.
  induction fs1 as [|f1 fs1 IH]; intros [|f2 fs2] H1 H2 E; [done| | |].
  - symmetry in E. by apply (encode_field_nonempty f2 (encode_fields fs2)) in E.
  - by apply (encode_field_nonempty f1 (encode_fields fs1)) in E.
  - apply Forall_cons in H1 as [? H1]. apply Forall_cons in H2 as [? H2].
    apply (encode_field_inj f1 f2 (encode_fields fs1) (encode_fields fs2)) in E as [-> E]; [|done..].
    f_equal. by apply IH.
Qed.

(** ** Decoders of a message *)
Section Decoder.
Context {A} (h : Z -> A -> M ProtoReader A) (upd : Z -> wfield -> A -> result A).
Context (Hh : forall n a, field_reader (h n a) (fun f => upd n f a)).

Lemma decode_loop_ok a fs : Forall wf_field fs ->
  (read_fields (length (encode_fields fs)) h a (new_ProtoReader (encode_fields fs))).2 = fold_fields upd a fs.
Proof. intros Hwf. apply (read_fields_ok h upd Hh fs _ a [] None Hwf), encode_fields_length. Qed.

Lemma decode_loop_iff b a r : is_bytes b ->
  (read_fields (length b) h a (new_ProtoReader b)).2 = Ok r <->
  exists fs, Forall wf_field fs /\ b = encode_fields fs /\ fold_fields upd a fs = Ok r.
Proof.
  intros Hb. split.
  - intros H. by apply (read_fields_inv h upd Hh (length b) a [] b None r).
  - intros (fs & Hwf & -> & Hf). by rewrite decode_loop_ok.
Qed.

Lemma fold_fields_app a fs gs : fold_fields upd a (fs ++ gs) = (a' ← fold_fields upd a fs; fold_fields upd a' gs).
Proof. apply foldM_app. Qed.

Lemma fold_fields_skip a fs : (forall f a, f ∈ fs -> upd (fnum f) f a = Ok a) -> fold_fields upd a fs = Ok a.
Proof.
  unfold fold_fields. intros H. induction fs as [|f fs IH]; [done|]. cbn [foldM_result].
  rewrite H by left. cbn [mbind result_bind]. apply IH. intros. apply H. by right.
Qed.
End Decoder.

(** ** SignalProtocolMessage *)
Definition sig_upd (n : Z) (f : wfield) (a : sig_locals) : result sig_locals :=
  let '(Build_sig_locals rk c pc ct pq ad rt) := a in
  if n =? 1 then v ← bytes_of f; Ok (Build_sig_locals (Some v) c pc ct pq ad rt)
  else if n =? 2 then v ← uint32_of f; Ok (Build_sig_locals rk (Some v) pc ct pq ad rt)
  else if n =? 3 then v ← uint32_of f; Ok (Build_sig_locals rk c (Some v) ct pq ad rt)
  else if n =? 4 then v ← bytes_of f; Ok (Build_sig_locals rk c pc (Some v) pq ad rt)
  else if n =? 5 then v ← bytes_of f; Ok (Build_sig_locals rk c pc ct (Some v) ad rt)
  else if n =? 6 then v ← bytes_of f; Ok (Build_sig_locals rk c pc ct pq (Some v) rt)
  else if n =? 100 then v ← uint32_of f; Ok (Build_sig_locals rk c pc ct pq ad (Some v))
  else Ok a.

(** Case analysis of a chain of field-number tests. *)
Ltac field_cases :=
  repeat (case_if; [first [apply (field_reader_map _ _ _ readBytes_reader)
                          |apply (field_reader_map _ _ _ readUint32_reader)]|]);
  apply (field_reader_map _ _ (fun _ => _) skipField_reader).

Lemma sig_field_reader n a : field_reader (sig_field n a) (fun f => sig_upd n f a).
Proof. destruct a. unfold sig_field, sig_upd, assign. field_cases. Qed.

Definition sig_fields (m : SignalProtocolMessageFields) : list wfield :=
  [WBytes 1 (ratchetKey m); WVarint 2 (counter m); WVarint 3 (previousCounter m); WBytes 4 (ciphertext m)] ++
  opt_list (WBytes 5) (pqRatchet m) ++ [WBytes 6 (addresses m)] ++
  opt_list (WVarint 100) (recipientIdentityType m).

Definition sig_known (n : Z) : bool := existsb (Z.eqb n) [1; 2; 3; 4; 5; 6; 100].

Lemma sig_upd_unknown f a : sig_known (fnum f) = false -> sig_upd (fnum f) f a = Ok a.
Proof.
  destruct a. unfold sig_known, sig_upd. cbn [existsb]. intros H. repeat (apply orb_false_iff in H as [-> H]). done.
Qed.

Lemma small_wf_bytes n d : 1 <= n < 2 ^ 28 -> len d < 2 ^ 32 -> wf_field (WBytes n d).
Proof. intros. split; cbn; unfold MAX_FIELD_NUMBER; lia. Qed.
Lemma small_wf_varint n v : 1 <= n < 2 ^ 28 -> 0 <= v < 2 ^ 32 -> wf_field (WVarint n v).
Proof. intros. split; cbn; unfold MAX_FIELD_NUMBER; lia. Qed.

Lemma opt_wf {A} (f : A -> wfield) (P : A -> Prop) v :
  (forall a, P a -> wf_field (f a)) -> from_option P True v -> Forall wf_field (opt_list f v).
Proof. intros H. destruct v as [a|]; cbn; intros Ha; constructor; [by apply H|constructor]. Qed.

(** Well-formedness of a list of small fields. *)
Ltac wf_fields :=
  repeat first [apply Forall_app_2 | apply List.Forall_cons | apply List.Forall_nil
               |eapply opt_wf; [|eassumption]; cbn beta; intros];
  first [apply small_wf_bytes | apply small_wf_varint]; lia.

Ltac encode_inv H :=
  repeat (let x := fresh "b" in let Hx := fresh "H" in
          apply bind_Ok in H as (x & Hx & H);
          first [apply encodeBytesField_inv in Hx as [? ->]; [|lia]
                |apply encodeUint32Field_inv in Hx as [? ->]; [|lia]
                |apply opt_bytes_inv in Hx as [? ->]; [|lia]
                |apply opt_uint32_inv in Hx as [? ->]; [|lia]]).

Lemma encodeSignal_fields m b : encodeSignalProtocolMessage m = Ok b ->
  b = encode_fields (sig_fields m) /\ Forall wf_field (sig_fields m) /\
  addresses m <> [] /\ 0 <= counter m <= UINT32_MAX /\ 0 <= previousCounter m <= UINT32_MAX /\
  match recipientIdentityType m with Some t => t = 1 \/ t = 2 | None => True end.
Proof.
  unfold encodeSignalProtocolMessage. case_if; [done|]. case_if; [done|]. b2p. intros H. encode_inv H.
  apply Ok_inj in H as <-. split; [|split; [|split; [|split; [|split]]]].
  - unfold encode_fields, sig_fields, concatFields. rewrite !map_app, !concat_app. cbn [map concat].
    by rewrite !app_nil_r, <- !app_assoc.
  - unfold sig_fields. wf_fields.
  - intros E. by rewrite E in Hb.
  - unfold UINT32_MAX. lia.
  - unfold UINT32_MAX. lia.
  - destruct (recipientIdentityType m) as [t|]; [|done]. unfold bad_identity_type in Hb0. lia.
Qed.

Lemma uint32_of_ok n v : v <= UINT32_MAX -> uint32_of (WVarint n v) = Ok v.
Proof. intros. cbn. by replace (v >? UINT32_MAX) with false by lia. Qed.

Lemma fold_fields_cons {A} (upd : Z -> wfield -> A -> result A) a f fs :
  fold_fields upd a (f :: fs) = (a' ← upd (fnum f) f a; fold_fields upd a' fs).
Proof. done. Qed.

Ltac fold_step upd :=
  rewrite fold_fields_cons; cbn [fnum upd Z.eqb Pos.eqb bytes_of]; rewrite ?uint32_of_ok by lia;
  cbn [mbind result_bind].

Lemma fold_sig_fields m : 0 <= counter m <= UINT32_MAX -> 0 <= previousCounter m <= UINT32_MAX ->
  match recipientIdentityType m with Some t => t = 1 \/ t = 2 | None => True end ->
  fold_fields sig_upd no_sig_locals (sig_fields m) =
  Ok (Build_sig_locals (Some (ratchetKey m)) (Some (counter m)) (Some (previousCounter m))
        (Some (ciphertext m)) (pqRatchet m) (Some (addresses m)) (recipientIdentityType m)).
Proof.
  destruct m as [rk c pc ct pq ad rt]. cbn [ratchetKey counter previousCounter ciphertext pqRatchet addresses recipientIdentityType].
  intros Hc Hp Ht. unfold sig_fields, no_sig_locals.
  cbn [ratchetKey counter previousCounter ciphertext pqRatchet addresses recipientIdentityType app opt_list].
  repeat (fold_step sig_upd).
  destruct pq as [pq|], rt as [t|]; cbn [opt_list app]; try (destruct Ht; subst t); repeat (fold_step sig_upd); done.
Qed.

Lemma sig_result_valid rk c pc ct pq ad rt : ad <> [] -> len rk = 33 -> ct <> [] -> pq <> Some [] ->
  match rt with Some t => t = 1 \/ t = 2 | None => True end ->
  sig_result (Build_sig_locals (Some rk) (Some c) (Some pc) (Some ct) pq (Some ad) rt) =
  Ok {| ratchetKey := rk; counter := c; previousCounter := pc; ciphertext := ct; pqRatchet := pq;
        addresses := ad; recipientIdentityType := rt |}.
Proof.
  intros Ha Hrk Hct Hpq Ht. unfold sig_result. cbn [l_addresses l_ratchetKey l_ciphertext l_pqRatchet l_recipientIdentityType l_counter l_previousCounter].
  destruct ad as [|a ad]; [done|]. destruct ct as [|x ct]; [done|]. cbn [nonempty]. rewrite Hrk. cbn [Z.eqb Pos.eqb negb].
  assert (Hn : nonempty pq = pq) by (by destruct pq as [[]|]).
  rewrite Hn. destruct rt as [t|]; [|done]. by destruct Ht; subst.
Qed.

(** The fields of a message, followed by unknown fields, decode to it. *)
Lemma decode_sig_fields m extra : Forall wf_field (sig_fields m) -> addresses m <> [] ->
  0 <= counter m <= UINT32_MAX -> 0 <= previousCounter m <= UINT32_MAX ->
  match recipientIdentityType m with Some t => t = 1 \/ t = 2 | None => True end ->
  len (ratchetKey m) = 33 -> ciphertext m <> [] -> pqRatchet m <> Some [] ->
  Forall (fun f => wf_field f /\ sig_known (fnum f) = false) extra ->
  len (encode_fields (sig_fields m ++ extra)) <= MAX_SIGNAL_PROTOCOL_WIRE_MESSAGE_BYTES ->
  decodeSignalProtocolMessage (encode_fields (sig_fields m ++ extra)) = Ok m.
Proof.
  intros Hwf Ha Hc Hp Ht Hrk Hct Hpq Hextra Hlen.
  unfold decodeSignalProtocolMessage, assertWireMessageSize, throw_when.
  replace (_ >? _) with false by lia. cbn [mbind result_bind].
  rewrite (decode_loop_ok _ _ sig_field_reader).
  2:{ apply Forall_app_2; [done|]. eapply Forall_impl; [exact Hextra|]. by intros f [? _]. }
  rewrite fold_fields_app, fold_sig_fields by done. cbn [mbind result_bind].
  rewrite (fold_fields_skip sig_upd).
  2:{ intros f a Hf. apply sig_upd_unknown. rewrite Forall_forall in Hextra. by apply Hextra. }
  cbn [mbind result_bind]. rewrite sig_result_valid by done. by destruct m.
Qed.

(** C18: SignalProtocolMessage round trip and forward compatibility.  Whatever
    [encodeSignalProtocolMessage] returns for a message with a 33-byte ratchet
    key and a non-empty ciphertext decodes to that message, also when fields
    of other numbers (of any of the four wire types) follow it, as long as the
    whole is within the 16 MiB limit. *)
Theorem signal_message_roundtrip m b extra :
  encodeSignalProtocolMessage m = Ok b ->
  len (ratchetKey m) = 33 -> ciphertext m <> [] -> pqRatchet m <> Some [] ->
  Forall (fun f => wf_field f /\ sig_known (fnum f) = false) extra ->
  len (b ++ encode_fields extra) <= MAX_SIGNAL_PROTOCOL_WIRE_MESSAGE_BYTES ->
  decodeSignalProtocolMessage (b ++ encode_fields extra) = Ok m.
Proof.
  intros He Hrk Hct Hpq Hextra Hlen. apply encodeSignal_fields in He as (-> & Hwf & Ha & Hc & Hp & Ht).
  rewrite <- encode_fields_app in *. by apply decode_sig_fields.
Qed.

Definition sample_message : SignalProtocolMessageFields := {|
  ratchetKey := replicate 33 5; counter := 300; previousCounter := 0; ciphertext := [1; 2; 3];
  pqRatchet := None; addresses := [9]; recipientIdentityType := Some 2 |}.

Definition sample_bytes : bytes :=
  match encodeSignalProtocolMessage sample_message with Ok b => b | Throw _ => [] end.

Lemma signal_message_roundtrip_witness :
  decodeSignalProtocolMessage (sample_bytes ++ encode_fields [WFixed32 99 [1; 2; 3; 4]; WVarint 536870911 7]) =
  Ok sample_message.
Proof.
  apply (signal_message_roundtrip sample_message sample_bytes [WFixed32 99 [1; 2; 3; 4]; WVarint 536870911 7]).
  - vm_compute. done.
  - done.
  - done.
  - done.
  - repeat constructor; vm_compute; intros; done.
  - vm_compute. done.
Defined.

(** C37: SignalProtocolMessage decoding, both ways.  A byte string decodes to
    [m] exactly when it is within the size limit and is the encoding of a list
    of well-formed fields, unique for the string, that the schema interprets
    as [m]; so a string with a truncated, oversized or non-canonical field, a
    field number outside [1 .. 2^29 - 1] or a group never decodes. *)
Theorem decode_signal_message_iff b m : is_bytes b ->
  decodeSignalProtocolMessage b = Ok m <->
  len b <= MAX_SIGNAL_PROTOCOL_WIRE_MESSAGE_BYTES /\
  exists fs, Forall wf_field fs /\ b = encode_fields fs /\
    (forall gs, Forall wf_field gs -> b = encode_fields gs -> gs = fs) /\
    (a ← fold_fields sig_upd no_sig_locals fs; sig_result a) = Ok m.
Proof.
  intros Hb. unfold decodeSignalProtocolMessage, assertWireMessageSize, throw_when.
  destruct (_ >? _) eqn:Hs; b2p; cbn [mbind result_bind].
  - split; [done|]. intros [? _]. lia.
  - rewrite bind_Ok. split.
    + intros (a & Ha & Hr). split; [done|].
      apply (decode_loop_iff _ _ sig_field_reader) in Ha as (fs & Hwf & -> & Hf); [|done].
      exists fs. split; [done|]. split; [done|]. split; [|by rewrite Hf].
      intros gs Hgs E. symmetry. by apply encode_fields_inj.
    + intros (_ & fs & Hwf & Eb & _ & Hf). apply bind_Ok in Hf as (a & Hf & Hr). exists a. split; [|done].
      apply (decode_loop_iff _ _ sig_field_reader); [done|]. eauto.
Qed.

Lemma decode_signal_message_iff_witness :
  decodeSignalProtocolMessage sample_bytes = Ok sample_message <->
  len sample_bytes <= MAX_SIGNAL_PROTOCOL_WIRE_MESSAGE_BYTES /\
  exists fs, Forall wf_field fs /\ sample_bytes = encode_fields fs /\
    (forall gs, Forall wf_field gs -> sample_bytes = encode_fields gs -> gs = fs) /\
    (a ← fold_fields sig_upd no_sig_locals fs; sig_result a) = Ok sample_message.
Proof. apply decode_signal_message_iff. vm_compute. repeat constructor; intros; done. Defined.

(** ** PreKeySignalProtocolMessage *)
Definition pk_upd (n : Z) (f : wfield) (a : pk_locals) : result pk_locals :=
  let '(Build_pk_locals ot bk ik ms ri sp kp kc op oc rt) := a in
  if n =? 1 then v ← uint32_of f; Ok (Build_pk_locals (Some v) bk ik ms ri sp kp kc op oc rt)
  else if n =? 2 then v ← bytes_of f; Ok (Build_pk_locals ot (Some v) ik ms ri sp kp kc op oc rt)
  else if n =? 3 then v ← bytes_of f; Ok (Build_pk_locals ot bk (Some v) ms ri sp kp kc op oc rt)
  else if n =? 4 then v ← bytes_of f; Ok (Build_pk_locals ot bk ik (Some v) ri sp kp kc op oc rt)
  else if n =? 5 then v ← uint32_of f; Ok (Build_pk_locals ot bk ik ms (Some v) sp kp kc op oc rt)
  else if n =? 6 then v ← uint32_of f; Ok (Build_pk_locals ot bk ik ms ri (Some v) kp kc op oc rt)
  else if n =? 7 then v ← uint32_of f; Ok (Build_pk_locals ot bk ik ms ri sp (Some v) kc op oc rt)
  else if n =? 8 then v ← bytes_of f; Ok (Build_pk_locals ot bk ik ms ri sp kp (Some v) op oc rt)
  else if n =? 100 then v ← uint32_of f; Ok (Build_pk_locals ot bk ik ms ri sp kp kc (Some v) oc rt)
  else if n =? 101 then v ← bytes_of f; Ok (Build_pk_locals ot bk ik ms ri sp kp kc op (Some v) rt)
  else if n =? 102 then v ← uint32_of f; Ok (Build_pk_locals ot bk ik ms ri sp kp kc op oc (Some v))
  else Ok a.

Lemma pk_field_reader n a : field_reader (pk_field n a) (fun f => pk_upd n f a).
Proof. destruct a. unfold pk_field, pk_upd, assign. field_cases. Qed.

Definition pk_fields (m : PreKeySignalProtocolMessageFields) : list wfield :=
  opt_list (WVarint 1) (ecOneTimePreKeyId m) ++
  [WBytes 2 (baseKey m); WBytes 3 (identityKey m); WBytes 4 (pk_message m);
   WVarint 5 (registrationId m); WVarint 6 (ecSignedPreKeyId m)] ++
  opt_list (WVarint 7) (kemLastResortPreKeyId m) ++ opt_list (WBytes 8) (kemLastResortCiphertext m) ++
  opt_list (WVarint 100) (kemOneTimePreKeyId m) ++ opt_list (WBytes 101) (kemOneTimeCiphertext m) ++
  [WVarint 102 (pk_recipientIdentityType m)].

Definition pk_known (n : Z) : bool := existsb (Z.eqb n) [1; 2; 3; 4; 5; 6; 7; 8; 100; 101; 102].

Lemma pk_upd_unknown f a : pk_known (fnum f) = false -> pk_upd (fnum f) f a = Ok a.
Proof.
  destruct a. unfold pk_known, pk_upd. cbn [existsb]. intros H. repeat (apply orb_false_iff in H as [-> H]). done.
Qed.

Lemma encodePreKey_fields m b : encodePreKeySignalProtocolMessage m = Ok b ->
  b = encode_fields (pk_fields m) /\ Forall wf_field (pk_fields m) /\
  (pk_recipientIdentityType m = 1 \/ pk_recipientIdentityType m = 2) /\
  Forall (fun v => 0 <= v <= UINT32_MAX)
    (option_list (ecOneTimePreKeyId m) ++ option_list (kemLastResortPreKeyId m) ++
     option_list (kemOneTimePreKeyId m) ++ [registrationId m; ecSignedPreKeyId m]).
Proof.
  unfold encodePreKeySignalProtocolMessage. case_if; [done|]. unfold bad_identity_type in Hb. b2p.
  intros H. encode_inv H. apply Ok_inj in H as <-. split; [|split; [|split]].
  - unfold encode_fields, pk_fields, concatFields. rewrite !map_app, !concat_app. cbn [map concat].
    by rewrite !app_nil_r, <- !app_assoc.
  - unfold pk_fields. wf_fields.
  - lia.
  - unfold UINT32_MAX. repeat (apply Forall_app; split);
      [destruct (ecOneTimePreKeyId m)|destruct (kemLastResortPreKeyId m)|destruct (kemOneTimePreKeyId m)|];
      cbn in *; repeat (constructor; [lia|]); constructor.
Qed.

Lemma fold_pk_fields m : (pk_recipientIdentityType m = 1 \/ pk_recipientIdentityType m = 2) ->
  Forall (fun v => 0 <= v <= UINT32_MAX)
    (option_list (ecOneTimePreKeyId m) ++ option_list (kemLastResortPreKeyId m) ++
     option_list (kemOneTimePreKeyId m) ++ [registrationId m; ecSignedPreKeyId m]) ->
  fold_fields pk_upd no_pk_locals (pk_fields m) =
  Ok (Build_pk_locals (ecOneTimePreKeyId m) (Some (baseKey m)) (Some (identityKey m)) (Some (pk_message m))
        (Some (registrationId m)) (Some (ecSignedPreKeyId m)) (kemLastResortPreKeyId m) (kemLastResortCiphertext m)
        (kemOneTimePreKeyId m) (kemOneTimeCiphertext m) (Some (pk_recipientIdentityType m))).
Proof.
  destruct m as [ot bk ik ms ri sp kp kc op oc rt]. unfold pk_fields, no_pk_locals.
  cbn [ecOneTimePreKeyId baseKey identityKey pk_message registrationId ecSignedPreKeyId kemLastResortPreKeyId
    kemLastResortCiphertext kemOneTimePreKeyId kemOneTimeCiphertext pk_recipientIdentityType].
  intros Ht Hall.
  assert (Hrt : rt <= UINT32_MAX) by (unfold UINT32_MAX; lia).
  apply Forall_app in Hall as [Hot Hall]. apply Forall_app in Hall as [Hkp Hall]. apply Forall_app in Hall as [Hop Hall].
  apply Forall_cons in Hall as [Hri Hall]. apply Forall_cons in Hall as [Hsp _].
  destruct ot as [ot|], kp as [kp|], op as [op|]; 
    try apply Forall_inv in Hot; try apply Forall_inv in Hkp; try apply Forall_inv in Hop; cbn beta in *; destruct kc as [kc|], oc as [oc|]; cbn [opt_list app];
    repeat (fold_step pk_upd); done.
Qed.

(** The fields of a PreKey message, followed by unknown fields, decode to it. *)
Lemma decode_pk_fields m extra : Forall wf_field (pk_fields m) ->
  pk_recipientIdentityType m = 1 \/ pk_recipientIdentityType m = 2 ->
  Forall (fun v => 0 <= v <= UINT32_MAX)
    (option_list (ecOneTimePreKeyId m) ++ option_list (kemLastResortPreKeyId m) ++
     option_list (kemOneTimePreKeyId m) ++ [registrationId m; ecSignedPreKeyId m]) ->
  len (baseKey m) = 33 -> len (identityKey m) = 67 -> pk_message m <> [] ->
  kemLastResortCiphertext m <> Some [] -> kemOneTimeCiphertext m <> Some [] ->
  Forall (fun f => wf_field f /\ pk_known (fnum f) = false) extra ->
  len (encode_fields (pk_fields m ++ extra)) <= MAX_SIGNAL_PROTOCOL_WIRE_MESSAGE_BYTES ->
  decodePreKeySignalProtocolMessage (encode_fields (pk_fields m ++ extra)) = Ok m.
Proof.
  intros Hwf Ht Hall Hbk Hik Hms Hkc Hoc Hextra Hlen.
  unfold decodePreKeySignalProtocolMessage, assertWireMessageSize, throw_when.
  replace (_ >? _) with false by lia. cbn [mbind result_bind].
  rewrite (decode_loop_ok _ _ pk_field_reader).
  2:{ apply Forall_app_2; [done|]. eapply Forall_impl; [exact Hextra|]. by intros f [? _]. }
  rewrite fold_fields_app, fold_pk_fields by done. cbn [mbind result_bind].
  rewrite (fold_fields_skip pk_upd).
  2:{ intros f a Hf. apply pk_upd_unknown. rewrite Forall_forall in Hextra. by apply Hextra. }
  destruct m as [ot bk ik ms ri sp kp kc op oc rt]. cbn [ecOneTimePreKeyId baseKey identityKey pk_message registrationId ecSignedPreKeyId kemLastResortPreKeyId
    kemLastResortCiphertext kemOneTimePreKeyId kemOneTimeCiphertext pk_recipientIdentityType] in *.
  assert (Hn : nonempty kc = kc /\ nonempty oc = oc) by (split; [by destruct kc as [[]|]|by destruct oc as [[]|]]).
  destruct Hn as [Hn1 Hn2]. cbn [mbind result_bind]. unfold pk_result, of_length.
  cbn [w_baseKey w_identityKey w_message w_registrationId w_signedPreKeyId w_recipientIdentityType
       w_kyberCiphertext w_kemOneTimeCiphertext w_oneTimePreKeyId w_kyberPreKeyId w_kemOneTimePreKeyId].
  rewrite Hbk, Hik, Hn1, Hn2. destruct ms as [|x ms]; [done|]. by destruct Ht as [-> | ->].
Qed.

(** PreKeySignalProtocolMessage round trip.  Every message that can be
    encoded, with keys of 33 and 67 bytes, a non-empty inner message and no
    empty optional ciphertext, decodes to itself: an absent key id stays
    absent and the key id 0 stays 0, also when unknown fields follow. *)
Theorem prekey_message_roundtrip m b extra :
  encodePreKeySignalProtocolMessage m = Ok b ->
  len (baseKey m) = 33 -> len (identityKey m) = 67 -> pk_message m <> [] ->
  kemLastResortCiphertext m <> Some [] -> kemOneTimeCiphertext m <> Some [] ->
  Forall (fun f => wf_field f /\ pk_known (fnum f) = false) extra ->
  len (b ++ encode_fields extra) <= MAX_SIGNAL_PROTOCOL_WIRE_MESSAGE_BYTES ->
  decodePreKeySignalProtocolMessage (b ++ encode_fields extra) = Ok m.
Proof.
  intros He Hbk Hik Hms Hkc Hoc Hextra Hlen. apply encodePreKey_fields in He as (-> & Hwf & Ht & Hall).
  rewrite <- encode_fields_app in *. by apply decode_pk_fields.
Qed.

Definition sample_prekey : PreKeySignalProtocolMessageFields := {|
  ecOneTimePreKeyId := Some 0; baseKey := replicate 33 5; identityKey := replicate 67 6; pk_message := [1];
  registrationId := 4294967295; ecSignedPreKeyId := 0; kemLastResortPreKeyId := None;
  kemLastResortCiphertext := None; kemOneTimePreKeyId := Some 8; kemOneTimeCiphertext := Some [4];
  pk_recipientIdentityType := 1 |}.

Definition sample_prekey_bytes : bytes :=
  match encodePreKeySignalProtocolMessage sample_prekey with Ok b => b | Throw _ => [] end.

Lemma prekey_message_roundtrip_witness :
  decodePreKeySignalProtocolMessage (sample_prekey_bytes ++ encode_fields []) = Ok sample_prekey.
Proof. apply prekey_message_roundtrip; try done; vm_compute; done. Defined.

(** ** The address binding of a SignalProtocolMessage

    Round trip of the authenticated sender and recipient addresses, and where
    it stops: the decoder drops a leading byte order mark. *)
#[local] Arguments varint : simpl never.

Lemma byte_at_nth pre l i : 0 <= i -> byte_at (pre ++ l) (len pre + i) = nthZ 0 l i.
Proof.
  intros Hi. unfold byte_at, nthZ. len_pos. replace (len pre + i <? 0) with false by lia.
  unfold len. rewrite app_nth2 by lia. f_equal. lia.
Qed.

Lemma readUint32BE_ok pre v rest d : encodeUint32BE v = Ok d ->
  len d = 4 /\ readUint32BE (pre ++ d ++ rest) (len pre) = Ok v.
Proof.
  unfold encodeUint32BE. case_if; [done|]. b2p. intros Hd%Ok_inj; subst d. split; [done|].
  unfold readUint32BE. cbn [app]. replace (_ >? _) with false by len_lia. f_equal.
  replace (len pre) with (len pre + 0) at 1 by lia. rewrite !byte_at_nth by lia. unfold nthZ.
  change (Z.to_nat 0) with 0%nat. change (Z.to_nat 1) with 1%nat. change (Z.to_nat 2) with 2%nat.
  change (Z.to_nat 3) with 3%nat. cbn [nth].
  pose proof (Z.div_mod v (2 ^ 8) ltac:(lia)) as E1. pose proof (Z.div_mod (v / 2 ^ 8) (2 ^ 8) ltac:(lia)) as E2.
  pose proof (Z.div_mod (v / 2 ^ 16) (2 ^ 8) ltac:(lia)) as E3. rewrite Z.div_div in E2, E3 by lia.
  change (2 ^ 8 * 2 ^ 8) with (2 ^ 16) in *. change (2 ^ 16 * 2 ^ 8) with (2 ^ 24) in *.
  assert (H24 : v / 2 ^ 24 < 256) by (apply Z.div_lt_upper_bound; lia).
  assert (H24' : 0 <= v / 2 ^ 24) by (apply Z.div_pos; lia).
  rewrite (Z.mod_small (v / 2 ^ 24)) by lia. change 256 with (2 ^ 8) in *. lia.
Qed.

(** A name the decoder gives back. *)
Definition plain_name (s : jsstring) : Prop := well_formed s /\ head s <> Some BOM.

Lemma decodeAddress_ok pre a rest enc : encodeAddress a = Ok enc -> plain_name (userId a) ->
  decodeAddress (pre ++ enc ++ rest) (len pre) = Ok (a, len pre + len enc).
Proof.
  unfold encodeAddress. case_if; [done|]. b2p. intros H [Hw Hbom].
  apply bind_Ok in H as (l & Hl & H). apply bind_Ok in H as (d & Hd & H). apply Ok_inj in H as <-.
  apply encodeVarint_inv in Hl as [Hn ->]. set (u := utf8Encode (userId a)) in *.
  cbn [concat]. rewrite app_nil_r, <- !app_assoc. unfold decodeAddress. rewrite decodeVarint_varint by done.
  cbn [mbind result_bind]. replace (len u =? 0) with false by lia.
  destruct (readUint32BE_ok (pre ++ varint 9 (len u) ++ u) (deviceId a) rest d Hd) as [Hd4 Hread].
  replace (_ >? _) with false by len_lia.
  assert (Hslice : slice (pre ++ varint 9 (len u) ++ u ++ d ++ rest) (len pre + len (varint 9 (len u)))
      (len pre + len (varint 9 (len u)) + len u) = u).
  { rewrite app_assoc, <- len_app. apply slice_app. }
  assert (Hdec : utf8DecodePortable false u = Ok (userId a)) by (by apply utf8_decode_encode).
  rewrite Hslice, Hdec. cbn [mbind result_bind].
  rewrite <- !app_assoc in Hread. rewrite !len_app in Hread. rewrite Z.add_assoc in Hread.
  rewrite Hread. cbn [mbind result_bind]. destruct a as [n dv]. cbn [userId deviceId]. do 2 f_equal.
  rewrite !len_app. lia.
Qed.

Lemma deserialize_binding s r b : serializeSignalProtocolMessageAddresses s r = Ok b -> plain_name (userId s) -> plain_name (userId r) ->
  deserializeSignalProtocolMessageAddresses b = Ok (s, r).
Proof.
  unfold serializeSignalProtocolMessageAddresses. intros H Hs Hr.
  apply bind_Ok in H as (es & Es & H). apply bind_Ok in H as (er & Er & H). apply Ok_inj in H as <-.
  unfold deserializeSignalProtocolMessageAddresses. cbn [concat]. rewrite app_nil_r.
  replace (_ =? 0) with false by len_lia.
  change (byte_at ([ADDRESS_BINDING_FORMAT_VERSION] ++ es ++ er) 0 =? ADDRESS_BINDING_FORMAT_VERSION) with true.
  cbn [negb]. change 1 with (len [ADDRESS_BINDING_FORMAT_VERSION]) at 1.
  rewrite (decodeAddress_ok [ADDRESS_BINDING_FORMAT_VERSION] s er es) by done. cbn [mbind result_bind].
  pose proof (decodeAddress_ok ([ADDRESS_BINDING_FORMAT_VERSION] ++ es) r [] er Er Hr) as Dr.
  rewrite app_nil_r, <- app_assoc, len_app in Dr. rewrite Dr. cbn [mbind result_bind].
  rewrite !len_app. rewrite Z.add_assoc, Z.eqb_refl. done.
Qed.

Lemma binding_equal b s r s' r' : deserializeSignalProtocolMessageAddresses b = Ok (s, r) ->
  signalProtocolMessageAddressesEqual b s' r' = Ok (bool_decide (s' = s /\ r' = r)).
Proof.
  intros D. unfold signalProtocolMessageAddressesEqual. rewrite D. cbn [mbind result_bind]. f_equal.
  destruct s as [n1 d1], r as [n2 d2], s' as [n1' d1'], r' as [n2' d2']. cbn [userId deviceId].
  apply eq_bool_prop_intro. rewrite bool_decide_spec, !andb_True, !bool_decide_spec, !Is_true_true, !Z.eqb_eq.
  naive_solver.
Qed.

(** Address binding.  The serialized binding of two addresses with plain
    names (no lone surrogate, no leading byte order mark) deserializes to
    exactly these addresses, and compares equal to two addresses only if they
    are the same: the binding is injective. *)
Theorem address_binding_roundtrip s r b :
  serializeSignalProtocolMessageAddresses s r = Ok b -> plain_name (userId s) -> plain_name (userId r) ->
  deserializeSignalProtocolMessageAddresses b = Ok (s, r) /\
  forall s' r', signalProtocolMessageAddressesEqual b s' r' = Ok (bool_decide (s' = s /\ r' = r)).
Proof.
  intros H Hs Hr. pose proof (deserialize_binding s r b H Hs Hr) as D. split; [done|]. intros s' r'. by apply binding_equal.
Qed.

Lemma ascii_plain (s : jsstring) : Forall (fun c => 0 <= c < 0x80) s -> plain_name s.
Proof.
  intros H. split.
  - exists s. split.
    + eapply Forall_impl; [exact H|]. unfold scalar. intros; cbn in *; lia.
    + induction H as [|c s Hc _ IH]; [done|]. cbn [map concat]. rewrite <- IH.
      unfold emit_units. by replace (c >? 0xffff) with false by lia.
  - destruct H as [|c s Hc _]; [done|]. cbn. unfold BOM. intros [= ->]. lia.
Qed.

Lemma address_binding_roundtrip_witness :
  deserializeSignalProtocolMessageAddresses [1; 1; 98; 0; 0; 0; 7; 1; 99; 255; 255; 255; 255] =
    Ok ({| userId := [98]; deviceId := 7 |}, {| userId := [99]; deviceId := 4294967295 |}) /\
  forall s' r', signalProtocolMessageAddressesEqual [1; 1; 98; 0; 0; 0; 7; 1; 99; 255; 255; 255; 255] s' r' =
    Ok (bool_decide (s' = {| userId := [98]; deviceId := 7 |} /\ r' = {| userId := [99]; deviceId := 4294967295 |})).
Proof.
  apply address_binding_roundtrip; [vm_compute; done|apply ascii_plain; repeat constructor; done..].
Defined.

(** A leading byte order mark is lost.  The serializer accepts the user id
    U+FEFF "b", but the binding it makes does not match that address, and
    it does match the different user id "b". *)
Theorem address_binding_drops_bom :
  exists b, serializeSignalProtocolMessageAddresses {| userId := [0xfeff; 98]; deviceId := 1 |} {| userId := [99]; deviceId := 1 |} = Ok b /\
    signalProtocolMessageAddressesEqual b {| userId := [0xfeff; 98]; deviceId := 1 |} {| userId := [99]; deviceId := 1 |} = Ok false /\
    signalProtocolMessageAddressesEqual b {| userId := [98]; deviceId := 1 |} {| userId := [99]; deviceId := 1 |} = Ok true.
Proof. eexists. split; [vm_compute; reflexivity|]. split; vm_compute; reflexivity. Qed.
