(* ===== verification/SenderKeyMessage.v ===== *)
(** * Sender-key messages and envelopes
    ([encoding/proto/sender-key-message.ts], [envelope.ts])

    The two group message codecs, and the framing of every message: version
    byte, protobuf bytes, and the trailing MAC or signature. *)
From S2P Require Import Prelude ProtoWire ProtoFields SignalMessage SignalMessageProofs.

#[local] Arguments varint : simpl never.

Definition requireDecoded {A} (value : option A) (field typeName : string) : result A :=
  required value (Error ("Malformed " +:+ typeName +:+ ": missing " +:+ field)).

(** ** SenderKeyMessage *)
Record SenderKeyMessageFields := {
  sk_distributionUuid : option bytes; sk_chainId : option Z; sk_iteration : Z; sk_ciphertext : bytes }.

Definition encodeSenderKeyMessage (msg : SenderKeyMessageFields) : result bytes :=
  f1 ← opt_field (encodeBytesField 1) (sk_distributionUuid msg);
  f2 ← opt_field (fun v => encodeUint32Field 2 (Int v)) (sk_chainId msg);
  f3 ← encodeUint32Field 3 (Int (sk_iteration msg));
  f4 ← encodeBytesField 4 (sk_ciphertext msg);
  Ok (concatFields [f1; f2; f3; f4]).

Record sk_locals := {
  sl_uuid : option bytes; sl_chainId : option Z; sl_iteration : option Z; sl_ciphertext : option bytes }.

Definition sk_field (fieldNumber : Z) (a : sk_locals) : M ProtoReader sk_locals :=
  let '(Build_sk_locals u c i t) := a in
  if fieldNumber =? 1 then assign (fun v _ => Build_sk_locals (Some v) c i t) a readBytes
  else if fieldNumber =? 2 then assign (fun v _ => Build_sk_locals u (Some v) i t) a readUint32
  else if fieldNumber =? 3 then assign (fun v _ => Build_sk_locals u c (Some v) t) a readUint32
  else if fieldNumber =? 4 then assign (fun v _ => Build_sk_locals u c i (Some v)) a readBytes
  else assign (fun _ a => a) a skipField.

Definition decodeSenderKeyMessage (b : bytes) : result SenderKeyMessageFields :=
  a ← (read_fields (length b) sk_field (Build_sk_locals None None None None) (new_ProtoReader b)).2;
  iteration ← requireDecoded (sl_iteration a) "iteration" "SenderKeyMessage";
  ciphertext ← requireDecoded (sl_ciphertext a) "ciphertext" "SenderKeyMessage";
  Ok {| sk_distributionUuid := nonempty (sl_uuid a); sk_chainId := sl_chainId a;
        sk_iteration := iteration; sk_ciphertext := ciphertext |}.

(** ** SenderKeyDistributionMessage *)
Record SenderKeyDistributionMessageFields := {
  sd_distributionUuid : option bytes; sd_chainId : option Z; sd_iteration : Z;
  sd_chainKey : bytes; sd_signingKey : bytes }.

Definition encodeSenderKeyDistributionMessage (msg : SenderKeyDistributionMessageFields) : result bytes :=
  f1 ← opt_field (encodeBytesField 1) (sd_distributionUuid msg);
  f2 ← opt_field (fun v => encodeUint32Field 2 (Int v)) (sd_chainId msg);
  f3 ← encodeUint32Field 3 (Int (sd_iteration msg));
  f4 ← encodeBytesField 4 (sd_chainKey msg);
  f5 ← encodeBytesField 5 (sd_signingKey msg);
  Ok (concatFields [f1; f2; f3; f4; f5]).

Record sd_locals := {
  dl_uuid : option bytes; dl_chainId : option Z; dl_iteration : option Z;
  dl_chainKey : option bytes; dl_signingKey : option bytes }.

Definition sd_field (fieldNumber : Z) (a : sd_locals) : M ProtoReader sd_locals :=
  let '(Build_sd_locals u c i k s) := a in
  if fieldNumber =? 1 then assign (fun v _ => Build_sd_locals (Some v) c i k s) a readBytes
  else if fieldNumber =? 2 then assign (fun v _ => Build_sd_locals u (Some v) i k s) a readUint32
  else if fieldNumber =? 3 then assign (fun v _ => Build_sd_locals u c (Some v) k s) a readUint32
  else if fieldNumber =? 4 then assign (fun v _ => Build_sd_locals u c i (Some v) s) a readBytes
  else if fieldNumber =? 5 then assign (fun v _ => Build_sd_locals u c i k (Some v)) a readBytes
  else assign (fun _ a => a) a skipField.

Definition decodeSenderKeyDistributionMessage (b : bytes) : result SenderKeyDistributionMessageFields :=
  a ← (read_fields (length b) sd_field (Build_sd_locals None None None None None) (new_ProtoReader b)).2;
  iteration ← requireDecoded (dl_iteration a) "iteration" "SenderKeyDistributionMessage";
  chainKey ← requireDecoded (dl_chainKey a) "chainKey" "SenderKeyDistributionMessage";
  signingKey ← requireDecoded (dl_signingKey a) "signingKey" "SenderKeyDistributionMessage";
  Ok {| sd_distributionUuid := nonempty (dl_uuid a); sd_chainId := dl_chainId a;
        sd_iteration := iteration; sd_chainKey := chainKey; sd_signingKey := signingKey |}.

(** ** Framing *)
Definition CIPHERTEXT_MESSAGE_CURRENT_VERSION : Z := 4.
Definition MAC_LENGTH : Z := 8.
Definition SENDERKEY_MESSAGE_CURRENT_VERSION : Z := 4.
Definition SIGNATURE_LEN : Z := 64.

Definition makeVersionByte (version : Z) : Z :=
  js_and (js_or (js_shl version 4) CIPHERTEXT_MESSAGE_CURRENT_VERSION) 0xff.

Definition getMessageVersion (b : bytes) : result Z :=
  if len b =? 0 then Throw (Error "Cannot read version from empty message")
  else Ok (Z.shiftr (byte_at b 0) 4).

Definition frameSignalProtocolMessage (protobufBytes macBytes : bytes) : result bytes :=
  if negb (len macBytes =? MAC_LENGTH) then Throw (Error "MAC must be exactly 8 bytes")
  else Ok (makeVersionByte CIPHERTEXT_MESSAGE_CURRENT_VERSION :: protobufBytes ++ macBytes).

Record envelope := { env_version : Z; env_protobufBytes : bytes; env_mac : bytes }.

Definition parseSignalProtocolMessageEnvelope (b : bytes) : result envelope :=
  let minLength := 1 + MAC_LENGTH in
  if len b <? minLength then Throw (Error "SignalProtocolMessage too short")
  else Ok {| env_version := Z.shiftr (byte_at b 0) 4;
             env_protobufBytes := slice b 1 (len b - MAC_LENGTH);
             env_mac := slice b (len b - MAC_LENGTH) (len b) |}.

Definition framePreKeySignalProtocolMessage (protobufBytes : bytes) : bytes :=
  makeVersionByte CIPHERTEXT_MESSAGE_CURRENT_VERSION :: protobufBytes.

Definition parsePreKeySignalProtocolMessageEnvelope (b : bytes) : result (Z * bytes) :=
  if len b <? 1 then Throw (Error "PreKeySignalProtocolMessage too short")
  else Ok (Z.shiftr (byte_at b 0) 4, slice b 1 (len b)).

Definition sender_key_version_byte : Z :=
  js_or (js_shl SENDERKEY_MESSAGE_CURRENT_VERSION 4) SENDERKEY_MESSAGE_CURRENT_VERSION.

Definition frameSenderKeyMessage (protobufBytes signature : bytes) : result bytes :=
  if negb (len signature =? SIGNATURE_LEN) then Throw (Error "Expected 64-byte signature")
  else Ok (u8 sender_key_version_byte :: protobufBytes ++ signature).

Definition parseSenderKeyMessage (b : bytes) : result envelope :=
  if len b <? 1 + SIGNATURE_LEN + 1 then Throw (Error "SenderKeyMessage too short")
  else if negb (byte_at b 0 =? sender_key_version_byte) then Throw (Error "Unsupported SenderKeyMessage version")
  else Ok {| env_version := Z.shiftr (byte_at b 0) 4;
             env_protobufBytes := slice b 1 (len b - SIGNATURE_LEN);
             env_mac := slice b (len b - SIGNATURE_LEN) (len b) |}.

(** ** Proofs *)
Definition sk_upd (n : Z) (f : wfield) (a : sk_locals) : result sk_locals :=
  let '(Build_sk_locals u c i t) := a in
  if n =? 1 then v ← bytes_of f; Ok (Build_sk_locals (Some v) c i t)
  else if n =? 2 then v ← uint32_of f; Ok (Build_sk_locals u (Some v) i t)
  else if n =? 3 then v ← uint32_of f; Ok (Build_sk_locals u c (Some v) t)
  else if n =? 4 then v ← bytes_of f; Ok (Build_sk_locals u c i (Some v))
  else Ok a.

Lemma sk_field_reader n a : field_reader (sk_field n a) (fun f => sk_upd n f a).
Proof. destruct a. unfold sk_field, sk_upd, assign. field_cases. Qed.

Definition sd_upd (n : Z) (f : wfield) (a : sd_locals) : result sd_locals :=
  let '(Build_sd_locals u c i k s) := a in
  if n =? 1 then v ← bytes_of f; Ok (Build_sd_locals (Some v) c i k s)
  else if n =? 2 then v ← uint32_of f; Ok (Build_sd_locals u (Some v) i k s)
  else if n =? 3 then v ← uint32_of f; Ok (Build_sd_locals u c (Some v) k s)
  else if n =? 4 then v ← bytes_of f; Ok (Build_sd_locals u c i (Some v) s)
  else if n =? 5 then v ← bytes_of f; Ok (Build_sd_locals u c i k (Some v))
  else Ok a.

Lemma sd_field_reader n a : field_reader (sd_field n a) (fun f => sd_upd n f a).
Proof. destruct a. unfold sd_field, sd_upd, assign. field_cases. Qed.

Lemma sender_key_roundtrip m b : encodeSenderKeyMessage m = Ok b -> sk_distributionUuid m <> Some [] ->
  decodeSenderKeyMessage b = Ok m.
Proof.
  destruct m as [u c i t]. unfold encodeSenderKeyMessage. cbn [sk_distributionUuid sk_chainId sk_iteration sk_ciphertext].
  intros H Hu. encode_inv H. apply Ok_inj in H as <-.
  set (fs := opt_list (WBytes 1) u ++ opt_list (WVarint 2) c ++ [WVarint 3 i; WBytes 4 t]).
  assert (E : concatFields [encode_fields (opt_list (WBytes 1) u); encode_fields (opt_list (WVarint 2) c);
      encode_field (WVarint 3 i); encode_field (WBytes 4 t)] = encode_fields fs).
  { unfold fs, encode_fields, concatFields. rewrite !map_app, !concat_app. cbn [map concat].
    by rewrite !app_nil_r. }
  unfold decodeSenderKeyMessage. rewrite E, (decode_loop_ok _ _ sk_field_reader).
  2:{ unfold fs. wf_fields. }
  assert (Hmax : i <= UINT32_MAX) by (unfold UINT32_MAX; lia).
  assert (Hn : nonempty u = u) by (by destruct u as [[]|]). unfold fs.
  destruct u as [u|], c as [c|]; cbn [opt_list app from_option] in *;
    try (assert (c <= UINT32_MAX) by (unfold UINT32_MAX; lia)); repeat (fold_step sk_upd); cbn [mbind result_bind fold_fields foldM_result];
    unfold requireDecoded; cbn [required sl_iteration sl_ciphertext sl_uuid sl_chainId]; by rewrite ?Hn.
Qed.

Lemma sender_key_distribution_roundtrip m b : encodeSenderKeyDistributionMessage m = Ok b ->
  sd_distributionUuid m <> Some [] -> decodeSenderKeyDistributionMessage b = Ok m.
Proof.
  destruct m as [u c i k s]. unfold encodeSenderKeyDistributionMessage.
  cbn [sd_distributionUuid sd_chainId sd_iteration sd_chainKey sd_signingKey].
  intros H Hu. encode_inv H. apply Ok_inj in H as <-.
  set (fs := opt_list (WBytes 1) u ++ opt_list (WVarint 2) c ++ [WVarint 3 i; WBytes 4 k; WBytes 5 s]).
  assert (E : concatFields [encode_fields (opt_list (WBytes 1) u); encode_fields (opt_list (WVarint 2) c);
      encode_field (WVarint 3 i); encode_field (WBytes 4 k); encode_field (WBytes 5 s)] = encode_fields fs).
  { unfold fs, encode_fields, concatFields. rewrite !map_app, !concat_app. cbn [map concat].
    by rewrite !app_nil_r. }
  unfold decodeSenderKeyDistributionMessage. rewrite E, (decode_loop_ok _ _ sd_field_reader).
  2:{ unfold fs. wf_fields. }
  assert (Hmax : i <= UINT32_MAX) by (unfold UINT32_MAX; lia).
  assert (Hn : nonempty u = u) by (by destruct u as [[]|]). unfold fs.
  destruct u as [u|], c as [c|]; cbn [opt_list app from_option] in *;
    try (assert (c <= UINT32_MAX) by (unfold UINT32_MAX; lia)); repeat (fold_step sd_upd); cbn [mbind result_bind fold_fields foldM_result];
    unfold requireDecoded; cbn [required dl_iteration dl_chainKey dl_signingKey dl_uuid dl_chainId]; by rewrite ?Hn.
Qed.

Lemma slice_middle (x : Z) p m n : len m = n -> slice (x :: p ++ m) 1 (len (x :: p ++ m) - n) = p.
Proof.
  intros <-. replace (len (x :: p ++ m) - len m) with (len [x] + len p) by len_lia. apply (slice_app [x] p m).
Qed.

Lemma slice_last (x : Z) p m n : len m = n -> slice (x :: p ++ m) (len (x :: p ++ m) - n) (len (x :: p ++ m)) = m.
Proof.
  intros <-. pose proof (slice_app ([x] ++ p) m []) as E. rewrite app_nil_r in E.
  replace (len (x :: p ++ m) - len m) with (len ([x] ++ p)) by len_lia.
  replace (len (x :: p ++ m)) with (len ([x] ++ p) + len m) by len_lia. apply E.
Qed.

Lemma sender_key_nonempty m b : encodeSenderKeyMessage m = Ok b -> 1 <= len b.
Proof.
  intros Hm. unfold encodeSenderKeyMessage in Hm. encode_inv Hm. apply Ok_inj in Hm as <-. unfold concatFields. cbn [concat].
  pose proof (encode_field_length (WBytes 4 (sk_ciphertext m))). unfold len. rewrite !length_app. lia.
Qed.

Lemma sender_key_frame b sig : 1 <= len b -> len sig = SIGNATURE_LEN -> exists w, frameSenderKeyMessage b sig = Ok w /\
  parseSenderKeyMessage w = Ok {| env_version := 4; env_protobufBytes := b; env_mac := sig |}.
Proof.
  intros Hb Hs. unfold frameSenderKeyMessage. rewrite Hs. eexists. split; [done|]. unfold parseSenderKeyMessage.
  unfold SIGNATURE_LEN in *. replace (_ <? _) with false by len_lia.
  change (byte_at (u8 sender_key_version_byte :: b ++ sig) 0) with 0x44.
  change (0x44 =? sender_key_version_byte) with true. cbn [negb].
  by rewrite slice_middle, slice_last.
Qed.

Lemma signal_envelope b mac : len mac = MAC_LENGTH -> exists w, frameSignalProtocolMessage b mac = Ok w /\
  w = makeVersionByte CIPHERTEXT_MESSAGE_CURRENT_VERSION :: b ++ mac /\ getMessageVersion w = Ok 4 /\
  parseSignalProtocolMessageEnvelope w = Ok {| env_version := 4; env_protobufBytes := b; env_mac := mac |}.
Proof.
  intros Hmac. unfold frameSignalProtocolMessage. rewrite Hmac. eexists. split; [done|]. split; [done|]. split.
  { unfold getMessageVersion. by replace (_ =? 0) with false by len_lia. }
  unfold parseSignalProtocolMessageEnvelope, MAC_LENGTH in *. replace (_ <? _) with false by len_lia.
  by rewrite slice_middle, slice_last.
Qed.

Lemma prekey_envelope b : parsePreKeySignalProtocolMessageEnvelope (framePreKeySignalProtocolMessage b) = Ok (4, b).
Proof.
  unfold parsePreKeySignalProtocolMessageEnvelope, framePreKeySignalProtocolMessage.
  replace (_ <? _) with false by len_lia. do 2 f_equal.
  pose proof (slice_middle (makeVersionByte CIPHERTEXT_MESSAGE_CURRENT_VERSION) b [] 0 eq_refl) as E.
  rewrite app_nil_r, Z.sub_0_r in E. by rewrite E.
Qed.

(** Group messages.  A framed SenderKeyMessage or SignalProtocolMessage
    parses back into its protobuf bytes and its trailing signature or MAC, and
    the protobuf bytes of both group messages decode to the message encoded. *)
Theorem sender_key_wire_roundtrip m b d db sig mac :
  encodeSenderKeyMessage m = Ok b -> sk_distributionUuid m <> Some [] ->
  encodeSenderKeyDistributionMessage d = Ok db -> sd_distributionUuid d <> Some [] ->
  len sig = SIGNATURE_LEN -> len mac = MAC_LENGTH ->
  (exists w, frameSenderKeyMessage b sig = Ok w /\
     parseSenderKeyMessage w = Ok {| env_version := 4; env_protobufBytes := b; env_mac := sig |}) /\
  (exists w, frameSignalProtocolMessage b mac = Ok w /\ getMessageVersion w = Ok 4 /\
     parseSignalProtocolMessageEnvelope w = Ok {| env_version := 4; env_protobufBytes := b; env_mac := mac |}) /\
  parsePreKeySignalProtocolMessageEnvelope (framePreKeySignalProtocolMessage b) = Ok (4, b) /\
  decodeSenderKeyMessage b = Ok m /\ decodeSenderKeyDistributionMessage db = Ok d.
Proof.
  intros Hm Hu Hd Hud Hs Hmac.
  pose proof (sender_key_nonempty m b Hm) as Hb.
  split; [|split; [|split; [|split]]].
  - by apply sender_key_frame.
  - destruct (signal_envelope b mac Hmac) as (w & Hw & _ & Hv & Hp). by exists w.
  - apply prekey_envelope.
  - by apply sender_key_roundtrip.
  - by apply sender_key_distribution_roundtrip.
Qed.

Lemma sender_key_wire_roundtrip_witness :
  decodeSenderKeyMessage [24; 7; 34; 1; 9] =
    Ok {| sk_distributionUuid := None; sk_chainId := None; sk_iteration := 7; sk_ciphertext := [9] |} /\
  decodeSenderKeyDistributionMessage [10; 1; 5; 24; 0; 34; 0; 42; 0] =
    Ok {| sd_distributionUuid := Some [5]; sd_chainId := None; sd_iteration := 0; sd_chainKey := []; sd_signingKey := [] |}.
Proof.
  eapply (sender_key_wire_roundtrip _ _ _ _ (replicate 64 0) (replicate 8 0)); [vm_compute; done|done|vm_compute; done|done|done|done].
Defined.
