(* ===== verification/SenderKeyStore.v ===== *)
(** * Stored sender keys ([local/store/memory/adapter.ts],
    [local/store/sender-key-handoff-table.ts])

    The sender-key part of the in-memory store: the current state and the
    record of every group member device, the skipped message keys and the
    handoff rows.  A stored value is a copy; a Base64 string is the bytes it
    encodes ([Base64]).  The failure injection of the tests and the receive
    records, which a receive commits in the same write, are left out. *)
From S2P Require Import Prelude JsMap Utf8.

(** ** Data *)
Record SenderKeyState := {
  senderKeyId : jsstring; senderKeyVersion : string; chainId : Z; generation : Z; chainKey : bytes;
  signatureKey : bytes; publicSignatureKey : bytes; chainIndex : Z;
  createdAt : option Z (* [None]: not a finite number *) }.

Record SkippedSenderMessageKey := { sm_cipherKey : bytes; sm_iv : bytes }.

Record SenderKeyHandoffRecord := {
  h_groupId : jsstring; h_senderKeyId : jsstring; h_generation : Z; h_recipientUserId : jsstring;
  h_recipientDeviceId : Z; h_recipientRegistrationId : Z; h_acceptedAt : Z }.

#[export] Instance SenderKeyState_eq_dec : EqDecision SenderKeyState.
Proof. solve_decision. Defined.
#[export] Instance SkippedSenderMessageKey_eq_dec : EqDecision SkippedSenderMessageKey.
Proof. solve_decision. Defined.

(** A group, a user and a device. *)
Abbreviation Member := (jsstring * jsstring * Z)%type.
(** [JSON.stringify([groupId, senderId, senderDeviceId, senderKeyId, chainIndex])] *)
Abbreviation SkippedId := (Member * jsstring * Z)%type.
(** [rowKey]: sender key ID, generation, user, device and registration ID. *)
Abbreviation RowKey := (jsstring * Z * jsstring * Z * Z)%type.

Record SenderKeyStore := {
  senderKeys : Map jsstring (Map jsstring (Map Z SenderKeyState));
  senderKeyRecords : Map Member (list SenderKeyState);
  skippedSenderKeys : Map SkippedId SkippedSenderMessageKey;
  senderKeyHandoffs : Map jsstring (Map RowKey SenderKeyHandoffRecord) }.

Definition with_senderKeys m (s : SenderKeyStore) : SenderKeyStore := {|
  senderKeys := m; senderKeyRecords := senderKeyRecords s; skippedSenderKeys := skippedSenderKeys s; senderKeyHandoffs := senderKeyHandoffs s |}.
Definition with_records m (s : SenderKeyStore) : SenderKeyStore := {|
  senderKeys := senderKeys s; senderKeyRecords := m; skippedSenderKeys := skippedSenderKeys s; senderKeyHandoffs := senderKeyHandoffs s |}.
Definition with_skippedKeys m (s : SenderKeyStore) : SenderKeyStore := {|
  senderKeys := senderKeys s; senderKeyRecords := senderKeyRecords s; skippedSenderKeys := m; senderKeyHandoffs := senderKeyHandoffs s |}.
Definition with_handoffs m (s : SenderKeyStore) : SenderKeyStore := {|
  senderKeys := senderKeys s; senderKeyRecords := senderKeyRecords s; skippedSenderKeys := skippedSenderKeys s; senderKeyHandoffs := m |}.

(** ** The handoff table *)
Section Handoffs.
Abbreviation Table := (Map jsstring (Map RowKey SenderKeyHandoffRecord)).

Definition rowKey (r : SenderKeyHandoffRecord) : RowKey :=
  (h_senderKeyId r, h_generation r, h_recipientUserId r, h_recipientDeviceId r, h_recipientRegistrationId r).

Definition isDevice (device : jsstring * Z) (r : SenderKeyHandoffRecord) : bool :=
  bool_decide (h_recipientUserId r = device.1) && (h_recipientDeviceId r =? device.2).

Definition handoff_record (r : SenderKeyHandoffRecord) (t : Table) : Table :=
  Map_set (h_groupId r) (Map_set (rowKey r) r (default [] (Map_get (h_groupId r) t))) t.

Definition handoff_list (groupId : jsstring) (gen : Z) (t : Table) : list SenderKeyHandoffRecord :=
  filter (fun r => h_generation r = gen) (map snd (default [] (Map_get groupId t))).

Definition handoff_groupIds (t : Table) : list jsstring := map fst t.

Definition deleteWhere (groupId : jsstring) (predicate : SenderKeyHandoffRecord -> bool) (t : Table) : Table * Z :=
  match Map_get groupId t with
  | None => (t, 0)
  | Some rows =>
      let kept := filter (fun e => predicate e.2 = false) rows in
      ((if bool_decide (kept = []) then Map_delete groupId t else Map_set groupId kept t), len rows - len kept)
  end.

Definition deleteDeviceInGroup (groupId : jsstring) (device : jsstring * Z) (t : Table) : Table * bool :=
  let r := deleteWhere groupId (isDevice device) t in (r.1, r.2 >? 0).

Definition handoff_deleteDevice (device : jsstring * Z) (t : Table) : Table :=
  foldl (fun t g => (deleteWhere g (isDevice device) t).1) t (handoff_groupIds t).

Definition deleteAccount (user : jsstring) (t : Table) : Table * bool :=
  let r := foldl (fun td g => let r := deleteWhere g (fun r => bool_decide (h_recipientUserId r = user)) td.1 in (r.1, td.2 + r.2))
             (t, 0) (handoff_groupIds t) in (r.1, r.2 >? 0).

Definition handoff_deleteGroup (groupId : jsstring) (t : Table) : Table := Map_delete groupId t.

Definition handoff_retain (groupId : jsstring) (keyId : option jsstring) (t : Table) : Table * Z :=
  deleteWhere groupId (fun r => bool_decide (Some (h_senderKeyId r) <> keyId)) t.
End Handoffs.

(** ** [Array.prototype.sort] with a numeric comparator (it is stable) *)
Section Sort.
Context {A : Type} (f : A -> Z).

Fixpoint insert_sorted (x : A) (l : list A) : list A :=
  match l with
  | [] => [x]
  | y :: l => if f x <=? f y then x :: y :: l else y :: insert_sorted x l
  end.
Definition sort_by (l : list A) : list A := foldr insert_sorted [] l.

Lemma insert_sorted_perm x l : insert_sorted x l ≡ₚ x :: l.
Proof. induction l as [|y l IH]; [done|]. cbn. case_if; [done|]. rewrite IH. constructor. Qed.

Lemma sort_by_perm l : sort_by l ≡ₚ l.
Proof. induction l as [|x l IH]; [done|]. cbn. by rewrite insert_sorted_perm, IH. Qed.
End Sort.

(** ** The current states *)
Definition set_current (m : Member) (state : SenderKeyState) (t : Map jsstring (Map jsstring (Map Z SenderKeyState))) :=
  let '(groupId, userId, deviceId) := m in
  let groupMap := default [] (Map_get groupId t) in
  let userMap := default [] (Map_get userId groupMap) in
  Map_set groupId (Map_set userId (Map_set deviceId state userMap) groupMap) t.

Definition storeSenderKey (m : Member) (state : SenderKeyState) (s : SenderKeyStore) : SenderKeyStore :=
  with_senderKeys (set_current m state (senderKeys s)) s.

Definition getSenderKey (m : Member) (s : SenderKeyStore) : option SenderKeyState :=
  let '(groupId, userId, deviceId) := m in
  groupMap ← Map_get groupId (senderKeys s); userMap ← Map_get userId groupMap; Map_get deviceId userMap.

Definition getSenderKeyRecord (m : Member) (s : SenderKeyStore) : option (list SenderKeyState) :=
  match Map_get m (senderKeyRecords s) with
  | Some record => Some record
  | None => (fun current => [current]) <$> getSenderKey m s
  end.

(** [options?.deleteSenderKeyHandoffs] *)
Definition delete_handoffs_when (b : bool) (groupId : jsstring) (s : SenderKeyStore) : SenderKeyStore :=
  if b then with_handoffs (handoff_deleteGroup groupId (senderKeyHandoffs s)) s else s.

Definition deleteSenderKey (m : Member) (deleteSenderKeyHandoffs : bool) (s : SenderKeyStore) : SenderKeyStore :=
  let '(groupId, userId, deviceId) := m in
  let s := delete_handoffs_when deleteSenderKeyHandoffs groupId s in
  match Map_get groupId (senderKeys s) with
  | None => s
  | Some groupMap =>
      match Map_get userId groupMap with
      | None => s
      | Some userMap =>
          let userMap := Map_delete deviceId userMap in
          let groupMap := if bool_decide (userMap = []) then Map_delete userId groupMap else Map_set userId userMap groupMap in
          let t := if bool_decide (groupMap = []) then Map_delete groupId (senderKeys s) else Map_set groupId groupMap (senderKeys s) in
          with_records (Map_delete m (senderKeyRecords s)) (with_senderKeys t s)
      end
  end.

(** The loop over the groups of the device. *)
Fixpoint find_group (keyId userId : jsstring) (deviceId : Z) (records : Map Member (list SenderKeyState))
    (t : Map jsstring (Map jsstring (Map Z SenderKeyState))) : option jsstring :=
  match t with
  | [] => None
  | (groupId, groupMap) :: t =>
      match (Map_get userId groupMap ≫= Map_get deviceId) with
      | None => find_group keyId userId deviceId records t
      | Some state =>
          if bool_decide (senderKeyId state = keyId) then Some groupId
          else if existsb (fun previous => bool_decide (senderKeyId previous = keyId)) (default [] (Map_get (groupId, userId, deviceId) records))
          then Some groupId
          else find_group keyId userId deviceId records t
      end
  end.

Definition resolveGroupForSenderKeyId (keyId userId : jsstring) (deviceId : Z) (s : SenderKeyStore) : option jsstring :=
  if bool_decide (keyId = []) then None else find_group keyId userId deviceId (senderKeyRecords s) (senderKeys s).

Definition getAllSenderKeysForGroup (groupId : jsstring) (s : SenderKeyStore) : list SenderKeyState :=
  concat (map (fun e => map snd e.2) (default [] (Map_get groupId (senderKeys s)))).

Definition deleteAllSenderKeysForGroup (groupId : jsstring) (s : SenderKeyStore) : SenderKeyStore * Z :=
  let s := with_handoffs (handoff_deleteGroup groupId (senderKeyHandoffs s)) s in
  let s := with_skippedKeys (filter (fun e : SkippedId * _ => e.1.1.1.1.1 <> groupId) (skippedSenderKeys s)) s in
  match Map_get groupId (senderKeys s) with
  | None => (s, 0)
  | Some groupMap =>
      let devices : list Member := concat (map (fun e => map (fun d => (groupId, e.1, d.1)) e.2) groupMap) in
      let records := foldl (fun r m => Map_delete m r) (senderKeyRecords s) devices in
      (with_senderKeys (Map_delete groupId (senderKeys s)) (with_records records s), len devices)
  end.

(** ** Skipped keys *)
Definition getSkippedSenderKey (m : Member) (keyId : jsstring) (index : Z) (s : SenderKeyStore) : option SkippedSenderMessageKey :=
  Map_get (m, keyId, index) (skippedSenderKeys s).
Definition storeSkippedSenderKey (m : Member) (keyId : jsstring) (index : Z) (k : SkippedSenderMessageKey) (s : SenderKeyStore) : SenderKeyStore :=
  with_skippedKeys (Map_set (m, keyId, index) k (skippedSenderKeys s)) s.
Definition deleteSkippedSenderKey (m : Member) (keyId : jsstring) (index : Z) (s : SenderKeyStore) : SenderKeyStore :=
  with_skippedKeys (Map_delete (m, keyId, index) (skippedSenderKeys s)) s.

(** The ids of a member, which are those that start with its prefix. *)
Definition skipped_of (m : Member) (t : Map SkippedId SkippedSenderMessageKey) : list SkippedId := filter (fun id => id.1.1 = m) t.*1.

Definition countSkippedSenderKeys (m : Member) (s : SenderKeyStore) : Z := len (skipped_of m (skippedSenderKeys s)).

(** [l.slice(0, count)]: a negative count is taken from the end. *)
Definition slice_to {A} (count : Z) (l : list A) : list A := take (Z.to_nat (if count <? 0 then len l + count else count)) l.

(** The ids sorted by chain index, the first of them deleted. *)
Definition delete_oldest (m : Member) (count : Z) (t : Map SkippedId SkippedSenderMessageKey) : Map SkippedId SkippedSenderMessageKey :=
  foldl (fun t id => Map_delete id t) t (slice_to count (sort_by snd (skipped_of m t))).

Definition deleteOldestSkippedSenderKeys (m : Member) (count : Z) (s : SenderKeyStore) : SenderKeyStore * Z :=
  (with_skippedKeys (delete_oldest m count (skippedSenderKeys s)) s,
   len (slice_to count (sort_by snd (skipped_of m (skippedSenderKeys s))))).

(** ** The receive commit *)
Record StagedKey := { st_senderKeyId : jsstring; st_chainIndex : Z; st_messageKey : SkippedSenderMessageKey }.

Record SenderKeyReceiveCommit := {
  consumedSkippedKey : option (jsstring * Z);
  rc_skippedKeys : option (Z * list StagedKey) (* [maxSkippedKeys], [keys] *) }.

(** One addition, after the eviction that makes room for it. *)
Definition add_skipped (m : Member) (maxSkippedKeys : Z) (t : Map SkippedId SkippedSenderMessageKey) (k : StagedKey) :=
  let count := len (skipped_of m t) - Z.max 0 (maxSkippedKeys - 1) in
  let t := if count >? 0 then delete_oldest m count t else t in
  Map_set (m, st_senderKeyId k, st_chainIndex k) (st_messageKey k) t.

Definition commit_skipped (m : Member) (receive : option SenderKeyReceiveCommit) (t : Map SkippedId SkippedSenderMessageKey) :=
  match receive with
  | None => t
  | Some r =>
      let t := match rc_skippedKeys r with Some (cap, keys) => foldl (add_skipped m cap) t keys | None => t end in
      match consumedSkippedKey r with Some (keyId, index) => Map_delete (m, keyId, index) t | None => t end
  end.

Definition storeSenderKeyRecord (m : Member) (states : list SenderKeyState) (receive : option SenderKeyReceiveCommit)
    (deleteSenderKeyHandoffs : bool) (s : SenderKeyStore) : SenderKeyStore :=
  match states with
  | [] => s
  | current :: _ =>
      let skipped := commit_skipped m receive (skippedSenderKeys s) in
      delete_handoffs_when deleteSenderKeyHandoffs m.1.1
        (with_skippedKeys skipped (with_records (Map_set m states (senderKeyRecords s)) (storeSenderKey m current s)))
  end.
