(* ===== verification/ProtoProps.v ===== *)
(** * Properties of the wire primitives *)
From S2P Require Import Prelude ProtoWire ProtoFields Utf8 SignalMessage SignalMessageProofs.

#[local] Arguments varint : simpl never.

Lemma encodeVarint64_inv v b : encodeVarint64 v = Ok b -> 0 <= v < 2 ^ 64 /\ b = varint 9 v.
Proof.
  intros H. assert (Hv : 0 <= v < 2 ^ 64).
  { revert H. unfold encodeVarint64, UINT64_MAX. case_if; [done|]. case_if; [done|]. b2p. lia. }
  split; [done|]. rewrite encodeVarint64_ok in H by done. by apply Ok_inj in H.
Qed.

(** 64-bit varints are a bijection.  Decoding inverts encoding at every
    offset, and whatever decodes re-encodes to the very bytes consumed: no two
    byte strings stand for the same value. *)
Theorem varint64_bijection :
  (forall pre rest v b, encodeVarint64 v = Ok b -> decodeVarint64 (pre ++ b ++ rest) (len pre) = Ok (v, len b)) /\
  (forall b o v n, is_bytes b -> 0 <= o -> decodeVarint64 b o = Ok (v, n) ->
     1 <= n <= MAX_VARINT64_BYTES /\ o + n <= len b /\ encodeVarint64 v = Ok (slice b o (o + n))).
Proof.
  split.
  - intros pre rest v b H. apply encodeVarint64_inv in H as [Hv ->]. by apply decode_varint9.
  - intros b o v n Hb Ho H. unfold decodeVarint64 in H.
    change (decodeVarint64_loop 10 ?b ?o 0 0 0) with (decodeVarint64_loop 10 b o 0 (7 * 0) 0) in H.
    apply decode_varint_inv in H as (v' & Hv & _ & Hmax & -> & -> & Hn & Ht); try done; try lia.
    change (2 ^ (7 * 0)) with 1 in *. rewrite Z.add_0_r, ?Z.add_0_l, Z.mul_1_r in *.
    pose proof (varint_length 9 v') as Hl. unfold MAX_VARINT64_BYTES.
    split; [unfold len; lia|]. split; [lia|]. rewrite encodeVarint64_ok by lia. f_equal.
    unfold slice. replace (o + len (varint 9 v') - o) with (len (varint 9 v')) by lia. unfold len. by rewrite Nat2Z.id, Ht.
Qed.

(** uint32 varints.  [encodeVarint] refuses exactly the numbers that are
    not integers of the uint32 range (NaN, fractions and infinities included);
    on the others it agrees with [encodeVarint64] and [decodeVarint] inverts
    it. *)
Theorem encodeVarint_uint32 n :
  match n with
  | Int v => if decide (0 <= v < 2 ^ 32)
             then exists b, encodeVarint n = Ok b /\ encodeVarint64 v = Ok b /\ (1 <= length b <= 5)%nat /\
               forall pre rest, decodeVarint (pre ++ b ++ rest) (len pre) = Ok (v, len b)
             else is_ok (encodeVarint n) = false
  | _ => is_ok (encodeVarint n) = false
  end.
Proof.
  destruct n as [v|z| |neg].
  - destruct (decide _) as [Hv|Hv].
    + exists (varint 9 v). split; [by apply encodeVarint_ok|]. split; [apply encodeVarint64_ok; lia|].
      split; [rewrite <- (varint_fuel 4 9) by (cbn; lia); apply varint_length|].
      intros. by apply decodeVarint_varint.
    + destruct (encodeVarint (Int v)) as [b|] eqn:E; [|done]. by apply encodeVarint_inv in E as [? _].
  - unfold encodeVarint. by repeat case_if.
  - done.
  - by destruct neg.
Qed.

(** Tags.  A field number below [2^28] is written so that the reader gets
    it back with its wire type.  From [2^28], although field numbers up to
    [2^29 - 1] are assignable and the reader accepts them, the encoder throws,
    and from [2^29] the signed 32-bit shift drops the high bits: the number
    [2^29 + 1] is written as 1. *)
Theorem encodeTag_range n w : 0 <= w < 8 ->
  (1 <= n < 2 ^ 28 -> exists b, encodeTag n w = Ok b /\ forall rest,
     readTag (new_ProtoReader (b ++ rest)) = (at_ b rest (Some w), Ok (n, w)) /\
     decodeTag (b ++ rest) 0 = Ok (n, w, len b)) /\
  (2 ^ 28 <= n <= MAX_FIELD_NUMBER -> encodeTag n w = Throw (Error "Varint value must be non-negative")) /\
  encodeTag (2 ^ 29 + 1) w = encodeTag 1 w.
Proof.
  intros Hw. split; [|split].
  - intros Hn. exists (varint 9 (8 * n + w)). split; [apply encodeTag_ok; lia|]. intros rest. split.
    + unfold readTag. unfold M_bind at 1.
      change (new_ProtoReader (varint 9 (8 * n + w) ++ rest)) with (at_ [] (varint 9 (8 * n + w) ++ rest) None).
      rewrite readVarint64_at by lia. cbn [app].
      rewrite land_7, Z.shiftr_div_pow2 by lia. change (2 ^ 3) with 8.
      rewrite (Z.mul_comm 8), Z.div_add_l, Z.div_small, Z.add_0_r by lia.
      rewrite (Z.add_comm _ w), Z.mod_add, Z.mod_small by lia.
      by replace ((n =? 0) || (n >? MAX_FIELD_NUMBER)) with false by (unfold MAX_FIELD_NUMBER; lia).
    + unfold decodeTag. pose proof (decodeVarint_varint [] (8 * n + w) rest ltac:(lia)) as E. cbn [app] in E.
      change (len []) with 0 in E. rewrite E. cbn [mbind result_bind]. change 7 with (Z.ones 3).
      rewrite js_ushr_div, js_and_small by lia. change (2 ^ 3) with 8.
      rewrite (Z.mul_comm 8), Z.div_add_l, Z.div_small, Z.add_0_r by lia.
      by rewrite (Z.add_comm _ w), Z.mod_add, Z.mod_small by lia.
  - intros Hn. unfold MAX_FIELD_NUMBER in Hn. unfold encodeTag, encodeVarint.
    assert (H : js_or (js_shl n 3) w < 0).
    { unfold js_or, js_shl. rewrite (to_int32_id n) by lia. change (3 mod 32) with 3.
      rewrite Z.shiftl_mul_pow2 by lia. change (2 ^ 3) with 8.
      assert (E : to_int32 (n * 8) = n * 8 - 2 ^ 32).
      { unfold to_int32. rewrite to_uint32_id by lia. by replace (n * 8 <? 2 ^ 31) with false by lia. }
      rewrite E. assert (E2 : to_int32 (n * 8 - 2 ^ 32) = n * 8 - 2 ^ 32).
      { unfold to_int32, to_uint32. replace (n * 8 - 2 ^ 32) with (n * 8 + (-1) * 2 ^ 32) by lia.
        rewrite Z.mod_add, Z.mod_small by lia. replace (n * 8 <? 2 ^ 31) with false by lia. lia. }
      rewrite E2. rewrite (to_int32_id w) by lia. apply Z.lor_neg. lia. }
    unfold js_lt. by replace (js_or (js_shl n 3) w <? 0) with true by lia.
  - unfold encodeTag. do 3 f_equal.
Qed.

Lemma encodeTag_range_witness :
  encodeTag 268435456 2 = Throw (Error "Varint value must be non-negative") /\
  exists b, encodeTag 102 0 = Ok b /\ forall rest,
     readTag (new_ProtoReader (b ++ rest)) = (at_ b rest (Some 0), Ok (102, 0)) /\
     decodeTag (b ++ rest) 0 = Ok (102, 0, len b).
Proof.
  split.
  - apply (encodeTag_range 268435456 2); [lia|]. vm_compute. split; discriminate.
  - apply (encodeTag_range 102 0); lia.
Defined.

(** ** The reader as a state machine *)
Inductive read_op := OpUint32 | OpUint64 | OpBool | OpEnum | OpFixed64 | OpBytes | OpMessage | OpSkip.

Definition run_op (o : read_op) : M ProtoReader unit :=
  match o with
  | OpUint32 => M_bind (fun _ => M_ret tt) readUint32
  | OpUint64 => M_bind (fun _ => M_ret tt) readUint64
  | OpBool => M_bind (fun _ => M_ret tt) readBool
  | OpEnum => M_bind (fun _ => M_ret tt) readEnum
  | OpFixed64 => M_bind (fun _ => M_ret tt) readFixed64
  | OpBytes => M_bind (fun _ => M_ret tt) readBytes
  | OpMessage => M_bind (fun _ => M_ret tt) readMessage
  | OpSkip => skipField
  end.

(** Operations that keep the buffer and the invariant of the cursor, and that
    leave no wire type when they start with none. *)
Definition reader_ok (r : ProtoReader) : Prop := 0 <= cursor r <= len (rd_bytes r).

Definition safe {X} (m : M ProtoReader X) : Prop := forall r, reader_ok r -> wireType r = None ->
  let r' := (m r).1 in rd_bytes r' = rd_bytes r /\ cursor r <= cursor r' /\ reader_ok r' /\ wireType r' = None.

Lemma safe_bind {X Y} (m : M ProtoReader X) (f : X -> M ProtoReader Y) :
  safe m -> (forall x, safe (f x)) -> safe (M_bind f m).
Proof.
  intros Hm Hf r Hr Hw. cbn zeta. unfold M_bind. specialize (Hm r Hr Hw). destruct (m r) as [r1 [x|e]]; [|done].
  cbn [fst] in *. destruct Hm as (E1 & C1 & O1 & W1). destruct (Hf x r1 O1 W1) as (E2 & C2 & O2 & W2).
  cbn zeta in *. rewrite E2. split; [done|]. split; [lia|]. done.
Qed.

Lemma safe_ret {X} (x : X) : safe (M_ret x).
Proof. intros r Hr Hw. cbn. done. Qed.
Lemma safe_throw {X} e : safe (M_throw e : M ProtoReader X).
Proof. intros r Hr Hw. cbn. done. Qed.
Lemma safe_get : safe M_get.
Proof. intros r Hr Hw. cbn. done. Qed.

Lemma decodeVarint64_bounds b o v n : 0 <= o <= len b -> decodeVarint64 b o = Ok (v, n) -> 0 <= v /\ 0 <= n /\ o + n <= len b.
Proof.
  intros Ho. unfold decodeVarint64.
  assert (H : forall fuel acc sh r, 0 <= sh -> 0 <= acc -> 0 <= r -> o + r <= len b -> decodeVarint64_loop fuel b o acc sh r = Ok (v, n) ->
    0 <= v /\ 0 <= n /\ o + n <= len b).
  { induction fuel as [|fuel IH]; intros acc sh r Hsh Hacc Hr Hb; [done|]. rewrite decodeVarint64_loop_S. cbn zeta.
    case_if; [done|]. b2p. case_if; [done|].
    assert (Hnew : 0 <= Z.lor acc (Z.shiftl (Z.land (byte_at b (o + r)) 127) sh)).
    { apply Z.lor_nonneg. split; [done|]. rewrite land_127. apply Z.shiftl_nonneg, Z.mod_pos_bound. lia. }
    case_if; [case_if; [done|]; intros [= <- <-]; lia|]. case_if; [done|]. apply IH; lia. }
  apply H; lia.
Qed.

Lemma safe_readVarint64 : safe readVarint64.
Proof.
  intros r Hr Hw. unfold reader_ok in *. cbn zeta. unfold readVarint64, M_bind, M_get, M_lift, M_modify, M_ret.
  destruct (decodeVarint64 _ _) as [[v n]|e] eqn:E; cbn; [|done].
  apply decodeVarint64_bounds in E as (_ & ? & ?); [|done]. repeat split; try done; lia.
Qed.

Lemma safe_modify (f : ProtoReader -> ProtoReader) : (forall r, reader_ok r -> wireType r = None ->
    rd_bytes (f r) = rd_bytes r /\ cursor r <= cursor (f r) /\ reader_ok (f r) /\ wireType (f r) = None) ->
  safe (M_modify f).
Proof. intros H r Hr Hw. by apply H. Qed.

Lemma safe_if {X} (b : bool) (m1 m2 : M ProtoReader X) : safe m1 -> safe m2 -> safe (if b then m1 else m2).
Proof. by destruct b. Qed.

(** [readLengthPrefix] returns an offset between the cursor and the end. *)
Lemma readLengthPrefix_post r : reader_ok r -> wireType r = None ->
  let '(r', res) := readLengthPrefix r in
  rd_bytes r' = rd_bytes r /\ cursor r <= cursor r' /\ reader_ok r' /\ wireType r' = None /\
  match res with Ok e => cursor r' <= e <= len (rd_bytes r) | Throw _ => True end.
Proof.
  intros Hr Hw. unfold reader_ok in *. unfold readLengthPrefix, readVarint64, M_bind, M_get, M_lift, M_modify, M_ret.
  destruct (decodeVarint64 _ _) as [[v n]|e] eqn:E; cbn; [|repeat split; done || lia].
  apply decodeVarint64_bounds in E as (? & ? & ?); [|done]. case_if; b2p; cbn in *; repeat split; done || lia.
Qed.

Lemma safe_prefix {X} (k : Z -> M ProtoReader X) :
  (forall r e, reader_ok r -> wireType r = None -> cursor r <= e <= len (rd_bytes r) ->
     let r' := (k e r).1 in rd_bytes r' = rd_bytes r /\ cursor r <= cursor r' /\ reader_ok r' /\ wireType r' = None) ->
  safe (M_bind k readLengthPrefix).
Proof.
  intros Hk r Hr Hw. cbn zeta. unfold M_bind. pose proof (readLengthPrefix_post r Hr Hw) as H.
  destruct (readLengthPrefix r) as [r1 [e|e]]; cbn [fst]; destruct H as (E1 & C1 & O1 & W1 & He); [|done].
  rewrite <- E1 in He. destruct (Hk r1 e O1 W1 He) as (E2 & C2 & O2 & W2). cbn zeta in *.
  rewrite E2. split; [done|]. split; [lia|]. done.
Qed.

Lemma safe_advance c msg : 0 <= c -> safe (advance c msg).
Proof.
  intros Hc r Hr Hw. unfold reader_ok in *. cbn zeta. unfold advance, M_bind, M_get, M_modify.
  case_if; b2p; cbn; repeat split; done || lia.
Qed.

(** After the wire type is taken, every operation is safe. *)
Definition clears {X} (m : M ProtoReader X) : Prop := forall r, reader_ok r ->
  match wireType r with
  | None => exists e, m r = (r, Throw e) /\ e = Error "No field tag has been read"
  | Some _ => let r' := (m r).1 in
      rd_bytes r' = rd_bytes r /\ cursor r <= cursor r' /\ reader_ok r' /\ wireType r' = None
  end.

Lemma clears_take {X} (k : Z -> M ProtoReader X) : (forall w, safe (k w)) -> clears (M_bind k takeWireType).
Proof.
  intros Hk r Hr. unfold M_bind, takeWireType, M_bind, M_get. destruct (wireType r) as [w|]; [|by eexists].
  cbn. by apply (Hk w (set_wireType None r)).
Qed.

Lemma clears_expect {X} n (k : unit -> M ProtoReader X) : (forall u, safe (k u)) -> clears (M_bind k (expectWireType n)).
Proof.
  intros Hk r Hr. unfold expectWireType, M_bind, takeWireType, M_bind, M_get. destruct (wireType r) as [w|]; [|by eexists].
  cbn. case_if; [done|]. cbn. by apply (Hk tt (set_wireType None r)).
Qed.

Lemma clears_bind {X Y} (m : M ProtoReader X) (f : X -> M ProtoReader Y) :
  clears m -> (forall x, safe (f x)) -> clears (M_bind f m).
Proof.
  intros Hm Hf r Hr. specialize (Hm r Hr). unfold M_bind. destruct (wireType r) as [w|].
  - cbn zeta in *. destruct (m r) as [r1 [x|e]]; cbn [fst] in *; [|done].
    destruct Hm as (E1 & C1 & O1 & W1). destruct (Hf x r1 O1 W1) as (E2 & C2 & O2 & W2). cbn zeta in *.
    rewrite E2. split; [done|]. split; [lia|]. done.
  - destruct Hm as (e & -> & ->). by eexists.
Qed.

#[local] Hint Resolve safe_ret safe_throw safe_if safe_readVarint64 : s2p.

Lemma clears_varint : clears readVarintValue.
Proof. unfold readVarintValue. apply clears_expect. auto with s2p. Qed.

Lemma clears_uint32 : clears readUint32.
Proof. unfold readUint32. apply clears_bind; [apply clears_varint|]. intros. auto with s2p. Qed.

Lemma clears_bytes : clears readBytes.
Proof.
  unfold readBytes. apply clears_expect. intros _. apply safe_prefix.
  intros r e Hr Hw He. unfold reader_ok in *. cbn. repeat split; done || lia.
Qed.

Lemma clears_fixed64 : clears readFixed64.
Proof.
  unfold readFixed64. apply clears_expect. intros _ r Hr Hw. unfold reader_ok in *. cbn zeta.
  unfold M_bind, M_get. case_if; b2p; cbn; repeat split; done || lia.
Qed.

Lemma clears_skip : clears skipField.
Proof.
  unfold skipField. apply clears_take. intros w. apply safe_if; [apply safe_bind; auto with s2p|].
  apply safe_if; [by apply safe_advance|]. apply safe_if.
  - apply safe_prefix. intros r e Hr Hw He. unfold reader_ok in *. cbn. repeat split; done || lia.
  - apply safe_if; [by apply safe_advance|apply safe_throw].
Qed.

(** One read per tag.  On any reader whose cursor is within its buffer,
    every read and the skip throw without moving when no tag has been read
    since the last read; otherwise, whether they succeed or throw, they keep
    the buffer, never move the cursor back or past the end, and consume the
    tag, so that the next read throws again. *)
Theorem reader_one_read_per_tag o r : 0 <= cursor r <= len (rd_bytes r) ->
  match wireType r with
  | None => run_op o r = (r, Throw (Error "No field tag has been read"))
  | Some _ => let r' := (run_op o r).1 in
      rd_bytes r' = rd_bytes r /\ cursor r <= cursor r' <= len (rd_bytes r) /\
      forall o', run_op o' r' = (r', Throw (Error "No field tag has been read"))
  end.
Proof.
  intros Hr. assert (Hall : forall o, clears (run_op o)).
  { clear. intros [| | | | | | |]; unfold run_op.
    - apply clears_bind; [apply clears_uint32|auto with s2p].
    - apply clears_bind; [apply clears_varint|auto with s2p].
    - apply clears_bind; [|auto with s2p]. unfold readBool. apply clears_bind; [apply clears_varint|auto with s2p].
    - apply clears_bind; [apply clears_uint32|auto with s2p].
    - apply clears_bind; [apply clears_fixed64|auto with s2p].
    - apply clears_bind; [apply clears_bytes|auto with s2p].
    - apply clears_bind; [apply clears_bytes|auto with s2p].
    - apply clears_skip. }
  pose proof (Hall o r Hr) as H. destruct (wireType r) as [w|].
  - cbn zeta in *. destruct H as (E & C & O & W). split; [done|]. unfold reader_ok in O. rewrite E in O.
    split; [lia|]. intros o'. pose proof (Hall o' (run_op o r).1) as H'. rewrite W in H'.
    destruct H' as (e & -> & ->); [unfold reader_ok; by rewrite E|done].
  - by destruct H as (e & -> & ->).
Qed.

Lemma reader_one_read_per_tag_witness :
  run_op OpBytes (new_ProtoReader [1]) = (new_ProtoReader [1], Throw (Error "No field tag has been read")).
Proof. apply (reader_one_read_per_tag OpBytes (new_ProtoReader [1])). vm_compute. split; discriminate. Defined.
