(* ===== verification/Crypto.v ===== *)
(** * Primitives ([crypto/kdf/hkdf.ts], [symmetric/aes.ts], [ec/ed25519.ts])

    HMAC-SHA-256, SHA-256, AES-256-CBC and Ed25519 of the third-party packages
    are operations of classes, and a class of laws states the documented
    behaviour of each; HKDF and the wrappers are translated from the source. *)
From S2P Require Import Prelude.

Class HashFunctions := {
  hmac : bytes -> bytes -> bytes }.                      (* key, message *)

Class HashLaws (H : HashFunctions) : Prop := {
  hmac_length : forall k m, length (hmac k m) = 32%nat;
  hmac_bytes : forall k m, is_bytes (hmac k m) }.

Section hkdf.
Context {H : HashFunctions}.

(** The loop of [hkdfExpand]: [n] more blocks after the block [t]. *)
Fixpoint hkdf_blocks (n : nat) (prk info t : bytes) (i : Z) : bytes :=
  match n with
  | O => []
  | S n => let t := hmac prk (t ++ info ++ [u8 (i + 1)]) in t ++ hkdf_blocks n prk info t (i + 1)
  end.

Definition hkdfExpand (prk info : bytes) (length : nat) : result bytes :=
  let n := ((length + 31) / 32)%nat in
  if (255 <? n)%nat then Throw (Error "HKDF length too long")
  else Ok (take length (hkdf_blocks n prk info [] 0)).

(** [hkdf] for a length within the guard of [hkdfExpand]: every caller asks
    for a constant number of bytes, at most 128 ([hkdf_expands]). *)
Definition hkdf (ikm salt info : bytes) (length : nat) : bytes :=
  let prk := hmac (match salt with [] => replicate 32 0 | _ => salt end) ikm in
  take length (hkdf_blocks ((length + 31) / 32) prk info [] 0).

Lemma hkdf_expands ikm salt info n : (n <= 255 * 32)%nat ->
  hkdfExpand (hmac (match salt with [] => replicate 32 0 | _ => salt end) ikm) info n = Ok (hkdf ikm salt info n).
Proof.
  intros Hn. unfold hkdfExpand, hkdf. replace (255 <? _)%nat with false; [done|]. symmetry. apply Nat.ltb_ge.
  apply Nat.lt_succ_r, Nat.Div0.div_lt_upper_bound. lia.
Qed.

Context {HL : HashLaws H}.

Lemma length_hkdf_blocks n prk info : forall t i, length (hkdf_blocks n prk info t i) = (n * 32)%nat.
Proof. induction n as [|n IH]; intros t i; [done|]. cbn [hkdf_blocks]. rewrite length_app, hmac_length, IH. lia. Qed.

Lemma hkdf_blocks_bytes n prk info : forall t i, is_bytes (hkdf_blocks n prk info t i).
Proof. induction n as [|n IH]; intros t i; [by constructor|]. cbn [hkdf_blocks]. apply Forall_app. split; [apply hmac_bytes|apply IH]. Qed.

Lemma hkdf_length ikm salt info n : length (hkdf ikm salt info n) = n.
Proof.
  unfold hkdf. rewrite length_take, length_hkdf_blocks.
  pose proof (Nat.div_mod_eq (n + 31) 32). pose proof (Nat.mod_upper_bound (n + 31) 32). lia.
Qed.

Lemma hkdf_bytes ikm salt info n : is_bytes (hkdf ikm salt info n).
Proof. apply Forall_take, hkdf_blocks_bytes. Qed.
End hkdf.

#[global] Arguments hkdf : simpl never.

(** ** SHA-256 *)
Class Sha256 := { sha256 : bytes -> bytes }.

Class Sha256Laws (S : Sha256) : Prop := { sha256_length : forall m, length (sha256 m) = 32%nat }.

(** ** AES-256-CBC *)
Class AesCbc := {
  aes_cbc_encrypt : bytes -> bytes -> bytes -> result bytes;   (* key, iv, plaintext *)
  aes_cbc_decrypt : bytes -> bytes -> bytes -> result bytes }. (* key, iv, ciphertext *)

(** AES-CBC decrypts what it encrypted and pads by 1 to 16 bytes. *)
Class AesCbcLaws (C : AesCbc) : Prop := {
  aes_cbc_correct : forall k iv p, length k = 32%nat -> length iv = 16%nat -> is_bytes p ->
    exists c, aes_cbc_encrypt k iv p = Ok c /\ is_bytes c /\ len p < len c <= len p + 16 /\ aes_cbc_decrypt k iv c = Ok p }.

Definition aesCbcDecrypt `{AesCbc} (key iv ciphertext : bytes) : result bytes :=
  match aes_cbc_decrypt key iv ciphertext with Ok p => Ok p | Throw _ => Throw (Error "Decryption failed") end.

(** ** Ed25519 *)
Class Ed25519 := {
  ed25519_public : bytes -> bytes;                             (* private key *)
  ed25519_sign : bytes -> bytes -> result bytes;               (* data, private key *)
  ed25519_verify : bytes -> bytes -> bytes -> result bool }.   (* signature, data, public key *)

(** An Ed25519 signature verifies. *)
Class Ed25519Laws (C : Ed25519) : Prop := {
  ed25519_public_length : forall priv, length priv = 32%nat -> length (ed25519_public priv) = 32%nat;
  ed25519_correct : forall priv m, length priv = 32%nat ->
    exists sig, ed25519_sign m priv = Ok sig /\ length sig = 64%nat /\ is_bytes sig /\ ed25519_verify sig m (ed25519_public priv) = Ok true }.

(** [verify]: a malformed key or signature does not verify. *)
Definition crypto_verify `{Ed25519} (publicKey data signature : bytes) : bool :=
  match ed25519_verify signature data publicKey with Ok b => b | Throw _ => false end.

(** ** Shared helpers ([crypto/utils.ts]) *)
Record KeyPair := { publicKey : bytes; privateKey : bytes }.

#[export] Instance KeyPair_eq_dec : EqDecision KeyPair.
Proof. solve_decision. Defined.

(** The loop [difference |= a[i] ^ b[i]] of [constantTimeEqual]. *)
Definition byte_difference (a b : bytes) : Z :=
  fold_left (fun d p => js_or d (Z.lxor (to_int32 p.1) (to_int32 p.2))) (zip a b) 0.

Definition constantTimeEqual (a b : bytes) : bool :=
  if negb (len a =? len b) then false else byte_difference a b =? 0.

Lemma byte_log2 w : is_byte w <-> 0 <= w /\ Z.log2 w < 8.
Proof.
  unfold is_byte. destruct (decide (w = 0)) as [->|]; [cbn; lia|]. change 256 with (2 ^ 8). split; intros [? Hl].
  - by rewrite <- Z.log2_lt_pow2 by lia.
  - by rewrite Z.log2_lt_pow2 by lia.
Qed.

Lemma lxor_byte x y : is_byte x -> is_byte y -> is_byte (Z.lxor x y).
Proof.
  rewrite !byte_log2. intros [? ?] [? ?]. pose proof (Z.log2_lxor x y). split; [apply Z.lxor_nonneg|]; lia.
Qed.

Lemma lor_byte x y : is_byte x -> is_byte y -> is_byte (Z.lor x y).
Proof. rewrite !byte_log2. intros [? ?] [? ?]. rewrite Z.log2_lor by done. split; [apply Z.lor_nonneg|]; lia. Qed.

Lemma js_or_bytes_zero d x y : is_byte d -> is_byte x -> is_byte y ->
  is_byte (js_or d (Z.lxor (to_int32 x) (to_int32 y))) /\
  (js_or d (Z.lxor (to_int32 x) (to_int32 y)) = 0 <-> d = 0 /\ x = y).
Proof.
  intros Hd Hx Hy. rewrite (to_int32_id x), (to_int32_id y) by (unfold is_byte in *; lia).
  pose proof (lxor_byte x y Hx Hy) as Hw. pose proof (lor_byte d _ Hd Hw) as Ho.
  unfold js_or. rewrite !to_int32_id by (unfold is_byte in *; lia).
  split; [done|]. rewrite Z.lor_eq_0_iff. by rewrite Z.lxor_eq_0_iff.
Qed.

(** On bytes the scan decides equality. *)
Lemma constantTimeEqual_spec a b : is_bytes a -> is_bytes b -> constantTimeEqual a b = bool_decide (a = b).
Proof.
  intros Ha Hb. unfold constantTimeEqual. destruct (Z.eqb_spec (len a) (len b)) as [El|El]; cbn [negb].
  2:{ symmetry. apply bool_decide_eq_false. by intros ->. }
  enough (H : forall d, is_byte d ->
    (fold_left (fun d p => js_or d (Z.lxor (to_int32 p.1) (to_int32 p.2))) (zip a b) d = 0 <-> d = 0 /\ a = b)).
  { specialize (H 0 ltac:(unfold is_byte; lia)). fold (byte_difference a b) in H. apply eq_bool_prop_intro.
    rewrite bool_decide_spec, Is_true_true, Z.eqb_eq, H. tauto. }
  revert b Hb El. induction Ha as [|x a Hx _ IH]; intros [|y b] Hb El d Hd; try (unfold len in El; cbn in El; lia); cbn [zip zip_with fold_left].
  - naive_solver.
  - apply Forall_cons in Hb as [Hy Hb]. destruct (js_or_bytes_zero d x y Hd Hx Hy) as [R Z0]. cbn [fst snd].
    rewrite IH; [|done|unfold len in *; cbn [length] in El; lia|done]. rewrite Z0. naive_solver.
Qed.

Lemma constantTimeEqual_refl a : constantTimeEqual a a = true.
Proof.
  unfold constantTimeEqual. rewrite Z.eqb_refl. cbn [negb]. apply Z.eqb_eq.
  induction a as [|x a IH]; [done|]. unfold byte_difference in *. cbn [zip zip_with fold_left fst snd]. by rewrite Z.lxor_nilpotent.
Qed.

(** A KEM secret ([pq/kyber.ts]). *)
Definition asKyberSharedSecret (b : bytes) : result bytes :=
  if negb (len b =? 32) then Throw (Error "Kyber shared secret must be 32 bytes") else Ok b.
