(* ===== verification/SenderKeys.v ===== *)
(** * Sender keys ([protocol/sender-keys/manager.ts], [handoff-ledger.ts])

    Every operation of [SenderKeyManager] is a computation of the monad [M] on
    the store; it works on copies of the states that it loads.  [Date.now()]
    and the random bytes are arguments.  AES-CBC and Ed25519 are the operations
    of the class [GroupCrypto].  Logging, the zeroing of dropped buffers and
    the receive record that a caller may add to a commit are left out; of the
    message of a plain error the part before the colon is kept. *)
From S2P Require Import Prelude JsMap ProtoWire Utf8 Base64 SenderKeyMessage SenderKeyStore Crypto.

Class GroupCrypto := {
  group_hash :: HashFunctions;
  group_aes :: AesCbc;
  group_ed25519 :: Ed25519 }.

Class GroupCryptoLaws (C : GroupCrypto) : Prop := {
  group_hash_laws :: HashLaws group_hash;
  group_aes_laws :: AesCbcLaws group_aes;
  group_ed25519_laws :: Ed25519Laws group_ed25519 }.

(** ** Identifiers ([crypto/random.ts]) *)
Definition hex_digit (d : Z) : Z := if d <? 10 then 48 + d else 87 + d.
(** [byte.toString(16).padStart(2, '0')] *)
Definition hex_byte (b : Z) : jsstring := [hex_digit (b / 16); hex_digit (b mod 16)].

Definition generateUuidV4 (random : bytes) : jsstring :=
  let b := <[6%nat := js_or (js_and (nthZ 0 random 6) 0x0f) 0x40]> random in
  let b := <[8%nat := js_or (js_and (nthZ 0 b 8) 0x3f) 0x80]> b in
  let hex := concat (map hex_byte b) in
  let dash := 45 in
  slice hex 0 8 ++ [dash] ++ slice hex 8 12 ++ [dash] ++ slice hex 12 16 ++ [dash] ++ slice hex 16 20 ++ [dash] ++ slice hex 20 (len hex).

(** [Math.imul] *)
Definition imul (a b : Z) : Z := to_int32 (to_int32 a * to_int32 b).
Definition js_xor (a b : Z) : Z := Z.lxor (to_int32 a) (to_int32 b).

Definition generateChainId (keyId : jsstring) : Z :=
  js_ushr (foldl (fun hash c => imul (js_xor hash c) 0x01000193) 0x811c9dc5 keyId) 0.

(** ** Configuration *)
Definition SENDER_KEY_FORMAT : string := "v2".
Definition SENDER_KEY_MESSAGE_VERSION : Z := 0x44.
Definition MAX_SENDER_KEY_STATES : Z := 5.
Definition SENDER_KEY_AGE_CEILING : Z := 90 * 24 * 60 * 60 * 1000.
Definition SENDER_KEY_AGE_FLOOR : Z := 60 * 60 * 1000.

Record SenderKeysConfig := {
  c_hkdfInfoString : option jsstring; c_maxChainAdvance : option Z; c_maxSkippedKeys : option Z; c_maxSenderKeyAge : option jsnum }.
(** The resolved configuration of a manager. *)
Record SenderKeysDefaults := { hkdfInfoString : jsstring; maxChainAdvance : Z; maxSkippedKeys : Z; maxSenderKeyAge : jsnum }.

Definition SENDER_KEYS_DEFAULTS : SenderKeysDefaults := {|
  hkdfInfoString := bytes_of_string "WhisperGroup"; maxChainAdvance := 25000; maxSkippedKeys := 2000;
  maxSenderKeyAge := Int (14 * 24 * 60 * 60 * 1000) |}.

Definition isFinite (n : jsnum) : bool := match n with Int _ | Frac _ => true | _ => false end.
Definition js_le_0 (n : jsnum) : bool := match n with Int z => z <=? 0 | Frac z => z <? 0 | NaN => false | Infinity neg => neg end.
(** [z > n] *)
Definition js_above (z : Z) (n : jsnum) : bool := match n with Int m | Frac m => z >? m | NaN => false | Infinity neg => neg end.

Definition resolveMaxSenderKeyAge (configured : option jsnum) : jsnum :=
  match configured with
  | None => maxSenderKeyAge SENDER_KEYS_DEFAULTS
  | Some configured =>
      if negb (isFinite configured) || js_le_0 configured then maxSenderKeyAge SENDER_KEYS_DEFAULTS
      else if js_gt configured SENDER_KEY_AGE_CEILING then Int SENDER_KEY_AGE_CEILING
      else if js_lt configured SENDER_KEY_AGE_FLOOR then Int SENDER_KEY_AGE_FLOOR
      else configured
  end.

(** The constructor of [SenderKeyManager]. *)
Definition new_SenderKeyManager (config : option SenderKeysConfig) : SenderKeysDefaults := {|
  hkdfInfoString := default (hkdfInfoString SENDER_KEYS_DEFAULTS) (config ≫= c_hkdfInfoString);
  maxChainAdvance := default (maxChainAdvance SENDER_KEYS_DEFAULTS) (config ≫= c_maxChainAdvance);
  maxSkippedKeys := default (maxSkippedKeys SENDER_KEYS_DEFAULTS) (config ≫= c_maxSkippedKeys);
  maxSenderKeyAge := resolveMaxSenderKeyAge (config ≫= c_maxSenderKeyAge) |}.

(** ** Age and format of a state *)
Inductive OwnSenderKeyExpiry := NoCreationTime | Aged (ageMs : Z).

Definition ownSenderKeyExpiry (now : Z) (state : SenderKeyState) (maxAge : jsnum) : option OwnSenderKeyExpiry :=
  match signatureKey state with
  | [] => None
  | _ =>
      match createdAt state with
      | None => Some NoCreationTime
      | Some t => if t <=? 0 then Some NoCreationTime
                  else let ageMs := now - t in if js_above ageMs maxAge then Some (Aged ageMs) else None
      end
  end.

Definition assertSenderKeyVersion (version : string) : result unit :=
  throw_when (negb (String.eqb version SENDER_KEY_FORMAT)) (Error "Unsupported sender-key format").

Record SenderKeyDistributionMessage := {
  d_senderKeyVersion : string; d_senderKeyId : jsstring; d_chainId : Z; d_generation : Z; d_chainIndex : option Z;
  d_chainKey : bytes; d_publicSignatureKey : bytes }.

Definition currentDistribution (state : SenderKeyState) : result SenderKeyDistributionMessage :=
  assertSenderKeyVersion (senderKeyVersion state) ;;
  Ok {| d_senderKeyVersion := SENDER_KEY_FORMAT; d_senderKeyId := senderKeyId state; d_chainId := chainId state;
        d_generation := generation state; d_chainIndex := Some (chainIndex state); d_chainKey := chainKey state;
        d_publicSignatureKey := publicSignatureKey state |}.

(** ** Key derivation *)
Section Manager.
Context {C : GroupCrypto} (cfg : SenderKeysDefaults).

Record MessageKey := { mkCipher : bytes; mkIv : bytes }.

Definition deriveMessageKey (ck : bytes) : MessageKey :=
  let seed := hmac ck [0x01] in
  let derived := hkdf seed (replicate 32 0) (utf8Encode (hkdfInfoString cfg)) 48 in
  {| mkIv := slice derived 0 16; mkCipher := slice derived 16 48 |}.

Definition advanceChainKey (ck : bytes) : bytes := hmac ck [0x02].

Definition step_state (state : SenderKeyState) : SenderKeyState := {|
  senderKeyId := senderKeyId state; senderKeyVersion := senderKeyVersion state; chainId := chainId state;
  generation := generation state; chainKey := advanceChainKey (chainKey state); signatureKey := signatureKey state;
  publicSignatureKey := publicSignatureKey state; chainIndex := chainIndex state + 1; createdAt := createdAt state |}.

(** [encodeLosslessPlaintext] *)
Definition encodeLosslessPlaintext (plaintextBytes : bytes) : result jsstring :=
  text ← utf8DecodePortable false plaintextBytes;
  Ok (if bool_decide (utf8Encode text = plaintextBytes) then text else bytesToBase64 plaintextBytes).

Definition serializeForSigning (index : Z) (ciphertext : bytes) (keyId : jsstring) (chainId : Z) : result bytes :=
  protoBytes ← encodeSenderKeyMessage {|
    sk_distributionUuid := match keyId with [] => None | _ => Some (utf8Encode keyId) end;
    sk_chainId := Some chainId; sk_iteration := index; sk_ciphertext := ciphertext |};
  Ok (SENDER_KEY_MESSAGE_VERSION :: protoBytes).

(** ** Loading states *)
Definition loadPreviousStates (m : Member) (s : SenderKeyStore) : list SenderKeyState :=
  match getSenderKeyRecord m s with
  | Some record => if len record >? 1 then drop 1 (take (Z.to_nat MAX_SENDER_KEY_STATES) record) else []
  | None => []
  end.

Definition persistSenderKeyRecord (m : Member) (current : SenderKeyState) (previous : list SenderKeyState)
    (deleteHandoffs : bool) (s : SenderKeyStore) : SenderKeyStore :=
  storeSenderKeyRecord m (current :: previous) None deleteHandoffs s.

(** ** Creating, rotating and distributing *)
(** The random values of a new key: UUID bytes, chain key, private signature key. *)
Record KeyMaterial := { km_uuid : bytes; km_chainKey : bytes; km_private : bytes }.

Definition new_state (r : KeyMaterial) (gen now : Z) : SenderKeyState :=
  let keyId := generateUuidV4 (km_uuid r) in {|
    senderKeyId := keyId; senderKeyVersion := SENDER_KEY_FORMAT; chainId := generateChainId keyId; generation := gen;
    chainKey := km_chainKey r; signatureKey := km_private r; publicSignatureKey := ed25519_public (km_private r);
    chainIndex := 0; createdAt := Some now |}.

Definition distribution_of (state : SenderKeyState) : SenderKeyDistributionMessage := {|
  d_senderKeyVersion := SENDER_KEY_FORMAT; d_senderKeyId := senderKeyId state; d_chainId := chainId state;
  d_generation := generation state; d_chainIndex := Some 0; d_chainKey := chainKey state;
  d_publicSignatureKey := publicSignatureKey state |}.

Definition createSenderKey (m : Member) (r : KeyMaterial) (now : Z) : M SenderKeyStore (jsstring * SenderKeyDistributionMessage) := (
  let state := new_state r 1 now in
  do_ M_modify (persistSenderKeyRecord m state [] true);
  M_ret (senderKeyId state, distribution_of state))%st.

Definition rotateSenderKey (m : Member) (r : KeyMaterial) (now : Z) : M SenderKeyStore (jsstring * SenderKeyDistributionMessage) := (
  do oldState <- M_gets (getSenderKey m);
  do_ (match oldState with Some old => M_lift (assertSenderKeyVersion (senderKeyVersion old)) | None => M_ret tt end);
  let state := new_state r (match oldState with Some old => generation old + 1 | None => 1 end) now in
  do previous <- M_gets (loadPreviousStates m);
  let prev := match oldState with Some old => take (Z.to_nat (MAX_SENDER_KEY_STATES - 1)) (old :: previous) | None => [] end in
  do_ M_modify (persistSenderKeyRecord m state prev true);
  M_ret (senderKeyId state, distribution_of state))%st.

(** What [processSenderKeyDistribution] does with the current state. *)
Definition received_state (message : SenderKeyDistributionMessage) (now : Z) : SenderKeyState := {|
  senderKeyId := d_senderKeyId message; senderKeyVersion := SENDER_KEY_FORMAT; chainId := d_chainId message;
  generation := d_generation message; chainKey := d_chainKey message; signatureKey := [];
  publicSignatureKey := d_publicSignatureKey message; chainIndex := default 0 (d_chainIndex message); createdAt := Some now |}.

Definition processSenderKeyDistribution (m : Member) (message : SenderKeyDistributionMessage) (now : Z) : M SenderKeyStore unit := (
  do_ M_lift (assertSenderKeyVersion (d_senderKeyVersion message));
  do existing <- M_gets (getSenderKey m);
  do previous <- M_gets (loadPreviousStates m);
  let install prev := M_modify (persistSenderKeyRecord m (received_state message now) prev false) in
  match existing with
  | None => install []
  | Some existing =>
      do_ M_lift (assertSenderKeyVersion (senderKeyVersion existing));
      if bool_decide (senderKeyId existing = d_senderKeyId message) then
        if d_generation message <? generation existing then M_ret tt
        else if d_generation message =? generation existing then M_ret tt
        else install previous
      else if existsb (fun state => bool_decide (senderKeyId state = d_senderKeyId message)) previous then M_ret tt
      else install (take (Z.to_nat (MAX_SENDER_KEY_STATES - 1)) (existing :: previous))
  end)%st.

Definition isOwnSenderKeyExpired (now : Z) (m : Member) (s : SenderKeyStore) : bool :=
  match getSenderKey m s with
  | Some state => match ownSenderKeyExpiry now state (maxSenderKeyAge cfg) with Some _ => true | None => false end
  | None => false
  end.

Definition getCurrentSenderKeyDistribution (m : Member) : M SenderKeyStore (option SenderKeyDistributionMessage) := (
  do state <- M_gets (getSenderKey m);
  match state with
  | Some state => do d <- M_lift (currentDistribution state); M_ret (Some d)
  | None => M_ret None
  end)%st.

Definition manager_deleteSenderKey (m : Member) : M SenderKeyStore unit := (
  do state <- M_gets (getSenderKey m);
  M_modify (deleteSenderKey m (match state with Some state => negb (bool_decide (signatureKey state = [])) | None => false end)))%st.

Record SenderKeyStats := { stats_chainIndex : Z; stats_generation : Z; stats_skippedKeysCount : Z }.

Definition getStats (m : Member) (s : SenderKeyStore) : SenderKeyStats :=
  match getSenderKey m s with
  | None => {| stats_chainIndex := 0; stats_generation := 0; stats_skippedKeysCount := 0 |}
  | Some state => {| stats_chainIndex := chainIndex state; stats_generation := generation state; stats_skippedKeysCount := countSkippedSenderKeys m s |}
  end.

(** ** Encryption *)
Definition encryptGroupMessage (now : Z) (m : Member) (plaintextBytes : bytes) : M SenderKeyStore bytes := (
  do loaded <- M_gets (getSenderKey m);
  match loaded with
  | None => M_throw (Error "SENDER_KEY_NOT_FOUND")
  | Some state =>
      do_ M_lift (assertSenderKeyVersion (senderKeyVersion state));
      match ownSenderKeyExpiry now state (maxSenderKeyAge cfg) with
      | Some _ => M_throw (EncryptionError "SENDER_KEY_EXPIRED")
      | None =>
          if chainIndex state >=? 0xfffffffe then M_throw (EncryptionError "ENCRYPTION_FAILED")
          else
            let mk := deriveMessageKey (chainKey state) in
            do ciphertext <- M_lift (aes_cbc_encrypt (mkCipher mk) (mkIv mk) plaintextBytes);
            do protoBytes <- M_lift (encodeSenderKeyMessage {|
              sk_distributionUuid := Some (utf8Encode (senderKeyId state)); sk_chainId := Some (chainId state);
              sk_iteration := chainIndex state; sk_ciphertext := ciphertext |});
            let messageToSign := u8 sender_key_version_byte :: protoBytes in
            do signatureBytes <- M_lift (ed25519_sign messageToSign (signatureKey state));
            do_ M_modify (storeSenderKey m (step_state state));
            M_lift (frameSenderKeyMessage protoBytes signatureBytes)
      end
  end)%st.

(** ** Decryption *)
Definition resolveGroupForFramedMessage (framedMessage : bytes) (senderId : jsstring) (senderDeviceId : Z) (s : SenderKeyStore) : option jsstring :=
  match (env ← parseSenderKeyMessage framedMessage;
         decoded ← decodeSenderKeyMessage (env_protobufBytes env);
         match sk_distributionUuid decoded with
         | None => Ok None
         | Some uuid => keyId ← utf8DecodePortable false uuid; Ok (Some keyId)
         end) with
  | Ok (Some []) | Ok None | Throw _ => None
  | Ok (Some keyId) => resolveGroupForSenderKeyId keyId senderId senderDeviceId s
  end.

Record EncryptedGroupMessage := { g_senderKeyId : jsstring; g_chainIndex : Z; g_ciphertext : bytes; g_signature : bytes }.

Definition parse_group_message (framedMessage : bytes) : result EncryptedGroupMessage :=
  env ← parseSenderKeyMessage framedMessage;
  decoded ← decodeSenderKeyMessage (env_protobufBytes env);
  keyId ← match sk_distributionUuid decoded with Some uuid => utf8DecodePortable false uuid | None => Ok [] end;
  Ok {| g_senderKeyId := keyId; g_chainIndex := sk_iteration decoded; g_ciphertext := sk_ciphertext decoded; g_signature := env_mac env |}.

Definition duplicate_group_message : exn := EncryptionError "MESSAGE_DUPLICATE".

Definition decryptWithSkippedKey (m : Member) (message : EncryptedGroupMessage) : M SenderKeyStore jsstring := (
  do skippedKey <- M_gets (getSkippedSenderKey m (g_senderKeyId message) (g_chainIndex message));
  match skippedKey with
  | None => M_throw duplicate_group_message
  | Some k =>
      do plaintextBytes <- M_lift (aesCbcDecrypt (sm_cipherKey k) (sm_iv k) (g_ciphertext message));
      do plaintext <- M_lift (encodeLosslessPlaintext plaintextBytes);
      do states <- M_gets (getSenderKeyRecord m);
      match states with
      | None | Some [] => M_throw (Error "Missing sender-key record during receive")
      | Some states =>
          do_ M_modify (storeSenderKeyRecord m states
                (Some {| consumedSkippedKey := Some (g_senderKeyId message, g_chainIndex message); rc_skippedKeys := None |}) false);
          M_ret plaintext
      end
  end)%st.

(** The loop over the messages that are skipped: the advanced state and the
    staged keys. *)
Fixpoint stage_skipped (n : nat) (state : SenderKeyState) (keys : list StagedKey) : SenderKeyState * list StagedKey :=
  match n with
  | O => (state, keys)
  | S n =>
      let mk := deriveMessageKey (chainKey state) in
      stage_skipped n (step_state state)
        (keys ++ [{| st_senderKeyId := senderKeyId state; st_chainIndex := chainIndex state;
                     st_messageKey := {| sm_cipherKey := mkCipher mk; sm_iv := mkIv mk |} |}])
  end.

(** The part that the current and a previous state share: check the signature,
    advance, decrypt, and commit the advanced state with [commit]. *)
Definition decrypt_with_state (m : Member) (message : EncryptedGroupMessage) (state : SenderKeyState)
    (commit : SenderKeyState -> SenderKeyReceiveCommit -> M SenderKeyStore unit) : M SenderKeyStore jsstring := (
  do messageToVerify <- M_lift (serializeForSigning (g_chainIndex message) (g_ciphertext message) (g_senderKeyId message) (chainId state));
  if negb (crypto_verify (publicSignatureKey state) messageToVerify (g_signature message)) then M_throw (Error "INVALID_SIGNATURE")
  else if (g_chainIndex message >? chainIndex state) && (g_chainIndex message - chainIndex state >? maxChainAdvance cfg) then M_throw (Error "CHAIN_GAP_TOO_LARGE")
  else if g_chainIndex message <? chainIndex state then decryptWithSkippedKey m message
  else
    let '(state, keys) := stage_skipped (Z.to_nat (g_chainIndex message - chainIndex state)) state [] in
    let mk := deriveMessageKey (chainKey state) in
    do plaintextBytes <- M_lift (aesCbcDecrypt (mkCipher mk) (mkIv mk) (g_ciphertext message));
    do plaintext <- M_lift (encodeLosslessPlaintext plaintextBytes);
    do_ commit (step_state state) {| consumedSkippedKey := None; rc_skippedKeys := Some (maxSkippedKeys cfg, keys) |};
    M_ret plaintext)%st.

(** [tryDecryptWithPreviousState]; [None] is its [null]. *)
Definition tryDecryptWithPreviousState (m : Member) (message : EncryptedGroupMessage) : M SenderKeyStore (option jsstring) := (
  do prevStates <- M_gets (loadPreviousStates m);
  match list_find (fun state => senderKeyId state = g_senderKeyId message) prevStates with
  | None => M_ret None
  | Some (matchIdx, prevState) =>
      do_ M_lift (assertSenderKeyVersion (senderKeyVersion prevState));
      do plaintext <- decrypt_with_state m message prevState (fun state receive =>
        do currentState <- M_gets (getSenderKey m);
        match currentState with
        | None => M_throw (Error "Missing sender-key record during receive")
        | Some current => M_modify (storeSenderKeyRecord m (current :: <[matchIdx := state]> prevStates) (Some receive) false)
        end);
      M_ret (Some plaintext)
  end)%st.

Definition decryptGroupMessage (m : Member) (framedMessage : bytes) : M SenderKeyStore jsstring := (
  do message <- M_lift (parse_group_message framedMessage);
  do loaded <- M_gets (getSenderKey m);
  match loaded with
  | None => M_throw (Error "SENDER_KEY_NOT_FOUND")
  | Some state =>
      do_ M_lift (assertSenderKeyVersion (senderKeyVersion state));
      if negb (bool_decide (senderKeyId state = g_senderKeyId message)) then
        do prevResult <- tryDecryptWithPreviousState m message;
        match prevResult with
        | Some plaintext => M_ret plaintext
        | None => M_throw (Error "SENDER_KEY_MISMATCH")
        end
      else
        decrypt_with_state m message state (fun state receive =>
          do previous <- M_gets (loadPreviousStates m);
          M_modify (storeSenderKeyRecord m (state :: previous) (Some receive) false))
  end)%st.
End Manager.

(** ** The handoff ledger ([handoff-ledger.ts]) *)
Record SenderKeyHandoffKey := { hk_senderKeyId : jsstring; hk_generation : Z }.
Record SenderKeyHandoffTarget := { t_userId : jsstring; t_deviceId : Z; t_registrationId : option Z }.

Definition devicesNeedingKey (groupId : jsstring) (key : SenderKeyHandoffKey) (targets : list SenderKeyHandoffTarget) (s : SenderKeyStore) : list SenderKeyHandoffTarget :=
  let rows := filter (fun r => h_senderKeyId r = hk_senderKeyId key /\ h_generation r = hk_generation key)
                (handoff_list groupId (hk_generation key) (senderKeyHandoffs s)) in
  let handedOff := map (fun r => (h_recipientUserId r, h_recipientDeviceId r, h_recipientRegistrationId r)) rows in
  filter (fun t => match t_registrationId t with
                   | None => true
                   | Some registrationId => bool_decide ((t_userId t, t_deviceId t, registrationId) ∉ handedOff)
                   end = true) targets.

Definition ledger_record (groupId : jsstring) (key : SenderKeyHandoffKey) (device : jsstring * Z) (registrationId now : Z) (s : SenderKeyStore) : SenderKeyStore :=
  with_handoffs (handoff_record {| h_groupId := groupId; h_senderKeyId := hk_senderKeyId key; h_generation := hk_generation key;
    h_recipientUserId := device.1; h_recipientDeviceId := device.2; h_recipientRegistrationId := registrationId; h_acceptedAt := now |}
    (senderKeyHandoffs s)) s.

Definition invalidate (groupId : jsstring) (device : jsstring * Z) : M SenderKeyStore bool := fun s =>
  let r := deleteDeviceInGroup groupId device (senderKeyHandoffs s) in (with_handoffs r.1 s, Ok r.2).

Definition invalidateAccount (user : jsstring) : M SenderKeyStore bool := fun s =>
  let r := deleteAccount user (senderKeyHandoffs s) in (with_handoffs r.1 s, Ok r.2).

(** The key of a group is read in the turn of the group. *)
Definition sweep (currentSenderKeyId : jsstring -> SenderKeyStore -> option jsstring) : M SenderKeyStore Z := fun s =>
  let r := foldl (fun sd groupId =>
    let r := handoff_retain groupId (currentSenderKeyId groupId sd.1) (senderKeyHandoffs sd.1) in (with_handoffs r.1 sd.1, sd.2 + r.2))
    (s, 0) (handoff_groupIds (senderKeyHandoffs s)) in (r.1, Ok r.2).
