(* ===== verification/SenderKeyProofs.v ===== *)
(** * Sender keys: chains, stored keys and messages on the wire

    A [GroupKey] is what a distribution makes common: the id, the chain id,
    the public key and the first chain key.  [on_chain]: a state is at some
    position of the chain of a key.  [group_wire]: the bytes of message [i]. *)
From S2P Require Import Prelude JsMap Utf8 Base64 ProtoWire ProtoFields SignalMessageProofs SenderKeyMessage SenderKeyStore Crypto SenderKeys.

(** ** The store *)
Lemma get_storeSenderKey m st s : getSenderKey m (storeSenderKey m st s) = Some st.
Proof.
  destruct m as [[g u] d]. unfold getSenderKey, storeSenderKey, set_current. cbn [senderKeys with_senderKeys].
  rewrite Map_get_set, decide_True by done. cbn. rewrite Map_get_set, decide_True by done. cbn. by rewrite Map_get_set, decide_True by done.
Qed.

Section Store.
Context (m : Member).

Lemma handoffs_when b g s : senderKeys (delete_handoffs_when b g s) = senderKeys s /\
  senderKeyRecords (delete_handoffs_when b g s) = senderKeyRecords s /\ skippedSenderKeys (delete_handoffs_when b g s) = skippedSenderKeys s.
Proof. by destruct b. Qed.

(** What a record write changes. *)
Lemma store_record_spec current rest receive b s :
  let s' := storeSenderKeyRecord m (current :: rest) receive b s in
  getSenderKey m s' = Some current /\ Map_get m (senderKeyRecords s') = Some (current :: rest) /\
  skippedSenderKeys s' = commit_skipped m receive (skippedSenderKeys s).
Proof.
  unfold storeSenderKeyRecord. cbv zeta. set (s1 := with_skippedKeys _ _). destruct (handoffs_when b m.1.1 s1) as (E1 & E2 & E3).
  split; [|split].
  - rewrite <- (get_storeSenderKey m current s). unfold getSenderKey. by rewrite E1.
  - rewrite E2. unfold s1. cbn [with_skippedKeys with_records senderKeyRecords]. by rewrite Map_get_set, decide_True.
  - by rewrite E3.
Qed.

(** ** Skipped keys *)
Abbreviation Table := (Map SkippedId SkippedSenderMessageKey).

Lemma delete_list_get ids (t : Table) id : Map_get id (foldl (fun t id => Map_delete id t) t ids) =
  if decide (id ∈ ids) then None else Map_get id t.
Proof.
  revert t. induction ids as [|a ids IH]; intros t; cbn [foldl]; [by rewrite decide_False by apply not_elem_of_nil|].
  rewrite IH, Map_get_delete. repeat case_decide; rewrite ?elem_of_cons in *; naive_solver.
Qed.

Lemma delete_oldest_sub count (t : Table) id k : Map_get id (delete_oldest m count t) = Some k -> Map_get id t = Some k.
Proof. unfold delete_oldest. rewrite delete_list_get. by case_decide. Qed.

(** A key in the table after an addition is the added one or was there. *)
Lemma add_skipped_inv cap (t : Table) k id v : Map_get id (add_skipped m cap t k) = Some v ->
  (id = (m, st_senderKeyId k, st_chainIndex k) /\ v = st_messageKey k) \/ Map_get id t = Some v.
Proof.
  unfold add_skipped. cbv zeta. rewrite Map_get_set. case_decide as Hd; [intros [= <-]; by left|]. intros Hg. right.
  case_if_in Hg; [by eapply delete_oldest_sub|done].
Qed.

(** The keys that a commit adds. *)
Definition staged (receive : option SenderKeyReceiveCommit) : list StagedKey :=
  match receive ≫= rc_skippedKeys with Some (_, keys) => keys | None => [] end.

Lemma add_all_inv cap keys : forall (t : Table) id v, Map_get id (foldl (add_skipped m cap) t keys) = Some v ->
  (exists k, k ∈ keys /\ id = (m, st_senderKeyId k, st_chainIndex k) /\ v = st_messageKey k) \/ Map_get id t = Some v.
Proof.
  induction keys as [|k keys IH]; intros t id v Hg; cbn [foldl] in Hg; [by right|].
  destruct (IH _ _ _ Hg) as [(k' & Hk & E)|Hg']; [left; exists k'; split; [by right|done]|].
  apply add_skipped_inv in Hg' as [[-> ->]|?]; [left; exists k; split; [by left|done]|by right].
Qed.

Lemma commit_skipped_inv receive (t : Table) id v : Map_get id (commit_skipped m receive t) = Some v ->
  (exists k, k ∈ staged receive /\ id = (m, st_senderKeyId k, st_chainIndex k) /\ v = st_messageKey k) \/ Map_get id t = Some v.
Proof.
  destruct receive as [[consumed skipped]|]; [|by right]. unfold commit_skipped, staged. cbn [rc_skippedKeys consumedSkippedKey mbind option_bind].
  set (t' := match skipped with Some _ => _ | None => _ end). intros Hg.
  assert (Hg' : Map_get id t' = Some v).
  { destruct consumed as [[kid i]|]; [|done]. rewrite Map_get_delete in Hg. by case_decide. }
  destruct skipped as [[cap keys]|]; [by eapply add_all_inv|by right].
Qed.

(** Without eviction every addition stays. *)
Definition held_by (t : Table) : Z := len (skipped_of m t).

Lemma held_by_set (t : Table) id v : held_by (Map_set id v t) <= held_by t + 1.
Proof.
  unfold held_by, skipped_of, len. rewrite Map_set_keys. case_decide; [lia|]. rewrite filter_app, length_app.
  rewrite filter_cons. case_decide; cbn [length]; rewrite ?filter_nil; cbn [length]; lia.
Qed.

Lemma add_skipped_room cap (t : Table) k : held_by t < cap -> add_skipped m cap t k = Map_set (m, st_senderKeyId k, st_chainIndex k) (st_messageKey k) t.
Proof. intros Hr. unfold add_skipped, held_by in *. cbv zeta. by replace (_ >? 0) with false by lia. Qed.

Lemma add_all_room cap keys : forall (t : Table), held_by t + len keys <= cap ->
  foldl (add_skipped m cap) t keys = foldl (fun t k => Map_set (m, st_senderKeyId k, st_chainIndex k) (st_messageKey k) t) t keys /\
  held_by (foldl (add_skipped m cap) t keys) <= held_by t + len keys.
Proof.
  induction keys as [|k keys IH]; intros t Hr; cbn [foldl]; [unfold len; cbn; split; [done|lia]|]. rewrite len_cons in *.
  pose proof (len_nonneg keys). rewrite add_skipped_room by lia.
  pose proof (held_by_set t (m, st_senderKeyId k, st_chainIndex k) (st_messageKey k)).
  destruct (IH (Map_set (m, st_senderKeyId k, st_chainIndex k) (st_messageKey k) t)) as [E Hh]; [lia|]. split; [done|lia].
Qed.
End Store.

(** ** Chains *)
Section Chain.
Context {C : GroupCrypto} {CL : GroupCryptoLaws C} (cfg : SenderKeysDefaults).

Record GroupKey := { gk_id : jsstring; gk_chainId : Z; gk_public : bytes; gk_chainKey : bytes }.

Definition ck_at (ck : bytes) (n : nat) : bytes := Nat.iter n advanceChainKey ck.
Definition group_message_key (K : GroupKey) (i : Z) : MessageKey := deriveMessageKey cfg (ck_at (gk_chainKey K) (Z.to_nat i)).
Definition skipped_value (K : GroupKey) (i : Z) : SkippedSenderMessageKey :=
  {| sm_cipherKey := mkCipher (group_message_key K i); sm_iv := mkIv (group_message_key K i) |}.

Definition on_chain (K : GroupKey) (st : SenderKeyState) : Prop :=
  senderKeyId st = gk_id K /\ chainId st = gk_chainId K /\ publicSignatureKey st = gk_public K /\
  senderKeyVersion st = SENDER_KEY_FORMAT /\ 0 <= chainIndex st /\ chainKey st = ck_at (gk_chainKey K) (Z.to_nat (chainIndex st)).

(** A key whose id can be an id: not empty and unchanged by UTF-8. *)
Definition key_ok (K : GroupKey) : Prop := plain_name (gk_id K) /\ gk_id K <> [].

Lemma step_on_chain K st : on_chain K st -> on_chain K (step_state st).
Proof.
  intros (E1 & E2 & E3 & E4 & E5 & E6). repeat split; cbn [step_state senderKeyId chainId publicSignatureKey senderKeyVersion chainIndex chainKey]; try done; [lia|].
  rewrite E6. by replace (Z.to_nat (chainIndex st + 1)) with (S (Z.to_nat (chainIndex st))) by lia.
Qed.

Lemma stage_spec K n : forall st keys, on_chain K st ->
  let r := stage_skipped cfg n st keys in
  on_chain K r.1 /\ chainIndex r.1 = chainIndex st + Z.of_nat n /\
  r.2 = keys ++ map (fun j => {| st_senderKeyId := gk_id K; st_chainIndex := j; st_messageKey := skipped_value K j |})
               (seqZ (chainIndex st) (Z.of_nat n)).
Proof.
  induction n as [|n IH]; intros st keys Hst; cbn [stage_skipped]; cbv zeta.
  - cbn. rewrite app_nil_r. split; [done|]. split; [lia|done].
  - destruct (IH (step_state st) (keys ++ [{| st_senderKeyId := senderKeyId st; st_chainIndex := chainIndex st;
      st_messageKey := {| sm_cipherKey := mkCipher (deriveMessageKey cfg (chainKey st)); sm_iv := mkIv (deriveMessageKey cfg (chainKey st)) |} |}])
      (step_on_chain K st Hst)) as (H1 & H2 & H3). split; [done|]. split; [rewrite H2; cbn; lia|].
    rewrite H3, <- app_assoc. f_equal. rewrite (seqZ_cons (chainIndex st)) by lia. cbn [map app].
    destruct Hst as (-> & _ & _ & _ & _ & E). f_equal; [|do 2 f_equal; cbn; lia].
    unfold skipped_value, group_message_key. by rewrite <- E.
Qed.

Lemma derived_lengths ck : length (mkCipher (deriveMessageKey cfg ck)) = 32%nat /\ length (mkIv (deriveMessageKey cfg ck)) = 16%nat.
Proof.
  unfold deriveMessageKey. cbn [mkCipher mkIv]. unfold slice. rewrite !length_take, !length_drop, !hkdf_length. done.
Qed.

(** ** Messages on the wire *)
Definition group_wire (K : GroupKey) (i : Z) (p w : bytes) : Prop := exists c proto sig,
  aes_cbc_encrypt (mkCipher (group_message_key K i)) (mkIv (group_message_key K i)) p = Ok c /\ is_bytes p /\
  encodeSenderKeyMessage {| sk_distributionUuid := Some (utf8Encode (gk_id K)); sk_chainId := Some (gk_chainId K); sk_iteration := i; sk_ciphertext := c |} = Ok proto /\
  ed25519_verify sig (SENDER_KEY_MESSAGE_VERSION :: proto) (gk_public K) = Ok true /\ len sig = SIGNATURE_LEN /\
  frameSenderKeyMessage proto sig = Ok w.

Lemma utf8_nonempty s : plain_name s -> s <> [] -> utf8Encode s <> [].
Proof. intros [H1 H2] Hne E. pose proof (utf8_decode_encode false s H1 H2) as D. rewrite E in D. apply Hne. by injection D. Qed.

Lemma wire_parses K i p w : key_ok K -> group_wire K i p w -> exists c sig proto,
  parse_group_message w = Ok {| g_senderKeyId := gk_id K; g_chainIndex := i; g_ciphertext := c; g_signature := sig |} /\
  aes_cbc_decrypt (mkCipher (group_message_key K i)) (mkIv (group_message_key K i)) c = Ok p /\
  serializeForSigning i c (gk_id K) (gk_chainId K) = Ok (SENDER_KEY_MESSAGE_VERSION :: proto) /\
  crypto_verify (gk_public K) (SENDER_KEY_MESSAGE_VERSION :: proto) sig = true.
Proof.
  intros [Hp Hne] (c & proto & sig & Ec & Hb & Ee & Ev & Es & Ef). exists c, sig, proto.
  destruct (sender_key_frame proto sig (sender_key_nonempty _ _ Ee) Es) as (w' & Ef' & Epw). rewrite Ef in Ef'. injection Ef' as <-.
  split; [|split; [|split]].
  - unfold parse_group_message. rewrite Epw. cbn [mbind result_bind env_protobufBytes env_mac].
    rewrite (sender_key_roundtrip _ _ Ee) by (cbn; intros [= E]; by apply (utf8_nonempty _ Hp Hne)). cbn [mbind result_bind sk_distributionUuid].
    destruct Hp as [H1 H2]. by rewrite utf8_decode_encode.
  - destruct (derived_lengths (ck_at (gk_chainKey K) (Z.to_nat i))) as [L1 L2].
    destruct (aes_cbc_correct _ _ p L1 L2 Hb) as (c' & Ec' & _ & _ & Ed). unfold group_message_key in *. rewrite Ec in Ec'. by injection Ec' as <-.
  - unfold serializeForSigning. destruct (gk_id K) eqn:E; [done|]. by rewrite Ee.
  - unfold crypto_verify. by rewrite Ev.
Qed.

(** ** New keys *)
Definition key_of (r : KeyMaterial) : GroupKey :=
  let keyId := generateUuidV4 (km_uuid r) in
  {| gk_id := keyId; gk_chainId := generateChainId keyId; gk_public := ed25519_public (km_private r); gk_chainKey := km_chainKey r |}.
Definition material_ok (r : KeyMaterial) : Prop := length (km_uuid r) = 16%nat /\ is_bytes (km_uuid r) /\ length (km_private r) = 32%nat.

Lemma hex_ascii b : is_byte b -> Forall (fun c => 0 <= c < 0x80) (hex_byte b).
Proof.
  unfold is_byte, hex_byte, hex_digit. intros Hb. pose proof (Z.mod_pos_bound b 16 ltac:(lia)).
  assert (0 <= b / 16 < 16) by (split; [apply Z.div_pos; lia|apply Z.div_lt_upper_bound; lia]).
  repeat (apply Forall_cons; split; [repeat case_if; b2p; lia|]). constructor.
Qed.

Lemma js_byte_bits x a b : 0 <= a < 256 -> 0 <= b < 256 -> is_byte x -> is_byte (js_or (js_and x a) b).
Proof.
  unfold is_byte, js_or, js_and. intros Ha Hb Hx. rewrite (to_int32_id x), (to_int32_id a), (to_int32_id b) by lia.
  assert (0 <= Z.land x a < 2 ^ 8).
  { split; [apply Z.land_nonneg; lia|]. destruct (decide (Z.land x a = 0)) as [->|]; [lia|]. apply Z.log2_lt_pow2; [pose proof (Z.land_nonneg x a); lia|].
    eapply Z.le_lt_trans; [apply Z.log2_land; lia|]. apply Z.min_lt_iff. left. destruct (decide (x = 0)) as [->|]; [done|]. apply Z.log2_lt_pow2; lia. }
  rewrite to_int32_id by lia. assert (0 <= Z.lor (Z.land x a) b) by (apply Z.lor_nonneg; lia). split; [done|].
  destruct (decide (Z.lor (Z.land x a) b = 0)) as [->|]; [lia|]. change 256 with (2 ^ 8). apply Z.log2_lt_pow2; [lia|]. rewrite Z.log2_lor by lia.
  apply Z.max_lub_lt; [destruct (decide (Z.land x a = 0)) as [->|]; [done|]|destruct (decide (b = 0)) as [->|]; [done|]]; apply Z.log2_lt_pow2; lia.
Qed.

Lemma hex_length b : length (concat (map hex_byte b)) = (2 * length b)%nat.
Proof. induction b as [|x b IH]; [done|]. cbn. lia. Qed.

Lemma uuid_ascii r : material_ok r -> Forall (fun c => 0 <= c < 0x80) (generateUuidV4 (km_uuid r)) /\ length (generateUuidV4 (km_uuid r)) = 36%nat.
Proof.
  intros (Hl & Hb & _). unfold generateUuidV4. set (b := <[8%nat := _]> _).
  assert (Lb : length b = 16%nat) by (unfold b; by rewrite !length_insert).
  assert (Hf : Forall (fun c => 0 <= c < 0x80) (concat (map hex_byte b))).
  { apply Forall_concat, Forall_map. eapply Forall_impl; [|apply hex_ascii].
    assert (B1 : is_bytes (<[6%nat := js_or (js_and (nthZ 0 (km_uuid r) 6) 15) 64]> (km_uuid r))).
    { apply Forall_insert; [done|]. apply js_byte_bits; [lia..|]. rewrite Forall_forall in Hb. apply Hb, nth_in. rewrite Hl. cbn. lia. }
    apply Forall_insert; [done|]. apply js_byte_bits; [lia..|]. rewrite Forall_forall in B1. apply B1, nth_in. rewrite length_insert, Hl. cbn. lia. }
  split.
  - unfold slice. repeat (apply Forall_app; split); try (by apply Forall_take, Forall_drop); by repeat constructor.
  - pose proof (hex_length b) as Lh. rewrite Lb in Lh. unfold slice, len. rewrite !length_app, !length_take, !length_drop, Lh. done.
Qed.

Lemma uuid_ok r : material_ok r -> key_ok (key_of r).
Proof.
  intros Hr. destruct (uuid_ascii r Hr) as [Ha Hl]. split; [by apply ascii_plain|]. cbn [key_of gk_id]. by intros E; rewrite E in Hl.
Qed.

Lemma new_on_chain r gen now : on_chain (key_of r) (new_state r gen now).
Proof. by repeat split. Qed.

(** ** Encryption *)
Definition own_state (K : GroupKey) (st : SenderKeyState) : Prop :=
  on_chain K st /\ gk_public K = ed25519_public (signatureKey st) /\ length (signatureKey st) = 32%nat.

Lemma encrypt_spec K st now m p s : own_state K st -> getSenderKey m s = Some st -> is_bytes p ->
  (exists e, encryptGroupMessage cfg now m p s = (s, Throw e)) \/
  (exists w, encryptGroupMessage cfg now m p s = (storeSenderKey m (step_state st) s, Ok w) /\ group_wire K (chainIndex st) p w).
Proof.
  intros (Hst & Hpub & Hpriv) Hg Hp. unfold encryptGroupMessage. rewrite run_gets, Hg.
  destruct Hst as (E1 & E2 & E3 & E4 & E5 & E6). rewrite E4.
  change (assertSenderKeyVersion SENDER_KEY_FORMAT) with (Ok tt : result unit). rewrite run_lift.
  destruct (ownSenderKeyExpiry _ _ _); [left; by eexists|]. case_if; [left; by eexists|]. cbv zeta.
  destruct (derived_lengths (chainKey st)) as [L1 L2]. destruct (aes_cbc_correct _ _ p L1 L2 Hp) as (c & Ec & _). rewrite Ec, run_lift.
  destruct (encodeSenderKeyMessage _) as [proto|] eqn:Ee; [|left; by eexists]. rewrite run_lift.
  destruct (ed25519_correct (signatureKey st) (u8 sender_key_version_byte :: proto) Hpriv) as (sig & Es & Hsig & _ & Ev).
  rewrite Es, run_lift, run_modify. right.
  assert (Hlen : len sig = SIGNATURE_LEN) by (unfold len; by rewrite Hsig).
  destruct (sender_key_frame proto sig (sender_key_nonempty _ _ Ee) Hlen) as (w & Ef & _). exists w. unfold M_lift. rewrite Ef. split; [done|].
  exists c, proto, sig. unfold group_message_key. rewrite <- E6, <- E1, <- E2, Hpub. by repeat split.
Qed.

(** ** A receiver's states *)
(** Every stored skipped key that belongs to [K] is the key of its index. *)
Definition skipped_ok (K : GroupKey) (m : Member) (s : SenderKeyStore) : Prop := forall j k,
  getSkippedSenderKey m (gk_id K) j s = Some k -> k = skipped_value K j.

Lemma skipped_key_plaintext K m i p w c sig s s' t : key_ok K -> group_wire K i p w -> skipped_ok K m s ->
  parse_group_message w = Ok {| g_senderKeyId := gk_id K; g_chainIndex := i; g_ciphertext := c; g_signature := sig |} ->
  decryptWithSkippedKey m {| g_senderKeyId := gk_id K; g_chainIndex := i; g_ciphertext := c; g_signature := sig |} s = (s', Ok t) ->
  encodeLosslessPlaintext p = Ok t.
Proof.
  intros HK Hw Hs Ep E. destruct (wire_parses K i p w HK Hw) as (c' & sig' & proto & Ep' & Ed & _). rewrite Ep in Ep'. injection Ep' as <- <-.
  unfold decryptWithSkippedKey in E. inv_bind E k s1 E1. injection E1 as <- <-. destruct (getSkippedSenderKey _ _ _ s) as [k|] eqn:Ek; [|done].
  apply Hs in Ek as ->. cbn [g_ciphertext sm_cipherKey sm_iv skipped_value] in E. inv_bind E pb s2 E2. apply M_lift_inv in E2 as [-> E2].
  unfold aesCbcDecrypt in E2. rewrite Ed in E2. injection E2 as <-. inv_bind E pt s3 E3. apply M_lift_inv in E3 as [-> E3]. rewrite E3. f_equal.
  inv_bind E states s4 E4. injection E4 as <- <-. destruct (getSenderKeyRecord m s) as [[|? ?]|]; try done.
  inv_bind E u s5 E5. by injection E as _ ->.
Qed.

Lemma state_plaintext K m i p w c sig st commit s s' t : key_ok K -> group_wire K i p w -> on_chain K st -> skipped_ok K m s ->
  parse_group_message w = Ok {| g_senderKeyId := gk_id K; g_chainIndex := i; g_ciphertext := c; g_signature := sig |} ->
  decrypt_with_state cfg m {| g_senderKeyId := gk_id K; g_chainIndex := i; g_ciphertext := c; g_signature := sig |} st commit s = (s', Ok t) ->
  encodeLosslessPlaintext p = Ok t.
Proof.
  intros HK Hw Hst Hs Ep E. destruct (wire_parses K i p w HK Hw) as (c' & sig' & proto & Ep' & Ed & _). rewrite Ep in Ep'. injection Ep' as <- <-.
  unfold decrypt_with_state in E. inv_bind E data s1 E1. apply M_lift_inv in E1 as [-> _]. case_if_in E; [done|]. case_if_in E; [done|].
  case_if_in E; [by eapply skipped_key_plaintext|]. cbn [g_chainIndex g_ciphertext] in *. clear Hb0. b2p.
  destruct (stage_spec K (Z.to_nat (i - chainIndex st)) st [] Hst) as (Hc & Hi & _).
  destruct (stage_skipped _ _ _ _) as [st' keys]. cbn [fst] in *. inv_bind E pb s2 E2. apply M_lift_inv in E2 as [-> E2].
  destruct Hc as (_ & _ & _ & _ & _ & Ek). rewrite Ek in E2. replace (chainIndex st') with i in E2 by lia.
  unfold aesCbcDecrypt in E2. unfold group_message_key in Ed. rewrite Ed in E2. injection E2 as <-.
  inv_bind E pt s3 E3. apply M_lift_inv in E3 as [-> E3]. rewrite E3. f_equal. inv_bind E u s4 E4. by injection E as _ ->.
Qed.
End Chain.
