(* ===== verification/SenderKeySystem.v ===== *)
(** * A sending device, a receiving device and the network of a group

    The sender creates and rotates keys, distributes them and encrypts; the
    receiver is given distributions and messages in any order, any number of
    times, or never.  [store_ok] says that what a store holds for the sender
    are positions and keys of the chains that the sender has created. *)
From stdpp Require Import sets.
From S2P Require Import Prelude JsMap Utf8 Base64 ProtoWire ProtoFields SignalMessageProofs SenderKeyMessage SenderKeyStore Crypto SenderKeys SenderKeyProofs SignalMessage.

Section System.
Context {C : GroupCrypto} {CL : GroupCryptoLaws C} (cfg : SenderKeysDefaults) (m : Member).

Definition valid (keys : list GroupKey) (st : SenderKeyState) : Prop := exists K, K ∈ keys /\ on_chain K st.
Definition staged_valid (keys : list GroupKey) (k : StagedKey) : Prop :=
  exists K, K ∈ keys /\ gk_id K = st_senderKeyId k /\ st_messageKey k = skipped_value cfg K (st_chainIndex k).

Record store_ok (keys : list GroupKey) (s : SenderKeyStore) : Prop := {
  so_current : forall st, getSenderKey m s = Some st -> valid keys st;
  so_record : forall l, Map_get m (senderKeyRecords s) = Some l -> Forall (valid keys) l;
  so_skipped : forall kid j k, getSkippedSenderKey m kid j s = Some k -> exists K, K ∈ keys /\ gk_id K = kid /\ k = skipped_value cfg K j }.

Section Keys.
Context (keys : list GroupKey).

Lemma record_valid s l : store_ok keys s -> getSenderKeyRecord m s = Some l -> Forall (valid keys) l.
Proof.
  intros Hs. unfold getSenderKeyRecord. destruct (Map_get m (senderKeyRecords s)) as [r|] eqn:Er; [intros [= <-]; by apply (so_record _ _ Hs)|].
  destruct (getSenderKey m s) as [st|] eqn:Est; [|done]. intros [= <-]. apply Forall_singleton. by apply (so_current _ _ Hs).
Qed.

Lemma previous_valid s : store_ok keys s -> Forall (valid keys) (loadPreviousStates m s).
Proof.
  intros Hs. unfold loadPreviousStates. destruct (getSenderKeyRecord m s) as [r|] eqn:Er; [|constructor].
  case_if; [|constructor]. by apply Forall_drop, Forall_take, (record_valid s).
Qed.

Lemma store_record_ok states receive b s : Forall (valid keys) states -> Forall (staged_valid keys) (staged receive) -> store_ok keys s ->
  store_ok keys (storeSenderKeyRecord m states receive b s).
Proof.
  destruct states as [|current rest]; [done|]. intros Hst Hk Hs. destruct (store_record_spec m current rest receive b s) as (E1 & E2 & E3).
  split.
  - intros st. rewrite E1. intros [= <-]. by apply Forall_cons in Hst as [? _].
  - intros l. rewrite E2. by intros [= <-].
  - intros kid j k. unfold getSkippedSenderKey. rewrite E3. intros [(k' & Hin & [= -> ->] & ->)|Hg]%commit_skipped_inv; [|by apply (so_skipped _ _ Hs)].
    rewrite Forall_forall in Hk. destruct (Hk k' Hin) as (K & ? & ? & ->). by exists K.
Qed.

Lemma process_ok d now : valid keys (received_state d now) -> maintains (store_ok keys) (processSenderKeyDistribution m d now).
Proof.
  intros Hd. unfold processSenderKeyDistribution. apply maintains_bind; [auto with maintain|]. intros _.
  assert (HI : forall prev, Forall (valid keys) prev -> maintains (store_ok keys) (M_modify (persistSenderKeyRecord m (received_state d now) prev false))).
  { intros prev Hp. apply maintains_modify. intros s. apply store_record_ok; [by apply Forall_cons|constructor]. }
  apply maintains_bind_gets. intros s Hs. pose proof (so_current _ _ Hs) as Hc. pose proof (previous_valid s Hs) as Hp.
  unfold M_bind at 1, M_gets at 1. destruct (getSenderKey m s) as [existing|]; [|by apply HI].
  specialize (Hc existing eq_refl). revert Hs. generalize (loadPreviousStates m s) Hp. clear Hp. intros previous Hp.
  apply (maintains_bind (store_ok keys)); [auto with maintain|]. intros _.
  repeat case_if; try apply maintains_ret; apply HI; [done|]. apply Forall_take. by apply Forall_cons.
Qed.

Lemma skipped_decrypt_ok message : maintains (store_ok keys) (decryptWithSkippedKey m message).
Proof.
  unfold decryptWithSkippedKey. apply maintains_bind; [auto with maintain|]. intros [k|]; [|auto with maintain].
  do 2 (apply maintains_bind; [auto with maintain|]; intros ?). apply maintains_bind_gets.
  intros s Hs. destruct (getSenderKeyRecord m s) as [[|st l]|] eqn:E; try done.
  apply (store_record_ok (st :: l)); [by eapply record_valid|constructor|done].
Qed.

Lemma with_state_ok message st commit : valid keys st -> g_senderKeyId message = senderKeyId st ->
  (forall st' r, valid keys st' -> senderKeyId st' = senderKeyId st -> Forall (staged_valid keys) (staged (Some r)) -> maintains (store_ok keys) (commit st' r)) ->
  maintains (store_ok keys) (decrypt_with_state cfg m message st commit).
Proof.
  intros (K & HK & Hst) Hid Hc. unfold decrypt_with_state. apply maintains_bind; [auto with maintain|]. intros data.
  do 2 (case_if; [auto with maintain|]). case_if; [apply skipped_decrypt_ok|].
  destruct (stage_spec cfg K (Z.to_nat (g_chainIndex message - chainIndex st)) st [] Hst) as (H1 & _ & H2).
  destruct (stage_skipped _ _ _ _) as [st' ks]. cbn [fst snd app] in *. do 2 (apply maintains_bind; [auto with maintain|]; intros ?).
  apply maintains_bind; [|auto with maintain]. apply Hc.
  - exists K. split; [done|]. by apply step_on_chain.
  - destruct Hst as [-> _]. by destruct H1 as [<- _].
  - cbn [staged mbind option_bind rc_skippedKeys]. rewrite H2. apply Forall_forall. intros k (j & -> & _)%list_elem_of_fmap. by exists K.
Qed.

Lemma decrypt_ok w : maintains (store_ok keys) (decryptGroupMessage cfg m w).
Proof.
  unfold decryptGroupMessage. apply maintains_bind; [auto with maintain|]. intros message. apply maintains_bind_gets.
  intros s Hs. pose proof (so_current _ _ Hs) as Hc. destruct (getSenderKey m s) as [st|]; [|done]. specialize (Hc st eq_refl). revert s Hs.
  apply (maintains_bind (store_ok keys)); [auto with maintain|]. intros _. case_bool_decide as Hid; cbn [negb].
  - apply with_state_ok; [done|done|]. intros st' r Hst' _ Hr. apply maintains_bind_gets. intros s Hs.
    apply store_record_ok; [apply Forall_cons; split; [done|by apply previous_valid]|done..].
  - apply maintains_bind; [|intros []; auto with maintain]. unfold tryDecryptWithPreviousState. apply maintains_bind_gets.
    intros s Hs. pose proof (previous_valid s Hs) as Hp. destruct (list_find _ _) as [[i prev]|] eqn:Ef; [|done]. apply list_find_Some in Ef as (Hi & Hid' & _).
    pose proof Hp as Hprev. rewrite Forall_lookup in Hprev. specialize (Hprev i prev Hi). revert s Hs Hp Hi. intros s.
    generalize (loadPreviousStates m s). intros l Hs Hp _. revert s Hs.
    apply (maintains_bind (store_ok keys)); [auto with maintain|]. intros _. apply maintains_bind; [|auto with maintain].
    apply with_state_ok; [done|done|]. intros st' r Hst' _ Hr. apply maintains_bind_gets. intros s Hs. pose proof (so_current _ _ Hs) as Hcur.
    destruct (getSenderKey m s) as [current|]; [|done]. apply store_record_ok; [|done..].
    apply Forall_cons. split; [by apply Hcur|]. by apply Forall_insert.
Qed.
End Keys.

Lemma store_ok_grow keys keys' s : keys ⊆ keys' -> store_ok keys s -> store_ok keys' s.
Proof.
  intros Hsub [H1 H2 H3]. assert (Hv : forall st, valid keys st -> valid keys' st) by (intros st (K & ? & ?); exists K; auto).
  split; [auto|intros l Hl; eapply Forall_impl; eauto|]. intros kid j k Hk. destruct (H3 kid j k Hk) as (K & ? & ?). exists K. auto.
Qed.

(** ** Agreement *)
Lemma id_unique keys K K' : NoDup (map gk_id keys) -> K ∈ keys -> K' ∈ keys -> gk_id K = gk_id K' -> K = K'.
Proof.
  intros Hd (i & Hi)%list_elem_of_lookup (j & Hj)%list_elem_of_lookup E.
  assert (i = j) as ->; [|congruence]. apply (NoDup_lookup (map gk_id keys) i j (gk_id K')); [done|..]; rewrite list_lookup_fmap; [rewrite Hi, <- E|rewrite Hj]; done.
Qed.

(** Whatever a receiver accepts for bytes that the sender has encrypted is the
    sender's plaintext. *)
Lemma decrypt_agrees keys K i p w s s' t : NoDup (map gk_id keys) -> K ∈ keys -> key_ok K -> store_ok keys s -> group_wire cfg K i p w ->
  decryptGroupMessage cfg m w s = (s', Ok t) -> encodeLosslessPlaintext p = Ok t.
Proof.
  intros Hd HK Hok Hs Hw E. destruct (wire_parses cfg K i p w Hok Hw) as (c & sig & proto & Ep & _).
  assert (Hsk : skipped_ok cfg K m s).
  { intros j k Hk. destruct (so_skipped _ _ Hs _ _ _ Hk) as (K' & HK' & Eid & ->). by rewrite (id_unique keys K' K). }
  assert (Huse : forall st, valid keys st -> senderKeyId st = gk_id K -> on_chain K st).
  { intros st (K' & HK' & Hst) Eid. rewrite <- (id_unique keys K' K); try done. by destruct Hst as [<- _]. }
  unfold decryptGroupMessage in E. rewrite Ep, run_lift, run_gets in E. pose proof (so_current _ _ Hs) as Hc.
  destruct (getSenderKey m s) as [st|]; [|done]. specialize (Hc st eq_refl). inv_bind E u s1 E1. apply M_lift_inv in E1 as [-> _].
  cbn [g_senderKeyId] in E. case_bool_decide as Hid; cbn [negb] in E.
  - eapply (state_plaintext cfg K); try done. by apply Huse.
  - inv_bind E r s2 E2. destruct r as [t'|]; [|done]. injection E as _ ->. unfold tryDecryptWithPreviousState in E2. rewrite run_gets in E2.
    destruct (list_find _ _) as [[j prev]|] eqn:Ef; [|done]. apply list_find_Some in Ef as (Hj & Hid' & _). cbn [g_senderKeyId] in Hid'.
    pose proof (previous_valid keys s Hs) as Hp. rewrite Forall_lookup in Hp. specialize (Hp j prev Hj).
    inv_bind E2 u' s3 E3. apply M_lift_inv in E3 as [-> _]. inv_bind E2 t'' s4 E4. injection E2 as _ ->.
    eapply (state_plaintext cfg K); try done. by apply Huse.
Qed.

(** ** Runs *)
Record Group := {
  g_sender : SenderKeyStore; g_receiver : SenderKeyStore;
  g_keys : list GroupKey;                                   (* the keys created so far *)
  g_distributions : list SenderKeyDistributionMessage;      (* what has been sent *)
  g_wires : list (bytes * bytes) }.                         (* bytes and plaintext *)

(** Random ids do not repeat. *)
Definition fresh_material (r : KeyMaterial) (g : Group) : Prop := material_ok r /\ gk_id (key_of r) ∉ map gk_id (g_keys g).

Definition add_key (r : KeyMaterial) (s' : SenderKeyStore) (d : SenderKeyDistributionMessage) (g : Group) : Group := {|
  g_sender := s'; g_receiver := g_receiver g; g_keys := g_keys g ++ [key_of r]; g_distributions := g_distributions g ++ [d]; g_wires := g_wires g |}.
Definition set_receiver (s' : SenderKeyStore) (g : Group) : Group := {|
  g_sender := g_sender g; g_receiver := s'; g_keys := g_keys g; g_distributions := g_distributions g; g_wires := g_wires g |}.

Inductive group_step : Group -> Group -> Prop :=
  | group_create r now s' kid d g : fresh_material r g -> createSenderKey m r now (g_sender g) = (s', Ok (kid, d)) -> group_step g (add_key r s' d g)
  | group_rotate r now s' kid d g : fresh_material r g -> rotateSenderKey m r now (g_sender g) = (s', Ok (kid, d)) -> group_step g (add_key r s' d g)
  | group_redistribute d g : getCurrentSenderKeyDistribution m (g_sender g) = (g_sender g, Ok (Some d)) ->
      group_step g {| g_sender := g_sender g; g_receiver := g_receiver g; g_keys := g_keys g; g_distributions := g_distributions g ++ [d]; g_wires := g_wires g |}
  | group_encrypt now p s' w g : is_bytes p -> encryptGroupMessage cfg now m p (g_sender g) = (s', Ok w) ->
      group_step g {| g_sender := s'; g_receiver := g_receiver g; g_keys := g_keys g; g_distributions := g_distributions g; g_wires := g_wires g ++ [(w, p)] |}
  | group_install d now g : d ∈ g_distributions g -> group_step g (set_receiver (processSenderKeyDistribution m d now (g_receiver g)).1 g)
  | group_deliver w p g : (w, p) ∈ g_wires g -> group_step g (set_receiver (decryptGroupMessage cfg m w (g_receiver g)).1 g).

Definition empty_store : SenderKeyStore := {| senderKeys := []; senderKeyRecords := []; skippedSenderKeys := []; senderKeyHandoffs := [] |}.
Definition empty_group : Group := {| g_sender := empty_store; g_receiver := empty_store; g_keys := []; g_distributions := []; g_wires := [] |}.
Definition group_run (g : Group) : Prop := rtc group_step empty_group g.

Record group_ok (g : Group) : Prop := {
  go_ids : NoDup (map gk_id (g_keys g));
  go_keys : Forall key_ok (g_keys g);
  go_sender : forall st, getSenderKey m (g_sender g) = Some st -> exists K, K ∈ g_keys g /\ own_state K st;
  go_dists : Forall (fun d => forall now, valid (g_keys g) (received_state d now)) (g_distributions g);
  go_wires : Forall (fun wp => exists K i, K ∈ g_keys g /\ group_wire cfg K i wp.2 wp.1) (g_wires g);
  go_receiver : store_ok (g_keys g) (g_receiver g) }.

Lemma valid_grow keys keys' st : keys ⊆ keys' -> valid keys st -> valid keys' st.
Proof. intros Hs (K & ? & ?). exists K. auto. Qed.

(** A new key of the sender. *)
Lemma add_key_ok r gen now prev d g : fresh_material r g -> group_ok g -> d = distribution_of (new_state r gen now) ->
  group_ok (add_key r (persistSenderKeyRecord m (new_state r gen now) prev true (g_sender g)) d g).
Proof.
  intros [Hr Hf] [H1 H2 H3 H4 H5 H6] ->. assert (Hsub : g_keys g ⊆ g_keys g ++ [key_of r]) by set_solver.
  assert (Hin : key_of r ∈ g_keys g ++ [key_of r]) by set_solver. split; cbn [add_key g_sender g_receiver g_keys g_distributions g_wires].
  - rewrite map_app. cbn [map]. apply NoDup_app. split; [done|]. split; [|apply NoDup_singleton]. intros x Hx Hx'.
    apply list_elem_of_singleton in Hx' as ->. done.
  - apply Forall_app. split; [done|]. apply Forall_singleton. by apply uuid_ok.
  - intros st. unfold persistSenderKeyRecord. destruct (store_record_spec m (new_state r gen now) prev None true (g_sender g)) as [-> _].
    intros [= <-]. exists (key_of r). split; [done|]. split; [apply new_on_chain|]. by destruct Hr as (_ & _ & ?).
  - apply Forall_app. split; [eapply Forall_impl; [exact H4|]; intros d Hd now'; by eapply valid_grow|].
    apply Forall_singleton. intros now'. exists (key_of r). split; [done|]. by repeat split.
  - eapply Forall_impl; [exact H5|]. intros [w p] (K & i & HK & Hw). exists K, i. auto.
  - by eapply store_ok_grow.
Qed.

Lemma step_group_ok g g' : group_step g g' -> group_ok g -> group_ok g'.
Proof.
  intros Hstep Hg. destruct Hstep as [r now s' kid d g Hf E|r now s' kid d g Hf E|d g E|now p s' w g Hp E|d now g Hd|w p g Hw].
  - unfold createSenderKey in E. rewrite run_modify in E. injection E as <- _ <-. by apply add_key_ok.
  - unfold rotateSenderKey in E. rewrite run_gets in E. inv_bind E u s1 E1.
    assert (s1 = g_sender g) as ->.
    { destruct (getSenderKey m (g_sender g)); [by apply M_lift_inv in E1 as [-> _]|by injection E1]. }
    rewrite run_gets, run_modify in E. injection E as <- _ <-. by apply add_key_ok.
  - destruct Hg as [H1 H2 H3 H4 H5 H6]. split; try done. cbn [g_keys g_distributions]. apply Forall_app. split; [done|]. apply Forall_singleton.
    unfold getCurrentSenderKeyDistribution in E. rewrite run_gets in E. destruct (getSenderKey m (g_sender g)) as [st|]; [|done].
    destruct (H3 st eq_refl) as (K & HK & (Hst & _)). inv_bind E d' s1 E1. apply M_lift_inv in E1 as [-> E1]. injection E as ->.
    unfold currentDistribution in E1. apply bind_Ok in E1 as (_ & _ & E1). apply Ok_inj in E1 as <-. intros now. exists K. split; [done|].
    destruct Hst as (? & ? & ? & ? & ? & ?). by repeat split.
  - destruct Hg as [H1 H2 H3 H4 H5 H6]. destruct (getSenderKey m (g_sender g)) as [st|] eqn:Est.
    2:{ unfold encryptGroupMessage in E. by rewrite run_gets, Est in E. }
    destruct (H3 st eq_refl) as (K & HK & Hown). destruct (encrypt_spec cfg K st now m p (g_sender g) Hown Est Hp) as [(e & E')|(w' & E' & Hw)];
      rewrite E' in E; [done|]. injection E as <- <-. split; try done; cbn [g_keys g_sender g_wires].
    + intros st'. rewrite get_storeSenderKey. intros [= <-]. exists K. split; [done|]. destruct Hown as (Hst & ? & ?).
      split; [by apply step_on_chain|done].
    + apply Forall_app. split; [done|]. apply Forall_singleton. by exists K, (chainIndex st).
  - destruct Hg as [H1 H2 H3 H4 H5 H6]. split; try done. cbn [g_keys g_receiver set_receiver]. apply process_ok; [|done].
    rewrite Forall_forall in H4. by apply H4.
  - destruct Hg as [H1 H2 H3 H4 H5 H6]. split; try done. cbn [g_keys g_receiver set_receiver]. by apply decrypt_ok.
Qed.

Lemma empty_group_ok : group_ok empty_group.
Proof.
  split; cbn; try constructor; try done; intros; destruct m as [[? ?] ?]; done.
Qed.

Lemma run_group_ok g : group_run g -> group_ok g.
Proof.
  intros Hr. refine (rtc_ind_r (fun g => group_ok g) empty_group empty_group_ok _ g Hr).
  intros g1 g2 _ Hs. by apply step_group_ok.
Qed.
End System.

(** ** Deliveries of one sender key, in any order and with repetitions

    [receiving K R s]: the store [s] receives on the chain of [K] from its
    first message, the messages of the set [R] have been decrypted, and every
    message that was skipped can still be decrypted. *)
Section Delivery.
Context {C : GroupCrypto} {CL : GroupCryptoLaws C} (cfg : SenderKeysDefaults) (m : Member).

(** ** The sender's side *)
Lemma chain_id_range kid : 0 <= generateChainId kid < 2 ^ 32.
Proof. unfold generateChainId, js_ushr. change (0 mod 32) with 0. rewrite Z.shiftr_0_r. apply Z.mod_pos_bound. lia. Qed.

Lemma encode_message_ok u c i t : len u < 2 ^ 32 -> 0 <= c < 2 ^ 32 -> 0 <= i < 2 ^ 32 -> len t < 2 ^ 32 ->
  exists b, encodeSenderKeyMessage {| sk_distributionUuid := Some u; sk_chainId := Some c; sk_iteration := i; sk_ciphertext := t |} = Ok b.
Proof.
  intros Hu Hc Hi Ht. unfold encodeSenderKeyMessage. cbn [sk_distributionUuid sk_chainId sk_iteration sk_ciphertext opt_field].
  rewrite (encodeBytesField_ok 1), (encodeUint32Field_ok 2), (encodeUint32Field_ok 3), (encodeBytesField_ok 4) by (done || lia). by eexists.
Qed.

Definition sendable (now : Z) (p : bytes) (st : SenderKeyState) : Prop :=
  is_bytes p /\ len p < 2 ^ 31 /\ ownSenderKeyExpiry now st (maxSenderKeyAge cfg) = None /\ chainIndex st < 0xfffffffe.

Lemma encrypt_ok r st now p s : material_ok r -> own_state (key_of r) st -> getSenderKey m s = Some st -> sendable now p st ->
  exists w, encryptGroupMessage cfg now m p s = (storeSenderKey m (step_state st) s, Ok w) /\ group_wire cfg (key_of r) (chainIndex st) p w.
Proof.
  intros Hr Hown Hg (Hp & Hlp & Hexp & Hci).
  destruct (encrypt_spec cfg (key_of r) st now m p s Hown Hg Hp) as [(e & E)|?]; [|done]. exfalso. revert E.
  destruct Hown as (Hst & Hpub & Hpriv). unfold encryptGroupMessage. rewrite run_gets, Hg.
  destruct Hst as (E1 & E2 & E3 & E4 & E5 & E6). rewrite E4.
  change (assertSenderKeyVersion SENDER_KEY_FORMAT) with (Ok tt : result unit). rewrite run_lift, Hexp. replace (_ >=? _) with false by lia. cbv zeta.
  destruct (derived_lengths cfg (chainKey st)) as [L1 L2]. destruct (aes_cbc_correct _ _ p L1 L2 Hp) as (c & Ec & _ & Hlc & _). rewrite Ec, run_lift.
  destruct (uuid_ascii r Hr) as [Ha Hl]. rewrite E1, E2. cbn [key_of gk_id gk_chainId]. rewrite utf8_ascii by done.
  destruct (encode_message_ok (generateUuidV4 (km_uuid r)) (generateChainId (generateUuidV4 (km_uuid r))) (chainIndex st) c) as [b ->];
    [unfold len; lia|apply chain_id_range|lia|lia|]. rewrite run_lift.
  destruct (ed25519_correct (signatureKey st) (u8 sender_key_version_byte :: b) Hpriv) as (sig & -> & Hsig & _). rewrite run_lift, run_modify.
  unfold M_lift, frameSenderKeyMessage, len. by rewrite Hsig.
Qed.

(** Encrypt a list of messages, one after the other. *)
Fixpoint encrypt_all (now : Z) (ps : list bytes) : M SenderKeyStore (list bytes) :=
  match ps with
  | [] => M_ret []
  | p :: ps => (do w <- encryptGroupMessage cfg now m p; do ws <- encrypt_all now ps; M_ret (w :: ws))%st
  end.

Lemma encrypt_all_ok r now ps : material_ok r -> forall st s, own_state (key_of r) st -> getSenderKey m s = Some st ->
  Forall (fun p => is_bytes p /\ len p < 2 ^ 31) ps -> ownSenderKeyExpiry now st (maxSenderKeyAge cfg) = None ->
  chainIndex st + len ps <= 0xfffffffe ->
  exists s' ws, encrypt_all now ps s = (s', Ok ws) /\ length ws = length ps /\
    forall j p, ps !! j = Some p -> exists w, ws !! j = Some w /\ group_wire cfg (key_of r) (chainIndex st + Z.of_nat j) p w.
Proof.
  intros Hr. induction ps as [|p ps IH]; intros st s Hown Hg Hps Hexp Hi; [by exists s, []|]. apply Forall_cons in Hps as [[Hp Hlp] Hps].
  rewrite len_cons in Hi. pose proof (len_nonneg ps). destruct (encrypt_ok r st now p s Hr Hown Hg) as (w & E & Hw); [repeat split; [done..|lia]|].
  destruct (IH (step_state st) (storeSenderKey m (step_state st) s)) as (s' & ws & E' & Hl & Hws); [|apply get_storeSenderKey|done|exact Hexp|cbn; lia|].
  { destruct Hown as (? & ? & ?). split; [by apply step_on_chain|done]. }
  exists s', (w :: ws). cbn [encrypt_all]. rewrite (M_bind_Ok _ _ _ _ _ E), (M_bind_Ok _ _ _ _ _ E'). split; [done|]. split; [cbn; by rewrite Hl|].
  intros [|j] q Hj; cbn in Hj; [injection Hj as <-; exists w; rewrite Z.add_0_r; done|].
  destruct (Hws j q Hj) as (w' & ? & ?). exists w'. split; [done|]. replace (chainIndex st + Z.of_nat (S j)) with (chainIndex (step_state st) + Z.of_nat j) by (cbn; lia). done.
Qed.

(** ** The receiver's side *)
Record receiving (K : GroupKey) (R : gset Z) (s : SenderKeyStore) : Prop := {
  rv_state : exists st rest, getSenderKey m s = Some st /\ Map_get m (senderKeyRecords s) = Some (st :: rest) /\ on_chain K st /\
    (forall i, i ∈ R -> 0 <= i < chainIndex st) /\
    (forall i, is_Some (getSkippedSenderKey m (gk_id K) i s) <-> 0 <= i < chainIndex st /\ i ∉ R);
  rv_keys : forall i k, getSkippedSenderKey m (gk_id K) i s = Some k -> k = skipped_value cfg K i;
  rv_ids : forall id, id ∈ skipped_of m (skippedSenderKeys s) -> id.1.2 = gk_id K;
  rv_nodup : NoDup (skippedSenderKeys s).*1 }.

Lemma receiving_count K R s st : receiving K R s -> getSenderKey m s = Some st ->
  held_by m (skippedSenderKeys s) + Z.of_nat (size R) <= chainIndex st.
Proof.
  intros Hs Hg. destruct (rv_state _ _ _ Hs) as (st' & rest & Hg' & _ & Hst & HR & Hk). rewrite Hg in Hg'. injection Hg' as <-.
  set (ids := skipped_of m (skippedSenderKeys s)).
  assert (Hnd : NoDup (map snd ids)).
  { apply NoDup_fmap_2_strong; [|by apply NoDup_filter, (rv_nodup _ _ _ Hs)]. intros [[x1 y1] z1] [[x2 y2] z2] H1 H2 E. cbn in E. subst z2.
    pose proof (rv_ids _ _ _ Hs _ H1) as I1. pose proof (rv_ids _ _ _ Hs _ H2) as I2.
    apply list_elem_of_filter in H1 as [M1 _], H2 as [M2 _]. cbn in *. by subst. }
  assert (Hin : forall i, i ∈ map snd ids -> 0 <= i < chainIndex st /\ i ∉ R).
  { intros i ([[x y] z] & -> & Hid)%list_elem_of_fmap. apply Hk. pose proof (rv_ids _ _ _ Hs _ Hid) as I. apply list_elem_of_filter in Hid as [M Hid].
    cbn in *. subst x y. apply list_elem_of_fmap in Hid as ([id v] & E & Hid). cbn in E. subst id. exists v. apply Map_get_Some; [apply (rv_nodup _ _ _ Hs)|done]. }
  pose proof (NoDup_interval_length (elements R ++ map snd ids) (chainIndex st)) as L. destruct Hst as (_ & _ & _ & _ & H0 & _).
  unfold held_by. fold ids. unfold len in *. rewrite length_app, length_map in L. change (length (elements R)) with (size R) in L.
  enough (Z.of_nat (size R + length ids) <= chainIndex st) by lia. apply L; [|intros i Hi|done].
  - apply NoDup_app. split; [apply NoDup_elements|]. split; [|done]. intros i Hi Hi'. apply elem_of_elements in Hi. by apply Hin in Hi' as [_ ?].
  - apply elem_of_app in Hi as [Hi|Hi]; [apply elem_of_elements in Hi; by apply HR|by apply Hin].
Qed.

(** The table after the skipped keys [a .. a + n - 1] have been added. *)
Definition add_run (K : GroupKey) (a : Z) (n : nat) (t : Map SkippedId SkippedSenderMessageKey) : Map SkippedId SkippedSenderMessageKey :=
  foldl (fun t k => Map_set (m, st_senderKeyId k, st_chainIndex k) (st_messageKey k) t) t
    (map (fun j => {| st_senderKeyId := gk_id K; st_chainIndex := j; st_messageKey := skipped_value cfg K j |}) (seqZ a (Z.of_nat n))).

Lemma add_run_S K a n t : add_run K a (S n) t = add_run K (a + 1) n (Map_set (m, gk_id K, a) (skipped_value cfg K a) t).
Proof. unfold add_run. rewrite (seqZ_cons a) by lia. cbn [map foldl]. by replace (Z.pred (Z.of_nat (S n))) with (Z.of_nat n) by lia. Qed.

Lemma add_run_spec K n : forall a t, NoDup t.*1 ->
  (forall i, Map_get (m, gk_id K, i) (add_run K a n t) = if decide (a <= i < a + Z.of_nat n) then Some (skipped_value cfg K i) else Map_get (m, gk_id K, i) t) /\
  (forall id, id ∈ skipped_of m (add_run K a n t) -> id.1.2 = gk_id K \/ id ∈ skipped_of m t) /\ NoDup (add_run K a n t).*1.
Proof.
  induction n as [|n IH]; intros a t Hd.
  - split; [intros i; by rewrite decide_False by lia|]. split; [by right|done].
  - rewrite add_run_S. destruct (IH (a + 1) (Map_set (m, gk_id K, a) (skipped_value cfg K a) t)) as (H1 & H2 & H3); [by apply Map_set_NoDup|].
    split; [|split; [|done]].
    + intros i. rewrite H1, Map_get_set. destruct (decide (i = a)) as [->|Hne].
      * by rewrite decide_False, decide_True, decide_True by (done || lia).
      * rewrite (decide_False (P := (m, gk_id K, a) = _)) by congruence. repeat case_decide; (done || lia).
    + intros id Hid. destruct (H2 id Hid) as [?|Hid']; [by left|]. apply list_elem_of_filter in Hid' as [Hm Hid']. rewrite Map_set_keys in Hid'.
      case_decide; [right; by apply list_elem_of_filter|]. apply elem_of_app in Hid' as [?|Hid']; [right; by apply list_elem_of_filter|].
      apply list_elem_of_singleton in Hid' as ->. by left.
Qed.

(** What is needed of a message of the chain. *)
Definition in_reach (R : gset Z) (i : Z) : Prop := 0 <= i /\ i - Z.of_nat (size R) <= maxSkippedKeys cfg.

Abbreviation msg K i c sig := {| g_senderKeyId := gk_id K; g_chainIndex := i; g_ciphertext := c; g_signature := sig |}.
Abbreviation commit_current := (fun state receive =>
  (do previous <- M_gets (loadPreviousStates m); M_modify (storeSenderKeyRecord m (state :: previous) (Some receive) false))%st).

Lemma decrypt_current K st i w c sig s : on_chain K st -> getSenderKey m s = Some st -> parse_group_message w = Ok (msg K i c sig) ->
  decryptGroupMessage cfg m w s = decrypt_with_state cfg m (msg K i c sig) st commit_current s.
Proof.
  intros (E1 & _ & _ & E4 & _) Hg Ep. unfold decryptGroupMessage. rewrite Ep, run_lift, run_gets, Hg, E4.
  change (assertSenderKeyVersion SENDER_KEY_FORMAT) with (Ok tt : result unit). rewrite run_lift. cbn [g_senderKeyId]. by rewrite bool_decide_true.
Qed.

Lemma plaintext_total p : exists t, encodeLosslessPlaintext p = Ok t.
Proof. unfold encodeLosslessPlaintext. destruct (utf8_lenient_total p) as [s ->]. by eexists. Qed.

(** A skipped message. *)
Lemma deliver_skipped K R s st i p c sig : receiving K R s -> getSenderKey m s = Some st -> 0 <= i < chainIndex st ->
  aes_cbc_decrypt (mkCipher (group_message_key cfg K i)) (mkIv (group_message_key cfg K i)) c = Ok p ->
  if bool_decide (i ∈ R) then decryptWithSkippedKey m (msg K i c sig) s = (s, Throw duplicate_group_message)
  else exists s' t, decryptWithSkippedKey m (msg K i c sig) s = (s', Ok t) /\ encodeLosslessPlaintext p = Ok t /\ receiving K ({[i]} ∪ R) s'.
Proof.
  intros Hs Hg Hi Hd. destruct (rv_state _ _ _ Hs) as (st' & rest & Hg' & Hr & Hst & HR & Hk). rewrite Hg in Hg'. injection Hg' as <-.
  unfold decryptWithSkippedKey. rewrite run_gets. cbn [g_senderKeyId g_chainIndex g_ciphertext]. case_bool_decide as HiR.
  - destruct (getSkippedSenderKey m (gk_id K) i s) eqn:E; [|done]. exfalso. apply (proj1 (Hk i)); [by eexists|done].
  - destruct (proj2 (Hk i) (conj Hi HiR)) as [k E]. rewrite E. apply (rv_keys _ _ _ Hs) in E as ->. cbn [sm_cipherKey sm_iv skipped_value].
    unfold aesCbcDecrypt. rewrite Hd, run_lift. destruct (plaintext_total p) as [t Et]. rewrite Et, run_lift, run_gets.
    unfold getSenderKeyRecord. rewrite Hr, run_modify. eexists _, t. split; [reflexivity|]. split; [done|].
    set (receive := Some _). destruct (store_record_spec m st rest receive false s) as (E1 & E2 & E3). cbv zeta in *.
    set (s' := storeSenderKeyRecord _ _ _ _ _) in *. change (commit_skipped m receive (skippedSenderKeys s)) with (Map_delete (m, gk_id K, i) (skippedSenderKeys s)) in E3.
    assert (G : forall j, getSkippedSenderKey m (gk_id K) j s' = if decide (j = i) then None else getSkippedSenderKey m (gk_id K) j s).
    { intros j. unfold getSkippedSenderKey. rewrite E3, Map_get_delete. repeat case_decide; congruence. }
    split.
    + exists st, rest. split; [done|]. split; [done|]. split; [done|]. split; [intros j [->%elem_of_singleton|Hj]%elem_of_union; auto|].
      intros j. rewrite G, not_elem_of_union, not_elem_of_singleton. case_decide; [split; [by intros []|naive_solver]|]. rewrite Hk. naive_solver.
    + intros j k. rewrite G. case_decide; [done|]. apply (rv_keys _ _ _ Hs).
    + intros id Hid. apply (rv_ids _ _ _ Hs). apply list_elem_of_filter in Hid as [Hm Hid]. apply list_elem_of_filter. split; [done|]. rewrite E3 in Hid.
      apply list_elem_of_fmap in Hid as (e & -> & Hid). apply list_elem_of_fmap. exists e. split; [done|]. eapply sublist_subseteq; [apply Map_delete_sublist|exact Hid].
    + rewrite E3. apply Map_delete_NoDup, (rv_nodup _ _ _ Hs).
Qed.

(** A message at or ahead of the chain. *)
Lemma deliver_ahead K R s st i p c : receiving K R s -> getSenderKey m s = Some st -> chainIndex st <= i -> in_reach R i ->
  aes_cbc_decrypt (mkCipher (group_message_key cfg K i)) (mkIv (group_message_key cfg K i)) c = Ok p ->
  let '(st', keys) := stage_skipped cfg (Z.to_nat (i - chainIndex st)) st [] in
  let s' := storeSenderKeyRecord m (step_state st' :: loadPreviousStates m s)
              (Some {| consumedSkippedKey := None; rc_skippedKeys := Some (maxSkippedKeys cfg, keys) |}) false s in
  aesCbcDecrypt (mkCipher (deriveMessageKey cfg (chainKey st'))) (mkIv (deriveMessageKey cfg (chainKey st'))) c = Ok p /\ (i ∉ R) /\ receiving K ({[i]} ∪ R) s'.
Proof.
  intros Hs Hg Hi [Hi0 Hw] Hd. destruct (rv_state _ _ _ Hs) as (st0 & rest & Hg' & Hr & Hst & HR & Hk). rewrite Hg in Hg'. injection Hg' as <-.
  destruct (stage_spec cfg K (Z.to_nat (i - chainIndex st)) st [] Hst) as (H1 & H2 & H3). destruct (stage_skipped _ _ _ _) as [st' keys]. cbn [fst snd app] in *.
  rewrite Z2Nat.id in H2, H3 by lia. assert (Hi' : chainIndex st' = i) by lia. cbv zeta. split; [|split].
  - pose proof H1 as (_ & _ & _ & _ & _ & Ek). rewrite Ek, Hi'. unfold aesCbcDecrypt. unfold group_message_key in Hd. by rewrite Hd.
  - intros HiR. apply HR in HiR. lia.
  - set (receive := Some _). destruct (store_record_spec m (step_state st') (loadPreviousStates m s) receive false s) as (E1 & E2 & E3). cbv zeta in *.
    set (s' := storeSenderKeyRecord _ _ _ _ _) in *.
    assert (Hlen : len keys = i - chainIndex st) by (unfold len; rewrite H3, length_map, length_seqZ; lia).
    pose proof (receiving_count K R s st Hs Hg) as Hc. pose proof Hst as (_ & _ & _ & _ & Hst0 & _).
    change (commit_skipped m receive (skippedSenderKeys s)) with (foldl (add_skipped m (maxSkippedKeys cfg)) (skippedSenderKeys s) keys) in E3.
    rewrite (proj1 (add_all_room m (maxSkippedKeys cfg) keys (skippedSenderKeys s) ltac:(lia))) in E3.
    destruct (add_run_spec K (Z.to_nat (i - chainIndex st)) (chainIndex st) (skippedSenderKeys s) (rv_nodup _ _ _ Hs)) as (A1 & A2 & A3).
    unfold add_run in A1, A2, A3. rewrite Z2Nat.id in A1, A2, A3 by lia. rewrite <- H3, <- E3 in A1, A2, A3.
    split.
    + exists (step_state st'), (loadPreviousStates m s). split; [done|]. split; [done|]. split; [by apply step_on_chain|].
      cbn [step_state chainIndex]. rewrite Hi'. split; [intros j [->%elem_of_singleton|Hj]%elem_of_union; [lia|apply HR in Hj; lia]|].
      intros j. unfold getSkippedSenderKey. rewrite A1, not_elem_of_union, not_elem_of_singleton. case_decide.
      * split; [|by eexists]. intros _. split; [lia|]. split; [lia|]. intros Hj. apply HR in Hj. lia.
      * fold (getSkippedSenderKey m (gk_id K) j s). rewrite Hk. split; [intros [? ?]; repeat split; (done || lia)|]. intros (? & ? & ?). split; [lia|done].
    + intros j k. unfold getSkippedSenderKey. rewrite A1. case_decide; [by intros [= <-]|]. apply (rv_keys _ _ _ Hs).
    + intros id Hid. destruct (A2 id Hid) as [?|?]; [done|]. by apply (rv_ids _ _ _ Hs).
    + done.
Qed.

Lemma deliver_ok K R s i p w : key_ok K -> receiving K R s -> group_wire cfg K i p w -> in_reach R i -> maxSkippedKeys cfg <= maxChainAdvance cfg ->
  if bool_decide (i ∈ R) then decryptGroupMessage cfg m w s = (s, Throw duplicate_group_message)
  else exists s' t, decryptGroupMessage cfg m w s = (s', Ok t) /\ encodeLosslessPlaintext p = Ok t /\ receiving K ({[i]} ∪ R) s'.
Proof.
  intros HK Hs Hw Hreach Hcfg. destruct (wire_parses cfg K i p w HK Hw) as (c & sig & proto & Ep & Ed & Es & Ev).
  destruct (rv_state _ _ _ Hs) as (st & rest & Hg & Hr & Hst & HR & Hk). rewrite (decrypt_current K st i w c sig s Hst Hg Ep).
  pose proof (receiving_count K R s st Hs Hg) as Hc. pose proof (len_nonneg (skipped_of m (skippedSenderKeys s))) as H0. unfold held_by in Hc.
  pose proof Hst as (_ & Ec & Epub & _). unfold decrypt_with_state. cbn [g_senderKeyId g_chainIndex g_ciphertext g_signature]. rewrite Ec, Epub, Es, run_lift, Ev.
  destruct Hreach as [Hi0 Hwin]. cbn [negb]. replace (_ && _) with false by lia. destruct (i <? chainIndex st) eqn:Hi; b2p.
  - by apply (deliver_skipped K R s st i p c sig).
  - pose proof (deliver_ahead K R s st i p c Hs Hg ltac:(lia) (conj Hi0 Hwin) Ed) as D. destruct (stage_skipped _ _ _ _) as [st' keys].
    destruct D as (D1 & D2 & D3). rewrite bool_decide_false by done. rewrite D1, run_lift. destruct (plaintext_total p) as [t Et].
    rewrite Et, run_lift. eexists _, t. split; [|split; [done|exact D3]]. unfold M_bind, M_gets, M_modify, M_ret. done.
Qed.
End Delivery.
