(* ===== verification/DoubleRatchet.v ===== *)
(** * The Double Ratchet ([protocol/double-ratchet/chains.ts], [ratchet.ts],
    [session/ratchet.ts], and the key path of [session/cipher.ts])

    Base64 strings are modelled by the bytes they encode, [undefined] and
    [null] by [None].  [Date.now()] and the random private key of a DH step
    are arguments.  HMAC, HKDF and X25519 are the operations of the class
    [RatchetCrypto]; the derivation functions built on them are translated.
    Zeroing of temporaries and logging have no effect on the results: every
    key kept in the state is copied by [bytesToBase64] before it is zeroed. *)
From S2P Require Import Prelude Crypto.

Class RatchetCrypto := {
  ratchet_hash :: HashFunctions;
  x25519_public : bytes -> bytes;                        (* private key *)
  x25519 : bytes -> bytes -> bytes }.                    (* private key, public key *)

(** Documented behaviour of these primitives. *)
Class RatchetCryptoLaws (C : RatchetCrypto) : Prop := {
  ratchet_hash_laws :: HashLaws ratchet_hash;
  x25519_public_length : forall a, length a = 32%nat -> length (x25519_public a) = 32%nat;
  x25519_comm : forall a b, length a = 32%nat -> length b = 32%nat ->
    x25519 a (x25519_public b) = x25519 b (x25519_public a);
  (* clamped scalars and honest public keys never meet in the zero point *)
  x25519_nonzero : forall a b, length a = 32%nat -> length b = 32%nat ->
    x25519 a (x25519_public b) <> replicate 32 0 }.

Record StoredMessageKey := { mk_index : Z; mk_seed : bytes; mk_timestamp : Z }.

Record ReceiverChain := {
  senderRatchetKey : bytes; rc_chainKey : option bytes; messageKeys : list StoredMessageKey }.

Record DoubleRatchetConfig := {
  maxSkippedMessages : Z; maxMessageKeysStored : Z; maxMessageKeyAge : Z }.

Definition DEFAULT_RATCHET_CONFIG : DoubleRatchetConfig := {|
  maxSkippedMessages := 25000; maxMessageKeysStored := 2000; maxMessageKeyAge := 7 * 24 * 60 * 60 * 1000 |}.

Definition MAX_RECEIVER_CHAINS : Z := 5.
Definition MAX_MESSAGE_COUNTER : Z := 2 ^ 53 - 1 - 1.
Definition X25519_KEY_BYTES : Z := 32.

(** The ratchet fields of [DoubleRatchetState] and [SessionState]. *)
Record RatchetState := {
  DHs : option KeyPair; DHr : option bytes; RK : bytes;
  CKs : option bytes; Ns : Z; CKr : option bytes; Nr : Z; PN : Z;
  receiverChains : list ReceiverChain;
  processedChains : gmap bytes (Z * Z) }.   (* lastNr, timestamp *)

Definition set_sending (ck : option bytes) (n : Z) (s : RatchetState) : RatchetState := {|
  DHs := DHs s; DHr := DHr s; RK := RK s; CKs := ck; Ns := n; CKr := CKr s; Nr := Nr s; PN := PN s;
  receiverChains := receiverChains s; processedChains := processedChains s |}.
Definition set_receiving (ck : option bytes) (n : Z) (s : RatchetState) : RatchetState := {|
  DHs := DHs s; DHr := DHr s; RK := RK s; CKs := CKs s; Ns := Ns s; CKr := ck; Nr := n; PN := PN s;
  receiverChains := receiverChains s; processedChains := processedChains s |}.
Definition set_chains (l : list ReceiverChain) (s : RatchetState) : RatchetState := {|
  DHs := DHs s; DHr := DHr s; RK := RK s; CKs := CKs s; Ns := Ns s; CKr := CKr s; Nr := Nr s; PN := PN s;
  receiverChains := l; processedChains := processedChains s |}.
Definition set_processed (m : gmap bytes (Z * Z)) (s : RatchetState) : RatchetState := {|
  DHs := DHs s; DHr := DHr s; RK := RK s; CKs := CKs s; Ns := Ns s; CKr := CKr s; Nr := Nr s; PN := PN s;
  receiverChains := receiverChains s; processedChains := m |}.

(** [base64ToBytes(x)]: decoding [undefined] fails. *)
Definition base64ToBytes (x : option bytes) : result bytes :=
  match x with Some b => Ok b | None => Throw (CodedError "TypeError" "undefined") end.

(** ** Receiver chains *)
(** [evictLowestIndex]: the position of the lowest index, the first if
    several, is removed. *)
Fixpoint lowest_position (l : list StoredMessageKey) (i lowest : nat) (lowest_index : Z) : nat :=
  match l with
  | [] => lowest
  | k :: l => if mk_index k <? lowest_index then lowest_position l (S i) i (mk_index k)
              else lowest_position l (S i) lowest lowest_index
  end.

Definition evictLowestIndex (keys : list StoredMessageKey) : list StoredMessageKey :=
  match keys with
  | [] => []
  | k :: rest => delete (lowest_position rest 1 0 (mk_index k)) keys
  end.

(** The eviction loop; each round removes one key, so the length is enough
    fuel. *)
Fixpoint evict_until (fuel : nat) (cap : Z) (keys : list StoredMessageKey) : list StoredMessageKey :=
  if (len keys >=? cap) && (len keys >? 0) then
    match fuel with
    | O => keys
    | S fuel => evict_until fuel cap (evictLowestIndex keys)
    end
  else keys.

Definition find_chain (key : bytes) (l : list ReceiverChain) : option (nat * ReceiverChain) :=
  list_find (fun c => senderRatchetKey c = key) l.

(** Returns the position of the chain, the code's reference to it. *)
Definition getOrCreateReceiverChain (key : bytes) (l : list ReceiverChain) : nat * list ReceiverChain :=
  match find_chain key l with
  | Some (i, _) => (i, l)
  | None =>
      let chain := {| senderRatchetKey := key; rc_chainKey := None; messageKeys := [] |} in
      let l := if len l >=? MAX_RECEIVER_CHAINS then drop 1 l else l in
      (length l, l ++ [chain])
  end.

Definition set_keys (ks : list StoredMessageKey) (c : ReceiverChain) : ReceiverChain :=
  {| senderRatchetKey := senderRatchetKey c; rc_chainKey := rc_chainKey c; messageKeys := ks |}.

Definition storeMessageKeyInChain (now : Z) (config : DoubleRatchetConfig) (key : bytes) (index : Z)
    (seed : bytes) (l : list ReceiverChain) : list ReceiverChain :=
  let '(i, l) := getOrCreateReceiverChain key l in
  match l !! i with
  | None => l
  | Some chain =>
      if existsb (fun k => mk_index k =? index) (messageKeys chain) then l
      else
        let keys := evict_until (length (messageKeys chain)) (maxMessageKeysStored config) (messageKeys chain) in
        <[i := set_keys (keys ++ [{| mk_index := index; mk_seed := seed; mk_timestamp := now |}]) chain]> l
  end.

Definition consumeMessageKeyFromChain (key : bytes) (index : Z) : M RatchetState (option bytes) := fun s =>
  match find_chain key (receiverChains s) with
  | None => (s, Ok None)
  | Some (i, chain) =>
      match list_find (fun k => mk_index k = index) (messageKeys chain) with
      | None => (s, Ok None)
      | Some (j, k) =>
          (set_chains (<[i := set_keys (delete j (messageKeys chain)) chain]> (receiverChains s)) s,
           Ok (Some (mk_seed k)))
      end
  end.

Definition tryGetSkippedKey (ratchetKey : bytes) (counter : Z) : M RatchetState (option bytes) :=
  consumeMessageKeyFromChain ratchetKey counter.

(** ** Expiry *)
Definition expire_chain (expirationTime : Z) (c : ReceiverChain) : ReceiverChain :=
  let keysToRemove := marked (fun k => mk_timestamp k <? expirationTime) (messageKeys c) 0 in
  set_keys (splice_reverse keysToRemove (messageKeys c)) c.

Definition chain_empty (c : ReceiverChain) : bool :=
  (len (messageKeys c) =? 0) && match rc_chainKey c with Some (_ :: _) => false | _ => true end.

Definition cleanupExpiredKeys (now : Z) (config : DoubleRatchetConfig) (s : RatchetState) : RatchetState :=
  let expirationTime := now - maxMessageKeyAge config in
  let processed := filter (fun kv => (kv.2.2 <? expirationTime) = false) (processedChains s) in
  let chains := map (expire_chain expirationTime) (receiverChains s) in
  let chainsToRemove := marked chain_empty chains 0 in
  set_chains (splice_reverse chainsToRemove chains) (set_processed processed s).

(** [session/ratchet.ts] *)
Definition isValidatedSession (s : RatchetState) : bool :=
  match DHs s, DHr s with Some _, Some _ => true | _, _ => false end.

Definition cleanupExpiredProcessedChains (now : Z) (s : RatchetState) : RatchetState :=
  let maxAge := 7 * 24 * 60 * 60 * 1000 in
  set_processed (filter (fun kv => (now - kv.2.2 >? maxAge) = false) (processedChains s)) s.

Definition cleanupExpiredMessageKeys (now : Z) (config : DoubleRatchetConfig) (s : RatchetState) : RatchetState :=
  if negb (isValidatedSession s) then s
  else cleanupExpiredProcessedChains now (cleanupExpiredKeys now config s).

(** [!x] of an optional Base64 string *)
Definition falsy (x : option bytes) : bool := match x with Some (_ :: _) => false | _ => true end.

Definition assertValidatedSession (s : RatchetState) : result unit :=
  match DHs s with
  | None => Throw (EncryptionError "SESSION_CORRUPTED")
  | Some _ =>
      if falsy (DHr s) then Throw (EncryptionError "SESSION_CORRUPTED")
      else if falsy (CKs s) then Throw (EncryptionError "SESSION_CORRUPTED")
      else Ok tt
  end.

Section Ratchet.
Context {C : RatchetCrypto}.

(** ** Key derivation ([crypto/kdf/hkdf.ts]) *)
Definition WhisperRatchet : bytes := [87; 104; 105; 115; 112; 101; 114; 82; 97; 116; 99; 104; 101; 116].

Definition kdfRootKey (rootKey dhOutput : bytes) : bytes * bytes :=
  let derived := hkdf dhOutput rootKey WhisperRatchet 64 in
  (take 32 derived, take 32 (drop 32 derived)).

(** (next chain key, message key) *)
Definition kdfChainKey (chainKey : bytes) : bytes * bytes :=
  let messageKey := hmac chainKey [0x01] in
  let nextChainKey := hmac chainKey [0x02] in
  (nextChainKey, messageKey).

Definition computeSharedSecret (priv pub : bytes) : result bytes :=
  if negb (len priv =? X25519_KEY_BYTES) then Throw (Error "Invalid X25519 private key")
  else if negb (len pub =? X25519_KEY_BYTES) then Throw (Error "Invalid X25519 public key")
  else
    let sharedSecret := x25519 priv pub in
    if bool_decide (sharedSecret = replicate 32 0)
    then Throw (Error "Invalid X25519 key agreement output: all-zero shared secret")
    else Ok sharedSecret.

(** ** Message keys *)
Definition deriveSendingKey : M RatchetState bytes := fun s =>
  if Ns s >=? MAX_MESSAGE_COUNTER then (s, Throw (EncryptionError "COUNTER_OVERFLOW"))
  else match base64ToBytes (CKs s) with
  | Throw e => (s, Throw e)
  | Ok chainKeyBytes =>
      if negb (len chainKeyBytes =? 32) then (s, Throw (EncryptionError "KEY_STORAGE_ERROR"))
      else
        let '(newChainKey, messageKey) := kdfChainKey chainKeyBytes in
        (set_sending (Some newChainKey) (Ns s + 1) s, Ok messageKey)
  end.

Definition deriveReceivingKey : M RatchetState bytes := fun s =>
  if Nr s >=? MAX_MESSAGE_COUNTER then (s, Throw (EncryptionError "COUNTER_OVERFLOW"))
  else match base64ToBytes (CKr s) with
  | Throw e => (s, Throw e)
  | Ok chainKeyBytes =>
      if negb (len chainKeyBytes =? 32) then (s, Throw (EncryptionError "KEY_STORAGE_ERROR"))
      else
        let '(newChainKey, messageKey) := kdfChainKey chainKeyBytes in
        (set_receiving (Some newChainKey) (Nr s + 1) s, Ok messageKey)
  end.

(** The loop [for (let i = from; i < from + n; i++)] that derives and stores
    skipped keys; returns the chain key it ends with. *)
Fixpoint skip_loop (now : Z) (config : DoubleRatchetConfig) (key : bytes) (n : nat) (i : Z)
    (currentChainKey : bytes) (l : list ReceiverChain) : bytes * list ReceiverChain :=
  match n with
  | O => (currentChainKey, l)
  | S n =>
      let '(newChainKey, messageKey) := kdfChainKey currentChainKey in
      let l := storeMessageKeyInChain now config key i messageKey l in
      skip_loop now config key n (i + 1) newChainKey l
  end.

Definition storeSkippedKeys (now : Z) (untilCounter : Z) (config : DoubleRatchetConfig) : M RatchetState unit :=
  fun s =>
  if untilCounter <? Nr s then (s, Throw (EncryptionError "MESSAGE_DUPLICATE"))
  else if Nr s + maxSkippedMessages config <? untilCounter then (s, Throw (Error "Too many skipped messages"))
  else match base64ToBytes (CKr s) with
  | Throw e => (s, Throw e)
  | Ok chainKeyBytes =>
      (* [state.DHr] is a string in [DoubleRatchetState] *)
      let senderRatchetKey := default [] (DHr s) in
      let '(currentChainKey, l) :=
        skip_loop now config senderRatchetKey (Z.to_nat (untilCounter - Nr s)) (Nr s) chainKeyBytes (receiverChains s) in
      (set_receiving (Some currentChainKey) untilCounter (set_chains l s), Ok tt)
  end.

Definition storeSkippedMessageKeys (now : Z) (untilCounter : Z) (config : DoubleRatchetConfig) : M RatchetState unit :=
  fun s =>
  match assertValidatedSession s with
  | Throw e => (s, Throw e)
  | Ok _ =>
      match storeSkippedKeys now untilCounter config s with
      | (s', Throw (Error m)) =>
          (s', Throw (if String.eqb m "Too many skipped messages" then EncryptionError "TOO_MANY_SKIPPED_MESSAGES" else Error m))
      | r => r
      end
  end.

(** ** The DH ratchet *)
Definition generateECDHKeyPair (privateKeyBytes : bytes) : KeyPair :=
  {| publicKey := x25519_public privateKeyBytes; privateKey := privateKeyBytes |}.

Definition validateDHPublicKey (key : bytes) : result unit :=
  if negb (len key =? X25519_KEY_BYTES) then Throw (Error "Invalid DH public key in message") else Ok tt.

Definition needsDHRatchet (s : RatchetState) (receivedDHPublicKey : bytes) : bool :=
  negb (bool_decide (DHr s = Some receivedDHPublicKey)).

(** [newPrivate] is the random private key of step 5. *)
Definition moduleDHRatchetStep (newPrivate receivedDHPublicKey : bytes) : M RatchetState unit := (
  do_ M_lift (validateDHPublicKey receivedDHPublicKey);
  do_ M_modify (fun s => {| DHs := DHs s; DHr := Some receivedDHPublicKey; RK := RK s; CKs := CKs s; Ns := 0;
                            CKr := CKr s; Nr := 0; PN := Ns s; receiverChains := receiverChains s;
                            processedChains := processedChains s |});
  do s <- M_get;
  do dhs <- M_lift (match DHs s with Some k => Ok k | None => Throw (CodedError "TypeError" "null") end);
  do dhOutput1 <- M_lift (computeSharedSecret (privateKey dhs) receivedDHPublicKey);
  let '(newRootKey1, newReceivingChainKey) := kdfRootKey (RK s) dhOutput1 in
  do_ M_modify (fun s => {| DHs := Some (generateECDHKeyPair newPrivate); DHr := DHr s; RK := newRootKey1;
                            CKs := CKs s; Ns := Ns s; CKr := Some newReceivingChainKey; Nr := Nr s; PN := PN s;
                            receiverChains := receiverChains s; processedChains := processedChains s |});
  do dhOutput2 <- M_lift (computeSharedSecret newPrivate receivedDHPublicKey);
  let '(newRootKey2, newSendingChainKey) := kdfRootKey newRootKey1 dhOutput2 in
  M_modify (fun s => {| DHs := DHs s; DHr := DHr s; RK := newRootKey2; CKs := Some newSendingChainKey; Ns := Ns s;
                        CKr := CKr s; Nr := Nr s; PN := PN s; receiverChains := receiverChains s;
                        processedChains := processedChains s |}))%st.

Definition performDHRatchetStep (newPrivate receivedDHPublicKey : bytes) : M RatchetState unit := (
  do s <- M_get;
  match DHs s with
  | None => M_throw (EncryptionError "SESSION_CORRUPTED")
  | Some _ =>
      do_ moduleDHRatchetStep newPrivate receivedDHPublicKey;
      do s <- M_get;
      if falsy (DHr s) || falsy (CKs s) || falsy (CKr s) then M_throw (EncryptionError "SESSION_CORRUPTED")
      else M_ret tt
  end)%st.

(** ** The key path of [SessionCipher.decrypt]

    From the skipped keys to the message key, without the SPQR salt.  It
    runs on a candidate copy of the session, which the caller stores only
    after the MAC has been verified. *)
Definition skip_old_chain (now maxSkip previousCounter : Z) : M RatchetState unit := fun s =>
  match DHr s, CKr s with
  | Some oldDHr, Some ck =>
      if (previousCounter >? 0) && negb (falsy (CKr s)) && negb (falsy (DHr s)) then
        let oldNr := Nr s in
        if oldNr + maxSkip <? previousCounter then (s, Throw (Error "Too many skipped messages"))
        else
          let '(_, l) := skip_loop now DEFAULT_RATCHET_CONFIG oldDHr (Z.to_nat (previousCounter - oldNr)) oldNr ck
                           (receiverChains s) in
          (set_processed (<[oldDHr := (previousCounter, now)]> (processedChains s)) (set_chains l s), Ok tt)
      else (s, Ok tt)
  | _, _ => (s, Ok tt)
  end.

Definition decryptMessageKey (now maxSkip : Z) (newPrivate ratchetKey : bytes) (counter previousCounter : Z)
    : M RatchetState bytes := (
  do skipped <- tryGetSkippedKey ratchetKey counter;
  match skipped with
  | Some messageKey => M_ret messageKey
  | None =>
      do s <- M_get;
      let isLazyInit := match DHr s with None => true | Some _ => false end in
      let dhChanged := negb isLazyInit && needsDHRatchet s ratchetKey in
      if dhChanged && bool_decide (is_Some (processedChains s !! ratchetKey))
      then M_throw (EncryptionError "MESSAGE_DUPLICATE")
      else
        do_ (if isLazyInit || dhChanged then
               do_ (if isLazyInit then M_ret tt else skip_old_chain now maxSkip previousCounter);
               performDHRatchetStep newPrivate ratchetKey
             else M_ret tt);
        do_ storeSkippedMessageKeys now counter
              {| maxSkippedMessages := maxSkip; maxMessageKeysStored := maxMessageKeysStored DEFAULT_RATCHET_CONFIG;
                 maxMessageKeyAge := maxMessageKeyAge DEFAULT_RATCHET_CONFIG |};
        deriveReceivingKey
  end)%st.
End Ratchet.
