(* ===== verification/RatchetProofs.v ===== *)
(** * Storage of skipped keys

    Bounds of the receiver chains, preserved by every operation, and what a
    lookup finds after a store. *)
From S2P Require Import Prelude Crypto DoubleRatchet.

(** ** Well-formed receiver chains *)
Definition keys_ok (ks : list StoredMessageKey) : Prop :=
  NoDup (map mk_index ks) /\ len ks <= maxMessageKeysStored DEFAULT_RATCHET_CONFIG.

Definition chains_ok (l : list ReceiverChain) : Prop :=
  len l <= MAX_RECEIVER_CHAINS /\ NoDup (map senderRatchetKey l) /\ Forall (fun c => keys_ok (messageKeys c)) l.

Lemma map_delete {A B} (f : A -> B) l i : map f (delete i l) = delete i (map f l).
Proof. apply (list_fmap_delete f). Qed.

Lemma length_delete_lt {A} (l : list A) i : (i < length l)%nat -> length (delete i l) = (length l - 1)%nat.
Proof. intros H. apply lookup_lt_is_Some_2 in H. rewrite length_delete by done. lia. Qed.

Lemma NoDup_delete {A} (l : list A) i : NoDup l -> NoDup (delete i l).
Proof. intros H. eapply sublist_NoDup; [exact H|apply sublist_delete]. Qed.

Lemma sublist_map {A B} (f : A -> B) (l k : list A) : l `sublist_of` k -> map f l `sublist_of` map f k.
Proof. apply (fmap_sublist f). Qed.

Lemma lowest_position_bound l : forall i lo x, (lo < i + length l)%nat -> (lowest_position l i lo x < i + length l)%nat.
Proof.
  induction l as [|k l IH]; intros i lo x H; cbn [lowest_position length] in *; [lia|].
  case_if; (eapply Nat.lt_le_trans; [apply IH; lia|lia]).
Qed.

Lemma length_evict ks : ks <> [] -> length (evictLowestIndex ks) = (length ks - 1)%nat.
Proof.
  destruct ks as [|k ks]; [done|]. intros _. apply length_delete_lt.
  apply (lowest_position_bound ks 1 0 (mk_index k)). lia.
Qed.

Lemma evict_sublist ks : evictLowestIndex ks `sublist_of` ks.
Proof. destruct ks; [done|]. apply sublist_delete. Qed.

Lemma evict_until_spec fuel cap : forall ks, (length ks <= fuel)%nat -> 1 <= cap ->
  len (evict_until fuel cap ks) < cap /\ evict_until fuel cap ks `sublist_of` ks.
Proof.
  induction fuel as [|fuel IH]; intros ks Hf Hcap; cbn [evict_until].
  - destruct ks; [|cbn in Hf; lia]. case_if; rewrite len_nil; (split; [lia|done]).
  - destruct ((len ks >=? cap) && (len ks >? 0)) eqn:E.
    + assert (ks <> []) by (intros ->; by rewrite andb_false_r in E).
      destruct (IH (evictLowestIndex ks)) as [H1 H2]; [rewrite length_evict by done; lia|done|].
      split; [done|]. etransitivity; [exact H2|apply evict_sublist].
    + split; [|done]. apply andb_false_iff in E as [E|E]; b2p; len_pos; lia.
Qed.

Lemma evict_until_small fuel cap ks : len ks < cap -> evict_until fuel cap ks = ks.
Proof. intros H. destruct fuel; cbn [evict_until]; by replace (len ks >=? cap) with false by lia. Qed.

(** ** Lookup of a chain *)
Definition chain_keys (key : bytes) (l : list ReceiverChain) : list StoredMessageKey :=
  match find_chain key l with Some (_, c) => messageKeys c | None => [] end.

Lemma find_chain_Some key l i c : find_chain key l = Some (i, c) -> l !! i = Some c /\ senderRatchetKey c = key.
Proof. intros H. by apply list_find_Some in H as (? & ? & _). Qed.

Lemma find_chain_None key l : find_chain key l = None -> key ∉ map senderRatchetKey l.
Proof.
  intros H Hin. apply list_find_None in H. apply list_elem_of_fmap in Hin as (c & -> & Hc).
  rewrite Forall_forall in H. by apply (H c).
Qed.

Lemma find_chain_nodup key l i c : NoDup (map senderRatchetKey l) -> l !! i = Some c -> senderRatchetKey c = key ->
  find_chain key l = Some (i, c).
Proof.
  intros Hnd Hi Hk. apply list_find_Some. split; [done|]. split; [done|]. intros j y Hj Hlt Hy.
  assert (i = j); [|lia]. eapply NoDup_lookup; [exact Hnd| |].
  - change (map senderRatchetKey l) with (senderRatchetKey <$> l). rewrite list_lookup_fmap, Hi. done.
  - change (map senderRatchetKey l) with (senderRatchetKey <$> l). rewrite list_lookup_fmap, Hj. cbn. by rewrite Hk, Hy.
Qed.

Lemma map_key_insert i ks c l : l !! i = Some c -> map senderRatchetKey (<[i := set_keys ks c]> l) = map senderRatchetKey l.
Proof.
  intros Hi. change (map senderRatchetKey ?l) with (senderRatchetKey <$> l). rewrite list_fmap_insert.
  apply list_insert_id. by rewrite list_lookup_fmap, Hi.
Qed.

(** [getOrCreateReceiverChain] gives a position that holds the chain. *)
Lemma getOrCreate_spec key l i l' : chains_ok l -> getOrCreateReceiverChain key l = (i, l') ->
  chains_ok l' /\ exists c, l' !! i = Some c /\ senderRatchetKey c = key /\ messageKeys c = chain_keys key l /\
    forall key', key' <> key -> chain_keys key' l' = chain_keys key' l \/ (len l >= MAX_RECEIVER_CHAINS /\ chain_keys key' l' = []).
Proof.
  intros (Hl & Hnd & Hks). unfold getOrCreateReceiverChain, chain_keys.
  destruct (find_chain key l) as [[j c]|] eqn:E.
  - intros [= <- <-]. pose proof (find_chain_Some _ _ _ _ E) as [Hj Hk]. split; [done|]. exists c. auto.
  - apply find_chain_None in E. set (new := {| senderRatchetKey := key; rc_chainKey := None; messageKeys := [] |}).
    set (l0 := if len l >=? MAX_RECEIVER_CHAINS then drop 1 l else l). intros [= <- <-].
    assert (Hsub : l0 `sublist_of` l) by (unfold l0; case_if; [apply sublist_drop|done]).
    assert (Hsubk : map senderRatchetKey l0 `sublist_of` map senderRatchetKey l) by (by apply sublist_map).
    assert (Hnd0 : NoDup (map senderRatchetKey l0)) by (by eapply sublist_NoDup).
    assert (Hni : key ∉ map senderRatchetKey l0) by (intros Hin; apply E; by eapply sublist_subseteq).
    split; [split; [|split]|].
    + unfold l0, MAX_RECEIVER_CHAINS in *. unfold len in *. rewrite length_app. cbn. case_if; b2p; rewrite ?length_drop; lia.
    + rewrite map_app. apply NoDup_app. split; [done|]. split; [|apply NoDup_singleton].
      intros k Hk Hk'. apply list_elem_of_singleton in Hk'. cbn in Hk'. by subst.
    + apply Forall_app. split; [|by repeat constructor].
      eapply Forall_forall. intros x Hx. rewrite Forall_forall in Hks. apply Hks. by eapply sublist_subseteq.
    + exists new. split; [by rewrite lookup_app_r, Nat.sub_diag by lia|]. split; [done|]. split; [done|].
      intros key' Hne. destruct (find_chain key' (l0 ++ [new])) as [[j c]|] eqn:E'.
      * apply find_chain_Some in E' as [Hj Hkc]. apply lookup_app_Some in Hj as [Hj|[Hge Hj]].
        -- left. unfold l0 in Hj. destruct (len l >=? MAX_RECEIVER_CHAINS) eqn:Hm.
           ++ rewrite lookup_drop in Hj. by rewrite (find_chain_nodup key' l _ c Hnd Hj Hkc).
           ++ by rewrite (find_chain_nodup key' l _ c Hnd Hj Hkc).
        -- destruct (j - length l0)%nat; [|done]. injection Hj as <-. by cbn in Hkc.
      * apply find_chain_None in E'. rewrite map_app in E'.
        destruct (find_chain key' l) as [[j c]|] eqn:E''; [|by left]. right. split; [|done].
        apply find_chain_Some in E'' as [Hj Hkc]. unfold l0 in E'. destruct (len l >=? MAX_RECEIVER_CHAINS) eqn:Hm; [b2p; lia|].
        exfalso. apply E'. apply elem_of_app. left. subst key'. apply list_elem_of_In, in_map, list_elem_of_In.
        by eapply list_elem_of_lookup_2.
Qed.

Lemma chain_keys_bound key l : chains_ok l -> len (chain_keys key l) <= maxMessageKeysStored DEFAULT_RATCHET_CONFIG.
Proof.
  intros (_ & _ & Hf). unfold chain_keys. destruct (find_chain key l) as [[i c]|] eqn:E; [|done].
  apply find_chain_Some in E as [Hi _]. eapply Forall_lookup_1 in Hf; [|exact Hi]. apply Hf.
Qed.

Lemma elem_of_chain_keys key k l : chains_ok l ->
  k ∈ chain_keys key l <-> exists c, c ∈ l /\ senderRatchetKey c = key /\ k ∈ messageKeys c.
Proof.
  intros (_ & Hnd & _). unfold chain_keys. split.
  - destruct (find_chain key l) as [[i c]|] eqn:E; [|by intros H%elem_of_nil].
    apply find_chain_Some in E as [Hi Hk]. intros H. exists c. split; [by eapply list_elem_of_lookup_2|done].
  - intros (c & Hc & Hk & H). apply list_elem_of_lookup in Hc as [i Hi]. by rewrite (find_chain_nodup key l i c).
Qed.

(** What the store does to the keys of each chain. *)
Lemma store_spec now key index seed l : chains_ok l ->
  let l' := storeMessageKeyInChain now DEFAULT_RATCHET_CONFIG key index seed l in
  let ks := chain_keys key l in
  chains_ok l' /\
  chain_keys key l' =
    (if existsb (fun k => mk_index k =? index) ks then ks
     else evict_until (length ks) (maxMessageKeysStored DEFAULT_RATCHET_CONFIG) ks ++
          [{| mk_index := index; mk_seed := seed; mk_timestamp := now |}]) /\
  forall key', key' <> key -> chain_keys key' l' = chain_keys key' l \/ (len l >= MAX_RECEIVER_CHAINS /\ chain_keys key' l' = []).
Proof.
  intros Hok. cbn zeta. unfold storeMessageKeyInChain.
  destruct (getOrCreateReceiverChain key l) as [i l1] eqn:E.
  apply getOrCreate_spec in E as (Hok1 & c & Hi & Hk & Hks & Hother); [|done]. rewrite Hi, Hks.
  pose proof Hok1 as (Hl1 & Hnd1 & Hf1).
  destruct (existsb _ _) eqn:Ee.
  - split; [done|]. split; [|done]. unfold chain_keys at 1. by rewrite (find_chain_nodup key l1 i c Hnd1 Hi Hk).
  - set (ks := chain_keys key l) in *.
    destruct (evict_until_spec (length ks) (maxMessageKeysStored DEFAULT_RATCHET_CONFIG) ks) as [Hlen Hsub]; [lia|cbn; lia|].
    set (ks' := evict_until _ _ ks ++ _). set (c' := set_keys ks' c).
    assert (Hkeys : map senderRatchetKey (<[i := c']> l1) = map senderRatchetKey l1) by (by apply map_key_insert).
    assert (Hi' : <[i := c']> l1 !! i = Some c') by (apply list_lookup_insert_eq; by eapply lookup_lt_Some).
    split; [split; [|split]|split].
    + unfold len in *. by rewrite length_insert.
    + by rewrite Hkeys.
    + apply Forall_insert; [done|]. split; cbn [messageKeys c' set_keys].
      * unfold ks'. rewrite map_app. apply NoDup_app. split; [|split; [|apply NoDup_singleton]].
        -- rewrite Forall_forall in Hf1. destruct (Hf1 c) as [Hnd _]; [by eapply list_elem_of_lookup_2|].
           rewrite Hks in Hnd. eapply sublist_NoDup; [exact Hnd|]. by apply sublist_map.
        -- intros x Hx Hx'. apply list_elem_of_singleton in Hx'. cbn in Hx'. subst x.
           assert (Hin : index ∈ map mk_index ks) by (eapply sublist_subseteq; [by apply sublist_map|done]).
           apply list_elem_of_fmap in Hin as (k & -> & Hin). apply not_true_iff_false in Ee. apply Ee, existsb_exists.
           exists k. split; [by apply list_elem_of_In|apply Z.eqb_refl].
      * unfold ks', len in *. rewrite length_app. cbn in *. lia.
    + unfold chain_keys at 1. by rewrite (find_chain_nodup key _ i c' ltac:(by rewrite Hkeys) Hi' Hk).
    + intros key' Hne. destruct (Hother key' Hne) as [Ho|[Hm Ho]].
      * left. rewrite <- Ho. unfold chain_keys.
        destruct (find_chain key' l1) as [[j cj]|] eqn:Ej.
        -- apply find_chain_Some in Ej as [Hj Hkj]. assert (j <> i) by (intros ->; congruence).
           rewrite (find_chain_nodup key' _ j cj); [done|by rewrite Hkeys|by rewrite list_lookup_insert_ne|done].
        -- destruct (find_chain key' (<[i := c']> l1)) as [[j cj]|] eqn:Ej'; [|done].
           apply find_chain_Some in Ej' as [Hj Hkj]. apply find_chain_None in Ej. exfalso. apply Ej.
           rewrite <- Hkeys, <- Hkj. apply list_elem_of_In, in_map, list_elem_of_In. by eapply list_elem_of_lookup_2.
      * right. split; [done|]. destruct (find_chain key' (<[i := c']> l1)) as [[j cj]|] eqn:Ej'; unfold chain_keys; rewrite Ej'; [|done].
        apply find_chain_Some in Ej' as [Hj Hkj]. assert (j <> i) by (intros ->; rewrite Hi' in Hj; injection Hj as <-; cbn in Hkj; congruence).
        rewrite list_lookup_insert_ne in Hj by done.
        unfold chain_keys in Ho. by rewrite (find_chain_nodup key' l1 j cj Hnd1 Hj Hkj) in Ho.
Qed.
