(* ===== verification/RatchetTrace.v ===== *)
(** * One receiving chain, any delivery order

    [recv_inv ck pub R s]: the session [s] receives on the chain of ratchet
    key [pub] that starts at chain key [ck], the messages of the set [R] have
    been decrypted, and every stored key is the key of a message skipped on
    that chain.  [all_stored] adds that no skipped key has been evicted. *)
From S2P Require Import Prelude Crypto DoubleRatchet RatchetProofs.

Section Chain.
Context {C : RatchetCrypto} {CL : RatchetCryptoLaws C}.

(** The chain that both parties derive from one chain key. *)
Definition chain_key (ck : bytes) (n : nat) : bytes := Nat.iter n (fun k => (kdfChainKey k).1) ck.
Definition message_key (ck : bytes) (n : Z) : bytes := (kdfChainKey (chain_key ck (Z.to_nat n))).2.

Lemma chain_key_S ck n : (kdfChainKey (chain_key ck n)).1 = chain_key ck (S n).
Proof. done. Qed.

Lemma chain_key_length ck n : length ck = 32%nat -> length (chain_key ck n) = 32%nat.
Proof. intros H. destruct n; [done|]. cbn. apply hmac_length. Qed.

(** *** The skip loop *)
Lemma skip_loop_sound now pub ck n : forall i l cur, 0 <= i -> chains_ok l -> cur = chain_key ck (Z.to_nat i) ->
  let '(cur', l') := skip_loop now DEFAULT_RATCHET_CONFIG pub n i cur l in
  cur' = chain_key ck (Z.to_nat (i + Z.of_nat n)) /\ chains_ok l' /\
  (forall k, k ∈ chain_keys pub l' -> k ∈ chain_keys pub l \/
     (i <= mk_index k < i + Z.of_nat n /\ mk_seed k = message_key ck (mk_index k))).
Proof.
  induction n as [|n IH]; intros i l cur Hi Hok ->; cbn [skip_loop].
  - rewrite Z.add_0_r. auto.
  - destruct (kdfChainKey (chain_key ck (Z.to_nat i))) as [new mk] eqn:E.
    destruct (store_spec now pub i mk l Hok) as (Hok' & Hks & _). cbn zeta in *.
    set (l1 := storeMessageKeyInChain _ _ _ _ _ _) in *.
    assert (Hnew : new = chain_key ck (Z.to_nat (i + 1))).
    { replace (Z.to_nat (i + 1)) with (S (Z.to_nat i)) by lia. by rewrite <- chain_key_S, E. }
    specialize (IH (i + 1) l1 new ltac:(lia) Hok' Hnew).
    destruct (skip_loop _ _ _ _ _ _ _) as [cur' l']. destruct IH as (H1 & H2 & H3).
    split; [rewrite H1; do 2 f_equal; lia|]. split; [done|]. intros k Hk.
    destruct (H3 k Hk) as [Hk'|[Hr Hs]]; [|right; split; [lia|done]].
    rewrite Hks in Hk'. destruct (existsb _ _); [by left|].
    apply elem_of_app in Hk' as [Hk'|Hk'].
    + left. eapply sublist_subseteq; [|exact Hk']. apply evict_until_spec; [lia|cbn; lia].
    + apply list_elem_of_singleton in Hk' as ->. right. cbn [mk_index mk_seed]. split; [lia|].
      unfold message_key. by rewrite E.
Qed.

Lemma skip_loop_complete now pub n : forall i l cur, chains_ok l ->
  (forall k, k ∈ chain_keys pub l -> mk_index k < i) ->
  len (chain_keys pub l) + Z.of_nat n <= maxMessageKeysStored DEFAULT_RATCHET_CONFIG ->
  let l' := (skip_loop now DEFAULT_RATCHET_CONFIG pub n i cur l).2 in
  forall x, x ∈ map mk_index (chain_keys pub l) \/ i <= x < i + Z.of_nat n -> x ∈ map mk_index (chain_keys pub l').
Proof.
  induction n as [|n IH]; intros i l cur Hok Hlt Hlen; cbn [skip_loop].
  - intros x [?|?]; [done|lia].
  - destruct (kdfChainKey cur) as [new mk].
    destruct (store_spec now pub i mk l Hok) as (Hok' & Hks & _). cbn zeta in *.
    set (l1 := storeMessageKeyInChain _ _ _ _ _ _) in *.
    assert (Hex : existsb (fun k => mk_index k =? i) (chain_keys pub l) = false).
    { apply not_true_iff_false. intros He. apply existsb_exists in He as (k & Hk & E). apply Z.eqb_eq in E.
      apply list_elem_of_In, Hlt in Hk. lia. }
    rewrite Hex, evict_until_small in Hks by lia.
    intros x Hx. apply (IH (i + 1) l1 new Hok').
    + intros k Hk. rewrite Hks in Hk. apply elem_of_app in Hk as [Hk|Hk]; [apply Hlt in Hk; lia|].
      apply list_elem_of_singleton in Hk as ->. cbn. lia.
    + rewrite Hks. unfold len in *. rewrite length_app. cbn [length]. lia.
    + rewrite Hks, map_app, elem_of_app. cbn [map mk_index]. rewrite list_elem_of_singleton.
      destruct Hx as [Hx|Hx]; [by left; left|]. destruct (decide (x = i)); [by left; right|right; lia].
Qed.

(** *** The invariant of the receiving chain *)
Definition recv_inv (ck pub : bytes) (R : gset Z) (s : RatchetState) : Prop :=
  length ck = 32%nat /\ chains_ok (receiverChains s) /\ DHr s = Some pub /\ pub <> [] /\ is_Some (DHs s) /\
  falsy (CKs s) = false /\ 0 <= Nr s /\ CKr s = Some (chain_key ck (Z.to_nat (Nr s))) /\
  (forall i, i ∈ R -> 0 <= i < Nr s) /\
  (forall k, k ∈ chain_keys pub (receiverChains s) ->
     0 <= mk_index k < Nr s /\ (mk_index k ∉ R) /\ mk_seed k = message_key ck (mk_index k)).

Definition all_stored (pub : bytes) (R : gset Z) (s : RatchetState) : Prop :=
  forall i, 0 <= i < Nr s -> i ∉ R -> i ∈ map mk_index (chain_keys pub (receiverChains s)).

(** A skipped key is found and leaves. *)
Lemma consume_spec pub c s : chains_ok (receiverChains s) ->
  let '(s', r) := tryGetSkippedKey pub c s in
  match r with
  | Ok (Some seed) => exists k, k ∈ chain_keys pub (receiverChains s) /\ mk_index k = c /\ mk_seed k = seed /\
      exists l', s' = set_chains l' s /\ chains_ok l' /\
        forall k', k' ∈ chain_keys pub l' <-> k' ∈ chain_keys pub (receiverChains s) /\ mk_index k' <> c
  | Ok None => s' = s /\ c ∉ map mk_index (chain_keys pub (receiverChains s))
  | Throw _ => False
  end.
Proof.
  intros Hok. pose proof Hok as (Hlen & Hnd & Hf). unfold tryGetSkippedKey, consumeMessageKeyFromChain.
  destruct (find_chain pub (receiverChains s)) as [[i ch]|] eqn:E.
  2:{ split; [done|]. unfold chain_keys. rewrite E. apply not_elem_of_nil. }
  pose proof (find_chain_Some _ _ _ _ E) as [Hi Hk].
  assert (Hck : chain_keys pub (receiverChains s) = messageKeys ch) by (unfold chain_keys; by rewrite E).
  rewrite Hck. destruct (list_find _ (messageKeys ch)) as [[j k]|] eqn:Ej.
  2:{ split; [done|]. intros Hin. apply list_find_None in Ej. apply list_elem_of_fmap in Hin as (k & -> & Hin).
      rewrite Forall_forall in Ej. by apply (Ej k). }
  apply list_find_Some in Ej as (Hj & Hidx & _).
  exists k. split; [by eapply list_elem_of_lookup_2|]. split; [done|]. split; [done|].
  rewrite Forall_forall in Hf. destruct (Hf ch) as [Hndk Hlk]; [by eapply list_elem_of_lookup_2|].
  eexists. split; [done|]. set (ch' := set_keys (delete j (messageKeys ch)) ch).
  assert (Hmap : map senderRatchetKey (<[i := ch']> (receiverChains s)) = map senderRatchetKey (receiverChains s))
    by (by apply map_key_insert).
  split; [split; [|split]|].
  - unfold len in *. by rewrite length_insert.
  - by rewrite Hmap.
  - apply Forall_insert; [by apply Forall_forall|]. split; cbn [messageKeys ch' set_keys].
    + rewrite map_delete. by apply NoDup_delete.
    + unfold len in *. pose proof (sublist_length _ _ (sublist_delete (messageKeys ch) j)). lia.
  - intros k'. unfold chain_keys. rewrite (find_chain_nodup pub _ i ch'); [|by rewrite Hmap|by apply list_lookup_insert_eq; eapply lookup_lt_Some|done].
    cbn [messageKeys ch' set_keys]. split.
    + intros Hk'. split; [eapply sublist_subseteq; [apply sublist_delete|exact Hk']|]. intros Heq.
      apply list_elem_of_lookup in Hk' as [m Hm].
      assert (Hpos : exists p, messageKeys ch !! p = Some k' /\ p <> j).
      { destruct (decide (m < j)%nat).
        - rewrite list_lookup_delete_lt in Hm by done. exists m. split; [done|lia].
        - rewrite list_lookup_delete_ge in Hm by lia. exists (S m). split; [done|lia]. }
      destruct Hpos as (p & Hp & Hpj). apply Hpj. eapply NoDup_lookup; [exact Hndk| |].
      * change (map mk_index ?l) with (mk_index <$> l). by rewrite list_lookup_fmap, Hp.
      * change (map mk_index ?l) with (mk_index <$> l). rewrite list_lookup_fmap, Hj. cbn. by rewrite Hidx, <- Heq.
    + intros [Hk' Hne]. apply list_elem_of_lookup in Hk' as [m Hm].
      assert (m <> j) by (intros ->; rewrite Hj in Hm; injection Hm as <-; done).
      apply list_elem_of_lookup. destruct (decide (m < j)%nat).
      * exists m. by rewrite list_lookup_delete_lt.
      * exists (m - 1)%nat. rewrite list_lookup_delete_ge by lia. by replace (S (m - 1)) with m by lia.
Qed.
End Chain.

(** ** Deliveries on one receiving chain, in any order and with repetitions *)
(** ** Indices in an interval *)
Section Trace.
Context {C : RatchetCrypto} {CL : RatchetCryptoLaws C}.

(** Keys stored and messages received share the first [Nr] counters. *)
Lemma recv_inv_count ck pub R s : recv_inv ck pub R s ->
  Z.of_nat (size R) + len (chain_keys pub (receiverChains s)) <= Nr s.
Proof.
  intros (_ & Hok & _ & _ & _ & _ & Hnr & _ & HR & Hk).
  set (ks := chain_keys pub (receiverChains s)) in *.
  assert (Hnd : NoDup (map mk_index ks)).
  { destruct Hok as (_ & _ & Hf). unfold ks, chain_keys. destruct (find_chain _ _) as [[i c]|] eqn:E; [|constructor].
    apply find_chain_Some in E as [Hi _]. eapply Forall_lookup_1 in Hf; [|exact Hi]. apply Hf. }
  assert (H : len (elements R ++ map mk_index ks) <= Nr s).
  { apply NoDup_interval_length; [| |done].
    - apply NoDup_app. split; [apply NoDup_elements|]. split; [|done]. intros x Hx Hx'. apply elem_of_elements in Hx.
      apply list_elem_of_fmap in Hx' as (k & -> & Hx'). by apply (Hk k Hx').
    - intros x Hx. apply elem_of_app in Hx as [Hx|Hx]; [apply elem_of_elements in Hx; by apply HR|].
      apply list_elem_of_fmap in Hx as (k & -> & Hx). by apply Hk. }
  unfold len in *. rewrite length_app, length_map in H. unfold size, set_size. cbn. lia.
Qed.

Lemma recv_inv_validated ck pub R s : recv_inv ck pub R s -> assertValidatedSession s = Ok tt.
Proof.
  intros (_ & _ & Hd & Hp & [k Hk] & Hs & _). unfold assertValidatedSession. rewrite Hk, Hd, Hs.
  by destruct pub.
Qed.

Definition config_with (maxSkip : Z) : DoubleRatchetConfig :=
  {| maxSkippedMessages := maxSkip; maxMessageKeysStored := maxMessageKeysStored DEFAULT_RATCHET_CONFIG;
     maxMessageKeyAge := maxMessageKeyAge DEFAULT_RATCHET_CONFIG |}.

Lemma skip_loop_config now c1 c2 pub n : maxMessageKeysStored c1 = maxMessageKeysStored c2 ->
  forall i cur l, skip_loop now c1 pub n i cur l = skip_loop now c2 pub n i cur l.
Proof.
  intros H. induction n as [|n IH]; intros i cur l; [done|]. cbn [skip_loop]. destruct (kdfChainKey cur).
  unfold storeMessageKeyInChain. rewrite H. apply IH.
Qed.

(** A message of the current chain whose key is not stored. *)
Lemma current_chain now maxSkip np pub c prev s : DHr s = Some pub ->
  tryGetSkippedKey pub c s = (s, Ok None) ->
  decryptMessageKey now maxSkip np pub c prev s =
    (do_ storeSkippedMessageKeys now c (config_with maxSkip); deriveReceivingKey)%st s.
Proof.
  intros Hd Ht. unfold decryptMessageKey, M_bind at 1. rewrite Ht. cbn [M_bind M_get].
  unfold needsDHRatchet. rewrite Hd, bool_decide_true by done. done.
Qed.

Lemma recv_inv_intro ck pub (R : gset Z) s : length ck = 32%nat -> chains_ok (receiverChains s) -> DHr s = Some pub ->
  pub <> [] -> is_Some (DHs s) -> falsy (CKs s) = false -> 0 <= Nr s -> CKr s = Some (chain_key ck (Z.to_nat (Nr s))) ->
  (forall i, i ∈ R -> 0 <= i < Nr s) ->
  (forall k, k ∈ chain_keys pub (receiverChains s) ->
     0 <= mk_index k < Nr s /\ (mk_index k ∉ R) /\ mk_seed k = message_key ck (mk_index k)) ->
  recv_inv ck pub R s.
Proof. unfold recv_inv. tauto. Qed.

(** What the skip phase followed by the derivation does, on every branch. *)
Definition skip_and_derive (now maxSkip c : Z) : M RatchetState bytes :=
  (do_ storeSkippedMessageKeys now c (config_with maxSkip); deriveReceivingKey)%st.

Lemma skip_state_inv ck pub R now n s : recv_inv ck pub R s ->
  let '(cur, l) := skip_loop now DEFAULT_RATCHET_CONFIG pub n (Nr s) (chain_key ck (Z.to_nat (Nr s))) (receiverChains s) in
  cur = chain_key ck (Z.to_nat (Nr s + Z.of_nat n)) /\
  recv_inv ck pub R (set_receiving (Some cur) (Nr s + Z.of_nat n) (set_chains l s)).
Proof.
  intros (Hck & Hok & Hd & Hp & Hdh & Hs & Hnr & Hckr & HR & Hk).
  pose proof (skip_loop_sound now pub ck n (Nr s) (receiverChains s) _ Hnr Hok eq_refl) as H.
  destruct (skip_loop _ _ _ _ _ _ _) as [cur l]. destruct H as (Hcur & Hok' & Hks). split; [done|].
  subst cur. apply recv_inv_intro; cbn [receiverChains DHr DHs CKs Nr CKr set_receiving set_chains]; try done; [lia| |].
  - intros i Hi. apply HR in Hi. lia.
  - intros k Hin. destruct (Hks k Hin) as [H'|[Hr Hm]].
    + apply Hk in H'. destruct H' as (? & ? & ?). split; [lia|done].
    + split; [lia|]. split; [|done]. intros HR'. apply HR in HR'. lia.
Qed.

Lemma derive_inv ck pub R s : recv_inv ck pub R s -> Nr s < MAX_MESSAGE_COUNTER ->
  deriveReceivingKey s = (set_receiving (Some (chain_key ck (Z.to_nat (Nr s + 1)))) (Nr s + 1) s, Ok (message_key ck (Nr s))) /\
  recv_inv ck pub ({[Nr s]} ∪ R) (set_receiving (Some (chain_key ck (Z.to_nat (Nr s + 1)))) (Nr s + 1) s).
Proof.
  intros (Hck & Hok & Hd & Hp & Hdh & Hs & Hnr & Hckr & HR & Hk) Hm. unfold deriveReceivingKey.
  replace (Nr s >=? MAX_MESSAGE_COUNTER) with false by lia. rewrite Hckr. cbn [base64ToBytes].
  rewrite (proj2 (Z.eqb_eq (len _) 32)) by (unfold len; by rewrite chain_key_length). cbn [negb].
  replace (Z.to_nat (Nr s + 1)) with (S (Z.to_nat (Nr s))) by lia.
  split; [done|]. replace (S (Z.to_nat (Nr s))) with (Z.to_nat (Nr s + 1)) by lia.
  apply recv_inv_intro; cbn [receiverChains DHr DHs CKs Nr CKr set_receiving set_chains]; try done; [lia| |].
  - intros i [Hi%elem_of_singleton|Hi%HR]%elem_of_union; lia.
  - intros k Hin. apply Hk in Hin as (? & ? & ?). split; [lia|]. split; [|done].
    rewrite elem_of_union, elem_of_singleton. intros [?|?]; [lia|done].
Qed.

Lemma skip_and_derive_spec ck pub R now maxSkip c s : recv_inv ck pub R s ->
  let '(s', r) := skip_and_derive now maxSkip c s in
  match r with
  | Ok k => Nr s <= c /\ k = message_key ck c /\ recv_inv ck pub ({[c]} ∪ R) s'
  | Throw e => recv_inv ck pub R s' /\
      ((c < Nr s /\ e = EncryptionError "MESSAGE_DUPLICATE") \/
       (Nr s + maxSkip < c /\ e = EncryptionError "TOO_MANY_SKIPPED_MESSAGES") \/
       (MAX_MESSAGE_COUNTER <= c /\ e = EncryptionError "COUNTER_OVERFLOW"))
  end.
Proof.
  intros Hinv. pose proof (recv_inv_validated _ _ _ _ Hinv) as Hval.
  unfold skip_and_derive, M_bind, storeSkippedMessageKeys, storeSkippedKeys. rewrite Hval.
  cbn [maxSkippedMessages config_with].
  destruct (Z.ltb_spec c (Nr s)). { split; [done|]. by left. }
  destruct (Z.ltb_spec (Nr s + maxSkip) c). { split; [done|]. by right; left. }
  pose proof Hinv as (_ & _ & Hd & _ & _ & _ & _ & Hckr & _). rewrite Hckr, Hd. cbn [base64ToBytes default].
  rewrite (skip_loop_config now _ DEFAULT_RATCHET_CONFIG) by done.
  pose proof (skip_state_inv ck pub R now (Z.to_nat (c - Nr s)) s Hinv) as H1.
  cbv [from_option id]. destruct (skip_loop _ _ _ _ _ _ _) as [cur l]. destruct H1 as [Hcur H1].
  replace (Nr s + Z.of_nat (Z.to_nat (c - Nr s))) with c in * by lia.
  set (s1 := set_receiving _ _ _) in *.
  destruct (Z_lt_dec c MAX_MESSAGE_COUNTER) as [Hm|Hm].
  - destruct (derive_inv ck pub R s1 H1 Hm) as [-> H2]. auto.
  - unfold deriveReceivingKey. replace (Nr s1 >=? MAX_MESSAGE_COUNTER) with true by (cbn [Nr s1 set_receiving]; lia). split; [done|]. right; right. split; [lia|done].
Qed.

Lemma recv_inv_consume ck pub R s l' c : recv_inv ck pub R s -> 0 <= c < Nr s -> chains_ok l' ->
  (forall k, k ∈ chain_keys pub l' <-> k ∈ chain_keys pub (receiverChains s) /\ mk_index k <> c) ->
  recv_inv ck pub ({[c]} ∪ R) (set_chains l' s).
Proof.
  intros (Hck & Hok & Hd & Hp & Hdh & Hs & Hnr & Hckr & HR & Hk) Hc Hok' Hks.
  apply recv_inv_intro; cbn [receiverChains DHr DHs CKs Nr CKr set_receiving set_chains]; try done.
  - intros i [Hi%elem_of_singleton|Hi%HR]%elem_of_union; lia.
  - intros k [Hin Hne]%Hks. apply Hk in Hin as (? & ? & ?). split; [lia|]. split; [|done].
    rewrite elem_of_union, elem_of_singleton. intros [?|?]; done.
Qed.

(** Safety of one delivery: a key that comes out is the sender's key of
    that counter, it has not come out before, and the invariant holds after
    every call, the failing ones included. *)
Lemma deliver_safe ck pub R now maxSkip np c prev s : recv_inv ck pub R s ->
  let '(s', r) := decryptMessageKey now maxSkip np pub c prev s in
  match r with
  | Ok k => k = message_key ck c /\ (c ∉ R) /\ recv_inv ck pub ({[c]} ∪ R) s'
  | Throw e => recv_inv ck pub R s' /\
      ((c < Nr s /\ e = EncryptionError "MESSAGE_DUPLICATE") \/
       (Nr s + maxSkip < c /\ e = EncryptionError "TOO_MANY_SKIPPED_MESSAGES") \/
       (MAX_MESSAGE_COUNTER <= c /\ e = EncryptionError "COUNTER_OVERFLOW"))
  end.
Proof.
  intros Hinv. pose proof Hinv as (_ & Hok & Hd & _ & _ & _ & _ & _ & HR & Hk).
  pose proof (consume_spec pub c s Hok) as Hc. destruct (tryGetSkippedKey pub c s) as [s1 r] eqn:E.
  destruct r as [[seed|]|]; [| |done].
  - destruct Hc as (k & Hin & <- & <- & l' & -> & Hok' & Hks). apply Hk in Hin as (Hi & HnR & Hm).
    unfold decryptMessageKey, M_bind at 1. rewrite E. cbn [M_ret].
    split; [done|]. split; [done|]. by eapply recv_inv_consume.
  - destruct Hc as [-> Hn]. rewrite current_chain by done.
    pose proof (skip_and_derive_spec ck pub R now maxSkip c s Hinv) as H. unfold skip_and_derive in H.
    destruct (M_bind _ _ s) as [s' [k|e]]; [|done]. destruct H as (Hle & -> & Hinv').
    split; [done|]. split; [|done]. intros Hc. apply HR in Hc. lia.
Qed.

Lemma replay_rejected ck pub R now maxSkip np c prev s : recv_inv ck pub R s -> c ∈ R ->
  exists s', decryptMessageKey now maxSkip np pub c prev s = (s', Throw (EncryptionError "MESSAGE_DUPLICATE")).
Proof.
  intros Hinv Hc. pose proof Hinv as (_ & Hok & Hd & _ & _ & _ & _ & _ & HR & Hk). pose proof (HR c Hc) as Hr.
  pose proof (consume_spec pub c s Hok) as Hcs. destruct (tryGetSkippedKey pub c s) as [s1 r] eqn:E.
  destruct r as [[seed|]|]; [| |done].
  - destruct Hcs as (k & Hin & <- & _). apply Hk in Hin as (_ & HnR & _). done.
  - destruct Hcs as [-> Hn]. exists s. rewrite current_chain by done.
    unfold M_bind, storeSkippedMessageKeys, storeSkippedKeys. rewrite (recv_inv_validated _ _ _ _ Hinv).
    by rewrite (proj2 (Z.ltb_lt _ _)) by lia.
Qed.

(** Progress of one delivery within the storage window. *)
Lemma deliver_live ck pub R now maxSkip np c prev s : recv_inv ck pub R s -> all_stored pub R s ->
  c ∉ R -> 0 <= c < MAX_MESSAGE_COUNTER -> c - Z.of_nat (size R) <= 2000 -> 2000 <= maxSkip ->
  exists s', decryptMessageKey now maxSkip np pub c prev s = (s', Ok (message_key ck c)) /\
    recv_inv ck pub ({[c]} ∪ R) s' /\ all_stored pub ({[c]} ∪ R) s'.
Proof.
  intros Hinv Hall HcR Hc Hwin Hms. pose proof (deliver_safe ck pub R now maxSkip np c prev s Hinv) as Hsafe.
  pose proof (recv_inv_count _ _ _ _ Hinv) as Hcount.
  pose proof Hinv as (_ & Hok & Hd & _ & _ & _ & Hnr & Hckr & HR & Hk).
  pose proof (consume_spec pub c s Hok) as Hcs. destruct (tryGetSkippedKey pub c s) as [s1 r] eqn:E.
  destruct r as [[seed|]|]; [| |done].
  - destruct Hcs as (k & Hin & <- & <- & l' & -> & Hok' & Hks).
    assert (Hrun : decryptMessageKey now maxSkip np pub (mk_index k) prev s = (set_chains l' s, Ok (mk_seed k)))
      by (unfold decryptMessageKey, M_bind at 1; by rewrite E).
    rewrite Hrun in Hsafe. destruct Hsafe as (Hm & _ & Hinv'). exists (set_chains l' s).
    rewrite Hrun, Hm. split; [done|]. split; [done|].
    intros i Hi HiR. cbn [Nr receiverChains set_chains] in *. rewrite elem_of_union, elem_of_singleton in HiR.
    assert (Hi' : i ∈ map mk_index (chain_keys pub (receiverChains s))) by (apply Hall; tauto).
    apply list_elem_of_fmap in Hi' as (k' & -> & Hk'). apply list_elem_of_In, in_map, list_elem_of_In.
    apply Hks. tauto.
  - destruct Hcs as [-> Hn].
    assert (Hge : Nr s <= c). { destruct (Z_lt_dec c (Nr s)); [|lia]. exfalso. apply Hn, Hall; [lia|done]. }
    assert (HRlen : Z.of_nat (size R) <= Nr s) by (len_pos; lia).
    destruct (decryptMessageKey _ _ _ _ _ _ _) as [s' r] eqn:Hrun. exists s'. destruct r as [k|e].
    2:{ exfalso. destruct Hsafe as (_ & [[? _]|[[? _]|[? _]]]); lia. }
    destruct Hsafe as (-> & _ & Hinv'). split; [done|]. split; [done|].
    rewrite current_chain in Hrun by done.
    unfold M_bind, storeSkippedMessageKeys, storeSkippedKeys in Hrun. rewrite (recv_inv_validated _ _ _ _ Hinv) in Hrun.
    rewrite (proj2 (Z.ltb_ge c (Nr s))), (proj2 (Z.ltb_ge _ c)) in Hrun by (cbn [config_with maxSkippedMessages]; lia).
    rewrite Hckr, Hd in Hrun. cbn [base64ToBytes default from_option id] in Hrun.
    rewrite (skip_loop_config now _ DEFAULT_RATCHET_CONFIG) in Hrun by done.
    pose proof (skip_loop_complete now pub (Z.to_nat (c - Nr s)) (Nr s) (receiverChains s)
      (chain_key ck (Z.to_nat (Nr s))) Hok) as Hcomp.
    pose proof (skip_state_inv ck pub R now (Z.to_nat (c - Nr s)) s Hinv) as H1.
    change (@from_option bytes bytes (fun x => x) [] (Some pub)) with pub in *.
    destruct (skip_loop _ _ _ _ _ _ _) as [cur l]. destruct H1 as [Hcur H1]. cbn [snd] in Hcomp.
    replace (Nr s + Z.of_nat (Z.to_nat (c - Nr s))) with c in * by lia.
    destruct (derive_inv ck pub R _ H1) as [Hd' _]; [cbn; lia|]. rewrite Hd' in Hrun. injection Hrun as <-.
    intros i Hi HiR. cbn [Nr receiverChains set_receiving set_chains] in *. rewrite elem_of_union, elem_of_singleton in HiR.
    apply Hcomp; [intros k Hin; apply Hk in Hin; lia|cbn; lia|].
    destruct (Z_lt_dec i (Nr s)); [left; apply Hall; [lia|tauto]|right]. assert (i <> c) by tauto. lia.
Qed.
End Trace.

(** ** Properties of the Double Ratchet *)
(** ** A sequence of deliveries

    The cipher works on a candidate copy of the session and stores it only
    when the decryption succeeds, so a failing delivery leaves the session
    unchanged. *)
Record Delivery := { d_now : Z; d_private : bytes; d_counter : Z; d_previous : Z }.

Section Traces.
Context {C : RatchetCrypto}.

Definition receive (maxSkip : Z) (pub : bytes) (d : Delivery) (s : RatchetState) : RatchetState * result bytes :=
  match decryptMessageKey (d_now d) maxSkip (d_private d) pub (d_counter d) (d_previous d) s with
  | (s', Ok k) => (s', Ok k)
  | (_, Throw e) => (s, Throw e)
  end.

Fixpoint receive_all (maxSkip : Z) (pub : bytes) (ds : list Delivery) (s : RatchetState)
    : RatchetState * list (result bytes) :=
  match ds with
  | [] => (s, [])
  | d :: ds =>
      let '(s, r) := receive maxSkip pub d s in
      let '(s, rs) := receive_all maxSkip pub ds s in (s, r :: rs)
  end.

Fixpoint send_all (n : nat) : M RatchetState (list bytes) :=
  match n with
  | O => M_ret []
  | S n => (do k <- deriveSendingKey; do ks <- send_all n; M_ret (k :: ks))%st
  end.

(** What the receiver should obtain: the key of each counter once, an error
    for every repetition.  [R] are the counters already received. *)
Fixpoint expected (keys : list bytes) (R : gset Z) (ds : list Delivery) : list (result bytes) :=
  match ds with
  | [] => []
  | d :: ds =>
      (if bool_decide (d_counter d ∈ R) then Throw (EncryptionError "MESSAGE_DUPLICATE")
       else Ok (nthZ [] keys (d_counter d))) :: expected keys ({[d_counter d]} ∪ R) ds
  end.

(** No message is more than 2000 (the number of keys kept per chain) ahead of
    the number of messages received. *)
Fixpoint in_window (R : gset Z) (ds : list Delivery) : Prop :=
  match ds with
  | [] => True
  | d :: ds => 0 <= d_counter d /\ d_counter d - Z.of_nat (size R) <= 2000 /\ in_window ({[d_counter d]} ∪ R) ds
  end.
End Traces.

Section TraceProofs.
Context {C : RatchetCrypto} {CL : RatchetCryptoLaws C}.

Lemma deriveSendingKey_spec ck j s : length ck = 32%nat -> CKs s = Some (chain_key ck j) -> Ns s = Z.of_nat j ->
  Z.of_nat j < MAX_MESSAGE_COUNTER ->
  deriveSendingKey s = (set_sending (Some (chain_key ck (S j))) (Z.of_nat (S j)) s, Ok (message_key ck (Z.of_nat j))).
Proof.
  intros Hck Hs Hn Hm. unfold deriveSendingKey. replace (Ns s >=? MAX_MESSAGE_COUNTER) with false by lia.
  rewrite Hs. cbn [base64ToBytes]. rewrite (proj2 (Z.eqb_eq (len _) 32)) by (unfold len; by rewrite chain_key_length).
  cbn [negb]. rewrite Hn. unfold message_key. rewrite Nat2Z.id. by replace (Z.of_nat j + 1) with (Z.of_nat (S j)) by lia.
Qed.

Lemma send_all_spec ck n : forall j s, length ck = 32%nat -> CKs s = Some (chain_key ck j) -> Ns s = Z.of_nat j ->
  Z.of_nat (j + n) <= MAX_MESSAGE_COUNTER ->
  exists s', send_all n s = (s', Ok (map (fun i => message_key ck (Z.of_nat i)) (seq j n))).
Proof.
  induction n as [|n IH]; intros j s Hck Hs Hn Hm; [by eexists|]. cbn [send_all seq map]. unfold M_bind at 1.
  rewrite (deriveSendingKey_spec ck j) by (done || lia).
  set (s1 := set_sending _ _ _). destruct (IH (S j) s1 Hck eq_refl eq_refl) as [s' Hs']; [lia|].
  exists s'. unfold M_bind. by rewrite Hs'.
Qed.

Lemma receive_all_live ck pub keys maxSkip ds : 2000 <= maxSkip -> len keys <= MAX_MESSAGE_COUNTER ->
  (forall c, 0 <= c < len keys -> nthZ [] keys c = message_key ck c) ->
  forall R s, recv_inv ck pub R s -> all_stored pub R s -> in_window R ds ->
  Forall (fun d => d_counter d < len keys) ds ->
  (receive_all maxSkip pub ds s).2 = expected keys R ds.
Proof.
  intros Hms Hmax Hkeys. induction ds as [|d ds IH]; intros R s Hinv Hall Hw Hf; [done|].
  cbn [receive_all expected in_window] in *. destruct Hw as (H0 & Hc & Hw). apply Forall_cons in Hf as [Hd Hf'].
  unfold receive. case_bool_decide as HR.
  - destruct (replay_rejected ck pub R (d_now d) maxSkip (d_private d) (d_counter d) (d_previous d) s Hinv HR) as [s' ->].
    replace ({[d_counter d]} ∪ R) with R in Hw |- * by set_solver.
    specialize (IH R s Hinv Hall Hw Hf'). destruct (receive_all _ _ _ _) as [s2 rs]. cbn in *. by rewrite IH.
  - destruct (deliver_live ck pub R (d_now d) maxSkip (d_private d) (d_counter d) (d_previous d) s Hinv Hall HR)
      as (s' & -> & Hinv' & Hall'); [lia..|].
    specialize (IH _ s' Hinv' Hall' Hw Hf'). destruct (receive_all _ _ _ _) as [s2 rs]. cbn in *.
    by rewrite IH, Hkeys by lia.
Qed.

Lemma receive_all_safe ck pub maxSkip ds : forall R s, recv_inv ck pub R s ->
  let rs := (receive_all maxSkip pub ds s).2 in
  length rs = length ds /\
  forall i d k, ds !! i = Some d -> rs !! i = Some (Ok k) ->
    k = message_key ck (d_counter d) /\ (d_counter d ∉ R) /\
    forall j d' k', (j < i)%nat -> ds !! j = Some d' -> rs !! j = Some (Ok k') -> d_counter d' <> d_counter d.
Proof.
  induction ds as [|d ds IH]; intros R s Hinv; [done|]. cbn [receive_all]. unfold receive.
  pose proof (deliver_safe ck pub R (d_now d) maxSkip (d_private d) (d_counter d) (d_previous d) s Hinv) as Hd.
  destruct (decryptMessageKey _ _ _ _ _ _ _) as [s' [k|e]].
  - destruct Hd as (-> & HnR & Hinv'). destruct (IH _ s' Hinv') as [Hlen Hi].
    destruct (receive_all _ _ _ _) as [s2 rs]. cbn [snd length] in *. split; [lia|].
    intros [|i] d0 k0 Hd0 Hr0.
    + injection Hd0 as <-. injection Hr0 as <-. split; [done|]. split; [done|]. intros j. lia.
    + destruct (Hi i d0 k0 Hd0 Hr0) as (-> & HnR0 & Hprev). rewrite elem_of_union, elem_of_singleton in HnR0.
      split; [done|]. split; [tauto|]. intros [|j] d' k' Hj Hd' Hr'.
      * injection Hd' as <-. intros Heq. apply HnR0. by left.
      * apply (Hprev j d' k'); [lia|done|done].
  - destruct (IH R s Hinv) as [Hlen Hi]. destruct (receive_all _ _ _ _) as [s2 rs]. cbn [snd length] in *. split; [lia|].
    intros [|i] d0 k0 Hd0 Hr0; [done|]. destruct (Hi i d0 k0 Hd0 Hr0) as (-> & HnR0 & Hprev).
    split; [done|]. split; [done|]. intros [|j] d' k' Hj Hd' Hr'; [done|]. apply (Hprev j d' k'); [lia|done|done].
Qed.
End TraceProofs.
