(* ===== verification/RatchetConversation.v ===== *)
(** * The DH ratchet: both parties derive the same chains

    [in_sync ck Y X]: [Y] has turned the ratchet since [X] last did, and its
    sending chain started at chain key [ck]. *)
From S2P Require Import Prelude Crypto DoubleRatchet RatchetProofs RatchetTrace.

Section Sync.
Context {C : RatchetCrypto} {CL : RatchetCryptoLaws C}.

Definition good_pair (k : KeyPair) : Prop :=
  length (privateKey k) = 32%nat /\ publicKey k = x25519_public (privateKey k).

Definition in_sync (ck : bytes) (Y X : RatchetState) : Prop :=
  exists ky kx, DHs Y = Some ky /\ DHs X = Some kx /\ good_pair ky /\ good_pair kx /\
    DHr Y = Some (publicKey kx) /\
    kdfRootKey (RK X) (x25519 (privateKey kx) (publicKey ky)) = (RK Y, ck).

Lemma kdfRootKey_length r d : length (kdfRootKey r d).1 = 32%nat /\ length (kdfRootKey r d).2 = 32%nat.
Proof.
  unfold kdfRootKey. cbn [fst snd]. rewrite !length_take, length_drop, hkdf_length. lia.
Qed.

Lemma falsy_32 b : length b = 32%nat -> falsy (Some b) = false.
Proof. by destruct b. Qed.

Lemma generate_good p : length p = 32%nat -> good_pair (generateECDHKeyPair p).
Proof. by split. Qed.

Lemma good_public_length k : good_pair k -> length (publicKey k) = 32%nat.
Proof. intros [H ->]. by apply x25519_public_length. Qed.

Lemma computeSharedSecret_honest p k : length p = 32%nat -> good_pair k ->
  computeSharedSecret p (publicKey k) = Ok (x25519 p (publicKey k)).
Proof.
  intros Hp Hk. pose proof (good_public_length k Hk) as Hl. unfold computeSharedSecret, len. rewrite Hp, Hl.
  change (Z.of_nat 32 =? X25519_KEY_BYTES) with true. cbn [negb]. rewrite bool_decide_false; [done|].
  destruct Hk as [H32 ->]. by apply x25519_nonzero.
Qed.

(** One step of the DH ratchet, in full. *)
Lemma step_spec ck Y X p : in_sync ck Y X -> length p = 32%nat -> exists ky ck' X',
  DHs Y = Some ky /\
  performDHRatchetStep p (publicKey ky) X = (X', Ok tt) /\
  DHs X' = Some (generateECDHKeyPair p) /\ DHr X' = Some (publicKey ky) /\ CKr X' = Some ck /\ Nr X' = 0 /\
  CKs X' = Some ck' /\ length ck = 32%nat /\ length ck' = 32%nat /\ Ns X' = 0 /\ PN X' = Ns X /\
  receiverChains X' = receiverChains X /\ processedChains X' = processedChains X /\
  in_sync ck' X' Y.
Proof.
  intros (ky & kx & HY & HX & Hgy & Hgx & Hr & Hk) Hp. exists ky.
  pose proof (good_public_length ky Hgy) as Hl. pose proof (generate_good p Hp) as Hgp.
  pose proof (kdfRootKey_length (RK X) (x25519 (privateKey kx) (publicKey ky))) as [_ Hck]. rewrite Hk in Hck. cbn [snd] in Hck.
  destruct (kdfRootKey (RK Y) (x25519 p (publicKey ky))) as [rk2 ck2] eqn:E2.
  pose proof (kdfRootKey_length (RK Y) (x25519 p (publicKey ky))) as [_ Hck2]. rewrite E2 in Hck2. cbn [snd] in Hck2.
  exists ck2. unfold performDHRatchetStep, moduleDHRatchetStep, M_bind, M_get, M_lift, M_modify.
  rewrite HX. unfold validateDHPublicKey, len. rewrite Hl. change (Z.of_nat 32 =? X25519_KEY_BYTES) with true. cbn [negb].
  cbn beta iota. cbn [DHs DHr RK CKs Ns CKr Nr PN receiverChains processedChains]. rewrite HX. cbn beta iota.
  rewrite computeSharedSecret_honest by (done || apply Hgx). cbn [RK]. rewrite Hk. cbn beta iota.
  rewrite computeSharedSecret_honest by done. rewrite E2. cbn beta iota.
  cbn [DHs DHr RK CKs Ns CKr Nr PN receiverChains processedChains].
  rewrite !falsy_32 by done. cbn [orb].
  eexists. split; [done|]. split; [reflexivity|]. cbn [DHs DHr RK CKs Ns CKr Nr PN receiverChains processedChains].
  do 11 (split; [done|]). exists (generateECDHKeyPair p), ky.
  cbn [DHs DHr RK CKs Ns CKr Nr PN receiverChains processedChains].
  do 4 (split; [done|]). split; [done|].
  destruct Hgy as [Hy Hpy]. rewrite Hpy in E2. cbn [generateECDHKeyPair publicKey]. by rewrite x25519_comm by done.
Qed.

(** *** What reception on the current chain leaves alone *)
Definition frame (s s' : RatchetState) : Prop :=
  DHs s' = DHs s /\ DHr s' = DHr s /\ RK s' = RK s /\ CKs s' = CKs s /\ Ns s' = Ns s /\ PN s' = PN s /\
  processedChains s' = processedChains s.

Lemma frame_in_sync_l ck Y X Y' : frame Y Y' -> in_sync ck Y X -> in_sync ck Y' X.
Proof. intros (H1 & H2 & H3 & _) (ky & kx & ?). exists ky, kx. by rewrite H1, H2, H3. Qed.

Lemma frame_in_sync_r ck Y X X' : frame X X' -> in_sync ck Y X -> in_sync ck Y X'.
Proof. intros (H1 & H2 & H3 & _) (ky & kx & ?). exists ky, kx. by rewrite H1, H3. Qed.

Lemma frame_refl s : frame s s.
Proof. repeat split. Qed.
Lemma frame_trans s1 s2 s3 : frame s1 s2 -> frame s2 s3 -> frame s1 s3.
Proof. unfold frame. intuition congruence. Qed.

Lemma skip_and_derive_frame now maxSkip c s : frame s (skip_and_derive now maxSkip c s).1.
Proof.
  unfold skip_and_derive, M_bind, storeSkippedMessageKeys, storeSkippedKeys.
  destruct (assertValidatedSession s); [|apply frame_refl].
  case_if; [apply frame_refl|]. case_if; [apply frame_refl|]. destruct (base64ToBytes (CKr s)) as [|[]]; [|apply frame_refl..].
  destruct (skip_loop _ _ _ _ _ _ _) as [cur l].
  unfold deriveReceivingKey. repeat case_match; repeat split.
Qed.

Lemma decrypt_current_frame now maxSkip np pub c prev s : DHr s = Some pub ->
  frame s (decryptMessageKey now maxSkip np pub c prev s).1.
Proof.
  intros Hd. destruct (tryGetSkippedKey pub c s) as [s1 r] eqn:E. pose proof E as E'.
  unfold tryGetSkippedKey, consumeMessageKeyFromChain in E'.
  destruct (find_chain _ _) as [[i ch]|]; [destruct (list_find _ _) as [[j k]|]|]; injection E' as <- <-;
    [|rewrite current_chain by done; apply skip_and_derive_frame..].
  unfold decryptMessageKey, M_bind at 1. rewrite E. repeat split.
Qed.

Lemma receive_all_frame maxSkip pub ds : forall s, DHr s = Some pub -> frame s (receive_all maxSkip pub ds s).1.
Proof.
  induction ds as [|d ds IH]; intros s Hd; [apply frame_refl|]. cbn [receive_all]. unfold receive.
  pose proof (decrypt_current_frame (d_now d) maxSkip (d_private d) pub (d_counter d) (d_previous d) s Hd) as Hf.
  destruct (decryptMessageKey _ _ _ _ _ _ _) as [s' [k|e]]; cbn [fst] in Hf.
  - pose proof Hf as (_ & Hd' & _). specialize (IH s'). rewrite Hd' in IH. specialize (IH Hd).
    destruct (receive_all _ _ _ _) as [s2 rs]. cbn in *. by eapply frame_trans.
  - specialize (IH s Hd). by destruct (receive_all _ _ _ _) as [s2 rs].
Qed.

Lemma receive_all_inv ck pub maxSkip ds : forall R s, recv_inv ck pub R s ->
  exists R', recv_inv ck pub R' (receive_all maxSkip pub ds s).1.
Proof.
  induction ds as [|d ds IH]; intros R s Hinv; [by exists R|]. cbn [receive_all]. unfold receive.
  pose proof (deliver_safe ck pub R (d_now d) maxSkip (d_private d) (d_counter d) (d_previous d) s Hinv) as Hd.
  destruct (decryptMessageKey _ _ _ _ _ _ _) as [s' [k|e]].
  - destruct Hd as (_ & _ & Hinv'). specialize (IH _ s' Hinv'). by destruct (receive_all _ _ _ _).
  - specialize (IH R s Hinv). by destruct (receive_all _ _ _ _).
Qed.
End Sync.

(** ** Whole conversations: the first message of a chain turns the ratchet *)
(** ** Rounds

    In a round one party sends [r_count] messages and the other receives
    [r_first] and then [r_rest], in any order and with repetitions; then the
    roles change. *)
Record Round := { r_count : nat; r_first : Delivery; r_rest : list Delivery }.
Definition r_deliveries (r : Round) : list Delivery := r_first r :: r_rest r.

Section Rounds.
Context {C : RatchetCrypto}.

(** The keys used by the sender and those obtained by the receiver. *)
Fixpoint converse (maxSkip : Z) (rounds : list Round) (Y X : RatchetState) : list (list bytes * list (result bytes)) :=
  match rounds with
  | [] => []
  | r :: rounds =>
      match send_all (r_count r) Y with
      | (Y', Ok keys) =>
          match DHs Y' with
          | Some ky =>
              let '(X', got) := receive_all maxSkip (publicKey ky) (r_deliveries r) X in
              (keys, got) :: converse maxSkip rounds X' Y'
          | None => []
          end
      | (_, Throw _) => []
      end
  end.

(** The ratchet key the receiver creates in a round. *)
Definition round_public (r : Round) : bytes := x25519_public (d_private (r_first r)).

Definition round_ok (maxSkip : Z) (r : Round) : Prop :=
  in_window ∅ (r_deliveries r) /\ Forall (fun d => d_counter d < Z.of_nat (r_count r)) (r_deliveries r) /\
  Z.of_nat (r_count r) <= MAX_MESSAGE_COUNTER /\ d_previous (r_first r) <= maxSkip /\
  length (d_private (r_first r)) = 32%nat.

Definition agree (r : Round) (o : list bytes * list (result bytes)) : Prop :=
  length o.1 = r_count r /\ o.2 = expected o.1 ∅ (r_deliveries r).
End Rounds.

Section Conversation.
Context {C : RatchetCrypto} {CL : RatchetCryptoLaws C}.

(** *** Ratchet keys a session has seen *)
Definition chain_ids (l : list ReceiverChain) : gset bytes := list_to_set (map senderRatchetKey l).

Definition seen (s : RatchetState) : gset bytes :=
  match DHr s with Some k => {[k]} | None => ∅ end ∪ dom (processedChains s) ∪ chain_ids (receiverChains s).

Lemma store_ids now config key index seed l :
  chain_ids (storeMessageKeyInChain now config key index seed l) ⊆ {[key]} ∪ chain_ids l.
Proof.
  unfold storeMessageKeyInChain, getOrCreateReceiverChain. destruct (find_chain key l) as [[i c]|] eqn:E.
  - destruct (l !! i) as [c'|] eqn:Hi; [|set_solver]. case_if; [set_solver|]. unfold chain_ids. rewrite map_key_insert by done. set_solver.
  - set (l0 := if len l >=? MAX_RECEIVER_CHAINS then drop 1 l else l).
    assert (Hsub : chain_ids l0 ⊆ chain_ids l).
    { unfold chain_ids. intros x Hx. apply elem_of_list_to_set in Hx. apply elem_of_list_to_set.
      eapply sublist_subseteq; [|exact Hx]. apply sublist_map. unfold l0. case_if; [apply sublist_drop|done]. }
    assert (Hid : chain_ids (l0 ++ [{| senderRatchetKey := key; rc_chainKey := None; messageKeys := [] |}]) = chain_ids l0 ∪ {[key]}).
    { unfold chain_ids. rewrite map_app, list_to_set_app_L. cbn. by rewrite union_empty_r_L. }
    destruct (_ !! length l0) as [c'|] eqn:Hi; [|set_solver]. case_if; [set_solver|].
    unfold chain_ids at 1. rewrite map_key_insert by done. fold (chain_ids (l0 ++ [{| senderRatchetKey := key; rc_chainKey := None; messageKeys := [] |}])). set_solver.
Qed.

Lemma skip_loop_ids now config key n : forall i cur l,
  chain_ids (skip_loop now config key n i cur l).2 ⊆ {[key]} ∪ chain_ids l.
Proof.
  induction n as [|n IH]; intros i cur l; cbn [skip_loop]; [set_solver|]. destruct (kdfChainKey cur) as [new mk].
  etransitivity; [apply IH|]. pose proof (store_ids now config key i mk l). set_solver.
Qed.

Lemma skip_loop_chains_ok now key n : forall i cur l, chains_ok l ->
  chains_ok (skip_loop now DEFAULT_RATCHET_CONFIG key n i cur l).2.
Proof.
  induction n as [|n IH]; intros i cur l H; cbn [skip_loop]; [done|]. destruct (kdfChainKey cur).
  by apply IH, store_spec.
Qed.

Lemma chain_keys_unseen pub l : pub ∉ chain_ids l -> chain_keys pub l = [].
Proof.
  unfold chain_ids, chain_keys. rewrite elem_of_list_to_set. intros H. destruct (find_chain pub l) as [[i c]|] eqn:E; [|done].
  apply find_chain_Some in E as [Hi <-]. exfalso. apply H. apply list_elem_of_In, in_map, list_elem_of_In.
  by eapply list_elem_of_lookup_2.
Qed.

Lemma skip_old_spec now maxSkip prev X : chains_ok (receiverChains X) -> 0 <= Nr X -> prev <= maxSkip ->
  exists X1, skip_old_chain now maxSkip prev X = (X1, Ok tt) /\
    DHs X1 = DHs X /\ DHr X1 = DHr X /\ RK X1 = RK X /\ CKs X1 = CKs X /\ Ns X1 = Ns X /\ PN X1 = PN X /\
    chains_ok (receiverChains X1) /\ seen X1 ⊆ seen X.
Proof.
  intros Hok Hn Hp. unfold skip_old_chain.
  destruct (DHr X) as [old|] eqn:Hd; [|exists X; rewrite Hd; done].
  destruct (CKr X) as [ck|] eqn:Hc; [|exists X; rewrite Hd; done].
  case_if; [|exists X; rewrite Hd; done]. replace (Nr X + maxSkip <? prev) with false by lia.
  pose proof (skip_loop_ids now DEFAULT_RATCHET_CONFIG old (Z.to_nat (prev - Nr X)) (Nr X) ck (receiverChains X)) as Hi.
  pose proof (skip_loop_chains_ok now old (Z.to_nat (prev - Nr X)) (Nr X) ck (receiverChains X) Hok) as Ho.
  destruct (skip_loop _ _ _ _ _ _ _) as [cur l]. cbn [snd] in *.
  eexists. split; [reflexivity|]. cbn [DHs DHr RK CKs Ns PN receiverChains processedChains set_processed set_chains].
  do 6 (split; [done|]). split; [done|]. unfold seen. cbn [DHr receiverChains processedChains set_processed set_chains].
  rewrite Hd, dom_insert_L. set_solver.
Qed.

(** *** The first message of a new chain *)
Lemma first_delivery ck Y X ky now maxSkip p c prev : in_sync ck Y X -> DHs Y = Some ky ->
  chains_ok (receiverChains X) -> 0 <= Nr X -> prev <= maxSkip -> length p = 32%nat ->
  publicKey ky ∉ seen X ->
  exists ck' X1, DHr X1 = Some (publicKey ky) /\
    decryptMessageKey now maxSkip p (publicKey ky) c prev X = decryptMessageKey now maxSkip p (publicKey ky) c prev X1 /\
    recv_inv ck (publicKey ky) ∅ X1 /\ all_stored (publicKey ky) ∅ X1 /\ Nr X1 = 0 /\
    CKs X1 = Some ck' /\ length ck' = 32%nat /\ Ns X1 = 0 /\ PN X1 = Ns X /\
    in_sync ck' X1 Y /\ DHs X1 = Some (generateECDHKeyPair p) /\ seen X1 ⊆ {[publicKey ky]} ∪ seen X.
Proof.
  intros Hsync HY Hok Hn Hprev Hp Hseen. set (pub := publicKey ky) in *.
  destruct (skip_old_spec now maxSkip prev X Hok Hn Hprev) as
    (X0 & Hskip & Hdhs & Hdhr & Hrk & Hcks & Hns & Hpn & Hok0 & Hseen0).
  assert (Hsync0 : in_sync ck Y X0).
  { destruct Hsync as (ky0 & kx & ?). exists ky0, kx. by rewrite Hdhs, Hrk. }
  (* without a receiving chain the step starts from [X] itself *)
  set (Xs := match DHr X with None => X | Some _ => X0 end).
  assert (HXs : in_sync ck Y Xs /\ chains_ok (receiverChains Xs) /\ seen Xs ⊆ seen X /\ Ns Xs = Ns X).
  { unfold Xs. destruct (DHr X); [by rewrite Hns|done]. }
  destruct HXs as (Hsyncs & Hoks & Hseens & Hnss).
  destruct (step_spec ck Y Xs p Hsyncs Hp) as (ky' & ck' & X1 & HY' & Hstep & Hs1 & Hr1 & Hc1 & Hn1 & Hk1 & Hlck & Hlck' & Hns1 & Hpn1 & Hrc1 & Hpc1 & Hsync1).
  rewrite HY in HY'. injection HY' as <-. fold pub in Hstep, Hr1.
  assert (Hpub : pub <> []).
  { destruct Hsync as (ky0 & kx & HY0 & _ & Hg & _). rewrite HY in HY0. injection HY0 as <-.
    pose proof (good_public_length ky Hg) as Hl. fold pub in Hl. by destruct pub. }
  assert (Hseen1 : seen X1 ⊆ {[pub]} ∪ seen X) by (unfold seen in *; rewrite Hr1, Hrc1, Hpc1; set_solver).
  assert (Hkeys1 : chain_keys pub (receiverChains X1) = []).
  { apply chain_keys_unseen. rewrite Hrc1. unfold seen in *. set_solver. }
  exists ck', X1. split; [done|]. split; [|split; [|split]].
  - assert (Hnone : forall s, chain_keys pub (receiverChains s) = [] -> chains_ok (receiverChains s) -> tryGetSkippedKey pub c s = (s, Ok None)).
    { intros s Hs Hoks'. pose proof (consume_spec pub c s Hoks') as Hc. destruct (tryGetSkippedKey pub c s) as [s' [[m|]|e]]; [|destruct Hc as [-> _]; done|done].
      destruct Hc as (k & Hk & _). rewrite Hs in Hk. by apply elem_of_nil in Hk. }
    rewrite (current_chain now maxSkip p pub c prev X1 Hr1) by (apply Hnone; [done|by rewrite Hrc1]).
    unfold decryptMessageKey, M_bind at 1. rewrite Hnone; [|apply chain_keys_unseen; unfold seen in Hseen; set_solver|done].
    unfold M_bind at 1. cbn [M_get]. unfold Xs in Hstep.
    destruct (DHr X) as [old|] eqn:Hd.
    + assert (Hne : old <> pub) by (unfold seen in Hseen; rewrite Hd in Hseen; set_solver).
      unfold needsDHRatchet. rewrite Hd, bool_decide_false by congruence. cbn [negb andb orb].
      rewrite bool_decide_false by (unfold seen in Hseen; rewrite <- elem_of_dom; set_solver).
      rewrite (M_bind_Ok _ _ X X1 tt); [done|]. by rewrite (M_bind_Ok _ _ X X0 tt).
    + cbn [negb andb orb]. rewrite (M_bind_Ok _ _ X X1 tt); [done|]. by rewrite (M_bind_Ok _ _ X X tt).
  - apply recv_inv_intro; try done.
    + by rewrite Hrc1.
    + rewrite Hk1. by apply falsy_32.
    + by rewrite Hn1.
    + by rewrite Hc1, Hn1.
    + intros k Hk. rewrite Hkeys1 in Hk. by apply elem_of_nil in Hk.
  - intros i Hi. lia.
  - rewrite Hpn1. auto 10.
Qed.

Lemma decrypt_current_seen now maxSkip np pub c prev s : DHr s = Some pub ->
  seen (decryptMessageKey now maxSkip np pub c prev s).1 ⊆ seen s.
Proof.
  intros Hd. pose proof (decrypt_current_frame now maxSkip np pub c prev s Hd) as (_ & Hd' & _ & _ & _ & _ & Hp').
  unfold seen. rewrite Hd', Hp', Hd.
  enough (chain_ids (receiverChains (decryptMessageKey now maxSkip np pub c prev s).1) ⊆ {[pub]} ∪ chain_ids (receiverChains s)) by set_solver.
  clear Hd' Hp'. destruct (tryGetSkippedKey pub c s) as [s1 r] eqn:E. pose proof E as E'.
  unfold tryGetSkippedKey, consumeMessageKeyFromChain in E'.
  destruct (find_chain _ _) as [[i ch]|] eqn:Ef; [destruct (list_find _ _) as [[j k]|]|]; injection E' as <- <-.
  { unfold decryptMessageKey, M_bind at 1. rewrite E. cbn [fst M_ret receiverChains set_chains]. unfold chain_ids.
    apply find_chain_Some in Ef as [Hi _]. rewrite map_key_insert by done. set_solver. }
  all: rewrite current_chain by done; clear E Ef.
  all: unfold M_bind, storeSkippedMessageKeys, storeSkippedKeys; destruct (assertValidatedSession s); [|set_solver].
  all: case_if; [set_solver|]; case_if; [set_solver|]; rewrite Hd; cbn [default from_option id].
  all: destruct (base64ToBytes (CKr s)) as [b|[]]; [|set_solver..].
  all: pose proof (skip_loop_ids now (config_with maxSkip) pub (Z.to_nat (c - Nr s)) (Nr s) b (receiverChains s)) as Hi.
  all: change (@from_option bytes bytes (fun x => x) [] (Some pub)) with pub.
  all: destruct (skip_loop _ _ _ _ _ _ _) as [cur l]; cbn [snd] in Hi.
  all: unfold deriveReceivingKey; repeat case_match; exact Hi.
Qed.

Lemma receive_all_seen maxSkip pub ds : forall s, DHr s = Some pub -> seen (receive_all maxSkip pub ds s).1 ⊆ seen s.
Proof.
  induction ds as [|d ds IH]; intros s Hd; [set_solver|]. cbn [receive_all]. unfold receive.
  pose proof (decrypt_current_seen (d_now d) maxSkip (d_private d) pub (d_counter d) (d_previous d) s Hd) as Hs.
  pose proof (decrypt_current_frame (d_now d) maxSkip (d_private d) pub (d_counter d) (d_previous d) s Hd) as (_ & Hd' & _).
  destruct (decryptMessageKey _ _ _ _ _ _ _) as [s' [k|e]]; cbn [fst] in *.
  - rewrite Hd in Hd'. specialize (IH s' Hd'). destruct (receive_all _ _ _ _) as [s2 rs]. cbn in *. set_solver.
  - specialize (IH s Hd). by destruct (receive_all _ _ _ _) as [s2 rs].
Qed.

Definition turn_inv (ck : bytes) (U : gset bytes) (Y X : RatchetState) : Prop :=
  in_sync ck Y X /\ CKs Y = Some ck /\ Ns Y = 0 /\ chains_ok (receiverChains Y) /\ chains_ok (receiverChains X) /\
  0 <= Nr Y /\ 0 <= Nr X /\ seen X ⊆ U /\ seen Y ⊆ U /\
  exists ky, DHs Y = Some ky /\ publicKey ky ∈ U /\ publicKey ky ∉ seen X.

Lemma in_sync_ck_length ck Y X : in_sync ck Y X -> length ck = 32%nat.
Proof.
  intros (ky & kx & _ & _ & _ & _ & _ & H).
  pose proof (kdfRootKey_length (RK X) (x25519 (privateKey kx) (publicKey ky))) as [_ Hl]. by rewrite H in Hl.
Qed.

Lemma send_all_frame n : forall s s' r, send_all n s = (s', r) -> 
  DHs s' = DHs s /\ DHr s' = DHr s /\ RK s' = RK s /\ receiverChains s' = receiverChains s /\ Nr s' = Nr s /\
  processedChains s' = processedChains s.
Proof.
  induction n as [|n IH]; intros s s' r; cbn [send_all]; [by intros [= <- <-]|].
  unfold M_bind at 1, deriveSendingKey. case_if; [by intros [= <- <-]|].
  destruct (base64ToBytes (CKs s)); [|by intros [= <- <-]]. case_if; [by intros [= <- <-]|].
  destruct (kdfChainKey _). unfold M_bind. destruct (send_all n _) as [s1 [ks|e]] eqn:E; cbn [M_ret]; intros [= <- <-];
    apply IH in E; done.
Qed.

Lemma seen_grows (U V : gset bytes) X1 X pub X' : seen X' ⊆ seen X1 -> seen X1 ⊆ {[pub]} ∪ seen X -> seen X ⊆ U -> pub ∈ U ->
  seen X' ⊆ V ∪ U.
Proof. set_solver. Qed.

(** One round. *)
Lemma round_agrees ck U Y X maxSkip r : turn_inv ck U Y X -> 2000 <= maxSkip -> round_ok maxSkip r ->
  round_public r ∉ U ->
  exists Y' keys ky X', send_all (r_count r) Y = (Y', Ok keys) /\ DHs Y' = Some ky /\
    (exists got, receive_all maxSkip (publicKey ky) (r_deliveries r) X = (X', got) /\ agree r (keys, got)) /\
    exists ck', turn_inv ck' ({[round_public r]} ∪ U) X' Y'.
Proof.
  intros (Hsync & Hcks & Hns & HokY & HokX & HnY & HnX & HsX & HsY & ky & HY & HkU & Hkseen) Hms
    (Hw & Hcnt & Hmax & Hprev & Hp) Hfresh.
  pose proof (in_sync_ck_length _ _ _ Hsync) as Hck.
  destruct (send_all_spec ck (r_count r) 0 Y Hck Hcks Hns Hmax) as [Y' HY'].
  destruct (send_all_frame _ _ _ _ HY') as (F1 & F2 & F3 & F4 & F5 & F6).
  set (keys := map _ (seq 0 (r_count r))) in *.
  assert (Hlen : length keys = r_count r) by (unfold keys; by rewrite length_map, length_seq).
  assert (Hkeys : forall c, 0 <= c < len keys -> nthZ [] keys c = message_key ck c).
  { intros c Hc. unfold nthZ, len in *. unfold keys. rewrite nth_indep with (d' := message_key ck (Z.of_nat 0)) by (rewrite Hlen in *; fold keys; lia).
    rewrite map_nth with (f := fun i => message_key ck (Z.of_nat i)), seq_nth by lia. f_equal. lia. }
  destruct (first_delivery ck Y X ky (d_now (r_first r)) maxSkip (d_private (r_first r)) (d_counter (r_first r))
    (d_previous (r_first r)) Hsync HY HokX HnX Hprev Hp Hkseen)
    as (ck' & X1 & Hr1 & Hrun & Hinv & Hall & Hn1 & Hk1 & Hlck' & Hns1 & _ & Hsync1 & Hs1 & Hseen1).
  set (pub := publicKey ky) in *.
  assert (Hlive : (receive_all maxSkip pub (r_deliveries r) X1).2 = expected keys ∅ (r_deliveries r)).
  { eapply receive_all_live; eauto; unfold len; rewrite Hlen; done. }
  assert (Heq : receive_all maxSkip pub (r_deliveries r) X = receive_all maxSkip pub (r_deliveries r) X1).
  { cbn [r_deliveries receive_all in_window] in *. destruct Hw as (H0 & Hc & _).
    apply Forall_cons in Hcnt as [Hc0 _].
    destruct (deliver_live ck pub ∅ (d_now (r_first r)) maxSkip (d_private (r_first r)) (d_counter (r_first r)) (d_previous (r_first r)) X1 Hinv Hall)
      as (X2 & H2 & _); [set_solver|lia..|]. unfold receive. by rewrite Hrun, H2. }
  exists Y', keys, ky, (receive_all maxSkip pub (r_deliveries r) X1).1. split; [done|]. split; [by rewrite F1|].
  split; [eexists; split; [fold pub; rewrite Heq; apply surjective_pairing|split; done]|].
  exists ck'. pose proof (receive_all_frame maxSkip pub (r_deliveries r) X1 Hr1) as HF.
  pose proof (receive_all_inv ck pub maxSkip (r_deliveries r) ∅ X1 Hinv) as [R' Hinv'].
  pose proof (receive_all_seen maxSkip pub (r_deliveries r) X1 Hr1) as Hsn.
  set (X' := (receive_all maxSkip pub (r_deliveries r) X1).1) in *.
  pose proof HF as (G1 & G2 & G3 & G4 & G5 & _).
  assert (HseenY : seen Y' = seen Y) by (unfold seen; by rewrite F2, F4, F6).
  split.
  { eapply frame_in_sync_l; [exact HF|]. destruct Hsync1 as (k1 & k2 & Hs). exists k1, k2. by rewrite F1, F3. }
  rewrite G4, G5. do 2 (split; [done|]). split; [apply Hinv'|]. split; [by rewrite F4|].
  split; [by destruct Hinv' as (_ & _ & _ & _ & _ & _ & ? & _)|]. split; [by rewrite F5|]. split; [rewrite HseenY; by apply union_subseteq_r'|].
  split; [by apply (seen_grows _ _ X1 X pub)|].
  exists (generateECDHKeyPair (d_private (r_first r))). rewrite G1. split; [done|].
  rewrite HseenY. split; [by apply elem_of_union_l, elem_of_singleton|]. intros Hin. by apply Hfresh, HsY.
Qed.

Lemma converse_agrees_aux maxSkip rounds : 2000 <= maxSkip -> forall ck U Y X, turn_inv ck U Y X ->
  Forall (round_ok maxSkip) rounds -> NoDup (map round_public rounds) -> Forall (fun r => round_public r ∉ U) rounds ->
  Forall2 agree rounds (converse maxSkip rounds Y X).
Proof.
  intros Hms. induction rounds as [|r rounds IH]; intros ck U Y X Hinv Hok Hnd Hfr; [constructor|].
  apply Forall_cons in Hok as [Hr Hok]. apply Forall_cons in Hfr as [Hf Hfr]. cbn [map] in Hnd. apply NoDup_cons in Hnd as [Hni Hnd].
  destruct (round_agrees ck U Y X maxSkip r Hinv Hms Hr Hf) as (Y' & keys & ky & X' & HY & Hk & (got & HX & Ha) & ck' & Hinv').
  cbn [converse]. rewrite HY, Hk, HX. constructor; [done|]. eapply IH; [exact Hinv'|done..|].
  apply Forall_forall. intros r' Hr'. rewrite elem_of_union, elem_of_singleton. intros [He|Hu].
  - apply Hni. rewrite <- He. by apply list_elem_of_In, in_map, list_elem_of_In.
  - rewrite Forall_forall in Hfr. by apply (Hfr r').
Qed.
End Conversation.
