(* ===== verification/RatchetStore.v ===== *)
(** * Long runs of a session: bounded storage, expiry, late messages *)
From S2P Require Import Prelude Crypto DoubleRatchet RatchetProofs RatchetTrace RatchetConversation.

(** ** What a session can go through *)
Section Steps.
Context {C : RatchetCrypto}.

Inductive ratchet_step : RatchetState -> RatchetState -> Prop :=
  | step_send s : ratchet_step s (deriveSendingKey s).1
  | step_decrypt now maxSkip p pub c prev s : ratchet_step s (decryptMessageKey now maxSkip p pub c prev s).1
  | step_cleanup now s : ratchet_step s (cleanupExpiredMessageKeys now DEFAULT_RATCHET_CONFIG s).

Definition fresh_session (s : RatchetState) : Prop := receiverChains s = [].

Definition reachable (s : RatchetState) : Prop := exists s0, fresh_session s0 /\ rtc ratchet_step s0 s.

Lemma map_key_expire t l : map senderRatchetKey (map (expire_chain t) l) = map senderRatchetKey l.
Proof. rewrite map_map. by apply map_ext. Qed.

Lemma sublist_list_filter {A} (f : A -> bool) l : List.filter f l `sublist_of` l.
Proof. induction l as [|x l IH]; cbn; [done|]. destruct (f x); by constructor. Qed.

Lemma chains_ok_cleanup now config s : chains_ok (receiverChains s) ->
  chains_ok (receiverChains (cleanupExpiredKeys now config s)).
Proof.
  intros (Hl & Hnd & Hf). unfold cleanupExpiredKeys. cbn [receiverChains set_chains]. rewrite splice_marked.
  set (t := now - _). set (l := map (expire_chain t) (receiverChains s)).
  pose proof (sublist_list_filter (fun c => negb (chain_empty c)) l) as Hsub.
  split; [|split].
  - apply sublist_length in Hsub. unfold len, l in *. rewrite length_map in Hsub. lia.
  - eapply sublist_NoDup; [|by apply sublist_map]. unfold l. by rewrite map_key_expire.
  - apply Forall_forall. intros c Hc. eapply sublist_subseteq in Hc; [|exact Hsub].
    apply list_elem_of_fmap in Hc as (c0 & -> & Hc). rewrite Forall_forall in Hf. destruct (Hf c0 Hc) as [Hk Hn].
    pose proof (sublist_list_filter (fun k => negb (mk_timestamp k <? t)) (messageKeys c0)) as Hs.
    split; cbn [messageKeys expire_chain set_keys]; rewrite splice_marked.
    + eapply sublist_NoDup; [exact Hk|by apply sublist_map].
    + apply sublist_length in Hs. unfold len in *. lia.
Qed.

Lemma moduleStep_chains p pub s : receiverChains (moduleDHRatchetStep p pub s).1 = receiverChains s.
Proof.
  unfold moduleDHRatchetStep, M_bind, M_lift, M_modify, M_get.
  destruct (validateDHPublicKey pub); [|done]. cbn beta iota. cbn [DHs RK].
  destruct (DHs s); [|done]. destruct (computeSharedSecret _ _); [|done]. destruct (kdfRootKey _ _).
  destruct (computeSharedSecret _ _); [|done]. by destruct (kdfRootKey _ _).
Qed.

Lemma performStep_chains p pub s : receiverChains (performDHRatchetStep p pub s).1 = receiverChains s.
Proof.
  unfold performDHRatchetStep, M_bind, M_get. destruct (DHs s); [|done].
  rewrite <- (moduleStep_chains p pub s). destruct (moduleDHRatchetStep p pub s) as [s' [u|e]]; [|done].
  by destruct (falsy _ || _ || _).
Qed.

Lemma skip_old_chains now maxSkip prev s : chains_ok (receiverChains s) ->
  chains_ok (receiverChains (skip_old_chain now maxSkip prev s).1).
Proof.
  intros H. unfold skip_old_chain. destruct (DHr s) as [old|]; [|done]. destruct (CKr s) as [ck|]; [|done].
  case_if; [|done]. case_if; [done|].
  pose proof (skip_loop_chains_ok now old (Z.to_nat (prev - Nr s)) (Nr s) ck (receiverChains s) H) as Ho.
  by destruct (skip_loop _ _ _ _ _ _ _).
Qed.

Lemma storeSkipped_chains now c maxSkip s : chains_ok (receiverChains s) ->
  chains_ok (receiverChains (storeSkippedMessageKeys now c (config_with maxSkip) s).1).
Proof.
  intros H. unfold storeSkippedMessageKeys, storeSkippedKeys. destruct (assertValidatedSession s); [|done].
  case_if; [done|]. case_if; [done|]. destruct (base64ToBytes (CKr s)) as [b|[]]; [|done..].
  rewrite (skip_loop_config now _ DEFAULT_RATCHET_CONFIG) by done.
  pose proof (skip_loop_chains_ok now (default [] (DHr s)) (Z.to_nat (c - Nr s)) (Nr s) b (receiverChains s) H) as Ho.
  by destruct (skip_loop _ _ _ _ _ _ _).
Qed.

Lemma deriveReceiving_chains s : receiverChains (deriveReceivingKey s).1 = receiverChains s.
Proof. unfold deriveReceivingKey. by repeat case_match. Qed.

Lemma deriveSending_chains s : receiverChains (deriveSendingKey s).1 = receiverChains s.
Proof. unfold deriveSendingKey. by repeat case_match. Qed.

Lemma decrypt_chains now maxSkip p pub c prev :
  maintains (fun s => chains_ok (receiverChains s)) (decryptMessageKey now maxSkip p pub c prev).
Proof.
  unfold decryptMessageKey. apply maintains_bind.
  { intros s Hs. pose proof (consume_spec pub c s Hs) as H. destruct (tryGetSkippedKey pub c s) as [s' [[m|]|e]]; [|by destruct H as [-> _]|done].
    destruct H as (k & _ & _ & _ & l' & -> & H & _). done. }
  intros [m|]; [by intros s Hs|]. apply maintains_bind; [by intros s Hs|]. intros s0. case_if; [by intros s Hs|].
  apply maintains_bind.
  { case_if; [|by intros s Hs]. apply maintains_bind; [case_if; [by intros s Hs|]; intros s Hs; by apply skip_old_chains|].
    intros _ s Hs. by rewrite performStep_chains. }
  intros _. apply maintains_bind; [intros s Hs; by apply storeSkipped_chains|].
  intros _ s Hs. by rewrite deriveReceiving_chains.
Qed.

Lemma ratchet_step_chains s s' : ratchet_step s s' -> chains_ok (receiverChains s) -> chains_ok (receiverChains s').
Proof.
  intros [] H.
  - by rewrite deriveSending_chains.
  - by apply decrypt_chains.
  - unfold cleanupExpiredMessageKeys. case_if; [done|]. by apply (chains_ok_cleanup now DEFAULT_RATCHET_CONFIG s0).
Qed.

Lemma reachable_chains_ok s : reachable s -> chains_ok (receiverChains s).
Proof.
  intros (s0 & Hf & Hr). assert (H0 : chains_ok (receiverChains s0)).
  { rewrite Hf. split; [vm_compute; discriminate|]. split; constructor. }
  clear Hf. induction Hr as [|x y z Hs _ IH]; [done|]. apply IH. by eapply ratchet_step_chains.
Qed.

(** *** Expiry *)
Lemma chain_empty_false c : negb (chain_empty c) = true -> messageKeys c <> [] \/ exists b, rc_chainKey c = Some b /\ b <> [].
Proof.
  unfold chain_empty. destruct (messageKeys c); [|by left]. cbn. destruct (rc_chainKey c) as [[|x b]|]; [done| |done].
  intros _. right. by eexists.
Qed.

Lemma cleanup_keys now config s : chains_ok (receiverChains s) -> forall key k,
  k ∈ chain_keys key (receiverChains (cleanupExpiredKeys now config s)) <->
  k ∈ chain_keys key (receiverChains s) /\ now - maxMessageKeyAge config <= mk_timestamp k.
Proof.
  intros Hok key k. rewrite !elem_of_chain_keys by (done || by apply (chains_ok_cleanup now config)).
  unfold cleanupExpiredKeys. cbn [receiverChains set_chains]. rewrite splice_marked. set (t := now - _). split.
  - intros (c & Hc & Hk & Hin). apply list_elem_of_In, filter_In in Hc as [Hc _].
    apply list_elem_of_In, list_elem_of_fmap in Hc as (c0 & -> & Hc). cbn [expire_chain set_keys messageKeys senderRatchetKey] in *. rewrite splice_marked in Hin.
    apply list_elem_of_In, filter_In in Hin as [Hin Ht]. b2p. split; [|lia]. exists c0.
    split; [done|]. split; [done|]. by apply list_elem_of_In.
  - intros [(c & Hc & Hk & Hin) Ht]. exists (expire_chain t c).
    assert (Hin' : k ∈ messageKeys (expire_chain t c)).
    { cbn [expire_chain set_keys messageKeys]. rewrite splice_marked. apply list_elem_of_In, filter_In. split; [by apply list_elem_of_In|].
      apply negb_true_iff, Z.ltb_ge. lia. }
    split; [|done]. apply list_elem_of_In, filter_In. split; [by apply in_map, list_elem_of_In|].
    unfold chain_empty. destruct (messageKeys (expire_chain t c)); [by apply elem_of_nil in Hin'|].
    rewrite len_cons. apply negb_true_iff, andb_false_iff. left. apply Z.eqb_neq. len_pos. lia.
Qed.

(** *** Messages of the previous chain after the ratchet has turned *)
Lemma consume_found pub c seed s : chains_ok (receiverChains s) ->
  c ∈ map mk_index (chain_keys pub (receiverChains s)) ->
  (forall k, k ∈ chain_keys pub (receiverChains s) -> mk_index k = c -> mk_seed k = seed) ->
  (tryGetSkippedKey pub c s).2 = Ok (Some seed).
Proof.
  intros Hok Hin Hs. pose proof (consume_spec pub c s Hok) as H.
  destruct (tryGetSkippedKey pub c s) as [s' [[m|]|e]]; [|by destruct H|done].
  destruct H as (k & Hk & Hc & <- & _). by rewrite (Hs k Hk Hc).
Qed.
End Steps.

Section Late.
Context {C : RatchetCrypto} {CL : RatchetCryptoLaws C}.

Lemma skip_old_stores ck old R now maxSkip prev X : recv_inv ck old R X -> all_stored old R X ->
  prev - Z.of_nat (size R) <= 2000 -> prev <= Nr X + maxSkip ->
  exists X1, skip_old_chain now maxSkip prev X = (X1, Ok tt) /\ chains_ok (receiverChains X1) /\
    (0 < prev -> processedChains X1 !! old = Some (prev, now)) /\
    (forall k, k ∈ chain_keys old (receiverChains X1) -> (mk_index k ∉ R) /\ mk_seed k = message_key ck (mk_index k)) /\
    forall c, 0 <= c < Z.max (Nr X) prev -> c ∉ R -> c ∈ map mk_index (chain_keys old (receiverChains X1)).
Proof.
  intros Hinv Hall Hwin Hms. pose proof (recv_inv_count _ _ _ _ Hinv) as Hcount.
  pose proof Hinv as (Hck & Hok & Hd & Hp & _ & _ & Hn & Hc & HR & Hk). unfold skip_old_chain. rewrite Hd, Hc.
  rewrite falsy_32 by (by apply chain_key_length). replace (falsy (Some old)) with false by (by destruct old).
  cbn [negb]. rewrite !andb_true_r. case_if.
  - replace (Nr X + maxSkip <? prev) with false by lia.
    pose proof (skip_loop_sound now old ck (Z.to_nat (prev - Nr X)) (Nr X) (receiverChains X) _ Hn Hok eq_refl) as Hsound.
    pose proof (skip_loop_complete now old (Z.to_nat (prev - Nr X)) (Nr X) (receiverChains X) (chain_key ck (Z.to_nat (Nr X))) Hok) as Hcomp.
    destruct (skip_loop _ _ _ _ _ _ _) as [cur l]. destruct Hsound as (_ & Hok' & Hks). cbn [snd] in Hcomp.
    eexists. split; [reflexivity|]. cbn [receiverChains processedChains set_processed set_chains]. split; [done|].
    split; [by rewrite lookup_insert_eq|]. split.
    + intros k Hin. destruct (Hks k Hin) as [Ho|[Hi Hm]]; [by destruct (Hk k Ho) as (_ & ? & ?)|]. split; [|done]. intros HkR. apply HR in HkR. lia.
    + intros c Hcr HcR. apply Hcomp; [intros k Hin; apply Hk in Hin; lia|pose proof (chain_keys_bound old _ Hok) as Hb'; cbn in *; lia|].
      destruct (Z_lt_dec c (Nr X)); [left; apply Hall; [lia|done]|right; lia].
  - exists X. split; [done|]. split; [done|]. split; [lia|]. split; [intros k Hin; by destruct (Hk k Hin) as (_ & ? & ?)|].
    intros c Hcr HcR. apply Hall; [lia|done].
Qed.

(** The turn of the ratchet as [decryptMessageKey] runs it. *)
Definition turn (now maxSkip : Z) (p pub : bytes) (prev : Z) : M RatchetState unit :=
  (do_ skip_old_chain now maxSkip prev; performDHRatchetStep p pub)%st.

Lemma late_message_key ck old R now maxSkip p pub prev X X' : recv_inv ck old R X -> all_stored old R X ->
  prev - Z.of_nat (size R) <= 2000 -> prev <= Nr X + maxSkip -> turn now maxSkip p pub prev X = (X', Ok tt) ->
  forall c, 0 <= c < Z.max (Nr X) prev -> c ∉ R -> (tryGetSkippedKey old c X').2 = Ok (Some (message_key ck c)).
Proof.
  intros Hinv Hall Hwin Hms Ht c Hc HcR.
  destruct (skip_old_stores ck old R now maxSkip prev X Hinv Hall Hwin Hms) as (X1 & Hs & Hok & _ & Hk & Hall').
  unfold turn in Ht. rewrite (M_bind_Ok _ _ X X1 tt Hs) in Ht.
  pose proof (performStep_chains p pub X1) as Hch. rewrite Ht in Hch. cbn [fst] in Hch.
  apply consume_found; rewrite Hch; [done|by apply Hall'|]. intros k Hin <-. by apply Hk.
Qed.
End Late.
