(* ===== verification/RatchetToy.v ===== *)
(** * A small instance of the cryptographic operations

    Not cryptography: functions on bytes that have the documented lengths, the
    Diffie-Hellman equation and a non-zero shared secret.  The witnesses of the
    ratchet theorems run on it. *)
From S2P Require Import Prelude Crypto DoubleRatchet.

Definition pad (n : nat) (l : bytes) : bytes := take n (l ++ replicate n 7).

#[export] Instance toy_hash : HashFunctions := {|
  hmac k m := map (fun i => (nth i k 7 * 3 + nth i m 9 * 5 + nth (i + 32) m 1 + nth (i + 64) m 2 + len m) mod 256) (seq 0 32) |}.

Definition toy_crypto : RatchetCrypto := {|
  ratchet_hash := toy_hash;
  x25519_public a := map (fun x => x mod 128) a;
  x25519 a b := zip_with (fun x y => 1 + (x mod 128 + y mod 128) mod 255) a b |}.

Lemma pad_length n l : length (pad n l) = n.
Proof. unfold pad. rewrite length_take, length_app, length_replicate. lia. Qed.

Lemma pad_bytes n l : is_bytes l -> is_bytes (pad n l).
Proof.
  intros H. unfold pad. apply Forall_take, Forall_app. split; [done|]. apply Forall_replicate. unfold is_byte. lia.
Qed.

#[export] Instance toy_hash_laws : HashLaws toy_hash.
Proof.
  split; cbn [hmac toy_hash].
  - intros. by rewrite length_map, length_seq.
  - intros. apply Forall_forall. intros x Hx. apply list_elem_of_fmap in Hx as (y & -> & _).
    unfold is_byte. apply Z.mod_pos_bound. lia.
Qed.

Lemma toy_exchange (a b : bytes) : @x25519 toy_crypto a (@x25519_public toy_crypto b) = @x25519 toy_crypto b (@x25519_public toy_crypto a).
Proof.
  cbn [x25519 x25519_public toy_crypto]. revert b. induction a as [|x a IH]; intros [|y b]; [done..|]. cbn [map zip_with].
  by rewrite IH, !Zmod_mod, (Z.add_comm (x mod 128)).
Qed.

#[export] Instance toy_laws : RatchetCryptoLaws toy_crypto.
Proof.
  split; cbn [ratchet_hash x25519_public x25519 toy_crypto].
  - exact toy_hash_laws.
  - intros. by rewrite length_map.
  - intros. apply toy_exchange.
  - intros a b Ha Hb E. destruct a as [|x a]; [done|]. destruct b as [|y b]; [done|]. cbn [map zip_with replicate] in E.
    apply (f_equal (fun l => nth 0 l 0)) in E. cbn [nth] in E. pose proof (Z.mod_pos_bound (x mod 128 + (y mod 128) mod 128) 255). lia.
Qed.

(** ** Signatures and AES *)
Definition toy_signature (priv data : bytes) : bytes := @hmac toy_hash priv data ++ @hmac toy_hash (0 :: priv) data.

#[export] Instance toy_aes : AesCbc := {|
  aes_cbc_encrypt k iv p := Ok (map (fun x => (x + nthZ 0 k 0) mod 256) p ++ [1]);
  aes_cbc_decrypt k iv c := Ok (map (fun x => (x - nthZ 0 k 0) mod 256) (removelast c)) |}.

#[export] Instance toy_aes_laws : AesCbcLaws toy_aes.
Proof.
  split. intros k iv p _ _ Hp. eexists. split; [reflexivity|]. split; [|split].
  - apply Forall_app. split; [|by repeat constructor].
    apply Forall_forall. intros x (y & -> & _)%list_elem_of_fmap. unfold is_byte. apply Z.mod_pos_bound. lia.
  - unfold len. rewrite length_app, length_map. cbn. lia.
  - cbn. f_equal. rewrite removelast_last. induction Hp as [|x p Hx _ IH]; [done|]. cbn [map]. rewrite IH. f_equal. unfold is_byte in Hx.
    rewrite Zminus_mod_idemp_l. replace (x + nthZ 0 k 0 - nthZ 0 k 0) with x by lia. by apply Z.mod_small.
Qed.

#[export] Instance toy_ed25519 : Ed25519 := {|
  ed25519_public priv := priv;
  ed25519_sign data priv := Ok (toy_signature priv data);
  ed25519_verify sig data pub := Ok (bool_decide (sig = toy_signature pub data)) |}.

#[export] Instance toy_ed25519_laws : Ed25519Laws toy_ed25519.
Proof.
  split; [done|]. intros priv data _. eexists. split; [reflexivity|]. split; [|split].
  - unfold toy_signature. rewrite length_app, !hmac_length. done.
  - unfold toy_signature. apply Forall_app. split; apply hmac_bytes.
  - cbn. by rewrite bool_decide_true.
Qed.
