(* ===== verification/RatchetTheorems.v ===== *)
(** * Properties of the Double Ratchet *)
From S2P Require Import Prelude Crypto DoubleRatchet RatchetProofs RatchetTrace RatchetConversation RatchetStore RatchetToy.

(** ** Conversations *)

(** C1: in a conversation of any number of rounds, starting from two sessions
    in sync, every message key obtained by a receiver is the key its sender
    used for that counter, whatever the order of delivery within a round, and
    each repetition is refused; only the window of 2000 stored keys, the bound
    on counters and the freshness of the ratchet keys are assumed. *)
Theorem conversation_agrees {C : RatchetCrypto} {CL : RatchetCryptoLaws C} maxSkip rounds ck U Y X :
  2000 <= maxSkip -> turn_inv ck U Y X -> Forall (round_ok maxSkip) rounds ->
  NoDup (map round_public rounds) -> Forall (fun r => round_public r ∉ U) rounds ->
  Forall2 agree rounds (converse maxSkip rounds Y X).
Proof. intros. by eapply converse_agrees_aux. Qed.

Definition ex_key (n : Z) : bytes := replicate 32 n.
Definition ex_pair (n : Z) : KeyPair := {| publicKey := ex_key n; privateKey := ex_key n |}.
Definition ex_X : RatchetState := {|
  DHs := Some (ex_pair 1); DHr := None; RK := ex_key 9; CKs := None; Ns := 0; CKr := None; Nr := 0; PN := 0;
  receiverChains := []; processedChains := ∅ |}.
Definition ex_root : bytes * bytes := @kdfRootKey toy_crypto (ex_key 9) (@x25519 toy_crypto (ex_key 1) (ex_key 2)).
Definition ex_Y : RatchetState := {|
  DHs := Some (ex_pair 2); DHr := Some (ex_key 1); RK := ex_root.1; CKs := Some ex_root.2; Ns := 0; CKr := None;
  Nr := 0; PN := 0; receiverChains := []; processedChains := ∅ |}.
Definition ex_delivery (p c prev : Z) : Delivery :=
  {| d_now := 0; d_private := ex_key p; d_counter := c; d_previous := prev |}.
Definition ex_rounds : list Round := [
  {| r_count := 3; r_first := ex_delivery 3 2 0; r_rest := [ex_delivery 3 0 0; ex_delivery 3 2 0; ex_delivery 3 1 0] |};
  {| r_count := 2; r_first := ex_delivery 4 0 0; r_rest := [ex_delivery 4 0 0] |};
  {| r_count := 2; r_first := ex_delivery 5 1 3; r_rest := [] |} ].

Lemma conversation_agrees_witness :
  Forall2 (@agree) ex_rounds (@converse toy_crypto 25000 ex_rounds ex_Y ex_X).
Proof.
  apply (@conversation_agrees toy_crypto toy_laws 25000 ex_rounds ex_root.2 {[ex_key 1; ex_key 2]} ex_Y ex_X).
  - lia.
  - split; [exists (ex_pair 2), (ex_pair 1); repeat split; vm_compute; reflexivity|].
    do 2 (split; [done|]).
    do 2 (split; [split; [vm_compute; discriminate|split; [apply NoDup_nil_2|apply Forall_nil_2]]|]).
    do 2 (split; [vm_compute; discriminate|]).
    split; [apply (bool_decide_eq_true_1 _); vm_compute; reflexivity|].
    split; [apply (bool_decide_eq_true_1 _); vm_compute; reflexivity|].
    exists (ex_pair 2). split; [done|]. split; apply (bool_decide_eq_true_1 _); vm_compute; reflexivity.
  - repeat constructor; vm_compute; try discriminate; try reflexivity.
  - apply (bool_decide_eq_true_1 _); vm_compute; reflexivity.
  - apply (bool_decide_eq_true_1 _); vm_compute; reflexivity.
Defined.

(** C26: whatever counters arrive on a chain, with any skip bound and any
    previous counters, an accepted message yields the key its sender used for
    that counter, the counter had not been received before, and no two accepted
    messages carry the same counter. *)
Theorem accepted_once {C : RatchetCrypto} {CL : RatchetCryptoLaws C} ck pub R maxSkip ds s :
  recv_inv ck pub R s ->
  forall i d k, ds !! i = Some d -> (receive_all maxSkip pub ds s).2 !! i = Some (Ok k) ->
    k = message_key ck (d_counter d) /\ (d_counter d ∉ R) /\
    forall j d' k', (j < i)%nat -> ds !! j = Some d' -> (receive_all maxSkip pub ds s).2 !! j = Some (Ok k') ->
      d_counter d' <> d_counter d.
Proof. intros Hinv. apply (receive_all_safe ck pub maxSkip ds R s Hinv). Qed.

Definition ex_receiver : RatchetState := {|
  DHs := Some (ex_pair 1); DHr := Some (ex_key 2); RK := ex_key 9; CKs := Some (ex_key 8); Ns := 0;
  CKr := Some (ex_key 7); Nr := 0; PN := 0; receiverChains := []; processedChains := ∅ |}.

Lemma ex_receiver_inv : @recv_inv toy_crypto (ex_key 7) (ex_key 2) ∅ ex_receiver.
Proof.
  apply recv_inv_intro; try done.
  - split; [vm_compute; discriminate|]. split; constructor.
  - intros k Hk. by apply elem_of_nil in Hk.
Qed.

Definition ex_deliveries : list Delivery := [ex_delivery 3 2 0; ex_delivery 3 2 0; ex_delivery 3 0 0].

Lemma accepted_once_witness :
  (@receive_all toy_crypto 25000 (ex_key 2) ex_deliveries ex_receiver).2 !! 2%nat = Some (Ok (@message_key toy_crypto (ex_key 7) 0)) /\
  forall j d' k', (j < 2)%nat -> ex_deliveries !! j = Some d' ->
    (@receive_all toy_crypto 25000 (ex_key 2) ex_deliveries ex_receiver).2 !! j = Some (Ok k') -> d_counter d' <> 0.
Proof.
  split; [vm_compute; reflexivity|].
  apply (@accepted_once toy_crypto toy_laws (ex_key 7) (ex_key 2) ∅ 25000 ex_deliveries ex_receiver ex_receiver_inv 2
    (ex_delivery 3 0 0) (@message_key toy_crypto (ex_key 7) 0) eq_refl); vm_compute; reflexivity.
Defined.

(** after the ratchet has turned, every message of the previous chain that
    was not received (up to the count announced by the sender) still yields
    its key. *)
Theorem late_messages {C : RatchetCrypto} {CL : RatchetCryptoLaws C} ck old R now maxSkip p pub prev X X' :
  recv_inv ck old R X -> all_stored old R X ->
  prev - Z.of_nat (size R) <= 2000 -> prev <= Nr X + maxSkip -> turn now maxSkip p pub prev X = (X', Ok tt) ->
  forall c, 0 <= c < Z.max (Nr X) prev -> c ∉ R -> (tryGetSkippedKey old c X').2 = Ok (Some (message_key ck c)).
Proof. intros. by eapply late_message_key. Qed.

Definition ex_turned : RatchetState := (@turn toy_crypto 0 25000 (ex_key 3) (ex_key 4) 2 ex_receiver).1.

Lemma late_messages_witness :
  (@tryGetSkippedKey (ex_key 2) 1 ex_turned).2 = Ok (Some (@message_key toy_crypto (ex_key 7) 1)).
Proof.
  apply (@late_messages toy_crypto toy_laws (ex_key 7) (ex_key 2) ∅ 0 25000 (ex_key 3) (ex_key 4) 2 ex_receiver ex_turned ex_receiver_inv).
  - intros i Hi. exfalso. cbn in Hi. lia.
  - vm_compute. discriminate.
  - vm_compute. discriminate.
  - vm_compute. reflexivity.
  - vm_compute. split; [discriminate|reflexivity].
  - apply not_elem_of_empty.
Defined.

(** C34: a session that started without stored keys never holds more than 5
    receiver chains, nor more than 2000 keys in a chain, nor two chains for one
    ratchet key, nor two keys for one counter. *)
Theorem storage_bounded {C : RatchetCrypto} s : reachable s ->
  len (receiverChains s) <= 5 /\ NoDup (map senderRatchetKey (receiverChains s)) /\
  forall c, c ∈ receiverChains s -> len (messageKeys c) <= 2000 /\ NoDup (map mk_index (messageKeys c)).
Proof.
  intros H. apply reachable_chains_ok in H as (Hl & Hnd & Hf). split; [done|]. split; [done|].
  intros c Hc. rewrite Forall_forall in Hf. by destruct (Hf c Hc).
Qed.

Lemma storage_bounded_witness : reachable (C := toy_crypto) (@decryptMessageKey toy_crypto 0 25000 (ex_key 3) (ex_key 2) 2 0 ex_receiver).1 /\
  len (receiverChains (@decryptMessageKey toy_crypto 0 25000 (ex_key 3) (ex_key 2) 2 0 ex_receiver).1) <= 5.
Proof.
  assert (H : reachable (C := toy_crypto) (@decryptMessageKey toy_crypto 0 25000 (ex_key 3) (ex_key 2) 2 0 ex_receiver).1).
  { exists ex_receiver. split; [done|]. apply rtc_once. apply (@step_decrypt toy_crypto). }
  split; [exact H|]. apply (proj1 (@storage_bounded toy_crypto _ H)).
Defined.

(** Expiry removes exactly the keys older than [maxMessageKeyAge], keeps
    the others in order, and drops a chain only when nothing is left of it. *)
Theorem expiry_exact now config s : chains_ok (receiverChains s) ->
  let s' := cleanupExpiredKeys now config s in
  (forall key k, k ∈ chain_keys key (receiverChains s') <->
     k ∈ chain_keys key (receiverChains s) /\ now - maxMessageKeyAge config <= mk_timestamp k) /\
  (forall key v, processedChains s' !! key = Some v <->
     processedChains s !! key = Some v /\ now - maxMessageKeyAge config <= v.2) /\
  (forall c, c ∈ receiverChains s' -> messageKeys c <> [] \/ exists b, rc_chainKey c = Some b /\ b <> []) /\
  chains_ok (receiverChains s').
Proof.
  intros Hok. cbn zeta. split; [|split; [|split]].
  - apply cleanup_keys; [done].
  - intros key v. unfold cleanupExpiredKeys. cbn [processedChains set_chains set_processed].
    rewrite map_lookup_filter_Some. cbn. rewrite Z.ltb_ge. done.
  - intros c Hc. unfold cleanupExpiredKeys in Hc. cbn [receiverChains set_chains] in Hc. rewrite splice_marked in Hc.
    apply list_elem_of_In, filter_In in Hc as [_ Hc]. by apply chain_empty_false.
  - by apply chains_ok_cleanup.
Qed.

Lemma expiry_exact_witness :
  chains_ok (receiverChains ex_receiver) /\ chains_ok (receiverChains (cleanupExpiredKeys 0 DEFAULT_RATCHET_CONFIG ex_receiver)).
Proof.
  assert (H : chains_ok (receiverChains ex_receiver)) by (split; [vm_compute; discriminate|split; constructor]).
  split; [exact H|]. apply (expiry_exact 0 DEFAULT_RATCHET_CONFIG ex_receiver H).
Defined.
