(* ===== verification/SenderKeyTheorems.v ===== *)
(** * Properties of sender keys *)
From stdpp Require Import sets.
From S2P Require Import Prelude JsMap Utf8 Base64 ProtoWire SenderKeyMessage SenderKeyStore Crypto SenderKeys SenderKeyProofs SenderKeySystem DoubleRatchet RatchetToy.

(** ** Deliveries *)
Section Receive.
Context {C : GroupCrypto} (cfg : SenderKeysDefaults) (m : Member).

(** The results of decrypting the messages [ws] at the positions [ds]. *)
Fixpoint group_receive (ws : list bytes) (ds : list Z) (s : SenderKeyStore) : list (result jsstring) :=
  match ds with
  | [] => []
  | i :: ds => let r := decryptGroupMessage cfg m (nthZ [] ws i) s in r.2 :: group_receive ws ds r.1
  end.

(** Each message once, an error for every repetition; [R] have been received. *)
Fixpoint group_expected (ps : list bytes) (R : gset Z) (ds : list Z) : list (result jsstring) :=
  match ds with
  | [] => []
  | i :: ds => (if bool_decide (i ∈ R) then Throw duplicate_group_message else encodeLosslessPlaintext (nthZ [] ps i))
                 :: group_expected ps ({[i]} ∪ R) ds
  end.

(** No message is more than [maxSkippedKeys] ahead of the number received. *)
Fixpoint group_window (n : Z) (R : gset Z) (ds : list Z) : Prop :=
  match ds with
  | [] => True
  | i :: ds => i < n /\ in_reach cfg R i /\ group_window n ({[i]} ∪ R) ds
  end.
End Receive.

Section Proofs.
Context {C : GroupCrypto} {CL : GroupCryptoLaws C} (cfg : SenderKeysDefaults) (m : Member).

Lemma receive_expected K ps ws : key_ok K -> maxSkippedKeys cfg <= maxChainAdvance cfg -> length ws = length ps ->
  (forall j p, ps !! j = Some p -> exists w, ws !! j = Some w /\ group_wire cfg K (Z.of_nat j) p w) ->
  forall ds R s, receiving cfg m K R s -> group_window cfg (len ps) R ds -> group_receive cfg m ws ds s = group_expected ps R ds.
Proof.
  intros HK Hcfg Hl Hw. induction ds as [|i ds IH]; intros R s Hs; [done|]. cbn [group_window group_receive group_expected]. intros (Hi & Hr & Hds).
  pose proof Hr as [Hi0 _]. destruct (lookup_lt_is_Some_2 ps (Z.to_nat i)) as [p Hp]; [unfold len in Hi; lia|].
  destruct (Hw _ p Hp) as (w & Hwj & Hwire). rewrite Z2Nat.id in Hwire by lia.
  replace (nthZ [] ws i) with w by (unfold nthZ; by rewrite (nth_lookup_Some _ _ _ _ Hwj)).
  replace (nthZ [] ps i) with p by (unfold nthZ; by rewrite (nth_lookup_Some _ _ _ _ Hp)).
  pose proof (deliver_ok cfg m K R s i p w HK Hs Hwire Hr Hcfg) as D. case_bool_decide as HiR.
  - rewrite D. cbn [fst snd]. f_equal. apply IH; [|done]. by replace ({[i]} ∪ R) with R by set_solver.
  - destruct D as (s' & t & -> & -> & Hs'). cbn [fst snd]. f_equal. by apply IH.
Qed.

Lemma install_receiving r gen t0 now s : getSenderKey m s = None -> skipped_of m (skippedSenderKeys s) = [] -> NoDup (skippedSenderKeys s).*1 ->
  exists s', processSenderKeyDistribution m (distribution_of (new_state r gen t0)) now s = (s', Ok tt) /\ receiving cfg m (key_of r) ∅ s'.
Proof.
  intros Hg Hsk Hnd. unfold processSenderKeyDistribution. change (assertSenderKeyVersion (d_senderKeyVersion (distribution_of (new_state r gen t0)))) with (Ok tt : result unit).
  rewrite run_lift, run_gets, Hg, run_gets. eexists. split; [reflexivity|]. unfold persistSenderKeyRecord.
  set (st := received_state _ now). destruct (store_record_spec m st [] None false s) as (E1 & E2 & E3). cbv zeta in *.
  set (s' := storeSenderKeyRecord _ _ _ _ _) in *. cbn [commit_skipped] in E3.
  assert (Hno : forall i, getSkippedSenderKey m (gk_id (key_of r)) i s' = None).
  { intros i. unfold getSkippedSenderKey. rewrite E3. apply Map_get_None. intros Hin.
    assert (X : (m, gk_id (key_of r), i) ∈ skipped_of m (skippedSenderKeys s)) by (by apply list_elem_of_filter).
    rewrite Hsk in X. by apply not_elem_of_nil in X. }
  split.
  - exists st, []. split; [done|]. split; [done|]. split; [by repeat split|]. split; [intros i Hi; by apply not_elem_of_empty in Hi|].
    intros i. rewrite Hno. split; [by intros []|]. cbn [st chainIndex received_state]. intros [? _]. cbn in *. lia.
  - intros i k. by rewrite Hno.
  - rewrite E3, Hsk. intros id Hid. by apply not_elem_of_nil in Hid.
  - by rewrite E3.
Qed.

(** C15: exactly-once delivery of group messages.  A device creates a sender
    key, distributes it and encrypts any number of messages; another device
    that has nothing of it installs the distribution and is given the messages
    in any order and with repetitions, none more than [maxSkippedKeys] ahead of
    the number received.  It obtains the plaintext of every message when the
    message first arrives, and a duplicate error for every repetition. *)
Theorem group_delivery r t0 now now' S0 R0 ps ds :
  material_ok r -> 0 < t0 -> js_above (now - t0) (maxSenderKeyAge cfg) = false ->
  Forall (fun p => is_bytes p /\ len p < 2 ^ 31) ps -> len ps <= 0xfffffffe ->
  getSenderKey m R0 = None -> skipped_of m (skippedSenderKeys R0) = [] -> NoDup (skippedSenderKeys R0).*1 ->
  maxSkippedKeys cfg <= maxChainAdvance cfg -> group_window cfg (len ps) ∅ ds ->
  exists S1 kid d S2 ws R1, createSenderKey m r t0 S0 = (S1, Ok (kid, d)) /\ encrypt_all cfg m now ps S1 = (S2, Ok ws) /\
    processSenderKeyDistribution m d now' R0 = (R1, Ok tt) /\ group_receive cfg m ws ds R1 = group_expected ps ∅ ds.
Proof.
  intros Hr Ht0 Hage Hps Hlen Hg Hsk Hnd Hcfg Hds.
  set (S1 := persistSenderKeyRecord m (new_state r 1 t0) [] true S0).
  assert (Hown : own_state (key_of r) (new_state r 1 t0)) by (split; [apply new_on_chain|split; [done|apply Hr]]).
  assert (Hget : getSenderKey m S1 = Some (new_state r 1 t0)) by apply (store_record_spec m (new_state r 1 t0) [] None true S0).
  destruct (encrypt_all_ok cfg m r now ps Hr (new_state r 1 t0) S1 Hown Hget Hps) as (S2 & ws & Ee & Hl & Hws).
  { unfold ownSenderKeyExpiry. cbn [new_state signatureKey createdAt]. destruct (km_private r) eqn:E; [done|].
    replace (t0 <=? 0) with false by lia. cbv zeta. by rewrite Hage. }
  { cbn. lia. }
  destruct (install_receiving r 1 t0 now' R0 Hg Hsk Hnd) as (R1 & Ei & Hrec).
  exists S1, (senderKeyId (new_state r 1 t0)), (distribution_of (new_state r 1 t0)), S2, ws, R1. split; [done|]. split; [done|]. split; [done|].
  apply (receive_expected (key_of r)); [by apply uuid_ok|done|done| |done|done]. intros j p Hj. apply Hws in Hj as (w & ? & ?). by exists w.
Qed.

(** C16: agreement over rotations.  In every run in which a device creates and
    rotates sender keys, distributes them at any time and encrypts, and another
    device is given the distributions and messages in any order, any number of
    times or never: whatever plaintext that device obtains for the bytes of a
    message is the plaintext that was encrypted. *)
Theorem group_agreement g w p s' t : group_run cfg m g -> (w, p) ∈ g_wires g ->
  decryptGroupMessage cfg m w (g_receiver g) = (s', Ok t) -> encodeLosslessPlaintext p = Ok t.
Proof.
  intros Hrun Hin. destruct (run_group_ok cfg m g Hrun) as [H1 H2 _ _ H5 H6]. rewrite Forall_forall in H2. rewrite Forall_forall in H5.
  destruct (H5 _ Hin) as (K & i & HK & Hw). apply (decrypt_agrees cfg m (g_keys g) K i); auto.
Qed.
End Proofs.

(** ** A small instance *)
#[export] Instance toy_group_crypto : GroupCrypto := {|
  group_hash := toy_hash; group_aes := toy_aes; group_ed25519 := toy_ed25519 |}.

#[export] Instance toy_group_laws : GroupCryptoLaws toy_group_crypto.
Proof. split; apply _. Qed.

Definition toy_member : Member := ([103], [117], 1).
Definition toy_material (n : Z) : KeyMaterial := {| km_uuid := replicate 16 n; km_chainKey := replicate 32 n; km_private := replicate 32 (n + 1) |}.
Definition toy_plaintexts : list bytes := [[104; 105]; [255; 0]; [104; 111]].

Lemma toy_material_ok n : 0 <= n < 256 -> material_ok (toy_material n).
Proof. intros Hn. split; [apply length_replicate|]. split; [by apply Forall_replicate|apply length_replicate]. Qed.


Lemma group_delivery_witness : (exists S1 kid d S2 ws R1, createSenderKey toy_member (toy_material 3) 1000 empty_store = (S1, Ok (kid, d)) /\
    encrypt_all SENDER_KEYS_DEFAULTS toy_member 2000 toy_plaintexts S1 = (S2, Ok ws) /\
    processSenderKeyDistribution toy_member d 3000 empty_store = (R1, Ok tt) /\
    group_receive SENDER_KEYS_DEFAULTS toy_member ws [2; 0; 2; 1; 0] R1 = group_expected toy_plaintexts ∅ [2; 0; 2; 1; 0]) /\
  group_expected toy_plaintexts ∅ [2; 0; 2; 1; 0] =
    [Ok [104; 111]; Ok [104; 105]; Throw duplicate_group_message; Ok (bytes_of_string "/wA="); Throw duplicate_group_message].
Proof.
  split; [|vm_compute; reflexivity].
  apply (group_delivery SENDER_KEYS_DEFAULTS toy_member (toy_material 3) 1000 2000 3000 empty_store empty_store toy_plaintexts [2; 0; 2; 1; 0]).
  - by apply toy_material_ok.
  - done.
  - done.
  - repeat constructor; unfold is_byte; lia.
  - vm_compute. discriminate.
  - done.
  - done.
  - constructor.
  - vm_compute. discriminate.
  - cbn [group_window]. unfold in_reach, len. repeat split; vm_compute; discriminate || reflexivity.
Defined.

(** A run with a rotation: message 0 of each key, the old one delivered last. *)
Definition toy_sender1 := createSenderKey toy_member (toy_material 3) 1000 empty_store.
Definition toy_distribution {A} (r : result (A * SenderKeyDistributionMessage)) : SenderKeyDistributionMessage :=
  match r with Ok x => x.2 | Throw _ => {| d_senderKeyVersion := ""; d_senderKeyId := []; d_chainId := 0; d_generation := 0; d_chainIndex := None; d_chainKey := []; d_publicSignatureKey := [] |} end.
Definition toy_bytes (r : result bytes) : bytes := match r with Ok x => x | Throw _ => [] end.
Definition text_of (r : result jsstring) : jsstring := match r with Ok t => t | Throw _ => [] end.
Definition toy_enc (p : bytes) (s : SenderKeyStore) := encryptGroupMessage SENDER_KEYS_DEFAULTS 2000 toy_member p s.
Definition toy_wire1 := toy_enc [104; 105] toy_sender1.1.
Definition toy_sender2 := rotateSenderKey toy_member (toy_material 4) 1000 toy_wire1.1.
Definition toy_wire2 := toy_enc [104; 111] toy_sender2.1.
Definition toy_receiver1 := processSenderKeyDistribution toy_member (toy_distribution toy_sender1.2) 1 empty_store.
Definition toy_receiver2 := processSenderKeyDistribution toy_member (toy_distribution toy_sender2.2) 2 toy_receiver1.1.
Definition toy_group : Group := {|
  g_sender := toy_wire2.1; g_receiver := toy_receiver2.1; g_keys := [key_of (toy_material 3); key_of (toy_material 4)];
  g_distributions := [toy_distribution toy_sender1.2; toy_distribution toy_sender2.2];
  g_wires := [(toy_bytes toy_wire1.2, [104; 105]); (toy_bytes toy_wire2.2, [104; 111])] |}.

Lemma toy_group_run : group_run SENDER_KEYS_DEFAULTS toy_member toy_group.
Proof.
  unfold group_run.
  eapply rtc_l; [eapply (group_create _ _ (toy_material 3) 1000); [split; [apply toy_material_ok; lia|apply not_elem_of_nil]|vm_compute; reflexivity]|].
  eapply rtc_l; [eapply (group_encrypt _ _ 2000 [104; 105]); [repeat constructor; unfold is_byte; lia|vm_compute; reflexivity]|].
  eapply rtc_l; [eapply (group_rotate _ _ (toy_material 4) 1000); [split; [apply toy_material_ok; lia|]|vm_compute; reflexivity]|].
  { apply not_elem_of_cons. split; [|apply not_elem_of_nil]. vm_compute. congruence. }
  eapply rtc_l; [eapply (group_encrypt _ _ 2000 [104; 111]); [repeat constructor; unfold is_byte; lia|vm_compute; reflexivity]|].
  eapply rtc_l; [eapply (group_install _ _ (toy_distribution toy_sender1.2) 1); vm_compute; left|].
  eapply rtc_l; [eapply (group_install _ _ (toy_distribution toy_sender2.2) 2); vm_compute; right; left|].
  match goal with |- rtc _ ?a ?b => replace a with b by (vm_compute; reflexivity) end. reflexivity.
Qed.

Lemma group_agreement_witness :
  encodeLosslessPlaintext [104; 105] = Ok (text_of (decryptGroupMessage SENDER_KEYS_DEFAULTS toy_member (toy_bytes toy_wire1.2) (g_receiver toy_group)).2) /\
  encodeLosslessPlaintext [104; 111] = Ok (text_of (decryptGroupMessage SENDER_KEYS_DEFAULTS toy_member (toy_bytes toy_wire2.2) (g_receiver toy_group)).2).
Proof.
  assert (E : forall w p, is_ok (decryptGroupMessage SENDER_KEYS_DEFAULTS toy_member w (g_receiver toy_group)).2 = true -> (w, p) ∈ g_wires toy_group ->
    encodeLosslessPlaintext p = Ok (text_of (decryptGroupMessage SENDER_KEYS_DEFAULTS toy_member w (g_receiver toy_group)).2)).
  { intros w p Hok Hin. destruct (decryptGroupMessage SENDER_KEYS_DEFAULTS toy_member w (g_receiver toy_group)) as [s' [t|]] eqn:Ed; [|done].
    apply (group_agreement SENDER_KEYS_DEFAULTS toy_member toy_group w p s' t toy_group_run Hin Ed). }
  split; apply E; try (vm_compute; reflexivity); [left|right; left].
Defined.
