(* ===== verification/BraidState.v ===== *)
(** * ML-KEM Braid: data ([ml-kem-braid/types.ts])

    The agent state, its messages and results, with the record updates that
    stand for the assignments of the code.  An absent optional property is
    [None]. *)
From S2P Require Import Prelude GaloisField Lagrange ErasureCodec.

Inductive MLKEMBraidState :=
  | KeysUnsampled | KeysSampled | HeaderSent | Ct1Received | EkSentCt1Received
  | NoHeaderReceived | HeaderReceived | Ct1Sampled | EkReceivedCt1Sampled | Ct1Acknowledged | Ct2Sampled.

#[export] Instance MLKEMBraidState_eq_dec : EqDecision MLKEMBraidState.
Proof. solve_decision. Defined.

Definition ALICE_STATES : list MLKEMBraidState :=
  [KeysUnsampled; KeysSampled; HeaderSent; Ct1Received; EkSentCt1Received].
Definition BOB_STATES : list MLKEMBraidState :=
  [NoHeaderReceived; HeaderReceived; Ct1Sampled; EkReceivedCt1Sampled; Ct1Acknowledged; Ct2Sampled].

Inductive MessageType := NoneMsg | Hdr | Ek | EkCt1Ack | Ct1Ack | Ct1 | Ct2.

#[export] Instance MessageType_eq_dec : EqDecision MessageType.
Proof. solve_decision. Defined.

(** [versionCapability] is not used by the state machine. *)
Record MLKEMBraidMessage := {
  m_epoch : Z; m_type : MessageType; m_chunkIndex : option Z; m_data : option bytes }.

Record AuthenticatorState := { root_key : bytes; mac_key : bytes }.

Record BraidDecoder := {
  bd_receivedChunks : Z; bd_requiredChunks : Z; bd_messageSize : Z; bd_chunks : list (Z * bytes) }.

(** [encoder] is the cached [PolyEncoder]; it is absent after a session has
    been restored from storage. *)
Record BraidEncoder := {
  be_data : bytes; be_currentChunk : Z; be_totalChunks : Z; be_isComplete : bool;
  be_encoder : option PolyEncoder }.

Record OutputKey := { ok_epoch : Z; epoch_secret : bytes }.
Record SendResult := { sr_message : MLKEMBraidMessage; sending_epoch : Z; sr_output_key : option OutputKey }.
Record ReceiveResult := { receiving_epoch : Z; rr_output_key : option OutputKey }.

Definition EK_SEED_SIZE : Z := 32.
Definition EK_VECTOR_SIZE : Z := 1152.
Definition DK_SIZE : Z := 2400.
Definition CT1_DATA_SIZE : Z := 960.
Definition CT2_DATA_SIZE : Z := 128.
Definition MAC_SIZE : Z := 32.

(** [state-machine.ts] *)
Definition HEADER_SIZE : Z := EK_SEED_SIZE + 32 + MAC_SIZE.
Definition EK_SIZE : Z := EK_VECTOR_SIZE.
Definition CT1_SIZE : Z := CT1_DATA_SIZE.
Definition CT2_SIZE : Z := CT2_DATA_SIZE + MAC_SIZE.

Record MLKEMBraidAgentState := {
  state : MLKEMBraidState;
  epoch : Z;
  auth : AuthenticatorState;
  dk : option bytes;
  ek_seed : option bytes;
  ek_vector : option bytes;
  hek : option bytes;
  encaps_secret : option bytes;
  ct1 : option bytes;
  ct2 : option bytes;
  ct1_for_mac : option bytes;
  ct1_decoded : option bytes;
  headerEncoder : option BraidEncoder;
  ekEncoder : option BraidEncoder;
  ct1Encoder : option BraidEncoder;
  ct2Encoder : option BraidEncoder;
  headerDecoder : option BraidDecoder;
  ekDecoder : option BraidDecoder;
  ct1Decoder : option BraidDecoder;
  ct2Decoder : option BraidDecoder }.

Definition set_state (v : MLKEMBraidState) (s : MLKEMBraidAgentState) : MLKEMBraidAgentState :=
  {| state := v; epoch := epoch s; auth := auth s; dk := dk s; ek_seed := ek_seed s; ek_vector := ek_vector
     s; hek := hek s; encaps_secret := encaps_secret s; ct1 := ct1 s; ct2 := ct2 s; ct1_for_mac :=
     ct1_for_mac s; ct1_decoded := ct1_decoded s; headerEncoder := headerEncoder s; ekEncoder := ekEncoder
     s; ct1Encoder := ct1Encoder s; ct2Encoder := ct2Encoder s; headerDecoder := headerDecoder s; ekDecoder
     := ekDecoder s; ct1Decoder := ct1Decoder s; ct2Decoder := ct2Decoder s |}.
Definition set_epoch (v : Z) (s : MLKEMBraidAgentState) : MLKEMBraidAgentState :=
  {| state := state s; epoch := v; auth := auth s; dk := dk s; ek_seed := ek_seed s; ek_vector := ek_vector
     s; hek := hek s; encaps_secret := encaps_secret s; ct1 := ct1 s; ct2 := ct2 s; ct1_for_mac :=
     ct1_for_mac s; ct1_decoded := ct1_decoded s; headerEncoder := headerEncoder s; ekEncoder := ekEncoder
     s; ct1Encoder := ct1Encoder s; ct2Encoder := ct2Encoder s; headerDecoder := headerDecoder s; ekDecoder
     := ekDecoder s; ct1Decoder := ct1Decoder s; ct2Decoder := ct2Decoder s |}.
Definition set_auth (v : AuthenticatorState) (s : MLKEMBraidAgentState) : MLKEMBraidAgentState :=
  {| state := state s; epoch := epoch s; auth := v; dk := dk s; ek_seed := ek_seed s; ek_vector := ek_vector
     s; hek := hek s; encaps_secret := encaps_secret s; ct1 := ct1 s; ct2 := ct2 s; ct1_for_mac :=
     ct1_for_mac s; ct1_decoded := ct1_decoded s; headerEncoder := headerEncoder s; ekEncoder := ekEncoder
     s; ct1Encoder := ct1Encoder s; ct2Encoder := ct2Encoder s; headerDecoder := headerDecoder s; ekDecoder
     := ekDecoder s; ct1Decoder := ct1Decoder s; ct2Decoder := ct2Decoder s |}.
Definition set_dk (v : option bytes) (s : MLKEMBraidAgentState) : MLKEMBraidAgentState :=
  {| state := state s; epoch := epoch s; auth := auth s; dk := v; ek_seed := ek_seed s; ek_vector :=
     ek_vector s; hek := hek s; encaps_secret := encaps_secret s; ct1 := ct1 s; ct2 := ct2 s; ct1_for_mac :=
     ct1_for_mac s; ct1_decoded := ct1_decoded s; headerEncoder := headerEncoder s; ekEncoder := ekEncoder
     s; ct1Encoder := ct1Encoder s; ct2Encoder := ct2Encoder s; headerDecoder := headerDecoder s; ekDecoder
     := ekDecoder s; ct1Decoder := ct1Decoder s; ct2Decoder := ct2Decoder s |}.
Definition set_ek_seed (v : option bytes) (s : MLKEMBraidAgentState) : MLKEMBraidAgentState :=
  {| state := state s; epoch := epoch s; auth := auth s; dk := dk s; ek_seed := v; ek_vector := ek_vector s;
     hek := hek s; encaps_secret := encaps_secret s; ct1 := ct1 s; ct2 := ct2 s; ct1_for_mac := ct1_for_mac
     s; ct1_decoded := ct1_decoded s; headerEncoder := headerEncoder s; ekEncoder := ekEncoder s; ct1Encoder
     := ct1Encoder s; ct2Encoder := ct2Encoder s; headerDecoder := headerDecoder s; ekDecoder := ekDecoder
     s; ct1Decoder := ct1Decoder s; ct2Decoder := ct2Decoder s |}.
Definition set_ek_vector (v : option bytes) (s : MLKEMBraidAgentState) : MLKEMBraidAgentState :=
  {| state := state s; epoch := epoch s; auth := auth s; dk := dk s; ek_seed := ek_seed s; ek_vector := v;
     hek := hek s; encaps_secret := encaps_secret s; ct1 := ct1 s; ct2 := ct2 s; ct1_for_mac := ct1_for_mac
     s; ct1_decoded := ct1_decoded s; headerEncoder := headerEncoder s; ekEncoder := ekEncoder s; ct1Encoder
     := ct1Encoder s; ct2Encoder := ct2Encoder s; headerDecoder := headerDecoder s; ekDecoder := ekDecoder
     s; ct1Decoder := ct1Decoder s; ct2Decoder := ct2Decoder s |}.
Definition set_hek (v : option bytes) (s : MLKEMBraidAgentState) : MLKEMBraidAgentState :=
  {| state := state s; epoch := epoch s; auth := auth s; dk := dk s; ek_seed := ek_seed s; ek_vector :=
     ek_vector s; hek := v; encaps_secret := encaps_secret s; ct1 := ct1 s; ct2 := ct2 s; ct1_for_mac :=
     ct1_for_mac s; ct1_decoded := ct1_decoded s; headerEncoder := headerEncoder s; ekEncoder := ekEncoder
     s; ct1Encoder := ct1Encoder s; ct2Encoder := ct2Encoder s; headerDecoder := headerDecoder s; ekDecoder
     := ekDecoder s; ct1Decoder := ct1Decoder s; ct2Decoder := ct2Decoder s |}.
Definition set_encaps_secret (v : option bytes) (s : MLKEMBraidAgentState) : MLKEMBraidAgentState :=
  {| state := state s; epoch := epoch s; auth := auth s; dk := dk s; ek_seed := ek_seed s; ek_vector :=
     ek_vector s; hek := hek s; encaps_secret := v; ct1 := ct1 s; ct2 := ct2 s; ct1_for_mac := ct1_for_mac
     s; ct1_decoded := ct1_decoded s; headerEncoder := headerEncoder s; ekEncoder := ekEncoder s; ct1Encoder
     := ct1Encoder s; ct2Encoder := ct2Encoder s; headerDecoder := headerDecoder s; ekDecoder := ekDecoder
     s; ct1Decoder := ct1Decoder s; ct2Decoder := ct2Decoder s |}.
Definition set_ct1 (v : option bytes) (s : MLKEMBraidAgentState) : MLKEMBraidAgentState :=
  {| state := state s; epoch := epoch s; auth := auth s; dk := dk s; ek_seed := ek_seed s; ek_vector :=
     ek_vector s; hek := hek s; encaps_secret := encaps_secret s; ct1 := v; ct2 := ct2 s; ct1_for_mac :=
     ct1_for_mac s; ct1_decoded := ct1_decoded s; headerEncoder := headerEncoder s; ekEncoder := ekEncoder
     s; ct1Encoder := ct1Encoder s; ct2Encoder := ct2Encoder s; headerDecoder := headerDecoder s; ekDecoder
     := ekDecoder s; ct1Decoder := ct1Decoder s; ct2Decoder := ct2Decoder s |}.
Definition set_ct2 (v : option bytes) (s : MLKEMBraidAgentState) : MLKEMBraidAgentState :=
  {| state := state s; epoch := epoch s; auth := auth s; dk := dk s; ek_seed := ek_seed s; ek_vector :=
     ek_vector s; hek := hek s; encaps_secret := encaps_secret s; ct1 := ct1 s; ct2 := v; ct1_for_mac :=
     ct1_for_mac s; ct1_decoded := ct1_decoded s; headerEncoder := headerEncoder s; ekEncoder := ekEncoder
     s; ct1Encoder := ct1Encoder s; ct2Encoder := ct2Encoder s; headerDecoder := headerDecoder s; ekDecoder
     := ekDecoder s; ct1Decoder := ct1Decoder s; ct2Decoder := ct2Decoder s |}.
Definition set_ct1_for_mac (v : option bytes) (s : MLKEMBraidAgentState) : MLKEMBraidAgentState :=
  {| state := state s; epoch := epoch s; auth := auth s; dk := dk s; ek_seed := ek_seed s; ek_vector :=
     ek_vector s; hek := hek s; encaps_secret := encaps_secret s; ct1 := ct1 s; ct2 := ct2 s; ct1_for_mac :=
     v; ct1_decoded := ct1_decoded s; headerEncoder := headerEncoder s; ekEncoder := ekEncoder s; ct1Encoder
     := ct1Encoder s; ct2Encoder := ct2Encoder s; headerDecoder := headerDecoder s; ekDecoder := ekDecoder
     s; ct1Decoder := ct1Decoder s; ct2Decoder := ct2Decoder s |}.
Definition set_ct1_decoded (v : option bytes) (s : MLKEMBraidAgentState) : MLKEMBraidAgentState :=
  {| state := state s; epoch := epoch s; auth := auth s; dk := dk s; ek_seed := ek_seed s; ek_vector :=
     ek_vector s; hek := hek s; encaps_secret := encaps_secret s; ct1 := ct1 s; ct2 := ct2 s; ct1_for_mac :=
     ct1_for_mac s; ct1_decoded := v; headerEncoder := headerEncoder s; ekEncoder := ekEncoder s; ct1Encoder
     := ct1Encoder s; ct2Encoder := ct2Encoder s; headerDecoder := headerDecoder s; ekDecoder := ekDecoder
     s; ct1Decoder := ct1Decoder s; ct2Decoder := ct2Decoder s |}.
Definition set_headerEncoder (v : option BraidEncoder) (s : MLKEMBraidAgentState) : MLKEMBraidAgentState :=
  {| state := state s; epoch := epoch s; auth := auth s; dk := dk s; ek_seed := ek_seed s; ek_vector :=
     ek_vector s; hek := hek s; encaps_secret := encaps_secret s; ct1 := ct1 s; ct2 := ct2 s; ct1_for_mac :=
     ct1_for_mac s; ct1_decoded := ct1_decoded s; headerEncoder := v; ekEncoder := ekEncoder s; ct1Encoder
     := ct1Encoder s; ct2Encoder := ct2Encoder s; headerDecoder := headerDecoder s; ekDecoder := ekDecoder
     s; ct1Decoder := ct1Decoder s; ct2Decoder := ct2Decoder s |}.
Definition set_ekEncoder (v : option BraidEncoder) (s : MLKEMBraidAgentState) : MLKEMBraidAgentState :=
  {| state := state s; epoch := epoch s; auth := auth s; dk := dk s; ek_seed := ek_seed s; ek_vector :=
     ek_vector s; hek := hek s; encaps_secret := encaps_secret s; ct1 := ct1 s; ct2 := ct2 s; ct1_for_mac :=
     ct1_for_mac s; ct1_decoded := ct1_decoded s; headerEncoder := headerEncoder s; ekEncoder := v;
     ct1Encoder := ct1Encoder s; ct2Encoder := ct2Encoder s; headerDecoder := headerDecoder s; ekDecoder :=
     ekDecoder s; ct1Decoder := ct1Decoder s; ct2Decoder := ct2Decoder s |}.
Definition set_ct1Encoder (v : option BraidEncoder) (s : MLKEMBraidAgentState) : MLKEMBraidAgentState :=
  {| state := state s; epoch := epoch s; auth := auth s; dk := dk s; ek_seed := ek_seed s; ek_vector :=
     ek_vector s; hek := hek s; encaps_secret := encaps_secret s; ct1 := ct1 s; ct2 := ct2 s; ct1_for_mac :=
     ct1_for_mac s; ct1_decoded := ct1_decoded s; headerEncoder := headerEncoder s; ekEncoder := ekEncoder
     s; ct1Encoder := v; ct2Encoder := ct2Encoder s; headerDecoder := headerDecoder s; ekDecoder :=
     ekDecoder s; ct1Decoder := ct1Decoder s; ct2Decoder := ct2Decoder s |}.
Definition set_ct2Encoder (v : option BraidEncoder) (s : MLKEMBraidAgentState) : MLKEMBraidAgentState :=
  {| state := state s; epoch := epoch s; auth := auth s; dk := dk s; ek_seed := ek_seed s; ek_vector :=
     ek_vector s; hek := hek s; encaps_secret := encaps_secret s; ct1 := ct1 s; ct2 := ct2 s; ct1_for_mac :=
     ct1_for_mac s; ct1_decoded := ct1_decoded s; headerEncoder := headerEncoder s; ekEncoder := ekEncoder
     s; ct1Encoder := ct1Encoder s; ct2Encoder := v; headerDecoder := headerDecoder s; ekDecoder :=
     ekDecoder s; ct1Decoder := ct1Decoder s; ct2Decoder := ct2Decoder s |}.
Definition set_headerDecoder (v : option BraidDecoder) (s : MLKEMBraidAgentState) : MLKEMBraidAgentState :=
  {| state := state s; epoch := epoch s; auth := auth s; dk := dk s; ek_seed := ek_seed s; ek_vector :=
     ek_vector s; hek := hek s; encaps_secret := encaps_secret s; ct1 := ct1 s; ct2 := ct2 s; ct1_for_mac :=
     ct1_for_mac s; ct1_decoded := ct1_decoded s; headerEncoder := headerEncoder s; ekEncoder := ekEncoder
     s; ct1Encoder := ct1Encoder s; ct2Encoder := ct2Encoder s; headerDecoder := v; ekDecoder := ekDecoder
     s; ct1Decoder := ct1Decoder s; ct2Decoder := ct2Decoder s |}.
Definition set_ekDecoder (v : option BraidDecoder) (s : MLKEMBraidAgentState) : MLKEMBraidAgentState :=
  {| state := state s; epoch := epoch s; auth := auth s; dk := dk s; ek_seed := ek_seed s; ek_vector :=
     ek_vector s; hek := hek s; encaps_secret := encaps_secret s; ct1 := ct1 s; ct2 := ct2 s; ct1_for_mac :=
     ct1_for_mac s; ct1_decoded := ct1_decoded s; headerEncoder := headerEncoder s; ekEncoder := ekEncoder
     s; ct1Encoder := ct1Encoder s; ct2Encoder := ct2Encoder s; headerDecoder := headerDecoder s; ekDecoder
     := v; ct1Decoder := ct1Decoder s; ct2Decoder := ct2Decoder s |}.
Definition set_ct1Decoder (v : option BraidDecoder) (s : MLKEMBraidAgentState) : MLKEMBraidAgentState :=
  {| state := state s; epoch := epoch s; auth := auth s; dk := dk s; ek_seed := ek_seed s; ek_vector :=
     ek_vector s; hek := hek s; encaps_secret := encaps_secret s; ct1 := ct1 s; ct2 := ct2 s; ct1_for_mac :=
     ct1_for_mac s; ct1_decoded := ct1_decoded s; headerEncoder := headerEncoder s; ekEncoder := ekEncoder
     s; ct1Encoder := ct1Encoder s; ct2Encoder := ct2Encoder s; headerDecoder := headerDecoder s; ekDecoder
     := ekDecoder s; ct1Decoder := v; ct2Decoder := ct2Decoder s |}.
Definition set_ct2Decoder (v : option BraidDecoder) (s : MLKEMBraidAgentState) : MLKEMBraidAgentState :=
  {| state := state s; epoch := epoch s; auth := auth s; dk := dk s; ek_seed := ek_seed s; ek_vector :=
     ek_vector s; hek := hek s; encaps_secret := encaps_secret s; ct1 := ct1 s; ct2 := ct2 s; ct1_for_mac :=
     ct1_for_mac s; ct1_decoded := ct1_decoded s; headerEncoder := headerEncoder s; ekEncoder := ekEncoder
     s; ct1Encoder := ct1Encoder s; ct2Encoder := ct2Encoder s; headerDecoder := headerDecoder s; ekDecoder
     := ekDecoder s; ct1Decoder := ct1Decoder s; ct2Decoder := v |}.

Definition isInAliceRole (s : MLKEMBraidAgentState) : bool := bool_decide (state s ∈ ALICE_STATES).
Definition isInBobRole (s : MLKEMBraidAgentState) : bool := bool_decide (state s ∈ BOB_STATES).
