(* ===== verification/SpqrWire.v ===== *)
(** * The SPQR wire format ([encoding/proto/pq-ratchet-serialize.ts])

    The encoder computes the size of the message, allocates a buffer and
    writes into it at an offset; the decoder reads at a cursor.  A number or
    bigint that stands for an integer is a [Z]; the test that a number is an
    integer is then vacuous. *)
From S2P Require Import Prelude ErasureCodec BraidState.

Definition VERSION_V1 : Z := 0x01.
Definition DIRECT_CIPHERTEXT : Z := 0x80.
Definition DIRECT_PUBLIC_KEY : Z := 0x81.
Definition DIRECT_BOTH : Z := 0x82.

(** The numbers of the enum [MessageType]. *)
Definition MessageType_number (t : MessageType) : Z :=
  match t with NoneMsg => 0 | Hdr => 1 | Ek => 2 | EkCt1Ack => 3 | Ct1Ack => 4 | Ct1 => 5 | Ct2 => 6 end.

Definition MODE_NONE : Z := MessageType_number NoneMsg.
Definition MLKEM768_CIPHERTEXT_SIZE : Z := 1088.
Definition MLKEM768_PUBLIC_KEY_SIZE : Z := 1184.
Definition BRAID_CHUNK_SIZE : Z := 32.
Definition MAX_UINT32 : Z := 0xffffffff.
Definition MAX_UINT64 : Z := Z.shiftl 1 64 - 1.
Definition MAX_VARINT_U64_BYTES : Z := 10.
Definition MAX_BRAID_MSG_TYPE : Z := MessageType_number Ct2.
Definition BRAID_CT1_ACK_MSG_TYPE : Z := MessageType_number Ct1Ack.

Inductive WireMode := WireNone | WireBraid | WireDirect.

Record SPQRWireMessage := {
  w_version : Z;
  w_epoch : option Z;
  w_chainIndex : option Z;
  w_mode : WireMode;
  w_braidMsgType : option Z;
  w_braidChunkIndex : option Z;
  w_braidChunkData : option bytes;
  w_kyberCiphertext : option bytes;
  w_kyberPublicKey : option bytes }.

(** ** Checked integers *)
Definition assertUint64 (value min : Z) : result Z :=
  if (value <? min) || (value >? MAX_UINT64) then Throw (Error "Invalid SPQR uint64") else Ok value.

Definition bigintToSafeNumber (value : Z) : result Z :=
  if value >? MAX_SAFE_INTEGER
  then Throw (Error "Invalid SPQR value: exceeds JavaScript safe integer range for local state") else Ok value.

Definition assertUint32 (value min max : Z) : result unit :=
  if (value <? min) || (value >? max) then Throw (Error "Invalid SPQR uint32") else Ok tt.

Definition assertBraidMessageType (msgType : Z) : result unit :=
  if (msgType >? MAX_BRAID_MSG_TYPE) && negb (msgType =? MODE_NONE) then Throw (Error "Invalid braidMsgType")
  else assertUint32 msgType 0 MAX_BRAID_MSG_TYPE.

Definition braidMessageTypeRequiresChunk (msgType : Z) : bool :=
  negb (msgType =? MODE_NONE) && negb (msgType =? BRAID_CT1_ACK_MSG_TYPE).

Definition spqrInternalEpochToWireEpoch (epoch : Z) : result Z :=
  _ ← assertUint32 epoch 0 (MAX_UINT32 - 1); Ok (epoch + 1).

Definition spqrWireEpochToBigInt (wireEpoch : Z) : result Z := assertUint64 wireEpoch 1.

Definition spqrWireEpochToInternalEpoch (wireEpoch : Z) : result Z :=
  epoch ← assertUint64 wireEpoch 1; bigintToSafeNumber (epoch - 1).

(** ** The buffer

    Writing [buf[offset++]] beyond the end of a typed array has no effect;
    [buf.set] that does not fit throws. *)
Definition Buf : Type := bytes * Z.

Definition put (b : Z) (B : Buf) : Buf := (<[Z.to_nat B.2 := u8 b]> B.1, B.2 + 1).

Definition set_bytes (data : bytes) (advance : Z) (B : Buf) : result Buf :=
  if B.2 + len data >? len B.1 then Throw (CodedError "RangeError" "offset is out of bounds")
  else Ok (take (Z.to_nat B.2) B.1 ++ data ++ drop (Z.to_nat (B.2 + len data)) B.1, B.2 + advance).

(** ** Varints *)
Fixpoint leb128_loop (fuel : nat) (v : Z) (B : Buf) : Buf :=
  match fuel with
  | O => put v B
  | S fuel => if v >=? 0x80 then leb128_loop fuel (Z.shiftr v 7) (put (Z.lor (Z.land v 0x7f) 0x80) B) else put v B
  end.

(** A uint64 takes at most nine rounds. *)
Definition encodeVarintLEB128 (value : Z) (B : Buf) : result Buf := v ← assertUint64 value 0; Ok (leb128_loop 9 v B).

Fixpoint varintSize_loop (fuel : nat) (v size : Z) : Z :=
  match fuel with
  | O => size
  | S fuel => if v >=? 0x80 then varintSize_loop fuel (Z.shiftr v 7) (size + 1) else size
  end.
Definition varintSize (value : Z) : result Z := v ← assertUint64 value 0; Ok (varintSize_loop 9 v 1).

(** The loop ends after [MAX_VARINT_U64_BYTES] bytes. *)
Fixpoint leb128_read (fuel : nat) (from : bytes) (cursor result_ shift : Z) : result (Z * Z) :=
  match fuel with
  | O => Throw (Error "Varint too long (> 10 bytes for uint64)")
  | S fuel =>
      if cursor <? len from then
        let byte := nthZ 0 from cursor in
        let cursor := cursor + 1 in
        let result_ := Z.lor result_ (Z.shiftl (Z.land byte 0x7f) shift) in
        if Z.land byte 0x80 =? 0 then
          if result_ >? MAX_UINT64 then Throw (Error "Varint too large (> uint64)") else Ok (result_, cursor)
        else leb128_read fuel from cursor result_ (shift + 7)
      else Throw (Error "Unexpected end of varint")
  end.
Definition decodeVarintLEB128Bigint (from : bytes) (cursor : Z) : result (Z * Z) :=
  leb128_read (Z.to_nat MAX_VARINT_U64_BYTES) from cursor 0 0.

Definition decodeVarintLEB128 (from : bytes) (cursor : Z) : result (Z * Z) :=
  '(value, cursor) ← decodeVarintLEB128Bigint from cursor;
  if value >? MAX_UINT32 then Throw (Error "Varint too large for uint32") else Ok (value, cursor).

(** ** Encode *)
Definition present_ {A} (o : option A) : bool := match o with Some _ => true | None => false end.

(** The size of the part after the mode byte, with the checks made there. *)
Definition payload_size (msg : SPQRWireMessage) : result Z :=
  match w_mode msg with
  | WireBraid =>
      let msgType := default MODE_NONE (w_braidMsgType msg) in
      _ ← assertBraidMessageType msgType;
      let hasChunk := present_ (w_braidChunkData msg) in
      if braidMessageTypeRequiresChunk msgType then
        if negb hasChunk then Throw (Error "Missing braid chunk for message type")
        else s ← varintSize (default 0 (w_braidChunkIndex msg)); Ok (s + BRAID_CHUNK_SIZE)
      else if hasChunk then Throw (Error "Unexpected braid chunk for message type") else Ok 0
  | WireDirect =>
      Ok ((if present_ (w_kyberCiphertext msg) then MLKEM768_CIPHERTEXT_SIZE else 0) +
          (if present_ (w_kyberPublicKey msg) then MLKEM768_PUBLIC_KEY_SIZE else 0))
  | WireNone => Ok 0
  end.

Definition write_payload (msg : SPQRWireMessage) (B : Buf) : result Buf :=
  match w_mode msg with
  | WireBraid =>
      let msgType := default MODE_NONE (w_braidMsgType msg) in
      _ ← assertBraidMessageType msgType;
      let B := put msgType B in
      if braidMessageTypeRequiresChunk msgType then
        let braidChunkIndex := default 0 (w_braidChunkIndex msg) in
        _ ← assertBraidChunkIndex braidChunkIndex;
        B ← encodeVarintLEB128 braidChunkIndex B;
        match w_braidChunkData msg with
        | None => Throw (CodedError "TypeError" "undefined")
        | Some data =>
            if negb (len data =? BRAID_CHUNK_SIZE) then Throw (Error "Invalid braid chunk length")
            else set_bytes data BRAID_CHUNK_SIZE B
        end
      else Ok B
  | WireDirect =>
      let B := put (match w_kyberCiphertext msg, w_kyberPublicKey msg with
                    | Some _, Some _ => DIRECT_BOTH | Some _, None => DIRECT_CIPHERTEXT
                    | None, Some _ => DIRECT_PUBLIC_KEY | None, None => MODE_NONE end) B in
      B ← match w_kyberCiphertext msg with Some c => set_bytes c MLKEM768_CIPHERTEXT_SIZE B | None => Ok B end;
      match w_kyberPublicKey msg with Some k => set_bytes k MLKEM768_PUBLIC_KEY_SIZE B | None => Ok B end
  | WireNone => Ok (put MODE_NONE B)
  end.

Definition encodeSPQRWire (msg : SPQRWireMessage) : result bytes :=
  if negb (w_version msg =? 1) then Throw (Error "Unsupported SPQR wire version for encode")
  else match w_epoch msg with
  | None => Throw (Error "SPQR wire epoch is required")
  | Some epoch =>
      let chainIndex := default 0 (w_chainIndex msg) in
      _ ← assertUint64 epoch 1;
      _ ← assertUint32 chainIndex 0 MAX_UINT32;
      s1 ← varintSize epoch;
      s2 ← varintSize chainIndex;
      s3 ← payload_size msg;
      let buf : Buf := (replicate (Z.to_nat (1 + s1 + s2 + 1 + s3)) 0, 0) in
      B ← encodeVarintLEB128 epoch (put VERSION_V1 buf);
      B ← encodeVarintLEB128 chainIndex B;
      B ← write_payload msg B;
      Ok B.1
  end.

(** ** Decode *)
Definition wire_header (epoch chainIndex : Z) (mode : WireMode) : SPQRWireMessage := {|
  w_version := 1; w_epoch := Some epoch; w_chainIndex := Some chainIndex; w_mode := mode; w_braidMsgType := None;
  w_braidChunkIndex := None; w_braidChunkData := None; w_kyberCiphertext := None; w_kyberPublicKey := None |}.
Definition set_direct (ct pk : option bytes) (m : SPQRWireMessage) : SPQRWireMessage := {|
  w_version := w_version m; w_epoch := w_epoch m; w_chainIndex := w_chainIndex m; w_mode := w_mode m;
  w_braidMsgType := w_braidMsgType m; w_braidChunkIndex := w_braidChunkIndex m; w_braidChunkData := w_braidChunkData m;
  w_kyberCiphertext := ct; w_kyberPublicKey := pk |}.
Definition set_braid (t : Z) (i : option Z) (c : option bytes) (m : SPQRWireMessage) : SPQRWireMessage := {|
  w_version := w_version m; w_epoch := w_epoch m; w_chainIndex := w_chainIndex m; w_mode := w_mode m;
  w_braidMsgType := Some t; w_braidChunkIndex := i; w_braidChunkData := c;
  w_kyberCiphertext := w_kyberCiphertext m; w_kyberPublicKey := w_kyberPublicKey m |}.

Definition wire_slice (b : bytes) (from to : Z) : bytes := take (Z.to_nat (to - from)) (drop (Z.to_nat from) b).

(** A fixed-size field at the cursor. *)
Definition read_fixed (b : bytes) (cursor size : Z) (e : exn) : result (bytes * Z) :=
  if cursor + size >? len b then Throw e else Ok (wire_slice b cursor (cursor + size), cursor + size).

Definition decode_direct (b : bytes) (cursor modeByte : Z) (msg : SPQRWireMessage) : result SPQRWireMessage :=
  '(ct, cursor) ← (if (modeByte =? DIRECT_CIPHERTEXT) || (modeByte =? DIRECT_BOTH)
    then '(ct, cursor) ← read_fixed b cursor MLKEM768_CIPHERTEXT_SIZE (Error "Truncated kyberCiphertext"); Ok (Some ct, cursor)
    else Ok (None, cursor));
  '(pk, cursor) ← (if (modeByte =? DIRECT_PUBLIC_KEY) || (modeByte =? DIRECT_BOTH)
    then '(pk, cursor) ← read_fixed b cursor MLKEM768_PUBLIC_KEY_SIZE (Error "Truncated kyberPublicKey"); Ok (Some pk, cursor)
    else Ok (None, cursor));
  Ok (set_direct ct pk msg).

Definition decode_braid (b : bytes) (cursor modeByte : Z) (msg : SPQRWireMessage) : result SPQRWireMessage :=
  if negb (braidMessageTypeRequiresChunk modeByte) then Ok (set_braid modeByte None None msg)
  else if cursor >=? len b then Throw (Error "Missing braid chunk for message type")
  else
    '(braidChunkIndex, cursor) ← decodeVarintLEB128 b cursor;
    _ ← assertBraidChunkIndex braidChunkIndex;
    '(chunk, cursor) ← read_fixed b cursor BRAID_CHUNK_SIZE (Error "Truncated braid chunk");
    Ok (set_braid modeByte (Some braidChunkIndex) (Some chunk) msg).

Definition decodeSPQRWire (b : bytes) : result SPQRWireMessage :=
  if len b =? 0 then Throw (Error "Missing SPQR wire payload: v1 is required")
  else
    let version := nthZ 0 b 0 in
    if version =? 0 then Throw (Error "Unsupported SPQR wire version: 0; v1 is required")
    else if negb (version =? VERSION_V1) then Throw (Error "Unknown SPQR wire version")
    else
      '(epoch, cursor) ← decodeVarintLEB128Bigint b 1;
      _ ← spqrWireEpochToBigInt epoch;
      '(chainIndex, cursor) ← decodeVarintLEB128 b cursor;
      _ ← assertUint32 chainIndex 0 MAX_UINT32;
      if cursor >=? len b then Throw (Error "Truncated SPQR wire payload: missing mode byte")
      else
        let modeByte := nthZ 0 b cursor in
        let cursor := cursor + 1 in
        if (modeByte =? DIRECT_CIPHERTEXT) || (modeByte =? DIRECT_PUBLIC_KEY) || (modeByte =? DIRECT_BOTH)
        then decode_direct b cursor modeByte (wire_header epoch chainIndex WireDirect)
        else if modeByte =? MODE_NONE then Ok (wire_header epoch chainIndex WireNone)
        else if modeByte >? MAX_BRAID_MSG_TYPE then Throw (Error "Unknown SPQR mode byte")
        else decode_braid b cursor modeByte (wire_header epoch chainIndex WireBraid).
