(* ===== verification/SpqrWireProofs.v ===== *)
(** * Round trip of the SPQR wire format *)
From S2P Require Import Prelude ProtoWire ProtoFields ErasureCodec BraidState SpqrWire.

(** ** A buffer of [size] bytes of which [w] has been written *)
Definition written (size : nat) (w : bytes) : Buf := (w ++ replicate (size - length w) 0, len w).

Lemma written_nil size : (replicate size 0, 0) = written size [].
Proof. unfold written. cbn. by rewrite Nat.sub_0_r. Qed.

Lemma put_written size w b : (length w < size)%nat -> put b (written size w) = written size (w ++ [u8 b]).
Proof.
  intros Hw. unfold put, written. cbn [fst snd]. f_equal; [|len_lia].
  unfold len. rewrite Nat2Z.id, length_app. cbn [length].
  replace (size - length w)%nat with (S (size - (length w + 1))) by lia.
  rewrite insert_app_r_alt by done. rewrite Nat.sub_diag. cbn. by rewrite <- app_assoc.
Qed.

Lemma set_written size w data : (length w + length data <= size)%nat ->
  set_bytes data (len data) (written size w) = Ok (written size (w ++ data)).
Proof.
  intros Hw. unfold set_bytes, written. cbn [fst snd].
  case_if; b2p; [unfold len in Hb; rewrite length_app, length_replicate in Hb; lia|].
  f_equal. f_equal; [|len_lia]. unfold len. rewrite Nat2Z.id.
  rewrite take_app_length. replace (Z.to_nat _) with (length w + length data)%nat by lia.
  rewrite <- drop_drop, drop_app_length, drop_replicate, <- app_assoc, length_app. do 3 f_equal. lia.
Qed.

Lemma leb128_written fuel : forall v size w, 0 <= v < 128 ^ Z.of_nat (S fuel) ->
  (length w + length (varint fuel v) <= size)%nat -> leb128_loop fuel v (written size w) = written size (w ++ varint fuel v).
Proof.
  induction fuel as [|fuel IH]; intros v size w Hv Hw; cbn [leb128_loop varint] in *.
  - cbn in Hv, Hw. rewrite put_written by lia. rewrite u8_id by (unfold is_byte; lia). done.
  - replace (v >=? 0x80) with (v >? 127) by lia. case_if; b2p; rewrite ?Hb in Hw.
    + cbn [length] in Hw. pose proof (Z.mod_pos_bound v 128).
      rewrite put_written by lia. rewrite land_127, lor_128, u8_id by (unfold is_byte; lia).
      rewrite Z.shiftr_div_pow2 by lia. change (2 ^ 7) with 128. rewrite IH.
      * by rewrite <- app_assoc.
      * split; [apply Z.div_pos; lia|]. apply Z.div_lt_upper_bound; [lia|]. rewrite Nat2Z.inj_succ, Z.pow_succ_r in Hv by lia. lia.
      * rewrite length_app. cbn [length]. lia.
    + cbn [length] in Hw. rewrite put_written by lia. rewrite u8_id by (unfold is_byte; lia). done.
Qed.

Lemma varintSize_varint fuel : forall v s, 0 <= v < 128 ^ Z.of_nat (S fuel) -> varintSize_loop fuel v s = s - 1 + len (varint fuel v).
Proof.
  induction fuel as [|fuel IH]; intros v s Hv; cbn [varintSize_loop varint]; [len_lia|].
  replace (v >=? 0x80) with (v >? 127) by lia. case_if; b2p; [|len_lia].
  rewrite Z.shiftr_div_pow2 by lia. change (2 ^ 7) with 128. rewrite IH; [len_lia|].
  split; [apply Z.div_pos; lia|]. apply Z.div_lt_upper_bound; [lia|]. rewrite Nat2Z.inj_succ, Z.pow_succ_r in Hv by lia. lia.
Qed.

Lemma uint64_fuel v : 0 <= v <= MAX_UINT64 -> 0 <= v < 128 ^ Z.of_nat 10.
Proof. change (128 ^ Z.of_nat 10) with 1180591620717411303424. change MAX_UINT64 with 18446744073709551615. lia. Qed.

Lemma assertUint64_Ok v m : m <= v <= MAX_UINT64 -> assertUint64 v m = Ok v.
Proof. intros Hv. unfold assertUint64. by replace (_ || _) with false by lia. Qed.
Lemma assertUint32_Ok v a b : a <= v <= b -> assertUint32 v a b = Ok tt.
Proof. intros Hv. unfold assertUint32. by replace (_ || _) with false by lia. Qed.

Lemma varintSize_Ok v : 0 <= v <= MAX_UINT64 -> varintSize v = Ok (len (varint 9 v)).
Proof.
  intros Hv. unfold varintSize. rewrite assertUint64_Ok by done. cbn [mbind result_bind].
  rewrite varintSize_varint by (by apply uint64_fuel). done.
Qed.

Lemma encodeVarint_written v size w : 0 <= v <= MAX_UINT64 -> (length w + length (varint 9 v) <= size)%nat ->
  encodeVarintLEB128 v (written size w) = Ok (written size (w ++ varint 9 v)).
Proof.
  intros Hv Hw. unfold encodeVarintLEB128. rewrite assertUint64_Ok by done. cbn [mbind result_bind].
  by rewrite leb128_written by (done || by apply uint64_fuel).
Qed.

(** ** Reading *)
Lemma nthZ_at {A} (d : A) pre x rest : nthZ d (pre ++ x :: rest) (len pre) = x.
Proof. unfold nthZ, len. rewrite Nat2Z.id, app_nth2, Nat.sub_diag by lia. done. Qed.

Lemma leb128_read_S fuel from cursor acc shift : leb128_read (S fuel) from cursor acc shift =
      if cursor <? len from then
        let byte := nthZ 0 from cursor in
        let cursor := cursor + 1 in
        let acc := Z.lor acc (Z.shiftl (Z.land byte 0x7f) shift) in
        if Z.land byte 0x80 =? 0 then
          if acc >? MAX_UINT64 then Throw (Error "Varint too large (> uint64)") else Ok (acc, cursor)
        else leb128_read fuel from cursor acc (shift + 7)
      else Throw (Error "Unexpected end of varint").
Proof. done. Qed.

Lemma leb128_read_varint fuel : forall v r acc pre rest, 0 <= v < 128 ^ Z.of_nat (S fuel) -> 0 <= r ->
  0 <= acc < 2 ^ (7 * r) -> acc + v * 2 ^ (7 * r) <= MAX_UINT64 ->
  leb128_read (S fuel) (pre ++ varint fuel v ++ rest) (len pre) acc (7 * r) =
  Ok (acc + v * 2 ^ (7 * r), len pre + len (varint fuel v)).
Proof.
  assert (Hlast : forall fuel v r acc pre rest, 0 <= v < 128 -> 0 <= r -> 0 <= acc < 2 ^ (7 * r) -> acc + v * 2 ^ (7 * r) <= MAX_UINT64 ->
    leb128_read (S fuel) (pre ++ [v] ++ rest) (len pre) acc (7 * r) = Ok (acc + v * 2 ^ (7 * r), len pre + 1)).
  { intros fuel' v r acc pre rest Hv Hr Ha Hm. cbn [app]. rewrite leb128_read_S. replace (_ <? _) with true by len_lia.
    cbn zeta. rewrite nthZ_at, land_128 by (unfold is_byte; lia). replace (v <? 128) with true by lia.
    rewrite land_127, Z.mod_small by lia. rewrite digit_lor by (done || lia). by replace (_ >? MAX_UINT64) with false by lia. }
  induction fuel as [|fuel IH]; intros v r acc pre rest Hv Hr Ha Hm; cbn [varint].
  - cbn in Hv. rewrite Hlast by (done || lia). done.
  - case_if; b2p; [|rewrite Hlast by (done || lia); done].
    pose proof (Z.mod_pos_bound v 128) as Hmod. pose proof (div128 v ltac:(lia)) as Hd. pose proof (Z.div_mod v 128) as Hdm.
    cbn [app]. rewrite leb128_read_S. replace (_ <? _) with true by len_lia. cbn zeta.
    rewrite nthZ_at, land_128 by (unfold is_byte; lia). replace (v mod 128 + 128 <? 128) with false by lia.
    rewrite land_127.
    replace ((v mod 128 + 128) mod 128) with (v mod 128)
      by (rewrite <- Zplus_mod_idemp_r, Z_mod_same_full, Z.add_0_r, Z.mod_mod; lia).
    rewrite digit_lor by (done || lia).
    replace (7 * r + 7) with (7 * (r + 1)) by lia.
    assert (Hp : 0 < 2 ^ (7 * r)) by (apply Z.pow_pos_nonneg; lia).
    assert (E : pre ++ (v mod 128 + 128) :: varint fuel (v / 128) ++ rest =
                (pre ++ [v mod 128 + 128]) ++ varint fuel (v / 128) ++ rest) by (by rewrite <- app_assoc).
    rewrite E. replace (len pre + 1) with (len (pre ++ [v mod 128 + 128])) by len_lia. rewrite IH.
    + f_equal. f_equal; [rewrite pow7_succ by lia; nia|]. len_lia.
    + split; [lia|]. apply Z.div_lt_upper_bound; [lia|]. rewrite Nat2Z.inj_succ, Z.pow_succ_r in Hv by lia. lia.
    + lia.
    + rewrite pow7_succ by lia. nia.
    + rewrite pow7_succ by lia. nia.
Qed.

Lemma decodeBigint_varint pre v rest : 0 <= v <= MAX_UINT64 ->
  decodeVarintLEB128Bigint (pre ++ varint 9 v ++ rest) (len pre) = Ok (v, len pre + len (varint 9 v)).
Proof.
  intros Hv. unfold decodeVarintLEB128Bigint. change (Z.to_nat MAX_VARINT_U64_BYTES) with 10%nat.
  pose proof (leb128_read_varint 9 v 0 0 pre rest) as H. cbn [Z.mul Z.pow] in H. rewrite Z.mul_0_r in H.
  rewrite H; [|by apply uint64_fuel|done|done|cbn; lia]. do 2 f_equal. cbn. lia.
Qed.

Lemma decode32_leb pre v rest : 0 <= v <= MAX_UINT32 ->
  decodeVarintLEB128 (pre ++ varint 9 v ++ rest) (len pre) = Ok (v, len pre + len (varint 9 v)).
Proof.
  intros Hv. unfold decodeVarintLEB128. rewrite decodeBigint_varint by (change MAX_UINT64 with 18446744073709551615; unfold MAX_UINT32 in *; lia).
  cbn [mbind result_bind]. by replace (v >? MAX_UINT32) with false by lia.
Qed.

Lemma read_fixed_at pre data rest e : read_fixed (pre ++ data ++ rest) (len pre) (len data) e = Ok (data, len pre + len data).
Proof.
  unfold read_fixed. replace (_ >? _) with false by len_lia. unfold wire_slice. f_equal. f_equal.
  unfold len. rewrite Nat2Z.id, drop_app_length. replace (Z.to_nat _) with (length data) by lia. apply take_app_length.
Qed.

(** ** What is written *)
Definition direct_byte (ct pk : option bytes) : Z :=
  match ct, pk with Some _, Some _ => DIRECT_BOTH | Some _, None => DIRECT_CIPHERTEXT | None, Some _ => DIRECT_PUBLIC_KEY | None, None => MODE_NONE end.

Definition opt_bytes (o : option bytes) : bytes := match o with Some b => b | None => [] end.

Definition payload_bytes (msg : SPQRWireMessage) : bytes :=
  match w_mode msg with
  | WireNone => [MODE_NONE]
  | WireBraid => default MODE_NONE (w_braidMsgType msg) ::
      (if braidMessageTypeRequiresChunk (default MODE_NONE (w_braidMsgType msg))
       then varint 9 (default 0 (w_braidChunkIndex msg)) ++ opt_bytes (w_braidChunkData msg) else [])
  | WireDirect => direct_byte (w_kyberCiphertext msg) (w_kyberPublicKey msg) ::
      opt_bytes (w_kyberCiphertext msg) ++ opt_bytes (w_kyberPublicKey msg)
  end.

(** The messages that can be written. *)
Definition payload_valid (msg : SPQRWireMessage) : Prop :=
  match w_mode msg with
  | WireNone => True
  | WireBraid => 0 <= default MODE_NONE (w_braidMsgType msg) <= MAX_BRAID_MSG_TYPE /\
      if braidMessageTypeRequiresChunk (default MODE_NONE (w_braidMsgType msg))
      then 0 <= default 0 (w_braidChunkIndex msg) < 65536 /\ exists c, w_braidChunkData msg = Some c /\ len c = BRAID_CHUNK_SIZE
      else w_braidChunkData msg = None
  | WireDirect =>
      (forall c, w_kyberCiphertext msg = Some c -> len c = MLKEM768_CIPHERTEXT_SIZE) /\
      (forall k, w_kyberPublicKey msg = Some k -> len k = MLKEM768_PUBLIC_KEY_SIZE)
  end.

Lemma payload_size_ok msg : payload_valid msg -> payload_size msg = Ok (len (payload_bytes msg) - 1).
Proof.
  unfold payload_valid, payload_size, payload_bytes. destruct (w_mode msg).
  - done.
  - set (t := default MODE_NONE (w_braidMsgType msg)). intros [Ht Hp].
    assert (Ea : assertBraidMessageType t = Ok tt).
    { unfold assertBraidMessageType. replace (_ && _) with false by (unfold MAX_BRAID_MSG_TYPE in *; cbn in *; lia). by apply assertUint32_Ok. }
    rewrite Ea. cbn [mbind result_bind]. destruct (braidMessageTypeRequiresChunk t).
    + destruct Hp as (Hi & c & -> & Hc). cbn [present_ negb opt_bytes].
      rewrite varintSize_Ok by (change MAX_UINT64 with 18446744073709551615; lia). cbn [mbind result_bind].
      f_equal. len_lia.
    + by rewrite Hp.
  - intros [Hc Hk]. f_equal. destruct (w_kyberCiphertext msg) as [c|], (w_kyberPublicKey msg) as [k|];
      cbn [present_ opt_bytes]; try specialize (Hc _ eq_refl); try specialize (Hk _ eq_refl); len_lia.
Qed.

Lemma direct_byte_u8 ct pk : u8 (direct_byte ct pk) = direct_byte ct pk.
Proof. by destruct ct, pk. Qed.

Lemma write_payload_ok msg size w : payload_valid msg -> (length w + length (payload_bytes msg) <= size)%nat ->
  write_payload msg (written size w) = Ok (written size (w ++ payload_bytes msg)).
Proof.
  unfold payload_valid, write_payload, payload_bytes. destruct (w_mode msg).
  - cbn [length]. intros _ Hw. by rewrite put_written by lia.
  - set (t := default MODE_NONE (w_braidMsgType msg)). intros [Ht Hp] Hw.
    assert (Ea : assertBraidMessageType t = Ok tt).
    { unfold assertBraidMessageType. replace (_ && _) with false by (unfold MAX_BRAID_MSG_TYPE in *; cbn in *; lia). by apply assertUint32_Ok. }
    rewrite Ea. cbn [mbind result_bind length] in *.
    rewrite put_written by lia. rewrite u8_id by (unfold is_byte, MAX_BRAID_MSG_TYPE in *; cbn in *; lia).
    destruct (braidMessageTypeRequiresChunk t); [|done].
    destruct Hp as (Hi & c & Ec & Hc). rewrite Ec in *. cbn [opt_bytes] in *. rewrite length_app in Hw.
    unfold assertBraidChunkIndex, isSafeInteger, MAX_SAFE_INTEGER, BRAID_CHUNK_INDEX_MAX, BRAID_CHUNK_POINT_COUNT.
    replace (negb _ || _ || _) with false by lia. cbn [mbind result_bind].
    rewrite encodeVarint_written by (rewrite ?length_app; cbn [length]; change MAX_UINT64 with 18446744073709551615; lia). cbn [mbind result_bind].
    rewrite Hc. cbn [negb]. change (BRAID_CHUNK_SIZE =? BRAID_CHUNK_SIZE) with true. cbn [negb].
    rewrite <- Hc, set_written by (rewrite !length_app; cbn [length]; lia). by rewrite <- !app_assoc.
  - intros [Hc Hk] Hw. fold (direct_byte (w_kyberCiphertext msg) (w_kyberPublicKey msg)). cbn [length] in Hw.
    rewrite put_written, direct_byte_u8 by lia. rewrite length_app in Hw.
    destruct (w_kyberCiphertext msg) as [c|], (w_kyberPublicKey msg) as [k|];
      cbn [opt_bytes mbind result_bind length app] in *;
      try (rewrite <- (Hc _ eq_refl), set_written by (rewrite ?length_app; cbn [length]; lia); cbn [mbind result_bind]);
      try (rewrite <- (Hk _ eq_refl), set_written by (rewrite ?length_app; cbn [length]; lia));
      by rewrite <- ?app_assoc, ?app_nil_r.
Qed.

Definition message_valid (msg : SPQRWireMessage) (e : Z) : Prop :=
  w_version msg = 1 /\ w_epoch msg = Some e /\ 1 <= e <= MAX_UINT64 /\ 0 <= default 0 (w_chainIndex msg) <= MAX_UINT32 /\ payload_valid msg.

Definition message_bytes (msg : SPQRWireMessage) (e : Z) : bytes :=
  [VERSION_V1] ++ varint 9 e ++ varint 9 (default 0 (w_chainIndex msg)) ++ payload_bytes msg.

Lemma encode_ok msg e : message_valid msg e -> encodeSPQRWire msg = Ok (message_bytes msg e).
Proof.
  intros (Hv & He & Hr & Hc & Hp). unfold encodeSPQRWire, message_bytes. rewrite Hv, He. cbn [negb Z.eqb]. cbn match.
  set (ci := default 0 (w_chainIndex msg)) in *.
  assert (Hc64 : 0 <= ci <= MAX_UINT64) by (change MAX_UINT64 with 18446744073709551615; unfold MAX_UINT32 in *; lia).
  rewrite assertUint64_Ok, assertUint32_Ok by done. cbn [mbind result_bind].
  rewrite !varintSize_Ok by lia. cbn [mbind result_bind]. rewrite payload_size_ok by done. cbn [mbind result_bind].
  set (n := Z.to_nat _). assert (Hn : n = (1 + length (varint 9 e) + length (varint 9 ci) + length (payload_bytes msg))%nat) by (unfold n, len; lia).
  rewrite written_nil, put_written by (cbn [length]; lia). change (u8 VERSION_V1) with VERSION_V1. cbn [app].
  rewrite encodeVarint_written by (cbn [length]; lia). cbn [mbind result_bind].
  rewrite encodeVarint_written by (rewrite ?length_app; cbn [length]; lia). cbn [mbind result_bind].
  rewrite write_payload_ok by (done || (rewrite !length_app; cbn [length]; lia)). cbn [mbind result_bind].
  unfold written. cbn [fst]. rewrite <- !app_assoc. replace (n - _)%nat with 0%nat by (rewrite !length_app; cbn [length]; lia).
  by rewrite app_nil_r.
Qed.

(** ** Reading it back *)
Definition normal_form (msg : SPQRWireMessage) (e : Z) : SPQRWireMessage :=
  let h := wire_header e (default 0 (w_chainIndex msg)) in
  match w_mode msg with
  | WireNone => h WireNone
  | WireBraid =>
      let t := default MODE_NONE (w_braidMsgType msg) in
      if t =? MODE_NONE then h WireNone
      else if braidMessageTypeRequiresChunk t
      then set_braid t (Some (default 0 (w_braidChunkIndex msg))) (w_braidChunkData msg) (h WireBraid)
      else set_braid t None None (h WireBraid)
  | WireDirect =>
      if direct_byte (w_kyberCiphertext msg) (w_kyberPublicKey msg) =? MODE_NONE then h WireNone
      else set_direct (w_kyberCiphertext msg) (w_kyberPublicKey msg) (h WireDirect)
  end.

Definition direct_mode (t : Z) : bool := (t =? DIRECT_CIPHERTEXT) || (t =? DIRECT_PUBLIC_KEY) || (t =? DIRECT_BOTH).

(** The header up to the mode byte [t], which is followed by [more]. *)
Definition header_bytes (e ci : Z) : bytes := [VERSION_V1] ++ varint 9 e ++ varint 9 ci.

Lemma decode_header e ci t more : 1 <= e <= MAX_UINT64 -> 0 <= ci <= MAX_UINT32 ->
  let b := header_bytes e ci ++ t :: more in
  let cursor := len (header_bytes e ci ++ [t]) in
  decodeSPQRWire b =
    if direct_mode t then decode_direct b cursor t (wire_header e ci WireDirect)
    else if t =? MODE_NONE then Ok (wire_header e ci WireNone)
    else if t >? MAX_BRAID_MSG_TYPE then Throw (Error "Unknown SPQR mode byte")
    else decode_braid b cursor t (wire_header e ci WireBraid).
Proof.
  intros He Hc b cursor. unfold decodeSPQRWire, header_bytes in *.
  assert (Hb1 : b = [VERSION_V1] ++ varint 9 e ++ (varint 9 ci ++ t :: more)) by (unfold b; by rewrite <- !app_assoc).
  assert (Hb2 : b = ([VERSION_V1] ++ varint 9 e) ++ varint 9 ci ++ t :: more) by (unfold b; by rewrite <- !app_assoc).
  replace (len b =? 0) with false by (unfold b; len_lia).
  replace (nthZ 0 b 0) with VERSION_V1 by done. cbn [Z.eqb VERSION_V1 negb Pos.eqb].
  assert (Ee : decodeVarintLEB128Bigint b 1 = Ok (e, len [VERSION_V1] + len (varint 9 e)))
    by (rewrite Hb1; change 1 with (len [VERSION_V1]) at 1; by rewrite decodeBigint_varint by lia).
  rewrite Ee. cbn [mbind result_bind].
  unfold spqrWireEpochToBigInt. rewrite assertUint64_Ok by done. cbn [mbind result_bind].
  replace (len [VERSION_V1] + len (varint 9 e)) with (len ([VERSION_V1] ++ varint 9 e)) by len_lia.
  rewrite Hb2 at 1. rewrite decode32_leb by done. cbn [mbind result_bind]. rewrite assertUint32_Ok by done. cbn [mbind result_bind].
  replace (len ([VERSION_V1] ++ varint 9 e) + len (varint 9 ci)) with (len ([VERSION_V1] ++ varint 9 e ++ varint 9 ci)) by len_lia.
  replace (_ >=? len b) with false by (unfold b; len_lia).
  replace (nthZ 0 b (len ([VERSION_V1] ++ varint 9 e ++ varint 9 ci))) with t by (unfold b; by rewrite nthZ_at).
  replace (len ([VERSION_V1] ++ varint 9 e ++ varint 9 ci) + 1) with cursor by (unfold cursor; len_lia). done.
Qed.

Lemma decode_braid_chunk pre i c rest t h : braidMessageTypeRequiresChunk t = true -> 0 <= i < 65536 -> len c = BRAID_CHUNK_SIZE ->
  decode_braid (pre ++ varint 9 i ++ c ++ rest) (len pre) t h = Ok (set_braid t (Some i) (Some c) h).
Proof.
  intros Ht Hi Hc. unfold decode_braid. rewrite Ht. cbn [negb].
  replace (_ >=? _) with false by (unfold BRAID_CHUNK_SIZE in *; len_lia).
  rewrite decode32_leb by (unfold MAX_UINT32; lia). cbn [mbind result_bind].
  unfold assertBraidChunkIndex, isSafeInteger, MAX_SAFE_INTEGER, BRAID_CHUNK_INDEX_MAX, BRAID_CHUNK_POINT_COUNT.
  replace (negb _ || _ || _) with false by lia. cbn [mbind result_bind].
  replace (len pre + len (varint 9 i)) with (len (pre ++ varint 9 i)) by len_lia. rewrite (app_assoc pre), <- Hc, read_fixed_at. done.
Qed.

Lemma decode_direct_payload pre ct pk rest h : direct_byte ct pk <> MODE_NONE ->
  (forall c, ct = Some c -> len c = MLKEM768_CIPHERTEXT_SIZE) -> (forall k, pk = Some k -> len k = MLKEM768_PUBLIC_KEY_SIZE) ->
  decode_direct (pre ++ opt_bytes ct ++ opt_bytes pk ++ rest) (len pre) (direct_byte ct pk) h = Ok (set_direct ct pk h).
Proof.
  intros Hne Hc Hk. unfold decode_direct. destruct ct as [c|], pk as [k|]; try done; cbn [direct_byte opt_bytes app].
  - change ((DIRECT_BOTH =? DIRECT_CIPHERTEXT) || (DIRECT_BOTH =? DIRECT_BOTH)) with true.
    change ((DIRECT_BOTH =? DIRECT_PUBLIC_KEY) || (DIRECT_BOTH =? DIRECT_BOTH)) with true. cbv iota.
    rewrite <- (Hc _ eq_refl), read_fixed_at. cbn [mbind result_bind].
    replace (len pre + len c) with (len (pre ++ c)) by len_lia. rewrite (app_assoc pre), <- (Hk _ eq_refl), read_fixed_at. done.
  - change ((DIRECT_CIPHERTEXT =? DIRECT_CIPHERTEXT) || (DIRECT_CIPHERTEXT =? DIRECT_BOTH)) with true.
    change ((DIRECT_CIPHERTEXT =? DIRECT_PUBLIC_KEY) || (DIRECT_CIPHERTEXT =? DIRECT_BOTH)) with false. cbv iota.
    rewrite <- (Hc _ eq_refl), read_fixed_at. done.
  - change ((DIRECT_PUBLIC_KEY =? DIRECT_CIPHERTEXT) || (DIRECT_PUBLIC_KEY =? DIRECT_BOTH)) with false.
    change ((DIRECT_PUBLIC_KEY =? DIRECT_PUBLIC_KEY) || (DIRECT_PUBLIC_KEY =? DIRECT_BOTH)) with true. cbv iota. cbn [mbind result_bind].
    rewrite <- (Hk _ eq_refl), read_fixed_at. done.
Qed.

Lemma decode_ok msg e rest : message_valid msg e -> decodeSPQRWire (message_bytes msg e ++ rest) = Ok (normal_form msg e).
Proof.
  intros (Hv & He & Hr & Hc & Hp). unfold message_bytes, normal_form, payload_bytes, payload_valid in *.
  set (ci := default 0 (w_chainIndex msg)) in *.
  rewrite (app_assoc [_]), (app_assoc ([_] ++ _)), <- app_assoc, <- (app_assoc [_] (varint 9 e)). fold (header_bytes e ci).
  destruct (w_mode msg).
  - cbn [app]. by rewrite decode_header.
  - set (t := default MODE_NONE (w_braidMsgType msg)) in *. destruct Hp as [Ht Hp]. cbn [app]. rewrite decode_header by done.
    unfold MAX_BRAID_MSG_TYPE, BRAID_CT1_ACK_MSG_TYPE, MODE_NONE in *. cbn [MessageType_number] in *.
    replace (direct_mode t) with false by (unfold direct_mode, DIRECT_CIPHERTEXT, DIRECT_PUBLIC_KEY, DIRECT_BOTH; lia).
    case_if; [done|]. replace (t >? 6) with false by lia.
    destruct (braidMessageTypeRequiresChunk t) eqn:Er.
    + destruct Hp as (Hi & c & -> & Hlc). cbn [opt_bytes]. set (i := default 0 (w_braidChunkIndex msg)) in *.
      rewrite <- (decode_braid_chunk (header_bytes e ci ++ [t]) i c rest t) by done.
      rewrite <- !app_assoc. cbn [app]. rewrite <- ?app_assoc. done.
    + unfold decode_braid. by rewrite Er.
  - destruct Hp as [Hct Hpk]. set (d := direct_byte _ _) in *. cbn [app]. rewrite decode_header by done.
    destruct (d =? MODE_NONE) eqn:Ed.
    + replace (direct_mode d) with false; [done|]. b2p. rewrite Ed. done.
    + assert (Hd : direct_mode d = true) by (unfold d, direct_byte in *; destruct (w_kyberCiphertext msg), (w_kyberPublicKey msg); done).
      rewrite Hd. b2p.
      rewrite <- (decode_direct_payload (header_bytes e ci ++ [d]) (w_kyberCiphertext msg) (w_kyberPublicKey msg) rest) by done.
      rewrite <- !app_assoc. cbn [app]. rewrite <- ?app_assoc. done.
Qed.

(** *** What is written was valid *)
Lemma message_type_inv t u : assertBraidMessageType t = Ok u -> 0 <= t <= MAX_BRAID_MSG_TYPE.
Proof. unfold assertBraidMessageType, assertUint32. case_if; [done|]. case_if; [done|]. b2p. lia. Qed.

Lemma write_payload_valid msg B B' n : w_mode msg <> WireDirect -> payload_size msg = Ok n -> write_payload msg B = Ok B' -> payload_valid msg.
Proof.
  unfold payload_size, write_payload, payload_valid. destruct (w_mode msg); [done| |done]. intros _.
  set (t := default MODE_NONE (w_braidMsgType msg)).
  destruct (assertBraidMessageType t) as [u|] eqn:Et; [|done]. apply message_type_inv in Et. cbn [mbind result_bind].
  destruct (braidMessageTypeRequiresChunk t).
  - intros _. destruct (assertBraidChunkIndex _) as [i|] eqn:Ei; [|done]. unfold assertBraidChunkIndex in Ei. case_if_in Ei; [done|]. cbn [mbind result_bind].
    destruct (encodeVarintLEB128 _ _) as [B1|]; [|done]. cbn [mbind result_bind].
    destruct (w_braidChunkData msg) as [c|]; [|done]. case_if; [done|]. intros _. b2p. split; [lia|]. unfold BRAID_CHUNK_INDEX_MAX, BRAID_CHUNK_POINT_COUNT in *.
    split; [lia|]. by exists c.
  - destruct (w_braidChunkData msg); [done|]. intros _ _. split; [lia|done].
Qed.

Lemma encode_inv msg b : w_mode msg <> WireDirect -> encodeSPQRWire msg = Ok b ->
  exists e, message_valid msg e /\ b = message_bytes msg e.
Proof.
  intros Hm E. assert (Hv : exists e, message_valid msg e).
  { unfold encodeSPQRWire in E. case_if_in E; [done|]. b2p. destruct (w_epoch msg) as [e|] eqn:Ee; [|done]. exists e.
    destruct (assertUint64 e 1) as [e'|] eqn:E1; [|done]. cbn [mbind result_bind] in E.
    destruct (assertUint32 _ 0 MAX_UINT32) as [u|] eqn:E2; [|done]. cbn [mbind result_bind] in E.
    unfold assertUint64 in E1. case_if_in E1; [done|]. unfold assertUint32 in E2. case_if_in E2; [done|]. b2p.
    destruct (varintSize e) as [s1|]; [|done]. cbn [mbind result_bind] in E. destruct (varintSize _) as [s2|]; [|done]. cbn [mbind result_bind] in E.
    destruct (payload_size msg) as [s3|] eqn:Ep; [|done]. cbn [mbind result_bind] in E.
    destruct (encodeVarintLEB128 e _) as [B1|]; [|done]. cbn [mbind result_bind] in E. destruct (encodeVarintLEB128 _ B1) as [B2|]; [|done]. cbn [mbind result_bind] in E.
    destruct (write_payload msg B2) as [B3|] eqn:Ew; [|done]. split; [done|]. split; [done|]. split; [lia|]. split; [lia|].
    by eapply write_payload_valid. }
  destruct Hv as [e Hv]. exists e. split; [done|]. rewrite (encode_ok msg e Hv) in E. by injection E.
Qed.

(** ** Properties *)

(** A valid SPQR message is written and read back, whatever bytes of a
    later protocol version follow it; an absent chain index is read as 0, and
    a braid or direct message without payload as [none]. *)
Theorem spqr_wire_roundtrip msg e rest : message_valid msg e ->
  exists b, encodeSPQRWire msg = Ok b /\ decodeSPQRWire (b ++ rest) = Ok (normal_form msg e).
Proof. intros Hm. exists (message_bytes msg e). split; [by apply encode_ok|by apply decode_ok]. Qed.

Definition example_message : SPQRWireMessage :=
  set_braid 5 (Some 300) (Some (replicate 32 7)) (wire_header (2 ^ 60) 1000 WireBraid).

Lemma spqr_wire_roundtrip_witness : exists b, encodeSPQRWire example_message = Ok b /\
  decodeSPQRWire (b ++ [1; 2; 3]) = Ok example_message.
Proof.
  apply (spqr_wire_roundtrip example_message (2 ^ 60) [1; 2; 3]).
  split; [done|]. split; [done|]. split; [by vm_compute|]. split; [by vm_compute|]. split; [by vm_compute|].
  split; [by vm_compute|]. by exists (replicate 32 7).
Defined.
