(* ===== verification/BraidAuth.v ===== *)
(** * ML-KEM Braid: key derivation, authenticator and incremental KEM

    [ml-kem-braid/kdf.ts], [authenticator.ts] and [incremental-kem.ts].  The
    forked primitive in [noble-pq/] and SHA3 of [@noble/hashes] are the
    operations of the class [MLKEM768]; its laws are the sizes of ML-KEM-768
    and the correctness of decapsulation. *)
From S2P Require Import Prelude Crypto GaloisField Lagrange ErasureCodec BraidState.

Class MLKEM768 := {
  sha3_256 : bytes -> bytes;
  mlkem_keygen : bytes -> bytes * bytes * bytes;          (* seed; dk, ek_seed, ek_vector *)
  mlkem_encaps1 : bytes -> bytes -> bytes -> result (bytes * bytes * bytes);
                                                          (* ek_seed, hek, msg; secret, ct1, shared secret *)
  mlkem_encaps2 : bytes -> bytes -> bytes -> bytes -> result bytes;
                                                          (* secret, ek_seed, ek_vector, hek; ct2 *)
  mlkem_decaps : bytes -> bytes -> bytes -> result bytes }.  (* dk, ct1, ct2; shared secret *)

Definition computeHek `{MLKEM768} (ek_seed ek_vector : bytes) : bytes := sha3_256 (ek_seed ++ ek_vector).

(** What one run of the three algorithms produces. *)
Class MLKEM768Laws (K : MLKEM768) : Prop := {
  sha3_length : forall b, length (sha3_256 b) = 32%nat;
  sha3_bytes : forall b, is_bytes (sha3_256 b);
  mlkem_sizes : forall r, length r = 64%nat -> let '(d, s, v) := mlkem_keygen r in
    len d = DK_SIZE /\ len s = EK_SEED_SIZE /\ len v = EK_VECTOR_SIZE /\ is_bytes s /\ is_bytes v;
  mlkem_correct : forall r m, length r = 64%nat -> length m = 32%nat -> let '(d, s, v) := mlkem_keygen r in
    exists es c1 ss c2, mlkem_encaps1 s (computeHek s v) m = Ok (es, c1, ss) /\
      mlkem_encaps2 es s v (computeHek s v) = Ok c2 /\ mlkem_decaps d c1 c2 = Ok ss /\
      len c1 = CT1_DATA_SIZE /\ len c2 = CT2_DATA_SIZE /\ len ss = 32 /\ is_bytes c1 /\ is_bytes c2 }.

Section Auth.
Context {H : HashFunctions} {K : MLKEM768}.

(** ** Key derivation *)

Definition PROTOCOL_INFO : bytes := bytes_of_string "Signal_PQCKA_V1_MLKEM768".

Fixpoint uint64_loop (n : nat) (value : Z) (acc : bytes) : bytes :=
  match n with
  | O => acc
  | S n => uint64_loop n (Z.shiftr value 8) (Z.land value 0xff :: acc)
  end.
Definition uint64ToBytes (value : Z) : bytes := uint64_loop 8 value [].

Definition buildKdfInfo (domain : string) (epoch : Z) : bytes :=
  PROTOCOL_INFO ++ bytes_of_string domain ++ uint64ToBytes epoch.

Definition KDFError (param : string) : exn := CodedError "KDFError" param.

Definition KDF_AUTH (root_key update_key : bytes) (epoch : Z) : result bytes :=
  if negb (len root_key =? 32) then Throw (KDFError "root_key")
  else if negb (len update_key =? 32) then Throw (KDFError "update_key")
  else Ok (hkdf (root_key ++ update_key) (replicate 32 0) (buildKdfInfo ":Authenticator Update" epoch) 64).

Definition KDF_OK (shared_secret : bytes) (epoch : Z) : result bytes :=
  if negb (len shared_secret =? 32) then Throw (KDFError "shared_secret")
  else Ok (hkdf shared_secret (replicate 32 0) (buildKdfInfo ":SCKA Key" epoch) 32).

(** ** The authenticator *)
Definition AuthenticatorError (code : string) : exn := CodedError "AuthenticatorError" code.

Definition auth_Update (a : AuthenticatorState) (epoch : Z) (key : bytes) : result AuthenticatorState :=
  derived ← KDF_AUTH (root_key a) key epoch;
  Ok {| root_key := take 32 derived; mac_key := take 32 (drop 32 derived) |}.

Definition auth_Init (a : AuthenticatorState) (epoch : Z) (initial_key : bytes) : result AuthenticatorState :=
  auth_Update {| root_key := replicate 32 0; mac_key := mac_key a |} epoch initial_key.

Definition initAuthenticatorState (initial_key : bytes) : result AuthenticatorState :=
  auth_Init {| root_key := replicate 32 0; mac_key := replicate 32 0 |} 0 initial_key.

Definition buildMacInput (domain : string) (epoch : Z) (data : bytes) : bytes :=
  PROTOCOL_INFO ++ bytes_of_string domain ++ uint64ToBytes epoch ++ data.

Definition MacHdr (a : AuthenticatorState) (epoch : Z) (header : bytes) : bytes :=
  hmac (mac_key a) (buildMacInput ":ekheader" epoch header).
Definition MacCt (a : AuthenticatorState) (epoch : Z) (ciphertext : bytes) : bytes :=
  hmac (mac_key a) (buildMacInput ":ciphertext" epoch ciphertext).

Definition VfyHdr (a : AuthenticatorState) (epoch : Z) (header expected_mac : bytes) : result unit :=
  if negb (bytes_eqb (MacHdr a epoch header) expected_mac)
  then Throw (AuthenticatorError "MAC_VERIFICATION_FAILED") else Ok tt.
Definition VfyCt (a : AuthenticatorState) (epoch : Z) (ciphertext expected_mac : bytes) : result unit :=
  if negb (bytes_eqb (MacCt a epoch ciphertext) expected_mac)
  then Throw (AuthenticatorError "MAC_VERIFICATION_FAILED") else Ok tt.

(** ** The incremental KEM *)
Definition IncrementalKEMError (param : string) : exn := CodedError "IncrementalKEMError" param.
Definition check_size (param : string) (b : bytes) (n : Z) : result unit :=
  if negb (len b =? n) then Throw (IncrementalKEMError param) else Ok tt.

Record KeyGenResult := { kg_dk : bytes; kg_ek_seed : bytes; kg_ek_vector : bytes; kg_hek : bytes }.
Record Encaps1Result := { e1_encaps_secret : bytes; e1_ct1 : bytes; e1_shared_secret : bytes }.

Definition KeyGen (randomness : bytes) : result KeyGenResult :=
  _ ← check_size "randomness" randomness 64;
  let '(d, s, v) := mlkem_keygen randomness in
  Ok {| kg_dk := d; kg_ek_seed := s; kg_ek_vector := v; kg_hek := computeHek s v |}.

Definition Encaps1 (ek_seed hek randomness : bytes) : result Encaps1Result :=
  _ ← check_size "ek_seed" ek_seed EK_SEED_SIZE;
  _ ← check_size "hek" hek 32;
  _ ← check_size "randomness" randomness 32;
  r ← mlkem_encaps1 ek_seed hek randomness;
  let '(es, c1, ss) := r in
  Ok {| e1_encaps_secret := es; e1_ct1 := c1; e1_shared_secret := ss |}.

Definition Encaps2 (encaps_secret ek_seed ek_vector : bytes) : result bytes :=
  _ ← check_size "ek_vector" ek_vector EK_VECTOR_SIZE;
  _ ← check_size "ek_seed" ek_seed EK_SEED_SIZE;
  mlkem_encaps2 encaps_secret ek_seed ek_vector (computeHek ek_seed ek_vector).

Definition Decaps (dk ct1 ct2 : bytes) : result bytes :=
  _ ← check_size "dk" dk DK_SIZE;
  _ ← check_size "ct1" ct1 CT1_DATA_SIZE;
  _ ← check_size "ct2" ct2 CT2_DATA_SIZE;
  mlkem_decaps dk ct1 ct2.
End Auth.
