(* ===== verification/Braid.v ===== *)
(** * ML-KEM Braid: the state machine ([ml-kem-braid/state-machine.ts])

    [Send] and [Receive] mutate the agent state they are given and may throw:
    they are computations of the monad [M], whose result carries the state
    also when they throw.  A candidate copy that is committed at the end by
    [Object.assign] is the combinator [candidate]; the [finally] block of
    [bobSendFromHeaderReceived] is [on_throw].  The source of random bytes is
    an argument, as is [ready], whether the tables of the field have been loaded.  Zeroing
    of buffers that are dropped has no effect here.  The denominators cache of
    the interpolator changes no result and is started empty. *)
From S2P Require Import Prelude Crypto GaloisField Lagrange ErasureCodec BraidState BraidAuth.

(** ** The transition table *)
Inductive Event :=
  | KEYGEN | RECEIVE_CT1 | CT1_COMPLETE | RECEIVE_CT2 | CT2_COMPLETE | HEADER_COMPLETE | SAMPLE_CT1
  | EK_COMPLETE_NO_ACK | EKCT1_ACK_EK_INCOMPLETE | EKCT1_ACK_EK_COMPLETE | EKCT1_ACK | EK_COMPLETE | BOB_NEW_EPOCH.

Definition STATE_TRANSITIONS (s : MLKEMBraidState) (e : Event) : option MLKEMBraidState :=
  match s, e with
  | KeysUnsampled, KEYGEN => Some KeysSampled
  | KeysSampled, RECEIVE_CT1 => Some HeaderSent
  | HeaderSent, CT1_COMPLETE => Some Ct1Received
  | Ct1Received, RECEIVE_CT2 => Some EkSentCt1Received
  | EkSentCt1Received, CT2_COMPLETE => Some NoHeaderReceived
  | NoHeaderReceived, HEADER_COMPLETE => Some HeaderReceived
  | HeaderReceived, SAMPLE_CT1 => Some Ct1Sampled
  | Ct1Sampled, EK_COMPLETE_NO_ACK => Some EkReceivedCt1Sampled
  | Ct1Sampled, EKCT1_ACK_EK_INCOMPLETE => Some Ct1Acknowledged
  | Ct1Sampled, EKCT1_ACK_EK_COMPLETE => Some Ct2Sampled
  | EkReceivedCt1Sampled, EKCT1_ACK => Some Ct2Sampled
  | Ct1Acknowledged, EK_COMPLETE => Some Ct2Sampled
  | Ct2Sampled, BOB_NEW_EPOCH => Some KeysUnsampled
  | _, _ => None
  end.

Definition StateTransitionError (code : string) : exn := CodedError "StateTransitionError" code.
Definition TypeError : exn := CodedError "TypeError" "undefined".

Abbreviation Agent := MLKEMBraidAgentState.

Definition transition (e : Event) : M Agent unit := fun s =>
  match STATE_TRANSITIONS (state s) e with
  | None => (s, Throw (StateTransitionError "INVALID_STATE_TRANSITION"))
  | Some n => (set_state n s, Ok tt)
  end.

(** [x!] or the use of an optional value that must be present. *)
Definition present {S A} (e : exn) (x : option A) : M S A :=
  match x with Some a => M_ret a | None => M_throw e end.

Definition candidate {S A} (m : M S A) : M S A := fun s =>
  match m s with (s', Ok a) => (s', Ok a) | (_, Throw e) => (s, Throw e) end.
Definition on_throw {S A} (cleanup : S -> S) (m : M S A) : M S A := fun s =>
  match m s with (s', Ok a) => (s', Ok a) | (s', Throw e) => (cleanup s', Throw e) end.

(** ** Encoders and decoders *)
Definition set_be_encoder (v : option PolyEncoder) (e : BraidEncoder) : BraidEncoder := {|
  be_data := be_data e; be_currentChunk := be_currentChunk e; be_totalChunks := be_totalChunks e;
  be_isComplete := be_isComplete e; be_encoder := v |}.

Definition createEncoderState (data : bytes) : result BraidEncoder :=
  encoder ← (new_PolyEncoder true data ∅).2;
  let totalChunks := chunks_of (len data) in
  (* [Math.ceil(totalChunks * 1.3)] *)
  Ok {| be_data := data; be_currentChunk := 0; be_totalChunks := (totalChunks * 13 + 9) / 10;
        be_isComplete := false; be_encoder := Some encoder |}.

Definition createDecoderState (messageSize : Z) : BraidDecoder := {|
  bd_receivedChunks := 0; bd_requiredChunks := chunks_of messageSize; bd_messageSize := messageSize;
  bd_chunks := [] |}.

Definition restoreEncoder (ready : bool) : M BraidEncoder PolyEncoder := fun st =>
  match be_encoder st with
  | Some e => (st, Ok e)
  | None =>
      match (restore ready (be_data st) (be_currentChunk st) ∅).2 with
      | Throw e => (st, Throw e)
      | Ok e => (set_be_encoder (Some e) st, Ok e)
      end
  end.

Definition getNextEncoderChunk (ready : bool) : M BraidEncoder (bytes * Z) := (
  do encoder <- restoreEncoder ready;
  if negb (hasMoreChunks encoder) then M_throw (Error "Braid encoder exhausted all GF(2^16) evaluation points")
  else
    do st <- M_get;
    let index := be_currentChunk st in
    let (encoder, r) := nextChunk encoder in
    do_ M_modify (set_be_encoder (Some encoder));
    do chunk <- M_lift r;
    do_ M_modify (fun st => {| be_data := be_data st; be_currentChunk := be_currentChunk st + 1;
                               be_totalChunks := be_totalChunks st; be_isComplete := isDataComplete encoder;
                               be_encoder := be_encoder st |});
    M_ret (chunk, index))%st.

Definition addDecoderChunk (chunkIndex : Z) (chunk : bytes) (st : BraidDecoder) : result BraidDecoder :=
  _ ← assertBraidChunkIndex chunkIndex;
  if negb (len chunk =? CHUNK_SIZE) then Throw (Error "Braid chunk must contain exactly 32 bytes")
  else match assoc_get chunkIndex (bd_chunks st) with
       | Some existing =>
           if negb (bytes_eqb existing chunk) then Throw (Error "Conflicting duplicate Braid chunk") else Ok st
       | None =>
           let chunks := bd_chunks st ++ [(chunkIndex, chunk)] in
           Ok {| bd_receivedChunks := len chunks; bd_requiredChunks := bd_requiredChunks st;
                 bd_messageSize := bd_messageSize st; bd_chunks := chunks |}
       end.

Definition isDecoderComplete (st : BraidDecoder) : bool := len (bd_chunks st) >=? bd_requiredChunks st.

Definition getDecodedMessage (st : BraidDecoder) : result bytes :=
  decoder ← new_PolyDecoder true (bd_messageSize st);
  decoder ← foldM_result (fun d kv => addChunk kv.1 kv.2 d) decoder (bd_chunks st);
  m ← message decoder;
  match m with None => Throw (Error "Failed to decode message") | Some m => Ok m end.

(** [const index = message.chunkIndex ?? decoder.receivedChunks] and the
    addition of the chunk. *)
Definition add_message_chunk (m : MLKEMBraidMessage) (chunk : bytes) (st : BraidDecoder) : result BraidDecoder :=
  addDecoderChunk (default (bd_receivedChunks st) (m_chunkIndex m)) chunk st.

(** The next chunk of an encoder held in a field of the state. *)
Definition next_chunk (ready : bool) (get : Agent -> option BraidEncoder) (set : option BraidEncoder -> Agent -> Agent)
    (missing : exn) : M Agent (bytes * Z) := fun s =>
  match get s with
  | None => (s, Throw missing)
  | Some e => let (e, r) := getNextEncoderChunk ready e in (set (Some e) s, r)
  end.

Definition chunk_message (type : MessageType) (c : bytes * Z) (s : Agent) : MLKEMBraidMessage :=
  {| m_epoch := epoch s; m_type := type; m_chunkIndex := Some (c.2); m_data := Some (c.1) |}.
Definition bare_message (type : MessageType) (s : Agent) : MLKEMBraidMessage :=
  {| m_epoch := epoch s; m_type := type; m_chunkIndex := None; m_data := None |}.
Definition send_result (m : MLKEMBraidMessage) (k : option OutputKey) (s : Agent) : SendResult :=
  {| sr_message := m; sending_epoch := epoch s; sr_output_key := k |}.

(** The reset keeps the epoch and the authenticator. *)
Definition resetForNewEpoch (newState : MLKEMBraidState) (s : Agent) : Agent := {|
  state := newState; epoch := epoch s; auth := auth s;
  dk := None; ek_seed := None; ek_vector := None; hek := None; encaps_secret := None; ct1 := None; ct2 := None;
  ct1_for_mac := None; ct1_decoded := None;
  headerEncoder := None; ekEncoder := None; ct1Encoder := None; ct2Encoder := None;
  headerDecoder := if bool_decide (newState ∈ BOB_STATES) then Some (createDecoderState HEADER_SIZE) else None;
  ekDecoder := None; ct1Decoder := None; ct2Decoder := None |}.

Definition new_agent (s : MLKEMBraidState) (a : AuthenticatorState) (hd : option BraidDecoder) : Agent := {|
  state := s; epoch := 1; auth := a;
  dk := None; ek_seed := None; ek_vector := None; hek := None; encaps_secret := None; ct1 := None; ct2 := None;
  ct1_for_mac := None; ct1_decoded := None;
  headerEncoder := None; ekEncoder := None; ct1Encoder := None; ct2Encoder := None;
  headerDecoder := hd; ekDecoder := None; ct1Decoder := None; ct2Decoder := None |}.

Section Machine.
Context {H : HashFunctions} {K : MLKEM768}.

Definition InitAlice (initial_shared_secret : bytes) : result Agent :=
  auth ← initAuthenticatorState initial_shared_secret;
  Ok (new_agent KeysUnsampled auth None).

Definition InitBob (initial_shared_secret : bytes) : result Agent :=
  auth ← initAuthenticatorState initial_shared_secret;
  Ok (new_agent NoHeaderReceived auth (Some (createDecoderState HEADER_SIZE))).

(** ** Alice sends *)
Definition aliceSendHeaderChunk (ready : bool) : M Agent SendResult := (
  do c <- next_chunk ready headerEncoder set_headerEncoder (Error "No header encoder");
  do s <- M_get;
  M_ret (send_result (chunk_message Hdr c s) None s))%st.

Definition aliceSendEkChunk (ready : bool) (type : MessageType) : M Agent SendResult := (
  do c <- next_chunk ready ekEncoder set_ekEncoder (Error "No ek encoder");
  do s <- M_get;
  M_ret (send_result (chunk_message type c s) None s))%st.

Definition aliceSendFromKeysUnsampled (ready : bool) (randomBytes : nat -> bytes) : M Agent SendResult := (
  do keyPair <- M_lift (KeyGen (randomBytes 64%nat));
  do_ M_modify (fun s => set_hek (Some (kg_hek keyPair)) (set_ek_vector (Some (kg_ek_vector keyPair))
                          (set_ek_seed (Some (kg_ek_seed keyPair)) (set_dk (Some (kg_dk keyPair)) s))));
  do s <- M_get;
  let header := kg_ek_seed keyPair ++ kg_hek keyPair in
  let headerMac := MacHdr (auth s) (epoch s) header in
  do he <- M_lift (createEncoderState (header ++ headerMac));
  do_ M_modify (set_headerEncoder (Some he));
  do ee <- M_lift (createEncoderState (kg_ek_vector keyPair));
  do_ M_modify (set_ekEncoder (Some ee));
  do_ transition KEYGEN;
  aliceSendHeaderChunk ready)%st.

Definition sendAlice (ready : bool) (randomBytes : nat -> bytes) : M Agent SendResult := (
  do s <- M_get;
  match state s with
  | KeysUnsampled => aliceSendFromKeysUnsampled ready randomBytes
  | KeysSampled => aliceSendHeaderChunk ready
  | HeaderSent => aliceSendEkChunk ready Ek
  | Ct1Received => aliceSendEkChunk ready EkCt1Ack
  | EkSentCt1Received => M_ret (send_result (bare_message Ct1Ack s) None s)
  | _ => M_throw (StateTransitionError "INVALID_STATE_TRANSITION")
  end)%st.

(** ** Alice receives *)
Definition receiveAlice_Ct1 (m : MLKEMBraidMessage) (data : bytes) : M Agent unit := (
  do s <- M_get;
  let receivedFirstCt1Chunk := bool_decide (state s = KeysSampled) in
  do_ match ct1Decoder s with
      | None => M_modify (set_ct1Decoder (Some (createDecoderState CT1_SIZE)))
      | Some _ => M_ret tt
      end;
  do s <- M_get;
  do d <- present TypeError (ct1Decoder s);
  do d <- M_lift (add_message_chunk m data d);
  do_ M_modify (set_ct1Decoder (Some d));
  do_ (if receivedFirstCt1Chunk then transition RECEIVE_CT1 else M_ret tt);
  if isDecoderComplete d then
    do c1 <- M_lift (getDecodedMessage d);
    do_ M_modify (set_ct1_decoded (Some c1));
    transition CT1_COMPLETE
  else M_ret tt)%st.

Definition receiveAlice_Ct2 (m : MLKEMBraidMessage) (data : bytes) : M Agent (option OutputKey) := candidate (
  do s <- M_get;
  let receivedFirstCt2Chunk := bool_decide (state s = Ct1Received) in
  let d := default (createDecoderState CT2_SIZE) (ct2Decoder s) in
  do d <- M_lift (add_message_chunk m data d);
  do_ M_modify (set_ct2Decoder (Some d));
  do_ (if receivedFirstCt2Chunk then transition RECEIVE_CT2 else M_ret tt);
  do s <- M_get;
  if isDecoderComplete d && bool_decide (state s = EkSentCt1Received) then
    do c1 <- present (Error "CT1 not decoded - state corruption") (ct1_decoded s);
    do ct2Data <- M_lift (getDecodedMessage d);
    let c2 := take (Z.to_nat CT2_DATA_SIZE) ct2Data in
    let combinedMac := drop (Z.to_nat CT2_DATA_SIZE) ct2Data in
    let combined := c1 ++ c2 in
    do key <- present TypeError (dk s);
    do shared_secret <- M_lift (Decaps key c1 c2);
    do outputKeyBytes <- M_lift (KDF_OK shared_secret (epoch s));
    do a <- M_lift (auth_Update (auth s) (epoch s) outputKeyBytes);
    do_ M_modify (set_auth a);
    do_ M_lift (VfyCt a (m_epoch m) combined combinedMac);
    do_ transition CT2_COMPLETE;
    do_ M_modify (fun s => let s := set_epoch (epoch s + 1) s in resetForNewEpoch (state s) s);
    M_ret (Some {| ok_epoch := epoch s; epoch_secret := outputKeyBytes |})
  else M_ret None)%st.

Definition receiveAlice (m : MLKEMBraidMessage) : M Agent ReceiveResult := (
  let result k := {| receiving_epoch := m_epoch m; rr_output_key := k |} in
  do s <- M_get;
  if m_epoch m <? epoch s then M_ret (result None)
  else if m_epoch m >? epoch s then M_throw (StateTransitionError "EPOCH_MISMATCH")
  else match m_type m, m_data m with
  | Ct1, Some data =>
      if bool_decide (state s ∈ [KeysSampled; HeaderSent])
      then do_ receiveAlice_Ct1 m data; M_ret (result None) else M_ret (result None)
  | Ct2, Some data =>
      if bool_decide (state s ∈ [Ct1Received; EkSentCt1Received])
      then do k <- receiveAlice_Ct2 m data; M_ret (result k) else M_ret (result None)
  | _, _ => M_ret (result None)
  end)%st.

(** ** Bob sends *)
Definition clear_encapsulation (s : Agent) : Agent :=
  set_ct1Encoder None (set_ct1 None (set_ct1_for_mac None (set_encaps_secret None s))).

Definition bobSendFromHeaderReceived (ready : bool) (randomBytes : nat -> bytes) : M Agent SendResult := (
  do s <- M_get;
  do seed <- present (Error "Missing ek_seed or hek") (ek_seed s);
  do h <- present (Error "Missing ek_seed or hek") (hek s);
  on_throw clear_encapsulation (
    do encapsulation <- M_lift (Encaps1 seed h (randomBytes 32%nat));
    do_ M_modify (set_encaps_secret (Some (e1_encaps_secret encapsulation)));
    do_ M_modify (set_ct1 (Some (e1_ct1 encapsulation)));
    do ce <- M_lift (createEncoderState (e1_ct1 encapsulation));
    do_ M_modify (set_ct1Encoder (Some ce));
    do_ M_modify (set_ct1_for_mac (Some (e1_ct1 encapsulation)));
    do outputKeyBytes <- M_lift (KDF_OK (e1_shared_secret encapsulation) (epoch s));
    do a <- M_lift (auth_Update (auth s) (epoch s) outputKeyBytes);
    do_ M_modify (set_auth a);
    do_ transition SAMPLE_CT1;
    do c <- next_chunk ready ct1Encoder set_ct1Encoder TypeError;
    do s <- M_get;
    M_ret (send_result (chunk_message Ct1 c s) (Some {| ok_epoch := epoch s; epoch_secret := outputKeyBytes |}) s)))%st.

Definition bobSendCt1Chunk (ready : bool) : M Agent SendResult := (
  do c <- next_chunk ready ct1Encoder set_ct1Encoder (Error "No CT1 encoder");
  do s <- M_get;
  M_ret (send_result (chunk_message Ct1 c s) None s))%st.

Definition bobSendFromCt2Sampled (ready : bool) : M Agent SendResult := (
  do c <- next_chunk ready ct2Encoder set_ct2Encoder (Error "No CT2 encoder");
  do s <- M_get;
  M_ret (send_result (chunk_message Ct2 c s) None s))%st.

Definition sendBob (ready : bool) (randomBytes : nat -> bytes) : M Agent SendResult := (
  do s <- M_get;
  match state s with
  | NoHeaderReceived => M_ret (send_result (bare_message NoneMsg s) None s)
  | HeaderReceived => bobSendFromHeaderReceived ready randomBytes
  | Ct1Sampled => bobSendCt1Chunk ready
  | EkReceivedCt1Sampled => bobSendCt1Chunk ready
  | Ct1Acknowledged => M_ret (send_result (bare_message NoneMsg s) None s)
  | Ct2Sampled => bobSendFromCt2Sampled ready
  | _ => M_throw (StateTransitionError "INVALID_STATE_TRANSITION")
  end)%st.

(** ** Bob receives *)
Definition bobSampleCt2 : M Agent unit := (
  let missing := Error "Missing encaps_secret, ek_seed, or ek_vector" in
  do s <- M_get;
  do encapsSecret <- present missing (encaps_secret s);
  do seed <- present missing (ek_seed s);
  do vector <- present missing (ek_vector s);
  do_ M_modify (set_encaps_secret None);       (* in a [finally]: both when Encaps2 returns and throws *)
  do c2 <- M_lift (Encaps2 encapsSecret seed vector);
  do_ M_modify (set_ct2 (Some c2));
  do c1 <- present (Error "CT1 not stored for combined MAC - state corruption") (ct1_for_mac s);
  let combinedMac := MacCt (auth s) (epoch s) (c1 ++ c2) in
  do ce <- M_lift (createEncoderState (c2 ++ combinedMac));
  do_ M_modify (set_ct2Encoder (Some ce));
  M_modify (set_ct1_for_mac None))%st.

Definition verifyEkHashBinding (ekSeed ekVector expectedHek : bytes) : result unit :=
  if negb (bytes_eqb (computeHek ekSeed ekVector) expectedHek)
  then Throw (AuthenticatorError "EK_HASH_BINDING_FAILED") else Ok tt.

Definition receiveBob_Hdr (m : MLKEMBraidMessage) (data : bytes) : M Agent unit := candidate (
  do s <- M_get;
  let d := default (createDecoderState HEADER_SIZE) (headerDecoder s) in
  do d <- M_lift (add_message_chunk m data d);
  do_ M_modify (set_headerDecoder (Some d));
  if isDecoderComplete d then
    do headerData <- M_lift (getDecodedMessage d);
    let headerSize := Z.to_nat (EK_SEED_SIZE + 32) in
    let header := take headerSize headerData in
    let headerMac := drop headerSize headerData in
    do_ M_lift (VfyHdr (auth s) (m_epoch m) header headerMac);
    do_ M_modify (set_ek_seed (Some (take (Z.to_nat EK_SEED_SIZE) header)));
    do_ M_modify (set_hek (Some (drop (Z.to_nat EK_SEED_SIZE) header)));
    transition HEADER_COMPLETE
  else M_ret tt)%st.

Definition receiveBob_Ek (m : MLKEMBraidMessage) (data : bytes) : M Agent unit := candidate (
  do s <- M_get;
  let d := default (createDecoderState EK_SIZE) (ekDecoder s) in
  do d <- M_lift (add_message_chunk m data d);
  do_ M_modify (set_ekDecoder (Some d));
  if isDecoderComplete d then
    do ekVector <- M_lift (getDecodedMessage d);
    do seed <- present TypeError (ek_seed s);
    do h <- present TypeError (hek s);
    do_ M_lift (verifyEkHashBinding seed ekVector h);
    do_ M_modify (set_ek_vector (Some ekVector));
    if bool_decide (state s = Ct1Sampled) then
      if bool_decide (m_type m = EkCt1Ack) then do_ transition EKCT1_ACK_EK_COMPLETE; bobSampleCt2
      else transition EK_COMPLETE_NO_ACK
    else if bool_decide (state s = Ct1Acknowledged) then do_ transition EK_COMPLETE; bobSampleCt2
    else M_ret tt
  else if bool_decide (m_type m = EkCt1Ack) && bool_decide (state s = Ct1Sampled)
  then transition EKCT1_ACK_EK_INCOMPLETE
  else M_ret tt)%st.

Definition receiveBob_body (m : MLKEMBraidMessage) : M Agent unit := (
  do s <- M_get;
  match m_type m with
  | Hdr =>
      match m_data m with
      | Some data => if bool_decide (state s = NoHeaderReceived) then receiveBob_Hdr m data else M_ret tt
      | None => M_ret tt
      end
  | Ek | EkCt1Ack =>
      if bool_decide (state s = EkReceivedCt1Sampled) && bool_decide (m_type m = EkCt1Ack)
      then do_ transition EKCT1_ACK; bobSampleCt2
      else match m_data m with
           | Some data => if bool_decide (state s ∈ [Ct1Sampled; Ct1Acknowledged]) then receiveBob_Ek m data else M_ret tt
           | None => M_ret tt
           end
  | Ct1Ack => if bool_decide (state s = EkReceivedCt1Sampled) then do_ transition EKCT1_ACK; bobSampleCt2 else M_ret tt
  | _ => M_ret tt
  end)%st.

Definition receiveBob (m : MLKEMBraidMessage) : M Agent ReceiveResult := (
  let result := {| receiving_epoch := m_epoch m; rr_output_key := None |} in
  do s <- M_get;
  if m_epoch m <? epoch s then M_ret result
  else if bool_decide (state s = Ct2Sampled) && (m_epoch m =? epoch s + 1) then
    do_ transition BOB_NEW_EPOCH;
    do_ M_modify (fun s => let s := set_epoch (epoch s + 1) s in resetForNewEpoch (state s) s);
    M_ret result
  else if m_epoch m >? epoch s then M_throw (StateTransitionError "EPOCH_MISMATCH")
  else do_ receiveBob_body m; M_ret result)%st.

(** ** Send and Receive *)
Definition Send (ready : bool) (randomBytes : nat -> bytes) : M Agent SendResult := fun s =>
  if isInAliceRole s then sendAlice ready randomBytes s else sendBob ready randomBytes s.

Definition Receive (m : MLKEMBraidMessage) : M Agent ReceiveResult := fun s =>
  if isInAliceRole s then receiveAlice m s else receiveBob m s.
End Machine.
