(* ===== verification/BraidInv.v ===== *)
(** * Encoders and decoders held by the Braid state

    [enc_good data e]: the encoder state [e] emits the chunks of [data].
    [dec_good data d]: every chunk collected in [d] is a chunk of [data]. *)
From S2P Require Import Prelude Crypto GaloisField Lagrange ErasureCodec ErasureNewton ErasureProofs BraidState BraidAuth Braid.

Definition valid_data (data : bytes) : Prop := is_bytes data /\ 1 <= len data <= MAX_MESSAGE_SIZE.

(** The chunk of index [i]. *)
Definition chunk_at (data : bytes) (i : Z) : bytes := codeword (data_k data) data i.

Definition enc_good (data : bytes) (e : BraidEncoder) : Prop :=
  be_data e = data /\ 0 <= be_currentChunk e <= 65536 /\
  match be_encoder e with
  | Some p => encoder_ok (data_k data) data p /\ currentChunkIdx p = be_currentChunk e
  | None => True
  end.

Definition dec_good (data : bytes) (d : BraidDecoder) : Prop :=
  bd_messageSize d = len data /\ bd_requiredChunks d = chunks_of (len data) /\
  bd_receivedChunks d = len (bd_chunks d) /\
  NoDup (map fst (bd_chunks d)) /\
  Forall (fun ic => 0 <= ic.1 < 65536 /\ ic.2 = chunk_at data ic.1) (bd_chunks d).

Section Good.
Context (data : bytes) (Hv : valid_data data).

Lemma createEncoderState_ok : exists e, createEncoderState data = Ok e /\ enc_good data e /\ is_Some (be_encoder e) /\ be_currentChunk e = 0.
Proof.
  destruct Hv as [Hb Hl]. destruct (new_PolyEncoder_ok data Hl ∅) as (c & e & E & He & H0).
  unfold createEncoderState. rewrite E. cbn [mbind result_bind snd]. eexists. split; [done|].
  split; [|split; [by eexists|done]]. split; [done|]. cbn. split; [lia|]. done.
Qed.

Lemma restoreEncoder_ok ready e : enc_good data e ->
  let '(e', r) := restoreEncoder ready e in
  match r with
  | Ok p => enc_good data e' /\ be_currentChunk e' = be_currentChunk e /\ be_encoder e' = Some p
  | Throw _ => e' = e /\ ready = false /\ be_encoder e = None
  end.
Proof.
  destruct Hv as [Hb Hl]. intros (Hd & Hc & Hp). unfold restoreEncoder.
  destruct (be_encoder e) as [p|] eqn:Ep.
  - split; [|done]. split; [done|]. split; [done|]. by rewrite Ep.
  - rewrite Hd. destruct ready.
    + destruct (restore_ok data Hl ∅ (be_currentChunk e) Hc) as (c & p & E & Hi & Hok). rewrite E. cbn [snd].
      split; [|done]. split; [done|]. split; [done|]. done.
    + unfold restore, M_bind, M_lift. rewrite cursor_check, decide_True by done. unfold new_PolyEncoder.
      replace (len data =? 0) with false by lia. by replace (len data >? MAX_MESSAGE_SIZE) with false by lia.
Qed.

(** An encoder emits chunks of its data until it is exhausted. *)
Lemma getNext_ok ready e : enc_good data e ->
  let '(e', r) := getNextEncoderChunk ready e in
  enc_good data e' /\
  match r with
  | Ok (c, i) => i = be_currentChunk e /\ 0 <= i < 65536 /\ c = chunk_at data i /\ be_currentChunk e' = i + 1
  | Throw _ => be_currentChunk e = 65536 \/ (ready = false /\ be_encoder e = None)
  end.
Proof.
  intros He. pose proof (restoreEncoder_ok ready e He) as Hr. unfold getNextEncoderChunk, M_bind at 1.
  destruct (restoreEncoder ready e) as [e1 [p|x]]; [|destruct Hr as (-> & -> & ->); auto].
  destruct Hr as (He1 & Hcur & Hp). pose proof He1 as (Hd & Hc & Hok). rewrite Hp in Hok. destruct Hok as [Hok Hi].
  destruct Hv as [Hb Hl]. destruct (data_k_bounds data Hl) as (H1 & _ & _ & Hlen).
  unfold hasMoreChunks. change BRAID_CHUNK_POINT_COUNT with 65536. rewrite Hi.
  destruct (Z.ltb_spec (be_currentChunk e1) 65536); cbn [negb].
  - destruct (nextChunk_ok size16 (data_k data) H1 (k_le data Hl) data Hb Hlen p Hok) as (p' & -> & Hok' & Hi'); [lia|].
    unfold M_bind, M_get, M_modify, M_lift, M_ret. split; [|rewrite Hi, Hcur; split; [done|split; [lia|split; [done|cbn; lia]]]].
    split; [done|]. cbn. split; [lia|]. split; [done|]. lia.
  - split; [done|]. left. lia.
Qed.

Lemma createDecoderState_good : dec_good data (createDecoderState (len data)).
Proof. repeat split; constructor. Qed.

Lemma assert_index i : 0 <= i < 65536 -> assertBraidChunkIndex i = Ok i.
Proof.
  intros Hi. unfold assertBraidChunkIndex, isSafeInteger, MAX_SAFE_INTEGER, BRAID_CHUNK_INDEX_MAX, BRAID_CHUNK_POINT_COUNT.
  by replace (negb _ || _ || _) with false by lia.
Qed.

Lemma length_chunk_at i : len (chunk_at data i) = CHUNK_SIZE.
Proof. unfold len, chunk_at. by rewrite length_codeword. Qed.

Lemma addDecoderChunk_ok i d : dec_good data d -> 0 <= i < 65536 ->
  exists d', addDecoderChunk i (chunk_at data i) d = Ok d' /\ dec_good data d'.
Proof.
  intros (Hm & Hr & Hn & Hnd & Hf) Hi. unfold addDecoderChunk. rewrite assert_index by done. cbn [mbind result_bind].
  rewrite length_chunk_at. cbn [negb Z.eqb]. change (CHUNK_SIZE =? CHUNK_SIZE) with true. cbn [negb].
  destruct (assoc_get i (bd_chunks d)) as [c|] eqn:E.
  - apply assoc_get_Some in E. rewrite Forall_forall in Hf. destruct (Hf _ E) as [_ Hc]. cbn in Hc.
    unfold bytes_eqb. rewrite bool_decide_true by done. cbn [negb]. exists d. split; [done|].
    repeat split; try done. by apply Forall_forall.
  - apply assoc_get_None in E. eexists. split; [done|]. repeat split; try done; cbn [bd_chunks].
    + rewrite map_app. apply NoDup_app. split; [done|]. split; [|apply NoDup_singleton].
      intros j Hj Hj'. apply list_elem_of_singleton in Hj'. cbn in Hj'. by subst.
    + apply Forall_app. split; [done|]. apply Forall_singleton. done.
Qed.

Lemma fold_chunks l d0 : foldM_result (fun d kv => addChunk kv.1 kv.2 d) d0 l =
    foldM_result (fun d i => addChunk i (codeword (data_k data) data i) d) d0 (map fst l)
  \/ ~ Forall (fun ic => ic.2 = chunk_at data ic.1) l.
Proof.
  destruct (decide (Forall (fun ic => ic.2 = chunk_at data ic.1) l)) as [Hf|]; [left|by right].
  revert d0. induction Hf as [|[i c] l Hc _ IH]; intros d0; [done|]. cbn [map fst foldM_result].
  cbn in Hc. subst c. cbn [snd]. unfold chunk_at. destruct (addChunk _ _ _); cbn [mbind result_bind]; [apply IH|done].
Qed.

(** A complete decoder gives back the data. *)
Lemma decoded_ok d : dec_good data d -> isDecoderComplete d = true -> getDecodedMessage d = Ok data.
Proof.
  intros (Hm & Hr & Hn & Hnd & Hf) Hc. destruct Hv as [Hb Hl]. destruct (data_k_bounds data Hl) as (H1 & Hk & _ & Hlen).
  unfold isDecoderComplete in Hc. rewrite Hr in Hc. b2p.
  unfold getDecodedMessage. rewrite Hm. destruct (new_PolyDecoder_ok data Hl) as (d0 & -> & Hd0 & Hk0).
  cbn [mbind result_bind].
  assert (Hf' : Forall (fun ic => ic.2 = chunk_at data ic.1) (bd_chunks d)) by (eapply Forall_impl; [exact Hf|]; by intros ? []).
  destruct (fold_chunks (bd_chunks d) d0) as [->|]; [|done].
  destruct (addChunks_ok (data_k data) H1 data Hlen (map fst (bd_chunks d)) d0 Hd0) as (d' & -> & Hd' & Hk').
  { apply Forall_fmap. eapply Forall_impl; [exact Hf|]. by intros ? []. }
  cbn [mbind result_bind]. rewrite (message_ok size16 (data_k data) H1 (k_le data Hl) data Hb Hlen d' Hd').
  assert (Hlk : length (keys d') = length (bd_chunks d)).
  { rewrite <- (length_map fst (bd_chunks d)). apply Permutation_length, NoDup_Permutation; [apply Hd'|done|].
    intros i. rewrite Hk', Hk0, elem_of_nil. tauto. }
  rewrite Hlk.
  destruct (Nat.leb_spec (data_k data) (length (bd_chunks d))); [done|]. unfold len in *. lia.
Qed.
End Good.

(** ** One epoch of the Braid: what the two parties hold

    The values of an epoch are functions of the key pair [kg], the
    encapsulation [en] and the authenticator [a] that both parties have at its
    beginning. *)
Section Epoch.
Context {H : HashFunctions} {HL : HashLaws H} {K : MLKEM768} {KL : MLKEM768Laws K}.

Definition kg_ok (kg : KeyGenResult) : Prop := exists r, length r = 64%nat /\ KeyGen r = Ok kg.
Definition en_ok (kg : KeyGenResult) (en : Encaps1Result) : Prop :=
  exists m, length m = 32%nat /\ Encaps1 (kg_ek_seed kg) (kg_hek kg) m = Ok en.
Definition auth_ok (a : AuthenticatorState) : Prop := length (root_key a) = 32%nat.

Definition header_of (a : AuthenticatorState) (e : Z) (kg : KeyGenResult) : bytes :=
  let h := kg_ek_seed kg ++ kg_hek kg in h ++ MacHdr a e h.
Definition okey (e : Z) (en : Encaps1Result) : bytes :=
  hkdf (e1_shared_secret en) (replicate 32 0) (buildKdfInfo ":SCKA Key" e) 32.
Definition auth_after (a : AuthenticatorState) (e : Z) (key : bytes) : AuthenticatorState :=
  let derived := hkdf (root_key a ++ key) (replicate 32 0) (buildKdfInfo ":Authenticator Update" e) 64 in
  {| root_key := take 32 derived; mac_key := take 32 (drop 32 derived) |}.
Definition ct2_of (kg : KeyGenResult) (en : Encaps1Result) : bytes :=
  match Encaps2 (e1_encaps_secret en) (kg_ek_seed kg) (kg_ek_vector kg) with Ok c => c | Throw _ => [] end.
(** The authenticator once the key of the epoch is known. *)
Definition auth_next (a : AuthenticatorState) (e : Z) (en : Encaps1Result) : AuthenticatorState := auth_after a e (okey e en).
Definition ct2mac_of (a : AuthenticatorState) (e : Z) (kg : KeyGenResult) (en : Encaps1Result) : bytes :=
  ct2_of kg en ++ MacCt (auth_next a e en) e (e1_ct1 en ++ ct2_of kg en).

(** *** Sizes and validity *)
Lemma check_size_ok p b n : len b = n -> check_size p b n = Ok tt.
Proof. intros <-. unfold check_size. by rewrite Z.eqb_refl. Qed.

Lemma kg_facts kg : kg_ok kg -> len (kg_dk kg) = DK_SIZE /\ len (kg_ek_seed kg) = EK_SEED_SIZE /\
  len (kg_ek_vector kg) = EK_VECTOR_SIZE /\ is_bytes (kg_ek_seed kg) /\ is_bytes (kg_ek_vector kg) /\
  kg_hek kg = computeHek (kg_ek_seed kg) (kg_ek_vector kg) /\ len (kg_hek kg) = 32 /\ is_bytes (kg_hek kg).
Proof.
  intros (r & Hr & E). unfold KeyGen in E. rewrite check_size_ok in E by (unfold len; lia). cbn [mbind result_bind] in E.
  pose proof (mlkem_sizes r Hr) as Hs. destruct (mlkem_keygen r) as [[d s] v]. apply Ok_inj in E as <-. cbn.
  destruct Hs as (? & ? & ? & ? & ?). unfold computeHek, len. rewrite sha3_length. repeat (split; [done|]). apply sha3_bytes.
Qed.

Lemma en_facts kg en : kg_ok kg -> en_ok kg en ->
  len (e1_ct1 en) = CT1_DATA_SIZE /\ is_bytes (e1_ct1 en) /\ len (e1_shared_secret en) = 32 /\
  Encaps2 (e1_encaps_secret en) (kg_ek_seed kg) (kg_ek_vector kg) = Ok (ct2_of kg en) /\
  Decaps (kg_dk kg) (e1_ct1 en) (ct2_of kg en) = Ok (e1_shared_secret en) /\
  len (ct2_of kg en) = CT2_DATA_SIZE /\ is_bytes (ct2_of kg en).
Proof.
  intros Hkg (m & Hm & E). pose proof (kg_facts kg Hkg) as (Hd & Hs & Hv & _ & _ & Hh & Hhl & _).
  destruct Hkg as (r & Hr & Ek). pose proof (mlkem_correct r m Hr Hm) as Hc. unfold KeyGen in Ek.
  rewrite check_size_ok in Ek by (unfold len; lia). cbn [mbind result_bind] in Ek.
  destruct (mlkem_keygen r) as [[d s] v]. apply Ok_inj in Ek. subst kg. cbn [kg_dk kg_ek_seed kg_ek_vector kg_hek] in *.
  destruct Hc as (es & c1 & ss & c2 & H1 & H2 & H3 & L1 & L2 & L3 & B1 & B2).
  unfold Encaps1 in E. rewrite !check_size_ok in E by (done || (unfold len; lia)). cbn [mbind result_bind] in E.
  rewrite H1 in E. cbn [mbind result_bind] in E. apply Ok_inj in E. subst en.
  assert (E2 : Encaps2 es s v = Ok c2).
  { unfold Encaps2. rewrite !check_size_ok by done. cbn [mbind result_bind]. exact H2. }
  unfold ct2_of. cbn [e1_encaps_secret e1_ct1 e1_shared_secret kg_ek_seed kg_ek_vector]. rewrite E2.
  do 4 (split; [done|]). split; [|done]. unfold Decaps. by rewrite !check_size_ok by done.
Qed.

Lemma KDF_OK_ok kg en e : kg_ok kg -> en_ok kg en -> KDF_OK (e1_shared_secret en) e = Ok (okey e en).
Proof. intros Hk He. destruct (en_facts kg en Hk He) as (_ & _ & Hl & _). unfold KDF_OK. by rewrite Hl. Qed.

Lemma auth_Update_ok a e k : auth_ok a -> length k = 32%nat -> auth_Update a e k = Ok (auth_after a e k).
Proof. intros Ha Hk. unfold auth_Update, KDF_AUTH, len. by rewrite Ha, Hk. Qed.

Lemma auth_after_ok a e k : auth_ok (auth_after a e k).
Proof. unfold auth_ok, auth_after. cbn. rewrite length_take, hkdf_length. lia. Qed.

Lemma okey_length e en : length (okey e en) = 32%nat.
Proof. apply hkdf_length. Qed.

Lemma is_bytes_app a b : is_bytes a -> is_bytes b -> is_bytes (a ++ b).
Proof. intros. by apply Forall_app. Qed.

Lemma header_valid a e kg : kg_ok kg -> valid_data (header_of a e kg) /\ len (header_of a e kg) = HEADER_SIZE.
Proof.
  intros Hk. destruct (kg_facts kg Hk) as (_ & Hs & _ & Bs & _ & _ & Hh & Bh).
  assert (Hl : len (header_of a e kg) = HEADER_SIZE).
  { unfold header_of, MacHdr, HEADER_SIZE, EK_SEED_SIZE, MAC_SIZE in *. rewrite !len_app, Hs, Hh. unfold len. rewrite hmac_length. lia. }
  split; [split|done]; [repeat apply is_bytes_app; done || apply hmac_bytes|]. rewrite Hl. vm_compute. split; discriminate.
Qed.

Lemma vector_valid kg : kg_ok kg -> valid_data (kg_ek_vector kg) /\ len (kg_ek_vector kg) = EK_SIZE.
Proof.
  intros Hk. destruct (kg_facts kg Hk) as (_ & _ & Hv & _ & Bv & _). split; [split; [done|]|done]. rewrite Hv. vm_compute. split; discriminate.
Qed.

Lemma ct1_valid kg en : kg_ok kg -> en_ok kg en -> valid_data (e1_ct1 en) /\ len (e1_ct1 en) = CT1_SIZE.
Proof.
  intros Hk He. destruct (en_facts kg en Hk He) as (Hl & Hb & _). split; [split; [done|]|done]. rewrite Hl. vm_compute. split; discriminate.
Qed.

Lemma ct2mac_valid a e kg en : kg_ok kg -> en_ok kg en ->
  valid_data (ct2mac_of a e kg en) /\ len (ct2mac_of a e kg en) = CT2_SIZE.
Proof.
  intros Hk He. destruct (en_facts kg en Hk He) as (_ & _ & _ & _ & _ & Hl & Hb).
  assert (E : len (ct2mac_of a e kg en) = CT2_SIZE).
  { unfold ct2mac_of, MacCt. rewrite len_app, Hl. unfold len. rewrite hmac_length. done. }
  split; [split|done]; [apply is_bytes_app; [done|apply hmac_bytes]|]. rewrite E. vm_compute. split; discriminate.
Qed.
End Epoch.

(** ** The two parties during an epoch

    [alice_at] and [bob_at] say what the agent in each role holds in each of
    its states; each operation of the state machine keeps them and emits only
    the messages described by [alice_msg] and [bob_msg]. *)
Definition holds (data : bytes) (o : option BraidEncoder) : Prop := exists e, o = Some e /\ enc_good data e.
Definition collects (data : bytes) (o : option BraidDecoder) : Prop := exists d, o = Some d /\ dec_good data d.
Definition may_collect (data : bytes) (o : option BraidDecoder) : Prop := o = None \/ collects data o.

Definition is_chunk (data : bytes) (m : MLKEMBraidMessage) : Prop :=
  exists i, 0 <= i < 65536 /\ m_chunkIndex m = Some i /\ m_data m = Some (chunk_at data i).

(** Reads of updated states. *)
Ltac projs := cbn [state epoch auth dk ek_seed ek_vector hek encaps_secret ct1 ct2 ct1_for_mac ct1_decoded
  headerEncoder ekEncoder ct1Encoder ct2Encoder headerDecoder ekDecoder ct1Decoder ct2Decoder
  set_state set_epoch set_auth set_dk set_ek_seed set_ek_vector set_hek set_encaps_secret set_ct1 set_ct2
  set_ct1_for_mac set_ct1_decoded set_headerEncoder set_ekEncoder set_ct1Encoder set_ct2Encoder set_headerDecoder
  set_ekDecoder set_ct1Decoder set_ct2Decoder resetForNewEpoch] in *.

Section Roles.
Context {H : HashFunctions} {HL : HashLaws H} {K : MLKEM768} {KL : MLKEM768Laws K}.

(** ** What each role holds

    [used n s]: no encoder of [s] has emitted more than [n] chunks. *)
Definition cursor_le (n : Z) (o : option BraidEncoder) : Prop := forall e, o = Some e -> be_currentChunk e <= n.
Definition used (n : Z) (s : Agent) : Prop :=
  cursor_le n (headerEncoder s) /\ cursor_le n (ekEncoder s) /\ cursor_le n (ct1Encoder s) /\ cursor_le n (ct2Encoder s).

Definition alice_start (a : AuthenticatorState) (e : Z) (s : Agent) : Prop :=
  state s = KeysUnsampled /\ epoch s = e /\ auth s = a /\ ct1Decoder s = None /\ ct2Decoder s = None /\
  used 0 s.

Definition alice_at (a : AuthenticatorState) (e : Z) (kg : KeyGenResult) (oen : option Encaps1Result) (s : Agent) : Prop :=
  epoch s = e /\ auth s = a /\ dk s = Some (kg_dk kg) /\
  holds (header_of a e kg) (headerEncoder s) /\ holds (kg_ek_vector kg) (ekEncoder s) /\
  match state s with
  | KeysSampled => ct1Decoder s = None /\ ct2Decoder s = None
  | HeaderSent => exists en, oen = Some en /\ collects (e1_ct1 en) (ct1Decoder s) /\ ct2Decoder s = None
  | Ct1Received => exists en, oen = Some en /\ ct1_decoded s = Some (e1_ct1 en) /\ ct2Decoder s = None
  | EkSentCt1Received => exists en, oen = Some en /\ ct1_decoded s = Some (e1_ct1 en) /\
                           collects (ct2mac_of a e kg en) (ct2Decoder s)
  | _ => False
  end.

Definition bob_start (a : AuthenticatorState) (e : Z) (s : Agent) : Prop :=
  state s = NoHeaderReceived /\ epoch s = e /\ auth s = a /\ headerDecoder s = Some (createDecoderState HEADER_SIZE) /\
  ekDecoder s = None /\ used 0 s.

Definition bob_at (a : AuthenticatorState) (e : Z) (kg : KeyGenResult) (oen : option Encaps1Result) (s : Agent) : Prop :=
  epoch s = e /\
  match state s with
  | NoHeaderReceived => oen = None /\ auth s = a /\ collects (header_of a e kg) (headerDecoder s) /\ ekDecoder s = None
  | HeaderReceived => oen = None /\ auth s = a /\ ek_seed s = Some (kg_ek_seed kg) /\ hek s = Some (kg_hek kg) /\
                      ekDecoder s = None
  | Ct1Sampled | Ct1Acknowledged => exists en, oen = Some en /\ auth s = auth_next a e en /\
      ek_seed s = Some (kg_ek_seed kg) /\ hek s = Some (kg_hek kg) /\
      encaps_secret s = Some (e1_encaps_secret en) /\ ct1_for_mac s = Some (e1_ct1 en) /\
      holds (e1_ct1 en) (ct1Encoder s) /\ may_collect (kg_ek_vector kg) (ekDecoder s)
  | EkReceivedCt1Sampled => exists en, oen = Some en /\ auth s = auth_next a e en /\
      ek_seed s = Some (kg_ek_seed kg) /\ ek_vector s = Some (kg_ek_vector kg) /\
      encaps_secret s = Some (e1_encaps_secret en) /\ ct1_for_mac s = Some (e1_ct1 en) /\
      holds (e1_ct1 en) (ct1Encoder s)
  | Ct2Sampled => exists en, oen = Some en /\ auth s = auth_next a e en /\ holds (ct2mac_of a e kg en) (ct2Encoder s)
  | _ => False
  end.

(** ** What each role sends

    [p] and [q] are the present states of the senders. *)
Definition acked (p : MLKEMBraidState) : Prop := p = Ct1Received \/ p = EkSentCt1Received.

Definition alice_msg (a : AuthenticatorState) (e : Z) (kg : KeyGenResult) (p : MLKEMBraidState) (m : MLKEMBraidMessage) : Prop :=
  m_epoch m < e \/ (m_epoch m = e /\
    match m_type m with
    | Hdr => is_chunk (header_of a e kg) m
    | Ek => is_chunk (kg_ek_vector kg) m
    | EkCt1Ack => acked p /\ is_chunk (kg_ek_vector kg) m
    | Ct1Ack => acked p
    | _ => False
    end).

Definition bob_msg (a : AuthenticatorState) (e : Z) (kg : KeyGenResult) (oen : option Encaps1Result)
    (q : MLKEMBraidState) (m : MLKEMBraidMessage) : Prop :=
  m_epoch m < e \/ (m_epoch m = e /\
    match m_type m with
    | NoneMsg => True
    | Ct1 => exists en, oen = Some en /\ is_chunk (e1_ct1 en) m
    | Ct2 => exists en, oen = Some en /\ q = Ct2Sampled /\ is_chunk (ct2mac_of a e kg en) m
    | _ => False
    end).

(** *** Sending a chunk of an encoder *)
Lemma next_chunk_ok data ready get set missing (s : Agent) : valid_data data -> holds data (get s) ->
  exists e' r, next_chunk ready get set missing s = (set (Some e') s, r) /\ enc_good data e' /\
    match r with
    | Ok c => 0 <= c.2 < 65536 /\ c.1 = chunk_at data c.2 /\
              forall e, get s = Some e -> c.2 = be_currentChunk e /\ be_currentChunk e' = be_currentChunk e + 1
    | Throw _ => forall e, get s = Some e -> be_currentChunk e = 65536 \/ (ready = false /\ be_encoder e = None)
    end.
Proof.
  intros Hv (e & Hg & He). unfold next_chunk. rewrite Hg. pose proof (getNext_ok data Hv ready e He) as Hn.
  destruct (getNextEncoderChunk ready e) as [e' r]. destruct Hn as [He' Hr]. exists e', r. split; [done|]. split; [done|].
  destruct r as [[c i]|x]; [|by intros e2 [= <-]]. destruct Hr as (Hi & Hlt & Hc & Hn). do 2 (split; [done|]).
  intros e2 [= <-]. cbn. lia.
Qed.

Lemma chunk_message_ok data type c (s : Agent) : 0 <= c.2 < 65536 -> c.1 = chunk_at data c.2 ->
  is_chunk data (chunk_message type c s).
Proof. intros Hi Hc. exists c.2. cbn. by rewrite Hc. Qed.

(** A send that gives one chunk of [data], or nothing. *)
Lemma send_chunk_ok data ready get set missing type (s : Agent) : valid_data data -> holds data (get s) ->
  exists e' r, (do c <- next_chunk ready get set missing; do s <- M_get;
    M_ret (send_result (chunk_message type c s) None s))%st s = (set (Some e') s, r) /\ enc_good data e' /\
    match r with
    | Ok sr => sr_output_key sr = None /\ m_epoch (sr_message sr) = epoch (set (Some e') s) /\
               m_type (sr_message sr) = type /\ is_chunk data (sr_message sr) /\
               forall e, get s = Some e ->
                 m_chunkIndex (sr_message sr) = Some (be_currentChunk e) /\ be_currentChunk e' = be_currentChunk e + 1
    | Throw _ => forall e, get s = Some e -> be_currentChunk e = 65536 \/ (ready = false /\ be_encoder e = None)
    end.
Proof.
  intros Hv Hh. destruct (next_chunk_ok data ready get set missing s Hv Hh) as (e' & r & E & He & Hr).
  unfold M_bind at 1. rewrite E. destruct r as [c|x]; [|by exists e', (Throw x)].
  eexists e', _. split; [done|]. split; [done|]. do 3 (split; [done|]). destruct Hr as (Hi & Hc & Hn).
  split; [by apply chunk_message_ok|]. intros e Hg. destruct (Hn e Hg) as [<- ?]. done.
Qed.

Lemma holds_Some data e : enc_good data e -> holds data (Some e).
Proof. intros He. by exists e. Qed.


(** *** Receiving a chunk *)
Lemma add_message_chunk_ok data m c d : valid_data data -> dec_good data d -> is_chunk data m -> m_data m = Some c ->
  exists d', add_message_chunk m c d = Ok d' /\ dec_good data d'.
Proof.
  intros Hv Hd (i & Hi & Hci & Hmd) Hc. rewrite Hmd in Hc. injection Hc as <-. unfold add_message_chunk.
  rewrite Hci. by apply addDecoderChunk_ok.
Qed.

(** What a reception that completes nothing adds to a decoder. *)
Definition idxs (d : BraidDecoder) : list Z := map fst (bd_chunks d).

Definition gained (m : MLKEMBraidMessage) (o o' : option BraidDecoder) : Prop :=
  exists i d', m_chunkIndex m = Some i /\ o' = Some d' /\ isDecoderComplete d' = false /\ i ∈ idxs d' /\
    forall d, o = Some d -> idxs d ⊆ idxs d'.

Lemma addDecoderChunk_idxs i c d d' : addDecoderChunk i c d = Ok d' -> i ∈ idxs d' /\ idxs d ⊆ idxs d'.
Proof.
  unfold addDecoderChunk, assertBraidChunkIndex. destruct (_ || _); [done|]. cbn [mbind result_bind].
  destruct (negb (len c =? CHUNK_SIZE)); [done|].
  destruct (assoc_get i (bd_chunks d)) as [x|] eqn:E.
  - destruct (negb _); [done|]. intros [= <-]. split; [|done]. apply assoc_get_Some in E.
    apply list_elem_of_fmap. by exists (i, x).
  - intros [= <-]. unfold idxs. cbn [bd_chunks]. rewrite map_app. split; [|by apply list_subseteq_app_l].
    apply elem_of_app. right. by apply list_elem_of_singleton.
Qed.

Lemma gained_add data m c o x d' : is_chunk data m -> add_message_chunk m c (default x o) = Ok d' ->
  isDecoderComplete d' = false -> gained m o (Some d').
Proof.
  intros (i & _ & Hi & _) Ha Hc. unfold add_message_chunk in Ha. rewrite Hi in Ha. apply addDecoderChunk_idxs in Ha as [H1 H2].
  exists i, d'. do 4 (split; [done|]). by intros d ->.
Qed.

Lemma may_collect_default data o : may_collect data o -> dec_good data (default (createDecoderState (len data)) o).
Proof. intros [->|(d & -> & Hd)]; [apply createDecoderState_good|done]. Qed.

Lemma transition_ok ev s n : STATE_TRANSITIONS (state s) ev = Some n -> transition ev s = (set_state n s, Ok tt).
Proof. intros E. unfold transition. by rewrite E. Qed.

Lemma take_app_len {A} (x y : list A) n : length x = n -> take n (x ++ y) = x /\ drop n (x ++ y) = y.
Proof. intros <-. by rewrite take_app_length, drop_app_length. Qed.

Lemma candidate_Ok {S A} (m : M S A) s s' a : m s = (s', Ok a) -> candidate m s = (s', Ok a).
Proof. intros E. unfold candidate. by rewrite E. Qed.

(** The source of random bytes has the documented lengths. *)
Definition good_random (randomBytes : nat -> bytes) : Prop := forall n, length (randomBytes n) = n.

End Roles.
