(* ===== verification/BraidSides.v ===== *)
(** * What the key generator and the encapsulator of the Braid do in an epoch *)
From S2P Require Import Prelude Crypto GaloisField Lagrange ErasureCodec ErasureProofs BraidState BraidAuth Braid BraidInv.

(** ** The key generator's operations during an epoch *)
Section Alice.
Context {H : HashFunctions} {HL : HashLaws H} {K : MLKEM768} {KL : MLKEM768Laws K}.

Lemma alice_role s : state s ∈ ALICE_STATES -> isInAliceRole s = true.
Proof. intros Hs. unfold isInAliceRole. by apply bool_decide_true. Qed.

Lemma alice_at_role a e kg oen s : alice_at a e kg oen s -> isInAliceRole s = true.
Proof. intros (_ & _ & _ & _ & _ & Hs). apply alice_role. destruct (state s); try done; unfold ALICE_STATES; set_solver. Qed.

(** The first send of the epoch samples the key pair. *)
Lemma alice_first_send a e ready rb s : alice_start a e s -> good_random rb ->
  exists kg s' sr, kg_ok kg /\ Send ready rb s = (s', Ok sr) /\ alice_at a e kg None s' /\ state s' = KeysSampled /\
    sr_output_key sr = None /\ alice_msg a e kg KeysSampled (sr_message sr).
Proof.
  intros (Hst & He & Ha & Hc1 & Hc2 & _) Hrb. unfold Send. rewrite alice_role by (rewrite Hst; unfold ALICE_STATES; set_solver).
  assert (Hkg : exists kg, KeyGen (rb 64%nat) = Ok kg).
  { unfold KeyGen. rewrite check_size_ok by (unfold len; by rewrite Hrb). cbn [mbind result_bind].
    destruct (mlkem_keygen _) as [[d x] v]. by eexists. }
  destruct Hkg as [kg Hkg]. assert (Hok : kg_ok kg) by (exists (rb 64%nat); split; [apply Hrb|done]).
  destruct (createEncoderState_ok (header_of a e kg)) as (he & Ehe & Ghe & [ph Hph] & Chh); [by apply header_valid|].
  destruct (createEncoderState_ok (kg_ek_vector kg)) as (ee & Eee & Gee & _); [by apply vector_valid|].
  unfold sendAlice, M_bind at 1, M_get. rewrite Hst. unfold aliceSendFromKeysUnsampled.
  erewrite M_bind_Ok by (unfold M_lift; by rewrite Hkg). erewrite M_bind_Ok by reflexivity.
  erewrite M_bind_Ok by reflexivity. projs. rewrite Ha, He. fold (header_of a e kg).
  erewrite M_bind_Ok by (unfold M_lift; by rewrite Ehe). erewrite M_bind_Ok by reflexivity.
  erewrite M_bind_Ok by (unfold M_lift; by rewrite Eee). erewrite M_bind_Ok by reflexivity.
  set (s1 := set_ekEncoder _ _).
  rewrite (M_bind_Ok _ _ s1 (set_state KeysSampled s1) tt) by (unfold transition, s1; projs; by rewrite Hst).
  set (s2 := set_state KeysSampled s1).
  destruct (send_chunk_ok (header_of a e kg) ready headerEncoder set_headerEncoder (Error "No header encoder") Hdr s2)
    as (e' & r & E & Ge & Hr); [by apply header_valid|by apply holds_Some|].
  exists kg, (set_headerEncoder (Some e') s2). unfold aliceSendHeaderChunk. rewrite E.
  destruct r as [sr|x].
  2:{ exfalso. destruct (Hr he eq_refl) as [Hx|Hx]; [rewrite Chh in Hx; lia|destruct Hx; congruence]. }
  exists sr. destruct Hr as (Ho & Hme & Hty & Hch & _). split; [done|]. split; [done|]. split; [|split; [done|split; [done|]]].
  - unfold alice_at, s2, s1. projs. do 3 (split; [done|]).
    split; [by apply holds_Some|]. split; [by apply holds_Some|]. done.
  - right. split; [by rewrite Hme|]. by rewrite Hty.
Qed.

Lemma alice_send a e kg oen ready rb s : kg_ok kg -> alice_at a e kg oen s ->
  exists s' r, Send ready rb s = (s', r) /\ alice_at a e kg oen s' /\ state s' = state s /\
    match r with Ok sr => sr_output_key sr = None /\ alice_msg a e kg (state s) (sr_message sr) | Throw _ => True end.
Proof.
  intros Hk Hs. pose proof (alice_at_role _ _ _ _ _ Hs) as Hrole. unfold Send. rewrite Hrole.
  destruct Hs as (He & Ha & Hdk & Hh & Hek & Hst). unfold sendAlice, M_bind at 1, M_get.
  destruct (state s) eqn:Es; try done.
  - destruct (send_chunk_ok (header_of a e kg) ready headerEncoder set_headerEncoder (Error "No header encoder") Hdr s)
      as (e' & r & E & Ge & Hr); [by apply header_valid|done|].
    exists (set_headerEncoder (Some e') s), r. unfold aliceSendHeaderChunk. split; [done|]. split.
    + unfold alice_at. projs. rewrite Es. do 3 (split; [done|]). split; [by apply holds_Some|]. done.
    + split; [exact Es|]. destruct r as [sr|]; [|done]. destruct Hr as (Ho & Hme & Hty & Hch & _). split; [done|]. right. rewrite Hty. split; [by rewrite Hme|done].
  - destruct (send_chunk_ok (kg_ek_vector kg) ready ekEncoder set_ekEncoder (Error "No ek encoder") Ek s)
      as (e' & r & E & Ge & Hr); [by apply vector_valid|done|].
    exists (set_ekEncoder (Some e') s), r. unfold aliceSendEkChunk. split; [done|]. split.
    + unfold alice_at. projs. rewrite Es. do 4 (split; [done|]). split; [by apply holds_Some|]. done.
    + split; [exact Es|]. destruct r as [sr|]; [|done]. destruct Hr as (Ho & Hme & Hty & Hch & _). split; [done|]. right. rewrite Hty. split; [by rewrite Hme|done].
  - destruct (send_chunk_ok (kg_ek_vector kg) ready ekEncoder set_ekEncoder (Error "No ek encoder") EkCt1Ack s)
      as (e' & r & E & Ge & Hr); [by apply vector_valid|done|].
    exists (set_ekEncoder (Some e') s), r. unfold aliceSendEkChunk. split; [done|]. split.
    + unfold alice_at. projs. rewrite Es. do 4 (split; [done|]). split; [by apply holds_Some|]. done.
    + split; [exact Es|]. destruct r as [sr|]; [|done]. destruct Hr as (Ho & Hme & Hty & Hch & _). split; [done|]. right. rewrite Hty. split; [by rewrite Hme|]. split; [by left|done].
  - eexists s, _. split; [done|]. split; [unfold alice_at; by rewrite Es|]. split; [done|]. split; [done|]. right. split; [done|]. by right.
Qed.
(** *** Receiving *)
Lemma receive_ct1_ok a e kg en m c s : kg_ok kg -> en_ok kg en -> alice_at a e kg (Some en) s ->
  state s = KeysSampled \/ state s = HeaderSent -> is_chunk (e1_ct1 en) m -> m_data m = Some c ->
  exists s', receiveAlice_Ct1 m c s = (s', Ok tt) /\ alice_at a e kg (Some en) s' /\
    (state s' = Ct1Received \/ (state s' = HeaderSent /\ gained m (ct1Decoder s) (ct1Decoder s'))).
Proof.
  intros Hk Hen (He & Ha & Hdk & Hh & Hek & Hst) Hor Hch Hc.
  destruct (ct1_valid kg en Hk Hen) as [Hv Hl].
  (* the decoder the chunk is added to *)
  assert (Hdec : exists d, dec_good (e1_ct1 en) d /\ d = default (createDecoderState CT1_SIZE) (ct1Decoder s) /\ (match ct1Decoder s with
      | None => M_modify (set_ct1Decoder (Some (createDecoderState CT1_SIZE)))
      | Some _ => M_ret tt end) s = (set_ct1Decoder (Some d) s, Ok tt)).
  { rewrite <- Hl. destruct Hor as [Es|Es]; rewrite Es in Hst.
    - destruct Hst as [Hd _]. eexists. split; [apply createDecoderState_good|]. by rewrite Hd, Hl.
    - destruct Hst as (en' & [= <-] & (d & Hd & Gd) & _). exists d. split; [done|]. rewrite Hd. split; [done|].
      unfold M_ret. f_equal. destruct s; cbn in *. by subst. }
  destruct Hdec as (d & Gd & Edef & E). destruct (add_message_chunk_ok (e1_ct1 en) m c d Hv Gd Hch Hc) as (d' & Ed & Gd').
  unfold receiveAlice_Ct1. erewrite M_bind_Ok by reflexivity. cbn beta zeta.
  rewrite (M_bind_Ok _ _ s (set_ct1Decoder (Some d) s) tt E). erewrite M_bind_Ok by reflexivity.
  projs. erewrite M_bind_Ok by reflexivity. erewrite M_bind_Ok by (unfold M_lift; by rewrite Ed).
  erewrite M_bind_Ok by reflexivity.
  set (s2 := set_ct1Decoder (Some d') _).
  set (s3 := set_state HeaderSent s2).
  assert (H3 : (if bool_decide (state s = KeysSampled) then transition RECEIVE_CT1 else M_ret tt) s2 = (s3, Ok tt)).
  { destruct Hor as [Es|Es]; rewrite Es; cbn [bool_decide]; [rewrite bool_decide_true by done|rewrite bool_decide_false by done].
    - apply transition_ok. unfold s2. projs. by rewrite Es.
    - unfold M_ret, s3, s2. f_equal. destruct s; cbn in *. by subst. }
  rewrite (M_bind_Ok _ _ s2 s3 tt H3).
  assert (Hs3 : alice_at a e kg (Some en) s3).
  { unfold alice_at, s3, s2. projs. do 5 (split; [done|]). exists en. split; [done|]. split; [by exists d'|].
    destruct Hor as [Es|Es]; rewrite Es in Hst; [by destruct Hst|by destruct Hst as (? & _ & _ & ?)]. }
  destruct (isDecoderComplete d') eqn:Ecomp.
  2:{ exists s3. split; [done|]. split; [done|]. right. split; [done|]. rewrite Edef in Ed. by eapply gained_add. }
  rewrite (M_bind_Ok _ _ s3 s3 (e1_ct1 en)) by (unfold M_lift; by rewrite (decoded_ok (e1_ct1 en) Hv d' Gd' Ecomp)).
  erewrite M_bind_Ok by reflexivity.
  eexists. split; [by apply transition_ok|]. destruct Hs3 as (? & ? & ? & ? & ? & en' & _ & _ & Hn).
  split; [|by left]. unfold alice_at. projs. do 5 (split; [done|]). exists en. done.
Qed.
Lemma ct2mac_split a e kg en : kg_ok kg -> en_ok kg en ->
  take (Z.to_nat CT2_DATA_SIZE) (ct2mac_of a e kg en) = ct2_of kg en /\
  drop (Z.to_nat CT2_DATA_SIZE) (ct2mac_of a e kg en) = MacCt (auth_next a e en) e (e1_ct1 en ++ ct2_of kg en).
Proof.
  intros Hk Hen. destruct (en_facts kg en Hk Hen) as (_ & _ & _ & _ & _ & Hl & _). apply take_app_len.
  unfold len, CT2_DATA_SIZE in *. lia.
Qed.

(** The chunk that completes the second ciphertext ends the epoch. *)
Lemma receive_ct2_ok a e kg en m c s : kg_ok kg -> en_ok kg en -> auth_ok a -> alice_at a e kg (Some en) s -> m_epoch m = e ->
  state s = Ct1Received \/ state s = EkSentCt1Received -> is_chunk (ct2mac_of a e kg en) m -> m_data m = Some c ->
  exists s' k, receiveAlice_Ct2 m c s = (s', Ok k) /\
    ((k = None /\ alice_at a e kg (Some en) s' /\ state s' = EkSentCt1Received /\ gained m (ct2Decoder s) (ct2Decoder s')) \/
     (k = Some {| ok_epoch := e; epoch_secret := okey e en |} /\ bob_start (auth_next a e en) (e + 1) s')).
Proof.
  intros Hk Hen Hau (He & Ha & Hdk & Hh & Hek & Hst) Hme Hor Hch Hc.
  destruct (ct2mac_valid a e kg en Hk Hen) as [Hv Hl].
  assert (Hmay : may_collect (ct2mac_of a e kg en) (ct2Decoder s) /\ ct1_decoded s = Some (e1_ct1 en)).
  { destruct Hor as [Es|Es]; rewrite Es in Hst; destruct Hst as (en' & [= <-] & ? & ?); (split; [|done]); [by left|by right]. }
  destruct Hmay as [Hmay Hdec].
  pose proof (may_collect_default _ _ Hmay) as Gd. rewrite Hl in Gd.
  destruct (add_message_chunk_ok _ m c _ Hv Gd Hch Hc) as (d & Ed & Gd').
  set (s2 := set_ct2Decoder (Some d) s). set (s3 := set_state EkSentCt1Received s2).
  assert (H3 : (if bool_decide (state s = Ct1Received) then transition RECEIVE_CT2 else M_ret tt) s2 = (s3, Ok tt)).
  { destruct Hor as [Es|Es]; rewrite Es; [rewrite bool_decide_true by done|rewrite bool_decide_false by done].
    - apply transition_ok. unfold s2. projs. by rewrite Es.
    - unfold M_ret, s3, s2. f_equal. destruct s; cbn in *. by subst. }
  assert (Hs3 : alice_at a e kg (Some en) s3).
  { unfold alice_at, s3, s2. projs. do 5 (split; [done|]). exists en. split; [done|]. split; [done|by exists d]. }
  assert (Hrun : forall s' k, (if isDecoderComplete d && bool_decide (state s3 = EkSentCt1Received) then
    (do c1 <- present (Error "CT1 not decoded - state corruption") (ct1_decoded s3);
    do ct2Data <- M_lift (getDecodedMessage d);
    let c2 := take (Z.to_nat CT2_DATA_SIZE) ct2Data in
    let combinedMac := drop (Z.to_nat CT2_DATA_SIZE) ct2Data in
    let combined := c1 ++ c2 in
    do key <- present TypeError (dk s3);
    do shared_secret <- M_lift (Decaps key c1 c2);
    do outputKeyBytes <- M_lift (KDF_OK shared_secret (epoch s3));
    do a <- M_lift (auth_Update (auth s3) (epoch s3) outputKeyBytes);
    do_ M_modify (set_auth a);
    do_ M_lift (VfyCt a (m_epoch m) combined combinedMac);
    do_ transition CT2_COMPLETE;
    do_ M_modify (fun s => let s := set_epoch (epoch s + 1) s in resetForNewEpoch (state s) s);
    M_ret (Some {| ok_epoch := epoch s3; epoch_secret := outputKeyBytes |}))%st
    else M_ret None) s3 = (s', Ok k) -> receiveAlice_Ct2 m c s = (s', Ok k)).
  { intros s' k Hr. apply candidate_Ok. erewrite M_bind_Ok by reflexivity. cbn beta zeta.
    erewrite M_bind_Ok by (unfold M_lift; by rewrite Ed). erewrite M_bind_Ok by reflexivity.
    fold s2. rewrite (M_bind_Ok _ _ s2 s3 tt H3). erewrite M_bind_Ok by reflexivity. exact Hr. }
  rewrite bool_decide_true in Hrun by done. rewrite andb_true_r in Hrun.
  destruct (isDecoderComplete d) eqn:Ecomp; [|exists s3, None; split; [by apply Hrun|left; do 3 (split; [done|]); by eapply gained_add]].
  destruct (ct2mac_split a e kg en Hk Hen) as [Ht Hd]. destruct (en_facts kg en Hk Hen) as (_ & _ & _ & _ & Hdecaps & _).
  eexists _, _. split; [apply Hrun; clear Hrun|right].
  - unfold s3 at 1 2 3 4 5 6. unfold s2 at 1 2 3 4 5 6. projs. rewrite Hdec, Hdk, Ha, He.
    erewrite M_bind_Ok by reflexivity.
    erewrite M_bind_Ok by (unfold M_lift; by rewrite (decoded_ok (ct2mac_of a e kg en) Hv d Gd' Ecomp)).
    cbn zeta. rewrite Ht, Hd. erewrite M_bind_Ok by reflexivity.
    erewrite M_bind_Ok by (unfold M_lift; by rewrite Hdecaps).
    erewrite M_bind_Ok by (unfold M_lift; by rewrite (KDF_OK_ok kg en e Hk Hen)).
    erewrite M_bind_Ok by (unfold M_lift; by rewrite (auth_Update_ok a e (okey e en) Hau (okey_length e en))).
    erewrite M_bind_Ok by reflexivity. fold (auth_next a e en).
    erewrite M_bind_Ok by (unfold M_lift, VfyCt, bytes_eqb; rewrite Hme, bool_decide_true by done; reflexivity).
    erewrite M_bind_Ok by (apply transition_ok; reflexivity). erewrite M_bind_Ok by reflexivity. reflexivity.
  - split; [done|]. unfold bob_start, s3, s2. projs. rewrite He. done.
Qed.

Lemma two_states (p q x : MLKEMBraidState) : x ∈ [p; q] -> x = p \/ x = q.
Proof. rewrite elem_of_cons, list_elem_of_singleton. done. Qed.

(** What a reception does for the progress of the epoch. *)
Definition alice_progress (m : MLKEMBraidMessage) (s s' : Agent) : Prop :=
  m_epoch m = epoch s ->
  match m_type m, state s with
  | Ct1, (KeysSampled | HeaderSent) =>
      state s' = Ct1Received \/ (state s' = HeaderSent /\ gained m (ct1Decoder s) (ct1Decoder s'))
  | Ct2, (Ct1Received | EkSentCt1Received) => state s' = EkSentCt1Received /\ gained m (ct2Decoder s) (ct2Decoder s')
  | _, _ => True
  end.

(** Everything the peer sends is accepted. *)
Lemma alice_receive a e kg oen q m s : kg_ok kg -> (forall en, oen = Some en -> en_ok kg en) -> auth_ok a ->
  alice_at a e kg oen s -> bob_msg a e kg oen q m ->
  exists s' rr, Receive m s = (s', Ok rr) /\
    ((rr_output_key rr = None /\ alice_at a e kg oen s' /\ (acked (state s) -> acked (state s')) /\
        (state s' = EkSentCt1Received -> state s = EkSentCt1Received \/ q = Ct2Sampled) /\ alice_progress m s s') \/
     (exists en, oen = Some en /\ q = Ct2Sampled /\ rr_output_key rr = Some {| ok_epoch := e; epoch_secret := okey e en |} /\
        bob_start (auth_next a e en) (e + 1) s')).
Proof.
  intros Hk Hen Hau Hs Hm. pose proof (alice_at_role _ _ _ _ _ Hs) as Hrole. unfold Receive. rewrite Hrole.
  pose proof Hs as (He & _). unfold receiveAlice. erewrite M_bind_Ok by reflexivity. rewrite He.
  set (good := fun s' (rr : ReceiveResult) => (rr_output_key rr = None /\ alice_at a e kg oen s' /\ (acked (state s) -> acked (state s')) /\
        (state s' = EkSentCt1Received -> state s = EkSentCt1Received \/ q = Ct2Sampled) /\ alice_progress m s s') \/
     (exists en, oen = Some en /\ q = Ct2Sampled /\ rr_output_key rr = Some {| ok_epoch := e; epoch_secret := okey e en |} /\
        bob_start (auth_next a e en) (e + 1) s')).
  assert (Hidle : alice_progress m s s -> forall ep, exists s' rr, M_ret {| receiving_epoch := ep; rr_output_key := None |} s = (s', Ok rr) /\ good s' rr).
  { intros Hp ep. eexists s, _. split; [reflexivity|]. left. do 2 (split; [done|]). split; [done|]. split; [by left|done]. }
  destruct Hm as [Hlt|[Heq Hm]].
  { rewrite (proj2 (Z.ltb_lt _ _) Hlt). apply Hidle. intros E. lia. }
  rewrite (proj2 (Z.ltb_ge _ _)) by lia. replace (m_epoch m >? e) with false by lia.
  destruct (m_type m) eqn:Et; try done.
  - apply Hidle. intros _. by rewrite Et.
  - destruct Hm as (en & -> & Hch). pose proof Hch as (i & _ & _ & Hd). rewrite Hd.
    case_bool_decide as Hin.
    2:{ apply Hidle. intros _. rewrite Et. destruct (state s) eqn:Es; try done; exfalso; apply Hin; rewrite elem_of_cons, list_elem_of_singleton; auto. }
    apply two_states in Hin.
    destruct (receive_ct1_ok a e kg en m (chunk_at (e1_ct1 en) i) s Hk (Hen _ eq_refl) Hs Hin Hch Hd) as (s' & E & Hs' & Hpr).
    rewrite (M_bind_Ok _ _ s s' tt E). eexists _, _. split; [reflexivity|]. left. do 2 (split; [done|]). split; [|split].
    + intros Hack. exfalso. destruct Hin, Hack; congruence.
    + intros Es. destruct Hpr as [?|[? _]]; congruence.
    + intros _. rewrite Et. destruct Hin as [-> | ->]; exact Hpr.
  - destruct Hm as (en & -> & Hq & Hch). pose proof Hch as (i & _ & _ & Hd). rewrite Hd.
    case_bool_decide as Hin.
    2:{ apply Hidle. intros _. rewrite Et. destruct (state s) eqn:Es; try done; exfalso; apply Hin; rewrite elem_of_cons, list_elem_of_singleton; auto. }
    apply two_states in Hin.
    destruct (receive_ct2_ok a e kg en m (chunk_at (ct2mac_of a e kg en) i) s Hk (Hen _ eq_refl) Hau Hs Heq Hin Hch Hd) as (s' & k & E & Hs').
    rewrite (M_bind_Ok _ _ s s' k E). eexists _, _. split; [reflexivity|]. unfold good. cbn [rr_output_key].
    destruct Hs' as [(-> & Hs' & Es' & Hg)|[-> ?]]; [left|right; by exists en].
    do 2 (split; [done|]). split; [by right|]. split; [auto|]. intros _. rewrite Et. destruct Hin as [-> | ->]; by split.
Qed.
End Alice.

(** ** The encapsulator's operations during an epoch *)
Section Bob.
Context {H : HashFunctions} {HL : HashLaws H} {K : MLKEM768} {KL : MLKEM768Laws K}.

Lemma bob_role s : state s ∈ BOB_STATES -> isInAliceRole s = false.
Proof.
  intros Hs. unfold isInAliceRole. destruct (state s); try done; exfalso; revert Hs; unfold BOB_STATES;
    rewrite !elem_of_cons, elem_of_nil; intuition discriminate.
Qed.

(** States the encapsulator enters after an acknowledgment. *)
Definition past_ack (q : MLKEMBraidState) : Prop := q = Ct1Acknowledged \/ q = Ct2Sampled.

Lemma bob_at_role a e kg oen s : bob_at a e kg oen s -> isInAliceRole s = false.
Proof. intros (_ & Hs). apply bob_role. destruct (state s); try done; unfold BOB_STATES; set_solver. Qed.

Lemma bob_start_at a e kg s : kg_ok kg -> bob_start a e s -> bob_at a e kg None s.
Proof.
  intros Hk (Hst & He & Ha & Hd & Hek & _). split; [done|]. rewrite Hst. do 2 (split; [done|]). split; [|done].
  destruct (header_valid a e kg Hk) as [_ Hl]. eexists. split; [exact Hd|]. rewrite <- Hl. apply createDecoderState_good.
Qed.

(** *** Sending *)
Lemma bob_sample_ct1 a e kg ready rb s : kg_ok kg -> auth_ok a -> good_random rb -> bob_at a e kg None s ->
  state s = HeaderReceived ->
  exists en s' sr, Send ready rb s = (s', Ok sr) /\ en_ok kg en /\ bob_at a e kg (Some en) s' /\
    sr_output_key sr = Some {| ok_epoch := e; epoch_secret := okey e en |} /\
    bob_msg a e kg (Some en) (state s') (sr_message sr) /\ state s' = Ct1Sampled.
Proof.
  intros Hk Hau Hrb Hs Hst. pose proof (bob_at_role _ _ _ _ _ Hs) as Hrole. unfold Send. rewrite Hrole.
  destruct Hs as [He Hs]. rewrite Hst in Hs. destruct Hs as (_ & Ha & Hseed & Hhek & Hekd).
  unfold sendBob. erewrite M_bind_Ok by reflexivity. rewrite Hst.
  assert (Hen : exists en, Encaps1 (kg_ek_seed kg) (kg_hek kg) (rb 32%nat) = Ok en).
  { destruct Hk as (r & Hr & Ek). pose proof (mlkem_correct r (rb 32%nat) Hr (Hrb 32%nat)) as Hc.
    pose proof (mlkem_sizes r Hr) as Hz. unfold KeyGen in Ek.
    rewrite check_size_ok in Ek by (unfold len; lia). cbn [mbind result_bind] in Ek.
    destruct (mlkem_keygen r) as [[d sd] v]. apply Ok_inj in Ek. subst kg. cbn.
    destruct Hc as (es & c1 & ss & c2 & E1 & _). destruct Hz as (_ & Hz & _). unfold Encaps1.
    rewrite !check_size_ok by (done || (unfold len, computeHek; rewrite ?sha3_length, ?Hrb; done)).
    cbn [mbind result_bind]. rewrite E1. by eexists. }
  destruct Hen as [en Een]. assert (Hen : en_ok kg en) by (exists (rb 32%nat); split; [apply Hrb|done]).
  destruct (ct1_valid kg en Hk Hen) as [Hv _].
  destruct (createEncoderState_ok (e1_ct1 en) Hv) as (ce & Ece & Gce & [pc Hpc] & Hcur).
  set (s1 := set_auth (auth_next a e en) (set_ct1_for_mac (Some (e1_ct1 en)) (set_ct1Encoder (Some ce)
    (set_ct1 (Some (e1_ct1 en)) (set_encaps_secret (Some (e1_encaps_secret en)) s))))).
  set (s2 := set_state Ct1Sampled s1).
  destruct (next_chunk_ok (e1_ct1 en) ready ct1Encoder set_ct1Encoder TypeError s2 Hv) as (e' & r & E & Ge & Hr);
    [by apply holds_Some|].
  destruct r as [c|x].
  2:{ exfalso. destruct (Hr ce eq_refl) as [Hx|Hx]; [lia|destruct Hx; congruence]. }
  destruct Hr as (Hi & Hc & _). set (s3 := set_ct1Encoder (Some e') s2).
  exists en, s3. eexists. split; [|split; [done|split; [|split; [|split]]]].
  - unfold bobSendFromHeaderReceived. erewrite M_bind_Ok by reflexivity.
    rewrite Hseed, Hhek. do 2 (erewrite M_bind_Ok by reflexivity). unfold on_throw.
    erewrite M_bind_Ok by (unfold M_lift; by rewrite Een). do 2 (erewrite M_bind_Ok by reflexivity).
    erewrite M_bind_Ok by (unfold M_lift; by rewrite Ece). do 2 (erewrite M_bind_Ok by reflexivity).
    rewrite He, Ha.
    erewrite M_bind_Ok by (unfold M_lift; by rewrite (KDF_OK_ok kg en e Hk Hen)).
    erewrite M_bind_Ok by (unfold M_lift; by rewrite (auth_Update_ok a e (okey e en) Hau (okey_length e en))).
    erewrite M_bind_Ok by reflexivity. fold (auth_next a e en). fold s1.
    rewrite (M_bind_Ok _ _ s1 s2 tt) by (apply transition_ok; unfold s1; projs; by rewrite Hst).
    rewrite (M_bind_Ok _ _ s2 s3 c E). erewrite M_bind_Ok by reflexivity. reflexivity.
  - unfold bob_at, s3, s2, s1. projs. split; [done|]. exists en. repeat (split; [done|]).
    split; [by apply holds_Some|]. by left.
  - unfold s3, s2, s1. cbn. by rewrite He.
  - right. split; [unfold s3, s2, s1; done|]. cbn [send_result sr_message m_type chunk_message].
    exists en. split; [done|]. by apply chunk_message_ok.
  - reflexivity.
Qed.

Lemma bob_send a e kg oen ready rb s : kg_ok kg -> (forall en, oen = Some en -> en_ok kg en) -> bob_at a e kg oen s ->
  state s <> HeaderReceived ->
  exists s' r, Send ready rb s = (s', r) /\ bob_at a e kg oen s' /\ state s' = state s /\
    match r with Ok sr => sr_output_key sr = None /\ bob_msg a e kg oen (state s) (sr_message sr) | Throw _ => True end.
Proof.
  intros Hk Hen Hs Hne. pose proof (bob_at_role _ _ _ _ _ Hs) as Hrole. unfold Send. rewrite Hrole.
  pose proof Hs as Hs0. destruct Hs as [He Hst]. unfold sendBob. erewrite M_bind_Ok by reflexivity.
  assert (Hct1 : forall en, oen = Some en -> holds (e1_ct1 en) (ct1Encoder s) ->
    (forall e', enc_good (e1_ct1 en) e' -> bob_at a e kg oen (set_ct1Encoder (Some e') s)) ->
    exists s' r, bobSendCt1Chunk ready s = (s', r) /\ bob_at a e kg oen s' /\ state s' = state s /\
    match r with Ok sr => sr_output_key sr = None /\ bob_msg a e kg oen (state s) (sr_message sr) | Throw _ => True end).
  { intros en -> Hh Hset. destruct (ct1_valid kg en Hk (Hen _ eq_refl)) as [Hv _].
    destruct (send_chunk_ok (e1_ct1 en) ready ct1Encoder set_ct1Encoder (Error "No CT1 encoder") Ct1 s Hv Hh) as (e' & r & E & Ge & Hr).
    exists (set_ct1Encoder (Some e') s), r. split; [exact E|]. split; [by apply Hset|]. split; [done|].
    destruct r as [sr|]; [|done]. destruct Hr as (Ho & Hme & Hty & Hch & _). split; [done|]. right. rewrite Hty. split; [by rewrite Hme|].
    by exists en. }
  destruct (state s) eqn:Es; try done.
  - eexists s, _. split; [reflexivity|]. do 2 (split; [done|]). split; [done|]. right. by split.
  - destruct Hst as (en & -> & Ha & H1 & H2 & H3 & H4 & Hh & H5). apply (Hct1 en eq_refl Hh).
    intros e' Ge. unfold bob_at. projs. rewrite Es. split; [done|]. exists en. repeat (split; [done|]). split; [by apply holds_Some|done].
  - destruct Hst as (en & -> & Ha & H1 & H2 & H3 & H4 & Hh). apply (Hct1 en eq_refl Hh).
    intros e' Ge. unfold bob_at. projs. rewrite Es. split; [done|]. exists en. repeat (split; [done|]). by apply holds_Some.
  - eexists s, _. split; [reflexivity|]. do 2 (split; [done|]). split; [done|]. right. by split.
  - destruct Hst as (en & -> & Ha & Hh). destruct (ct2mac_valid a e kg en Hk (Hen _ eq_refl)) as [Hv _].
    destruct (send_chunk_ok (ct2mac_of a e kg en) ready ct2Encoder set_ct2Encoder (Error "No CT2 encoder") Ct2 s Hv Hh) as (e' & r & E & Ge & Hr).
    exists (set_ct2Encoder (Some e') s), r. split; [exact E|]. split.
    { unfold bob_at. projs. rewrite Es. split; [done|]. exists en. do 2 (split; [done|]). by apply holds_Some. }
    split; [done|]. destruct r as [sr|]; [|done]. destruct Hr as (Ho & Hme & Hty & Hch & _). split; [done|]. right. rewrite Hty.
    split; [by rewrite Hme|]. by exists en.
Qed.
(** *** Receiving *)
Lemma header_split a e kg : kg_ok kg ->
  take (Z.to_nat (EK_SEED_SIZE + 32)) (header_of a e kg) = kg_ek_seed kg ++ kg_hek kg /\
  drop (Z.to_nat (EK_SEED_SIZE + 32)) (header_of a e kg) = MacHdr a e (kg_ek_seed kg ++ kg_hek kg) /\
  take (Z.to_nat EK_SEED_SIZE) (kg_ek_seed kg ++ kg_hek kg) = kg_ek_seed kg /\
  drop (Z.to_nat EK_SEED_SIZE) (kg_ek_seed kg ++ kg_hek kg) = kg_hek kg.
Proof.
  intros Hk. destruct (kg_facts kg Hk) as (_ & Hs & _ & _ & _ & _ & Hh & _). unfold header_of, EK_SEED_SIZE in *. cbn zeta.
  unfold len in *.
  destruct (take_app_len (kg_ek_seed kg ++ kg_hek kg) (MacHdr a e (kg_ek_seed kg ++ kg_hek kg)) (Z.to_nat (32 + 32))) as [-> ->];
    [rewrite length_app; lia|].
  destruct (take_app_len (kg_ek_seed kg) (kg_hek kg) (Z.to_nat 32)) as [-> ->]; [lia|]. done.
Qed.

Lemma receive_hdr_ok a e kg m c s : kg_ok kg -> bob_at a e kg None s -> m_epoch m = e -> state s = NoHeaderReceived ->
  is_chunk (header_of a e kg) m -> m_data m = Some c ->
  exists s', receiveBob_Hdr m c s = (s', Ok tt) /\ bob_at a e kg None s' /\
    ((state s' = NoHeaderReceived /\ gained m (headerDecoder s) (headerDecoder s')) \/ state s' = HeaderReceived).
Proof.
  intros Hk [He Hst] Hme Es Hch Hc. rewrite Es in Hst. destruct Hst as (_ & Ha & Hd & Hek).
  destruct (header_valid a e kg Hk) as [Hv Hl].
  pose proof (may_collect_default _ _ (or_intror Hd)) as Gd. rewrite Hl in Gd.
  destruct (add_message_chunk_ok _ m c _ Hv Gd Hch Hc) as (d & Ed & Gd').
  set (s1 := set_headerDecoder (Some d) s).
  assert (Hs1 : bob_at a e kg None s1).
  { unfold bob_at, s1. projs. rewrite Es. do 3 (split; [done|]). split; [by exists d|done]. }
  destruct (header_split a e kg Hk) as (T1 & T2 & T3 & T4).
  set (s2 := set_state HeaderReceived (set_hek (Some (kg_hek kg)) (set_ek_seed (Some (kg_ek_seed kg)) s1))).
  exists (if isDecoderComplete d then s2 else s1). split.
  - apply candidate_Ok. erewrite M_bind_Ok by reflexivity. cbn beta zeta.
    erewrite M_bind_Ok by (unfold M_lift; by rewrite Ed). erewrite M_bind_Ok by reflexivity. fold s1.
    destruct (isDecoderComplete d) eqn:Ecomp; [|done].
    erewrite M_bind_Ok by (unfold M_lift; by rewrite (decoded_ok _ Hv d Gd' Ecomp)). cbn zeta. rewrite T1, T2, T3, T4.
    erewrite M_bind_Ok by (unfold M_lift, VfyHdr, bytes_eqb; rewrite Hme, Ha, bool_decide_true by done; reflexivity).
    do 2 (erewrite M_bind_Ok by reflexivity). apply transition_ok. unfold s1. projs. by rewrite Es.
  - destruct (isDecoderComplete d) eqn:Ecomp; [|split; [done|left; split; [by unfold s1; projs|by eapply gained_add]]].
    split; [unfold bob_at, s2, s1; projs; done|by right].
Qed.

(** Completing the encapsulation gives the second ciphertext with its MAC. *)
Lemma sample_ct2_ok a e kg en s : kg_ok kg -> en_ok kg en -> epoch s = e -> auth s = auth_next a e en ->
  ek_seed s = Some (kg_ek_seed kg) -> ek_vector s = Some (kg_ek_vector kg) ->
  encaps_secret s = Some (e1_encaps_secret en) -> ct1_for_mac s = Some (e1_ct1 en) -> state s = Ct2Sampled ->
  exists s', bobSampleCt2 s = (s', Ok tt) /\ bob_at a e kg (Some en) s' /\ state s' = Ct2Sampled.
Proof.
  intros Hk Hen He Ha Hs Hv Hes Hc1 Hst. destruct (en_facts kg en Hk Hen) as (_ & _ & _ & E2 & _).
  destruct (ct2mac_valid a e kg en Hk Hen) as [Hval _].
  destruct (createEncoderState_ok (ct2mac_of a e kg en) Hval) as (ce & Ece & Gce & _).
  eexists. split; [|split].
  - unfold bobSampleCt2. erewrite M_bind_Ok by reflexivity. rewrite Hes, Hs, Hv.
    do 4 (erewrite M_bind_Ok by reflexivity). erewrite M_bind_Ok by (unfold M_lift; by rewrite E2).
    erewrite M_bind_Ok by reflexivity. rewrite Hc1. erewrite M_bind_Ok by reflexivity. rewrite Ha, He.
    fold (ct2mac_of a e kg en). erewrite M_bind_Ok by (unfold M_lift; by rewrite Ece).
    erewrite M_bind_Ok by reflexivity. reflexivity.
  - unfold bob_at. projs. rewrite Hst. split; [done|]. exists en. do 2 (split; [done|]). by apply holds_Some.
  - done.
Qed.

Lemma receive_ek_ok a e kg en m c s : kg_ok kg -> en_ok kg en -> bob_at a e kg (Some en) s ->
  state s = Ct1Sampled \/ state s = Ct1Acknowledged -> is_chunk (kg_ek_vector kg) m -> m_data m = Some c ->
  exists s', receiveBob_Ek m c s = (s', Ok tt) /\ bob_at a e kg (Some en) s' /\
    (past_ack (state s') -> past_ack (state s) \/ m_type m = EkCt1Ack) /\
    (m_type m = EkCt1Ack -> state s' = Ct2Sampled \/ (state s' = Ct1Acknowledged /\ gained m (ekDecoder s) (ekDecoder s'))).
Proof.
  intros Hk Hen [He Hst] Hor Hch Hc.
  assert (Hst' : auth s = auth_next a e en /\ ek_seed s = Some (kg_ek_seed kg) /\ hek s = Some (kg_hek kg) /\
      encaps_secret s = Some (e1_encaps_secret en) /\ ct1_for_mac s = Some (e1_ct1 en) /\
      holds (e1_ct1 en) (ct1Encoder s) /\ may_collect (kg_ek_vector kg) (ekDecoder s)).
  { destruct Hor as [Es|Es]; rewrite Es in Hst; by destruct Hst as (en' & [= <-] & ?). }
  clear Hst. destruct Hst' as (Ha & Hs & Hh & Hes & Hc1 & Hce & Hmay).
  destruct (vector_valid kg Hk) as [Hv Hl].
  pose proof (may_collect_default _ _ Hmay) as Gd. rewrite Hl in Gd.
  destruct (add_message_chunk_ok _ m c _ Hv Gd Hch Hc) as (d & Ed & Gd').
  destruct (kg_facts kg Hk) as (_ & _ & _ & _ & _ & Hhek & _).
  set (s1 := set_ekDecoder (Some d) s). set (s2 := set_ek_vector (Some (kg_ek_vector kg)) s1).
  assert (Hs1 : forall n, n = Ct1Sampled \/ n = Ct1Acknowledged -> bob_at a e kg (Some en) (set_state n s1)).
  { intros n Hn. unfold bob_at, s1. projs. split; [done|]. destruct Hn as [-> | ->]; exists en; repeat (split; [done|]); right; by exists d. }
  assert (Hsame : set_state (state s) s1 = s1) by (by unfold s1; destruct s).
  assert (Hsample : exists s', bobSampleCt2 (set_state Ct2Sampled s2) = (s', Ok tt) /\ bob_at a e kg (Some en) s' /\ state s' = Ct2Sampled).
  { destruct (sample_ct2_ok a e kg en (set_state Ct2Sampled s2) Hk Hen) as (s' & E & Hb & Hs4); try done. by exists s'. }
  destruct Hsample as (s4 & E4 & Hb4 & Hs4).
  assert (Hrun : forall s', (if isDecoderComplete d then
      (if bool_decide (state s = Ct1Sampled) then
         if bool_decide (m_type m = EkCt1Ack) then (do_ transition EKCT1_ACK_EK_COMPLETE; bobSampleCt2)%st s2
         else transition EK_COMPLETE_NO_ACK s2
       else if bool_decide (state s = Ct1Acknowledged) then (do_ transition EK_COMPLETE; bobSampleCt2)%st s2
       else M_ret tt s2)
    else if bool_decide (m_type m = EkCt1Ack) && bool_decide (state s = Ct1Sampled)
    then transition EKCT1_ACK_EK_INCOMPLETE s1 else M_ret tt s1) = (s', Ok tt) -> receiveBob_Ek m c s = (s', Ok tt)).
  { intros s' Hr. apply candidate_Ok. erewrite M_bind_Ok by reflexivity. cbn beta zeta.
    erewrite M_bind_Ok by (unfold M_lift; by rewrite Ed). erewrite M_bind_Ok by reflexivity. fold s1.
    destruct (isDecoderComplete d) eqn:Ecomp; [|by case_match].
    erewrite M_bind_Ok by (unfold M_lift; by rewrite (decoded_ok _ Hv d Gd' Ecomp)). rewrite Hs, Hh.
    do 2 (erewrite M_bind_Ok by reflexivity).
    erewrite M_bind_Ok by (unfold M_lift, verifyEkHashBinding, bytes_eqb; rewrite <- Hhek, bool_decide_true by done; reflexivity).
    erewrite M_bind_Ok by reflexivity. fold s2. repeat case_match; exact Hr. }
  assert (Hgain : isDecoderComplete d = false -> gained m (ekDecoder s) (Some d)) by (by intros; eapply gained_add).
  destruct (isDecoderComplete d).
  - destruct Hor as [Es|Es].
    + rewrite Es, bool_decide_true in Hrun by done. case_bool_decide.
      * exists s4. split; [|split; [done|split; [by right|by left]]]. apply Hrun. rewrite (M_bind_Ok _ _ s2 (set_state Ct2Sampled s2) tt); [done|].
        apply transition_ok. unfold s2, s1. projs. by rewrite Es.
      * exists (set_state EkReceivedCt1Sampled s2). split; [apply Hrun, transition_ok; unfold s2, s1; projs; by rewrite Es|].
        split; [unfold bob_at, s2, s1; projs; split; [done|]; by exists en|]. split; [by intros [?|?]|done].
    + rewrite Es, bool_decide_false, bool_decide_true in Hrun by done.
      exists s4. split; [|split; [done|split; [left; by left|by left]]]. apply Hrun. rewrite (M_bind_Ok _ _ s2 (set_state Ct2Sampled s2) tt); [done|].
      apply transition_ok. unfold s2, s1. projs. by rewrite Es.
  - destruct (bool_decide (m_type m = EkCt1Ack) && bool_decide (state s = Ct1Sampled)) eqn:Eb.
    + apply andb_true_iff in Eb as [Et Eb]. apply bool_decide_eq_true in Eb, Et.
      exists (set_state Ct1Acknowledged s1). split; [apply Hrun, transition_ok; unfold s1; projs; by rewrite Eb|]. split; [apply Hs1; by right|].
      split; [by right|]. intros _. right. split; [done|by apply Hgain].
    + exists s1. split; [by apply Hrun|]. split; [rewrite <- Hsame; by apply Hs1|]. split; [by left|].
      intros Et. rewrite (bool_decide_true _ Et) in Eb. apply bool_decide_eq_false in Eb.
      destruct Hor; [done|]. right. split; [done|by apply Hgain].
Qed.

Lemma bob_ack_ok a e kg en s : kg_ok kg -> en_ok kg en -> bob_at a e kg (Some en) s -> state s = EkReceivedCt1Sampled ->
  exists s', (do_ transition EKCT1_ACK; bobSampleCt2)%st s = (s', Ok tt) /\ bob_at a e kg (Some en) s' /\ state s' = Ct2Sampled.
Proof.
  intros Hk Hen [He Hst] Es. rewrite Es in Hst. destruct Hst as (en' & [= <-] & Ha & Hs & Hv & Hes & Hc1 & _).
  destruct (sample_ct2_ok a e kg en (set_state Ct2Sampled s) Hk Hen) as (s' & E & Hb & Hs'); try done.
  exists s'. split; [|done]. rewrite (M_bind_Ok _ _ s (set_state Ct2Sampled s) tt); [done|]. apply transition_ok. by rewrite Es.
Qed.

(** What a reception does for the progress of the epoch. *)
Definition bob_progress (m : MLKEMBraidMessage) (s s' : Agent) : Prop :=
  m_epoch m = epoch s ->
  match m_type m, state s with
  | Hdr, NoHeaderReceived =>
      (state s' = NoHeaderReceived /\ gained m (headerDecoder s) (headerDecoder s')) \/ state s' = HeaderReceived
  | EkCt1Ack, (Ct1Sampled | Ct1Acknowledged) =>
      state s' = Ct2Sampled \/ (state s' = Ct1Acknowledged /\ gained m (ekDecoder s) (ekDecoder s'))
  | (EkCt1Ack | Ct1Ack), EkReceivedCt1Sampled => state s' = Ct2Sampled
  | _, _ => True
  end.

(** Everything the peer sends in the epoch is accepted. *)
Lemma bob_receive a e kg oen p m s : kg_ok kg -> (forall en, oen = Some en -> en_ok kg en) ->
  bob_at a e kg oen s -> alice_msg a e kg p m ->
  exists s' rr, Receive m s = (s', Ok rr) /\ rr_output_key rr = None /\ bob_at a e kg oen s' /\
    (state s = Ct2Sampled -> s' = s) /\ (past_ack (state s') -> past_ack (state s) \/ acked p) /\ bob_progress m s s'.
Proof.
  intros Hk Hen Hs Hm. pose proof (bob_at_role _ _ _ _ _ Hs) as Hrole. unfold Receive. rewrite Hrole.
  pose proof Hs as [He Hst]. unfold receiveBob. erewrite M_bind_Ok by reflexivity. rewrite He.
  set (good := fun s' => bob_at a e kg oen s' /\ (state s = Ct2Sampled -> s' = s) /\
    (past_ack (state s') -> past_ack (state s) \/ acked p) /\ bob_progress m s s').
  assert (Hsame : bob_progress m s s -> good s) by (intros Hp; repeat split; try done; by left).
  destruct Hm as [Hlt|[Heq Hm]].
  { rewrite (proj2 (Z.ltb_lt _ _) Hlt). eexists s, _. split; [reflexivity|]. split; [done|]. apply Hsame. intros E. lia. }
  rewrite (proj2 (Z.ltb_ge _ _)) by lia. replace (m_epoch m =? e + 1) with false by lia. rewrite andb_false_r.
  replace (m_epoch m >? e) with false by lia.
  enough (exists s', receiveBob_body m s = (s', Ok tt) /\ good s') as (s' & E & Hg).
  { rewrite (M_bind_Ok _ _ s s' tt E). eexists _, _. split; [reflexivity|]. by split. }
  unfold receiveBob_body. erewrite M_bind_Ok by reflexivity.
  assert (Hid : bob_progress m s s -> exists s', M_ret tt s = (s', Ok tt) /\ good s') by (intros Hp; exists s; auto).
  assert (Hek : is_chunk (kg_ek_vector kg) m -> m_type m = Ek \/ m_type m = EkCt1Ack /\ acked p /\ state s <> EkReceivedCt1Sampled ->
    exists s', (match m_data m with
      | Some data => if bool_decide (state s ∈ [Ct1Sampled; Ct1Acknowledged]) then receiveBob_Ek m data else M_ret tt
      | None => M_ret tt end) s = (s', Ok tt) /\ good s').
  { intros Hch Hty. pose proof Hch as (i & _ & _ & Hd). rewrite Hd. case_bool_decide as Hin.
    2:{ apply Hid. intros _. destruct Hty as [-> | (-> & _ & ?)]; [done|]. rewrite elem_of_cons, list_elem_of_singleton in Hin.
        destruct (state s); try done; tauto. }
    assert (Hor : state s = Ct1Sampled \/ state s = Ct1Acknowledged) by (by rewrite elem_of_cons, list_elem_of_singleton in Hin).
    assert (Hoen : exists en, oen = Some en) by (destruct Hor as [Es|Es]; rewrite Es in Hst; by destruct Hst as (en & ? & _); exists en).
    destruct Hoen as [en ->].
    destruct (receive_ek_ok a e kg en m (chunk_at (kg_ek_vector kg) i) s Hk (Hen _ eq_refl) Hs Hor Hch Hd) as (s' & E & Hb & Hpa & Hpr).
    exists s'. split; [done|]. split; [done|]. split; [intros Es; destruct Hor as [Ho|Ho]; congruence|]. split.
    - intros Hp. destruct Hty as [Et|(_ & ? & _)]; [|by right]. destruct (Hpa Hp); [by left|congruence].
    - intros _. destruct Hty as [-> | (Et & _ & _)]; [done|]. rewrite Et. specialize (Hpr Et). by destruct Hor as [-> | ->]. }
  assert (Hack : state s = EkReceivedCt1Sampled -> acked p -> exists s', (do_ transition EKCT1_ACK; bobSampleCt2)%st s = (s', Ok tt) /\ good s').
  { intros Es Hp. pose proof Hst as Hst'. rewrite Es in Hst'. destruct Hst' as (en & -> & _).
    destruct (bob_ack_ok a e kg en s Hk (Hen _ eq_refl) Hs Es) as (s' & E & Hb & Es'). exists s'. split; [done|].
    split; [done|]. split; [congruence|]. split; [by right|]. intros _. rewrite Es. by destruct (m_type m). }
  destruct (m_type m) eqn:Et; try done.
  - pose proof Hm as (i & _ & _ & Hd). rewrite Hd. destruct (decide (state s = NoHeaderReceived)) as [Es|Es];
      [rewrite (bool_decide_true _ Es)|rewrite (bool_decide_false _ Es)].
    2:{ apply Hid. intros _. rewrite Et. by destruct (state s). }
    assert (oen = None) as -> by (rewrite Es in Hst; by destruct Hst).
    destruct (receive_hdr_ok a e kg m (chunk_at (header_of a e kg) i) s Hk Hs Heq Es Hm Hd) as (s' & E & Hb & Hpr).
    exists s'. split; [done|]. split; [done|]. split; [congruence|]. split; [|intros _; by rewrite Et, Es].
    intros Hp. destruct Hpr as [[Hpa _]|Hpa]; rewrite Hpa in Hp; by destruct Hp.
  - rewrite (bool_decide_false (Ek = EkCt1Ack)), andb_false_r by done. apply Hek; [done|by left].
  - destruct Hm as [Hp Hch]. rewrite (bool_decide_true (EkCt1Ack = EkCt1Ack)), andb_true_r by done.
    destruct (decide (state s = EkReceivedCt1Sampled)) as [Es|Es];
      [rewrite (bool_decide_true _ Es); by apply Hack|rewrite (bool_decide_false _ Es); apply Hek; auto].
  - destruct (decide (state s = EkReceivedCt1Sampled)) as [Es|Es];
      [rewrite (bool_decide_true _ Es); by apply Hack|rewrite (bool_decide_false _ Es)].
    apply Hid. intros _. rewrite Et. by destruct (state s).
Qed.

(** The first message of the next epoch turns the encapsulator into the key
    generator. *)
Lemma bob_next_epoch a e kg oen m s : bob_at a e kg oen s -> state s = Ct2Sampled -> m_epoch m = e + 1 ->
  exists s' rr en, Receive m s = (s', Ok rr) /\ rr_output_key rr = None /\ oen = Some en /\
    alice_start (auth_next a e en) (e + 1) s'.
Proof.
  intros Hs Es Hm. pose proof (bob_at_role _ _ _ _ _ Hs) as Hrole. unfold Receive. rewrite Hrole.
  destruct Hs as [He Hst]. rewrite Es in Hst. destruct Hst as (en & -> & Ha & _).
  unfold receiveBob. erewrite M_bind_Ok by reflexivity. rewrite He, Es, Hm.
  replace (e + 1 <? e) with false by lia. rewrite bool_decide_true, Z.eqb_refl by done. cbn [andb].
  eexists _, _, en. split.
  - rewrite (M_bind_Ok _ _ s (set_state KeysUnsampled s) tt) by (apply transition_ok; by rewrite Es).
    erewrite M_bind_Ok by reflexivity. reflexivity.
  - split; [done|]. split; [done|]. unfold alice_start. projs. by rewrite He.
Qed.
End Bob.
