(* ===== verification/BraidSystem.v ===== *)
(** * Two parties and the network

    Each party runs [Send] and [Receive]; the network may lose, repeat and
    reorder whatever has been sent.  [phase] is the invariant of the pair:
    the first argument is the key generator of the current epoch. *)
From S2P Require Import Prelude Crypto GaloisField Lagrange ErasureCodec ErasureProofs BraidState BraidAuth Braid BraidInv BraidSides.

(** A party: its agent, the messages it has sent, the keys it has output. *)
Record Party := { agent : Agent; sent : list MLKEMBraidMessage; outputs : list OutputKey }.

Section System.
Context {H : HashFunctions} {K : MLKEM768}.

Definition party_send (ready : bool) (rb : nat -> bytes) (p : Party) : Party :=
  match Send ready rb (agent p) with
  | (s, Ok r) => {| agent := s; sent := sent p ++ [sr_message r]; outputs := outputs p ++ option_list (sr_output_key r) |}
  | (s, Throw _) => {| agent := s; sent := sent p; outputs := outputs p |}
  end.

Definition party_receive (m : MLKEMBraidMessage) (p : Party) : Party :=
  match Receive m (agent p) with
  | (s, Ok r) => {| agent := s; sent := sent p; outputs := outputs p ++ option_list (rr_output_key r) |}
  | (s, Throw _) => {| agent := s; sent := sent p; outputs := outputs p |}
  end.

Inductive system_step : Party * Party -> Party * Party -> Prop :=
  | step_send_l ready rb A B : good_random rb -> system_step (A, B) (party_send ready rb A, B)
  | step_send_r ready rb A B : good_random rb -> system_step (A, B) (A, party_send ready rb B)
  | step_recv_l m A B : m ∈ sent B -> system_step (A, B) (party_receive m A, B)
  | step_recv_r m A B : m ∈ sent A -> system_step (A, B) (A, party_receive m B).

(** Both parties start from the shared secret of the handshake. *)
Definition initial (secret : bytes) (AB : Party * Party) : Prop :=
  exists a b, InitAlice secret = Ok a /\ InitBob secret = Ok b /\
    AB = ({| agent := a; sent := []; outputs := [] |}, {| agent := b; sent := []; outputs := [] |}).

Definition run (secret : bytes) (AB : Party * Party) : Prop :=
  exists AB0, initial secret AB0 /\ rtc system_step AB0 AB.
End System.

(** ** The invariant *)
Section Phase.
Context {H : HashFunctions} {HL : HashLaws H} {K : MLKEM768} {KL : MLKEM768Laws K}.

(** The keys of the epochs 1, 2, ... *)
Definition keys_of (ks : list bytes) : list OutputKey :=
  imap (fun i k => {| ok_epoch := Z.of_nat i + 1; epoch_secret := k |}) ks.

Lemma keys_of_snoc ks e k : len ks = e - 1 -> keys_of (ks ++ [k]) = keys_of ks ++ [{| ok_epoch := e; epoch_secret := k |}].
Proof. intros Hl. unfold keys_of. rewrite imap_app. cbn. do 3 f_equal. unfold len in Hl. lia. Qed.

Definition old_or_none (e : Z) (m : MLKEMBraidMessage) : Prop := m_epoch m < e \/ (m_epoch m = e /\ m_type m = NoneMsg).

(** The key generator has all of the first ciphertext before the encapsulator
    is past it, and receives the second one only after that. *)
Definition coupled (p q : MLKEMBraidState) : Prop := (past_ack q -> acked p) /\ (p = EkSentCt1Received -> q = Ct2Sampled).

Lemma coupled_fresh p q : p = KeysSampled -> q = NoHeaderReceived -> coupled p q.
Proof. intros -> ->. split; [by intros [?|?]|done]. Qed.

(** [P] is the key generator, [Q] the encapsulator of epoch [e]; [ks] are the
    keys of the epochs before [e]. *)
Inductive phase (P Q : Party) : Prop :=
  | phase_unsampled a e ks : auth_ok a -> len ks = e - 1 ->
      alice_start a e (agent P) -> bob_start a e (agent Q) ->
      Forall (fun m => m_epoch m < e) (sent P) -> Forall (old_or_none e) (sent Q) ->
      outputs P = keys_of ks -> outputs Q = keys_of ks -> phase P Q
  | phase_running a e kg oen ks : auth_ok a -> len ks = e - 1 -> kg_ok kg -> (forall en, oen = Some en -> en_ok kg en) ->
      alice_at a e kg oen (agent P) -> bob_at a e kg oen (agent Q) -> coupled (state (agent P)) (state (agent Q)) ->
      Forall (alice_msg a e kg (state (agent P))) (sent P) -> Forall (bob_msg a e kg oen (state (agent Q))) (sent Q) ->
      outputs P = keys_of ks ->
      outputs Q = keys_of (ks ++ match oen with Some en => [okey e en] | None => [] end) -> phase P Q
  | phase_done a e kg en ks : auth_ok a -> len ks = e - 1 -> kg_ok kg -> en_ok kg en ->
      bob_start (auth_next a e en) (e + 1) (agent P) -> bob_at a e kg (Some en) (agent Q) ->
      state (agent Q) = Ct2Sampled ->
      Forall (fun m => alice_msg a e kg EkSentCt1Received m \/ (m_epoch m = e + 1 /\ m_type m = NoneMsg)) (sent P) ->
      Forall (fun m => m_epoch m <= e) (sent Q) ->
      outputs P = keys_of (ks ++ [okey e en]) -> outputs Q = keys_of (ks ++ [okey e en]) -> phase P Q.

(** *** Messages stay described as the parties move on *)
Lemma bob_msg_grow a e kg oen q q' m : (q = Ct2Sampled -> q' = Ct2Sampled) ->
  bob_msg a e kg oen q m -> bob_msg a e kg oen q' m.
Proof.
  intros Hq [?|[He Hm]]; [by left|right]. split; [done|]. destruct (m_type m); try done.
  destruct Hm as (en & ? & ? & ?). exists en. auto.
Qed.

Lemma alice_msg_grow a e kg p p' m : (acked p -> acked p') -> alice_msg a e kg p m -> alice_msg a e kg p' m.
Proof. intros Hp [?|[He Hm]]; [by left|right]. split; [done|]. destruct (m_type m); try done; [|by apply Hp]. split; [apply Hp|]; apply Hm. Qed.

Lemma bob_msg_sampled a e kg en q m : bob_msg a e kg None q m -> bob_msg a e kg (Some en) q m.
Proof. intros [?|[He Hm]]; [by left|right]. split; [done|]. destruct (m_type m); try done; by destruct Hm as (? & ? & _). Qed.

Lemma bob_msg_start a e kg q m : old_or_none e m -> bob_msg a e kg None q m.
Proof. intros [?|[? Ht]]; [by left|right]. by rewrite Ht. Qed.

(** *** Idle parties *)
Lemma alice_start_receive a e m s : alice_start a e s -> old_or_none e m ->
  exists rr, Receive m s = (s, Ok rr) /\ rr_output_key rr = None.
Proof.
  intros (Hst & He & _) Hm. unfold Receive, isInAliceRole. rewrite Hst.
  unfold receiveAlice. erewrite M_bind_Ok by reflexivity. rewrite He.
  destruct Hm as [Hlt|[-> ->]].
  - rewrite (proj2 (Z.ltb_lt _ _) Hlt). by eexists.
  - rewrite Z.ltb_irrefl. replace (e >? e) with false by lia. by eexists.
Qed.

Lemma bob_start_receive a e m s : bob_start a e s -> m_epoch m < e ->
  exists rr, Receive m s = (s, Ok rr) /\ rr_output_key rr = None.
Proof.
  intros (Hst & He & _) Hm. unfold Receive, isInAliceRole. rewrite Hst.
  unfold receiveBob. erewrite M_bind_Ok by reflexivity. rewrite He, (proj2 (Z.ltb_lt _ _) Hm). by eexists.
Qed.

Lemma bob_start_send a e ready rb s : bob_start a e s -> exists sr, Send ready rb s = (s, Ok sr) /\
  sr_output_key sr = None /\ m_epoch (sr_message sr) = e /\ m_type (sr_message sr) = NoneMsg.
Proof.
  intros (Hst & He & _). unfold Send, isInAliceRole. rewrite Hst. unfold sendBob. erewrite M_bind_Ok by reflexivity.
  rewrite Hst. eexists. split; [reflexivity|]. cbn. done.
Qed.
(** *** The four kinds of step *)
Lemma app_option_None {A} (l : list A) : l ++ option_list None = l.
Proof. apply app_nil_r. Qed.

Lemma alice_msg_epoch a e kg p m : alice_msg a e kg p m -> m_epoch m <= e.
Proof. intros [?|[? _]]; lia. Qed.
Lemma bob_msg_epoch a e kg oen q m : bob_msg a e kg oen q m -> m_epoch m <= e.
Proof. intros [?|[? _]]; lia. Qed.

Lemma phase_send_l P Q ready rb : good_random rb -> phase P Q -> phase (party_send ready rb P) Q.
Proof.
  intros Hrb Hp. unfold party_send. destruct Hp as [a e ks Ha Hl HP HQ MP MQ OP OQ|a e kg oen ks Ha Hl Hk Hen HP HQ HC MP MQ OP OQ|a e kg en ks Ha Hl Hk Hen HP HQ Es MP MQ OP OQ].
  - destruct (alice_first_send a e ready rb (agent P) HP Hrb) as (kg & s' & sr & Hk & -> & Hs' & Es' & Ho & Hm).
    rewrite Ho, app_option_None. eapply (phase_running _ _ a e kg None ks); try done; cbn [agent sent outputs].
    + by apply bob_start_at.
    + apply coupled_fresh; [done|apply HQ].
    + rewrite Es'. apply Forall_app. split; [|by apply Forall_singleton]. eapply Forall_impl; [exact MP|]. intros m Hlt. by left.
    + eapply Forall_impl; [exact MQ|]. intros m Hm'. by apply bob_msg_start.
    + by rewrite app_nil_r.
  - destruct (alice_send a e kg oen ready rb (agent P) Hk HP) as (s' & r & -> & Hs' & Est & Hr).
    destruct r as [sr|]; [destruct Hr as [Ho Hm]; rewrite Ho, app_option_None|];
      (eapply (phase_running _ _ a e kg oen ks); try done); cbn [agent sent outputs]; rewrite Est; try done.
    apply Forall_app. split; [done|by apply Forall_singleton].
  - destruct (bob_start_send (auth_next a e en) (e + 1) ready rb (agent P) HP) as (sr & -> & Ho & He & Ht).
    rewrite Ho, app_option_None. eapply (phase_done _ _ a e kg en ks); try done; cbn [agent sent outputs].
    apply Forall_app. split; [done|]. apply Forall_singleton. by right.
Qed.

Lemma phase_send_r P Q ready rb : good_random rb -> phase P Q -> phase P (party_send ready rb Q).
Proof.
  intros Hrb Hp. unfold party_send. destruct Hp as [a e ks Ha Hl HP HQ MP MQ OP OQ|a e kg oen ks Ha Hl Hk Hen HP HQ HC MP MQ OP OQ|a e kg en ks Ha Hl Hk Hen HP HQ Es MP MQ OP OQ].
  - destruct (bob_start_send a e ready rb (agent Q) HQ) as (sr & -> & Ho & He & Ht).
    rewrite Ho, app_option_None. eapply (phase_unsampled _ _ a e ks); try done; cbn [agent sent outputs].
    apply Forall_app. split; [done|]. apply Forall_singleton. by right.
  - destruct (decide (state (agent Q) = HeaderReceived)) as [Es|Es].
    + assert (oen = None) as -> by (destruct HQ as [_ HQ]; rewrite Es in HQ; by destruct HQ).
      destruct (bob_sample_ct1 a e kg ready rb (agent Q) Hk Ha Hrb HQ Es) as (en & s' & sr & -> & Hen' & Hs' & Ho & Hm & Es').
      rewrite Ho. eapply (phase_running _ _ a e kg (Some en) ks); try done; cbn [agent sent outputs option_list].
      * intros en' [= <-]. done.
      * destruct HP as (? & ? & ? & ? & ? & Hst). do 5 (split; [done|]). destruct (state (agent P)); try done; by destruct Hst as (? & ? & _).
      * rewrite Es'. split; [by intros [?|?]|]. intros E. rewrite (proj2 HC E) in Es. done.
      * apply Forall_app. split; [|by apply Forall_singleton]. eapply Forall_impl; [exact MQ|]. intros m Hm'.
        apply bob_msg_sampled. eapply bob_msg_grow; [|exact Hm']. congruence.
      * rewrite OQ, app_nil_r. symmetry. by apply keys_of_snoc.
    + destruct (bob_send a e kg oen ready rb (agent Q) Hk Hen HQ Es) as (s' & r & -> & Hs' & Est & Hr).
      destruct r as [sr|]; [destruct Hr as [Ho Hm]; rewrite Ho, app_option_None|];
        (eapply (phase_running _ _ a e kg oen ks); try done); cbn [agent sent outputs]; rewrite Est; try done.
      apply Forall_app. split; [done|by apply Forall_singleton].
  - destruct (bob_send a e kg (Some en) ready rb (agent Q) Hk) as (s' & r & -> & Hs' & Est & Hr);
      [by intros en' [= <-]|done|congruence|].
    destruct r as [sr|]; [destruct Hr as [Ho Hm]; rewrite Ho, app_option_None|];
      (eapply (phase_done _ _ a e kg en ks); try done); cbn [agent sent outputs]; try congruence.
    apply Forall_app. split; [done|]. apply Forall_singleton. by eapply bob_msg_epoch.
Qed.

Lemma phase_recv_l P Q m : phase P Q -> m ∈ sent Q ->
  is_ok (Receive m (agent P)).2 = true /\ phase (party_receive m P) Q.
Proof.
  intros Hp Hin. unfold party_receive. destruct Hp as [a e ks Ha Hl HP HQ MP MQ OP OQ|a e kg oen ks Ha Hl Hk Hen HP HQ HC MP MQ OP OQ|a e kg en ks Ha Hl Hk Hen HP HQ Es MP MQ OP OQ];
    rewrite Forall_forall in MQ; pose proof (MQ m Hin) as Hm; rewrite <- Forall_forall in MQ.
  - destruct (alice_start_receive a e m (agent P) HP Hm) as (rr & -> & Ho). rewrite Ho, app_option_None.
    split; [done|]. by eapply (phase_unsampled _ _ a e ks).
  - destruct (alice_receive a e kg oen (state (agent Q)) m (agent P) Hk Hen Ha HP Hm) as (s' & rr & -> & Hr).
    split; [done|]. destruct Hr as [(Ho & Hs' & Hack & Hsent)|(en & -> & Est & Ho & Hs')]; rewrite Ho.
    + rewrite app_option_None. eapply (phase_running _ _ a e kg oen ks); try done; cbn [agent sent outputs].
      * destruct HC as [HC1 HC2]. split; [by intros ?%HC1; apply Hack|]. intros [E|?]%Hsent; [by apply HC2|done].
      * eapply Forall_impl; [exact MP|]. intros m' Hm'. by eapply alice_msg_grow.
    + eapply (phase_done _ _ a e kg en ks); try done; cbn [agent sent outputs option_list].
      * by apply Hen.
      * eapply Forall_impl; [exact MP|]. intros m' Hm'. left. eapply alice_msg_grow; [|exact Hm']. intros _. by right.
      * eapply Forall_impl; [exact MQ|]. intros m' Hm'. by eapply bob_msg_epoch.
      * rewrite OP. symmetry. by apply keys_of_snoc.
  - destruct (bob_start_receive (auth_next a e en) (e + 1) m (agent P) HP) as (rr & -> & Ho); [lia|].
    rewrite Ho, app_option_None. split; [done|]. by eapply (phase_done _ _ a e kg en ks).
Qed.

Lemma phase_recv_r P Q m : phase P Q -> m ∈ sent P ->
  is_ok (Receive m (agent Q)).2 = true /\ (phase P (party_receive m Q) \/ phase (party_receive m Q) P).
Proof.
  intros Hp Hin. unfold party_receive. destruct Hp as [a e ks Ha Hl HP HQ MP MQ OP OQ|a e kg oen ks Ha Hl Hk Hen HP HQ HC MP MQ OP OQ|a e kg en ks Ha Hl Hk Hen HP HQ Es MP MQ OP OQ];
    rewrite Forall_forall in MP; pose proof (MP m Hin) as Hm; rewrite <- Forall_forall in MP.
  - destruct (bob_start_receive a e m (agent Q) HQ Hm) as (rr & -> & Ho). rewrite Ho, app_option_None.
    split; [done|]. left. by eapply (phase_unsampled _ _ a e ks).
  - destruct (bob_receive a e kg oen (state (agent P)) m (agent Q) Hk Hen HQ Hm) as (s' & rr & -> & Ho & Hs' & Hsame & Hpa). rewrite Ho, app_option_None.
    split; [done|]. left. eapply (phase_running _ _ a e kg oen ks); try done; cbn [agent sent outputs].
    { destruct HC as [HC1 HC2]. split; [by intros [?|?]%Hpa; [apply HC1|]|]. intros E%HC2. by rewrite (Hsame E). }
    eapply Forall_impl; [exact MQ|]. intros m' Hm'. eapply bob_msg_grow; [|exact Hm']. intros E. by rewrite (Hsame E).
  - destruct Hm as [Hm|[He Ht]].
    + destruct (bob_receive a e kg (Some en) EkSentCt1Received m (agent Q) Hk) as (s' & rr & -> & Ho & Hs' & Hsame & _); [by intros en' [= <-]|done|done|].
      rewrite Ho, app_option_None. split; [done|]. left. rewrite (Hsame Es).
      by eapply (phase_done _ _ a e kg en ks).
    + destruct (bob_next_epoch a e kg (Some en) m (agent Q) HQ Es He) as (s' & rr & en' & -> & Ho & [= <-] & Hs').
      rewrite Ho, app_option_None. split; [done|]. right.
      eapply (phase_unsampled _ _ (auth_next a e en) (e + 1) (ks ++ [okey e en])); try done; cbn [agent sent outputs].
      * apply auth_after_ok.
      * unfold len in *. rewrite length_app. cbn. lia.
      * eapply Forall_impl; [exact MQ|]. cbn. lia.
      * eapply Forall_impl; [exact MP|]. intros m' [Hm'|[? ?]]; [left|by right]. apply alice_msg_epoch in Hm'. lia.
Qed.

Definition balanced (AB : Party * Party) : Prop := phase AB.1 AB.2 \/ phase AB.2 AB.1.

Lemma step_balanced AB AB' : system_step AB AB' -> balanced AB -> balanced AB'.
Proof.
  intros [ready rb A B Hrb|ready rb A B Hrb|m A B Hin|m A B Hin] [Hp|Hp]; unfold balanced; cbn [fst snd] in *.
  - left. by apply phase_send_l.
  - right. by apply phase_send_r.
  - left. by apply phase_send_r.
  - right. by apply phase_send_l.
  - left. by apply phase_recv_l.
  - destruct (phase_recv_r B A m Hp Hin) as [_ [?|?]]; [by right|by left].
  - destruct (phase_recv_r A B m Hp Hin) as [_ [?|?]]; [by left|by right].
  - right. by apply phase_recv_l.
Qed.

Lemma initial_balanced secret AB : length secret = 32%nat -> initial secret AB -> balanced AB.
Proof.
  intros Hs (a & b & Ea & Eb & ->). left. unfold InitAlice, InitBob in *.
  set (z := {| root_key := replicate 32 0; mac_key := replicate 32 0 |}).
  assert (E : initAuthenticatorState secret = Ok (auth_after z 0 secret)).
  { unfold initAuthenticatorState, auth_Init. by apply auth_Update_ok. }
  rewrite E in *. cbn [mbind result_bind] in *. apply Ok_inj in Ea as <-, Eb as <-.
  eapply (phase_unsampled _ _ (auth_after z 0 secret) 1 []); try done; try constructor; try done. apply auth_after_ok.
Qed.

Lemma run_balanced secret AB : length secret = 32%nat -> run secret AB -> balanced AB.
Proof.
  intros Hs (AB0 & H0 & Hr). apply (initial_balanced secret AB0 Hs) in H0. clear Hs.
  induction Hr as [|x y z Hstep _ IH]; [done|]. apply IH. by eapply step_balanced.
Qed.
(** *** Consequences of the invariant *)
Lemma keys_of_app ks o : keys_of (ks ++ o) =
  keys_of ks ++ imap (fun i k => {| ok_epoch := Z.of_nat (length ks + i) + 1; epoch_secret := k |}) o.
Proof. unfold keys_of. rewrite imap_app. done. Qed.

Lemma keys_of_epoch ks i k : keys_of ks !! i = Some k -> ok_epoch k = Z.of_nat i + 1.
Proof. unfold keys_of. rewrite list_lookup_imap. destruct (ks !! i); cbn; [|done]. by intros [= <-]. Qed.

Lemma phase_outputs P Q : phase P Q -> exists ks o, outputs P = keys_of ks /\ outputs Q = keys_of (ks ++ o).
Proof.
  intros [a e ks _ _ _ _ _ _ -> ->|a e kg oen ks _ _ _ _ _ _ _ _ _ -> ->|a e kg en ks _ _ _ _ _ _ _ _ _ -> ->].
  - exists ks, []. by rewrite app_nil_r.
  - by eexists ks, _.
  - exists (ks ++ [okey e en]), []. by rewrite app_nil_r.
Qed.

Lemma phase_roles P Q : phase P Q -> epoch (agent Q) <= epoch (agent P) <= epoch (agent Q) + 1 /\
  isInAliceRole (agent P) && isInAliceRole (agent Q) = false /\
  (epoch (agent P) = epoch (agent Q) -> isInAliceRole (agent P) = true).
Proof.
  intros [a e ks _ _ HP HQ _ _ _ _|a e kg oen ks _ _ _ _ HP HQ _ _ _ _ _|a e kg en ks _ _ _ _ HP HQ _ _ _ _ _].
  - destruct HP as (HsP & -> & _), HQ as (HsQ & -> & _). unfold isInAliceRole. rewrite HsP, HsQ. split; [lia|]. by split.
  - pose proof (alice_at_role _ _ _ _ _ HP) as RP. pose proof (bob_at_role _ _ _ _ _ HQ) as RQ.
    destruct HP as (-> & _), HQ as (-> & _). rewrite RP, RQ. split; [lia|]. by split.
  - pose proof (bob_at_role _ _ _ _ _ HQ) as RQ. destruct HP as (_ & EP & _), HQ as (EQ & _). rewrite RQ, andb_false_r, EP, EQ.
    split; [lia|]. split; [done|]. lia.
Qed.
End Phase.
