(* ===== verification/BraidTable.v ===== *)
(** * The Braid against its transition table, on arbitrary states and input

    Nothing here assumes an honest peer: the agent state and the message are
    arbitrary, and the calls may throw.  [send_targets] and [receive_targets]
    are the states to which one call can go; [ends] runs a call symbolically
    against them.  Then what a call that fails leaves, what it takes to move
    the authenticator, and the shape of what is sent. *)
From S2P Require Import Prelude Crypto GaloisField Lagrange ErasureCodec BraidState BraidAuth Braid BraidInv ErasureProofs BraidSides BraidSystem.

(** [moves R m]: whatever the outcome, [m] relates the states by [R]. *)
Definition moves {A} (R : Agent -> Agent -> Prop) (m : M Agent A) : Prop := forall s, R s (m s).1.

Section Moves.
Context (R : Agent -> Agent -> Prop) (Rr : forall s, R s s) (Rt : forall s1 s2 s3, R s1 s2 -> R s2 s3 -> R s1 s3).

Lemma moves_bind {A B} (m : M Agent A) (f : A -> M Agent B) : moves R m -> (forall a, moves R (f a)) -> moves R (M_bind f m).
Proof.
  intros Hm Hf s. unfold M_bind. specialize (Hm s). destruct (m s) as [s' [a|e]]; [|done]. cbn in Hm.
  eapply Rt; [exact Hm|apply Hf].
Qed.
Lemma moves_ret {A} (a : A) : moves R (M_ret a).
Proof. intros s. apply Rr. Qed.
Lemma moves_throw {A} e : moves R (@M_throw Agent A e).
Proof. intros s. apply Rr. Qed.
Lemma moves_get : moves R M_get.
Proof. intros s. apply Rr. Qed.
Lemma moves_lift {A} (r : result A) : moves R (M_lift r).
Proof. intros s. apply Rr. Qed.
Lemma moves_present {A} e (o : option A) : moves R (present e o).
Proof. destruct o; [apply moves_ret|apply moves_throw]. Qed.
Lemma moves_candidate {A} (m : M Agent A) : moves R m -> moves R (candidate m).
Proof. intros Hm s. specialize (Hm s). unfold candidate. destruct (m s) as [s' [a|e]]; [done|apply Rr]. Qed.
Lemma moves_modify f : (forall s, R s (f s)) -> moves R (M_modify f).
Proof. intros Hf s. apply Hf. Qed.
Lemma moves_on_throw {A} f (m : M Agent A) : (forall s, R s (f s)) -> moves R m -> moves R (on_throw f m).
Proof. intros Hf Hm s. specialize (Hm s). unfold on_throw. destruct (m s) as [s' [a|e]]; [done|]. eapply Rt; [exact Hm|apply Hf]. Qed.
Lemma moves_next_chunk ready get set x : (forall v s, R s (set v s)) -> moves R (next_chunk ready get set x).
Proof. intros Hs s. unfold next_chunk. destruct (get s); [|apply Rr]. destruct (getNextEncoderChunk _ _). apply Hs. Qed.
End Moves.

Ltac moves_step Rr Rt :=
  first
  [ apply (moves_bind _ Rt); [|intros ?]
  | apply (moves_ret _ Rr) | apply (moves_throw _ Rr) | apply (moves_get _ Rr) | apply (moves_lift _ Rr)
  | apply (moves_present _ Rr) | apply (moves_candidate _ Rr) | apply (moves_on_throw _ Rt)
  | apply (moves_next_chunk _ Rr)
  | match goal with |- moves _ (match ?x with _ => _ end) => destruct x end
  | match goal with |- moves _ (let '_ := ?x in _) => destruct x end
  | apply moves_modify ].

Section Table.
Context {H : HashFunctions} {K : MLKEM768}.

(** *** Symbolic execution of a call

    [ends m Q s]: run on [s], [m] ends in a state and with an outcome related
    by [Q], where [None] stands for a call that throws. *)
Definition ends {A} (m : M Agent A) (Q : Agent -> option A -> Prop) (s : Agent) : Prop :=
  match m s with (s', Ok a) => Q s' (Some a) | (s', Throw _) => Q s' None end.

Definition same_place (s s' : Agent) : Prop := state s' = state s /\ epoch s' = epoch s.
Lemma same_place_refl s : same_place s s.
Proof. done. Qed.
Lemma same_place_trans s1 s2 s3 : same_place s1 s2 -> same_place s2 s3 -> same_place s1 s3.
Proof. unfold same_place. intuition congruence. Qed.

Lemma ends_get {B} (f : Agent -> M Agent B) Q s : ends (f s) Q s -> ends (M_bind f M_get) Q s.
Proof. done. Qed.
Lemma ends_ret {A} (a : A) (Q : Agent -> option A -> Prop) s : Q s (Some a) -> ends (M_ret a) Q s.
Proof. done. Qed.
Lemma ends_bind {A B} (m : M Agent A) (f : A -> M Agent B) Q s :
  ends m (fun s1 o => match o with Some a => ends (f a) Q s1 | None => Q s1 None end) s -> ends (M_bind f m) Q s.
Proof. unfold ends, M_bind. by destruct (m s) as [s1 [a|e]]. Qed.
Lemma ends_candidate {A} (m : M Agent A) (Q : Agent -> option A -> Prop) s :
  ends m (fun s' o => match o with Some a => Q s' (Some a) | None => Q s None end) s -> ends (candidate m) Q s.
Proof. unfold ends, candidate. by destruct (m s) as [s1 [a|e]]. Qed.
Lemma ends_on_throw {A} f (m : M Agent A) (Q : Agent -> option A -> Prop) s : (forall s, same_place s (f s)) ->
  ends m (fun s' o => forall s'', same_place s' s'' -> Q s'' o) s -> ends (on_throw f m) Q s.
Proof. unfold ends, on_throw. destruct (m s) as [s1 [a|e]]; intros Hf HQ; by apply HQ. Qed.
Lemma ends_mono {A} (m : M Agent A) (Q1 Q2 : Agent -> option A -> Prop) s :
  ends m Q1 s -> (forall s' o, Q1 s' o -> Q2 s' o) -> ends m Q2 s.
Proof. unfold ends. destruct (m s) as [s1 [a|e]]; auto. Qed.

(** Steps that stay in the state and the epoch of [s0]. *)
Lemma ends_still {A} (m : M Agent A) (Q : Agent -> option A -> Prop) s0 s :
  same_place s0 s -> moves same_place m -> (forall s' o, same_place s0 s' -> Q s' o) -> ends m Q s.
Proof. intros Hs Hm HQ. specialize (Hm s). unfold ends. destruct (m s) as [s' [a|e]]; apply HQ; by eapply same_place_trans. Qed.
Lemma ends_step {A B} (m : M Agent A) (f : A -> M Agent B) (Q : Agent -> option B -> Prop) s0 s :
  same_place s0 s -> moves same_place m -> (forall s', same_place s0 s' -> Q s' None) ->
  (forall s' a, same_place s0 s' -> ends (f a) Q s') -> ends (M_bind f m) Q s.
Proof. intros Hs Hm HN HQ. apply ends_bind. eapply ends_still; [exact Hs|exact Hm|]. intros s' [a|] Hp; [by apply HQ|by apply HN]. Qed.
Lemma ends_transition {B} e n (f : unit -> M Agent B) (Q : Agent -> option B -> Prop) s0 s :
  same_place s0 s -> STATE_TRANSITIONS (state s0) e = Some n ->
  (forall s', state s' = n -> epoch s' = epoch s0 -> ends (f tt) Q s') -> ends (M_bind f (transition e)) Q s.
Proof. intros [Es Ee] En HQ. apply ends_bind. unfold ends at 1, transition. rewrite Es, En. by apply HQ. Qed.
Lemma ends_transition_last e n (Q : Agent -> option unit -> Prop) s0 s :
  same_place s0 s -> STATE_TRANSITIONS (state s0) e = Some n ->
  (forall s', state s' = n -> epoch s' = epoch s0 -> Q s' (Some tt)) -> ends (transition e) Q s.
Proof. intros [Es Ee] En HQ. unfold ends, transition. rewrite Es, En. by apply HQ. Qed.

Lemma ends_run {A} (m : M Agent A) (R : Agent -> bool -> Prop) s :
  ends m (fun s' o => R s' (match o with Some _ => true | None => false end)) s -> R (m s).1 (is_ok (m s).2).
Proof. unfold ends. by destruct (m s) as [s' [a|e]]. Qed.

(** *** The table of a call *)
Definition send_targets (returned : bool) (x : MLKEMBraidState) : list MLKEMBraidState :=
  match x with
  | KeysUnsampled => if returned then [KeysSampled] else [KeysUnsampled; KeysSampled]
  | HeaderReceived => if returned then [Ct1Sampled] else [HeaderReceived; Ct1Sampled]
  | _ => [x]
  end.

Definition some {A} (o : option A) : bool := match o with Some _ => true | None => false end.

(** For a message of the current epoch; [data] says whether it has a chunk. *)
Definition receive_targets (returned : bool) (x : MLKEMBraidState) (type : MessageType) (data : bool) : list MLKEMBraidState :=
  let moved ys := if returned then ys else [x] in
  match x, type, data with
  | KeysSampled, Ct1, true => if returned then [HeaderSent; Ct1Received] else [KeysSampled; HeaderSent]
  | HeaderSent, Ct1, true => moved [HeaderSent; Ct1Received]
  | Ct1Received, Ct2, true | EkSentCt1Received, Ct2, true => moved [EkSentCt1Received; NoHeaderReceived]
  | NoHeaderReceived, Hdr, true => moved [NoHeaderReceived; HeaderReceived]
  | Ct1Sampled, Ek, true => moved [Ct1Sampled; EkReceivedCt1Sampled]
  | Ct1Sampled, EkCt1Ack, true | Ct1Acknowledged, (Ek | EkCt1Ack), true => moved [Ct1Acknowledged; Ct2Sampled]
  | EkReceivedCt1Sampled, (EkCt1Ack | Ct1Ack), _ => [Ct2Sampled]
  | _, _, _ => [x]
  end.

(** The key generator enters the next epoch with the completed second
    ciphertext, which makes it the encapsulator. *)
Definition epoch_after (s s' : Agent) : Z :=
  if isInAliceRole s && bool_decide (state s' = NoHeaderReceived) then epoch s + 1 else epoch s.

Definition send_row (s s' : Agent) (returned : bool) : Prop :=
  state s' ∈ send_targets returned (state s) /\ epoch s' = epoch s.
Definition receive_row (m : MLKEMBraidMessage) (s s' : Agent) (returned : bool) : Prop :=
  state s' ∈ receive_targets returned (state s) (m_type m) (some (m_data m)) /\ epoch s' = epoch_after s s'.

Ltac still := repeat (first [moves_step same_place_refl same_place_trans | done | progress cbn zeta]).
(** *** Send *)
Lemma chunk_still ready get set x type (k : Agent -> option OutputKey) : (forall v s, state (set v s) = state s) -> (forall v s, epoch (set v s) = epoch s) ->
  moves same_place (do c <- next_chunk ready get set x; do s <- M_get; M_ret (send_result (chunk_message type c s) (k s) s))%st.
Proof. intros H1 H2. still. Qed.

(** A step of a call on [s] that has so far kept the place [Hp] of [s]. *)
Ltac keep Hp := eapply ends_step; [exact Hp|still| |]; clear Hp; [intros ? Hp|intros ? ? Hp].
(** The place of the state at the end, and its membership in the table. *)
Ltac placed := repeat match goal with H : same_place _ _ |- _ => destruct H end; split; [|congruence];
  repeat match goal with E : state ?x = _ |- context [state ?x] => rewrite E end; cbn; set_solver.

Lemma keys_unsampled_sends ready rb s : state s = KeysUnsampled ->
  ends (aliceSendFromKeysUnsampled ready rb) (fun s' o => send_row s s' (some o)) s.
Proof.
  intros Es. unfold aliceSendFromKeysUnsampled. pose proof (same_place_refl s) as Hp.
  keep Hp; [placed|]. keep Hp; [placed|]. apply ends_get. keep Hp; [placed|]. keep Hp; [placed|]. keep Hp; [placed|].
  keep Hp; [placed|].
  eapply ends_transition; [exact Hp|by rewrite Es|]. clear Hp. intros s1 E1 E2.
  eapply ends_still; [apply same_place_refl|by apply chunk_still|]. intros s2 o Hp. destruct o; placed.
Qed.

Lemma header_received_sends ready rb s : state s = HeaderReceived ->
  ends (bobSendFromHeaderReceived ready rb) (fun s' o => send_row s s' (some o)) s.
Proof.
  intros Es. unfold bobSendFromHeaderReceived. pose proof (same_place_refl s) as Hp.
  apply ends_get. keep Hp; [placed|]. keep Hp; [placed|]. apply ends_on_throw; [done|].
  do 8 (keep Hp; [intros; placed|]).
  eapply ends_transition; [exact Hp|by rewrite Es|]. clear Hp. intros s1 E1 E2.
  eapply ends_still; [apply same_place_refl|by apply (chunk_still _ _ _ _ _ (fun s2 => Some {| ok_epoch := epoch s2; epoch_secret := _ |}))|].
  intros s2 o Hp s3 Hp3. destruct o; placed.
Qed.

Lemma stays_sends {A} (m : M Agent A) s : moves same_place m -> state s <> KeysUnsampled -> state s <> HeaderReceived ->
  ends m (fun s' o => send_row s s' (some o)) s.
Proof.
  intros Hm H1 H2. eapply ends_still; [apply same_place_refl|exact Hm|]. intros s' o [Es Ee]. split; [|done]. rewrite Es.
  destruct (state s); try done; cbn; set_solver.
Qed.

Lemma Send_sends ready rb s : ends (Send ready rb) (fun s' o => send_row s s' (some o)) s.
Proof.
  unfold Send, ends at 1. destruct (isInAliceRole s) eqn:Er.
  - change (ends (sendAlice ready rb) (fun s' o => send_row s s' (some o)) s). apply ends_get.
    destruct (state s) eqn:Es; unfold isInAliceRole in Er; rewrite Es in Er; try discriminate Er; try (by apply keys_unsampled_sends); (apply stays_sends; [|by rewrite Es..]); try (still; done);
      by apply chunk_still.
  - change (ends (sendBob ready rb) (fun s' o => send_row s s' (some o)) s). apply ends_get.
    destruct (state s) eqn:Es; unfold isInAliceRole in Er; rewrite Es in Er; try discriminate Er; try (by apply header_received_sends); (apply stays_sends; [|by rewrite Es..]); try (still; done);
      by apply chunk_still.
Qed.

(** *** Receive *)
Ltac placed_in := repeat match goal with H : same_place _ _ |- _ => destruct H end;
  unfold receive_row, epoch_after, isInAliceRole;
  repeat match goal with E : ?f ?x = _ |- context [?f ?x] => rewrite E end;
  split; [cbn; set_solver|first [reflexivity|congruence]].

Lemma ct1_receives m data s : state s = KeysSampled \/ state s = HeaderSent -> m_type m = Ct1 -> m_data m = Some data ->
  ends (receiveAlice_Ct1 m data) (fun s' o => receive_row m s s' (some o)) s.
Proof.
  intros Hs Ht Hd. unfold receiveAlice_Ct1. pose proof (same_place_refl s) as Hp. apply ends_get. cbn zeta.
  destruct Hs as [Es|Es]; rewrite Es; [rewrite bool_decide_true by done|rewrite bool_decide_false by done];
    (keep Hp; [placed_in|]); apply ends_get; do 3 (keep Hp; [placed_in|]).
  - eapply ends_transition; [exact Hp|by rewrite Es|]. clear Hp. intros s1 E1 E2. pose proof (same_place_refl s1) as Hp.
    destruct (isDecoderComplete _); [|apply ends_ret; placed_in]. do 2 (keep Hp; [placed_in|]).
    eapply ends_transition_last; [exact Hp|by rewrite E1|]. intros s2 E3 E4. placed_in.
  - keep Hp; [placed_in|]. destruct (isDecoderComplete _); [|apply ends_ret; placed_in]. do 2 (keep Hp; [placed_in|]).
    eapply ends_transition_last; [exact Hp|by rewrite Es|]. intros s2 E3 E4. placed_in.
Qed.

Lemma ct2_receives m data s : state s = Ct1Received \/ state s = EkSentCt1Received -> m_type m = Ct2 -> m_data m = Some data ->
  ends (receiveAlice_Ct2 m data) (fun s' o => receive_row m s s' (some o)) s.
Proof.
  intros Hs Ht Hd. unfold receiveAlice_Ct2. apply ends_candidate. pose proof (same_place_refl s) as Hp. apply ends_get. cbn zeta.
  assert (Hn : receive_row m s s false) by (destruct Hs as [Es|Es]; placed_in).
  do 2 (keep Hp; [done|]).
  apply ends_bind, (ends_mono _ (fun s1 o => o = Some tt /\ state s1 = EkSentCt1Received /\ epoch s1 = epoch s)).
  { destruct Hs as [Es|Es]; rewrite Es; [rewrite bool_decide_true by done|rewrite bool_decide_false by done].
    - eapply ends_transition_last; [exact Hp|by rewrite Es|]. done.
    - apply ends_ret. destruct Hp as [E1 E2]. by rewrite E1, E2. }
  intros s1 o (-> & E1 & E2). clear Hp. pose proof (same_place_refl s1) as Hp. apply ends_get.
  rewrite (bool_decide_true (state s1 = EkSentCt1Received)), andb_true_r by done.
  destruct (isDecoderComplete _); [|apply ends_ret; destruct Hs as [Es|Es]; placed_in].
  do 8 (keep Hp; [done|]). eapply ends_transition; [exact Hp|by rewrite E1|]. clear Hp. intros s2 E3 E4.
  unfold ends, M_bind, M_modify, M_ret. unfold receive_row, epoch_after, isInAliceRole. cbn [state epoch resetForNewEpoch set_epoch].
  rewrite E3, E4, E2, Ht, Hd. destruct Hs as [Es|Es]; rewrite Es; (split; [cbn; set_solver|reflexivity]).
Qed.

Lemma hdr_receives m data s : state s = NoHeaderReceived -> m_type m = Hdr -> m_data m = Some data ->
  ends (receiveBob_Hdr m data) (fun s' o => receive_row m s s' (some o)) s.
Proof.
  intros Es Ht Hd. unfold receiveBob_Hdr. apply ends_candidate. pose proof (same_place_refl s) as Hp. apply ends_get. cbn zeta.
  assert (Hn : receive_row m s s false) by placed_in.
  do 2 (keep Hp; [done|]). destruct (isDecoderComplete _); [|apply ends_ret; placed_in].
  do 4 (keep Hp; [done|]). eapply ends_transition_last; [exact Hp|by rewrite Es|]. intros s1 E1 E2. placed_in.
Qed.

Lemma sample_ct2_still : moves same_place bobSampleCt2.
Proof. unfold bobSampleCt2. still. Qed.

Lemma ek_receives m data s : state s = Ct1Sampled \/ state s = Ct1Acknowledged -> m_type m = Ek \/ m_type m = EkCt1Ack -> m_data m = Some data ->
  ends (receiveBob_Ek m data) (fun s' o => receive_row m s s' (some o)) s.
Proof.
  intros Hs Ht Hd. unfold receiveBob_Ek. apply ends_candidate. pose proof (same_place_refl s) as Hp. apply ends_get. cbn zeta.
  assert (Hn : receive_row m s s false) by (destruct Hs as [Es|Es], Ht as [Ht|Ht]; placed_in).
  do 2 (keep Hp; [done|]). destruct (isDecoderComplete _).
  - do 5 (keep Hp; [done|]).
    destruct Hs as [Es|Es]; rewrite Es; [rewrite (bool_decide_true (Ct1Sampled = _)) by done|rewrite (bool_decide_false (_ = Ct1Sampled)), bool_decide_true by done].
    + destruct Ht as [Ht|Ht]; rewrite Ht; [rewrite bool_decide_false by done|rewrite bool_decide_true by done].
      * eapply ends_transition_last; [exact Hp|by rewrite Es|]. intros s1 E1 E2. placed_in.
      * eapply ends_transition; [exact Hp|by rewrite Es|]. intros s1 E1 E2.
        eapply ends_still; [apply same_place_refl|apply sample_ct2_still|]. intros s2 [u|] Hp2; [placed_in|done].
    + eapply ends_transition; [exact Hp|by rewrite Es|]. intros s1 E1 E2.
      eapply ends_still; [apply same_place_refl|apply sample_ct2_still|]. intros s2 [u|] Hp2; [|done]. destruct Ht as [Ht|Ht]; placed_in.
  - destruct Hs as [Es|Es]; rewrite Es.
    + destruct Ht as [Ht|Ht]; rewrite Ht; cbn [andb].
      * rewrite bool_decide_false by done. apply ends_ret. placed_in.
      * rewrite !bool_decide_true by done. eapply ends_transition_last; [exact Hp|by rewrite Es|]. intros s1 E1 E2. placed_in.
    + rewrite (bool_decide_false (Ct1Acknowledged = _)), andb_false_r by done. apply ends_ret. destruct Ht as [Ht|Ht]; placed_in.
Qed.

Lemma ack_receives m s : state s = EkReceivedCt1Sampled -> m_type m = EkCt1Ack \/ m_type m = Ct1Ack ->
  ends (do_ transition EKCT1_ACK; bobSampleCt2)%st (fun s' o => receive_row m s s' (some o)) s.
Proof.
  intros Es Ht. eapply ends_transition; [apply same_place_refl|by rewrite Es|]. intros s1 E1 E2.
  eapply ends_still; [apply same_place_refl|apply sample_ct2_still|]. intros s2 o Hp. destruct Ht as [Ht|Ht]; placed_in.
Qed.

(** A call without an effect, in a row of the table that stays. *)
Definition stays_row (x : MLKEMBraidState) (type : MessageType) (data : bool) : bool :=
  bool_decide (receive_targets true x type data = [x]).
Lemma stays_receives {A} m s (a : A) : stays_row (state s) (m_type m) (some (m_data m)) = true ->
  ends (M_ret a) (fun s' o => receive_row m s s' (some o)) s.
Proof.
  intros Hr%bool_decide_eq_true. apply ends_ret. unfold receive_row, epoch_after, isInAliceRole. cbn [some]. rewrite Hr.
  split; [set_solver|]. by destruct (state s).
Qed.

(** The result that is returned after the effect. *)
Lemma ends_returns {A B} (m : M Agent A) (f : A -> B) (R : Agent -> bool -> Prop) s :
  ends m (fun s' o => R s' (some o)) s -> ends (M_bind (fun a => M_ret (f a)) m) (fun s' o => R s' (some o)) s.
Proof. unfold ends, M_bind. by destruct (m s) as [s1 [a|e]]. Qed.

(** A row of [Receive]: the handler's lemma, or nothing happens. *)
Ltac row Es Et Ed :=
  lazymatch goal with
  | |- ends (M_ret _) _ _ => apply stays_receives; rewrite Es, Et, Ed; reflexivity
  | |- ends (M_bind _ (receiveAlice_Ct1 _ _)) _ _ => apply ends_returns, ct1_receives; auto
  | |- ends (M_bind _ (receiveAlice_Ct2 _ _)) _ _ => apply ends_returns, ct2_receives; auto
  | |- ends (receiveBob_Hdr _ _) _ _ => apply hdr_receives; auto
  | |- ends (receiveBob_Ek _ _) _ _ => apply ek_receives; auto
  | |- _ => apply ack_receives; auto
  end.

Lemma receiveAlice_receives m s : isInAliceRole s = true -> m_epoch m = epoch s ->
  ends (receiveAlice m) (fun s' o => receive_row m s s' (some o)) s.
Proof.
  intros Er He. unfold receiveAlice. apply ends_get. rewrite He, Z.gtb_ltb, Z.ltb_irrefl. cbn zeta.
  destruct (state s) eqn:Es; unfold isInAliceRole in Er; rewrite Es in Er; try discriminate Er; clear Er;
    destruct (m_type m) eqn:Et, (m_data m) as [data|] eqn:Ed; try match goal with |- context [bool_decide ?P] => destruct (bool_decide P) eqn:Eb; try discriminate Eb; clear Eb end; row Es Et Ed.
Qed.

Lemma receiveBob_body_receives m s : isInAliceRole s = false -> ends (receiveBob_body m) (fun s' o => receive_row m s s' (some o)) s.
Proof.
  intros Er. unfold receiveBob_body. apply ends_get.
  destruct (state s) eqn:Es; unfold isInAliceRole in Er; rewrite Es in Er; try discriminate Er; clear Er;
    destruct (m_type m) eqn:Et, (m_data m) as [data|] eqn:Ed;
    repeat match goal with |- context [bool_decide ?P] => destruct (bool_decide P) eqn:Eb; try discriminate Eb; clear Eb end; cbn [andb]; row Es Et Ed.
Qed.

(** ** Messages of another epoch *)
Lemma Receive_stale m s : m_epoch m < epoch s -> Receive m s = (s, Ok {| receiving_epoch := m_epoch m; rr_output_key := None |}).
Proof.
  intros He%Z.ltb_lt. unfold Receive.
  destruct (isInAliceRole s); [unfold receiveAlice|unfold receiveBob]; unfold M_bind at 1, M_get; by rewrite He.
Qed.

Lemma Receive_next m s : state s = Ct2Sampled -> m_epoch m = epoch s + 1 -> exists s',
  Receive m s = (s', Ok {| receiving_epoch := m_epoch m; rr_output_key := None |}) /\
  state s' = KeysUnsampled /\ epoch s' = epoch s + 1 /\ auth s' = auth s.
Proof.
  intros Es He. assert (Er : isInAliceRole s = false) by (unfold isInAliceRole; by rewrite Es).
  unfold Receive. rewrite Er. unfold receiveBob, M_bind, M_get, M_modify, M_ret, transition.
  rewrite (proj2 (Z.ltb_ge _ _)), bool_decide_true, He, Z.eqb_refl by (done || lia). cbn. rewrite Es. by eexists.
Qed.

Lemma Receive_ahead m s : epoch s < m_epoch m -> (state s = Ct2Sampled -> m_epoch m <> epoch s + 1) ->
  Receive m s = (s, Throw (StateTransitionError "EPOCH_MISMATCH")).
Proof.
  intros He Hn. unfold Receive.
  destruct (isInAliceRole s); [unfold receiveAlice|unfold receiveBob]; unfold M_bind at 1, M_get;
    rewrite (proj2 (Z.ltb_ge _ _)), (proj2 (Z.gtb_lt _ _)) by lia; [done|].
  destruct (bool_decide (state s = Ct2Sampled)) eqn:Es; [|done]. apply bool_decide_eq_true in Es.
  by rewrite (proj2 (Z.eqb_neq _ _) (Hn Es)).
Qed.

Lemma Receive_current m s : m_epoch m = epoch s -> ends (Receive m) (fun s' o => receive_row m s s' (some o)) s.
Proof.
  intros He. unfold Receive, ends at 1. destruct (isInAliceRole s) eqn:Er; [by apply receiveAlice_receives|].
  change (ends (receiveBob m) (fun s' o => receive_row m s s' (some o)) s). unfold receiveBob. apply ends_get.
  rewrite He, Z.gtb_ltb, Z.ltb_irrefl, (proj2 (Z.eqb_neq (epoch s) (epoch s + 1))), andb_false_r by lia.
  by apply ends_returns, receiveBob_body_receives.
Qed.

(** ** Failed calls *)
Definition same_auth (s s' : Agent) : Prop := auth s' = auth s /\ epoch s' = epoch s.
Lemma same_auth_refl s : same_auth s s.
Proof. done. Qed.
Lemma same_auth_trans s1 s2 s3 : same_auth s1 s2 -> same_auth s2 s3 -> same_auth s1 s3.
Proof. unfold same_auth. intuition congruence. Qed.

Lemma transition_same e : moves same_auth (transition e).
Proof. intros s. unfold transition. by destruct (STATE_TRANSITIONS (state s) e). Qed.

Ltac same := repeat (first [apply transition_same | moves_step same_auth_refl same_auth_trans | done | progress cbn zeta]).

Lemma receive_ct1_same m c : moves same_auth (receiveAlice_Ct1 m c).
Proof. unfold receiveAlice_Ct1. same. Qed.
Lemma sample_ct2_same : moves same_auth bobSampleCt2.
Proof. unfold bobSampleCt2. same. Qed.
Lemma receiveBob_body_same m : moves same_auth (receiveBob_body m).
Proof. unfold receiveBob_body, receiveBob_Hdr, receiveBob_Ek. pose proof sample_ct2_same. same; done. Qed.

(** [m] either completes or leaves the state as it was. *)
Definition atomic {A} (m : M Agent A) : Prop := forall s s' e, m s = (s', Throw e) -> s' = s.

Lemma atomic_candidate {A} (m : M Agent A) : atomic (candidate m).
Proof. intros s s' e. unfold candidate. destruct (m s) as [? []]; congruence. Qed.
Lemma atomic_total {A} (m : M Agent A) : (forall s, is_ok (m s).2 = true) -> atomic m.
Proof. intros Ht s s' e E. specialize (Ht s). by rewrite E in Ht. Qed.
Lemma atomic_then {A B} (m : M Agent A) (f : A -> M Agent B) : atomic m -> (forall a s, is_ok (f a s).2 = true) -> atomic (M_bind f m).
Proof.
  intros Hm Hf s s' e. unfold M_bind. destruct (m s) as [s1 [a|x]] eqn:E.
  - intros E'. specialize (Hf a s1). by rewrite E' in Hf.
  - intros [= <- <-]. by eapply Hm.
Qed.

Definition atomic_type (t : MessageType) : bool :=
  match t with NoneMsg | Hdr | Ek | Ct2 => true | EkCt1Ack | Ct1Ack | Ct1 => false end.

Lemma receiveAlice_failed m s s' e : receiveAlice m s = (s', Throw e) ->
  same_auth s s' /\ (atomic_type (m_type m) = true -> s' = s).
Proof.
  unfold receiveAlice. unfold M_bind at 1, M_get. case_if; [done|]. case_if; [by intros [= <- <-]|].
  destruct (m_type m), (m_data m) as [data|]; try done.
  - case_if; [|done]. intros E. split; [|done].
    pose proof (receive_ct1_same m data s) as Hs. unfold M_bind in E. destruct (receiveAlice_Ct1 m data s) as [s1 [u|x]]; [done|].
    by injection E as <- <-.
  - case_if; [|done]. intros E. assert (s' = s) as ->; [|done].
    eapply atomic_then; [| |exact E]; [apply atomic_candidate|done].
Qed.

Lemma receiveBob_failed m s s' e : receiveBob m s = (s', Throw e) ->
  same_auth s s' /\ (atomic_type (m_type m) = true -> s' = s).
Proof.
  unfold receiveBob. unfold M_bind at 1, M_get. case_if; [done|].
  destruct (bool_decide (state s = Ct2Sampled) && (m_epoch m =? epoch s + 1)) eqn:Eb.
  { apply andb_true_iff in Eb as [Eb _]. apply bool_decide_eq_true in Eb. unfold M_bind at 1, transition. by rewrite Eb. }
  case_if; [by intros [= <- <-]|]. intros E. pose proof (receiveBob_body_same m s) as Hs.
  assert (Hbody : exists x, receiveBob_body m s = (s', Throw x)).
  { unfold M_bind in E. destruct (receiveBob_body m s) as [s1 [u|x]]; [done|]. injection E as <- <-. by exists x. }
  destruct Hbody as [x Ex]. rewrite Ex in Hs. split; [exact Hs|]. intros Ht.
  unfold receiveBob_body in Ex. unfold M_bind at 1, M_get in Ex.
  destruct (m_type m); try done; destruct (m_data m) as [data|]; try done.
  - case_if_in Ex; [|done]. by eapply atomic_candidate.
  - rewrite (bool_decide_false (Ek = EkCt1Ack)), andb_false_r in Ex by done. case_if_in Ex; [|done]. by eapply atomic_candidate.
  - rewrite (bool_decide_false (Ek = EkCt1Ack)), andb_false_r in Ex by done. done.
Qed.
(** ** What it takes to move the authenticator *)
Lemma keeps_auth {A} (m : M Agent A) s s' r : moves same_auth m -> m s = (s', r) -> auth s' = auth s /\ epoch s' = epoch s.
Proof. intros Hm E. specialize (Hm s). by rewrite E in Hm. Qed.

Lemma receive_ct2_auth m c s s' k : receiveAlice_Ct2 m c s = (s', Ok k) -> auth s' <> auth s \/ epoch s' <> epoch s ->
  exists c1 d data ss key,
    ct1_decoded s = Some c1 /\ getDecodedMessage d = Ok data /\ dk s = Some key /\
    Decaps key c1 (take (Z.to_nat CT2_DATA_SIZE) data) = Ok ss /\
    (exists ok, KDF_OK ss (epoch s) = Ok ok /\ auth_Update (auth s) (epoch s) ok = Ok (auth s') /\
       k = Some {| ok_epoch := epoch s; epoch_secret := ok |}) /\
    VfyCt (auth s') (m_epoch m) (c1 ++ take (Z.to_nat CT2_DATA_SIZE) data) (drop (Z.to_nat CT2_DATA_SIZE) data) = Ok tt /\
    epoch s' = epoch s + 1.
Proof.
  unfold receiveAlice_Ct2, candidate. intros E Hne.
  match type of E with context [M_bind ?f ?m ?st] => destruct (M_bind f m st) as [s2 [k2|x]] eqn:E2; [|done] end.
  injection E as -> ->. unfold M_bind at 1, M_get in E2. cbn zeta in E2.
  apply M_bind_inv in E2 as (s1 & d & Ed & E2). unfold M_lift in Ed. injection Ed as <- Ed.
  apply M_bind_inv in E2 as (s1 & u & E1 & E2). injection E1 as <- _.
  apply M_bind_inv in E2 as (s3 & u' & E3 & E2).
  assert (H3 : auth s3 = auth s /\ epoch s3 = epoch s /\ ct1_decoded s3 = ct1_decoded s /\ dk s3 = dk s).
  { destruct (bool_decide (state s = Ct1Received)).
    - unfold transition in E3. destruct (STATE_TRANSITIONS _ _); [|done]. by injection E3 as <- _.
    - by injection E3 as <- _. }
  destruct H3 as (Ha & He & Hc & Hd). unfold M_bind at 1, M_get in E2.
  destruct (isDecoderComplete d && bool_decide (state s3 = EkSentCt1Received)).
  2:{ injection E2 as <- _. rewrite Ha, He in Hne. tauto. }
  rewrite Hc, Hd, Ha, He in E2.
  apply M_bind_inv in E2 as (s4 & c1 & E4 & E2). unfold present in E4. destruct (ct1_decoded s) as [c1'|]; [|done]. injection E4 as <- ->.
  apply M_bind_inv in E2 as (s5 & data & E5 & E2). unfold M_lift in E5. injection E5 as <- E5. cbn zeta in E2.
  apply M_bind_inv in E2 as (s6 & key & E6 & E2). unfold present in E6. destruct (dk s) as [key'|]; [|done]. injection E6 as <- ->.
  apply M_bind_inv in E2 as (s7 & ss & E7 & E2). unfold M_lift in E7. injection E7 as <- E7.
  apply M_bind_inv in E2 as (s8 & ok & E8 & E2). unfold M_lift in E8. injection E8 as <- E8.
  apply M_bind_inv in E2 as (s9 & a & E9 & E2). unfold M_lift in E9. injection E9 as <- E9.
  apply M_bind_inv in E2 as (s10 & u2 & E10 & E2). unfold M_modify in E10. injection E10 as <- _.
  apply M_bind_inv in E2 as (s11 & u3 & E11 & E2). unfold M_lift in E11. injection E11 as <- E11.
  apply M_bind_inv in E2 as (s12 & u4 & E12 & E2). unfold transition in E12. destruct (STATE_TRANSITIONS _ _); [|done]. injection E12 as <- _.
  unfold M_bind, M_modify, M_ret in E2. injection E2 as <- <-. cbn [auth epoch resetForNewEpoch set_epoch set_state set_auth].
  exists c1, d, data, ss, key. destruct u3. repeat (split; [done|]). split; [by exists ok|]. split; [done|]. lia.
Qed.
Lemma receiveAlice_auth m s s' rr : receiveAlice m s = (s', Ok rr) -> auth s' <> auth s ->
  m_type m = Ct2 /\ exists c k, receiveAlice_Ct2 m c s = (s', Ok k) /\ rr_output_key rr = k.
Proof.
  unfold receiveAlice. unfold M_bind at 1, M_get. case_if; [by intros [= <- _]|]. case_if; [done|].
  destruct (m_type m), (m_data m) as [data|]; try (intros [= <- _]; done).
  - case_if; [|by intros [= <- _]]. intros E Hne. exfalso. apply M_bind_inv in E as (s1 & u & E1 & E). injection E as <- _.
    apply Hne. by destruct (keeps_auth _ _ _ _ (receive_ct1_same m data) E1).
  - case_if; [|by intros [= <- _]]. intros E _. apply M_bind_inv in E as (s1 & k & E1 & E). injection E as <- <-.
    split; [done|]. by exists data, k.
Qed.

Lemma receiveBob_auth m s s' rr : receiveBob m s = (s', Ok rr) -> auth s' = auth s.
Proof.
  unfold receiveBob. unfold M_bind at 1, M_get. case_if; [by intros [= <- _]|].
  destruct (bool_decide (state s = Ct2Sampled) && (m_epoch m =? epoch s + 1)).
  { intros E. apply M_bind_inv in E as (s1 & u & E1 & E). injection E as <- _. unfold transition in E1.
    destruct (STATE_TRANSITIONS _ _); [|done]. by injection E1 as <- _. }
  case_if; [done|]. intros E. apply M_bind_inv in E as (s1 & u & E1 & E). injection E as <- _.
  by destruct (keeps_auth _ _ _ _ (receiveBob_body_same m) E1).
Qed.
End Table.

(** ** What [Send] and [Receive] return, on arbitrary states

    The shape of a message that is sent, the states a send can leave and the
    keys that are output; nothing here assumes an honest peer. *)
(** A message without a chunk, or one with an index and a chunk. *)
Definition bare (m : MLKEMBraidMessage) : Prop := m_chunkIndex m = None /\ m_data m = None.
Definition chunked (m : MLKEMBraidMessage) : Prop := exists i c, m_chunkIndex m = Some i /\ m_data m = Some c.

Definition sent_shape (s : Agent) (m : MLKEMBraidMessage) : Prop :=
  (m_type m = NoneMsg /\ bare m) \/ (m_type m = Ct1Ack /\ bare m /\ state s = EkSentCt1Received) \/
  (m_type m <> NoneMsg /\ m_type m <> Ct1Ack /\ chunked m).

Section Shape.
Context {H : HashFunctions} {K : MLKEM768}.

(** *** Messages *)
Lemma chunk_sent s type c (s' : Agent) : type <> NoneMsg -> type <> Ct1Ack -> sent_shape s (chunk_message type c s').
Proof. intros H1 H2. right. right. split; [done|]. split; [done|]. by exists c.2, c.1. Qed.

Lemma send_chunk_shape s0 ready get set x type s s' r : type <> NoneMsg -> type <> Ct1Ack -> (forall v s, state (set v s) = state s) ->
  (forall v s, epoch (set v s) = epoch s) ->
  (do c <- next_chunk ready get set x; do s <- M_get; M_ret (send_result (chunk_message type c s) None s))%st s = (s', Ok r) ->
  sent_shape s0 (sr_message r) /\ sending_epoch r = epoch s /\ m_epoch (sr_message r) = epoch s /\ state s' = state s /\ sr_output_key r = None.
Proof.
  intros H1 H2 Hset Hep E. inv_bind E c s1 E1. unfold M_bind, M_get, M_ret in E. injection E as <- <-.
  unfold next_chunk in E1. destruct (get s); [|done]. destruct (getNextEncoderChunk _ _). injection E1 as <- _.
  cbn [send_result sr_message sending_epoch sr_output_key chunk_message m_epoch]. rewrite Hset, Hep. split; [by apply chunk_sent|done].
Qed.

(** What holds of every successful send. *)
Definition send_facts (s s' : Agent) (r : SendResult) : Prop :=
  sent_shape s (sr_message r) /\ sending_epoch r = epoch s /\ m_epoch (sr_message r) = epoch s /\
  (state s' = EkSentCt1Received -> state s = EkSentCt1Received) /\
  (forall k, sr_output_key r = Some k -> ok_epoch k = epoch s /\ exists ss, KDF_OK ss (epoch s) = Ok (epoch_secret k)).

Lemma bare_facts s t : t = NoneMsg \/ (t = Ct1Ack /\ state s = EkSentCt1Received) -> send_facts s s (send_result (bare_message t s) None s).
Proof. intros Ht. split; [|done]. destruct Ht as [->|[-> Hs]]; [by left|by right; left]. Qed.

Lemma chunk_facts ready get set x type s s' r : type <> NoneMsg -> type <> Ct1Ack -> (forall v s, state (set v s) = state s) ->
  (forall v s, epoch (set v s) = epoch s) ->
  (do c <- next_chunk ready get set x; do s <- M_get; M_ret (send_result (chunk_message type c s) None s))%st s = (s', Ok r) -> send_facts s s' r.
Proof.
  intros H1 H2 Hset Hep E. apply (send_chunk_shape s) in E as (Hm & Hse & Hme & Hst & Hk); [|done..].
  split; [done|]. split; [done|]. split; [done|]. rewrite Hst, Hk. done.
Qed.

Lemma transition_inv e s s' u : transition e s = (s', Ok u) -> exists n, STATE_TRANSITIONS (state s) e = Some n /\ s' = set_state n s.
Proof. unfold transition. destruct (STATE_TRANSITIONS (state s) e) as [n|]; [|done]. intros [= <- _]. by exists n. Qed.

Lemma keygen_facts ready rb s s' r : state s = KeysUnsampled -> aliceSendFromKeysUnsampled ready rb s = (s', Ok r) -> send_facts s s' r.
Proof.
  intros Es E. unfold aliceSendFromKeysUnsampled in E.
  inv_bind E kp s1 E1. apply M_lift_inv in E1 as [-> _]. inv_bind E u s2 E2. apply M_modify_inv in E2.
  unfold M_bind at 1, M_get in E. cbn zeta in E.
  inv_bind E he s3 E3. apply M_lift_inv in E3 as [-> _]. inv_bind E u1 s4 E4. apply M_modify_inv in E4.
  inv_bind E ee s5 E5. apply M_lift_inv in E5 as [-> _]. inv_bind E u2 s6 E6. apply M_modify_inv in E6.
  inv_bind E u3 s7 E7. apply transition_inv in E7 as (n & En & E7).
  assert (Hs : state s6 = state s /\ epoch s6 = epoch s) by by rewrite E6, E4, E2. clear E6 E4 E2. destruct Hs as [Hst6 He6].
  rewrite Hst6, Es in En. injection En as <-.
  assert (Hs : state s7 = KeysSampled /\ epoch s7 = epoch s) by (rewrite E7; cbn; done). clear E7. destruct Hs as [Hst7 He7].
  apply (send_chunk_shape s) in E as (Hm & Hse & Hme & Hst & Hk); [|done..].
  split; [done|]. split; [congruence|]. split; [congruence|]. rewrite Hst, Hk, Hst7. done.
Qed.

Lemma aliceSend_facts ready rb s s' r : sendAlice ready rb s = (s', Ok r) -> send_facts s s' r.
Proof.
  unfold sendAlice, aliceSendHeaderChunk, aliceSendEkChunk. unfold M_bind at 1, M_get. destruct (state s) eqn:Es; try done.
  - by apply keygen_facts.
  - intros E. refine (chunk_facts _ _ _ _ _ _ _ _ _ _ _ _ E); done.
  - intros E. refine (chunk_facts _ _ _ _ _ _ _ _ _ _ _ _ E); done.
  - intros E. refine (chunk_facts _ _ _ _ _ _ _ _ _ _ _ _ E); done.
  - unfold M_ret. intros [= <- <-]. apply bare_facts. by right.
Qed.

Lemma sample_facts ready rb s s' r : state s = HeaderReceived -> bobSendFromHeaderReceived ready rb s = (s', Ok r) -> send_facts s s' r.
Proof.
  intros Es E. unfold bobSendFromHeaderReceived in E. unfold M_bind at 1, M_get in E.
  inv_bind E seed s1 E1. unfold present in E1. destruct (ek_seed s); [|done]. injection E1 as <- _.
  inv_bind E h s2 E2. unfold present in E2. destruct (hek s); [|done]. injection E2 as <- _.
  unfold on_throw in E. match type of E with context [M_bind ?f ?m ?st] => destruct (M_bind f m st) as [s3 [r'|x]] eqn:E3; [|done] end.
  injection E as -> ->.
  inv_bind E3 en s4 E4. apply M_lift_inv in E4 as [-> _]. inv_bind E3 u1 s5 E5. apply M_modify_inv in E5.
  inv_bind E3 u2 s6 E6. apply M_modify_inv in E6. inv_bind E3 ce s7 E7. apply M_lift_inv in E7 as [-> _].
  inv_bind E3 u3 s8 E8. apply M_modify_inv in E8. inv_bind E3 u4 s9 E9. apply M_modify_inv in E9.
  inv_bind E3 ok s10 E10. apply M_lift_inv in E10 as [-> Hok]. inv_bind E3 a s11 E11. apply M_lift_inv in E11 as [-> _].
  inv_bind E3 u5 s12 E12. apply M_modify_inv in E12. inv_bind E3 u6 s13 E13. apply transition_inv in E13 as (n & En & E13).
  assert (Hs : state s12 = state s /\ epoch s12 = epoch s) by by rewrite E12, E9, E8, E6, E5. clear E12 E9 E8 E6 E5. destruct Hs as [Hst12 He12].
  rewrite Hst12, Es in En. injection En as <-.
  assert (Hs : state s13 = Ct1Sampled /\ epoch s13 = epoch s) by (rewrite E13; cbn; done). clear E13. destruct Hs as [Hst13 He13].
  inv_bind E3 c s14 E14. unfold M_bind, M_get, M_ret in E3. injection E3 as <- <-.
  unfold next_chunk in E14. destruct (ct1Encoder s13); [|done]. destruct (getNextEncoderChunk _ _). injection E14 as <- _.
  split; [by apply chunk_sent|]. cbn. rewrite He13, Hst13. do 2 (split; [done|]). split; [done|]. intros k [= <-]. cbn. split; [done|].
  by exists (e1_shared_secret en).
Qed.

Lemma bobSend_facts ready rb s s' r : sendBob ready rb s = (s', Ok r) -> send_facts s s' r.
Proof.
  unfold sendBob, bobSendCt1Chunk, bobSendFromCt2Sampled. unfold M_bind at 1, M_get. destruct (state s) eqn:Es; try done.
  - unfold M_ret. intros [= <- <-]. apply bare_facts. by left.
  - by apply sample_facts.
  - intros E. refine (chunk_facts _ _ _ _ _ _ _ _ _ _ _ _ E); done.
  - intros E. refine (chunk_facts _ _ _ _ _ _ _ _ _ _ _ _ E); done.
  - unfold M_ret. intros [= <- <-]. apply bare_facts. by left.
  - intros E. refine (chunk_facts _ _ _ _ _ _ _ _ _ _ _ _ E); done.
Qed.

Lemma Send_facts ready rb s s' r : Send ready rb s = (s', Ok r) -> send_facts s s' r.
Proof. unfold Send. destruct (isInAliceRole s); [apply aliceSend_facts|apply bobSend_facts]. Qed.

(** *** Epochs *)
Definition same_epoch (s s' : Agent) : Prop := epoch s' = epoch s.
Lemma same_epoch_refl s : same_epoch s s.
Proof. done. Qed.
Lemma same_epoch_trans s1 s2 s3 : same_epoch s1 s2 -> same_epoch s2 s3 -> same_epoch s1 s3.
Proof. unfold same_epoch. congruence. Qed.
Lemma transition_epoch e : moves same_epoch (transition e).
Proof. intros s. unfold transition. by destruct (STATE_TRANSITIONS (state s) e). Qed.

Ltac epochs := repeat (first [apply transition_epoch | moves_step same_epoch_refl same_epoch_trans | done | progress cbn zeta]).

Lemma Send_epoch ready rb s : epoch (Send ready rb s).1 = epoch s.
Proof.
  change (same_epoch s (Send ready rb s).1). unfold Send.
  destruct (isInAliceRole s); [change (same_epoch s (sendAlice ready rb s).1)|change (same_epoch s (sendBob ready rb s).1)]; revert s.
  - change (moves same_epoch (sendAlice ready rb)).
    unfold sendAlice, aliceSendFromKeysUnsampled, aliceSendHeaderChunk, aliceSendEkChunk. epochs.
  - change (moves same_epoch (sendBob ready rb)).
    unfold sendBob, bobSendFromHeaderReceived, bobSendCt1Chunk, bobSendFromCt2Sampled. epochs.
Qed.

(** *** The keys that are received *)
Lemma receive_ct2_epoch m c s s' k : receiveAlice_Ct2 m c s = (s', Ok (Some k)) -> epoch s' = epoch s + 1.
Proof.
  unfold receiveAlice_Ct2, candidate. intros E.
  match type of E with context [M_bind ?f ?m ?st] => destruct (M_bind f m st) as [s2 [k2|x]] eqn:E2; [|done] end.
  injection E as -> ->. unfold M_bind at 1, M_get in E2. cbn zeta in E2.
  inv_bind E2 d s3 E3. injection E3 as <- _. inv_bind E2 u s4 E4. injection E4 as <- _. inv_bind E2 u' s5 E5.
  assert (H5 : epoch s5 = epoch s).
  { destruct (bool_decide (state s = Ct1Received)); [|by injection E5 as <- _].
    unfold transition in E5. destruct (STATE_TRANSITIONS _ _); [|done]. by injection E5 as <- _. }
  unfold M_bind at 1, M_get in E2. case_if_in E2; [|done].
  inv_bind E2 c1 s6 E6. unfold present in E6. destruct (ct1_decoded s5); [|done]. injection E6 as <- _.
  inv_bind E2 dt s7 E7. injection E7 as <- _. inv_bind E2 key s8 E8. unfold present in E8. destruct (dk s5); [|done]. injection E8 as <- _.
  inv_bind E2 ss s9 E9. injection E9 as <- _. inv_bind E2 ok s10 E10. injection E10 as <- _. inv_bind E2 a s11 E11. injection E11 as <- _.
  inv_bind E2 u2 s12 E12. injection E12 as <- _. inv_bind E2 u3 s13 E13. injection E13 as <- _. inv_bind E2 u4 s14 E14.
  unfold transition in E14. destruct (STATE_TRANSITIONS _ _); [|done]. injection E14 as <- _.
  unfold M_bind, M_modify, M_ret in E2. injection E2 as <- _. cbn [epoch resetForNewEpoch set_epoch set_state set_auth]. lia.
Qed.

Lemma Receive_key m s s' rr k : Receive m s = (s', Ok rr) -> rr_output_key rr = Some k ->
  ok_epoch k = epoch s /\ exists ss, KDF_OK ss (epoch s) = Ok (epoch_secret k).
Proof.
  unfold Receive. destruct (isInAliceRole s).
  - unfold receiveAlice. unfold M_bind at 1, M_get. case_if; [by intros [= <- <-]|]. case_if; [done|].
    destruct (m_type m), (m_data m) as [data|]; try (intros [= <- <-]; done).
    + case_if; [|by intros [= <- <-]]. intros E. inv_bind E u s1 E1. by injection E as <- <-.
    + case_if; [|by intros [= <- <-]]. intros E Hk. inv_bind E k' s1 E1. injection E as <- <-. cbn in Hk. subst k'.
      pose proof (receive_ct2_epoch _ _ _ _ _ E1) as He.
      apply receive_ct2_auth in E1 as (c1 & d & dt & ss & key & _ & _ & _ & _ & (ok & Hok & _ & [= ->]) & _); [|right; lia].
      split; [done|by exists ss].
  - intros E Hk. exfalso. revert E Hk. unfold receiveBob. unfold M_bind at 1, M_get. case_if; [by intros [= <- <-]|].
    case_if.
    { intros E. inv_bind E u s1 E1. inv_bind E u2 s2 E2. by injection E as <- <-. }
    case_if; [done|]. intros E. inv_bind E u s1 E1. by injection E as <- <-.
Qed.
End Shape.

(** ** The Braid when messages of type [None] are not delivered

    The driver ([spqr.ts]) gives the state machine only the messages that
    carry a type other than [None].  [carried_step] is [system_step] with this
    restriction; under it the first epoch is never left by the encapsulator. *)
Section Stall.
Context {H : HashFunctions} {K : MLKEM768}.

Inductive carried_step : Party * Party -> Party * Party -> Prop :=
  | carried_send_l ready rb A B : good_random rb -> carried_step (A, B) (party_send ready rb A, B)
  | carried_send_r ready rb A B : good_random rb -> carried_step (A, B) (A, party_send ready rb B)
  | carried_recv_l m A B : m ∈ sent B -> m_type m <> NoneMsg -> carried_step (A, B) (party_receive m A, B)
  | carried_recv_r m A B : m ∈ sent A -> m_type m <> NoneMsg -> carried_step (A, B) (A, party_receive m B).

Definition carried_run (secret : bytes) (AB : Party * Party) : Prop :=
  exists AB0, initial secret AB0 /\ rtc carried_step AB0 AB.

Lemma carried_is_step AB AB' : carried_step AB AB' -> system_step AB AB'.
Proof. intros [ready rb A B Hr|ready rb A B Hr|m A B Hin _|m A B Hin _]; by constructor. Qed.

Lemma carried_is_run secret AB : carried_run secret AB -> run secret AB.
Proof. intros (AB0 & Hi & Hr). exists AB0. split; [done|]. eapply rtc_subrel; [|exact Hr]. apply carried_is_step. Qed.

Lemma party_send_epoch ready rb p : epoch (agent (party_send ready rb p)) = epoch (agent p).
Proof.
  unfold party_send. pose proof (Send_epoch ready rb (agent p)) as He. by destruct (Send ready rb (agent p)) as [s [r|e]].
Qed.

Context {HL : HashLaws H} {KL : MLKEM768Laws K}.

(** A message with a type other than [None] leaves the encapsulator in its
    epoch. *)
Lemma phase_recv_r_carried P Q m : phase P Q -> m ∈ sent P -> m_type m <> NoneMsg ->
  phase P (party_receive m Q) /\ epoch (agent (party_receive m Q)) = epoch (agent Q).
Proof.
  intros Hp Hin Ht. unfold party_receive. destruct Hp as [a e ks Ha Hl HP HQ MP MQ OP OQ|a e kg oen ks Ha Hl Hk Hen HP HQ HC MP MQ OP OQ|a e kg en ks Ha Hl Hk Hen HP HQ Es MP MQ OP OQ];
    rewrite Forall_forall in MP; pose proof (MP m Hin) as Hm; rewrite <- Forall_forall in MP.
  - destruct (bob_start_receive a e m (agent Q) HQ Hm) as (rr & -> & Ho). rewrite Ho, app_option_None.
    split; [by eapply (phase_unsampled _ _ a e ks)|done].
  - destruct (bob_receive a e kg oen (state (agent P)) m (agent Q) Hk Hen HQ Hm) as (s' & rr & -> & Ho & Hs' & Hsame & Hpa). rewrite Ho, app_option_None.
    split; [|cbn [agent]; by rewrite (proj1 Hs'), (proj1 HQ)]. eapply (phase_running _ _ a e kg oen ks); try done; cbn [agent sent outputs].
    { destruct HC as [HC1 HC2]. split; [by intros [?|?]%Hpa; [apply HC1|]|]. intros E%HC2. by rewrite (Hsame E). }
    eapply Forall_impl; [exact MQ|]. intros m' Hm'. eapply bob_msg_grow; [|exact Hm']. intros E. by rewrite (Hsame E).
  - destruct Hm as [Hm|[_ Hm]]; [|done].
    destruct (bob_receive a e kg (Some en) EkSentCt1Received m (agent Q) Hk) as (s' & rr & -> & Ho & Hs' & Hsame & _); [by intros en' [= <-]|done|done|].
    rewrite Ho, app_option_None. split; [|cbn [agent]; by rewrite (proj1 Hs'), (proj1 HQ)]. rewrite (Hsame Es).
    by eapply (phase_done _ _ a e kg en ks).
Qed.

(** Alice generates the keys of the first epoch, Bob encapsulates and stays. *)
Definition first_epoch (AB : Party * Party) : Prop := phase AB.1 AB.2 /\ epoch (agent AB.2) = 1.

Lemma carried_first AB AB' : carried_step AB AB' -> first_epoch AB -> first_epoch AB'.
Proof.
  intros [ready rb A B Hrb|ready rb A B Hrb|m A B Hin Ht|m A B Hin Ht] [Hp He]; unfold first_epoch; cbn [fst snd] in *.
  - split; [by apply phase_send_l|done].
  - split; [by apply phase_send_r|by rewrite party_send_epoch].
  - split; [by apply phase_recv_l|done].
  - destruct (phase_recv_r_carried A B m Hp Hin Ht) as [? ->]. done.
Qed.

Lemma initial_first secret AB : length secret = 32%nat -> initial secret AB -> first_epoch AB.
Proof.
  intros Hs Hi. destruct Hi as (a & b & Ea & Eb & ->). unfold InitAlice, InitBob in *.
  set (z := {| root_key := replicate 32 0; mac_key := replicate 32 0 |}).
  assert (E : initAuthenticatorState secret = Ok (auth_after z 0 secret)).
  { unfold initAuthenticatorState, auth_Init. by apply auth_Update_ok. }
  rewrite E in *. cbn [mbind result_bind] in *. apply Ok_inj in Ea as <-, Eb as <-. split; [|done].
  eapply (phase_unsampled _ _ (auth_after z 0 secret) 1 []); try done; try constructor; try done. apply auth_after_ok.
Qed.

Lemma carried_run_first secret AB : length secret = 32%nat -> carried_run secret AB -> first_epoch AB.
Proof.
  intros Hs (AB0 & H0 & Hr). apply (initial_first secret AB0 Hs) in H0. clear Hs.
  induction Hr as [|x y z Hstep _ IH]; [done|]. apply IH. by eapply carried_first.
Qed.

Lemma first_epoch_bounds AB : first_epoch AB ->
  epoch (agent AB.2) = 1 /\ 1 <= epoch (agent AB.1) <= 2 /\
  (length (outputs AB.1) <= 1)%nat /\ (length (outputs AB.2) <= 1)%nat /\ isInAliceRole (agent AB.2) = false.
Proof.
  intros [Hp He]. destruct (phase_roles _ _ Hp) as (Hle & _). split; [done|]. split; [lia|].
  destruct Hp as [a e ks Ha Hl HP HQ MP MQ OP OQ|a e kg oen ks Ha Hl Hk Hen HP HQ HC MP MQ OP OQ|a e kg en ks Ha Hl Hk Hen HP HQ Es MP MQ OP OQ].
  - assert (e = 1) as -> by (destruct HQ as (_ & E & _); congruence). destruct ks; [|unfold len in Hl; cbn in Hl; lia].
    rewrite OP, OQ. split; [cbn; lia|]. split; [cbn; lia|]. unfold isInAliceRole. by rewrite (proj1 HQ).
  - assert (e = 1) as -> by (destruct HQ as (E & _); congruence). destruct ks; [|unfold len in Hl; cbn in Hl; lia].
    rewrite OP, OQ. split; [cbn; lia|]. split; [destruct oen; cbn; lia|]. by eapply bob_at_role.
  - assert (e = 1) as -> by (destruct HQ as (E & _); congruence). destruct ks; [|unfold len in Hl; cbn in Hl; lia].
    rewrite OP, OQ. split; [cbn; lia|]. split; [cbn; lia|]. by eapply bob_at_role.
Qed.
End Stall.
