(* ===== verification/BraidBurst.v ===== *)
(** * How far the encoders of an agent advance

    A reception advances no encoder, a send advances one encoder by one
    chunk; this holds on arbitrary states and for calls that throw. *)
From S2P Require Import Prelude Crypto GaloisField Lagrange ErasureCodec BraidState BraidAuth Braid BraidInv BraidTable ErasureProofs BraidSides BraidSystem.

Section Cursor.
Context {H : HashFunctions} {K : MLKEM768}.

(** [within k]: at most [k] chunks are emitted. *)
Definition within (k : Z) (s s' : Agent) : Prop := forall n, 0 <= n -> used n s -> used (n + k) s'.

Lemma within_refl s : within 0 s s.
Proof. intros n _ Hs. by rewrite Z.add_0_r. Qed.
Lemma within_trans j k s1 s2 s3 : 0 <= j -> within j s1 s2 -> within k s2 s3 -> within (j + k) s1 s3.
Proof. intros Hj H1 H2 n Hn Hs. rewrite Z.add_assoc. apply H2; [lia|]. by apply H1. Qed.
Lemma within_trans0 s1 s2 s3 : within 0 s1 s2 -> within 0 s2 s3 -> within 0 s1 s3.
Proof. intros H1 H2. by apply (within_trans 0 0 s1 s2 s3). Qed.

Lemma cursor_le_mono n n' o : n <= n' -> cursor_le n o -> cursor_le n' o.
Proof. intros Hn Ho e E. specialize (Ho e E). lia. Qed.
Lemma used_mono n n' s : n <= n' -> used n s -> used n' s.
Proof. intros Hn (? & ? & ? & ?). repeat split; by apply (cursor_le_mono n). Qed.
Lemma cursor_le_None n : cursor_le n None.
Proof. by intros e. Qed.
Lemma cursor_le_new n data e : 0 <= n -> createEncoderState data = Ok e -> cursor_le n (Some e).
Proof.
  intros Hn E e' [= <-]. unfold createEncoderState in E. destruct (new_PolyEncoder true data ∅).2; [|done].
  cbn [mbind result_bind] in E. injection E as <-. exact Hn.
Qed.

(** A decision, for evaluation. *)
Definition usedb (n : Z) (s : Agent) : bool :=
  forallb (fun o => match o with Some e => be_currentChunk e <=? n | None => true end)
    [headerEncoder s; ekEncoder s; ct1Encoder s; ct2Encoder s].
Lemma usedb_ok n s : usedb n s = true -> used n s.
Proof.
  unfold usedb. cbn [forallb]. rewrite !andb_true_iff. intros (H1 & H2 & H3 & H4 & _).
  split; [|split; [|split]]; intros e E; rewrite ?E in *; lia.
Qed.

(** *** Steps that leave the encoders alone, or install a new one *)
Lemma moves_lift_bind R {A B} (r : result A) (f : A -> M Agent B) : (forall s, R s s) ->
  (forall a, r = Ok a -> moves R (f a)) -> moves R (M_bind f (M_lift r)).
Proof. intros Rr Hf s. unfold M_bind, M_lift. destruct r as [a|e]; [by apply Hf|apply Rr]. Qed.

Lemma transition_within e : moves (within 0) (transition e).
Proof. intros s. unfold transition. destruct (STATE_TRANSITIONS (state s) e); intros n _ Hs; rewrite Z.add_0_r; exact Hs. Qed.

Lemma reset_within p s : within 0 s (resetForNewEpoch p s).
Proof. intros n Hn _. repeat split; apply cursor_le_None. Qed.

Lemma within_fields s s' :
  (forall n, 0 <= n -> used n s -> cursor_le n (headerEncoder s')) -> (forall n, 0 <= n -> used n s -> cursor_le n (ekEncoder s')) ->
  (forall n, 0 <= n -> used n s -> cursor_le n (ct1Encoder s')) -> (forall n, 0 <= n -> used n s -> cursor_le n (ct2Encoder s')) ->
  within 0 s s'.
Proof. intros H1 H2 H3 H4 n Hn Hs. rewrite Z.add_0_r. repeat split; auto. Qed.

Ltac fields := intros s; first [apply reset_within | apply within_fields; intros n Hn (? & ? & ? & ?); projs;
  solve [assumption | apply cursor_le_None | eapply cursor_le_new; eassumption]].

Ltac cursors := repeat (first
  [ match goal with |- forall _, within _ _ _ => fields end
  | apply transition_within
  | apply (moves_lift_bind _ _ _ within_refl); intros ? ?
  | moves_step within_refl within_trans0 | fields | progress cbn zeta ]).

Lemma bobSampleCt2_within : moves (within 0) bobSampleCt2.
Proof. unfold bobSampleCt2. cursors. Qed.

Lemma Receive_within m : moves (within 0) (Receive m).
Proof.
  intros s. unfold Receive. pose proof bobSampleCt2_within.
  destruct (isInAliceRole s); revert s; [change (moves (within 0) (receiveAlice m))|change (moves (within 0) (receiveBob m))].
  - unfold receiveAlice, receiveAlice_Ct1, receiveAlice_Ct2. cursors.
  - unfold receiveBob, receiveBob_body, receiveBob_Hdr, receiveBob_Ek. cursors; done.
Qed.

(** *** Sends *)
Lemma moves_mono (R R' : Agent -> Agent -> Prop) {A} (m : M Agent A) : (forall s s', R s s' -> R' s s') -> moves R m -> moves R' m.
Proof. intros HR Hm s. apply HR, Hm. Qed.

Lemma within_1 s s' : within 0 s s' -> within 1 s s'.
Proof. intros Hw n Hn Hs. apply (used_mono (n + 0)); [lia|]. by apply Hw. Qed.

Lemma moves_first {A B} (m : M Agent A) (f : A -> M Agent B) :
  moves (within 0) m -> (forall a, moves (within 1) (f a)) -> moves (within 1) (M_bind f m).
Proof.
  intros Hm Hf s. unfold M_bind. specialize (Hm s). destruct (m s) as [s' [a|e]]; [|by apply within_1].
  apply (within_trans 0 1 s s'); [done..|apply Hf].
Qed.

Lemma moves_last {A B} (m : M Agent A) (f : A -> M Agent B) :
  moves (within 1) m -> (forall a, moves (within 0) (f a)) -> moves (within 1) (M_bind f m).
Proof.
  intros Hm Hf s. unfold M_bind. specialize (Hm s). destruct (m s) as [s' [a|e]]; [|done].
  apply (within_trans 1 0 s s'); [lia|done|apply Hf].
Qed.

Lemma moves_lift_first {A B} (r : result A) (f : A -> M Agent B) :
  (forall a, r = Ok a -> moves (within 1) (f a)) -> moves (within 1) (M_bind f (M_lift r)).
Proof. intros Hf s. unfold M_bind, M_lift. destruct r as [a|e]; [by apply Hf|]. apply within_1, within_refl. Qed.

Lemma getNext_cursor ready e : be_currentChunk (getNextEncoderChunk ready e).1 <= be_currentChunk e + 1.
Proof.
  unfold getNextEncoderChunk, M_bind at 1. unfold restoreEncoder.
  assert (Hk : forall p st, be_currentChunk st = be_currentChunk e ->
    be_currentChunk ((if negb (hasMoreChunks p) then M_throw (Error "Braid encoder exhausted all GF(2^16) evaluation points")
      else do st <- M_get; let index := be_currentChunk st in let (encoder, r) := nextChunk p in
        do_ M_modify (set_be_encoder (Some encoder)); do chunk <- M_lift r;
        do_ M_modify (fun st => {| be_data := be_data st; be_currentChunk := be_currentChunk st + 1;
                               be_totalChunks := be_totalChunks st; be_isComplete := isDataComplete encoder;
                               be_encoder := be_encoder st |}); M_ret (chunk, index))%st st).1 <= be_currentChunk e + 1).
  { intros p st E. case_if; [unfold M_throw; cbn; lia|]. unfold M_bind at 1, M_get. cbn zeta.
    destruct (nextChunk p) as [encoder [c|x]]; cbn; lia. }
  destruct (be_encoder e) as [p|]; [by apply Hk|]. destruct (restore _ _ _ _).2 as [p|x]; [by apply Hk|cbn; lia].
Qed.

Lemma next_chunk_within ready get set x :
  (forall n s, used n s -> cursor_le n (get s)) ->
  (forall n e s, used n s -> cursor_le (n + 1) (Some e) -> used (n + 1) (set (Some e) s)) ->
  moves (within 1) (next_chunk ready get set x).
Proof.
  intros Hget Hset s. unfold next_chunk. destruct (get s) as [e|] eqn:E; [|apply within_1, within_refl].
  pose proof (getNext_cursor ready e) as Hc. destruct (getNextEncoderChunk ready e) as [e' r]. cbn [fst] in *.
  intros n Hn Hs. apply Hset; [done|]. intros e2 [= <-]. pose proof (Hget n s Hs e E). lia.
Qed.

Ltac sending := apply next_chunk_within; [by intros n s (? & ? & ? & ?)|
  intros n e s (? & ? & ? & ?) ?; repeat split; projs; try done; by apply (cursor_le_mono n); [lia|]].

Lemma header_chunk_within ready x : moves (within 1) (next_chunk ready headerEncoder set_headerEncoder x).
Proof. sending. Qed.
Lemma ek_chunk_within ready x : moves (within 1) (next_chunk ready ekEncoder set_ekEncoder x).
Proof. sending. Qed.
Lemma ct1_chunk_within ready x : moves (within 1) (next_chunk ready ct1Encoder set_ct1Encoder x).
Proof. sending. Qed.
Lemma ct2_chunk_within ready x : moves (within 1) (next_chunk ready ct2Encoder set_ct2Encoder x).
Proof. sending. Qed.

Ltac emit := apply moves_last; [solve [apply header_chunk_within | apply ek_chunk_within | apply ct1_chunk_within | apply ct2_chunk_within]
  |intros ?; cursors].

Lemma moves_on_throw_1 {A} f (m : M Agent A) : (forall s, within 0 s (f s)) -> moves (within 1) m -> moves (within 1) (on_throw f m).
Proof.
  intros Hf Hm s. specialize (Hm s). unfold on_throw. destruct (m s) as [s' [a|e]]; [done|].
  apply (within_trans 1 0 s s'); [lia|done|apply Hf].
Qed.

Lemma sample_ct1_within ready rb : moves (within 1) (bobSendFromHeaderReceived ready rb).
Proof.
  unfold bobSendFromHeaderReceived. do 3 (apply moves_first; [cursors|intros ?]).
  apply moves_on_throw_1; [unfold clear_encapsulation; fields|].
  do 11 (first [emit | apply moves_lift_first; intros ? ? | apply moves_first; [cursors|intros ?]]).
Qed.

Lemma first_send_within ready rb : moves (within 1) (aliceSendFromKeysUnsampled ready rb).
Proof.
  unfold aliceSendFromKeysUnsampled, aliceSendHeaderChunk. cbn zeta.
  do 9 (first [emit | apply moves_lift_first; intros ? ? | apply moves_first; [cursors|intros ?]]).
Qed.

Lemma Send_within ready rb : moves (within 1) (Send ready rb).
Proof.
  intros s. unfold Send. destruct (isInAliceRole s); revert s; [change (moves (within 1) (sendAlice ready rb))|change (moves (within 1) (sendBob ready rb))].
  - unfold sendAlice. apply moves_first; [cursors|]. intros s.
    destruct (state s); try (apply (moves_mono _ _ _ within_1); by cursors); try apply first_send_within;
      unfold aliceSendHeaderChunk, aliceSendEkChunk; emit.
  - unfold sendBob. apply moves_first; [cursors|]. intros s.
    destruct (state s); try (apply (moves_mono _ _ _ within_1); by cursors); try apply sample_ct1_within;
      unfold bobSendCt1Chunk, bobSendFromCt2Sampled; emit.
Qed.
End Cursor.

(** ** Bursts of chunks

    One party sends a number of chunks, the other receives them one after the
    other.  [sends_active]: a burst puts a message for each of its indices on
    the network.  [burst]: receiving as many different chunks as the decoder
    requires ends the collection. *)
Section Burst.
Context {H : HashFunctions} {HL : HashLaws H} {K : MLKEM768} {KL : MLKEM768Laws K}.

Lemma swap_step A B A' B' : system_step (A, B) (A', B') -> system_step (B, A) (B', A').
Proof. intros Hs. inversion Hs; subst; by constructor. Qed.

Lemma swap_steps x y : rtc system_step x y -> rtc system_step (x.2, x.1) (y.2, y.1).
Proof.
  induction 1 as [|[A B] [A' B'] y Hs _ IH]; [done|]. eapply rtc_l; [|exact IH]. by apply swap_step.
Qed.

(** ** A burst of receptions *)
Section Receptions.
Context (X : Party) (I G : Party -> Prop) (Msg : MLKEMBraidMessage -> Prop)
  (dec : Agent -> option BraidDecoder) (req : Z).
Context (Hstep : forall R m, I R -> m ∈ sent X -> Msg m ->
    G (party_receive m R) \/ (I (party_receive m R) /\ gained m (dec (agent R)) (dec (agent (party_receive m R))))).
Context (Hreq : forall R d, I R -> dec (agent R) = Some d -> bd_requiredChunks d = req).

Definition available (i : Z) : Prop := exists m, m ∈ sent X /\ Msg m /\ m_chunkIndex m = Some i.
Definition received (done : list Z) (R : Party) : Prop :=
  done = [] \/ exists d, dec (agent R) = Some d /\ isDecoderComplete d = false /\ done ⊆ idxs d.

Lemma received_bound done R : I R -> NoDup done -> 1 <= req -> received done R -> len done < req.
Proof.
  intros HI Hnd Hr [->|(d & Hd & Hc & Hs)]; [unfold len; cbn; lia|]. apply NoDup_submseteq in Hs; [|done].
  apply submseteq_length in Hs. unfold isDecoderComplete in Hc. rewrite (Hreq R d HI Hd) in Hc.
  unfold idxs in Hs. rewrite length_map in Hs. unfold len in *. lia.
Qed.

Lemma burst_from todo : forall done R, 1 <= req -> NoDup (todo ++ done) -> req <= len (todo ++ done) ->
  Forall available todo -> I R -> received done R -> exists R', G R' /\ rtc system_step (X, R) (X, R').
Proof.
  induction todo as [|i todo IH]; intros done R Hr Hnd Hlen Hav HI Hrec.
  - pose proof (received_bound done R HI Hnd Hr Hrec) as Hb. cbn [app] in Hlen. lia.
  - apply Forall_cons in Hav as [(m & Hm & HM & Hi) Hav].
    destruct (Hstep R m HI Hm HM) as [HG|[HI' Hg]].
    + exists (party_receive m R). split; [done|]. by apply rtc_once, step_recv_r.
    + assert (Hperm : todo ++ i :: done ≡ₚ (i :: todo) ++ done) by (cbn; symmetry; apply Permutation_middle).
      destruct (IH (i :: done) (party_receive m R)) as (R' & HG & Hs); try done.
      * by rewrite Hperm.
      * unfold len in *. by rewrite Hperm.
      * right. destruct Hg as (j & d' & Hj & Hd' & Hc & Hin & Hsub). rewrite Hi in Hj. injection Hj as <-.
        exists d'. do 2 (split; [done|]). intros x Hx. apply elem_of_cons in Hx as [->|Hx]; [done|].
        destruct Hrec as [->|(d & Hd & _ & Hs)]; [by apply elem_of_nil in Hx|]. eapply Hsub, Hs; done.
      * exists R'. split; [done|]. eapply rtc_l; [by apply step_recv_r|done].
Qed.

Lemma burst l R : 1 <= req -> NoDup l -> req <= len l -> Forall available l -> I R ->
  exists R', G R' /\ rtc system_step (X, R) (X, R').
Proof.
  intros Hr Hnd Hlen Hav HI. apply (burst_from l []); rewrite ?app_nil_r; try done. by left.
Qed.
End Receptions.

(** ** A burst of sends *)
Definition active_encoder (s : Agent) : option BraidEncoder :=
  match state s with
  | KeysSampled => headerEncoder s
  | HeaderSent | Ct1Received => ekEncoder s
  | Ct1Sampled | EkReceivedCt1Sampled => ct1Encoder s
  | Ct2Sampled => ct2Encoder s
  | _ => None
  end.

Definition active_type (s : MLKEMBraidState) : MessageType :=
  match s with
  | KeysSampled => Hdr | HeaderSent => Ek | Ct1Received => EkCt1Ack
  | Ct1Sampled | EkReceivedCt1Sampled => Ct1 | Ct2Sampled => Ct2 | _ => NoneMsg
  end.

(** The encoder of the present state can emit. *)
Definition emits (s : Agent) : Prop := exists data enc, valid_data data /\ active_encoder s = Some enc /\ enc_good data enc.
Definition position (s : Agent) : Z := match active_encoder s with Some e => be_currentChunk e | None => 65536 end.

Lemma position_used n s : emits s -> used n s -> position s <= n.
Proof.
  intros (data & enc & _ & Ha & _) (H1 & H2 & H3 & H4). unfold position. rewrite Ha. unfold active_encoder in Ha.
  destruct (state s); try done; auto.
Qed.

Ltac active Hsend Hrole Es get set x :=
  apply (Hsend get set x);
    [assumption
    |intros o; unfold active_encoder; projs; by rewrite Es
    |unfold Send; rewrite Hrole; first [unfold sendAlice; unfold M_bind at 1, M_get at 1; by rewrite Es
                                       |unfold sendBob; unfold M_bind at 1, M_get at 1; by rewrite Es]].

Lemma send_active rb s : emits s -> position s < 65536 ->
  exists s' sr, Send true rb s = (s', Ok sr) /\ state s' = state s /\ epoch s' = epoch s /\ emits s' /\
    position s' = position s + 1 /\ m_type (sr_message sr) = active_type (state s) /\
    m_epoch (sr_message sr) = epoch s /\ m_chunkIndex (sr_message sr) = Some (position s).
Proof.
  intros (data & enc & Hv & Ha & Hg) Hp. unfold position in *. rewrite Ha in *.
  assert (Hsend : forall get set missing, get s = Some enc ->
    (forall o, state (set o s) = state s /\ epoch (set o s) = epoch s /\ active_encoder (set o s) = o) ->
    Send true rb s = (do c <- next_chunk true get set missing; do s1 <- M_get;
      M_ret (send_result (chunk_message (active_type (state s)) c s1) None s1))%st s ->
    exists s' sr, Send true rb s = (s', Ok sr) /\ state s' = state s /\ epoch s' = epoch s /\ emits s' /\
      match active_encoder s' with Some e => be_currentChunk e | None => 65536 end = be_currentChunk enc + 1 /\
      m_type (sr_message sr) = active_type (state s) /\ m_epoch (sr_message sr) = epoch s /\
      m_chunkIndex (sr_message sr) = Some (be_currentChunk enc)).
  { intros get set missing Hget Hset ->.
    destruct (next_chunk_ok data true get set missing s Hv) as (e' & r & E & Ge & Hr); [by rewrite Hget; apply holds_Some|].
    unfold M_bind at 1. rewrite E. destruct (Hset (Some e')) as (Hs & He & Hact). destruct r as [c|x].
    - destruct Hr as (_ & _ & Hr). destruct (Hr enc Hget) as [Hc Hn]. eexists _, _. split; [reflexivity|].
      rewrite Hs, He, Hact. do 2 (split; [done|]). split; [by exists data, e'|]. split; [done|].
      cbn. by rewrite He, Hc.
    - exfalso. destruct (Hr enc Hget) as [?|[? _]]; [lia|done]. }
  assert (Hrole : isInAliceRole s = bool_decide (state s ∈ ALICE_STATES)) by done.
  unfold active_encoder in Ha. destruct (state s) eqn:Es; try done.
  - active Hsend Hrole Es headerEncoder set_headerEncoder (Error "No header encoder").
  - active Hsend Hrole Es ekEncoder set_ekEncoder (Error "No ek encoder").
  - active Hsend Hrole Es ekEncoder set_ekEncoder (Error "No ek encoder").
  - active Hsend Hrole Es ct1Encoder set_ct1Encoder (Error "No CT1 encoder").
  - active Hsend Hrole Es ct1Encoder set_ct1Encoder (Error "No CT1 encoder").
  - active Hsend Hrole Es ct2Encoder set_ct2Encoder (Error "No CT2 encoder").
Qed.

Definition zero_random (n : nat) : bytes := replicate n 0.
Lemma zero_random_good : good_random zero_random.
Proof. intros n. apply length_replicate. Qed.

Fixpoint sends (k : nat) (X : Party) : Party :=
  match k with O => X | S k => sends k (party_send true zero_random X) end.

Lemma sends_steps k : forall X Y, rtc system_step (X, Y) (sends k X, Y).
Proof.
  induction k as [|k IH]; intros X Y; [done|]. cbn [sends]. eapply rtc_l; [|apply IH].
  apply step_send_l, zero_random_good.
Qed.
Lemma sends_phase_l k : forall P Q, phase P Q -> phase (sends k P) Q.
Proof. induction k as [|k IH]; intros P Q Hp; [done|]. apply IH, phase_send_l; [apply zero_random_good|done]. Qed.
Lemma sends_phase_r k : forall P Q, phase P Q -> phase P (sends k Q).
Proof. induction k as [|k IH]; intros P Q Hp; [done|]. apply IH, phase_send_r; [apply zero_random_good|done]. Qed.

Lemma party_send_agent ready rb X : agent (party_send ready rb X) = (Send ready rb (agent X)).1.
Proof. unfold party_send. by destruct (Send ready rb (agent X)) as [s [r|e]]. Qed.
Lemma party_receive_agent m X : agent (party_receive m X) = (Receive m (agent X)).1.
Proof. unfold party_receive. by destruct (Receive m (agent X)) as [s [r|e]]. Qed.
Lemma party_receive_used m n X : 0 <= n -> used n (agent X) -> used n (agent (party_receive m X)).
Proof. intros Hn Hu. rewrite party_receive_agent, <- (Z.add_0_r n). by apply Receive_within. Qed.

Lemma sends_used k : forall n X, 0 <= n -> used n (agent X) -> used (n + Z.of_nat k) (agent (sends k X)).
Proof.
  induction k as [|k IH]; intros n X Hn Hu; cbn [sends]; [by rewrite Z.add_0_r|].
  replace (n + Z.of_nat (S k)) with ((n + 1) + Z.of_nat k) by lia. apply IH; [lia|].
  rewrite party_send_agent. by apply Send_within.
Qed.

Lemma sends_sent k : forall X, sent X ⊆ sent (sends k X).
Proof.
  induction k as [|k IH]; intros X; cbn [sends]; [done|]. etransitivity; [|apply IH].
  unfold party_send. destruct (Send _ _ _) as [s [r|e]]; cbn [sent]; [by apply list_subseteq_app_l|done].
Qed.

(** A burst puts a message for each index on the network. *)
Lemma sends_active k : forall X, emits (agent X) -> position (agent X) + Z.of_nat k <= 65536 ->
  state (agent (sends k X)) = state (agent X) /\ epoch (agent (sends k X)) = epoch (agent X) /\
  forall i, position (agent X) <= i < position (agent X) + Z.of_nat k ->
    exists m, m ∈ sent (sends k X) /\ m_type m = active_type (state (agent X)) /\ m_epoch m = epoch (agent X) /\
      m_chunkIndex m = Some i.
Proof.
  induction k as [|k IH]; intros X He Hp; cbn [sends]; [split; [done|split; [done|intros; lia]]|].
  destruct (send_active zero_random (agent X) He) as (s' & sr & E & Hs & Hep & He' & Hpos & Ht & Hme & Hi); [lia|].
  assert (Ea : agent (party_send true zero_random X) = s') by (by rewrite party_send_agent, E).
  assert (Hin : sr_message sr ∈ sent (party_send true zero_random X)).
  { unfold party_send. rewrite E. cbn [sent]. apply elem_of_app. right. by apply list_elem_of_singleton. }
  destruct (IH (party_send true zero_random X)) as (IH1 & IH2 & IH3); rewrite ?Ea in *; [done|lia|].
  rewrite IH1, IH2, Hs, Hep. do 2 (split; [done|]). intros i Hi'.
  destruct (decide (i = position (agent X))) as [->|Hne].
  - exists (sr_message sr). split; [by apply sends_sent|]. by rewrite Ht, Hme.
  - destruct (IH3 i) as (m & Hm & H1 & H2 & H3); [lia|]. exists m. by rewrite H1, H2, H3, Hs, Hep.
Qed.
End Burst.
