(* ===== verification/BraidLiveness.v ===== *)
(** * The stages of an epoch

    From every state of an epoch, one burst of chunks leads to the next stage;
    the stages end with both parties in the next epoch. *)
From S2P Require Import Prelude Crypto GaloisField Lagrange ErasureCodec ErasureProofs BraidState BraidAuth Braid BraidInv BraidSides BraidSystem BraidTable BraidBurst.

Section Stages.
Context {H : HashFunctions} {HL : HashLaws H} {K : MLKEM768} {KL : MLKEM768Laws K}.

(** ** Receptions within the epoch *)
Lemma progress_r P Q m : phase P Q -> epoch (agent P) = epoch (agent Q) -> m ∈ sent P -> m_epoch m = epoch (agent Q) ->
  phase P (party_receive m Q) /\ epoch (agent (party_receive m Q)) = epoch (agent Q) /\
  bob_progress m (agent Q) (agent (party_receive m Q)).
Proof.
  intros Hp Hep Hin Hme.
  enough ((phase P (party_receive m Q) \/ phase (party_receive m Q) P) /\ epoch (agent (party_receive m Q)) = epoch (agent Q) /\
    isInAliceRole (agent (party_receive m Q)) = false /\ bob_progress m (agent Q) (agent (party_receive m Q))) as (Hor & He & Hr & Hb).
  { split; [|done]. destruct Hor as [?|Hp']; [done|]. exfalso. apply phase_roles in Hp' as (_ & _ & Hp').
    rewrite Hp' in Hr; [done|congruence]. }
  split; [by apply phase_recv_r|]. rewrite party_receive_agent.
  destruct Hp as [a e ks Ha Hl HP HQ MP MQ OP OQ|a e kg oen ks Ha Hl Hk Hen HP HQ HC MP MQ OP OQ|a e kg en ks Ha Hl Hk Hen HP HQ Es MP MQ OP OQ].
  - exfalso. rewrite Forall_forall in MP. specialize (MP m Hin). destruct HQ as (_ & EQ & _). lia.
  - rewrite Forall_forall in MP. destruct (bob_receive a e kg oen _ m (agent Q) Hk Hen HQ (MP m Hin)) as (s' & rr & -> & _ & Hs' & _ & _ & Hb).
    cbn [fst]. split; [destruct Hs' as [-> _], HQ as [-> _]; done|]. split; [by eapply bob_at_role|done].
  - exfalso. destruct HP as (_ & EP & _), HQ as (EQ & _). lia.
Qed.

Lemma progress_l P Q m : phase P Q -> epoch (agent P) = epoch (agent Q) -> m ∈ sent Q -> m_epoch m = epoch (agent P) ->
  let P' := party_receive m P in
  phase P' Q /\ (epoch (agent P') = epoch (agent P) + 1 \/
    (epoch (agent P') = epoch (agent P) /\ alice_progress m (agent P) (agent P'))).
Proof.
  intros Hp Hep Hin Hme. cbn zeta. split; [by apply phase_recv_l|]. rewrite party_receive_agent.
  destruct Hp as [a e ks Ha Hl HP HQ MP MQ OP OQ|a e kg oen ks Ha Hl Hk Hen HP HQ HC MP MQ OP OQ|a e kg en ks Ha Hl Hk Hen HP HQ Es MP MQ OP OQ];
    rewrite Forall_forall in MQ; pose proof (MQ m Hin) as Hm.
  - right. destruct (alice_start_receive a e m (agent P) HP Hm) as (rr & -> & _). cbn [fst]. split; [done|].
    destruct HP as [Es _]. intros _. rewrite Es. by destruct (m_type m).
  - destruct (alice_receive a e kg oen _ m (agent P) Hk Hen Ha HP Hm) as (s' & rr & -> & Hr). cbn [fst].
    destruct HP as (EP & _). destruct Hr as [(_ & (Es' & _) & _ & _ & Hpr)|(en & _ & _ & _ & (_ & Es' & _))]; [right|left].
    + split; [congruence|done].
    + rewrite Es', EP. done.
  - exfalso. destruct HP as (_ & EP & _), HQ as (EQ & _). lia.
Qed.

(** ** Encoders and decoders of a phase *)
Lemma emits_holds s data : valid_data data -> holds data (active_encoder s) -> emits s.
Proof. intros Hv (e & ? & ?). by exists data, e. Qed.

Lemma phase_emits_l P Q : phase P Q -> epoch (agent P) = epoch (agent Q) ->
  state (agent P) = KeysSampled \/ state (agent P) = Ct1Received -> emits (agent P).
Proof.
  intros [a e ks _ _ HP _ _ _ _ _|a e kg oen ks _ _ Hk _ HP _ _ _ _ _ _|a e kg en ks _ _ _ _ HP HQ _ _ _ _ _] Hep Hs.
  - destruct HP as (E & _). rewrite E in Hs. by destruct Hs.
  - destruct HP as (_ & _ & _ & Hh & Hek & _). destruct Hs as [Hs|Hs].
    + apply (emits_holds _ (header_of a e kg)); [by apply header_valid|]. unfold active_encoder. by rewrite Hs.
    + apply (emits_holds _ (kg_ek_vector kg)); [by apply vector_valid|]. unfold active_encoder. by rewrite Hs.
  - destruct HP as (_ & EP & _), HQ as (EQ & _). lia.
Qed.

Lemma phase_emits_r P Q : phase P Q -> state (agent Q) ∈ [Ct1Sampled; EkReceivedCt1Sampled; Ct2Sampled] -> emits (agent Q).
Proof.
  assert (Hbob : forall a e kg oen s, kg_ok kg -> (forall en, oen = Some en -> en_ok kg en) -> bob_at a e kg oen s ->
    state s ∈ [Ct1Sampled; EkReceivedCt1Sampled; Ct2Sampled] -> emits s).
  { intros a e kg oen s Hk Hen [_ Hb] Hs. rewrite !elem_of_cons, elem_of_nil in Hs. destruct Hs as [Hs|[Hs|[Hs|[]]]]; rewrite Hs in Hb.
    - destruct Hb as (en & -> & _ & _ & _ & _ & _ & Hh & _). apply (emits_holds _ (e1_ct1 en)); [apply (ct1_valid kg); auto|].
      unfold active_encoder. by rewrite Hs.
    - destruct Hb as (en & -> & _ & _ & _ & _ & _ & Hh). apply (emits_holds _ (e1_ct1 en)); [apply (ct1_valid kg); auto|].
      unfold active_encoder. by rewrite Hs.
    - destruct Hb as (en & -> & _ & Hh). apply (emits_holds _ (ct2mac_of a e kg en)); [apply ct2mac_valid; auto|].
      unfold active_encoder. by rewrite Hs. }
  intros [a e ks _ _ _ HQ _ _ _ _|a e kg oen ks _ _ Hk Hen _ HQ _ _ _ _ _|a e kg en ks _ _ Hk Hen _ HQ _ _ _ _ _] Hs.
  - destruct HQ as (E & _). rewrite E in Hs. rewrite !elem_of_cons, elem_of_nil in Hs. intuition discriminate.
  - by eapply Hbob.
  - eapply Hbob; [exact Hk| |exact HQ|done]. by intros ? [= <-].
Qed.

Lemma collects_req data o d : collects data o -> o = Some d -> bd_requiredChunks d = chunks_of (len data).
Proof. intros (d' & -> & _ & Hr & _) [= <-]. done. Qed.
Lemma may_collect_req data o d : may_collect data o -> o = Some d -> bd_requiredChunks d = chunks_of (len data).
Proof. intros [->|Hc] E; [done|by eapply collects_req]. Qed.

(** The decoder that collects in a state requires the chunks of its message. *)
Lemma phase_req_r P Q d : phase P Q -> epoch (agent P) = epoch (agent Q) ->
  (state (agent P) = KeysSampled -> state (agent Q) = NoHeaderReceived -> headerDecoder (agent Q) = Some d -> bd_requiredChunks d = 3) /\
  (state (agent Q) = Ct1Sampled \/ state (agent Q) = Ct1Acknowledged -> ekDecoder (agent Q) = Some d -> bd_requiredChunks d = 36).
Proof.
  intros [a e ks _ _ HP HQ _ _ _ _|a e kg oen ks _ _ Hk _ HP HQ _ _ _ _ _|a e kg en ks _ _ _ _ HP HQ _ _ _ _ _] Hep.
  - destruct HP as (EP & _), HQ as (EQ & _). split; [congruence|]. intros [?|?]; congruence.
  - destruct HQ as [_ HQ]. split.
    + intros _ Es. rewrite Es in HQ. destruct HQ as (_ & _ & Hc & _). destruct (header_valid a e kg Hk) as [_ Hl].
      intros E. rewrite (collects_req _ _ _ Hc E), Hl. done.
    + destruct (vector_valid kg Hk) as [_ Hl].
      intros [Es|Es] E; rewrite Es in HQ; destruct HQ as (en & _ & _ & _ & _ & _ & _ & _ & Hc);
        rewrite (may_collect_req _ _ _ Hc E), Hl; done.
  - destruct HP as (_ & EP & _), HQ as (EQ & _). lia.
Qed.

Lemma phase_req_l P Q d : phase P Q -> epoch (agent P) = epoch (agent Q) ->
  (state (agent P) = KeysSampled \/ state (agent P) = HeaderSent -> ct1Decoder (agent P) = Some d -> bd_requiredChunks d = 30) /\
  (state (agent P) = Ct1Received \/ state (agent P) = EkSentCt1Received -> ct2Decoder (agent P) = Some d -> bd_requiredChunks d = 5).
Proof.
  intros [a e ks _ _ HP HQ _ _ _ _|a e kg oen ks _ _ Hk Hen HP HQ _ _ _ _ _|a e kg en ks _ _ _ _ HP HQ _ _ _ _ _] Hep.
  - destruct HP as (EP & _). split; intros [?|?]; congruence.
  - destruct HP as (_ & _ & _ & _ & _ & HP). split.
    + intros [Es|Es] E; rewrite Es in HP; [destruct HP; congruence|]. destruct HP as (en & -> & Hc & _).
      destruct (ct1_valid kg en Hk (Hen _ eq_refl)) as [_ Hl]. rewrite (collects_req _ _ _ Hc E), Hl. done.
    + intros [Es|Es] E; rewrite Es in HP; destruct HP as (en & -> & _ & Hc); [congruence|].
      destruct (ct2mac_valid a e kg en Hk (Hen _ eq_refl)) as [_ Hl]. rewrite (collects_req _ _ _ Hc E), Hl. done.
  - destruct HP as (_ & EP & _), HQ as (EQ & _). lia.
Qed.

(** ** Bursts in a phase *)
Record At (n E : Z) (Sp Sq : MLKEMBraidState -> Prop) (P Q : Party) : Prop := {
  at_phase : phase P Q;
  at_used : used n (agent P) /\ used n (agent Q);
  at_epoch : epoch (agent P) = E /\ epoch (agent Q) = E;
  at_states : Sp (state (agent P)) /\ Sq (state (agent Q)) }.

Lemma indices_NoDup c k : NoDup (map (fun j => c + Z.of_nat j) (seq 0 k)).
Proof. apply (NoDup_fmap_2_strong (fun j => c + Z.of_nat j)); [intros; lia|]. apply NoDup_ListNoDup, seq_NoDup. Qed.

Lemma available_sends k X : emits (agent X) -> position (agent X) + Z.of_nat k <= 65536 ->
  Forall (available (sends k X) (fun m => m_type m = active_type (state (agent X)) /\ m_epoch m = epoch (agent X)))
    (map (fun j => position (agent X) + Z.of_nat j) (seq 0 k)).
Proof.
  intros He Hp. destruct (sends_active k X He Hp) as (_ & _ & Hm). apply Forall_fmap, Forall_forall.
  intros j Hj. apply list_elem_of_In, in_seq in Hj. destruct (Hm (position (agent X) + Z.of_nat j)) as (m & ? & ? & ? & ?); [lia|].
  by exists m.
Qed.

(** [P] sends, [Q] collects. *)
Lemma deliver_r n E p Sq G dec k P Q : At n E (eq p) Sq P Q -> emits (agent P) -> 0 <= n -> (1 <= k)%nat -> n + Z.of_nat k <= 65536 ->
  (forall P Q m s', At (n + Z.of_nat k) E (eq p) Sq P Q -> m_type m = active_type p -> bob_progress m (agent Q) s' -> m_epoch m = E ->
    G (state s') \/ (Sq (state s') /\ gained m (dec (agent Q)) (dec s'))) ->
  (forall P Q d, At (n + Z.of_nat k) E (eq p) Sq P Q -> dec (agent Q) = Some d -> bd_requiredChunks d = Z.of_nat k) ->
  exists P' Q', rtc system_step (P, Q) (P', Q') /\ At (n + Z.of_nat k) E (eq p) G P' Q'.
Proof.
  intros [Hp [HuP HuQ] [EP EQ] [Sp HSq]] Hem Hn Hk1 Hk Hprog Hreq.
  assert (Hpos : position (agent P) + Z.of_nat k <= 65536) by (pose proof (position_used n _ Hem HuP); lia).
  destruct (sends_active k P Hem Hpos) as (Ss & Es & _). set (P' := sends k P) in *.
  pose proof (available_sends k P Hem Hpos) as Hav. rewrite <- Sp, EP in Hav.
  destruct (burst P' (At (n + Z.of_nat k) E (eq p) Sq P') (At (n + Z.of_nat k) E (eq p) G P')
    (fun m => m_type m = active_type p /\ m_epoch m = E) dec (Z.of_nat k)) with (l := map (fun j => position (agent P) + Z.of_nat j) (seq 0 k)) (R := Q)
    as (Q' & HQ' & Hs).
  - intros R m HR Hin [Ht Hme]. pose proof HR as [HpR [HuP' HuR] [EP' ER] [Sp' SR]].
    destruct (progress_r P' R m HpR) as (Hp2 & He2 & Hb2); [congruence|done|congruence|].
    destruct (Hprog P' R m _ HR Ht Hb2 Hme) as [HG|[HS Hg]]; [left|right; split; [|exact Hg]];
      (split; [done|split; [done|apply party_receive_used; [lia|done]]|split; [done|congruence]|split; [done|done]]).
  - intros R d HR Hd. by eapply Hreq.
  - lia.
  - apply indices_NoDup.
  - unfold len. rewrite length_map, length_seq. lia.
  - exact Hav.
  - split; [by apply sends_phase_l| |split; congruence|split; [congruence|done]].
    split; [by apply sends_used|by apply (used_mono n); [lia|]].
  - exists P', Q'. split; [|done]. etransitivity; [apply sends_steps|exact Hs].
Qed.

(** [Q] sends, [P] collects. *)
Definition Done (n E : Z) (P Q : Party) : Prop :=
  phase P Q /\ (used n (agent P) /\ used n (agent Q)) /\ epoch (agent P) = E + 1 /\ epoch (agent Q) = E.

Lemma deliver_l n E q Sp G dec k P Q : At n E Sp (eq q) P Q -> emits (agent Q) -> 0 <= n -> (1 <= k)%nat -> n + Z.of_nat k <= 65536 ->
  (forall P Q m s', At (n + Z.of_nat k) E Sp (eq q) P Q -> m_type m = active_type q -> alice_progress m (agent P) s' -> m_epoch m = E ->
    G (state s') \/ (Sp (state s') /\ gained m (dec (agent P)) (dec s'))) ->
  (forall P Q d, At (n + Z.of_nat k) E Sp (eq q) P Q -> dec (agent P) = Some d -> bd_requiredChunks d = Z.of_nat k) ->
  exists P' Q', rtc system_step (P, Q) (P', Q') /\ (At (n + Z.of_nat k) E G (eq q) P' Q' \/ Done (n + Z.of_nat k) E P' Q').
Proof.
  intros [Hp [HuP HuQ] [EP EQ] [HSp Sq]] Hem Hn Hk1 Hk Hprog Hreq.
  assert (Hpos : position (agent Q) + Z.of_nat k <= 65536) by (pose proof (position_used n _ Hem HuQ); lia).
  destruct (sends_active k Q Hem Hpos) as (Ss & Es & _). set (Q' := sends k Q) in *.
  pose proof (available_sends k Q Hem Hpos) as Hav. rewrite <- Sq, EQ in Hav.
  destruct (burst Q' (fun P => At (n + Z.of_nat k) E Sp (eq q) P Q')
    (fun P => At (n + Z.of_nat k) E G (eq q) P Q' \/ Done (n + Z.of_nat k) E P Q')
    (fun m => m_type m = active_type q /\ m_epoch m = E) dec (Z.of_nat k)) with (l := map (fun j => position (agent Q) + Z.of_nat j) (seq 0 k)) (R := P)
    as (P' & HP' & Hs).
  - intros R m HR Hin [Ht Hme]. pose proof HR as [HpR [HuR HuQ'] [ER EQ'] [SR Sq']].
    assert (HuR' : used (n + Z.of_nat k) (agent (party_receive m R))) by (apply party_receive_used; [lia|done]).
    destruct (progress_l R Q' m HpR) as (Hp2 & [He2|[He2 Hb2]]); [congruence|done|congruence|left; right|].
    { split; [done|]. split; [done|]. split; congruence. }
    destruct (Hprog R Q' m _ HR Ht Hb2 Hme) as [HG|[HS Hg]]; [left; left|right; split; [|exact Hg]];
      (split; [done|split; done|split; congruence|split; done]).
  - intros R d HR Hd. by eapply Hreq.
  - lia.
  - apply indices_NoDup.
  - unfold len. rewrite length_map, length_seq. lia.
  - exact Hav.
  - split; [by apply sends_phase_r| |split; congruence|split; [done|congruence]].
    split; [by apply (used_mono n); [lia|]|by apply sends_used].
  - exists P', Q'. split; [|exact HP']. etransitivity; [apply (swap_steps (Q, P)), sends_steps|].
    exact (swap_steps (Q', P) (Q', P') Hs).
Qed.

(** ** The stages *)
Definition one_of (l : list MLKEMBraidState) (s : MLKEMBraidState) : Prop := s ∈ l.

Lemma At_weaken n n' E (Sp Sp' Sq Sq' : MLKEMBraidState -> Prop) P Q : n <= n' -> (forall s, Sp s -> Sp' s) -> (forall s, Sq s -> Sq' s) ->
  At n E Sp Sq P Q -> At n' E Sp' Sq' P Q.
Proof. intros Hn Hp Hq [? [] ? []]. split; [done|split; by apply (used_mono n)|done|auto]. Qed.

Ltac states_of H := unfold one_of in H; rewrite !elem_of_cons, elem_of_nil in H.

Lemma stage_keygen n E P Q : At n E (eq KeysUnsampled) (eq NoHeaderReceived) P Q -> 0 <= n ->
  exists P' Q', rtc system_step (P, Q) (P', Q') /\ At (n + 1) E (eq KeysSampled) (eq NoHeaderReceived) P' Q'.
Proof.
  intros [Hp [HuP HuQ] [EP EQ] [Sp Sq]] Hn. exists (party_send true zero_random P), Q.
  split; [apply rtc_once, step_send_l, zero_random_good|].
  enough (epoch (agent (party_send true zero_random P)) = E /\ state (agent (party_send true zero_random P)) = KeysSampled) as [He Hst].
  { split; [by apply phase_send_l; [apply zero_random_good|]|split|split; done|split; done].
    - rewrite party_send_agent. by apply Send_within.
    - by apply (used_mono n); [lia|]. }
  rewrite party_send_agent. destruct Hp as [a e ks _ _ HP _ _ _ _ _|a e kg oen ks _ _ _ _ HP _ _ _ _ _ _|a e kg en ks _ _ _ _ HP HQ _ _ _ _ _].
  - destruct (alice_first_send a e true zero_random (agent P) HP zero_random_good) as (kg & s' & sr & _ & -> & [He _] & Es & _).
    cbn [fst]. split; [|done]. rewrite He, <- EP. symmetry. apply HP.
  - destruct HP as (_ & _ & _ & _ & _ & HP). by rewrite <- Sp in HP.
  - destruct HP as (_ & He & _), HQ as (HeQ & _). lia.
Qed.

Lemma stage_header n E P Q : At n E (eq KeysSampled) (eq NoHeaderReceived) P Q -> 0 <= n -> n + 3 <= 65536 ->
  exists P' Q', rtc system_step (P, Q) (P', Q') /\ At (n + 3) E (eq KeysSampled) (eq HeaderReceived) P' Q'.
Proof.
  intros HA Hn Hr. pose proof HA as [Hp _ [EP EQ] [Sp _]].
  apply (deliver_r n E KeysSampled (eq NoHeaderReceived) (eq HeaderReceived) headerDecoder 3); try done; try lia.
  - eapply phase_emits_l; [exact Hp|congruence|auto].
  - clear - HL KL. intros P Q m s' [_ _ [_ EQ] [_ Sq]] Ht Hb Hm. unfold bob_progress in Hb. rewrite Ht, <- Sq in Hb. cbn in Hb.
    destruct Hb as [[-> ?]| ->]; [congruence|by right|by left].
  - clear - HL KL. intros P Q d [Hp _ [EP EQ] [Sp Sq]]. destruct (phase_req_r P Q d Hp) as [Hr _]; [congruence|]. by apply Hr.
Qed.

Lemma stage_sample n E P Q : At n E (eq KeysSampled) (eq HeaderReceived) P Q -> 0 <= n ->
  exists P' Q', rtc system_step (P, Q) (P', Q') /\ At (n + 1) E (eq KeysSampled) (eq Ct1Sampled) P' Q'.
Proof.
  intros [Hp [HuP HuQ] [EP EQ] [Sp Sq]] Hn. exists P, (party_send true zero_random Q).
  split; [apply rtc_once, step_send_r, zero_random_good|].
  enough (epoch (agent (party_send true zero_random Q)) = E /\ state (agent (party_send true zero_random Q)) = Ct1Sampled) as [He Hst].
  { split; [by apply phase_send_r; [apply zero_random_good|]|split|split; done|split; done].
    - by apply (used_mono n); [lia|].
    - rewrite party_send_agent. by apply Send_within. }
  rewrite party_send_agent. destruct Hp as [a e ks _ _ _ HQ _ _ _ _|a e kg oen ks Ha _ Hk _ _ HQ _ _ _ _ _|a e kg en ks _ _ _ _ HP HQ _ _ _ _ _].
  - destruct HQ as [HQ _]. congruence.
  - assert (oen = None) as -> by (destruct HQ as [_ HQ]; rewrite <- Sq in HQ; by destruct HQ).
    destruct (bob_sample_ct1 a e kg true zero_random (agent Q) Hk Ha zero_random_good HQ (eq_sym Sq)) as (en & s' & sr & -> & _ & [He _] & _ & _ & Es).
    cbn [fst]. split; [|done]. rewrite He, <- EQ. symmetry. apply HQ.
  - destruct HP as (_ & He & _), HQ as (HeQ & _). lia.
Qed.

Lemma stage_ct1 n E q P Q : q = Ct1Sampled \/ q = EkReceivedCt1Sampled -> At n E (one_of [KeysSampled; HeaderSent]) (eq q) P Q ->
  0 <= n -> n + 30 <= 65536 ->
  exists P' Q', rtc system_step (P, Q) (P', Q') /\ (At (n + 30) E (eq Ct1Received) (eq q) P' Q' \/ Done (n + 30) E P' Q').
Proof.
  intros Hq HA Hn Hr. pose proof HA as [Hp _ [EP EQ] [_ Sq]].
  apply (deliver_l n E q (one_of [KeysSampled; HeaderSent]) (eq Ct1Received) ct1Decoder 30); try done; try lia.
  - eapply phase_emits_r; [exact Hp|]. rewrite <- Sq, !elem_of_cons. destruct Hq; auto.
  - clear - HL KL Hq. intros P Q m s' [_ _ [EP _] [Sp _]] Ht Hb Hm. states_of Sp. unfold alice_progress in Hb.
    assert (Ht' : m_type m = Ct1) by (destruct Hq; subst; done). rewrite Ht' in Hb.
    assert (Hb' : state s' = Ct1Received \/ state s' = HeaderSent /\ gained m (ct1Decoder (agent P)) (ct1Decoder s')).
    { destruct Sp as [Sp|[Sp|[]]]; rewrite Sp in Hb; apply Hb; congruence. }
    destruct Hb' as [?|[Hs ?]]; [by left|right]. split; [|done]. unfold one_of. rewrite Hs, !elem_of_cons. auto.
  - clear - HL KL. intros P Q d [Hp _ [EP EQ] [Sp _]]. destruct (phase_req_l P Q d Hp) as [Hr _]; [congruence|].
    states_of Sp. apply Hr. tauto.
Qed.

Lemma stage_ek n E P Q : At n E (eq Ct1Received) (one_of [Ct1Sampled; Ct1Acknowledged]) P Q -> 0 <= n -> n + 36 <= 65536 ->
  exists P' Q', rtc system_step (P, Q) (P', Q') /\ At (n + 36) E (eq Ct1Received) (eq Ct2Sampled) P' Q'.
Proof.
  intros HA Hn Hr. pose proof HA as [Hp _ [EP EQ] [Sp _]].
  apply (deliver_r n E Ct1Received (one_of [Ct1Sampled; Ct1Acknowledged]) (eq Ct2Sampled) ekDecoder 36); try done; try lia.
  - eapply phase_emits_l; [exact Hp|congruence|auto].
  - clear - HL KL. intros P Q m s' [_ _ [_ EQ] [_ Sq]] Ht Hb Hm. states_of Sq. unfold bob_progress in Hb. rewrite Ht in Hb. cbn in Hb.
    assert (Hb' : state s' = Ct2Sampled \/ state s' = Ct1Acknowledged /\ gained m (ekDecoder (agent Q)) (ekDecoder s')).
    { destruct Sq as [Sq|[Sq|[]]]; rewrite Sq in Hb; apply Hb; congruence. }
    destruct Hb' as [?|[Hs ?]]; [by left|right]. split; [|done]. unfold one_of. rewrite Hs, !elem_of_cons. auto.
  - clear - HL KL. intros P Q d [Hp _ [EP EQ] [_ Sq]]. destruct (phase_req_r P Q d Hp) as [_ Hr]; [congruence|].
    states_of Sq. apply Hr. tauto.
Qed.

Lemma stage_ack n E P Q : At n E (eq Ct1Received) (eq EkReceivedCt1Sampled) P Q -> 0 <= n -> n + 36 <= 65536 ->
  exists P' Q', rtc system_step (P, Q) (P', Q') /\ At (n + 36) E (eq Ct1Received) (eq Ct2Sampled) P' Q'.
Proof.
  intros HA Hn Hr. pose proof HA as [Hp _ [EP EQ] [Sp _]].
  destruct (deliver_r n E Ct1Received (eq EkReceivedCt1Sampled) (eq Ct2Sampled) (fun _ => None) 1 P Q HA) as (P' & Q' & Hs & HA'); try done; try lia.
  - eapply phase_emits_l; [exact Hp|congruence|auto].
  - clear - HL KL. intros P Q m s' [_ _ [_ EQ] [_ Sq]] Ht Hb Hm. unfold bob_progress in Hb. rewrite Ht, <- Sq in Hb. cbn in Hb.
    left. symmetry. apply Hb. congruence.
  - exists P', Q'. split; [done|]. eapply At_weaken; [| | |exact HA']; [lia|done|done].
Qed.

Lemma stage_ct2 n E P Q : At n E (one_of [Ct1Received; EkSentCt1Received]) (eq Ct2Sampled) P Q -> 0 <= n -> n + 5 <= 65536 ->
  exists P' Q', rtc system_step (P, Q) (P', Q') /\ Done (n + 5) E P' Q'.
Proof.
  intros HA Hn Hr. pose proof HA as [Hp _ [EP EQ] [_ Sq]].
  destruct (deliver_l n E Ct2Sampled (one_of [Ct1Received; EkSentCt1Received]) (fun _ => False) ct2Decoder 5 P Q HA)
    as (P' & Q' & Hs & [[_ _ _ [[] _]]|HD]); try done; try lia.
  - eapply phase_emits_r; [exact Hp|]. rewrite <- Sq, !elem_of_cons. auto.
  - clear - HL KL. intros P Q m s' [_ _ [EP _] [Sp _]] Ht Hb Hm. states_of Sp. unfold alice_progress in Hb. rewrite Ht in Hb. cbn in Hb.
    right. assert (Hb' : state s' = EkSentCt1Received /\ gained m (ct2Decoder (agent P)) (ct2Decoder s')).
    { destruct Sp as [Sp|[Sp|[]]]; rewrite Sp in Hb; apply Hb; congruence. }
    destruct Hb' as [Hs ?]. split; [|done]. unfold one_of. rewrite Hs, !elem_of_cons. auto.
  - clear - HL KL. intros P Q d [Hp _ [EP EQ] [Sp _]]. destruct (phase_req_l P Q d Hp) as [_ Hr]; [congruence|].
    states_of Sp. apply Hr. tauto.
  - by exists P', Q'.
Qed.

(** The end of the epoch: the new encapsulator announces the next epoch. *)
Lemma stage_turn n E P Q : Done n E P Q ->
  exists P' Q', rtc system_step (P, Q) (P', Q') /\ phase Q' P' /\ state (agent Q') = KeysUnsampled /\ epoch (agent Q') = E + 1.
Proof.
  intros (Hp & _ & EP & EQ). pose proof Hp as Hp0.
  destruct Hp as [a e ks _ _ HP HQ _ _ _ _|a e kg oen ks _ _ _ _ HP HQ _ _ _ _ _|a e kg en ks _ _ _ _ HP HQ Es _ _ _ _].
  - destruct HP as (_ & ? & _), HQ as (_ & ? & _). lia.
  - destruct HP as (? & _), HQ as (? & _). lia.
  - destruct (bob_start_send _ _ true zero_random (agent P) HP) as (sr & E1 & _ & Hme & Ht).
    set (P' := party_send true zero_random P).
    assert (Hin : sr_message sr ∈ sent P').
    { unfold P', party_send. rewrite E1. cbn [sent]. apply elem_of_app. right. by apply list_elem_of_singleton. }
    assert (HP' : agent P' = agent P) by (unfold P'; by rewrite party_send_agent, E1).
    destruct (bob_next_epoch a e kg (Some en) (sr_message sr) (agent Q) HQ Es Hme) as (s' & rr & en' & E2 & _ & _ & Hs').
    assert (EQ' : agent (party_receive (sr_message sr) Q) = s') by (by rewrite party_receive_agent, E2).
    exists P', (party_receive (sr_message sr) Q). split; [|split; [|rewrite EQ'; split; [apply Hs'|destruct Hs' as (_ & -> & _), HQ as [He _]; lia]]].
    + eapply rtc_l; [apply step_send_l, zero_random_good|]. by apply rtc_once, step_recv_r.
    + destruct (phase_recv_r P' Q (sr_message sr)) as [_ [Hp|Hp]]; [by apply phase_send_l; [apply zero_random_good|]|done| |done].
      exfalso. apply phase_roles in Hp as (_ & _ & Hr). rewrite EQ', HP' in Hr.
      assert (Hf : isInAliceRole (agent P) = true) by (apply Hr; destruct Hs' as (_ & -> & _), HP as (_ & -> & _); done).
      unfold isInAliceRole in Hf. destruct HP as (Hst & _). by rewrite Hst in Hf.
Qed.

Ltac here Hat := eapply Hat; [reflexivity|reflexivity|unfold one_of; rewrite ?elem_of_cons; auto|unfold one_of; rewrite ?elem_of_cons; auto].
Ltac place Hat :=
  first [solve [here Hat] | left; solve [here Hat] | left; eexists; split; [|solve [here Hat]]; auto | right; place Hat].

(** ** Every state of an epoch is in one of the stages *)
Lemma phase_cases n P Q : phase P Q -> used n (agent P) -> used n (agent Q) ->
  let E := epoch (agent Q) in
  Done n E P Q \/
  At n E (eq KeysUnsampled) (eq NoHeaderReceived) P Q \/
  At n E (eq KeysSampled) (eq NoHeaderReceived) P Q \/
  At n E (eq KeysSampled) (eq HeaderReceived) P Q \/
  (exists q, (q = Ct1Sampled \/ q = EkReceivedCt1Sampled) /\ At n E (one_of [KeysSampled; HeaderSent]) (eq q) P Q) \/
  At n E (eq Ct1Received) (one_of [Ct1Sampled; Ct1Acknowledged]) P Q \/
  At n E (eq Ct1Received) (eq EkReceivedCt1Sampled) P Q \/
  At n E (one_of [Ct1Received; EkSentCt1Received]) (eq Ct2Sampled) P Q.
Proof.
  intros Hp HuP HuQ. cbn zeta. pose proof Hp as Hp0.
  destruct Hp as [a e ks _ _ HP HQ _ _ _ _|a e kg oen ks _ _ _ _ HP HQ HC _ _ _ _|a e kg en ks _ _ _ _ HP HQ _ _ _ _ _].
  - destruct HP as (SP & EP & _), HQ as (SQ & EQ & _). right; left. split; [done|done|split; congruence|by rewrite SP, SQ].
  - assert (Hat : forall p q Sp Sq, state (agent P) = p -> state (agent Q) = q -> Sp p -> Sq q -> At n (epoch (agent Q)) Sp Sq P Q).
    { intros p q Sp Sq <- <- ? ?. split; [done|done| |done]. destruct HP as [-> _], HQ as [-> _]. done. }
    destruct HP as (_ & _ & _ & _ & _ & HP), HQ as [_ HQ], HC as [HC1 HC2]. unfold past_ack, acked in HC1.
    destruct (state (agent P)) eqn:SP; try done; destruct (state (agent Q)) eqn:SQ; try done;
      try (exfalso; intuition (discriminate || congruence)).
    all: try (exfalso; destruct HP as (? & ? & _); destruct HQ as (? & _); congruence).
    all: try (exfalso; destruct HQ as (? & ? & _); congruence).
    all: try place Hat.
  - left. split; [done|]. split; [done|]. destruct HP as (_ & -> & _), HQ as [-> _]. done.
Qed.

(** ** A whole epoch *)
Definition next_epoch (E : Z) (P Q : Party) : Prop :=
  exists P' Q', rtc system_step (P, Q) (P', Q') /\ phase Q' P' /\ state (agent Q') = KeysUnsampled /\ epoch (agent Q') = E + 1.

Lemma next_epoch_steps E P Q P' Q' : rtc system_step (P, Q) (P', Q') -> next_epoch E P' Q' -> next_epoch E P Q.
Proof. intros Hs (P2 & Q2 & Hs2 & Hr). exists P2, Q2. split; [by etransitivity|done]. Qed.

Lemma from_ct2 n E P Q : At n E (one_of [Ct1Received; EkSentCt1Received]) (eq Ct2Sampled) P Q -> 0 <= n -> n + 5 <= 65536 -> next_epoch E P Q.
Proof. intros HA Hn Hr. destruct (stage_ct2 n E P Q HA Hn Hr) as (P' & Q' & Hs & HD). eapply next_epoch_steps; [exact Hs|]. by eapply stage_turn. Qed.

Lemma from_ct2_first n E P Q : At n E (eq Ct1Received) (eq Ct2Sampled) P Q -> 0 <= n -> n + 5 <= 65536 -> next_epoch E P Q.
Proof. intros HA. apply from_ct2. eapply At_weaken; [reflexivity| |done|exact HA]. intros ? <-. unfold one_of. rewrite elem_of_cons. by left. Qed.

Lemma from_ek n E P Q : At n E (eq Ct1Received) (one_of [Ct1Sampled; Ct1Acknowledged]) P Q -> 0 <= n -> n + 41 <= 65536 -> next_epoch E P Q.
Proof.
  intros HA Hn Hr. destruct (stage_ek n E P Q HA Hn) as (P' & Q' & Hs & HA'); [lia|]. eapply next_epoch_steps; [exact Hs|].
  eapply from_ct2_first; [exact HA'|lia..].
Qed.

Lemma from_ack n E P Q : At n E (eq Ct1Received) (eq EkReceivedCt1Sampled) P Q -> 0 <= n -> n + 41 <= 65536 -> next_epoch E P Q.
Proof.
  intros HA Hn Hr. destruct (stage_ack n E P Q HA Hn) as (P' & Q' & Hs & HA'); [lia|]. eapply next_epoch_steps; [exact Hs|].
  eapply from_ct2_first; [exact HA'|lia..].
Qed.

Lemma from_ct1 n E q P Q : q = Ct1Sampled \/ q = EkReceivedCt1Sampled -> At n E (one_of [KeysSampled; HeaderSent]) (eq q) P Q ->
  0 <= n -> n + 71 <= 65536 -> next_epoch E P Q.
Proof.
  intros Hq HA Hn Hr. destruct (stage_ct1 n E q P Q Hq HA Hn) as (P' & Q' & Hs & [HA'|HD]); [lia| |]; (eapply next_epoch_steps; [exact Hs|]).
  - destruct Hq as [-> | ->].
    + apply (from_ek (n + 30)); [|lia..]. eapply At_weaken; [reflexivity|done| |exact HA'].
      intros ? <-. unfold one_of. rewrite elem_of_cons. by left.
    + eapply from_ack; [exact HA'|lia..].
  - by eapply stage_turn.
Qed.

Lemma from_sample n E P Q : At n E (eq KeysSampled) (eq HeaderReceived) P Q -> 0 <= n -> n + 72 <= 65536 -> next_epoch E P Q.
Proof.
  intros HA Hn Hr. destruct (stage_sample n E P Q HA Hn) as (P' & Q' & Hs & HA'). eapply next_epoch_steps; [exact Hs|].
  eapply (from_ct1 (n + 1) E Ct1Sampled); [by left| |lia..]. eapply At_weaken; [reflexivity| |done|exact HA'].
  intros ? <-. unfold one_of. rewrite elem_of_cons. by left.
Qed.

Lemma from_header n E P Q : At n E (eq KeysSampled) (eq NoHeaderReceived) P Q -> 0 <= n -> n + 75 <= 65536 -> next_epoch E P Q.
Proof.
  intros HA Hn Hr. destruct (stage_header n E P Q HA Hn) as (P' & Q' & Hs & HA'); [lia|]. eapply next_epoch_steps; [exact Hs|].
  eapply from_sample; [exact HA'|lia..].
Qed.

Lemma epoch_completes n P Q : phase P Q -> used n (agent P) -> used n (agent Q) -> 0 <= n -> n + 76 <= 65536 ->
  next_epoch (epoch (agent Q)) P Q.
Proof.
  intros Hp HuP HuQ Hn Hr. destruct (phase_cases n P Q Hp HuP HuQ) as [HD|[HA|[HA|[HA|[(q & Hq & HA)|[HA|[HA|HA]]]]]]].
  - by eapply stage_turn.
  - destruct (stage_keygen n _ P Q HA Hn) as (P' & Q' & Hs & HA'). eapply next_epoch_steps; [exact Hs|].
    eapply from_header; [exact HA'|lia..].
  - eapply from_header; [exact HA|lia..].
  - eapply from_sample; [exact HA|lia..].
  - eapply from_ct1; [exact Hq|exact HA|lia..].
  - eapply from_ek; [exact HA|lia..].
  - eapply from_ack; [exact HA|lia..].
  - eapply from_ct2; [exact HA|lia..].
Qed.

(** Between two epochs nothing is in use and the parties have the same keys. *)
Lemma phase_between P Q : phase P Q -> state (agent P) = KeysUnsampled ->
  used 0 (agent P) /\ used 0 (agent Q) /\ epoch (agent Q) = epoch (agent P) /\ outputs P = outputs Q /\
  len (outputs P) = epoch (agent P) - 1.
Proof.
  intros [a e ks _ Hl HP HQ _ _ -> ->|a e kg oen ks _ _ _ _ HP _ _ _ _ _ _|a e kg en ks _ _ _ _ HP _ _ _ _ _ _] Hs.
  - destruct HP as (_ & EP & _ & _ & _ & HuP), HQ as (_ & EQ & _ & _ & _ & HuQ). do 2 (split; [done|]).
    split; [congruence|]. split; [done|]. unfold keys_of, len in *. rewrite length_imap, EP. done.
  - destruct HP as (_ & _ & _ & _ & _ & HP). by rewrite Hs in HP.
  - destruct HP as (HP & _). congruence.
Qed.

(** [n] further epochs. *)
Lemma epochs_complete n : forall P Q, phase P Q -> used 65000 (agent P) -> used 65000 (agent Q) ->
  exists P' Q', (rtc system_step (P, Q) (P', Q') \/ rtc system_step (P, Q) (Q', P')) /\ phase P' Q' /\
    state (agent P') = KeysUnsampled /\ epoch (agent P') = epoch (agent Q) + Z.of_nat (S n).
Proof.
  induction n as [|n IH]; intros P Q Hp HuP HuQ;
    destruct (epoch_completes 65000 P Q Hp HuP HuQ) as (P' & Q' & Hs & Hp' & Hst & Hep); try lia.
  - exists Q', P'. split; [by right|]. split; [done|]. split; [done|lia].
  - destruct (phase_between Q' P' Hp' Hst) as (HuQ' & HuP' & EE & _).
    destruct (IH Q' P' Hp') as (P2 & Q2 & Hs2 & Hp2 & Hst2 & Hep2); [by apply (used_mono 0)..|].
    exists P2, Q2. split; [|split; [done|split; [done|lia]]].
    destruct Hs2 as [Hs2|Hs2]; apply swap_steps in Hs2; cbn [fst snd] in Hs2; [right|left]; by etransitivity.
Qed.
End Stages.
