(* ===== verification/SpqrState.v ===== *)
(** * SPQR: state, validation, version negotiation and key derivation

    [spqr/spqr.ts] (the state), [spqr/validate.ts], [protocol/version.ts], the
    SPQR functions of [crypto/kdf/hkdf.ts] and the ML-KEM-768 functions of
    [crypto/pq/kyber.ts].  A Base64 string stands for the bytes it encodes; the
    empty string is the empty list.  The objects indexed by an epoch number and
    by a name ["epoch:index"] are finite maps from the number and the pair of
    numbers; a string is the list of its UTF-8 bytes. *)
From S2P Require Import Prelude Crypto GaloisField Lagrange ErasureCodec BraidState BraidAuth.

(** ** State ([spqr.ts], [types/session.ts], [protocol/version.ts]) *)
Record KDFChain := { CK : bytes; N : Z }.
Record EpochChains := { send : KDFChain; receive : KDFChain }.
Record SkippedSPQRKey := { sk_key : bytes; sk_timestamp : Z }.

Inductive Direction := A2B | B2A.
Inductive SCKAMode := DirectMode | BraidMode.

#[export] Instance Direction_eq_dec : EqDecision Direction.
Proof. solve_decision. Defined.
#[export] Instance SCKAMode_eq_dec : EqDecision SCKAMode.
Proof. solve_decision. Defined.

Record SCKAState := {
  scka_epoch : Z; scka_direction : Direction; ourKyberPrivateKey : option bytes; theirKyberPublicKey : option bytes;
  lastRefreshTimestamp : Z; lastRefreshMessageCount : Z }.

(** The only version is v1; a peer that shows another one counts as v0. *)
Inductive SPQRVersion := V1.
Inductive PeerSPQRVersion := PeerV1 | PeerV0.
Inductive NegotiationStatus := Negotiating | Complete.
#[export] Instance NegotiationStatus_eq_dec : EqDecision NegotiationStatus.
Proof. solve_decision. Defined.

Record VersionNegotiationState := {
  status : NegotiationStatus; maxVersion : SPQRVersion; minVersion : SPQRVersion;
  negotiatedVersion : option SPQRVersion; peerVersion : option SPQRVersion }.

Record ResolvedSPQRInfoStrings := { chainStart : string; chainAddEpoch : string; chainNext : string }.
Record ResolvedSPQRLimits := { maxMessageJump : Z; maxOutOfOrderKeys : Z }.

(** [needsSendRatchet] absent is [false]. *)
Record SPQRState := {
  RK : bytes;
  sp_epoch : Z;
  sendEpoch : option Z;
  kdfChains : gmap Z EpochChains;
  MKSKIPPED : gmap (Z * Z) SkippedSPQRKey;
  direction : Direction;
  sckaState : SCKAState;
  mode : SCKAMode;
  braidState : option MLKEMBraidAgentState;
  pendingOutgoingChunks : option (list MLKEMBraidMessage);
  versionNegotiation : option VersionNegotiationState;
  infoStrings : option ResolvedSPQRInfoStrings;
  limits : option ResolvedSPQRLimits;
  needsSendRatchet : bool }.

(** *** Assignments *)
Definition with_chains (c : gmap Z EpochChains) (s : SPQRState) : SPQRState :=
  {| RK := RK s; sp_epoch := sp_epoch s; sendEpoch := sendEpoch s; kdfChains := c; MKSKIPPED := MKSKIPPED s;
     direction := direction s; sckaState := sckaState s; mode := mode s; braidState := braidState s;
     pendingOutgoingChunks := pendingOutgoingChunks s; versionNegotiation := versionNegotiation s;
     infoStrings := infoStrings s; limits := limits s; needsSendRatchet := needsSendRatchet s |}.
Definition with_skipped (k : gmap (Z * Z) SkippedSPQRKey) (s : SPQRState) : SPQRState :=
  {| RK := RK s; sp_epoch := sp_epoch s; sendEpoch := sendEpoch s; kdfChains := kdfChains s; MKSKIPPED := k;
     direction := direction s; sckaState := sckaState s; mode := mode s; braidState := braidState s;
     pendingOutgoingChunks := pendingOutgoingChunks s; versionNegotiation := versionNegotiation s;
     infoStrings := infoStrings s; limits := limits s; needsSendRatchet := needsSendRatchet s |}.
Definition with_sendEpoch (e : option Z) (s : SPQRState) : SPQRState :=
  {| RK := RK s; sp_epoch := sp_epoch s; sendEpoch := e; kdfChains := kdfChains s; MKSKIPPED := MKSKIPPED s;
     direction := direction s; sckaState := sckaState s; mode := mode s; braidState := braidState s;
     pendingOutgoingChunks := pendingOutgoingChunks s; versionNegotiation := versionNegotiation s;
     infoStrings := infoStrings s; limits := limits s; needsSendRatchet := needsSendRatchet s |}.
Definition with_root (rk : bytes) (e : Z) (s : SPQRState) : SPQRState :=
  {| RK := rk; sp_epoch := e; sendEpoch := sendEpoch s; kdfChains := kdfChains s; MKSKIPPED := MKSKIPPED s;
     direction := direction s; sckaState := sckaState s; mode := mode s; braidState := braidState s;
     pendingOutgoingChunks := pendingOutgoingChunks s; versionNegotiation := versionNegotiation s;
     infoStrings := infoStrings s; limits := limits s; needsSendRatchet := needsSendRatchet s |}.
Definition with_scka (k : SCKAState) (s : SPQRState) : SPQRState :=
  {| RK := RK s; sp_epoch := sp_epoch s; sendEpoch := sendEpoch s; kdfChains := kdfChains s; MKSKIPPED := MKSKIPPED s;
     direction := direction s; sckaState := k; mode := mode s; braidState := braidState s;
     pendingOutgoingChunks := pendingOutgoingChunks s; versionNegotiation := versionNegotiation s;
     infoStrings := infoStrings s; limits := limits s; needsSendRatchet := needsSendRatchet s |}.
Definition with_braid (b : option MLKEMBraidAgentState) (s : SPQRState) : SPQRState :=
  {| RK := RK s; sp_epoch := sp_epoch s; sendEpoch := sendEpoch s; kdfChains := kdfChains s; MKSKIPPED := MKSKIPPED s;
     direction := direction s; sckaState := sckaState s; mode := mode s; braidState := b;
     pendingOutgoingChunks := pendingOutgoingChunks s; versionNegotiation := versionNegotiation s;
     infoStrings := infoStrings s; limits := limits s; needsSendRatchet := needsSendRatchet s |}.
Definition with_pending (q : option (list MLKEMBraidMessage)) (s : SPQRState) : SPQRState :=
  {| RK := RK s; sp_epoch := sp_epoch s; sendEpoch := sendEpoch s; kdfChains := kdfChains s; MKSKIPPED := MKSKIPPED s;
     direction := direction s; sckaState := sckaState s; mode := mode s; braidState := braidState s;
     pendingOutgoingChunks := q; versionNegotiation := versionNegotiation s;
     infoStrings := infoStrings s; limits := limits s; needsSendRatchet := needsSendRatchet s |}.
Definition with_negotiation (v : option VersionNegotiationState) (s : SPQRState) : SPQRState :=
  {| RK := RK s; sp_epoch := sp_epoch s; sendEpoch := sendEpoch s; kdfChains := kdfChains s; MKSKIPPED := MKSKIPPED s;
     direction := direction s; sckaState := sckaState s; mode := mode s; braidState := braidState s;
     pendingOutgoingChunks := pendingOutgoingChunks s; versionNegotiation := v;
     infoStrings := infoStrings s; limits := limits s; needsSendRatchet := needsSendRatchet s |}.
Definition with_ratchet (b : bool) (s : SPQRState) : SPQRState :=
  {| RK := RK s; sp_epoch := sp_epoch s; sendEpoch := sendEpoch s; kdfChains := kdfChains s; MKSKIPPED := MKSKIPPED s;
     direction := direction s; sckaState := sckaState s; mode := mode s; braidState := braidState s;
     pendingOutgoingChunks := pendingOutgoingChunks s; versionNegotiation := versionNegotiation s;
     infoStrings := infoStrings s; limits := limits s; needsSendRatchet := b |}.

Definition set_our_key (k : bytes) (s : SCKAState) : SCKAState := {|
  scka_epoch := scka_epoch s; scka_direction := scka_direction s; ourKyberPrivateKey := Some k;
  theirKyberPublicKey := theirKyberPublicKey s; lastRefreshTimestamp := lastRefreshTimestamp s;
  lastRefreshMessageCount := lastRefreshMessageCount s |}.
Definition set_their_key (k : bytes) (s : SCKAState) : SCKAState := {|
  scka_epoch := scka_epoch s; scka_direction := scka_direction s; ourKyberPrivateKey := ourKyberPrivateKey s;
  theirKyberPublicKey := Some k; lastRefreshTimestamp := lastRefreshTimestamp s;
  lastRefreshMessageCount := lastRefreshMessageCount s |}.
Definition set_refresh (e now : Z) (s : SCKAState) : SCKAState := {|
  scka_epoch := e; scka_direction := scka_direction s; ourKyberPrivateKey := ourKyberPrivateKey s;
  theirKyberPublicKey := theirKyberPublicKey s; lastRefreshTimestamp := now;
  lastRefreshMessageCount := lastRefreshMessageCount s |}.

(** A string or [null] that is used as a condition. *)
Definition truthy (b : option bytes) : option bytes := match b with Some (x :: l) => Some (x :: l) | _ => None end.

(** ** Version negotiation ([protocol/version.ts]) *)
Definition initVersionNegotiation (maxV minV : SPQRVersion) : VersionNegotiationState := {|
  status := Negotiating; maxVersion := maxV; minVersion := minV; negotiatedVersion := None; peerVersion := None |}.

Definition isVersionNegotiationComplete (state : option VersionNegotiationState) : bool :=
  match state with Some s => bool_decide (status s = Complete) | None => false end.

Definition getNegotiatedVersion (state : option VersionNegotiationState) : option SPQRVersion :=
  match state with
  | None => Some V1
  | Some s => if bool_decide (status s = Complete) then negotiatedVersion s else Some (maxVersion s)
  end.

Definition processVersionCapability (peerMaxVersion : PeerSPQRVersion) : M VersionNegotiationState (option SPQRVersion) :=
  fun s =>
  match status s, peerMaxVersion with
  | Complete, _ => (s, Ok (negotiatedVersion s))
  | Negotiating, PeerV0 => (s, Throw (EncryptionError "SPQR_VERSION_MISMATCH"))
  | Negotiating, PeerV1 =>
      ({| status := Complete; maxVersion := maxVersion s; minVersion := minVersion s;
          negotiatedVersion := Some V1; peerVersion := Some V1 |}, Ok (Some V1))
  end.

Definition processVersionFromByte (peerVersionByte : Z) : M VersionNegotiationState unit := (
  do_ processVersionCapability (if peerVersionByte =? 1 then PeerV1 else PeerV0);
  M_ret tt)%st.

(** ** Validation ([validate.ts]) *)

(** The direction is one of the two by its type, and the epoch an integer. *)
Definition validateSPQRState (s : SPQRState) : result unit :=
  if sp_epoch s <? 0 then Throw (EncryptionError "SPQR_EPOCH_OUT_OF_RANGE")
  else match RK s with [] => Throw (EncryptionError "INVALID_STATE") | _ => Ok tt end.

Definition SPQR_LIMITS_DEFAULTS : ResolvedSPQRLimits := {| maxMessageJump := 25000; maxOutOfOrderKeys := 2000 |}.

(** [spqrState.limits?.x ?? default] *)
Definition limit_jump (s : SPQRState) : Z := maxMessageJump (default SPQR_LIMITS_DEFAULTS (limits s)).
Definition limit_ooo (s : SPQRState) : Z := maxOutOfOrderKeys (default SPQR_LIMITS_DEFAULTS (limits s)).

Definition skippedKeyTrimSize (maxOutOfOrderKeys : Z) : Z := (maxOutOfOrderKeys * 11) / 10 + 1.

(** The held keys of one epoch. *)
Definition held (e : Z) (k : gmap (Z * Z) SkippedSPQRKey) : gmap (Z * Z) SkippedSPQRKey := filter (fun kv => kv.1.1 = e) k.
Definition held_count (e : Z) (k : gmap (Z * Z) SkippedSPQRKey) : Z := Z.of_nat (size (held e k)).

Definition below (e horizon : Z) (ei : Z * Z) : Prop := ei.1 = e /\ ei.2 < horizon.
#[export] Instance below_dec e h ei : Decision (below e h ei).
Proof. unfold below. apply _. Defined.

(** The state after the trim and the number of keys removed. *)
Definition trimEpochSkippedKeys (e : Z) (s : SPQRState) : SPQRState * Z :=
  match kdfChains s !! e with
  | None => (s, 0)
  | Some chains =>
      if held_count e (MKSKIPPED s) <? skippedKeyTrimSize (limit_ooo s) then (s, 0)
      else
        let horizon := N (receive chains) - limit_ooo s in
        let kept := filter (fun kv => ~ below e horizon kv.1) (MKSKIPPED s) in
        (with_skipped kept s, Z.of_nat (size (MKSKIPPED s)) - Z.of_nat (size kept))
  end.

(** ** Key derivation ([crypto/kdf/hkdf.ts]) *)
Definition CHAIN_START : string := "Signal PQ Ratchet V1 Chain  Start".
Definition CHAIN_ADD_EPOCH : string := "Signal PQ Ratchet V1 Chain Add Epoch".
Definition CHAIN_NEXT : string := "Signal PQ Ratchet V1 Chain Next".

(** The strings of the configuration, each of which may be absent. *)
Definition resolveSPQRInfoStrings (prefix start addEpoch next : option string) : ResolvedSPQRInfoStrings :=
  match prefix with
  | Some p => {| chainStart := default (p ++ "Start")%string start; chainAddEpoch := default (p ++ "Add Epoch")%string addEpoch;
                 chainNext := default (p ++ "Next")%string next |}
  | None => {| chainStart := default CHAIN_START start; chainAddEpoch := default CHAIN_ADD_EPOCH addEpoch;
               chainNext := default CHAIN_NEXT next |}
  end.

Definition resolveSPQRLimits (jump ooo : option Z) : ResolvedSPQRLimits := {|
  maxMessageJump := default (maxMessageJump SPQR_LIMITS_DEFAULTS) jump;
  maxOutOfOrderKeys := default (maxOutOfOrderKeys SPQR_LIMITS_DEFAULTS) ooo |}.

(** [DataView.setUint32], big-endian. *)
Definition setUint32 (index : Z) : bytes := [u8 (Z.shiftr index 24); u8 (Z.shiftr index 16); u8 (Z.shiftr index 8); u8 index].

Section Kdf.
Context {H : HashFunctions}.

(** The new chain key and the message key. *)
Definition kdfChainKeySPQR (chainKey : bytes) (index : Z) (infoString : option string) : result (bytes * bytes) :=
  if negb (len chainKey =? 32) then Throw (Error "Chain key must be 32 bytes")
  else if (index <? 0) || (index >? 0xffffffff) then Throw (Error "Index must be 0 to 2^32-1")
  else
    let info := setUint32 index ++ bytes_of_string (default CHAIN_NEXT infoString) in
    let derived := hkdf chainKey (replicate 32 0) info 64 in
    Ok (take 32 derived, take 32 (drop 32 derived)).

Record SpqrKeys := { newRootKey : bytes; a2bChainKey : bytes; b2aChainKey : bytes }.
Definition split_keys (derived : bytes) : SpqrKeys := {|
  newRootKey := take 32 derived; a2bChainKey := take 32 (drop 32 derived); b2aChainKey := take 32 (drop 64 derived) |}.

Definition kdfSpqrInit (rootKey : bytes) (infoString : option string) : result SpqrKeys :=
  if negb (len rootKey =? 32) then Throw (Error "Root key must be 32 bytes")
  else Ok (split_keys (hkdf rootKey [] (bytes_of_string (default CHAIN_START infoString)) 96)).

Definition kdfSpqrEpoch (kyberSharedSecret currentRootKey : bytes) (infoString : option string) : result SpqrKeys :=
  if negb (len kyberSharedSecret =? 32) then Throw (Error "Kyber shared secret must be 32 bytes")
  else if negb (len currentRootKey =? 32) then Throw (Error "Current root key must be 32 bytes")
  else Ok (split_keys (hkdf kyberSharedSecret currentRootKey (bytes_of_string (default CHAIN_ADD_EPOCH infoString)) 96)).
End Kdf.

(** ** ML-KEM-768 ([crypto/pq/kyber.ts])

    [ml_kem768] is the package [@noble/post-quantum]; it may reject a key or a
    ciphertext of the right size. *)
Class Kyber768 := {
  k768_keygen : bytes -> bytes * bytes;                        (* seed; public key, secret key *)
  k768_encapsulate : bytes -> bytes -> result (bytes * bytes); (* public key, message; shared secret, ciphertext *)
  k768_decapsulate : bytes -> bytes -> result bytes }.         (* ciphertext, secret key *)

Definition KYBER_768_PUBLIC_KEY_BYTES : Z := 1184.
Definition KYBER_768_SECRET_KEY_BYTES : Z := 2400.
Definition KYBER_768_CIPHERTEXT_BYTES : Z := 1088.

Section Kyber.
Context {Q : Kyber768}.
Definition generateKyber768KeyPair (randomBytes : nat -> bytes) : bytes * bytes := k768_keygen (randomBytes 64%nat).
Definition kyber768Encapsulate (kyberPublicKey : bytes) (randomBytes : nat -> bytes) : result (bytes * bytes) :=
  if negb (len kyberPublicKey =? KYBER_768_PUBLIC_KEY_BYTES) then Throw (Error "Invalid Kyber-768 public key")
  else
    '(secret, ciphertext) ← k768_encapsulate kyberPublicKey (randomBytes 32%nat);
    sharedSecret ← asKyberSharedSecret secret;
    Ok (sharedSecret, ciphertext).
Definition kyber768Decapsulate (ciphertext kyberPrivateKey : bytes) : result bytes :=
  if negb (len ciphertext =? KYBER_768_CIPHERTEXT_BYTES) then Throw (Error "Invalid Kyber-768 ciphertext")
  else if negb (len kyberPrivateKey =? KYBER_768_SECRET_KEY_BYTES) then Throw (Error "Invalid Kyber-768 private key")
  else secret ← k768_decapsulate ciphertext kyberPrivateKey; asKyberSharedSecret secret.
End Kyber.
