(* ===== verification/Spqr.v ===== *)
(** * SPQR: the driver ([spqr/spqr.ts], [spqr/braid.ts], [ml-kem-braid/progress.ts])

    An operation mutates the [SPQRState] it is given: it is a computation of
    the monad [M].  The clock and the source of random bytes are arguments; an
    operation sees one reading of the clock.  Logging, the progress callback
    and the zeroing of dropped buffers have no effect on the state. *)
From S2P Require Import Prelude Crypto GaloisField Lagrange ErasureCodec BraidState BraidAuth Braid SpqrWire SpqrState.

Definition ZEROED_CHAIN_KEY : bytes := replicate 32 0.
Definition SPQR_EPOCH_SECRET_LENGTH : Z := 32.
Definition EPOCHS_TO_KEEP_PRIOR_TO_SEND_EPOCH : Z := 1.
Definition MAX_INDEX : Z := 1000000.
Definition MAX_CHUNKS_PER_SEND : Z := 100.

Record SPQRKeyResult := { kr_messageKey : bytes; kr_index : Z; kr_epoch : Z }.
Record SPQRRatchetResult := {
  kyberCiphertextToSend : option bytes; kyberPublicKeyToSend : option bytes;
  braidChunks : option (list MLKEMBraidMessage); outputKey : option OutputKey }.
Record SPQRChunkResult := { cr_chunks : list MLKEMBraidMessage; cr_outputKey : option OutputKey; cr_epoch : Z }.
Record SPQRSendResult := { msgBytes : bytes; messageKey : option bytes }.
Record SPQRRecvResult := { recv_messageKey : option bytes }.

(** Which chains an epoch secret initialises. *)
Inductive ChainSelection := Both | ReceiveOnly.

Definition SE (code : string) {A} : M SPQRState A := M_throw (EncryptionError code).
Arguments SE code%_string_scope {A}.

(** [validateSPQRState(state, ...)] and other checks of the current state. *)
Definition inspect {S A} (f : S -> result A) : M S A := fun s => (s, f s).

Definition isSpqrBootstrapComplete (s : SPQRState) : bool :=
  match mode s with
  | BraidMode => present_ (braidState s) && isVersionNegotiationComplete (versionNegotiation s)
  | DirectMode => present_ (theirKyberPublicKey (sckaState s)) && isVersionNegotiationComplete (versionNegotiation s)
  end.

(** The operation [m] on the agent held in [braidState]. *)
Definition on_braid {A} (missing : exn) (m : M Agent A) : M SPQRState A := fun s =>
  match braidState s with
  | None => (s, Throw missing)
  | Some b => let (b', r) := m b in (with_braid (Some b') s, r)
  end.

Section Spqr.
Context {H : HashFunctions} {K : MLKEM768} {Q : Kyber768}.

(** ** Initialisation *)
Definition initial_scka (d : Direction) (our their : option bytes) (now : Z) : SCKAState := {|
  scka_epoch := 0; scka_direction := d; ourKyberPrivateKey := truthy our; theirKyberPublicKey := truthy their;
  lastRefreshTimestamp := now; lastRefreshMessageCount := 0 |}.

Definition orient (d : Direction) (k : SpqrKeys) : bytes * bytes :=
  match d with A2B => (a2bChainKey k, b2aChainKey k) | B2A => (b2aChainKey k, a2bChainKey k) end.

Definition initial_chains (d : Direction) (k : SpqrKeys) : gmap Z EpochChains :=
  {[ 0 := {| send := {| CK := (orient d k).1; N := 0 |}; receive := {| CK := (orient d k).2; N := 0 |} |} ]}.

Definition initializeSPQRState (initialRootKey : bytes) (d : Direction) (our their : option bytes)
    (info : option ResolvedSPQRInfoStrings) (lim : option ResolvedSPQRLimits) (now : Z) : result SPQRState :=
  let resolvedInfoStrings := default (resolveSPQRInfoStrings None None None None) info in
  k ← kdfSpqrInit initialRootKey (Some (chainStart resolvedInfoStrings));
  Ok {| RK := newRootKey k; sp_epoch := 0; sendEpoch := Some 0; kdfChains := initial_chains d k; MKSKIPPED := ∅;
        direction := d; sckaState := initial_scka d our their now; mode := DirectMode; braidState := None;
        pendingOutgoingChunks := None; versionNegotiation := Some (initVersionNegotiation V1 V1);
        infoStrings := Some resolvedInfoStrings; limits := Some (default SPQR_LIMITS_DEFAULTS lim);
        needsSendRatchet := false |}.

Definition initializeSPQRBraid (initialRootKey : bytes) (d : Direction) (our their : option bytes)
    (maxV minV : SPQRVersion) (info : ResolvedSPQRInfoStrings) (now : Z) : result SPQRState :=
  b ← match d with A2B => InitAlice initialRootKey | B2A => InitBob initialRootKey end;
  k ← kdfSpqrInit initialRootKey (Some (chainStart info));
  Ok {| RK := newRootKey k; sp_epoch := 0; sendEpoch := Some 0; kdfChains := initial_chains d k; MKSKIPPED := ∅;
        direction := d; sckaState := initial_scka d our their now; mode := BraidMode; braidState := Some b;
        pendingOutgoingChunks := Some []; versionNegotiation := Some (initVersionNegotiation maxV minV);
        infoStrings := None; limits := None; needsSendRatchet := false |}.

(** [spqr/index.ts]; the configured strings and limits are resolved by the
    caller of the model. *)
Definition with_config (info : ResolvedSPQRInfoStrings) (lim : ResolvedSPQRLimits) (maxV minV : SPQRVersion)
    (m : SCKAMode) (s : SPQRState) : SPQRState := {|
  RK := RK s; sp_epoch := sp_epoch s; sendEpoch := sendEpoch s; kdfChains := kdfChains s; MKSKIPPED := MKSKIPPED s;
  direction := direction s; sckaState := sckaState s; mode := m; braidState := braidState s;
  pendingOutgoingChunks := pendingOutgoingChunks s; versionNegotiation := Some (initVersionNegotiation maxV minV);
  infoStrings := Some info; limits := Some lim; needsSendRatchet := needsSendRatchet s |}.

Definition initializeSPQR (m : SCKAMode) (initialRootKey : bytes) (d : Direction) (our their : option bytes)
    (maxV minV : SPQRVersion) (info : ResolvedSPQRInfoStrings) (lim : ResolvedSPQRLimits) (now : Z) : result SPQRState :=
  match m with
  | BraidMode =>
      s ← initializeSPQRBraid initialRootKey d our their maxV minV info now;
      Ok (with_config info lim maxV minV BraidMode s)
  | DirectMode =>
      s ← initializeSPQRState initialRootKey d our their (Some info) (Some lim) now;
      Ok (with_config info lim maxV minV DirectMode s)
  end.

(** ** Adding an epoch *)
Definition getNextSPQREpoch (s : SPQRState) : result Z :=
  _ ← validateSPQRState s;
  if sp_epoch s >=? MAX_SAFE_INTEGER then Throw (EncryptionError "SPQR_EPOCH_OUT_OF_RANGE") else Ok (sp_epoch s + 1).

(** What is derived before the state is changed, and what it was derived
    from. *)
Record EpochCandidate := {
  ec_currentEpoch : Z; ec_currentRootKey : bytes; ec_nextEpoch : Z; ec_rootKey : bytes; ec_chains : EpochChains; ec_now : Z }.

Definition prepareSPQREpoch (epochSecret : bytes) (chains : ChainSelection) (expectedEpoch now : Z)
    (s : SPQRState) : result EpochCandidate :=
  nextEpoch ← getNextSPQREpoch s;
  if negb (expectedEpoch =? nextEpoch) then Throw (EncryptionError "INVALID_STATE")
  else if negb (scka_epoch (sckaState s) =? sp_epoch s) then Throw (EncryptionError "INVALID_STATE")
  else if negb (len epochSecret =? SPQR_EPOCH_SECRET_LENGTH) then Throw (EncryptionError "INVALID_STATE")
  else if negb (len (RK s) =? 32) then Throw (EncryptionError "INVALID_STATE")
  else
    k ← kdfSpqrEpoch epochSecret (RK s) (chainAddEpoch <$> infoStrings s);
    let keys := orient (direction s) k in
    let receive_chain := {| CK := keys.2; N := 0 |} in
    let candidateChains :=
      match chains with
      | Both => {| send := {| CK := keys.1; N := 0 |}; receive := receive_chain |}
      | ReceiveOnly =>
          {| send := match kdfChains s !! nextEpoch with
                     | Some existing => send existing | None => {| CK := ZEROED_CHAIN_KEY; N := 0 |} end;
             receive := receive_chain |}
      end in
    Ok {| ec_currentEpoch := sp_epoch s; ec_currentRootKey := RK s; ec_nextEpoch := nextEpoch;
          ec_rootKey := newRootKey k; ec_chains := candidateChains; ec_now := now |}.

(** The state may have changed since the candidate was derived. *)
Definition commitSPQREpoch (c : EpochCandidate) : M SPQRState unit := fun s =>
  if negb (sp_epoch s =? ec_currentEpoch c) || negb (scka_epoch (sckaState s) =? ec_currentEpoch c) ||
     negb (bool_decide (RK s = ec_currentRootKey c))
  then (s, Throw (EncryptionError "INVALID_STATE"))
  else (with_scka (set_refresh (ec_nextEpoch c) (ec_now c) (sckaState s))
         (with_chains (<[ec_nextEpoch c := ec_chains c]> (kdfChains s)) (with_root (ec_rootKey c) (ec_nextEpoch c) s)), Ok tt).

Definition addSPQREpochSecret (epochSecret : bytes) (chains : ChainSelection) (expectedEpoch now : Z) : M SPQRState unit := (
  do c <- inspect (prepareSPQREpoch epochSecret chains expectedEpoch now);
  commitSPQREpoch c)%st.

Definition advanceSPQREpochFromRawSecret (rawSharedSecret : bytes) (chains : ChainSelection) (now : Z) : M SPQRState unit := (
  do nextEpoch <- inspect getNextSPQREpoch;
  do epochSecret <- M_lift (KDF_OK rawSharedSecret nextEpoch);
  addSPQREpochSecret epochSecret chains nextEpoch now)%st.

Definition addSPQRBraidEpoch (k : OutputKey) (chains : ChainSelection) (now : Z) : M SPQRState unit := (
  do expectedEpoch <- inspect getNextSPQREpoch;
  if negb (ok_epoch k =? expectedEpoch) then SE "INVALID_STATE"
  else addSPQREpochSecret (epoch_secret k) chains expectedEpoch now)%st.

(** ** Braid mode without the wire ([braid.ts])

    The loop of [spqrBraidSend] has no bound of its own; [None] is a run of
    more than [fuel] rounds. *)
Fixpoint braid_send_loop (fuel : nat) (ready : bool) (rb : nat -> nat -> bytes) (round : nat) (chunks : list MLKEMBraidMessage)
    (out : option OutputKey) (b : Agent) : option (Agent * result SPQRChunkResult) :=
  match fuel with
  | O => None
  | S fuel =>
      match Send ready (rb round) b with
      | (b', Throw e) => Some (b', Throw e)
      | (b', Ok r) =>
          let chunks := if negb (bool_decide (m_type (sr_message r) = NoneMsg)) && present_ (m_data (sr_message r))
                        then chunks ++ [sr_message r] else chunks in
          let out := match sr_output_key r with Some k => Some k | None => out end in
          if negb (bool_decide (m_type (sr_message r) = NoneMsg)) && (len chunks <? MAX_CHUNKS_PER_SEND)
          then braid_send_loop fuel ready rb (S round) chunks out b'
          else Some (b', Ok {| cr_chunks := chunks; cr_outputKey := out; cr_epoch := sending_epoch r |})
      end
  end.

(** Round [i] draws its random bytes from [rb i]. *)
Definition spqrBraidSend (fuel : nat) (ready : bool) (rb : nat -> nat -> bytes) (s : SPQRState) :
    option (SPQRState * result SPQRChunkResult) :=
  match mode s, braidState s with
  | DirectMode, _ => Some (s, Throw (EncryptionError "INVALID_STATE"))
  | BraidMode, None => Some (s, Throw (EncryptionError "INVALID_STATE"))
  | BraidMode, Some b =>
      match braid_send_loop fuel ready rb 0 [] None b with
      | None => None
      | Some (b', r) => Some (with_braid (Some b') s, r)
      end
  end.

Definition spqrBraidReceive (m : MLKEMBraidMessage) : M SPQRState SPQRChunkResult := (
  do s <- M_get;
  if bool_decide (mode s = DirectMode) then SE "INVALID_STATE"
  else
    do r <- on_braid (EncryptionError "INVALID_STATE") (Receive m);
    M_ret {| cr_chunks := []; cr_outputKey := rr_output_key r; cr_epoch := receiving_epoch r |})%st.

Definition getNextBraidChunk (s : SPQRState) : SPQRState * option MLKEMBraidMessage :=
  match mode s, pendingOutgoingChunks s with
  | BraidMode, Some (c :: q) => (with_pending (Some q) s, Some c)
  | _, _ => (s, None)
  end.

Definition hasPendingBraidChunks (s : SPQRState) : bool :=
  match mode s with
  | DirectMode => false
  | BraidMode => len (default [] (pendingOutgoingChunks s)) >? 0
  end.

Definition isBraidMode (s : SPQRState) : bool := bool_decide (mode s = BraidMode).

Definition getBraidStateName (s : SPQRState) : option MLKEMBraidState :=
  match mode s with BraidMode => state <$> braidState s | DirectMode => None end.

Definition getBraidEpoch (s : SPQRState) : option Z :=
  match mode s with BraidMode => epoch <$> braidState s | DirectMode => None end.

(** ** Chunk progress ([progress.ts]) *)
Definition encoder_progress (p : Z * Z) (e : option BraidEncoder) : Z * Z :=
  match e with Some e => (p.1 + be_currentChunk e, p.2 + be_totalChunks e) | None => p end.
Definition decoder_progress (p : Z * Z) (d : option BraidDecoder) : Z * Z :=
  match d with Some d => (p.1 + bd_receivedChunks d, p.2 + bd_requiredChunks d) | None => p end.

(** The chunks carried and required. *)
Definition readBraidChunkProgress (b : Agent) : Z * Z :=
  foldl decoder_progress (foldl encoder_progress (0, 0) [headerEncoder b; ekEncoder b; ct1Encoder b; ct2Encoder b])
    [headerDecoder b; ekDecoder b; ct1Decoder b; ct2Decoder b].

(** ** The direct ratchet step *)

(** [performSPQRRatchetStep] in direct mode; [spqrSend] calls it in this mode
    only. *)
Definition performDirectRatchetStep (randomBytes : nat -> bytes) (now : Z) : M SPQRState SPQRRatchetResult := (
  let (publicKey, privateKey) := generateKyber768KeyPair randomBytes in
  do_ M_modify (fun s => with_scka (set_our_key privateKey (sckaState s)) s);
  do s <- M_get;
  match truthy (theirKyberPublicKey (sckaState s)) with
  | None => SE "SPQR_INVALID_CIPHERTEXT"
  | Some theirPubKeyBytes =>
      do sc <- M_lift (kyber768Encapsulate theirPubKeyBytes randomBytes);
      do_ advanceSPQREpochFromRawSecret (sc.1) Both now;
      M_ret {| kyberCiphertextToSend := Some (sc.2); kyberPublicKeyToSend := Some publicKey; braidChunks := None; outputKey := None |}
  end)%st.

(** In braid mode the chunks are collected by the loop of [spqrBraidSend]. *)
Definition performSPQRRatchetStep (fuel : nat) (ready : bool) (rb : nat -> nat -> bytes) (randomBytes : nat -> bytes)
    (now : Z) (s : SPQRState) : option (SPQRState * result SPQRRatchetResult) :=
  match validateSPQRState s with
  | Throw e => Some (s, Throw e)
  | Ok _ =>
      match mode s with
      | BraidMode =>
          match spqrBraidSend fuel ready rb s with
          | None => None
          | Some (s', Throw e) => Some (s', Throw e)
          | Some (s', Ok r) => Some (s', Ok {| kyberCiphertextToSend := None; kyberPublicKeyToSend := None;
                                               braidChunks := Some (cr_chunks r); outputKey := cr_outputKey r |})
          end
      | DirectMode => Some (performDirectRatchetStep randomBytes now s)
      end
  end.

Definition processSPQRReceivedCiphertext (receivedKyberCiphertext : bytes) (now : Z) : M SPQRState unit := (
  do_ inspect validateSPQRState;
  do s <- M_get;
  if bool_decide (mode s = BraidMode) then SE "INVALID_STATE"
  else if negb (len receivedKyberCiphertext =? MLKEM768_CIPHERTEXT_SIZE) then SE "SPQR_INVALID_CIPHERTEXT"
  else match truthy (ourKyberPrivateKey (sckaState s)) with
  | None => SE "SPQR_INVALID_CIPHERTEXT"
  | Some ourPrivKeyBytes =>
      do sharedSecret <- M_lift (kyber768Decapsulate receivedKyberCiphertext ourPrivKeyBytes);
      advanceSPQREpochFromRawSecret sharedSecret ReceiveOnly now
  end)%st.

(** ** Message keys *)

(** [Math.max(0, e - 1)]: the oldest epoch kept. *)
Definition oldest_kept (e : Z) : Z := Z.max 0 (e - EPOCHS_TO_KEEP_PRIOR_TO_SEND_EPOCH).

Definition clear_send (c : EpochChains) : EpochChains := {| send := {| CK := ZEROED_CHAIN_KEY; N := 0 |}; receive := receive c |}.

(** The loop over the epochs of [kdfChains] when the send epoch becomes [e]. *)
Definition prune_chains (e : Z) (chains : gmap Z EpochChains) : gmap Z EpochChains :=
  map_imap (fun e' c => if e' <? oldest_kept e then None else if e' <? e then Some (clear_send c) else Some c) chains.

Definition prune_skipped (e : Z) (k : gmap (Z * Z) SkippedSPQRKey) : gmap (Z * Z) SkippedSPQRKey :=
  filter (fun kv => ~ kv.1.1 < oldest_kept e) k.

Definition advance_send_epoch (e : Z) (s : SPQRState) : SPQRState :=
  with_skipped (prune_skipped e (MKSKIPPED s)) (with_chains (prune_chains e (kdfChains s)) (with_sendEpoch (Some e) s)).

Definition set_send_chain (e : Z) (c : KDFChain) (s : SPQRState) : SPQRState :=
  with_chains (alter (fun cs => {| send := c; receive := receive cs |}) e (kdfChains s)) s.
Definition set_receive_chain (e : Z) (c : KDFChain) (s : SPQRState) : SPQRState :=
  with_chains (alter (fun cs => {| send := send cs; receive := c |}) e (kdfChains s)) s.

Definition step_send_chain (e : Z) : M SPQRState (option SPQRKeyResult) := (
  do s <- M_get;
  match kdfChains s !! e with
  | None => M_throw TypeError
  | Some chains =>
      let sendChain := send chains in
      if bool_decide (CK sendChain = ZEROED_CHAIN_KEY) then SE "INVALID_STATE"
      else if N sendChain >=? MAX_INDEX then SE "SPQR_COUNTER_OVERFLOW"
      else
        let currentIndex := N sendChain + 1 in
        do ck <- M_lift (kdfChainKeySPQR (CK sendChain) currentIndex (chainNext <$> infoStrings s));
        do_ M_modify (set_send_chain e {| CK := ck.1; N := currentIndex |});
        M_ret (Some {| kr_messageKey := ck.2; kr_index := currentIndex; kr_epoch := e |})
  end)%st.

Definition deriveSPQRSendKey (epochOverride : option Z) : M SPQRState (option SPQRKeyResult) := (
  do_ inspect validateSPQRState;
  do s <- M_get;
  if negb (isSpqrBootstrapComplete s) then M_ret None
  else
    let e := default (sp_epoch s) epochOverride in
    if negb (present_ (kdfChains s !! e)) then SE "SPQR_EPOCH_OUT_OF_RANGE"
    else
      let previousSendEpoch := default 0 (sendEpoch s) in
      if e <? previousSendEpoch then SE "SPQR_EPOCH_OUT_OF_RANGE"
      else
        do_ (if e >? previousSendEpoch then M_modify (advance_send_epoch e) else M_ret tt);
        step_send_chain e)%st.

(** The index is an integer. *)
Definition isBelowTrimHorizon (s : SPQRState) (e index : Z) : bool :=
  match kdfChains s !! e with
  | None => false
  | Some chains => if index <? 0 then false else index + limit_ooo s <? N (receive chains)
  end.

Definition assertNotTrimmed (s : SPQRState) (e index : Z) : result unit :=
  if isBelowTrimHorizon s e index then Throw (EncryptionError "DECRYPTION_FAILED") else Ok tt.

Record Walk := { w_chainKey : bytes; w_currentN : Z; w_messageKey : option bytes; w_pending : list (Z * bytes) }.

(** The loop over the indices up to [index]: the last one gives the message
    key, those within the horizon are held, the others are dropped. *)
Fixpoint receive_loop (fuel : nat) (info : option string) (ooo index : Z) (w : Walk) : result Walk :=
  match fuel with
  | O => Ok w
  | S fuel =>
      if w_currentN w <? index then
        let n := w_currentN w + 1 in
        ck ← kdfChainKeySPQR (w_chainKey w) n info;
        receive_loop fuel info ooo index
          {| w_chainKey := ck.1; w_currentN := n;
             w_messageKey := if n =? index then Some ck.2 else w_messageKey w;
             w_pending := if n =? index then w_pending w else if n + ooo <? index then w_pending w
                          else w_pending w ++ [(n, ck.2)] |}
      else Ok w
  end.

(** [MKSKIPPED[skipKey] = skipped] for the keys collected by the loop. *)
Definition hold_keys (e now : Z) (pending : list (Z * bytes)) (k : gmap (Z * Z) SkippedSPQRKey) : gmap (Z * Z) SkippedSPQRKey :=
  foldl (fun k nk => <[(e, nk.1) := {| sk_key := nk.2; sk_timestamp := now |}]> k) k pending.

Definition drop_epoch (e : Z) (k : gmap (Z * Z) SkippedSPQRKey) : gmap (Z * Z) SkippedSPQRKey := filter (fun kv => ~ kv.1.1 = e) k.

Definition commit_receive (e index now : Z) (clears : bool) (w : Walk) (s : SPQRState) : SPQRState :=
  let k := if clears then drop_epoch e (MKSKIPPED s) else MKSKIPPED s in
  (trimEpochSkippedKeys e
    (set_receive_chain e {| CK := w_chainKey w; N := w_currentN w |} (with_skipped (hold_keys e now (w_pending w) k) s))).1.

Definition walk_receive_chain (e index now : Z) : M SPQRState (option bytes) := (
  do s <- M_get;
  match kdfChains s !! e with
  | None => SE "SPQR_EPOCH_OUT_OF_RANGE"
  | Some chains =>
      let receiveChain := receive chains in
      let indexGap := index - N receiveChain in
      if indexGap >? limit_jump s then SE "SPQR_MESSAGE_JUMP_TOO_LARGE"
      else
        let clearsHeldKeys := index >? N receiveChain + limit_ooo s in
        do w <- M_lift (receive_loop (Z.to_nat indexGap) (chainNext <$> infoStrings s) (limit_ooo s) index
                         {| w_chainKey := CK receiveChain; w_currentN := N receiveChain; w_messageKey := None; w_pending := [] |});
        match w_messageKey w with
        | None => SE "DECRYPTION_FAILED"
        | Some k => do_ M_modify (commit_receive e index now clearsHeldKeys w); M_ret (Some k)
        end
  end)%st.

Definition deriveSPQRReceiveKey (index e now : Z) : M SPQRState (option bytes) := (
  do_ inspect validateSPQRState;
  do s <- M_get;
  if negb (isSpqrBootstrapComplete s) then M_ret None
  else
    do_ M_lift (assertNotTrimmed s e index);
    match MKSKIPPED s !! (e, index) with
    | Some skipped => do_ M_modify (fun s => with_skipped (delete (e, index) (MKSKIPPED s)) s); M_ret (Some (sk_key skipped))
    | None =>
        if index <? 0 then SE "SPQR_MESSAGE_JUMP_TOO_LARGE"
        else if e >? sp_epoch s then SE "SPQR_EPOCH_OUT_OF_RANGE"
        else if index >? MAX_INDEX then SE "SPQR_COUNTER_OVERFLOW"
        else if e <? oldest_kept (sp_epoch s) then SE "SPQR_EPOCH_OUT_OF_RANGE"
        else walk_receive_chain e index now
    end)%st.

Definition tryGetSkippedSPQRKey (e index : Z) : M SPQRState (option bytes) := fun s =>
  match MKSKIPPED s !! (e, index) with
  | Some skipped =>
      if negb (isBelowTrimHorizon s e index)
      then (with_skipped (delete (e, index) (MKSKIPPED s)) s, Ok (Some (sk_key skipped))) else (s, Ok None)
  | None => (s, Ok None)
  end.

(** ** [spqrSend] and [spqrRecv] *)
Definition MessageType_of_number (n : Z) : MessageType :=
  if n =? 1 then Hdr else if n =? 2 then Ek else if n =? 3 then EkCt1Ack else if n =? 4 then Ct1Ack
  else if n =? 5 then Ct1 else if n =? 6 then Ct2 else NoneMsg.

(** The lazy KEM of direct mode: the ciphertext and the public key to send. *)
Definition send_ratchet (randomBytes : nat -> bytes) (now : Z) : M SPQRState (option bytes * option bytes) := (
  do s <- M_get;
  if needsSendRatchet s && bool_decide (mode s = DirectMode) then
    do r <- match truthy (theirKyberPublicKey (sckaState s)) with
            | Some _ =>
                do_ inspect validateSPQRState;
                do r <- performDirectRatchetStep randomBytes now;
                M_ret (kyberCiphertextToSend r, kyberPublicKeyToSend r)
            | None =>
                let (publicKey, privateKey) := generateKyber768KeyPair randomBytes in
                do_ M_modify (fun s => with_scka (set_our_key privateKey (sckaState s)) s);
                M_ret (None, Some publicKey)
            end;
    do_ M_modify (with_ratchet false);
    M_ret r
  else M_ret (None, None))%st.

(** The result of the state machine, if there is one. *)
Definition send_braid (ready : bool) (randomBytes : nat -> bytes) (now : Z) : M SPQRState (option SendResult) := (
  do s <- M_get;
  if bool_decide (mode s = BraidMode) && present_ (braidState s) then
    do r <- on_braid TypeError (Send ready randomBytes);
    do_ match sr_output_key r with Some k => addSPQRBraidEpoch k Both now | None => M_ret tt end;
    M_ret (Some r)
  else M_ret None)%st.

(** [braidMessage]: a message of type [None] is not transmitted. *)
Definition braid_message (r : option SendResult) : option MLKEMBraidMessage :=
  match r with
  | Some r => if bool_decide (m_type (sr_message r) = NoneMsg) then None else Some (sr_message r)
  | None => None
  end.

Definition wire_message (epoch : Z) (k : option SPQRKeyResult) (ct pk : option bytes) (b : option MLKEMBraidMessage) : SPQRWireMessage := {|
  w_version := 1; w_epoch := Some epoch; w_chainIndex := kr_index <$> k;
  w_mode := match b with
            | Some _ => WireBraid
            | None => if present_ ct || present_ pk then WireDirect else WireNone
            end;
  w_braidMsgType := (fun m => MessageType_number (m_type m)) <$> b;
  w_braidChunkIndex := b ≫= m_chunkIndex; w_braidChunkData := b ≫= m_data;
  w_kyberCiphertext := ct; w_kyberPublicKey := pk |}.

Definition spqrSend (ready : bool) (randomBytes : nat -> bytes) (now : Z) : M SPQRState SPQRSendResult := (
  do kem <- send_ratchet randomBytes now;
  do braid <- send_braid ready randomBytes now;
  do sendKeyEpoch <- match braid with
                     | Some r => do e <- M_lift (spqrWireEpochToInternalEpoch (sending_epoch r)); M_ret (Some e)
                     | None => M_ret None
                     end;
  do key <- deriveSPQRSendKey sendKeyEpoch;
  let braidMessage := braid_message braid in
  if negb (present_ key || present_ (kem.1) || present_ (kem.2) || present_ braidMessage)
  then M_ret {| msgBytes := []; messageKey := None |}
  else
    do s <- M_get;
    do wireEpoch <- match braid with
                    | Some r => M_ret (sending_epoch r)
                    | None => M_lift (spqrInternalEpochToWireEpoch (default (sp_epoch s) (kr_epoch <$> key)))
                    end;
    do b <- M_lift (encodeSPQRWire (wire_message wireEpoch key (kem.1) (kem.2) braidMessage));
    M_ret {| msgBytes := b; messageKey := kr_messageKey <$> key |})%st.

(** Step 1 of [spqrRecv]. *)
Definition recv_version (version : Z) : M SPQRState unit := fun s =>
  match versionNegotiation s with
  | Some v =>
      if bool_decide (status v = Negotiating)
      then let (v', r) := processVersionFromByte version v in (with_negotiation (Some v') s, r)
      else (s, Ok tt)
  | None => (s, Ok tt)
  end.

(** Step 2 in direct mode. *)
Definition recv_direct (pqr : SPQRWireMessage) (now : Z) : M SPQRState unit := (
  do_ match truthy (w_kyberPublicKey pqr) with
      | Some k => M_modify (fun s => with_scka (set_their_key k (sckaState s)) s)
      | None => M_ret tt
      end;
  match truthy (w_kyberCiphertext pqr) with
  | Some c => do_ processSPQRReceivedCiphertext c now; M_modify (with_ratchet true)
  | None => M_ret tt
  end)%st.

(** Step 2 in braid mode. *)
Definition wire_chunk (e : Z) (pqr : SPQRWireMessage) : MLKEMBraidMessage := {|
  m_epoch := e; m_type := MessageType_of_number (default 0 (w_braidMsgType pqr));
  m_chunkIndex := w_braidChunkIndex pqr; m_data := w_braidChunkData pqr |}.

Definition recv_braid (pqr : SPQRWireMessage) (now : Z) : M SPQRState unit := (
  do e <- M_lift (spqrWireEpochToBigInt (default 0 (w_epoch pqr)));
  do r <- on_braid TypeError (Receive (wire_chunk e pqr));
  match rr_output_key r with Some k => addSPQRBraidEpoch k Both now | None => M_ret tt end)%st.

Definition recv_payload (pqr : SPQRWireMessage) (now : Z) : M SPQRState unit := (
  do s <- M_get;
  match w_mode pqr with
  | WireDirect => recv_direct pqr now
  | WireBraid => if bool_decide (mode s = BraidMode) && present_ (braidState s) then recv_braid pqr now else M_ret tt
  | WireNone => M_ret tt
  end)%st.

Definition recv_key (pqr : SPQRWireMessage) (now : Z) : M SPQRState (option bytes) :=
  match w_epoch pqr, w_chainIndex pqr with
  | Some e, Some i =>
      if i >=? 1 then (do internalEpoch <- M_lift (spqrWireEpochToInternalEpoch e); deriveSPQRReceiveKey i internalEpoch now)%st
      else M_ret None
  | _, _ => M_ret None
  end.

Definition spqrRecv (msg : option bytes) (now : Z) : M SPQRState SPQRRecvResult := (
  match msg with
  | None | Some [] => M_ret {| recv_messageKey := None |}
  | Some msgBytes =>
      do pqr <- M_lift (decodeSPQRWire msgBytes);
      do_ recv_version (w_version pqr);
      do_ recv_payload pqr now;
      do k <- recv_key pqr now;
      M_ret {| recv_messageKey := k |}
  end)%st.
End Spqr.
