(* ===== verification/SpqrInv.v ===== *)
(** * SPQR: well-formed states

    The invariant of the chains and of the held keys, for both modes and for
    arbitrary input: it is kept by every operation, also by those that throw. *)
From S2P Require Import Prelude Crypto GaloisField Lagrange ErasureCodec BraidState BraidAuth Braid SpqrWire SpqrState Spqr.

Lemma maintains_SE (I : SPQRState -> Prop) code A : maintains I (SE code : M SPQRState A).
Proof. by intros s. Qed.
Lemma maintains_inspect {A} (I : SPQRState -> Prop) (f : SPQRState -> result A) : maintains I (inspect f).
Proof. by intros s. Qed.
#[export] Hint Resolve maintains_SE maintains_inspect : maintain.

(** ** The state of the chains *)
Record wf (s : SPQRState) : Prop := {
  wf_limit : 0 <= limit_ooo s;
  wf_epoch : forall e cs, kdfChains s !! e = Some cs -> e <= sp_epoch s /\ 0 <= N (receive cs);
  wf_held : forall e i k, MKSKIPPED s !! (e, i) = Some k -> exists cs, kdfChains s !! e = Some cs /\ 1 <= i < N (receive cs);
  wf_count : forall e, held_count e (MKSKIPPED s) < skippedKeyTrimSize (limit_ooo s) }.

Lemma wf_frame s s' : limits s' = limits s -> sp_epoch s' = sp_epoch s -> kdfChains s' = kdfChains s -> MKSKIPPED s' = MKSKIPPED s ->
  wf s -> wf s'.
Proof.
  intros Hl He Hc Hk [H1 H2 H3 H4]. assert (Eo : limit_ooo s' = limit_ooo s) by (unfold limit_ooo; by rewrite Hl).
  split; rewrite ?Eo, ?He, ?Hc, ?Hk; done.
Qed.

(** *** Held keys *)
Lemma held_count_mono e k k' : k' ⊆ k -> held_count e k' <= held_count e k.
Proof.
  intros Hs. unfold held_count, held. apply Nat2Z.inj_le, map_subseteq_size, map_filter_subseteq_mono. done.
Qed.

Lemma trim_size_pos ooo : 0 <= ooo -> ooo < skippedKeyTrimSize ooo.
Proof. intros Ho. unfold skippedKeyTrimSize. pose proof (Z.div_le_lower_bound (ooo * 11) 10 ooo). lia. Qed.

(** Keys of one epoch whose indices lie in an interval. *)
Lemma held_count_interval e k lo n : (forall i v, k !! (e, i) = Some v -> lo <= i < lo + Z.of_nat n) ->
  held_count e k <= Z.of_nat n.
Proof.
  intros Hi. unfold held_count. apply Nat2Z.inj_le. rewrite <- size_dom.
  set (l := map (fun j => (e, lo + Z.of_nat j)) (seq 0 n)).
  replace n with (length l) at 1 by (unfold l; by rewrite length_map, length_seq).
  transitivity (size (list_to_set l : gset (Z * Z))).
  - apply subseteq_size. intros [e' i] Hin. apply elem_of_dom in Hin as [v Hv].
    apply map_lookup_filter_Some in Hv as [Hv Ee]. cbn in Ee. subst e'. apply elem_of_list_to_set.
    unfold l. apply list_elem_of_fmap. exists (Z.to_nat (i - lo)). specialize (Hi i v Hv).
    split; [f_equal; lia|]. apply elem_of_seq. lia.
  - rewrite size_list_to_set; [done|]. unfold l. apply NoDup_fmap; [|apply NoDup_seq]. intros x y. cbn. intros [= E]. lia.
Qed.

Lemma filter_lookup {P : (Z * Z) * SkippedSPQRKey -> Prop} `{!forall x, Decision (P x)} (k : gmap (Z * Z) SkippedSPQRKey) ei v :
  filter P k !! ei = Some v -> k !! ei = Some v.
Proof. intros Hv. by apply map_lookup_filter_Some in Hv as [? _]. Qed.

(** Removing held keys. *)
Lemma wf_fewer s k : k ⊆ MKSKIPPED s -> wf s -> wf (with_skipped k s).
Proof.
  intros Hs [H1 H2 H3 H4]. split; cbn; [done|done| |].
  - intros e i v Hv. eapply H3. eapply lookup_weaken; done.
  - intros e. change (limit_ooo (with_skipped k s)) with (limit_ooo s). specialize (H4 e). pose proof (held_count_mono e _ _ Hs). lia.
Qed.

(** *** The send epoch *)
Lemma prune_chains_Some e chains e' cs : prune_chains e chains !! e' = Some cs ->
  exists cs0, chains !! e' = Some cs0 /\ oldest_kept e <= e' /\ receive cs = receive cs0 /\
    (send cs = send cs0 \/ send cs = {| CK := ZEROED_CHAIN_KEY; N := 0 |}).
Proof.
  unfold prune_chains. rewrite map_lookup_imap. destruct (chains !! e') as [cs0|]; [|done]. cbn [mbind option_bind].
  case_if; [done|]. b2p. case_if; intros [= <-]; exists cs0; (split; [done|]); (split; [done|]); cbn; auto.
Qed.

Lemma prune_chains_keep e chains e' cs0 : chains !! e' = Some cs0 -> oldest_kept e <= e' ->
  exists cs, prune_chains e chains !! e' = Some cs /\ receive cs = receive cs0 /\ (e <= e' -> cs = cs0).
Proof.
  intros Hc He. unfold prune_chains. rewrite map_lookup_imap, Hc. cbn [mbind option_bind].
  replace (e' <? oldest_kept e) with false by lia. case_if; b2p; [exists (clear_send cs0)|exists cs0]; split; try done. split; [done|]. lia.
Qed.

Lemma advance_wf e s : wf s -> wf (advance_send_epoch e s).
Proof.
  intros [H1 H2 H3 H4]. unfold advance_send_epoch. split; cbn.
  - done.
  - intros e' cs Hc. apply prune_chains_Some in Hc as (cs0 & Hc & _ & -> & _). by apply H2.
  - intros e' i k Hk. apply map_lookup_filter_Some in Hk as [Hk Ho]. cbn in Ho.
    destruct (H3 e' i k Hk) as (cs0 & Hc & Hi). destruct (prune_chains_keep e _ _ _ Hc) as (cs & Hcs & Er & _); [lia|]. exists cs. by rewrite Er.
  - intros e'. change (limit_ooo _) with (limit_ooo s). specialize (H4 e').
    assert (Hs : prune_skipped e (MKSKIPPED s) ⊆ MKSKIPPED s) by apply map_filter_subseteq.
    pose proof (held_count_mono e' _ _ Hs). lia.
Qed.

Lemma alter_chain_Some f e (chains : gmap Z EpochChains) e' cs : alter f e chains !! e' = Some cs ->
  exists cs0, chains !! e' = Some cs0 /\ cs = if decide (e = e') then f cs0 else cs0.
Proof.
  destruct (decide (e = e')) as [<-|Hne].
  - rewrite lookup_alter_eq. destruct (chains !! e) as [cs0|]; [|done]. intros [= <-]. by exists cs0.
  - rewrite lookup_alter_ne by done. intros Hc. by exists cs.
Qed.

Lemma set_send_wf e c s : wf s -> wf (set_send_chain e c s).
Proof.
  intros [H1 H2 H3 H4]. unfold set_send_chain. split; cbn; [done| | |done].
  - intros e' cs Hc. apply alter_chain_Some in Hc as (cs0 & Hc & ->). destruct (decide (e = e')); cbn; by apply H2.
  - intros e' i k Hk. destruct (H3 e' i k Hk) as (cs0 & Hc & Hi). destruct (decide (e = e')) as [<-|Hne].
    + rewrite lookup_alter_eq, Hc. eexists. split; [reflexivity|done].
    + rewrite lookup_alter_ne by done. by exists cs0.
Qed.

(** *** A new epoch *)
Definition fresh_chains (c : EpochCandidate) : Prop := N (receive (ec_chains c)) = 0 /\ ec_nextEpoch c = ec_currentEpoch c + 1.

Lemma commit_wf c s : fresh_chains c -> wf s -> wf (commitSPQREpoch c s).1.
Proof.
  intros [Hn He] Hw. unfold commitSPQREpoch. case_if; [done|]. b2p. destruct Hw as [W1 W2 W3 W4]. split; cbn; [done| | |done].
  - intros e cs Hc. destruct (decide (e = ec_nextEpoch c)) as [->|Hne].
    + rewrite lookup_insert_eq in Hc. injection Hc as <-. lia.
    + rewrite lookup_insert_ne in Hc by done. destruct (W2 e cs Hc). lia.
  - intros e i k Hk. destruct (W3 e i k Hk) as (cs & Hc & Hi). exists cs. rewrite lookup_insert_ne; [done|].
    destruct (W2 e cs Hc). lia.
Qed.

(** ** The receive chain *)
Section Walk.
Context {H : HashFunctions}.

Definition next_ck (info : option string) (ck : bytes) (n : Z) : bytes :=
  take 32 (hkdf ck (replicate 32 0) (setUint32 n ++ bytes_of_string (default CHAIN_NEXT info)) 64).
Definition msg_key (info : option string) (ck : bytes) (n : Z) : bytes :=
  take 32 (drop 32 (hkdf ck (replicate 32 0) (setUint32 n ++ bytes_of_string (default CHAIN_NEXT info)) 64)).

(** The chain key [k] steps after [ck], which is the one of index [n]. *)
Fixpoint walk_ck (info : option string) (ck : bytes) (n : Z) (k : nat) : bytes :=
  match k with O => ck | S k => walk_ck info (next_ck info ck (n + 1)) (n + 1) k end.

(** The keys that [k] steps hold for later, towards [index = n + k]. *)
Fixpoint held_list (info : option string) (ooo index : Z) (ck : bytes) (n : Z) (k : nat) : list (Z * bytes) :=
  match k with
  | O => []
  | S k => (if n + 1 =? index then [] else if n + 1 + ooo <? index then [] else [(n + 1, msg_key info ck (n + 1))])
           ++ held_list info ooo index (next_ck info ck (n + 1)) (n + 1) k
  end.

Lemma kdf_chain_Ok ck n info r : kdfChainKeySPQR ck n info = Ok r -> r = (next_ck info ck n, msg_key info ck n).
Proof. unfold kdfChainKeySPQR. case_if; [done|]. case_if; [done|]. by intros [= <-]. Qed.

Lemma walk_ck_S info k : forall ck n, walk_ck info ck n (S k) = next_ck info (walk_ck info ck n k) (n + Z.of_nat (S k)).
Proof.
  induction k as [|k IH]; intros ck n; [done|]. change (walk_ck info ck n (S (S k))) with (walk_ck info (next_ck info ck (n + 1)) (n + 1) (S k)).
  rewrite IH. cbn [walk_ck]. f_equal. lia.
Qed.

Lemma walk_ck_add info j : forall ck n k, walk_ck info ck n (j + k) = walk_ck info (walk_ck info ck n j) (n + Z.of_nat j) k.
Proof.
  induction j as [|j IH]; intros ck n k; cbn [walk_ck Nat.add]; [f_equal; lia|]. rewrite IH. f_equal. lia.
Qed.

(** What a loop that returns has computed. *)
Lemma receive_loop_Ok info ooo index k : forall w w', w_currentN w + Z.of_nat k = index ->
  receive_loop k info ooo index w = Ok w' ->
  w_currentN w' = index /\ w_chainKey w' = walk_ck info (w_chainKey w) (w_currentN w) k /\
  w_messageKey w' = (match k with O => w_messageKey w | S k => Some (msg_key info (walk_ck info (w_chainKey w) (w_currentN w) k) index) end) /\
  w_pending w' = w_pending w ++ held_list info ooo index (w_chainKey w) (w_currentN w) k.
Proof.
  induction k as [|k IH]; intros w w' Hk; cbn [receive_loop].
  - intros [= <-]. cbn [walk_ck held_list]. rewrite app_nil_r. split; [lia|done].
  - replace (w_currentN w <? index) with true by lia.
    destruct (kdfChainKeySPQR _ _ _) as [r|] eqn:Er; [|done]. cbn [mbind result_bind]. apply kdf_chain_Ok in Er as ->. cbn [fst snd].
    intros E. apply IH in E; [|cbn [w_currentN]; lia]. cbn [w_currentN w_chainKey w_messageKey w_pending] in E.
    destruct E as (E1 & E2 & E3 & E4). split; [done|]. split; [done|]. split.
    + rewrite E3. destruct k as [|k]; [|done]. replace (_ =? index) with true by lia. cbn [walk_ck]. do 2 f_equal. lia.
    + rewrite E4. cbn [held_list]. case_if; [done|]. case_if; [done|]. by rewrite <- app_assoc.
Qed.

Lemma held_list_In info ooo index k : forall ck n i key, n + Z.of_nat k = index ->
  (i, key) ∈ held_list info ooo index ck n k <->
  n < i < index /\ index <= i + ooo /\ key = msg_key info (walk_ck info ck n (Z.to_nat (i - n - 1))) i.
Proof.
  induction k as [|k IH]; intros ck n i key Hk; cbn [held_list].
  - rewrite elem_of_nil. split; [done|]. lia.
  - rewrite elem_of_app, IH by lia. replace (Z.to_nat (i - (n + 1) - 1)) with (Z.to_nat (i - n - 1) - 1)%nat by lia.
    assert (Hrest : (n + 1 < i < index /\ index <= i + ooo /\ key = msg_key info (walk_ck info (next_ck info ck (n + 1)) (n + 1) (Z.to_nat (i - n - 1) - 1)) i)
      <-> (n + 1 < i < index /\ index <= i + ooo /\ key = msg_key info (walk_ck info ck n (Z.to_nat (i - n - 1))) i)).
    { split; intros (? & ? & ->); (split; [done|]); (split; [done|]);
        replace (Z.to_nat (i - n - 1)) with (S (Z.to_nat (i - n - 1) - 1)) by lia; cbn [walk_ck]; do 2 f_equal; lia. }
    rewrite Hrest. clear Hrest IH. case_if; b2p; [|case_if; b2p].
    + rewrite elem_of_nil. split; [intros [?|?]; [done|]|]; lia.
    + rewrite elem_of_nil. split; [intros [?|(? & ? & ->)]; [done|]; split; [lia|done]|]. intros (? & ? & ->). right. split; [lia|done].
    + rewrite list_elem_of_singleton. split.
      * intros [[= -> ->]|(? & ? & ->)]; (split; [lia|]); (split; [lia|]); [|done]. replace (Z.to_nat _) with 0%nat by lia. done.
      * intros (Hi & ? & ->). destruct (decide (i = n + 1)) as [->|]; [left|right; split; [lia|done]].
        replace (Z.to_nat _) with 0%nat by lia. done.
Qed.

Lemma held_list_NoDup info ooo index k : forall ck n, n + Z.of_nat k = index -> NoDup (held_list info ooo index ck n k).*1.
Proof.
  induction k as [|k IH]; intros ck n Hk; cbn [held_list]; [constructor|].
  rewrite fmap_app. apply NoDup_app. split; [|split; [|apply IH; lia]].
  - case_if; [constructor|]. case_if; [constructor|]. apply NoDup_singleton.
  - intros x Hx Hin. apply list_elem_of_fmap in Hin as ([i key] & -> & Hin). apply held_list_In in Hin; [|lia].
    case_if_in Hx; [by apply elem_of_nil in Hx|]. case_if_in Hx; [by apply elem_of_nil in Hx|]. apply list_elem_of_singleton in Hx. cbn in Hx. lia.
Qed.
End Walk.

(** *** Held keys after the additions *)
Lemma hold_keys_lookup e now l : forall k e' i, NoDup l.*1 ->
  (forall key, (i, key) ∈ l -> hold_keys e now l k !! (e, i) = Some {| sk_key := key; sk_timestamp := now |}) /\
  (e' <> e \/ i ∉ l.*1 -> hold_keys e now l k !! (e', i) = k !! (e', i)).
Proof.
  induction l as [|[j key0] l IH] using rev_ind; intros k e' i Hnd; [split; [intros ? Hin; by apply elem_of_nil in Hin|done]|].
  rewrite fmap_app in Hnd. apply NoDup_app in Hnd as (Hnd & Hdis & _). unfold hold_keys in *. rewrite foldl_app. cbn [foldl fst snd].
  split.
  - intros key Hin. apply elem_of_app in Hin as [Hin|Hin].
    + rewrite lookup_insert_ne; [by apply IH|]. intros [= ->]. apply (Hdis i); [|by apply list_elem_of_singleton].
      apply list_elem_of_fmap. by exists (i, key).
    + apply list_elem_of_singleton in Hin as [= -> ->]. by rewrite lookup_insert_eq.
  - intros Hne. rewrite fmap_app in Hne. rewrite lookup_insert_ne.
    + apply (IH k e' i Hnd). destruct Hne as [?|Hne]; [by left|right]. intros Hin. apply Hne, elem_of_app. by left.
    + intros [= <- <-]. destruct Hne as [?|Hne]; [done|]. apply Hne, elem_of_app. right. by apply list_elem_of_singleton.
Qed.

Lemma held_count_sub e k k' : (forall i v, k' !! (e, i) = Some v -> k !! (e, i) = Some v) -> held_count e k' <= held_count e k.
Proof.
  intros Hs. unfold held_count, held. apply Nat2Z.inj_le, map_subseteq_size, map_subseteq_spec. intros [e' i] v Hv.
  apply map_lookup_filter_Some in Hv as [Hv Ee]. cbn in Ee. subst e'. apply map_lookup_filter_Some. by auto.
Qed.

(** *** The commit of a receive *)
Lemma trim_chains e s : kdfChains (trimEpochSkippedKeys e s).1 = kdfChains s /\ sp_epoch (trimEpochSkippedKeys e s).1 = sp_epoch s /\
  limit_ooo (trimEpochSkippedKeys e s).1 = limit_ooo s.
Proof. unfold trimEpochSkippedKeys. destruct (kdfChains s !! e); [|done]. by case_if. Qed.

Lemma trim_sub e s : MKSKIPPED (trimEpochSkippedKeys e s).1 ⊆ MKSKIPPED s.
Proof.
  unfold trimEpochSkippedKeys. destruct (kdfChains s !! e); [|done]. case_if; [done|]. apply map_filter_subseteq.
Qed.

(** What is not below the horizon stays. *)
Lemma trim_keeps e s e' i v cs : MKSKIPPED s !! (e', i) = Some v -> kdfChains s !! e = Some cs ->
  e' <> e \/ N (receive cs) - limit_ooo s <= i -> MKSKIPPED (trimEpochSkippedKeys e s).1 !! (e', i) = Some v.
Proof.
  intros Hv Hc Hi. unfold trimEpochSkippedKeys. rewrite Hc. case_if; [done|]. cbn. apply map_lookup_filter_Some.
  split; [done|]. unfold below. cbn. intros [-> ?]. destruct Hi; [done|lia].
Qed.

Lemma trim_count e s cs : kdfChains s !! e = Some cs -> 0 <= limit_ooo s ->
  (forall i v, MKSKIPPED s !! (e, i) = Some v -> i < N (receive cs)) ->
  held_count e (MKSKIPPED (trimEpochSkippedKeys e s).1) < skippedKeyTrimSize (limit_ooo s).
Proof.
  intros Hc Ho Hi. unfold trimEpochSkippedKeys. rewrite Hc. case_if; b2p; [done|]. cbn.
  pose proof (trim_size_pos _ Ho). enough (held_count e (filter (fun kv => ~ below e (N (receive cs) - limit_ooo s) kv.1) (MKSKIPPED s)) <= limit_ooo s) by lia.
  enough (held_count e (filter (fun kv => ~ below e (N (receive cs) - limit_ooo s) kv.1) (MKSKIPPED s)) <= Z.of_nat (Z.to_nat (limit_ooo s))) by lia.
  apply (held_count_interval e _ (N (receive cs) - limit_ooo s)). intros i v Hv. apply map_lookup_filter_Some in Hv as [Hv Hnb].
  unfold below in Hnb. cbn in Hnb. specialize (Hi i v Hv). destruct (decide (i < N (receive cs) - limit_ooo s)); [exfalso; auto|lia].
Qed.

Section Receive.
Context {H : HashFunctions}.

(** The state before the trim. *)
Definition with_walk (e now : Z) (clears : bool) (w : Walk) (s : SPQRState) : SPQRState :=
  set_receive_chain e {| CK := w_chainKey w; N := w_currentN w |}
    (with_skipped (hold_keys e now (w_pending w) (if clears then drop_epoch e (MKSKIPPED s) else MKSKIPPED s)) s).

Lemma with_walk_held e now clears w s e' i v : NoDup (w_pending w).*1 -> MKSKIPPED (with_walk e now clears w s) !! (e', i) = Some v ->
  (e' = e /\ exists key, (i, key) ∈ w_pending w /\ v = {| sk_key := key; sk_timestamp := now |}) \/ MKSKIPPED s !! (e', i) = Some v.
Proof.
  intros Hnd. cbn. destruct (decide (e' = e /\ i ∈ (w_pending w).*1)) as [[-> Hin]|Hne].
  - apply list_elem_of_fmap in Hin as ([j key] & -> & Hin). intros Hv. left. split; [done|]. exists key. split; [done|].
    rewrite (proj1 (hold_keys_lookup e now _ _ e _ Hnd) key Hin) in Hv. by injection Hv as <-.
  - rewrite (proj2 (hold_keys_lookup e now _ _ e' i Hnd)); [|destruct (decide (e' = e)); [right|by left]; auto].
    intros Hv. right. destruct clears; [|done]. by apply map_lookup_filter_Some in Hv as [? _].
Qed.

Lemma commit_receive_wf e index now clears w s cs : wf s -> kdfChains s !! e = Some cs -> NoDup (w_pending w).*1 ->
  w_currentN w = index -> N (receive cs) <= index ->
  (forall i key, (i, key) ∈ w_pending w -> N (receive cs) < i < index) -> wf (commit_receive e index now clears w s).
Proof.
  intros [W1 W2 W3 W4] Hc Hnd Hn Hge Hp. unfold commit_receive. fold (with_walk e now clears w s).
  set (s1 := with_walk e now clears w s). destruct (trim_chains e s1) as (Tc & Te & Tl). pose proof (trim_sub e s1) as Ts.
  assert (Hl : limit_ooo s1 = limit_ooo s) by done.
  assert (Hc1 : forall e' cs', kdfChains s !! e' = Some cs' -> exists cs1, kdfChains s1 !! e' = Some cs1 /\
    N (receive cs1) = if decide (e = e') then index else N (receive cs')).
  { intros e' cs' Hc'. unfold s1, with_walk, set_receive_chain. cbn. destruct (decide (e = e')) as [<-|Hne].
    - rewrite lookup_alter_eq, Hc'. eexists. split; [reflexivity|]. by cbn.
    - rewrite lookup_alter_ne by done. by exists cs'. }
  assert (Hh : forall e' i v, MKSKIPPED s1 !! (e', i) = Some v -> exists cs1, kdfChains s1 !! e' = Some cs1 /\ 1 <= i < N (receive cs1)).
  { intros e' i v Hv. apply with_walk_held in Hv as [(-> & key & Hin & _)|Hv]; [| |done].
    - destruct (Hc1 e cs Hc) as (cs1 & E1 & E2). exists cs1. rewrite E2, decide_True by done. split; [done|].
      specialize (Hp i key Hin). destruct (W2 e cs Hc). lia.
    - destruct (W3 e' i v Hv) as (cs' & E' & Hi). destruct (Hc1 e' cs' E') as (cs1 & E1 & E2). exists cs1. rewrite E2. split; [done|].
      destruct (decide (e = e')) as [<-|]; [|lia]. assert (cs' = cs) as -> by congruence. lia. }
  split.
  - by rewrite Tl, Hl.
  - rewrite Tc, Te. intros e' cs1 E1. apply alter_chain_Some in E1 as (cs0 & E0 & ->). change (kdfChains s !! e' = Some cs0) in E0.
    change (sp_epoch s1) with (sp_epoch s). destruct (W2 e' cs0 E0). destruct (decide (e = e')); cbn; [|done].
    destruct (W2 e cs Hc). lia.
  - rewrite Tc. intros e' i v Hv. eapply Hh. eapply lookup_weaken; [exact Hv|exact Ts].
  - rewrite Tl, Hl. intros e'. destruct (decide (e' = e)) as [->|Hne].
    + rewrite <- Hl. destruct (Hc1 e cs Hc) as (cs1 & E1 & E2). apply (trim_count e s1 cs1 E1); [by rewrite Hl|].
      intros i v Hv. destruct (Hh e i v Hv) as (cs2 & E3 & Hi). assert (cs2 = cs1) as -> by congruence. lia.
    + eapply Z.le_lt_trans; [|apply (W4 e')]. apply held_count_sub. intros i v Hv.
      assert (Hv1 : MKSKIPPED s1 !! (e', i) = Some v) by (eapply lookup_weaken; [exact Hv|exact Ts]).
      by apply with_walk_held in Hv1 as [(? & _)|?].
Qed.

(** A successful walk along the receive chain. *)
Lemma walk_Ok e index now s s' r : walk_receive_chain e index now s = (s', Ok r) ->
  exists cs w, kdfChains s !! e = Some cs /\ N (receive cs) < index /\ index - N (receive cs) <= limit_jump s /\
    let k := Z.to_nat (index - N (receive cs)) in let info := chainNext <$> infoStrings s in
    w_currentN w = index /\ w_chainKey w = walk_ck info (CK (receive cs)) (N (receive cs)) k /\
    w_pending w = held_list info (limit_ooo s) index (CK (receive cs)) (N (receive cs)) k /\
    r = Some (msg_key info (walk_ck info (CK (receive cs)) (N (receive cs)) (k - 1)) index) /\
    s' = commit_receive e index now (index >? N (receive cs) + limit_ooo s) w s.
Proof.
  unfold walk_receive_chain. unfold M_bind at 1, M_get. destruct (kdfChains s !! e) as [cs|]; [|done]. case_if; [done|]. b2p. cbn zeta.
  intros E. inv_bind E w s1 E1. apply M_lift_inv in E1 as [-> E1].
  destruct (decide (N (receive cs) < index)) as [Hlt|Hge].
  - apply receive_loop_Ok in E1; [|cbn; lia]. cbn [w_currentN w_chainKey w_messageKey w_pending app] in E1.
    destruct E1 as (En & Eck & Ek & Ep). exists cs, w. split; [done|]. split; [done|]. split; [done|]. cbn zeta.
    destruct (Z.to_nat (index - N (receive cs))) as [|k] eqn:Ek'; [lia|]. rewrite Ek in E.
    inv_bind E u s2 E2. apply M_modify_inv in E2. injection E as <- <-. cbn [Nat.sub]. rewrite Nat.sub_0_r. done.
  - replace (Z.to_nat (index - N (receive cs))) with 0%nat in E1 by lia. cbn in E1. injection E1 as <-. done.
Qed.

Lemma walk_fail e index now s s' x : walk_receive_chain e index now s = (s', Throw x) -> s' = s.
Proof.
  unfold walk_receive_chain. unfold M_bind at 1, M_get. destruct (kdfChains s !! e) as [cs|]; [|by intros [= <- _]].
  case_if; [by intros [= <- _]|]. cbn zeta. unfold M_bind, M_lift. destruct (receive_loop _ _ _ _ _) as [w|]; [|by intros [= <- _]].
  destruct (w_messageKey w); [done|by intros [= <- _]].
Qed.

Lemma walk_wf e index now : maintains wf (walk_receive_chain e index now).
Proof.
  intros s Hs. destruct (walk_receive_chain e index now s) as [s' [r|x]] eqn:E; cbn [fst]; [|by apply walk_fail in E as ->].
  apply walk_Ok in E as (cs & w & Hc & Hlt & _ & En & _ & Ep & _ & ->). eapply commit_receive_wf; try done; [|lia|].
  - rewrite Ep. apply held_list_NoDup. lia.
  - intros i key Hin. rewrite Ep in Hin. apply held_list_In in Hin; lia.
Qed.
End Receive.

(** ** Invariants of the chains under the operations *)

(** The fields that the chains depend on. *)
Definition same_chains (s s' : SPQRState) : Prop :=
  RK s' = RK s /\ sp_epoch s' = sp_epoch s /\ kdfChains s' = kdfChains s /\ MKSKIPPED s' = MKSKIPPED s /\
  direction s' = direction s /\ scka_epoch (sckaState s') = scka_epoch (sckaState s) /\ infoStrings s' = infoStrings s /\ limits s' = limits s.

Section Interface.
Context {H : HashFunctions}.

(** What an invariant of the chains has to be kept by. *)
Record chain_invariant (I : SPQRState -> Prop) : Prop := {
  ci_frame : forall s s', same_chains s s' -> I s -> I s';
  ci_advance : forall e s, I s -> I (advance_send_epoch e s);
  ci_send : forall e, maintains I (step_send_chain e);
  ci_walk : forall e i now, maintains I (walk_receive_chain e i now);
  ci_delete : forall ei s, I s -> I (with_skipped (delete ei (MKSKIPPED s)) s) }.
End Interface.

Section Operations.
Context {H : HashFunctions} {K : MLKEM768} {Q : Kyber768} (I : SPQRState -> Prop) (HI : chain_invariant I).

Lemma on_braid_keeps {A} e (m : M Agent A) : maintains I (on_braid e m).
Proof.
  intros s Hs. unfold on_braid. destruct (braidState s) as [b|]; [|done]. destruct (m b) as [b' r]. by apply (ci_frame I HI s).
Qed.

Lemma our_key_keeps k : maintains I (M_modify (fun s => with_scka (set_our_key k (sckaState s)) s)).
Proof. apply maintains_modify. intros s. by apply (ci_frame I HI s). Qed.
Lemma their_key_keeps k : maintains I (M_modify (fun s => with_scka (set_their_key k (sckaState s)) s)).
Proof. apply maintains_modify. intros s. by apply (ci_frame I HI s). Qed.
Lemma ratchet_flag_keeps b : maintains I (M_modify (with_ratchet b)).
Proof. apply maintains_modify. intros s. by apply (ci_frame I HI s). Qed.

Lemma sendKey_keeps e : maintains I (deriveSPQRSendKey e).
Proof. unfold deriveSPQRSendKey. keeps; [|apply (ci_send I HI)]. apply maintains_modify. intros s. apply (ci_advance I HI). Qed.

Lemma receiveKey_keeps index e now : maintains I (deriveSPQRReceiveKey index e now).
Proof.
  unfold deriveSPQRReceiveKey. keeps; [|apply (ci_walk I HI)]. apply maintains_modify. intros s'. apply (ci_delete I HI).
Qed.

Lemma tryGet_keeps e index : maintains I (tryGetSkippedSPQRKey e index).
Proof.
  intros s Hs. unfold tryGetSkippedSPQRKey. destruct (MKSKIPPED s !! (e, index)); [|done]. case_if; [|done].
  by apply (ci_delete I HI).
Qed.

Lemma recv_version_keeps v : maintains I (recv_version v).
Proof.
  intros s Hs. unfold recv_version. destruct (versionNegotiation s) as [n|]; [|done]. case_if; [|done].
  destruct (processVersionFromByte v n). by apply (ci_frame I HI s).
Qed.

Lemma recv_key_keeps pqr now : maintains I (recv_key pqr now).
Proof. unfold recv_key. keeps. apply receiveKey_keeps. Qed.

(** With new epochs. *)
Context (HA : forall k chains x now, maintains I (addSPQREpochSecret k chains x now)).

Lemma addRaw_keeps k chains now : maintains I (advanceSPQREpochFromRawSecret k chains now).
Proof. unfold advanceSPQREpochFromRawSecret. keeps. Qed.
Lemma addBraid_keeps k chains now : maintains I (addSPQRBraidEpoch k chains now).
Proof. unfold addSPQRBraidEpoch. keeps. Qed.

Lemma direct_step_keeps rb now : maintains I (performDirectRatchetStep rb now).
Proof. unfold performDirectRatchetStep, generateKyber768KeyPair. keeps; [apply our_key_keeps|apply addRaw_keeps]. Qed.
Lemma process_keeps c now : maintains I (processSPQRReceivedCiphertext c now).
Proof. unfold processSPQRReceivedCiphertext. keeps. apply addRaw_keeps. Qed.

Lemma send_ratchet_keeps rb now : maintains I (send_ratchet rb now).
Proof.
  unfold send_ratchet, generateKyber768KeyPair. keeps; [apply direct_step_keeps|apply our_key_keeps|apply ratchet_flag_keeps].
Qed.
Lemma send_braid_keeps ready rb now : maintains I (send_braid ready rb now).
Proof. unfold send_braid. keeps; [apply on_braid_keeps|apply addBraid_keeps]. Qed.

Lemma spqrSend_keeps ready rb now : maintains I (spqrSend ready rb now).
Proof. unfold spqrSend. keeps; [apply send_ratchet_keeps|apply send_braid_keeps|apply sendKey_keeps]. Qed.

Lemma recv_payload_keeps pqr now : maintains I (recv_payload pqr now).
Proof.
  unfold recv_payload, recv_direct, recv_braid.
  keeps; first [apply on_braid_keeps|apply addBraid_keeps|apply process_keeps|apply ratchet_flag_keeps|apply their_key_keeps].
Qed.

Lemma spqrRecv_keeps msg now : maintains I (spqrRecv msg now).
Proof.
  unfold spqrRecv. destruct msg as [[|b l]|]; [by apply maintains_pure| |by apply maintains_pure].
  apply maintains_bind; [by apply maintains_pure|]. intros pqr. apply maintains_bind; [apply recv_version_keeps|]. intros _.
  apply maintains_bind; [apply recv_payload_keeps|intros _; apply maintains_bind; [apply recv_key_keeps|intros k; by apply maintains_pure]].
Qed.
End Operations.

(** ** The operations of the driver in sequence *)
Inductive SpqrOp :=
  | OpSend (ready : bool) (randomBytes : nat -> bytes) (now : Z)
  | OpRecv (msg : option bytes) (now : Z)
  | OpTrySkipped (e index : Z)
  | OpBraidReceive (m : MLKEMBraidMessage)
  | OpAddEpoch (k : OutputKey) (chains : ChainSelection) (now : Z).

Section Sequence.
Context {H : HashFunctions} {K : MLKEM768} {Q : Kyber768}.

Definition apply_op (s : SPQRState) (op : SpqrOp) : SPQRState :=
  match op with
  | OpSend ready rb now => (spqrSend ready rb now s).1
  | OpRecv msg now => (spqrRecv msg now s).1
  | OpTrySkipped e i => (tryGetSkippedSPQRKey e i s).1
  | OpBraidReceive m => (spqrBraidReceive m s).1
  | OpAddEpoch k chains now => (addSPQRBraidEpoch k chains now s).1
  end.

Lemma ops_keep I : chain_invariant I -> (forall k chains x now, maintains I (addSPQREpochSecret k chains x now)) ->
  forall ops s, I s -> I (foldl apply_op s ops).
Proof.
  intros HI HA ops. induction ops as [|op ops IH]; intros s Hs; [done|]. apply IH. destruct op; cbn [apply_op].
  - by apply spqrSend_keeps.
  - by apply spqrRecv_keeps.
  - by apply tryGet_keeps.
  - revert s Hs. change (maintains I (spqrBraidReceive m)). unfold spqrBraidReceive. keeps. by apply on_braid_keeps.
  - by apply addBraid_keeps.
Qed.

(** ** [wf] is such an invariant *)
Lemma getNext_Ok s n : getNextSPQREpoch s = Ok n -> n = sp_epoch s + 1 /\ validateSPQRState s = Ok tt /\ sp_epoch s < MAX_SAFE_INTEGER.
Proof.
  unfold getNextSPQREpoch. destruct (validateSPQRState s) as [[]|]; [|done]. cbn [mbind result_bind]. case_if; [done|]. b2p.
  intros [= <-]. done.
Qed.

Lemma prepare_fresh k chains x now s c : prepareSPQREpoch k chains x now s = Ok c -> fresh_chains c /\ ec_currentEpoch c = sp_epoch s.
Proof.
  unfold prepareSPQREpoch. destruct (getNextSPQREpoch s) as [n|] eqn:En; [|done]. cbn [mbind result_bind].
  apply getNext_Ok in En as (-> & _ & _). do 4 (case_if; [done|]). destruct (kdfSpqrEpoch _ _ _); [|done]. cbn [mbind result_bind]. intros [= <-].
  split; [|done]. split; cbn; [|done]. by destruct chains.
Qed.

Lemma addEpoch_wf k chains x now : maintains wf (addSPQREpochSecret k chains x now).
Proof.
  intros s Hs. unfold addSPQREpochSecret, M_bind, inspect. destruct (prepareSPQREpoch k chains x now s) as [c|e] eqn:E; [|done].
  apply prepare_fresh in E as [Hf _]. by apply commit_wf.
Qed.

Lemma wf_invariant : chain_invariant wf.
Proof.
  split.
  - intros s s' (_ & ? & ? & ? & _ & _ & _ & ?). by apply wf_frame.
  - apply advance_wf.
  - intros e. unfold step_send_chain. keeps. apply maintains_modify. intros s. apply set_send_wf.
  - apply walk_wf.
  - intros ei s. apply wf_fewer, delete_subseteq.
Qed.

Lemma initial_wf m secret d our their maxV minV info lim now s : 0 <= maxOutOfOrderKeys lim ->
  initializeSPQR m secret d our their maxV minV info lim now = Ok s -> wf s.
Proof.
  intros Hl Hi.
  assert (Hs : sp_epoch s = 0 /\ limits s = Some lim /\ MKSKIPPED s = ∅ /\ exists k, kdfChains s = initial_chains d k).
  { unfold initializeSPQR, initializeSPQRBraid, initializeSPQRState in Hi. destruct m.
    - destruct (kdfSpqrInit _ _) as [k|]; [|done]. cbn in Hi. injection Hi as <-. cbn. do 3 (split; [done|]). by exists k.
    - destruct (match d with A2B => _ | B2A => _ end); [|done]. cbn [mbind result_bind] in Hi.
      destruct (kdfSpqrInit _ _) as [k|]; [|done]. cbn in Hi. injection Hi as <-. cbn. do 3 (split; [done|]). by exists k. }
  destruct Hs as (He & El & Ek & k & Ec). assert (Eo : limit_ooo s = maxOutOfOrderKeys lim) by (unfold limit_ooo; by rewrite El).
  split; rewrite ?Eo, ?He, ?Ek, ?Ec; try done.
  - intros e cs Hc. unfold initial_chains in Hc. apply lookup_singleton_Some in Hc as [<- <-]. cbn. lia.
  - intros e. pose proof (trim_size_pos _ Hl). unfold held_count, held. rewrite map_filter_empty, map_size_empty. lia.
Qed.
End Sequence.
