(* ===== verification/SpqrKeys.v ===== *)
(** * SPQR: the keys of a state

    [keyed k0 ks] describes the chains of a state by the keys [k0] of epoch 0
    and the list [ks] of the epoch secrets that have been added: every chain key
    and every held key is determined by them, the epoch and the index. *)
From S2P Require Import Prelude Crypto GaloisField Lagrange ErasureCodec BraidState BraidAuth Braid SpqrWire SpqrState Spqr SpqrInv BraidInv BraidTable.

Definition other (d : Direction) : Direction := match d with A2B => B2A | B2A => A2B end.

Section Keys.
Context {H : HashFunctions} (info : ResolvedSPQRInfoStrings) (k0 : SpqrKeys).

Definition add_epoch_keys (k : SpqrKeys) (secret : bytes) : SpqrKeys :=
  split_keys (hkdf secret (newRootKey k) (bytes_of_string (chainAddEpoch info)) 96).

(** The keys after the secrets [ks]. *)
Definition epoch_keys (ks : list bytes) : SpqrKeys := foldl add_epoch_keys k0 ks.

(** The first key of the chain in direction [d] of epoch [e]. *)
Definition chain_start (d : Direction) (ks : list bytes) (e : Z) : bytes := (orient d (epoch_keys (take (Z.to_nat e) ks))).1.

Definition chain_at (c0 : bytes) (n : Z) : bytes := walk_ck (Some (chainNext info)) c0 0 (Z.to_nat n).
Definition key_at (c0 : bytes) (i : Z) : bytes := msg_key (Some (chainNext info)) (chain_at c0 (i - 1)) i.

(** The message key of index [i] in epoch [e] and direction [d]. *)
Definition spqr_message_key (d : Direction) (ks : list bytes) (e i : Z) : bytes := key_at (chain_start d ks e) i.

Lemma orient_other d k : (orient d k).2 = (orient (other d) k).1.
Proof. by destruct d. Qed.

Lemma chain_at_step c0 n k : 0 <= n -> walk_ck (Some (chainNext info)) (chain_at c0 n) n k = chain_at c0 (n + Z.of_nat k).
Proof.
  intros Hn. unfold chain_at. replace (Z.to_nat (n + Z.of_nat k)) with (Z.to_nat n + k)%nat by lia. rewrite walk_ck_add. f_equal. lia.
Qed.

Lemma chain_start_prefix d ks ks' e : ks `prefix_of` ks' -> e <= len ks -> chain_start d ks' e = chain_start d ks e.
Proof.
  intros [l ->] He. unfold chain_start. rewrite take_app_le; [done|]. unfold len in He. lia.
Qed.

Record keyed (ks : list bytes) (s : SPQRState) : Prop := {
  kd_info : infoStrings s = Some info;
  kd_epoch : sp_epoch s = len ks /\ scka_epoch (sckaState s) = len ks;
  kd_root : RK s = newRootKey (epoch_keys ks);
  kd_chains : forall e cs, kdfChains s !! e = Some cs -> 0 <= e <= len ks /\ 0 <= N (receive cs) /\
    CK (receive cs) = chain_at (chain_start (other (direction s)) ks e) (N (receive cs)) /\
    (CK (send cs) = ZEROED_CHAIN_KEY \/
     (0 <= N (send cs) /\ CK (send cs) = chain_at (chain_start (direction s) ks e) (N (send cs))));
  kd_held : forall e i v, MKSKIPPED s !! (e, i) = Some v -> e <= len ks /\ sk_key v = spqr_message_key (other (direction s)) ks e i }.

Lemma keyed_frame ks s s' : same_chains s s' -> keyed ks s -> keyed ks s'.
Proof.
  intros (E1 & E2 & E3 & E4 & E5 & E6 & E7 & E8) [K1 K2 K3 K4 K5]. split; rewrite ?E1, ?E2, ?E3, ?E4, ?E5, ?E6, ?E7; done.
Qed.

Lemma keyed_fewer ks s k : k ⊆ MKSKIPPED s -> keyed ks s -> keyed ks (with_skipped k s).
Proof.
  intros Hs [K1 K2 K3 K4 K5]. split; try done. cbn. intros e i v Hv. apply K5. eapply lookup_weaken; done.
Qed.

Lemma keyed_advance ks e s : keyed ks s -> keyed ks (advance_send_epoch e s).
Proof.
  intros [K1 K2 K3 K4 K5]. split; try done; cbn.
  - intros e' cs Hc. apply prune_chains_Some in Hc as (cs0 & Hc & _ & Er & Es). destruct (K4 e' cs0 Hc) as (? & ? & Hr & Hs).
    rewrite Er. do 3 (split; [done|]). destruct Es as [->| ->]; [done|by left].
  - intros e' i v Hv. apply filter_lookup in Hv. by apply K5.
Qed.

(** *** Sending *)
Lemma step_send_Ok e s s' r : step_send_chain e s = (s', Ok r) ->
  exists cs, kdfChains s !! e = Some cs /\ CK (send cs) <> ZEROED_CHAIN_KEY /\ N (send cs) < MAX_INDEX /\
    let i := N (send cs) + 1 in let inf := chainNext <$> infoStrings s in
    r = Some {| kr_messageKey := msg_key inf (CK (send cs)) i; kr_index := i; kr_epoch := e |} /\
    s' = set_send_chain e {| CK := next_ck inf (CK (send cs)) i; N := i |} s.
Proof.
  unfold step_send_chain. unfold M_bind at 1, M_get. destruct (kdfChains s !! e) as [cs|]; [|done]. cbn zeta.
  case_if; [done|]. case_if; [done|]. b2p. intros E. inv_bind E ck s1 E1. apply M_lift_inv in E1 as [-> E1].
  apply kdf_chain_Ok in E1 as ->. inv_bind E u s2 E2. apply M_modify_inv in E2. injection E as <- <-.
  exists cs. split; [done|]. split; [by apply bool_decide_eq_false in Hb|]. done.
Qed.

Lemma keyed_send ks e : maintains (keyed ks) (step_send_chain e).
Proof.
  intros s HK. destruct (step_send_chain e s) as [s' [r|x]] eqn:E; cbn [fst].
  - apply step_send_Ok in E as (cs & Hc & Hne & _ & _ & ->). destruct HK as [K1 K2 K3 K4 K5]. split; try done; cbn.
    intros e' cs1 E1. apply alter_chain_Some in E1 as (cs0 & E0 & ->). destruct (decide (e = e')) as [<-|]; cbn; [|by apply K4].
    assert (cs0 = cs) as -> by congruence. destruct (K4 e cs Hc) as (? & ? & Hr & [?|[Hn Hs]]); [done|].
    do 3 (split; [done|]). right. split; [lia|]. rewrite K1, Hs. cbn. rewrite <- (chain_at_step _ (N (send cs)) 1) by done. done.
  - unfold step_send_chain in E. unfold M_bind at 1, M_get in E. destruct (kdfChains s !! e) as [cs|]; [|by injection E as <- _].
    cbn zeta in E. case_if_in E; [by injection E as <- _|]. case_if_in E; [by injection E as <- _|].
    unfold M_bind at 1, M_lift in E. destruct (kdfChainKeySPQR _ _ _); [done|]. by injection E as <- _.
Qed.

(** The key that is returned is the one of its epoch and index. *)
Lemma step_send_key ks e s s' r : keyed ks s -> step_send_chain e s = (s', Ok r) ->
  exists i, r = Some {| kr_messageKey := spqr_message_key (direction s) ks e i; kr_index := i; kr_epoch := e |} /\ 1 <= i <= MAX_INDEX /\ 0 <= e <= len ks.
Proof.
  intros [K1 K2 K3 K4 K5] E. apply step_send_Ok in E as (cs & Hc & Hne & Hm & Hr & _).
  destruct (K4 e cs Hc) as (? & ? & _ & [?|[Hn Hs]]); [done|]. exists (N (send cs) + 1). split; [|lia].
  rewrite Hr. unfold spqr_message_key, key_at. rewrite K1, Hs. cbn. do 4 f_equal. lia.
Qed.

Lemma send_key_Ok ks ov s s' r : keyed ks s -> deriveSPQRSendKey ov s = (s', Ok r) ->
  match r with
  | None => True
  | Some kr => kr_epoch kr = default (sp_epoch s) ov /\ 1 <= kr_index kr <= MAX_INDEX /\ 0 <= kr_epoch kr <= len ks /\
      kr_messageKey kr = spqr_message_key (direction s) ks (kr_epoch kr) (kr_index kr)
  end.
Proof.
  intros HK E. unfold deriveSPQRSendKey in E. inv_bind E u s1 E1. unfold inspect in E1. injection E1 as <- _.
  unfold M_bind at 1, M_get in E. case_if_in E; [by injection E as _ <-|]. cbn zeta in E. case_if_in E; [done|]. case_if_in E; [done|].
  inv_bind E u1 s2 E2. assert (HK2 : keyed ks s2 /\ direction s2 = direction s).
  { case_if_in E2; [|by injection E2 as <- _]. apply M_modify_inv in E2 as ->. split; [by apply keyed_advance|done]. }
  destruct HK2 as [HK2 <-]. destruct (step_send_key ks _ _ _ _ HK2 E) as (i & -> & Hi & He). done.
Qed.

(** *** Receiving *)
Lemma keyed_walk ks e index now : maintains (keyed ks) (walk_receive_chain e index now).
Proof.
  intros s HK. destruct (walk_receive_chain e index now s) as [s' [r|x]] eqn:E; cbn [fst]; [|by apply walk_fail in E as ->].
  apply walk_Ok in E as (cs & w & Hc & Hlt & _ & En & Eck & Ep & _ & ->). destruct HK as [K1 K2 K3 K4 K5].
  destruct (K4 e cs Hc) as (He & HN & Hr & _). rewrite K1, Hr in Eck. cbn [fmap option_fmap option_map] in Eck. rewrite chain_at_step in Eck by done.
  replace (N (receive cs) + _) with index in Eck by lia.
  unfold commit_receive. fold (with_walk e now (index >? N (receive cs) + limit_ooo s) w s).
  set (s1 := with_walk e now _ w s). assert (HK1 : keyed ks s1).
  { split; try done.
    - cbn. intros e' cs1 E1. apply alter_chain_Some in E1 as (cs0 & E0 & ->). destruct (decide (e = e')) as [<-|]; cbn; [|by apply K4].
      assert (cs0 = cs) as -> by congruence. rewrite En. destruct (K4 e cs Hc) as (_ & _ & _ & Hs). split; [done|]. split; [lia|]. done.
    - intros e' i v Hv. apply with_walk_held in Hv as [(-> & key & Hin & ->)|Hv]; [|by apply K5|rewrite Ep; apply held_list_NoDup; lia].
      split; [lia|]. cbn [sk_key]. rewrite Ep in Hin. apply held_list_In in Hin as (Hi & _ & ->); [|lia].
      rewrite K1, Hr. cbn [fmap option_fmap option_map]. unfold spqr_message_key, key_at. f_equal. rewrite chain_at_step by done. f_equal. lia. }
  unfold trimEpochSkippedKeys. destruct (kdfChains s1 !! e); [|done]. case_if; [done|]. cbn [fst]. apply keyed_fewer; [apply map_filter_subseteq|done].
Qed.

Lemma keyed_invariant ks : chain_invariant (keyed ks).
Proof.
  split.
  - apply keyed_frame.
  - intros e s. apply keyed_advance.
  - apply keyed_send.
  - apply keyed_walk.
  - intros ei s. apply keyed_fewer, delete_subseteq.
Qed.

(** The outcome of a receive that returns. *)
Lemma receive_key_Ok index e now s s' r : deriveSPQRReceiveKey index e now s = (s', Ok r) ->
  (isSpqrBootstrapComplete s = false /\ r = None /\ s' = s) \/
  (isSpqrBootstrapComplete s = true /\ exists v, MKSKIPPED s !! (e, index) = Some v /\ r = Some (sk_key v) /\
     s' = with_skipped (delete (e, index) (MKSKIPPED s)) s) \/
  (isSpqrBootstrapComplete s = true /\ MKSKIPPED s !! (e, index) = None /\ 0 <= index <= MAX_INDEX /\
     oldest_kept (sp_epoch s) <= e <= sp_epoch s /\ walk_receive_chain e index now s = (s', Ok r)).
Proof.
  intros E. unfold deriveSPQRReceiveKey in E. inv_bind E u s1 E1. unfold inspect in E1. injection E1 as <- _.
  unfold M_bind at 1, M_get in E. destruct (isSpqrBootstrapComplete s); cbn [negb] in E; [right|left; by injection E as <- <-].
  inv_bind E u2 s2 E2. apply M_lift_inv in E2 as [-> _]. destruct (MKSKIPPED s !! (e, index)) as [v|] eqn:Ev.
  - left. split; [done|]. exists v. split; [done|]. inv_bind E u3 s3 E3. apply M_modify_inv in E3. by injection E as <- <-.
  - right. do 4 (case_if_in E; [done|]). b2p. split; [done|]. split; [done|]. split; [lia|]. split; [lia|done].
Qed.

(** A key that is received is the one of its epoch and index. *)
Lemma receive_key_value ks index e now s s' r : keyed ks s -> deriveSPQRReceiveKey index e now s = (s', Ok r) ->
  match r with None => isSpqrBootstrapComplete s = false | Some k => e <= len ks /\ k = spqr_message_key (other (direction s)) ks e index end.
Proof.
  intros HK E. apply receive_key_Ok in E as [(? & -> & _)|[(_ & v & Hv & -> & _)|(_ & _ & _ & He & E)]]; [done| |].
  - destruct HK as [_ _ _ _ K5]. destruct (K5 e index v Hv). done.
  - apply walk_Ok in E as (cs & w & Hc & Hlt & _ & _ & _ & _ & -> & _). destruct HK as [K1 K2 K3 K4 K5].
    destruct (K4 e cs Hc) as (Hle & HN & Hr & _). split; [lia|]. rewrite K1, Hr. cbn [fmap option_fmap option_map].
    rewrite chain_at_step by done. unfold spqr_message_key, key_at. do 2 f_equal. lia.
Qed.

Lemma receive_key_fail index e now s s' x : deriveSPQRReceiveKey index e now s = (s', Throw x) -> s' = s.
Proof.
  unfold deriveSPQRReceiveKey. unfold M_bind at 1, inspect. destruct (validateSPQRState s); [|by intros [= <- _]].
  unfold M_bind at 1, M_get. case_if; [done|]. unfold M_bind at 1, M_lift. destruct (assertNotTrimmed s e index); [|by intros [= <- _]].
  destruct (MKSKIPPED s !! (e, index)); [done|]. do 4 (case_if; [by intros [= <- _]|]). apply walk_fail.
Qed.

(** *** A new epoch *)
Context (HL : HashLaws H).

Lemma take_drop_length (d : bytes) a b n : length d = n -> (a + b <= n)%nat -> length (take b (drop a d)) = b.
Proof. intros Hd Hab. rewrite length_take, length_drop. lia. Qed.

Lemma root_length ks : len (newRootKey k0) = 32 -> len (newRootKey (epoch_keys ks)) = 32.
Proof.
  intros H0. induction ks as [|k ks IH] using rev_ind; [done|]. unfold epoch_keys. rewrite foldl_app. cbn.
  unfold len. rewrite length_take, hkdf_length. done.
Qed.

Lemma addBraid_keyed ks secret now s : len (newRootKey k0) = 32 -> len secret = 32 -> len ks < MAX_SAFE_INTEGER -> keyed ks s ->
  exists s', addSPQRBraidEpoch {| ok_epoch := len ks + 1; epoch_secret := secret |} Both now s = (s', Ok tt) /\
    keyed (ks ++ [secret]) s' /\ direction s' = direction s /\ mode s' = mode s /\ braidState s' = braidState s /\
    versionNegotiation s' = versionNegotiation s.
Proof.
  intros H0 Hs Hm [K1 [K2 K2'] K3 K4 K5]. pose proof (root_length ks H0) as Hrl. rewrite <- K3 in Hrl.
  assert (Ev : validateSPQRState s = Ok tt).
  { unfold validateSPQRState. replace (_ <? 0) with false by (rewrite K2; len_lia). destruct (RK s); [done|done]. }
  assert (En : getNextSPQREpoch s = Ok (len ks + 1)).
  { unfold getNextSPQREpoch. rewrite Ev. cbn [mbind result_bind]. rewrite K2. by replace (_ >=? _) with false by lia. }
  set (kk := epoch_keys (ks ++ [secret])).
  set (c := {| ec_currentEpoch := len ks; ec_currentRootKey := RK s; ec_nextEpoch := len ks + 1; ec_rootKey := newRootKey kk;
    ec_chains := {| send := {| CK := (orient (direction s) kk).1; N := 0 |}; receive := {| CK := (orient (direction s) kk).2; N := 0 |} |};
    ec_now := now |}).
  assert (Ec : prepareSPQREpoch secret Both (len ks + 1) now s = Ok c).
  { unfold prepareSPQREpoch. rewrite En. cbn [mbind result_bind]. rewrite Z.eqb_refl, K2, K2', Z.eqb_refl, Hs, Hrl. cbn [negb Z.eqb Pos.eqb SPQR_EPOCH_SECRET_LENGTH].
    unfold kdfSpqrEpoch. rewrite Hs, Hrl. cbn [negb Z.eqb Pos.eqb mbind result_bind]. unfold c, kk, epoch_keys. rewrite foldl_app.
    fold (epoch_keys ks). cbn [foldl]. unfold add_epoch_keys. rewrite <- K3, K1. done. }
  eexists. split.
  { unfold addSPQRBraidEpoch, M_bind at 1, inspect. rewrite En. cbn [ok_epoch epoch_secret]. rewrite Z.eqb_refl. cbn [negb].
    unfold addSPQREpochSecret, M_bind, inspect. rewrite Ec. unfold commitSPQREpoch. cbn [c ec_currentEpoch ec_currentRootKey].
    rewrite K2, K2', Z.eqb_refl, bool_decide_true by done. cbn [negb orb]. reflexivity. }
  split; [|done]. split; cbn.
  - done.
  - unfold len. rewrite length_app. cbn. lia.
  - done.
  - assert (Hll : len (ks ++ [secret]) = len ks + 1) by len_lia. rewrite Hll. intros e cs Hc. destruct (decide (e = len ks + 1)) as [->|Hne].
    + rewrite lookup_insert_eq in Hc. injection Hc as <-. cbn. split; [len_lia|]. split; [done|].
      unfold chain_start. rewrite take_ge by (unfold len; rewrite length_app; cbn; lia). fold kk.
      split; [apply orient_other|]. right. done.
    + rewrite lookup_insert_ne in Hc by done. destruct (K4 e cs Hc) as (He & ?).
      rewrite !(chain_start_prefix _ ks (ks ++ [secret])) by (by apply prefix_app_r || lia). split; [lia|done].
  - intros e i v Hv. destruct (K5 e i v Hv) as [He Hk]. split; [len_lia|]. unfold spqr_message_key.
    rewrite (chain_start_prefix _ ks (ks ++ [secret])) by (by apply prefix_app_r || lia). done.
Qed.
End Keys.

(** ** Received once *)
Section Spent.
Context {H : HashFunctions}.

(** The key of index [i] in epoch [e] cannot be received any more. *)
Definition spent (e i : Z) (s : SPQRState) : Prop :=
  MKSKIPPED s !! (e, i) = None /\ e <= sp_epoch s /\ (forall cs, kdfChains s !! e = Some cs -> i <= N (receive cs)).

Lemma spent_walk e i e' index now : maintains (spent e i) (walk_receive_chain e' index now).
Proof.
  intros s (S1 & S2 & S3). destruct (walk_receive_chain e' index now s) as [s' [r|x]] eqn:E; cbn [fst]; [|by apply walk_fail in E as ->].
  apply walk_Ok in E as (cs & w & Hc & Hlt & _ & En & _ & Ep & _ & ->).
  unfold commit_receive. fold (with_walk e' now (index >? N (receive cs) + limit_ooo s) w s). set (s1 := with_walk e' now _ w s).
  destruct (trim_chains e' s1) as (Tc & Te & _). split; [|split].
  - apply eq_None_not_Some. intros [v Hv]. eapply lookup_weaken in Hv; [|apply trim_sub].
    apply with_walk_held in Hv as [(-> & key & Hin & _)|Hv]; [|congruence|rewrite Ep; apply held_list_NoDup; lia].
    rewrite Ep in Hin. apply held_list_In in Hin as (Hi & _); [|lia]. specialize (S3 cs Hc). lia.
  - by rewrite Te.
  - rewrite Tc. intros cs1 E1. apply alter_chain_Some in E1 as (cs0 & E0 & ->). destruct (decide (e' = e)) as [->|]; [|by apply S3].
    cbn. specialize (S3 cs Hc). lia.
Qed.

Lemma spent_invariant e i : chain_invariant (spent e i).
Proof.
  split.
  - intros s s' (_ & E2 & E3 & E4 & _). unfold spent. by rewrite E2, E3, E4.
  - intros e' s (S1 & S2 & S3). split; [|split; [done|]]; cbn.
    + apply eq_None_not_Some. intros [v Hv]. apply filter_lookup in Hv. congruence.
    + intros cs Hc. apply prune_chains_Some in Hc as (cs0 & Hc & _ & -> & _). by apply S3.
  - intros e'. unfold step_send_chain. keeps. apply maintains_modify. intros s (S1 & S2 & S3). split; [done|]. split; [done|]. cbn.
    intros cs Hc. apply alter_chain_Some in Hc as (cs0 & Hc & ->). destruct (decide (e' = e)); exact (S3 cs0 Hc).
  - apply spent_walk.
  - intros ei s (S1 & S2 & S3). split; [|done]. cbn. apply eq_None_not_Some. intros [v Hv].
    eapply lookup_weaken in Hv; [|apply delete_subseteq]. congruence.
Qed.

Lemma spent_add e i k chains x now : maintains (spent e i) (addSPQREpochSecret k chains x now).
Proof.
  intros s (S1 & S2 & S3). unfold addSPQREpochSecret, M_bind, inspect. destruct (prepareSPQREpoch k chains x now s) as [c|] eqn:E; [|done].
  apply prepare_fresh in E as [[_ Hn] Hc]. unfold commitSPQREpoch. case_if; [done|]. split; [done|]. split; cbn; [lia|].
  intros cs Hl. rewrite lookup_insert_ne in Hl by lia. by apply S3.
Qed.

(** What is received was not spent, and is afterwards. *)
Lemma receive_spends index e now s s' k : wf s -> deriveSPQRReceiveKey index e now s = (s', Ok (Some k)) ->
  ~ spent e index s /\ spent e index s'.
Proof.
  intros HW E. apply receive_key_Ok in E as [(_ & ? & _)|[(_ & v & Hv & _ & ->)|(_ & Hv & _ & He & E)]]; [done| |].
  - split; [intros (S1 & _); congruence|]. destruct (wf_held s HW e index v Hv) as (cs & Hc & Hi). destruct (wf_epoch s HW e cs Hc).
    split; [apply lookup_delete_eq|]. split; [done|]. cbn. intros cs' Hc'. assert (cs' = cs) as -> by congruence. lia.
  - apply walk_Ok in E as (cs & w & Hc & Hlt & _ & En & _ & Ep & _ & ->).
    split; [intros (_ & _ & S3); specialize (S3 cs Hc); lia|].
    unfold commit_receive. fold (with_walk e now (index >? N (receive cs) + limit_ooo s) w s). set (s1 := with_walk e now _ w s).
    destruct (trim_chains e s1) as (Tc & Te & _). split; [|split].
    + apply eq_None_not_Some. intros [v Hv']. eapply lookup_weaken in Hv'; [|apply trim_sub].
      apply with_walk_held in Hv' as [(_ & key & Hin & _)|Hv']; [|congruence|rewrite Ep; apply held_list_NoDup; lia].
      rewrite Ep in Hin. apply held_list_In in Hin as (Hi & _); lia.
    + rewrite Te. change (sp_epoch s1) with (sp_epoch s). lia.
    + rewrite Tc. intros cs1 E1. apply alter_chain_Some in E1 as (cs0 & E0 & ->). rewrite decide_True by done. cbn. lia.
Qed.
End Spent.

(** ** SPQR: lemmas behind the properties

    The collecting loop of [spqrBraidSend], out-of-order receives and the step
    of direct mode. *)
(** ** The loop of [spqrBraidSend] *)
Section Loop.
Context {H : HashFunctions} {K : MLKEM768}.

(** Away from [EkSentCt1Received] every round that continues adds a chunk. *)
Lemma loop_returns ready rb fuel : forall round chunks out b, state b <> EkSentCt1Received -> len chunks + Z.of_nat fuel = MAX_CHUNKS_PER_SEND ->
  (0 < fuel)%nat -> exists b' r, braid_send_loop fuel ready rb round chunks out b = Some (b', r) /\
    forall c, r = Ok c -> len (cr_chunks c) <= MAX_CHUNKS_PER_SEND.
Proof.
  unfold MAX_CHUNKS_PER_SEND. induction fuel as [|fuel IH]; intros round chunks out b Hb Hl Hf; [lia|]. cbn [braid_send_loop].
  destruct (Send ready (rb round) b) as [b' [r|x]] eqn:E; [|by exists b', (Throw x)].
  apply Send_facts in E as (Hsh & _ & _ & Hst & _). set (msg := sr_message r) in *.
  destruct Hsh as [[Ht [_ Hd]]|[(_ & _ & ?)|(Ht & _ & i & c & _ & Hd)]]; [|done|].
  - rewrite Hd, (bool_decide_true (m_type msg = NoneMsg)) by done. cbn [negb andb present_]. eexists _, _. split; [reflexivity|].
    intros c0 [= <-]. cbn. lia.
  - rewrite Hd, (bool_decide_false (m_type msg = NoneMsg)) by done. cbn [negb andb present_]. case_if; b2p.
    + apply IH; [auto| |]; unfold MAX_CHUNKS_PER_SEND in *; unfold len in *; rewrite length_app in *; cbn [length] in *; lia.
    + eexists _, _. split; [reflexivity|]. intros c0 [= <-]. cbn. unfold len in *. rewrite length_app. cbn [length]. lia.
Qed.

(** There, each round gives an acknowledgement without data. *)
Lemma loop_diverges ready rb fuel : forall round out b, state b = EkSentCt1Received -> braid_send_loop fuel ready rb round [] out b = None.
Proof.
  induction fuel as [|fuel IH]; intros round out b Hb; [done|]. cbn [braid_send_loop]. 
  assert (E : Send ready (rb round) b = (b, Ok (send_result (bare_message Ct1Ack b) None b))).
  { unfold Send, isInAliceRole. rewrite Hb. unfold sendAlice. erewrite M_bind_Ok by reflexivity. by rewrite Hb. }
  rewrite E. cbn [send_result sr_message bare_message m_type m_data sr_output_key]. rewrite bool_decide_false by done. cbn [negb andb present_].
  change (len [] <? MAX_CHUNKS_PER_SEND) with true. cbn [andb]. by apply IH.
Qed.
End Loop.

(** ** Out-of-order receives *)
Section Order.
Context {H : HashFunctions} (HL : HashLaws H).

Lemma next_ck_length info ck n : len (next_ck info ck n) = 32.
Proof. unfold next_ck, len. rewrite length_take, hkdf_length. done. Qed.

Lemma loop_total info ooo index k : forall w, len (w_chainKey w) = 32 -> 0 <= w_currentN w -> w_currentN w + Z.of_nat k = index -> index <= 0xffffffff ->
  exists w', receive_loop k info ooo index w = Ok w'.
Proof.
  induction k as [|k IH]; intros w Hc Hn Hk Hm; [by eexists|]. cbn [receive_loop]. replace (w_currentN w <? index) with true by lia.
  unfold kdfChainKeySPQR. rewrite Hc. cbn [negb Z.eqb Pos.eqb]. replace ((w_currentN w + 1 <? 0) || _) with false by lia. cbn [mbind result_bind fst snd].
  apply IH; cbn [w_chainKey w_currentN]; [apply (next_ck_length info)|lia..].
Qed.

Lemma walk_runs e index now s cs : kdfChains s !! e = Some cs -> len (CK (receive cs)) = 32 -> 0 <= N (receive cs) < index -> index <= MAX_INDEX ->
  index - N (receive cs) <= limit_jump s -> exists s' k, walk_receive_chain e index now s = (s', Ok (Some k)).
Proof.
  intros Hc Hl Hn Hm Hj. unfold walk_receive_chain. unfold M_bind at 1, M_get. rewrite Hc. replace (_ >? limit_jump s) with false by lia. cbn zeta.
  edestruct (loop_total (chainNext <$> infoStrings s) (limit_ooo s) index (Z.to_nat (index - N (receive cs)))
    {| w_chainKey := CK (receive cs); w_currentN := N (receive cs); w_messageKey := None; w_pending := [] |}) as [w Ew];
    cbn [w_chainKey w_currentN]; [done|lia|lia|unfold MAX_INDEX in *; lia|].
  unfold M_bind at 1, M_lift. rewrite Ew. apply receive_loop_Ok in Ew as (_ & _ & Ek & _); [|cbn [w_currentN]; lia]. rewrite Ek.
  destruct (Z.to_nat (index - N (receive cs))) eqn:Ez; [lia|]. eexists _, _. reflexivity.
Qed.

(** A skipped key is held with the value that an in-order receive gives. *)
Lemma walk_holds e i j now s s' r cs : wf s -> kdfChains s !! e = Some cs -> N (receive cs) < i < j -> j <= i + limit_ooo s ->
  walk_receive_chain e j now s = (s', Ok r) ->
  MKSKIPPED s' !! (e, i) = Some {| sk_key := msg_key (chainNext <$> infoStrings s)
    (walk_ck (chainNext <$> infoStrings s) (CK (receive cs)) (N (receive cs)) (Z.to_nat (i - N (receive cs) - 1))) i; sk_timestamp := now |} /\
  isBelowTrimHorizon s' e i = false /\ sp_epoch s' = sp_epoch s /\ RK s' = RK s /\ isSpqrBootstrapComplete s' = isSpqrBootstrapComplete s.
Proof.
  intros HW Hc Hi Hj E. apply walk_Ok in E as (cs' & w & Hc' & Hlt & _ & En & _ & Ep & _ & ->). assert (cs' = cs) as -> by congruence. clear Hc'.
  unfold commit_receive. fold (with_walk e now (j >? N (receive cs) + limit_ooo s) w s). set (s1 := with_walk e now _ w s).
  assert (Hc1 : kdfChains s1 !! e = Some {| send := send cs; receive := {| CK := w_chainKey w; N := w_currentN w |} |}).
  { unfold s1, with_walk, set_receive_chain. cbn. by rewrite lookup_alter_eq, Hc. }
  destruct (trim_chains e s1) as (Tc & Te & Tl). split; [|split; [|split; [|split]]].
  - eapply trim_keeps; [|exact Hc1|]; [|right; cbn; change (limit_ooo s1) with (limit_ooo s); lia]. unfold s1. cbn.
    refine (proj1 (hold_keys_lookup e now (w_pending w) _ e i _) _ _); rewrite Ep; [apply held_list_NoDup; lia|]. apply held_list_In; [lia|]. split; [done|]. split; [lia|done].
  - unfold isBelowTrimHorizon. rewrite Tc, Hc1. case_if; [done|]. cbn. rewrite Tl. change (limit_ooo s1) with (limit_ooo s). lia.
  - by rewrite Te.
  - unfold trimEpochSkippedKeys. rewrite Hc1. by case_if.
  - unfold trimEpochSkippedKeys. rewrite Hc1. by case_if.
Qed.

Lemma out_of_order i j e now now' s s' kj cs : wf s -> kdfChains s !! e = Some cs -> len (CK (receive cs)) = 32 ->
  N (receive cs) < i < j -> j <= i + limit_ooo s -> deriveSPQRReceiveKey j e now s = (s', Ok (Some kj)) ->
  exists k s1 s2, deriveSPQRReceiveKey i e now' s' = (s1, Ok (Some k)) /\ deriveSPQRReceiveKey i e now' s = (s2, Ok (Some k)).
Proof.
  intros HW Hc Hl Hi Hj E. destruct (wf_epoch s HW e cs Hc) as [Hce HcN].
  assert (Hval : validateSPQRState s = Ok tt).
  { unfold deriveSPQRReceiveKey in E. inv_bind E u s1 E1. unfold inspect in E1. injection E1 as _ ->. by destruct u. }
  apply receive_key_Ok in E as [(_ & ? & _)|[(_ & v & Hv & _)|(Hb & _ & Hr & He & E)]]; [done| |].
  { exfalso. destruct (wf_held s HW e j v Hv) as (cs' & Hc' & ?). assert (cs' = cs) as -> by congruence. lia. }
  destruct (walk_Ok _ _ _ _ _ _ E) as (cs' & w & Hc' & _ & Hjump & _). assert (cs' = cs) as -> by congruence.
  destruct (walk_holds e i j now s s' _ cs HW Hc Hi Hj E) as (Hheld & Hbelow & Hep & Hrk & Hboot).
  destruct (walk_runs e i now' s cs Hc Hl) as (s2 & k & E2); [lia..|]. exists k. destruct (walk_Ok _ _ _ _ _ _ E2) as (cs2 & w2 & Hc2 & _ & _ & Hk).
  assert (cs2 = cs) as -> by congruence. destruct Hk as (_ & _ & _ & [= Hk] & _). eexists _, s2. split.
  - unfold deriveSPQRReceiveKey. unfold M_bind at 1, inspect. replace (validateSPQRState s') with (Ok tt : result unit) by (unfold validateSPQRState in *; by rewrite Hep, Hrk).
    unfold M_bind at 1, M_get. rewrite Hboot, Hb. cbn [negb]. unfold assertNotTrimmed. rewrite Hbelow. unfold M_bind at 1, M_lift. rewrite Hheld.
    unfold M_bind, M_modify, M_ret. cbn [sk_key]. rewrite Hk. do 5 f_equal. lia.
  - unfold deriveSPQRReceiveKey. unfold M_bind at 1, inspect. rewrite Hval. unfold M_bind at 1, M_get. rewrite Hb. cbn [negb].
    unfold assertNotTrimmed, isBelowTrimHorizon. rewrite Hc. replace (i <? 0) with false by lia. replace (_ <? N (receive cs)) with false by (pose proof (wf_limit s HW); lia).
    unfold M_bind at 1, M_lift. destruct (MKSKIPPED s !! (e, i)) as [v|] eqn:Ev.
    { exfalso. destruct (wf_held s HW e i v Ev) as (cs3 & Hc3 & ?). assert (cs3 = cs) as -> by congruence. lia. }
    replace (i <? 0) with false by lia. replace (e >? sp_epoch s) with false by lia. replace (i >? MAX_INDEX) with false by lia.
    replace (e <? oldest_kept (sp_epoch s)) with false by lia. exact E2.
Qed.
End Order.

(** ** The step of direct mode *)
Section Direct.
Context {H : HashFunctions} {HL : HashLaws H} {K : MLKEM768} {Q : Kyber768}.

(** The peers share a root key and an epoch, in opposite directions. *)
Record in_step (A B : SPQRState) : Prop := {
  is_root : RK A = RK B /\ len (RK A) = 32;
  is_epoch : sp_epoch A = sp_epoch B /\ scka_epoch (sckaState A) = sp_epoch A /\ scka_epoch (sckaState B) = sp_epoch B /\ 0 <= sp_epoch A;
  is_direction : direction B = other (direction A);
  is_info : chainAddEpoch <$> infoStrings A = chainAddEpoch <$> infoStrings B }.

Lemma add_epoch_run s secret chains now : len secret = 32 -> len (RK s) = 32 -> scka_epoch (sckaState s) = sp_epoch s -> 0 <= sp_epoch s < MAX_SAFE_INTEGER ->
  let keys := split_keys (hkdf secret (RK s) (bytes_of_string (default CHAIN_ADD_EPOCH (chainAddEpoch <$> infoStrings s))) 96) in
  exists s' cs, addSPQREpochSecret secret chains (sp_epoch s + 1) now s = (s', Ok tt) /\ RK s' = newRootKey keys /\ sp_epoch s' = sp_epoch s + 1 /\
    scka_epoch (sckaState s') = sp_epoch s' /\ direction s' = direction s /\ infoStrings s' = infoStrings s /\
    kdfChains s' !! (sp_epoch s + 1) = Some cs /\ receive cs = {| CK := (orient (direction s) keys).2; N := 0 |} /\
    (chains = Both -> send cs = {| CK := (orient (direction s) keys).1; N := 0 |}) /\
    (chains = ReceiveOnly -> kdfChains s !! (sp_epoch s + 1) = None -> CK (send cs) = ZEROED_CHAIN_KEY).
Proof.
  intros Hs Hr He Hm keys. assert (En : getNextSPQREpoch s = Ok (sp_epoch s + 1)).
  { unfold getNextSPQREpoch, validateSPQRState. replace (sp_epoch s <? 0) with false by lia. destruct (RK s); [done|]. cbn [mbind result_bind].
    by replace (_ >=? _) with false by lia. }
  unfold addSPQREpochSecret, M_bind, inspect, prepareSPQREpoch. rewrite En. cbn [mbind result_bind]. rewrite Z.eqb_refl, He, Z.eqb_refl, Hs, Hr.
  cbn [negb Z.eqb Pos.eqb SPQR_EPOCH_SECRET_LENGTH]. unfold kdfSpqrEpoch. rewrite Hs, Hr. cbn [negb Z.eqb Pos.eqb mbind result_bind].
  fold keys. unfold commitSPQREpoch. cbn [ec_currentEpoch ec_currentRootKey ec_nextEpoch ec_rootKey ec_chains ec_now].
  rewrite Z.eqb_refl, He, Z.eqb_refl, bool_decide_true by done. cbn [negb orb]. eexists _, _. split; [reflexivity|]. cbn.
  do 5 (split; [done|]). split; [apply lookup_insert_eq|]. destruct chains; cbn; split; try done; split; try done. by intros _ ->.
Qed.

Lemma validate_ok s : 0 <= sp_epoch s -> len (RK s) = 32 -> validateSPQRState s = Ok tt.
Proof. intros He Hr. unfold validateSPQRState. replace (sp_epoch s <? 0) with false by lia. by destruct (RK s). Qed.

Lemma advance_run s ss chains now es s' : len ss = 32 -> len (RK s) = 32 -> 0 <= sp_epoch s < MAX_SAFE_INTEGER ->
  es = hkdf ss (replicate 32 0) (buildKdfInfo ":SCKA Key" (sp_epoch s + 1)) 32 ->
  addSPQREpochSecret es chains (sp_epoch s + 1) now s = (s', Ok tt) -> advanceSPQREpochFromRawSecret ss chains now s = (s', Ok tt).
Proof.
  intros Hs Hr He -> E. unfold advanceSPQREpochFromRawSecret, M_bind at 1, inspect, getNextSPQREpoch. rewrite validate_ok by (done || lia).
  cbn [mbind result_bind]. replace (_ >=? _) with false by lia. unfold KDF_OK. rewrite Hs. cbn [negb Z.eqb Pos.eqb]. unfold M_bind, M_lift. exact E.
Qed.

Lemma truthy_some b n : len b = n -> 0 < n -> truthy (Some b) = Some b.
Proof. intros Hl Hn. destruct b; [unfold len in Hl; cbn in Hl; lia|done]. Qed.

Lemma direct_step_run s pk ss ct rb now s' : theirKyberPublicKey (sckaState s) = Some pk -> len pk = KYBER_768_PUBLIC_KEY_BYTES -> len ss = 32 ->
  k768_encapsulate pk (rb 32%nat) = Ok (ss, ct) ->
  advanceSPQREpochFromRawSecret ss Both now (with_scka (set_our_key (generateKyber768KeyPair rb).2 (sckaState s)) s) = (s', Ok tt) ->
  performDirectRatchetStep rb now s = (s', Ok {| kyberCiphertextToSend := Some ct; kyberPublicKeyToSend := Some (generateKyber768KeyPair rb).1;
    braidChunks := None; outputKey := None |}).
Proof.
  intros Hk Hl Hs He Ha. unfold performDirectRatchetStep. destruct (generateKyber768KeyPair rb) as [pk' sk']. cbn [fst snd] in *.
  unfold M_bind at 1, M_modify. unfold M_bind at 1, M_get. cbn [sckaState with_scka set_our_key theirKyberPublicKey]. rewrite Hk, (truthy_some _ _ Hl) by done.
  unfold kyber768Encapsulate. rewrite Hl, Z.eqb_refl, He. cbn [negb mbind result_bind]. unfold asKyberSharedSecret. rewrite Hs. cbn [negb Z.eqb Pos.eqb mbind result_bind].
  unfold M_bind, M_lift. cbn [fst snd]. rewrite Ha. done.
Qed.

Lemma process_run s sk ss ct now s' : mode s = DirectMode -> 0 <= sp_epoch s -> len (RK s) = 32 -> len ct = KYBER_768_CIPHERTEXT_BYTES ->
  len sk = KYBER_768_SECRET_KEY_BYTES -> ourKyberPrivateKey (sckaState s) = Some sk -> k768_decapsulate ct sk = Ok ss -> len ss = 32 ->
  advanceSPQREpochFromRawSecret ss ReceiveOnly now s = (s', Ok tt) -> processSPQRReceivedCiphertext ct now s = (s', Ok tt).
Proof.
  intros Hm He Hr Hl Hlk Hk Hd Hs Ha. unfold processSPQRReceivedCiphertext. unfold M_bind at 1, inspect. rewrite validate_ok by done.
  unfold M_bind at 1, M_get. rewrite Hm, bool_decide_false by done. change MLKEM768_CIPHERTEXT_SIZE with KYBER_768_CIPHERTEXT_BYTES. rewrite Hl, Z.eqb_refl, Hk, (truthy_some _ _ Hlk) by done. cbn [negb].
  unfold kyber768Decapsulate. rewrite Hl, Hlk, !Z.eqb_refl, Hd. cbn [negb mbind result_bind]. unfold asKyberSharedSecret. rewrite Hs. cbn [negb Z.eqb Pos.eqb].
  unfold M_bind, M_lift. exact Ha.
Qed.
End Direct.
