(* ===== verification/SpqrSystem.v ===== *)
(** * Two SPQR drivers in braid mode and the network

    Each peer runs [spqrSend] and [spqrRecv]; the network may lose, repeat and
    reorder the bytes that have been sent.  [linked] ties a peer to a party of
    the Braid system in which messages of type [None] are not delivered. *)
From S2P Require Import Prelude Crypto GaloisField Lagrange ErasureCodec BraidState BraidAuth Braid BraidInv BraidSides BraidSystem BraidTable SpqrWire SpqrWireProofs SpqrState Spqr SpqrInv SpqrKeys.

(** A peer: its state, the bytes it has sent with the keys it used, and the
    bytes for which it has been given a key. *)
Record Peer := { spqr : SPQRState; wires : list (bytes * option bytes); accepted : list bytes }.

Section System.
Context {H : HashFunctions} {K : MLKEM768} {Q : Kyber768}.

Definition peer_send (ready : bool) (rb : nat -> bytes) (now : Z) (p : Peer) : Peer :=
  match spqrSend ready rb now (spqr p) with
  | (s, Ok r) => {| spqr := s; wires := wires p ++ [(msgBytes r, messageKey r)]; accepted := accepted p |}
  | (s, Throw _) => {| spqr := s; wires := wires p; accepted := accepted p |}
  end.

Definition peer_receive (w : bytes) (now : Z) (p : Peer) : Peer :=
  match spqrRecv (Some w) now (spqr p) with
  | (s, Ok r) => {| spqr := s; wires := wires p;
                    accepted := accepted p ++ match recv_messageKey r with Some _ => [w] | None => [] end |}
  | (s, Throw _) => {| spqr := s; wires := wires p; accepted := accepted p |}
  end.

Inductive driver_step : Peer * Peer -> Peer * Peer -> Prop :=
  | driver_send_l ready rb now A B : good_random rb -> driver_step (A, B) (peer_send ready rb now A, B)
  | driver_send_r ready rb now A B : good_random rb -> driver_step (A, B) (A, peer_send ready rb now B)
  | driver_recv_l w now A B : w ∈ (wires B).*1 -> driver_step (A, B) (peer_receive w now A, B)
  | driver_recv_r w now A B : w ∈ (wires A).*1 -> driver_step (A, B) (A, peer_receive w now B).

Definition start (s : SPQRState) : Peer := {| spqr := s; wires := []; accepted := [] |}.

(** Both peers are initialised in braid mode with one secret. *)
Definition driver_initial (secret : bytes) (info : ResolvedSPQRInfoStrings) (lim : ResolvedSPQRLimits) (AB : Peer * Peer) : Prop :=
  exists a b nowA nowB, initializeSPQR BraidMode secret A2B None None V1 V1 info lim nowA = Ok a /\
    initializeSPQR BraidMode secret B2A None None V1 V1 info lim nowB = Ok b /\ AB = (start a, start b).

Definition driver_run secret info lim (AB : Peer * Peer) : Prop :=
  exists AB0, driver_initial secret info lim AB0 /\ rtc driver_step AB0 AB.
End System.

(** ** Fields that the key derivations leave alone *)
Definition outer (s s' : SPQRState) : Prop :=
  direction s' = direction s /\ mode s' = mode s /\ braidState s' = braidState s /\ versionNegotiation s' = versionNegotiation s.

Lemma outer_keeps s0 : forall f : SPQRState -> SPQRState, (forall s, outer s (f s)) -> maintains (outer s0) (M_modify f).
Proof. intros f Hf. apply maintains_modify. intros s (? & ? & ? & ?). destruct (Hf s) as (? & ? & ? & ?). unfold outer. intuition congruence. Qed.

Section Outer.
Context {H : HashFunctions}.

Lemma sendKey_outer ov s : outer s (deriveSPQRSendKey ov s).1.
Proof.
  assert (HK : maintains (outer s) (deriveSPQRSendKey ov)); [|by apply HK].
  unfold deriveSPQRSendKey, step_send_chain. keeps; by apply outer_keeps.
Qed.

Lemma commit_outer e index now c w s : outer s (commit_receive e index now c w s).
Proof. unfold commit_receive, trimEpochSkippedKeys. destruct (kdfChains _ !! e); [|done]. by case_if. Qed.

Lemma receiveKey_outer index e now s : outer s (deriveSPQRReceiveKey index e now s).1.
Proof.
  assert (HK : maintains (outer s) (deriveSPQRReceiveKey index e now)); [|by apply HK].
  unfold deriveSPQRReceiveKey, walk_receive_chain. keeps; apply outer_keeps; [done|]. intros s'. apply commit_outer.
Qed.
End Outer.

(** ** A peer and its party *)
Lemma keys_of_secrets ks : map epoch_secret (keys_of ks) = ks.
Proof.
  induction ks as [|k ks IH] using rev_ind; [done|]. unfold keys_of in *. rewrite imap_app, map_app, IH. done.
Qed.

Lemma keys_of_prefix ks ks' : keys_of ks `prefix_of` keys_of ks' -> ks `prefix_of` ks'.
Proof. intros [l Hl]. exists (map epoch_secret l). rewrite <- (keys_of_secrets ks'), Hl, map_app, keys_of_secrets. done. Qed.

(** The keys that the stalled Braid can output. *)
Definition good_outputs (P : Party) : Prop :=
  (length (outputs P) <= 1)%nat /\ forall i k, outputs P !! i = Some k -> ok_epoch k = Z.of_nat i + 1.

Section Link.
Context {H : HashFunctions} {HL : HashLaws H} {K : MLKEM768} {Q : Kyber768}.
Context (info : ResolvedSPQRInfoStrings) (k0 : SpqrKeys) (Hk0 : len (newRootKey k0) = 32).

Definition key_facts (d : Direction) (ks : list bytes) (e : Z) (pqr : SPQRWireMessage) (k : option bytes) : Prop :=
  (w_chainIndex pqr = Some 0 /\ k = None) \/
  (exists i, w_chainIndex pqr = Some i /\ 1 <= i /\ 0 <= e - 1 <= len ks /\ k = Some (spqr_message_key info k0 d ks (e - 1) i)).

(** What the bytes that a peer sends are read as. *)
Definition wire_of (d : Direction) (P : Party) (ks : list bytes) (wk : bytes * option bytes) : Prop :=
  (wk.1 = [] /\ wk.2 = None) \/
  (exists pqr e, decodeSPQRWire wk.1 = Ok pqr /\ w_version pqr = 1 /\ w_epoch pqr = Some e /\ 1 <= e <= MAX_UINT64 /\
    (w_mode pqr = WireNone \/ (w_mode pqr = WireBraid /\ wire_chunk e pqr ∈ sent P /\ m_type (wire_chunk e pqr) <> NoneMsg)) /\
    key_facts d ks e pqr wk.2).

Definition used_up (s : SPQRState) (w : bytes) : Prop :=
  exists pqr e i, decodeSPQRWire w = Ok pqr /\ w_epoch pqr = Some e /\ w_chainIndex pqr = Some i /\ spent (e - 1) i s.

Record linked (d : Direction) (P : Party) (ks : list bytes) (p : Peer) : Prop := {
  lk_braid : braidState (spqr p) = Some (agent P);
  lk_mode : mode (spqr p) = BraidMode;
  lk_dir : direction (spqr p) = d;
  lk_version : exists v, versionNegotiation (spqr p) = Some v;
  lk_wf : wf (spqr p);
  lk_keyed : keyed info k0 ks (spqr p);
  lk_outputs : outputs P = keys_of ks;
  lk_wires : Forall (wire_of d P ks) (wires p);
  lk_once : NoDup (accepted p) /\ Forall (used_up (spqr p)) (accepted p) }.

Lemma key_facts_grow d ks ks' e pqr k : ks `prefix_of` ks' -> key_facts d ks e pqr k -> key_facts d ks' e pqr k.
Proof.
  intros Hp [?|(i & Hi & H1 & He & ->)]; [by left|]. right. exists i. split; [done|]. split; [done|].
  pose proof (prefix_length _ _ Hp). split; [unfold len in *; lia|]. unfold spqr_message_key.
  by rewrite (chain_start_prefix _ _ _ ks ks') by (done || lia).
Qed.

Lemma wire_of_grow d P P' ks ks' wk : (forall m, m ∈ sent P -> m ∈ sent P') -> ks `prefix_of` ks' -> wire_of d P ks wk -> wire_of d P' ks' wk.
Proof.
  intros Hs Hp [?|(pqr & e & H1 & H2 & H3 & H4 & H5 & H6)]; [by left|right]. exists pqr, e.
  do 4 (split; [done|]). split; [|by eapply key_facts_grow]. destruct H5 as [?|(? & ? & ?)]; [by left|right; auto].
Qed.

(** An output key of the Braid becomes an epoch of the driver. *)
Lemma absorb (P P' : Party) ks o now s : keyed info k0 ks s -> outputs P = keys_of ks -> outputs P' = outputs P ++ option_list o ->
  good_outputs P' -> (forall k, o = Some k -> exists e ss, KDF_OK ss e = Ok (epoch_secret k)) ->
  exists s' ks', (match o with Some k => addSPQRBraidEpoch k Both now | None => M_ret tt end) s = (s', Ok tt) /\
    keyed info k0 ks' s' /\ outputs P' = keys_of ks' /\ ks `prefix_of` ks' /\ outer s s'.
Proof.
  intros HK HP HP' [Hlen Hep] Hss. destruct o as [[oe os]|]; cbn [option_list] in HP'.
  - rewrite HP in HP'. assert (Hl : length (keys_of ks) = length ks) by (unfold keys_of; apply length_imap).
    assert (Hoe : oe = len ks + 1).
    { specialize (Hep (length ks) {| ok_epoch := oe; epoch_secret := os |}). cbn in Hep. rewrite Hep; [done|].
      rewrite HP', <- Hl. apply list_lookup_middle. done. }
    assert (Hos : len os = 32).
    { destruct (Hss _ eq_refl) as (e & ss & Ho). cbn in Ho. unfold KDF_OK in Ho. case_if_in Ho; [done|]. injection Ho as <-.
      unfold len. by rewrite hkdf_length. }
    rewrite HP', length_app, Hl in Hlen. cbn in Hlen. subst oe.
    destruct (addBraid_keyed info k0 HL ks os now s Hk0 Hos) as (s' & E & HK' & H1 & H2 & H3 & H4); [unfold len, MAX_SAFE_INTEGER; lia|done|].
    exists s', (ks ++ [os]). split; [exact E|]. split; [done|]. split; [|split; [by apply prefix_app_r|done]].
    rewrite HP'. symmetry. apply keys_of_snoc. lia.
  - rewrite app_nil_r in HP'. exists s, ks. split; [done|]. split; [done|]. split; [congruence|]. split; [done|]. done.
Qed.

(** The part of [linked] that an operation moves through its steps. *)
Definition core (d : Direction) (P : Party) (ks : list bytes) (s : SPQRState) : Prop :=
  braidState s = Some (agent P) /\ mode s = BraidMode /\ direction s = d /\ (exists v, versionNegotiation s = Some v) /\
  keyed info k0 ks s /\ outputs P = keys_of ks.

Lemma core_outer d P ks s s' : core d P ks s -> outer s s' -> keyed info k0 ks s' -> core d P ks s'.
Proof. intros (C1 & C2 & C3 & (v & C4) & _ & C6) (E1 & E2 & E3 & E4) HK. split; [congruence|]. split; [congruence|]. split; [congruence|]. split; [exists v; congruence|]. done. Qed.

Lemma linked_core d P ks p : linked d P ks p -> core d P ks (spqr p).
Proof. by intros []. Qed.

(** The state machine inside a driver. *)
Lemma core_braid d P ks s (P' : Party) b' o now : core d P ks s -> b' = agent P' -> outputs P' = outputs P ++ option_list o ->
  good_outputs P' -> (forall k, o = Some k -> exists e ss, KDF_OK ss e = Ok (epoch_secret k)) ->
  exists s' ks', (match o with Some k => addSPQRBraidEpoch k Both now | None => M_ret tt end) (with_braid (Some b') s) = (s', Ok tt) /\
    core d P' ks' s' /\ ks `prefix_of` ks' /\ versionNegotiation s' = versionNegotiation s.
Proof.
  intros (C1 & C2 & C3 & (v & C4) & C5 & C6) -> Ho Hg Hk.
  assert (C5' : keyed info k0 ks (with_braid (Some (agent P')) s)) by by apply (keyed_frame info k0 ks s).
  destruct (absorb P P' ks o now _ C5' C6 Ho Hg Hk) as (s' & ks' & E & HK & HO & Hp & (E1 & E2 & E3 & E4)).
  exists s', ks'. split; [done|]. cbn in *. split; [|split; [done|congruence]]. split; [congruence|]. split; [congruence|]. split; [congruence|].
  split; [exists v; congruence|]. done.
Qed.

(** *** Sending *)
Lemma send_braid_run s b ready rb now : braidState s = Some b -> mode s = BraidMode -> send_braid ready rb now s =
  match Send ready rb b with
  | (b', Ok r) => M_bind (fun _ => M_ret (Some r)) (match sr_output_key r with Some k => addSPQRBraidEpoch k Both now | None => M_ret tt end)
                    (with_braid (Some b') s)
  | (b', Throw x) => (with_braid (Some b') s, Throw x)
  end.
Proof.
  intros Hb Hm. unfold send_braid. unfold M_bind at 1, M_get. rewrite Hb, Hm, bool_decide_true by done. cbn [present_ andb].
  unfold M_bind at 1, on_braid. rewrite Hb. by destruct (Send ready rb b) as [b' [r|x]].
Qed.

Lemma core_send d P ks s ready rb now : core d P ks s -> good_outputs (party_send ready rb P) ->
  let P' := party_send ready rb P in
  exists s' ks', core d P' ks' s' /\ ks `prefix_of` ks' /\
    ((exists x, send_braid ready rb now s = (s', Throw x)) \/
     (exists r, Send ready rb (agent P) = (agent P', Ok r) /\ sent P' = sent P ++ [sr_message r] /\ send_braid ready rb now s = (s', Ok (Some r)))).
Proof.
  intros HC Hg P'. pose proof HC as (C1 & C2 & _). rewrite (send_braid_run s _ ready rb now C1 C2).
  unfold P', party_send in *. destruct (Send ready rb (agent P)) as [b' [r|x]] eqn:E.
  - pose proof (Send_facts _ _ _ _ _ E) as (_ & _ & _ & _ & Hk).
    destruct (core_braid d P ks s P' b' (sr_output_key r) now HC eq_refl eq_refl Hg) as (s' & ks' & E' & HC' & Hp & _).
    { intros k Ek. destruct (Hk k Ek) as (_ & ss & ?). by exists (epoch (agent P)), ss. }
    exists s', ks'. split; [exact HC'|]. split; [done|]. right. exists r. split; [done|]. split; [done|]. unfold M_bind. rewrite E'. done.
  - destruct (core_braid d P ks s P' b' None now HC eq_refl) as (s' & ks' & E' & HC' & Hp & _); [symmetry; apply app_nil_r|exact Hg|done|].
    cbn in E'. injection E' as <-. exists (with_braid (Some b') s), ks'. split; [exact HC'|]. split; [done|]. left. by exists x.
Qed.

(** The bytes that are sent are read as what was meant. *)
Lemma wire_of_none d P ks e key b : encodeSPQRWire (wire_message e key None None None) = Ok b ->
  (match key with None => True | Some kr => kr_epoch kr = e - 1 /\ 1 <= kr_index kr <= MAX_INDEX /\ 0 <= kr_epoch kr <= len ks /\
      kr_messageKey kr = spqr_message_key info k0 d ks (kr_epoch kr) (kr_index kr) end) ->
  wire_of d P ks (b, kr_messageKey <$> key).
Proof.
  intros E Hk. apply encode_inv in E as (e' & Hv & ->); [|done]. pose proof Hv as (_ & [= <-] & He & _). right.
  exists (normal_form (wire_message e key None None None) e), e. split; [rewrite <- (app_nil_r (message_bytes _ _)); by apply decode_ok|].
  do 3 (split; [done|]). split; [by left|]. destruct key as [kr|]; [|by left]. destruct Hk as (Hke & Hi & Hle & Hkm). right.
  exists (kr_index kr). split; [done|]. split; [lia|]. split; [lia|]. cbn. by rewrite Hkm, Hke.
Qed.

Lemma type_number t : MessageType_of_number (MessageType_number t) = t.
Proof. by destruct t. Qed.

Lemma wire_of_braid d P ks e key m b : encodeSPQRWire (wire_message e key None None (Some m)) = Ok b -> m ∈ sent P -> m_epoch m = e ->
  m_type m <> NoneMsg -> (m_type m = Ct1Ack /\ bare m) \/ (m_type m <> Ct1Ack /\ chunked m) ->
  (match key with None => True | Some kr => kr_epoch kr = e - 1 /\ 1 <= kr_index kr <= MAX_INDEX /\ 0 <= kr_epoch kr <= len ks /\
      kr_messageKey kr = spqr_message_key info k0 d ks (kr_epoch kr) (kr_index kr) end) ->
  wire_of d P ks (b, kr_messageKey <$> key).
Proof.
  intros E Hin Hme Ht Hshape Hk. apply encode_inv in E as (e' & Hv & ->); [|done]. pose proof Hv as (_ & [= <-] & He & _). right.
  assert (Hn : normal_form (wire_message e key None None (Some m)) e =
    set_braid (MessageType_number (m_type m)) (m_chunkIndex m) (m_data m) (wire_header e (default 0 (kr_index <$> key)) WireBraid)).
  { unfold normal_form. cbn [wire_message w_mode w_braidMsgType w_braidChunkIndex w_braidChunkData w_chainIndex default fmap option_fmap option_map mbind option_bind].
    destruct Hshape as [[Ec [Ei Ed]]|[Hc (i & c & Ei & Ed)]]; rewrite Ei, Ed; [by rewrite Ec|]. by destruct (m_type m). }
  exists (normal_form (wire_message e key None None (Some m)) e), e. split; [rewrite <- (app_nil_r (message_bytes _ _)); by apply decode_ok|]. rewrite Hn.
  do 3 (split; [done|]). split.
  - right. split; [done|]. assert (Ew : wire_chunk e (set_braid (MessageType_number (m_type m)) (m_chunkIndex m) (m_data m)
      (wire_header e (default 0 (kr_index <$> key)) WireBraid)) = m).
    { unfold wire_chunk. cbn. rewrite type_number, <- Hme. by destruct m. }
    rewrite Ew. done.
  - cbn [snd]. destruct key as [kr|]; [|by left]. destruct Hk as (Hke & Hi & Hle & Hkm). right.
    exists (kr_index kr). split; [done|]. split; [lia|]. split; [lia|]. cbn. by rewrite Hkm, Hke.
Qed.

Lemma linked_send d P ks p ready rb now : linked d P ks p -> good_outputs (party_send ready rb P) ->
  exists ks', linked d (party_send ready rb P) ks' (peer_send ready rb now p).
Proof.
  intros HL' Hg. pose proof (linked_core _ _ _ _ HL') as HC. destruct HL' as [_ HM _ _ HW _ _ HWI [HO1 HO2]].
  destruct (core_send d P ks (spqr p) ready rb now HC Hg) as (s1 & ks' & HC1 & Hp & Hs).
  set (P' := party_send ready rb P) in *.
  assert (Hwf : wf (spqrSend ready rb now (spqr p)).1) by (apply (spqrSend_keeps wf); [apply wf_invariant|apply addEpoch_wf|done]).
  assert (Hused : Forall (used_up (spqrSend ready rb now (spqr p)).1) (accepted p)).
  { eapply Forall_impl; [exact HO2|]. intros w (pqr & e & i & H1 & H2 & H3 & H4). exists pqr, e, i. do 3 (split; [done|]).
    apply (spqrSend_keeps (spent (e - 1) i)); [apply spent_invariant|apply spent_add|done]. }
  assert (Hsent : forall m, m ∈ sent P -> m ∈ sent P').
  { intros m Hm. unfold P', party_send. destruct (Send ready rb (agent P)) as [? []]; cbn; [apply elem_of_app; by left|done]. }
  assert (HWI' : Forall (wire_of d P' ks') (wires p)) by (eapply Forall_impl; [exact HWI|]; intros wk; by apply wire_of_grow).
  (* the outcome of the whole operation *)
  assert (Hout : exists s2, core d P' ks' s2 /\
    match spqrSend ready rb now (spqr p) with (s, r) => s = s2 /\
      match r with Throw _ => True | Ok r => wire_of d P' ks' (msgBytes r, messageKey r) end end).
  { unfold spqrSend. erewrite M_bind_Ok; [|unfold send_ratchet, M_bind at 1, M_get; rewrite HM, andb_false_r; reflexivity].
    destruct Hs as [[x Hs]|(r & Er & Es & Hs)].
    - exists s1. split; [done|]. unfold M_bind at 1. rewrite Hs. done.
    - erewrite M_bind_Ok by exact Hs. pose proof (Send_facts _ _ _ _ _ Er) as (Hsh & Hse & Hme & _ & _).
      unfold spqrWireEpochToInternalEpoch. unfold M_bind at 1, M_bind at 2, M_lift.
      destruct (assertUint64 (sending_epoch r) 1) as [u|] eqn:Eu; [|by exists s1]. cbn [mbind result_bind].
      unfold assertUint64 in Eu. case_if_in Eu; [done|]. injection Eu as <-. unfold bigintToSafeNumber. case_if; [by exists s1|].
      unfold M_bind, M_ret, M_lift, M_get. pose proof (sendKey_outer (Some (sending_epoch r - 1)) s1) as Hou.
      pose proof (sendKey_keeps (keyed info k0 ks') (keyed_invariant info k0 ks') (Some (sending_epoch r - 1)) s1) as Hke.
      destruct HC1 as (D1 & D2 & D3 & D4 & D5 & D6). specialize (Hke D5).
      destruct (deriveSPQRSendKey (Some (sending_epoch r - 1)) s1) as [s2 [key|x]] eqn:Ek; cbn [fst] in Hou, Hke; (exists s2; split; [by eapply core_outer|]); [|done].
      pose proof (send_key_Ok info k0 ks' _ _ _ _ D5 Ek) as Hkey. rewrite D3 in Hkey. cbn [default] in Hkey.
      case_if.
      { split; [done|]. by left. }
      destruct (encodeSPQRWire _) as [b|] eqn:Eb; [|done]. split; [done|]. cbn [msgBytes messageKey].
      unfold braid_message in Eb. case_bool_decide as Ht.
      + eapply wire_of_none; [exact Eb|done].
      + eapply wire_of_braid; [exact Eb| |congruence|done| |done].
        * fold P'. rewrite Es. apply elem_of_app. right. by apply list_elem_of_singleton.
        * destruct Hsh as [[? _]|[(? & ? & _)|(_ & ? & ?)]]; [done|by left|by right]. }
  destruct Hout as (s2 & HC2 & Hout). unfold peer_send. exists ks'.
  destruct (spqrSend ready rb now (spqr p)) as [s [r|x]]; cbn [fst] in *; destruct Hout as [-> Hw];
    destruct HC2 as (D1 & D2 & D3 & D4 & D5 & D6); split; try done.
  cbn. apply Forall_app. split; [done|]. by apply Forall_singleton.
Qed.

(** *** Receiving *)
Definition negotiated (s : SPQRState) : Prop := isVersionNegotiationComplete (versionNegotiation s) = true.

Lemma core_bootstrap d P ks s : core d P ks s -> negotiated s -> isSpqrBootstrapComplete s = true.
Proof. intros (C1 & C2 & _) Hn. unfold isSpqrBootstrapComplete. rewrite C2, C1. done. Qed.

Lemma core_version d P ks s : core d P ks s -> exists s', recv_version 1 s = (s', Ok tt) /\ core d P ks s' /\ negotiated s'.
Proof.
  intros (C1 & C2 & C3 & (v & C4) & C5 & C6). unfold recv_version. rewrite C4. case_bool_decide as Es.
  - unfold processVersionFromByte, processVersionCapability, M_bind, M_ret. rewrite Z.eqb_refl, Es. cbn match. eexists. split; [reflexivity|].
    split; [|done]. split; [done|]. split; [done|]. split; [done|]. split; [by eexists|]. split; [|done]. by apply (keyed_frame info k0 ks s).
  - exists s. split; [done|]. split; [do 3 (split; [done|]); split; [by exists v|done]|]. unfold negotiated, isVersionNegotiationComplete. rewrite C4.
    apply bool_decide_eq_true. by destruct (status v).
Qed.

Lemma recv_braid_run s b e pqr now : braidState s = Some b -> w_epoch pqr = Some e -> 1 <= e <= MAX_UINT64 -> recv_braid pqr now s =
  match Receive (wire_chunk e pqr) b with
  | (b', Ok r) => (match rr_output_key r with Some k => addSPQRBraidEpoch k Both now | None => M_ret tt end) (with_braid (Some b') s)
  | (b', Throw x) => (with_braid (Some b') s, Throw x)
  end.
Proof.
  intros Hb He Hr. unfold recv_braid. rewrite He. change (default 0 (Some e)) with e.
  assert (Ea : spqrWireEpochToBigInt e = Ok e) by by apply assertUint64_Ok.
  rewrite Ea. unfold M_bind at 1, M_lift. unfold M_bind, on_braid. rewrite Hb. by destruct (Receive (wire_chunk e pqr) b) as [b' [r|x]].
Qed.

Lemma core_receive d P ks s e pqr now : core d P ks s -> negotiated s -> w_mode pqr = WireBraid -> w_epoch pqr = Some e -> 1 <= e <= MAX_UINT64 ->
  let P' := party_receive (wire_chunk e pqr) P in good_outputs P' ->
  exists s' ks' r, recv_payload pqr now s = (s', r) /\ core d P' ks' s' /\ ks `prefix_of` ks' /\ negotiated s'.
Proof.
  intros HC Hn Hm He Hr P' Hg. pose proof HC as (C1 & C2 & _). unfold recv_payload. unfold M_bind at 1, M_get. rewrite Hm, C2, C1.
  rewrite bool_decide_true by done. cbn [present_ andb]. rewrite (recv_braid_run s _ e pqr now C1 He Hr).
  unfold P', party_receive in *. destruct (Receive (wire_chunk e pqr) (agent P)) as [b' [r|x]] eqn:E.
  - destruct (core_braid d P ks s P' b' (rr_output_key r) now HC eq_refl eq_refl Hg) as (s' & ks' & E' & HC' & Hp & Hv).
    { intros k Ek. destruct (Receive_key _ _ _ _ _ E Ek) as (_ & ss & ?). by exists (epoch (agent P)), ss. }
    exists s', ks', (Ok tt). split; [exact E'|]. split; [exact HC'|]. split; [done|]. unfold negotiated. by rewrite Hv.
  - destruct (core_braid d P ks s P' b' None now HC eq_refl) as (s' & ks' & E' & HC' & Hp & Hv); [symmetry; apply app_nil_r|exact Hg|done|].
    cbn in E'. injection E' as <-. exists (with_braid (Some b') s), ks, (Throw x). split; [done|]. split; [|done].
    destruct HC as (_ & D2 & D3 & D4 & D5 & D6). split; [done|]. do 3 (split; [done|]). split; [|done]. by apply (keyed_frame info k0 ks s).
Qed.

(** Which party a peer is after a receive. *)
Definition moved (P2 P P' : Party) : Prop := P' = P \/ exists m, m ∈ sent P2 /\ m_type m <> NoneMsg /\ P' = party_receive m P.

Lemma moved_sent P2 P P' : moved P2 P P' -> sent P' = sent P.
Proof. intros [->|(m & _ & _ & ->)]; [done|]. unfold party_receive. by destruct (Receive m (agent P)) as [? []]. Qed.

(** What the receiver derives from what the sender used. *)
Definition same_key (d : Direction) (ks2 ks' : list bytes) (k r : option bytes) : Prop :=
  (k = None /\ r = None) \/
  (exists e i, 0 <= e <= len ks2 /\ e <= len ks' /\ k = Some (spqr_message_key info k0 (other d) ks2 e i) /\ r = Some (spqr_message_key info k0 (other d) ks' e i)).

Lemma core_recv_key d P ks s ks2 e pqr k now : core d P ks s -> negotiated s -> w_epoch pqr = Some e -> key_facts (other d) ks2 e pqr k ->
  core d P ks (recv_key pqr now s).1 /\ forall r, (recv_key pqr now s).2 = Ok r -> same_key d ks2 ks k r.
Proof.
  intros HC Hn He Hk. pose proof HC as (C1 & C2 & C3 & C4 & C5 & C6). unfold recv_key. rewrite He. destruct Hk as [[Hi ->]|(i & Hi & H1 & Hle & ->)]; rewrite Hi.
  { split; [done|]. intros r [= <-]. by left. }
  replace (i >=? 1) with true by lia. unfold M_bind at 1 2, M_lift. destruct (spqrWireEpochToInternalEpoch e) as [ie|] eqn:Ei; [|split; [done|]; done].
  unfold spqrWireEpochToInternalEpoch in Ei. destruct (assertUint64 e 1) as [u|] eqn:Eu; [|done]. unfold assertUint64 in Eu. case_if_in Eu; [done|]. injection Eu as <-.
  cbn [mbind result_bind] in Ei. unfold bigintToSafeNumber in Ei. case_if_in Ei; [done|]. injection Ei as <-.
  pose proof (receiveKey_outer i (e - 1) now s) as Ho.
  pose proof (receiveKey_keeps _ (keyed_invariant info k0 ks) i (e - 1) now s C5) as HK.
  split; [by eapply core_outer|]. intros r Er. destruct (deriveSPQRReceiveKey i (e - 1) now s) as [s' r'] eqn:E. cbn in Er. subst r'.
  pose proof (receive_key_value info k0 ks _ _ _ _ _ _ C5 E) as Hv. rewrite C3 in Hv. right.
  destruct r as [kr|]; [|rewrite (core_bootstrap _ _ _ _ HC Hn) in Hv; done]. destruct Hv as [Hle' ->]. by exists (e - 1), i.
Qed.

Lemma linked_receive d P p ks P2 ks2 w k now : linked d P ks p -> wire_of (other d) P2 ks2 (w, k) ->
  (forall m, m ∈ sent P2 -> m_type m <> NoneMsg -> good_outputs (party_receive m P)) ->
  exists P' ks' s r, moved P2 P P' /\ spqrRecv (Some w) now (spqr p) = (s, r) /\ core d P' ks' s /\ ks `prefix_of` ks' /\
    forall r', r = Ok r' -> same_key d ks2 ks' k (recv_messageKey r').
Proof.
  intros HL' Hw Hg. pose proof (linked_core _ _ _ _ HL') as HC. destruct Hw as [[Ew Ek]|(pqr & e & Hd & Hv & He & Hr & Hm & Hk)]; cbn [fst snd] in *.
  { subst. exists P, ks, (spqr p), (Ok {| recv_messageKey := None |}). split; [by left|]. split; [done|]. split; [done|]. split; [done|].
    intros r' [= <-]. by left. }
  assert (Hne : w <> []) by by intros ->. destruct w as [|b0 w']; [done|]. unfold spqrRecv. rewrite Hd.
  destruct (core_version d P ks (spqr p) HC) as (s1 & E1 & HC1 & Hn1).
  assert (Hpay : exists P' ks' s2 r2, moved P2 P P' /\ recv_payload pqr now s1 = (s2, r2) /\ core d P' ks' s2 /\ ks `prefix_of` ks' /\ negotiated s2).
  { destruct Hm as [Hm|(Hm & Hin & Ht)].
    - exists P, ks, s1, (Ok tt). split; [by left|]. split; [|done]. unfold recv_payload, M_bind, M_get. by rewrite Hm.
    - destruct (core_receive d P ks s1 e pqr now HC1 Hn1 Hm He Hr (Hg _ Hin Ht)) as (s2 & ks' & r2 & E2 & HC2 & Hp & Hn2).
      exists (party_receive (wire_chunk e pqr) P), ks', s2, r2. split; [right; by eexists|]. done. }
  destruct Hpay as (P' & ks' & s2 & r2 & Hmv & E2 & HC2 & Hp & Hn2).
  destruct (core_recv_key d P' ks' s2 ks2 e pqr k now HC2 Hn2 He Hk) as [HC3 Hkey].
  unfold M_bind at 1, M_lift. rewrite Hv. unfold M_bind at 1. rewrite E1. unfold M_bind at 1. rewrite E2. destruct r2 as [u|x].
  - unfold M_bind, M_ret. destruct (recv_key pqr now s2) as [s3 [kr|x]] eqn:E3; cbn [fst snd] in *.
    + exists P', ks', s3, (Ok {| recv_messageKey := kr |}). do 4 (split; [done|]). intros r' [= <-]. by apply Hkey.
    + exists P', ks', s3, (Throw x). do 4 (split; [done|]). done.
  - exists P', ks', s2, (Throw x). do 4 (split; [done|]). done.
Qed.

(** A key is given only for bytes that were not used up, and uses them up. *)
Lemma recv_spends p w now s r kr : wf (spqr p) -> spqrRecv (Some w) now (spqr p) = (s, Ok r) -> recv_messageKey r = Some kr ->
  ~ used_up (spqr p) w /\ used_up s w.
Proof.
  intros HW E Hk. destruct w as [|b0 w']; [by injection E as _ <-|]. unfold spqrRecv in E. set (w := b0 :: w') in *.
  inv_bind E pqr s1 E1. apply M_lift_inv in E1 as [-> E1]. inv_bind E u1 s2 E2. inv_bind E u2 s3 E3. inv_bind E kr' s4 E4. injection E as <- <-.
  cbn in Hk. subst kr'. unfold recv_key in E4. destruct (w_epoch pqr) as [e|] eqn:He; [|done]. destruct (w_chainIndex pqr) as [i|] eqn:Hi; [|done].
  case_if_in E4; [|done]. inv_bind E4 ie s5 E5. apply M_lift_inv in E5 as [-> E5].
  assert (ie = e - 1) as ->.
  { unfold spqrWireEpochToInternalEpoch in E5. destruct (assertUint64 e 1) as [u|] eqn:Eu; [|done]. unfold assertUint64 in Eu. case_if_in Eu; [done|].
    injection Eu as <-. cbn [mbind result_bind] in E5. unfold bigintToSafeNumber in E5. case_if_in E5; [done|]. by injection E5. }
  assert (Hkeep : forall I, chain_invariant I -> (forall k chains x now, maintains I (addSPQREpochSecret k chains x now)) -> I (spqr p) -> I s3).
  { intros I HI HA HI0. assert (I2 : I s2) by (pose proof (recv_version_keeps I HI (w_version pqr) (spqr p) HI0) as Hx; by rewrite E2 in Hx).
    pose proof (recv_payload_keeps I HI HA pqr now s2 I2) as Hx. by rewrite E3 in Hx. }
  assert (HW3 : wf s3) by (apply Hkeep; [apply wf_invariant|apply addEpoch_wf|done]).
  destruct (receive_spends _ _ _ _ _ _ HW3 E4) as [Hn Hy]. split.
  - intros (pqr' & e' & i' & Hd & He' & Hi' & Hs). rewrite E1 in Hd. injection Hd as <-. rewrite He in He'. rewrite Hi in Hi'.
    injection He' as <-. injection Hi' as <-. apply Hn, (Hkeep (spent (e - 1) i)); [apply spent_invariant|apply spent_add|done].
  - by exists pqr, e, i.
Qed.

Lemma linked_peer_receive d P p ks P2 ks2 w k now : linked d P ks p -> wire_of (other d) P2 ks2 (w, k) ->
  (forall m, m ∈ sent P2 -> m_type m <> NoneMsg -> good_outputs (party_receive m P)) ->
  exists P' ks', moved P2 P P' /\ linked d P' ks' (peer_receive w now p) /\
    forall s r, spqrRecv (Some w) now (spqr p) = (s, Ok r) -> same_key d ks2 ks' k (recv_messageKey r).
Proof.
  intros HL' Hw Hg. destruct (linked_receive d P p ks P2 ks2 w k now HL' Hw Hg) as (P' & ks' & s & r & Hmv & E & HC & Hp & Hkey).
  destruct HL' as [_ _ _ _ HW _ _ HWI [HO1 HO2]]. exists P', ks'. split; [done|].
  split; [|intros s' r' E'; rewrite E in E'; injection E' as -> ->; by apply Hkey].
  assert (HW' : wf s) by (pose proof (spqrRecv_keeps wf wf_invariant addEpoch_wf (Some w) now (spqr p) HW) as Hx; by rewrite E in Hx).
  assert (HO2' : Forall (used_up s) (accepted p)).
  { eapply Forall_impl; [exact HO2|]. intros w0 (pqr & e & i & H1 & H2 & H3 & H4). exists pqr, e, i. do 3 (split; [done|]).
    pose proof (spqrRecv_keeps _ (spent_invariant (e - 1) i) (spent_add (e - 1) i) (Some w) now (spqr p) H4) as Hx. by rewrite E in Hx. }
  assert (HWI' : Forall (wire_of d P' ks') (wires p)).
  { eapply Forall_impl; [exact HWI|]. intros wk. apply wire_of_grow; [|done]. intros m. by rewrite (moved_sent _ _ _ Hmv). }
  unfold peer_receive. rewrite E. destruct HC as (D1 & D2 & D3 & D4 & D5 & D6). destruct r as [r|x]; split; try done. cbn [accepted spqr].
  destruct (recv_messageKey r) as [kr|] eqn:Ekr; [|by rewrite app_nil_r].
  destruct (recv_spends p w now s r kr HW E Ekr) as [Hn Hy]. split; [|by apply Forall_app; split; [|by apply Forall_singleton]].
  apply NoDup_app. split; [done|]. split; [|apply NoDup_singleton]. intros x Hx. rewrite list_elem_of_singleton. intros ->. apply Hn.
  by apply (proj1 (Forall_forall _ _) HO2).
Qed.
End Link.

(** ** The pair *)
Section Pair.
Context {H : HashFunctions} {HL : HashLaws H} {K : MLKEM768} {KL : MLKEM768Laws K} {Q : Kyber768}.
Context (secret : bytes) (Hsecret : length secret = 32%nat) (info : ResolvedSPQRInfoStrings) (lim : ResolvedSPQRLimits) (Hlim : 0 <= maxOutOfOrderKeys lim).

(** The keys of epoch 0. *)
Definition zero_keys : SpqrKeys := split_keys (hkdf secret [] (bytes_of_string (chainStart info)) 96).

Lemma zero_keys_length : len (newRootKey zero_keys) = 32.
Proof. unfold zero_keys, len. cbn. rewrite length_take, hkdf_length. done. Qed.

Definition paired (AB : Peer * Peer) (PQ : Party * Party) : Prop :=
  carried_run secret PQ /\ exists ksA ksB,
    linked info zero_keys A2B PQ.1 ksA AB.1 /\ linked info zero_keys B2A PQ.2 ksB AB.2.

Lemma carried_outputs PQ : carried_run secret PQ -> good_outputs PQ.1 /\ good_outputs PQ.2.
Proof.
  intros Hr. pose proof (carried_run_first secret PQ Hsecret Hr) as Hf. destruct (first_epoch_bounds PQ Hf) as (_ & _ & HA & HB & _).
  destruct (phase_outputs _ _ (proj1 Hf)) as (ks & o & E1 & E2). split; (split; [done|]); [rewrite E1|rewrite E2]; apply keys_of_epoch.
Qed.

Lemma carried_once PQ PQ' : carried_run secret PQ -> carried_step PQ PQ' -> carried_run secret PQ'.
Proof. intros (PQ0 & Hi & Hr) Hs. exists PQ0. split; [done|]. by eapply rtc_r. Qed.

Lemma paired_comparable AB PQ ksA ksB : carried_run secret PQ -> linked info zero_keys A2B PQ.1 ksA AB.1 -> linked info zero_keys B2A PQ.2 ksB AB.2 ->
  ksA `prefix_of` ksB \/ ksB `prefix_of` ksA.
Proof.
  intros Hr [_ _ _ _ _ _ EA _ _] [_ _ _ _ _ _ EB _ _]. pose proof (proj1 (carried_run_first secret PQ Hsecret Hr)) as Hp.
  destruct (phase_outputs _ _ Hp) as (ks & o & E1 & E2). left. apply keys_of_prefix. rewrite <- EA, <- EB, E1, E2, keys_of_app. by apply prefix_app_r.
Qed.

Lemma driver_initial_paired AB : driver_initial secret info lim AB -> exists PQ, paired AB PQ.
Proof.
  intros (a & b & nA & nB & Ea & Eb & ->). pose proof (initial_wf _ _ _ _ _ _ _ _ _ _ _ Hlim Ea) as Wa. pose proof (initial_wf _ _ _ _ _ _ _ _ _ _ _ Hlim Eb) as Wb.
  unfold initializeSPQR, initializeSPQRBraid in Ea, Eb.
  destruct (InitAlice secret) as [ia|] eqn:Eia; [|done]. destruct (InitBob secret) as [ib|] eqn:Eib; [|done]. cbn [mbind result_bind] in Ea, Eb.
  unfold kdfSpqrInit in Ea, Eb. replace (len secret =? 32) with true in * by (symmetry; apply Z.eqb_eq; unfold len; lia).
  cbn [negb mbind result_bind default] in Ea, Eb. change (from_option id CHAIN_START (Some (chainStart info))) with (chainStart info) in Ea, Eb. fold zero_keys in Ea, Eb.
  injection Ea as <-. injection Eb as <-.
  exists ({| agent := ia; sent := []; outputs := [] |}, {| agent := ib; sent := []; outputs := [] |}). split.
  { exists ({| agent := ia; sent := []; outputs := [] |}, {| agent := ib; sent := []; outputs := [] |}). split; [|done]. exists ia, ib. done. }
  exists [], []. unfold zero_keys. split; (split; [done|done|done|by eexists|done| |done|constructor|by split; constructor]);
    (split; [done|done|done| |done]); intros e cs Hc; cbn in Hc; unfold initial_chains in Hc; apply lookup_singleton_Some in Hc as [<- <-];
    (split; [done|]); (split; [done|]); (split; [done|]); right; done.
Qed.

Lemma other_wires d P ks p w k : linked info zero_keys d P ks p -> (w, k) ∈ wires p -> wire_of info zero_keys d P ks (w, k).
Proof. intros [_ _ _ _ _ _ _ HW _] Hin. by apply (proj1 (Forall_forall _ _) HW). Qed.

(** Receiving on either side: the pair stays paired and the key is the one of
    the sender. *)
Lemma same_key_eq d ks2 ks' k r : ks2 `prefix_of` ks' \/ ks' `prefix_of` ks2 -> same_key info zero_keys d ks2 ks' k r -> r = k.
Proof.
  intros Hp [[-> ->]|(e & i & H1 & H2 & -> & ->)]; [done|]. f_equal. unfold spqr_message_key. f_equal.
  destruct Hp as [Hp|Hp]; [|symmetry]; apply chain_start_prefix; done || lia.
Qed.

Lemma paired_recv_l A B PQ w k now : paired (A, B) PQ -> (w, k) ∈ wires B ->
  (exists PQ', paired (peer_receive w now A, B) PQ') /\ forall s r, spqrRecv (Some w) now (spqr A) = (s, Ok r) -> recv_messageKey r = k.
Proof.
  intros (Hr & ksA & ksB & LA & LB) Hin. destruct PQ as [PA PB]. cbn [fst snd] in *.
  destruct (linked_peer_receive info zero_keys zero_keys_length A2B PA A ksA PB ksB w k now LA (other_wires _ _ _ _ _ _ LB Hin)) as (PA' & ks' & Hmv & LA' & Hkey).
  { intros m Hm Ht. apply (proj1 (carried_outputs (party_receive m PA, PB) (carried_once _ _ Hr (carried_recv_l m PA PB Hm Ht)))). }
  assert (Hr' : carried_run secret (PA', PB)).
  { destruct Hmv as [->|(m & Hm & Ht & ->)]; [done|]. by apply (carried_once _ _ Hr), carried_recv_l. }
  split; [exists (PA', PB); split; [done|]; by exists ks', ksB|]. intros s r E. eapply same_key_eq; [|by eapply Hkey].
  destruct (paired_comparable (peer_receive w now A, B) (PA', PB) ks' ksB Hr' LA' LB); auto.
Qed.

Lemma paired_recv_r A B PQ w k now : paired (A, B) PQ -> (w, k) ∈ wires A ->
  (exists PQ', paired (A, peer_receive w now B) PQ') /\ forall s r, spqrRecv (Some w) now (spqr B) = (s, Ok r) -> recv_messageKey r = k.
Proof.
  intros (Hr & ksA & ksB & LA & LB) Hin. destruct PQ as [PA PB]. cbn [fst snd] in *.
  destruct (linked_peer_receive info zero_keys zero_keys_length B2A PB B ksB PA ksA w k now LB (other_wires _ _ _ _ _ _ LA Hin)) as (PB' & ks' & Hmv & LB' & Hkey).
  { intros m Hm Ht. apply (proj2 (carried_outputs (PA, party_receive m PB) (carried_once _ _ Hr (carried_recv_r m PA PB Hm Ht)))). }
  assert (Hr' : carried_run secret (PA, PB')).
  { destruct Hmv as [->|(m & Hm & Ht & ->)]; [done|]. by apply (carried_once _ _ Hr), carried_recv_r. }
  split; [exists (PA, PB'); split; [done|]; by exists ksA, ks'|]. intros s r E. eapply same_key_eq; [|by eapply Hkey].
  destruct (paired_comparable (A, peer_receive w now B) (PA, PB') ksA ks' Hr' LA LB'); auto.
Qed.

Lemma step_paired AB AB' PQ : driver_step AB AB' -> paired AB PQ -> exists PQ', paired AB' PQ'.
Proof.
  intros [ready rb now A B Hrb|ready rb now A B Hrb|w now A B Hin|w now A B Hin] HP.
  - destruct HP as (Hr & ksA & ksB & LA & LB). destruct PQ as [PA PB]. pose proof (carried_once _ _ Hr (carried_send_l ready rb PA PB Hrb)) as Hr'.
    destruct (linked_send info zero_keys zero_keys_length A2B PA ksA A ready rb now LA (proj1 (carried_outputs _ Hr'))) as [ks' LA'].
    exists (party_send ready rb PA, PB). split; [done|]. by exists ks', ksB.
  - destruct HP as (Hr & ksA & ksB & LA & LB). destruct PQ as [PA PB]. pose proof (carried_once _ _ Hr (carried_send_r ready rb PA PB Hrb)) as Hr'.
    destruct (linked_send info zero_keys zero_keys_length B2A PB ksB B ready rb now LB (proj2 (carried_outputs _ Hr'))) as [ks' LB'].
    exists (PA, party_send ready rb PB). split; [done|]. by exists ksA, ks'.
  - apply list_elem_of_fmap in Hin as ([w' k] & -> & Hin). by eapply paired_recv_l.
  - apply list_elem_of_fmap in Hin as ([w' k] & -> & Hin). by eapply paired_recv_r.
Qed.

Lemma run_paired AB : driver_run secret info lim AB -> exists PQ, paired AB PQ.
Proof.
  intros (AB0 & H0 & Hr). apply driver_initial_paired in H0. induction Hr as [|x y z Hstep _ IH]; [done|]. apply IH.
  destruct H0 as [PQ HP]. by eapply step_paired.
Qed.

(** The epochs of the two drivers. *)
Lemma paired_epochs AB PQ : paired AB PQ ->
  sp_epoch (spqr AB.1) <= 1 /\ sp_epoch (spqr AB.2) <= 1 /\
  (exists a, braidState (spqr AB.1) = Some a /\ epoch a <= 2) /\ (exists b, braidState (spqr AB.2) = Some b /\ epoch b = 1 /\ isInAliceRole b = false).
Proof.
  intros (Hr & ksA & ksB & LA & LB). pose proof (carried_run_first secret PQ Hsecret Hr) as Hf.
  destruct (first_epoch_bounds PQ Hf) as (EB & EA & OA & OB & RB). destruct LA as [LA1 _ _ _ _ LA6 LA7 _ _], LB as [LB1 _ _ _ _ LB6 LB7 _ _].
  rewrite (proj1 (kd_epoch _ _ _ _ LA6)), (proj1 (kd_epoch _ _ _ _ LB6)). rewrite LA7 in OA. rewrite LB7 in OB. unfold keys_of in OA, OB. rewrite length_imap in OA, OB.
  split; [unfold len; lia|]. split; [unfold len; lia|]. split; [exists (agent PQ.1); split; [done|lia]|]. by exists (agent PQ.2).
Qed.
End Pair.
