(* ===== verification/SpqrToy.v ===== *)
(** * Small instances of ML-KEM and of SPQR for the witnesses *)
From S2P Require Import Prelude Crypto DoubleRatchet RatchetToy GaloisField Lagrange ErasureCodec BraidState BraidAuth Braid BraidInv BraidSystem SpqrWire SpqrState Spqr SpqrInv SpqrKeys SpqrSystem.

(** ** A small instance of ML-KEM for the witnesses

    Not cryptography: the ciphertext carries the message in the clear.  It has
    the sizes of ML-KEM-768 and decapsulation returns what was encapsulated. *)
#[export] Instance toy_kem : MLKEM768 := {|
  sha3_256 b := pad 32 (map (fun x => x mod 256) b);
  mlkem_keygen r := (replicate 2400 1, replicate 32 2, replicate 1152 3);
  mlkem_encaps1 s h m := Ok (m, map (fun x => x mod 256) m ++ replicate 928 5, map (fun x => x mod 256) m);
  mlkem_encaps2 es s v h := Ok (replicate 128 6);
  mlkem_decaps d c1 c2 := Ok (take 32 c1) |}.

Lemma mod_bytes l : is_bytes (map (fun x => x mod 256) l).
Proof.
  apply Forall_forall. intros x Hx. apply list_elem_of_fmap in Hx as (y & -> & _). unfold is_byte.
  pose proof (Z.mod_pos_bound y 256). lia.
Qed.

Lemma replicate_bytes n x : is_byte x -> is_bytes (replicate n x).
Proof. intros Hx. by apply Forall_replicate. Qed.

#[export] Instance toy_kem_laws : MLKEM768Laws toy_kem.
Proof.
  split; cbn [sha3_256 mlkem_keygen mlkem_encaps1 mlkem_encaps2 mlkem_decaps toy_kem computeHek].
  - intros. apply pad_length.
  - intros. apply pad_bytes, mod_bytes.
  - intros r Hr. repeat split; try (apply replicate_bytes; unfold is_byte; lia); unfold len; by rewrite length_replicate.
  - intros r m Hr Hm. do 4 eexists. do 2 (split; [reflexivity|]).
    split; [by rewrite take_app_le, take_ge by (rewrite length_map; lia)|].
    unfold len. rewrite length_app, length_map, !length_replicate, Hm. do 3 (split; [done|]).
    split; [apply Forall_app; split; [apply mod_bytes|]|]; apply replicate_bytes; unfold is_byte; lia.
Qed.

Definition toy_random (n : nat) : bytes := replicate n 4.
Definition toy_secret : bytes := replicate 32 9.

Definition toy_party (r : result Agent) : Party :=
  match r with
  | Ok a => {| agent := a; sent := []; outputs := [] |}
  | Throw _ => {| agent := new_agent KeysUnsampled {| root_key := []; mac_key := [] |} None; sent := []; outputs := [] |}
  end.
Definition toy_alice : Party := toy_party (InitAlice toy_secret).
Definition toy_bob : Party := toy_party (InitBob toy_secret).

(** *** A schedule that delivers every message at once *)
Definition newest (f : MLKEMBraidMessage -> Party -> Party) (from p : Party) : Party :=
  match last (sent from) with Some m => f m p | None => p end.

Definition exchange (AB : Party * Party) : Party * Party :=
  let A := party_send true toy_random AB.1 in
  let B := newest party_receive A AB.2 in
  let B := party_send true toy_random B in
  (newest party_receive B A, B).

Lemma toy_initial : initial toy_secret (toy_alice, toy_bob).
Proof. do 2 eexists. split; [vm_compute; reflexivity|]. split; vm_compute; reflexivity. Qed.

Lemma exchange_run AB : run toy_secret AB -> run toy_secret (exchange AB).
Proof.
  intros (AB0 & H0 & Hr). exists AB0. split; [done|]. etransitivity; [exact Hr|]. clear Hr H0.
  assert (Hrand : good_random toy_random) by (intros n; apply length_replicate).
  destruct AB as [A B]. unfold exchange, newest. cbn [fst snd].
  eapply rtc_l; [by apply (step_send_l true toy_random)|].
  set (A1 := party_send _ _ A). destruct (last (sent A1)) as [m|] eqn:E.
  - eapply rtc_l; [apply (step_recv_r m); by apply last_Some_elem_of|].
    eapply rtc_l; [by apply (step_send_r true toy_random)|].
    set (B1 := party_send _ _ _). destruct (last (sent B1)) as [m'|] eqn:E'; [|done].
    apply rtc_once, (step_recv_l m'). by apply last_Some_elem_of.
  - eapply rtc_l; [by apply (step_send_r true toy_random)|].
    set (B1 := party_send _ _ _). destruct (last (sent B1)) as [m'|] eqn:E'; [|done].
    apply rtc_once, (step_recv_l m'). by apply last_Some_elem_of.
Qed.

Definition toy_pair (n : nat) : Party * Party := Nat.iter n exchange (toy_alice, toy_bob).

Lemma toy_run n : run toy_secret (toy_pair n).
Proof. induction n as [|n IH]; [exists (toy_alice, toy_bob); split; [apply toy_initial|done]|]. by apply exchange_run. Qed.

(** The delivery that completes the first epoch: after 42 exchanges, the next
    message of the encapsulator. *)
Definition toy_last_bob : Party :=
  let A := party_send true toy_random (toy_pair 42).1 in
  party_send true toy_random (newest party_receive A (toy_pair 42).2).
Definition no_message : MLKEMBraidMessage := {| m_epoch := 0; m_type := NoneMsg; m_chunkIndex := None; m_data := None |}.
Definition toy_last_message : MLKEMBraidMessage := default no_message (last (sent toy_last_bob)).
Definition toy_last_alice : Agent := agent (party_send true toy_random (toy_pair 42).1).

(** ** A small instance for the witnesses of SPQR

    Not cryptography; the toy Kyber has the sizes of ML-KEM-768 and its
    decapsulation returns what was encapsulated. *)
(** What the code relies on of ML-KEM-768. *)
Class Kyber768Laws (Q : Kyber768) : Prop := {
  k768_correct : forall r m, length r = 64%nat -> length m = 32%nat -> let '(pk, sk) := k768_keygen r in
    len pk = KYBER_768_PUBLIC_KEY_BYTES /\ len sk = KYBER_768_SECRET_KEY_BYTES /\
    exists ss ct, k768_encapsulate pk m = Ok (ss, ct) /\ k768_decapsulate ct sk = Ok ss /\ len ss = 32 /\ len ct = KYBER_768_CIPHERTEXT_BYTES }.

#[export] Instance toy_kyber : Kyber768 := {|
  k768_keygen r := (replicate 1184 1, replicate 2400 2);
  k768_encapsulate pk m := Ok (m, m ++ replicate 1056 0);
  k768_decapsulate ct sk := Ok (take 32 ct) |}.

#[export] Instance toy_kyber_laws : Kyber768Laws toy_kyber.
Proof.
  split. intros r m Hr Hm. cbn [k768_keygen k768_encapsulate k768_decapsulate toy_kyber]. do 2 (split; [unfold len; by rewrite length_replicate|]). exists m, (m ++ replicate 1056 0).
  split; [done|]. split; [by rewrite take_app_le, take_ge by lia|]. unfold len. rewrite length_app, length_replicate, Hm. done.
Qed.

Definition toy_info : ResolvedSPQRInfoStrings := resolveSPQRInfoStrings None None None None.

Definition toy_spqr (m : SCKAMode) (d : Direction) : result SPQRState := initializeSPQR m toy_secret d None None V1 V1 toy_info SPQR_LIMITS_DEFAULTS 0.

Definition toy_state (r : result SPQRState) : SPQRState :=
  match r with
  | Ok s => s
  | Throw _ => {| RK := []; sp_epoch := 0; sendEpoch := None; kdfChains := ∅; MKSKIPPED := ∅; direction := A2B;
      sckaState := initial_scka A2B None None 0; mode := DirectMode; braidState := None; pendingOutgoingChunks := None;
      versionNegotiation := None; infoStrings := None; limits := None; needsSendRatchet := false |}
  end.

Definition toy_peers : Peer * Peer := (start (toy_state (toy_spqr BraidMode A2B)), start (toy_state (toy_spqr BraidMode B2A))).

Lemma toy_spqr_ok d : toy_spqr BraidMode d = Ok (toy_state (toy_spqr BraidMode d)).
Proof.
  unfold toy_spqr, initializeSPQR, initializeSPQRBraid, InitAlice, InitBob, initAuthenticatorState, auth_Init, auth_Update, KDF_AUTH, kdfSpqrInit.
  by destruct d.
Qed.

Lemma toy_driver_initial : driver_initial toy_secret toy_info SPQR_LIMITS_DEFAULTS toy_peers.
Proof. exists (toy_state (toy_spqr BraidMode A2B)), (toy_state (toy_spqr BraidMode B2A)), 0, 0. split; [apply toy_spqr_ok|]. split; [apply toy_spqr_ok|done]. Qed.

(** Each peer sends and the newest bytes are delivered at once. *)
Definition deliver_last (from p : Peer) : Peer := match last (wires from) with Some wk => peer_receive wk.1 0 p | None => p end.
Definition peers_exchange (AB : Peer * Peer) : Peer * Peer :=
  let A := peer_send true toy_random 0 AB.1 in
  let B := deliver_last A AB.2 in
  let B := peer_send true toy_random 0 B in
  (deliver_last B A, B).

Definition toy_drivers (n : nat) : Peer * Peer := Nat.iter n peers_exchange toy_peers.

Lemma peers_exchange_steps AB : rtc driver_step AB (peers_exchange AB).
Proof.
  assert (Hrand : good_random toy_random) by (intros n; apply length_replicate).
  assert (Hl : forall A B, rtc driver_step (A, B) (deliver_last B A, B)).
  { intros A B. unfold deliver_last. destruct (last (wires B)) as [wk|] eqn:E; [|done]. apply rtc_once, (driver_recv_l wk.1).
    apply list_elem_of_fmap. exists wk. split; [done|]. by apply last_Some_elem_of. }
  assert (Hr : forall A B, rtc driver_step (A, B) (A, deliver_last A B)).
  { intros A B. unfold deliver_last. destruct (last (wires A)) as [wk|] eqn:E; [|done]. apply rtc_once, (driver_recv_r wk.1).
    apply list_elem_of_fmap. exists wk. split; [done|]. by apply last_Some_elem_of. }
  destruct AB as [A B]. unfold peers_exchange. cbn [fst snd].
  eapply rtc_l; [by apply (driver_send_l true toy_random 0)|]. etransitivity; [apply Hr|].
  eapply rtc_l; [by apply (driver_send_r true toy_random 0)|]. apply Hl.
Qed.

Lemma toy_driver_run n : driver_run toy_secret toy_info SPQR_LIMITS_DEFAULTS (toy_drivers n).
Proof.
  exists toy_peers. split; [apply toy_driver_initial|]. induction n as [|n IH]; [done|]. etransitivity; [exact IH|]. apply peers_exchange_steps.
Qed.
