(* ===== verification/SpqrTheorems.v ===== *)
(** * Properties of SPQR *)
From S2P Require Import Prelude Crypto DoubleRatchet RatchetToy GaloisField Lagrange ErasureCodec BraidState BraidAuth Braid BraidInv BraidSystem SpqrToy SpqrWire SpqrState Spqr SpqrInv SpqrKeys SpqrSystem.

(** C5: SPQR key agreement.  Two drivers in braid mode start from one secret
    and exchange messages over a network that loses, repeats and reorders them.
    Whenever a driver accepts bytes that the other has sent, the message key it
    derives is the one that the sender used; it derives none exactly if the
    sender had none. *)
Theorem spqr_keys_agree {H : HashFunctions} {HL : HashLaws H} {K : MLKEM768} {KL : MLKEM768Laws K} {Q : Kyber768}
    secret info lim A B w k now s r :
  length secret = 32%nat -> 0 <= maxOutOfOrderKeys lim -> driver_run secret info lim (A, B) ->
  ((w, k) ∈ wires B /\ spqrRecv (Some w) now (spqr A) = (s, Ok r)) \/
  ((w, k) ∈ wires A /\ spqrRecv (Some w) now (spqr B) = (s, Ok r)) -> recv_messageKey r = k.
Proof.
  intros Hs Hl Hr Hm. destruct (run_paired secret Hs info lim Hl (A, B) Hr) as [PQ HP]. destruct Hm as [[Hin E]|[Hin E]].
  - by apply (proj2 (paired_recv_l secret Hs info A B PQ w k now HP Hin) s).
  - by apply (proj2 (paired_recv_r secret Hs info A B PQ w k now HP Hin) s).
Qed.

(** The second message of Bob, which Alice has not yet received. *)
Definition toy_wire : bytes * option bytes :=
  default ([], None) (last (wires (peer_send true toy_random 0 (toy_drivers 3).2))).
Definition toy_bob_ahead : Peer * Peer := ((toy_drivers 3).1, peer_send true toy_random 0 (toy_drivers 3).2).

Definition result_or {A} (d : A) (r : result A) : A := match r with Ok a => a | Throw _ => d end.
Definition toy_received : SPQRRecvResult :=
  result_or {| recv_messageKey := None |} (spqrRecv (Some toy_wire.1) 0 (spqr toy_bob_ahead.1)).2.

Lemma toy_ahead_run : driver_run toy_secret toy_info SPQR_LIMITS_DEFAULTS toy_bob_ahead.
Proof.
  destruct (toy_driver_run 3) as (AB0 & Hi & Hr). exists AB0. split; [done|]. eapply rtc_r; [exact Hr|].
  unfold toy_bob_ahead. rewrite (surjective_pairing (toy_drivers 3)) at 1. apply driver_send_r. intros n. apply length_replicate.
Qed.

Lemma spqr_keys_agree_witness : recv_messageKey toy_received = toy_wire.2 /\ present_ toy_wire.2 = true.
Proof.
  split; [|vm_compute; reflexivity].
  apply (spqr_keys_agree toy_secret toy_info SPQR_LIMITS_DEFAULTS toy_bob_ahead.1 toy_bob_ahead.2 toy_wire.1 toy_wire.2 0
    (spqrRecv (Some toy_wire.1) 0 (spqr toy_bob_ahead.1)).1 toy_received); [reflexivity|vm_compute; discriminate| |].
  - rewrite <- surjective_pairing. apply toy_ahead_run.
  - left. split.
    + rewrite <- surjective_pairing. apply last_Some_elem_of. vm_compute. reflexivity.
    + assert (E : (spqrRecv (Some toy_wire.1) 0 (spqr toy_bob_ahead.1)).2 = Ok toy_received) by (vm_compute; reflexivity).
      rewrite <- E. apply surjective_pairing.
Defined.

(** C27: no replay.  In every run of two drivers, a driver is given a message key
    for the same bytes at most once. *)
Theorem spqr_accepted_once {H : HashFunctions} {HL : HashLaws H} {K : MLKEM768} {KL : MLKEM768Laws K} {Q : Kyber768} secret info lim A B :
  length secret = 32%nat -> 0 <= maxOutOfOrderKeys lim -> driver_run secret info lim (A, B) -> NoDup (accepted A) /\ NoDup (accepted B).
Proof.
  intros Hs Hl Hr. destruct (run_paired secret Hs info lim Hl (A, B) Hr) as (PQ & _ & ksA & ksB & LA & LB).
  split; [apply (lk_once _ _ _ _ _ _ LA)|apply (lk_once _ _ _ _ _ _ LB)].
Qed.

Lemma spqr_accepted_once_witness : (NoDup (accepted (toy_drivers 5).1) /\ NoDup (accepted (toy_drivers 5).2)) /\ length (accepted (toy_drivers 5).1) = 5%nat.
Proof.
  split; [|vm_compute; reflexivity]. apply (spqr_accepted_once toy_secret toy_info SPQR_LIMITS_DEFAULTS); [reflexivity|vm_compute; discriminate|].
  rewrite <- surjective_pairing. apply toy_driver_run.
Defined.

(** C14: the post-quantum ratchet stops after one epoch.  [spqrSend] does not put
    messages of type [None] on the wire and [spqrRecv] gives none to the state
    machine, but they are how the encapsulator of an epoch learns that the next
    one has begun.  In every run, however long, no driver gets beyond epoch 1, and
    the Braid agent of the responder never leaves its first epoch. *)
Theorem spqr_stops_after_one_epoch {H : HashFunctions} {HL : HashLaws H} {K : MLKEM768} {KL : MLKEM768Laws K} {Q : Kyber768} secret info lim A B :
  length secret = 32%nat -> 0 <= maxOutOfOrderKeys lim -> driver_run secret info lim (A, B) ->
  sp_epoch (spqr A) <= 1 /\ sp_epoch (spqr B) <= 1 /\
  (exists a, braidState (spqr A) = Some a /\ epoch a <= 2) /\
  (exists b, braidState (spqr B) = Some b /\ epoch b = 1 /\ isInAliceRole b = false).
Proof.
  intros Hs Hl Hr. destruct (run_paired secret Hs info lim Hl (A, B) Hr) as [PQ HP].
  exact (paired_epochs secret Hs info (A, B) PQ HP).
Qed.

Lemma spqr_stops_after_one_epoch_witness : sp_epoch (spqr (toy_drivers 60).1) <= 1 /\ sp_epoch (spqr (toy_drivers 60).2) <= 1 /\
  (exists a, braidState (spqr (toy_drivers 60).1) = Some a /\ epoch a <= 2) /\
  (exists b, braidState (spqr (toy_drivers 60).2) = Some b /\ epoch b = 1 /\ isInAliceRole b = false).
Proof.
  apply (spqr_stops_after_one_epoch toy_secret toy_info SPQR_LIMITS_DEFAULTS); [reflexivity|vm_compute; discriminate|].
  rewrite <- surjective_pairing. apply toy_driver_run.
Defined.

(** C35: bounded storage.  Whatever is sent, received (hostile bytes included),
    replayed or thrown, in either mode, each epoch holds at most
    [skippedKeyTrimSize - 1] keys (2200 by default), and each of them has an index
    that its receive chain has passed. *)
Theorem spqr_held_keys_bounded {H : HashFunctions} {K : MLKEM768} {Q : Kyber768} m secret d our their maxV minV info lim now s0 ops :
  0 <= maxOutOfOrderKeys lim -> initializeSPQR m secret d our their maxV minV info lim now = Ok s0 ->
  let s := foldl apply_op s0 ops in
  (forall e, held_count e (MKSKIPPED s) <= skippedKeyTrimSize (limit_ooo s) - 1) /\
  (forall e i k, MKSKIPPED s !! (e, i) = Some k -> exists cs, kdfChains s !! e = Some cs /\ 1 <= i < N (receive cs)).
Proof.
  intros Hl Hi s. assert (HW : wf s).
  { apply ops_keep; [apply wf_invariant|apply addEpoch_wf|]. by eapply initial_wf. }
  split; [|apply (wf_held s HW)]. intros e. pose proof (wf_count s HW e). lia.
Qed.

Lemma spqr_held_keys_bounded_witness :
  let s := foldl apply_op (toy_state (toy_spqr BraidMode A2B)) [OpRecv (Some toy_wire.1) 7; OpRecv (Some [1; 1; 200; 1; 0]) 8] in
  (forall e, held_count e (MKSKIPPED s) <= skippedKeyTrimSize (limit_ooo s) - 1) /\
  (forall e i k, MKSKIPPED s !! (e, i) = Some k -> exists cs, kdfChains s !! e = Some cs /\ 1 <= i < N (receive cs)).
Proof.
  apply (spqr_held_keys_bounded BraidMode toy_secret A2B None None V1 V1 toy_info SPQR_LIMITS_DEFAULTS 0).
  - vm_compute. discriminate.
  - apply (toy_spqr_ok A2B).
Defined.

(** out-of-order delivery.  If index [j] is received first, an earlier index
    [i] of the same epoch within the limit is afterwards received with exactly
    the key that it would have given before. *)
Theorem spqr_out_of_order {H : HashFunctions} {HL : HashLaws H} i j e now now' s s' kj cs :
  wf s -> kdfChains s !! e = Some cs -> len (CK (receive cs)) = 32 -> N (receive cs) < i < j -> j <= i + limit_ooo s ->
  deriveSPQRReceiveKey j e now s = (s', Ok (Some kj)) ->
  exists k s1 s2, deriveSPQRReceiveKey i e now' s' = (s1, Ok (Some k)) /\ deriveSPQRReceiveKey i e now' s = (s2, Ok (Some k)).
Proof. apply (out_of_order HL). Qed.

Definition toy_open : SPQRState := (recv_version 1 (toy_state (toy_spqr BraidMode A2B))).1.

Lemma toy_open_wf : wf toy_open.
Proof.
  unfold toy_open. apply (recv_version_keeps wf wf_invariant 1). eapply (initial_wf BraidMode); [|apply (toy_spqr_ok A2B)]. vm_compute. discriminate.
Qed.

Lemma spqr_out_of_order_witness : exists k s1 s2,
  deriveSPQRReceiveKey 2 0 0 (deriveSPQRReceiveKey 5 0 0 toy_open).1 = (s1, Ok (Some k)) /\ deriveSPQRReceiveKey 2 0 0 toy_open = (s2, Ok (Some k)).
Proof.
  apply (spqr_out_of_order 2 5 0 0 0 toy_open (deriveSPQRReceiveKey 5 0 0 toy_open).1
    (default [] (result_or None (deriveSPQRReceiveKey 5 0 0 toy_open).2))
    (default {| send := {| CK := []; N := 0 |}; receive := {| CK := []; N := 0 |} |} (kdfChains toy_open !! 0)) toy_open_wf);
    [vm_compute; reflexivity|vm_compute; reflexivity|vm_compute; split; reflexivity|vm_compute; discriminate|].
  assert (E : (deriveSPQRReceiveKey 5 0 0 toy_open).2 = Ok (Some (default [] (result_or None (deriveSPQRReceiveKey 5 0 0 toy_open).2))))
    by (vm_compute; reflexivity).
  rewrite <- E. apply surjective_pairing.
Defined.

(** Failed operations change nothing.  A receive-key derivation that throws
    leaves the whole state as it was, and so does an epoch addition. *)
Theorem spqr_failures_atomic {H : HashFunctions} s s' x :
  (forall index e now, deriveSPQRReceiveKey index e now s = (s', Throw x) -> s' = s) /\
  (forall k chains expected now, addSPQREpochSecret k chains expected now s = (s', Throw x) -> s' = s) /\
  (forall k chains now, addSPQRBraidEpoch k chains now s = (s', Throw x) -> s' = s).
Proof.
  assert (HA : forall k chains expected now, addSPQREpochSecret k chains expected now s = (s', Throw x) -> s' = s).
  { intros k chains expected now. unfold addSPQREpochSecret, M_bind, inspect. destruct (prepareSPQREpoch _ _ _ _ s); [|by intros [= <- _]].
    unfold commitSPQREpoch. case_if; [by intros [= <- _]|done]. }
  split; [intros index e now; apply receive_key_fail|]. split; [done|]. intros k chains now. unfold addSPQRBraidEpoch, M_bind at 1, inspect.
  destruct (getNextSPQREpoch s); [|by intros [= <- _]]. case_if; [by intros [= <- _]|]. apply HA.
Qed.

Lemma spqr_failures_atomic_witness :
  (deriveSPQRReceiveKey 30000 0 7 toy_open).1 = toy_open /\ (addSPQREpochSecret (replicate 31 1) Both 1 7 toy_open).1 = toy_open.
Proof.
  assert (E1 : (deriveSPQRReceiveKey 30000 0 7 toy_open).2 = Throw (EncryptionError "SPQR_MESSAGE_JUMP_TOO_LARGE")) by (vm_compute; reflexivity).
  assert (E2 : (addSPQREpochSecret (replicate 31 1) Both 1 7 toy_open).2 = Throw (EncryptionError "INVALID_STATE")) by (vm_compute; reflexivity).
  split.
  - apply (spqr_failures_atomic toy_open _ (EncryptionError "SPQR_MESSAGE_JUMP_TOO_LARGE")) with (index := 30000) (e := 0) (now := 7).
    rewrite <- E1. apply surjective_pairing.
  - apply (spqr_failures_atomic toy_open _ (EncryptionError "INVALID_STATE")) with (k := replicate 31 1) (chains := Both) (expected := 1) (now := 7).
    rewrite <- E2. apply surjective_pairing.
Defined.

(** Concurrent epoch additions.  Two additions that derived their candidates
    from the same state and commit one after the other: the first takes effect,
    the second throws and leaves the first one's result. *)
Theorem spqr_epoch_added_once {H : HashFunctions} s k1 k2 sel1 sel2 x1 x2 now1 now2 c1 c2 :
  prepareSPQREpoch k1 sel1 x1 now1 s = Ok c1 -> prepareSPQREpoch k2 sel2 x2 now2 s = Ok c2 ->
  exists s1, commitSPQREpoch c1 s = (s1, Ok tt) /\ sp_epoch s1 = sp_epoch s + 1 /\ scka_epoch (sckaState s1) = sp_epoch s1 /\
    commitSPQREpoch c2 s1 = (s1, Throw (EncryptionError "INVALID_STATE")).
Proof.
  intros E1 E2. destruct (prepare_fresh _ _ _ _ _ _ E1) as [[_ Hn1] Hc1]. destruct (prepare_fresh _ _ _ _ _ _ E2) as [_ Hc2].
  assert (Hs : scka_epoch (sckaState s) = sp_epoch s /\ RK s = ec_currentRootKey c1).
  { unfold prepareSPQREpoch in E1. destruct (getNextSPQREpoch s); [|done]. cbn [mbind result_bind] in E1. case_if_in E1; [done|]. case_if_in E1; [done|].
    do 2 (case_if_in E1; [done|]). destruct (kdfSpqrEpoch _ _ _); [|done]. cbn [mbind result_bind] in E1. injection E1 as <-. b2p. done. }
  destruct Hs as [Hs Hr]. unfold commitSPQREpoch at 1. rewrite Hs, Hc1, Z.eqb_refl, <- Hr, bool_decide_true by done. cbn [negb orb].
  eexists. split; [reflexivity|]. cbn [sp_epoch sckaState scka_epoch with_scka with_chains with_root set_refresh]. split; [lia|]. split; [done|].
  unfold commitSPQREpoch. cbn [sp_epoch sckaState scka_epoch with_scka with_chains with_root set_refresh]. replace (_ =? ec_currentEpoch c2) with false by lia. done.
Qed.

Definition toy_candidate (k : bytes) : EpochCandidate :=
  result_or {| ec_currentEpoch := 0; ec_currentRootKey := []; ec_nextEpoch := 0; ec_rootKey := [];
    ec_chains := {| send := {| CK := []; N := 0 |}; receive := {| CK := []; N := 0 |} |}; ec_now := 0 |} (prepareSPQREpoch k Both 1 0 toy_open).

Lemma spqr_epoch_added_once_witness : exists s1, commitSPQREpoch (toy_candidate (replicate 32 1)) toy_open = (s1, Ok tt) /\
  sp_epoch s1 = 1 /\ scka_epoch (sckaState s1) = sp_epoch s1 /\
  commitSPQREpoch (toy_candidate (replicate 32 2)) s1 = (s1, Throw (EncryptionError "INVALID_STATE")).
Proof.
  change 1 with (sp_epoch toy_open + 1) at 2.
  apply (spqr_epoch_added_once toy_open (replicate 32 1) (replicate 32 2) Both Both 1 1 0 0); vm_compute; reflexivity.
Defined.

(** C36: termination of [spqrBraidSend].  On a braid session the collecting loop
    returns within [MAX_CHUNKS_PER_SEND] rounds, with at most that many chunks,
    unless the agent is in [EkSentCt1Received]: there it never returns, since the
    acknowledgements of that state carry no data and the bound counts chunks. *)
Theorem spqrBraidSend_termination {H : HashFunctions} {K : MLKEM768} {Q : Kyber768} ready rb s b :
  mode s = BraidMode -> braidState s = Some b ->
  if decide (state b = EkSentCt1Received)
  then forall fuel, spqrBraidSend fuel ready rb s = None
  else exists s' r, spqrBraidSend (Z.to_nat MAX_CHUNKS_PER_SEND) ready rb s = Some (s', r) /\
    forall c, r = Ok c -> len (cr_chunks c) <= MAX_CHUNKS_PER_SEND.
Proof.
  intros Hm Hb. unfold spqrBraidSend. rewrite Hm, Hb. destruct (decide (state b = EkSentCt1Received)) as [Hs|Hs].
  - intros fuel. by rewrite loop_diverges.
  - destruct (loop_returns ready rb (Z.to_nat MAX_CHUNKS_PER_SEND) 0 [] None b Hs) as (b' & r & E & Hc); [done|unfold MAX_CHUNKS_PER_SEND; lia|].
    rewrite E. by exists (with_braid (Some b') s), r.
Qed.

Definition toy_agent (s : SPQRState) : Agent := default (new_agent KeysUnsampled {| root_key := []; mac_key := [] |} None) (braidState s).
Definition toy_stuck : SPQRState := with_braid (Some (set_state EkSentCt1Received (toy_agent toy_open))) toy_open.

Lemma spqrBraidSend_termination_witness :
  (exists s' r, spqrBraidSend 100 true (fun _ => toy_random) toy_open = Some (s', r) /\ forall c, r = Ok c -> len (cr_chunks c) <= 100) /\
  (forall fuel, spqrBraidSend fuel true (fun _ => toy_random) toy_stuck = None).
Proof.
  split.
  - apply (spqrBraidSend_termination true (fun _ => toy_random) toy_open (toy_agent toy_open)); vm_compute; reflexivity.
  - apply (spqrBraidSend_termination true (fun _ => toy_random) toy_stuck (set_state EkSentCt1Received (toy_agent toy_open))); vm_compute; reflexivity.
Defined.

(** C33: the KEM step of direct mode.  Peers that share a root key and an epoch:
    the one that ratchets and the one that decapsulates its ciphertext again share
    both, the sender's send chain of the new epoch is the receiver's receive
    chain, and the receiver cannot send in that epoch before it has ratcheted
    itself. *)
Theorem direct_ratchet_agrees {H : HashFunctions} {HL : HashLaws H} {K : MLKEM768} {Q : Kyber768} {QL : Kyber768Laws Q} A B seed rb nowA nowB :
  in_step A B -> sp_epoch A < MAX_SAFE_INTEGER -> good_random rb -> length seed = 64%nat -> mode A = DirectMode -> mode B = DirectMode ->
  theirKyberPublicKey (sckaState A) = Some (k768_keygen seed).1 -> ourKyberPrivateKey (sckaState B) = Some (k768_keygen seed).2 ->
  kdfChains B !! (sp_epoch B + 1) = None ->
  exists A' B' r ct, performDirectRatchetStep rb nowA A = (A', Ok r) /\ kyberCiphertextToSend r = Some ct /\
    processSPQRReceivedCiphertext ct nowB B = (B', Ok tt) /\ in_step A' B' /\ sp_epoch A' = sp_epoch A + 1 /\
    exists ca cb, kdfChains A' !! sp_epoch A' = Some ca /\ kdfChains B' !! sp_epoch A' = Some cb /\
      send ca = receive cb /\ (step_send_chain (sp_epoch A') B').2 = Throw (EncryptionError "INVALID_STATE").
Proof.
  intros HS Hmax Hrb Hseed HmA HmB Hpk Hsk Hnone. pose proof HS as [[HR HRl] (HE1 & HE2 & HE3 & HE4) HD HI].
  pose proof (k768_correct seed (rb 32%nat) Hseed (Hrb 32%nat)) as Hk. destruct (k768_keygen seed) as [pk sk]. cbn [fst snd] in Hpk, Hsk.
  destruct Hk as (Lpk & Lsk & ss & ct & Ee & Ed & Lss & Lct).
  set (A1 := with_scka (set_our_key (generateKyber768KeyPair rb).2 (sckaState A)) A).
  set (es := hkdf ss (replicate 32 0) (buildKdfInfo ":SCKA Key" (sp_epoch A + 1)) 32).
  assert (Les : len es = 32) by (unfold es, len; by rewrite hkdf_length).
  destruct (add_epoch_run A1 es Both nowA Les HRl HE2 (conj HE4 Hmax)) as (A' & ca & EA & RA & PA & SA & DA & IA & CA & RcA & ScA & _).
  destruct (add_epoch_run B es ReceiveOnly nowB Les) as (B' & cb & EB & RB & PB & SB & DB & IB & CB & RcB & _ & ScB); [congruence|done|lia|].
  change (sp_epoch A1) with (sp_epoch A) in *. change (infoStrings A1) with (infoStrings A) in *. change (direction A1) with (direction A) in *. change (RK A1) with (RK A) in *.
  assert (HadvA : advanceSPQREpochFromRawSecret ss Both nowA A1 = (A', Ok tt)) by (by apply (advance_run A1 ss Both nowA es A' Lss HRl (conj HE4 Hmax))).
  assert (HadvB : advanceSPQREpochFromRawSecret ss ReceiveOnly nowB B = (B', Ok tt)).
  { apply (advance_run B ss ReceiveOnly nowB es B'); [done|congruence|lia|unfold es; by rewrite HE1|done]. }
  eexists A', B', _, ct. split; [apply (direct_step_run A pk ss ct rb nowA A'); [done|done|done|exact Ee|exact HadvA]|]. split; [done|].
  split; [apply (process_run B sk ss ct nowB B'); try done; [lia|congruence]|].
  split.
  { split; [|split; [congruence|split; [congruence|split; [done|]]]| |].
    - rewrite RA, RB, HR, HI. split; [done|]. unfold len. cbn. by rewrite length_take, hkdf_length.
    - lia.
    - congruence.
    - congruence. }
  split; [done|]. exists ca, cb. rewrite PA. split; [done|]. split; [by rewrite HE1|]. split.
  - rewrite (ScA eq_refl), RcB, HD, HR, HI. f_equal. by destruct (direction A).
  - unfold step_send_chain. unfold M_bind at 1, M_get. rewrite HE1, CB. cbn zeta. rewrite bool_decide_true; [done|]. by apply ScB.
Qed.

Definition toy_direct_a : SPQRState :=
  toy_state (initializeSPQR DirectMode toy_secret A2B None (Some (k768_keygen (replicate 64 0)).1) V1 V1 toy_info SPQR_LIMITS_DEFAULTS 0).
Definition toy_direct_b : SPQRState :=
  toy_state (initializeSPQR DirectMode toy_secret B2A (Some (k768_keygen (replicate 64 0)).2) None V1 V1 toy_info SPQR_LIMITS_DEFAULTS 0).

Lemma direct_ratchet_agrees_witness :
  exists A' B' r ct, performDirectRatchetStep toy_random 1 toy_direct_a = (A', Ok r) /\ kyberCiphertextToSend r = Some ct /\
    processSPQRReceivedCiphertext ct 2 toy_direct_b = (B', Ok tt) /\ in_step A' B' /\ sp_epoch A' = sp_epoch toy_direct_a + 1 /\
    exists ca cb, kdfChains A' !! sp_epoch A' = Some ca /\ kdfChains B' !! sp_epoch A' = Some cb /\
      send ca = receive cb /\ (step_send_chain (sp_epoch A') B').2 = Throw (EncryptionError "INVALID_STATE").
Proof.
  apply (direct_ratchet_agrees toy_direct_a toy_direct_b (replicate 64 0) toy_random 1 2); try (vm_compute; reflexivity).
  - split; vm_compute; repeat split; discriminate.
  - intros n. apply length_replicate.
Defined.
