(* ===== verification/BraidTheorems.v ===== *)
(** * Properties of the ML-KEM Braid *)
From S2P Require Import Prelude Crypto GaloisField Lagrange ErasureCodec BraidState BraidAuth Braid BraidInv BraidSides BraidSystem BraidTable BraidBurst BraidLiveness DoubleRatchet RatchetToy SpqrToy.

(** C6: key agreement.  From one shared secret, under any loss, repetition and
    reordering of the messages that the parties send, the keys they output are
    those of the epochs 1, 2, ..., each once and in this order, and one party's
    list is a prefix of the other's: two keys output for one epoch are
    equal. *)
Theorem braid_agreement {H : HashFunctions} {HL : HashLaws H} {K : MLKEM768} {KL : MLKEM768Laws K} secret A B :
  length secret = 32%nat -> run secret (A, B) ->
  (outputs A `prefix_of` outputs B \/ outputs B `prefix_of` outputs A) /\
  (forall i k, outputs A !! i = Some k -> ok_epoch k = Z.of_nat i + 1) /\
  (forall i k, outputs B !! i = Some k -> ok_epoch k = Z.of_nat i + 1).
Proof.
  intros Hs Hr. apply run_balanced in Hr; [|done]. destruct Hr as [Hp|Hp]; cbn [fst snd] in Hp;
    destruct (phase_outputs _ _ Hp) as (ks & o & -> & ->); rewrite keys_of_app.
  - split; [left; by apply prefix_app_r|]. split; [apply keys_of_epoch|]. rewrite <- keys_of_app. apply keys_of_epoch.
  - split; [right; by apply prefix_app_r|]. split; [|apply keys_of_epoch]. rewrite <- keys_of_app. apply keys_of_epoch.
Qed.

Lemma braid_agreement_witness :
  (outputs (toy_pair 50).1 `prefix_of` outputs (toy_pair 50).2 \/ outputs (toy_pair 50).2 `prefix_of` outputs (toy_pair 50).1) /\
  length (outputs (toy_pair 50).1) = 2%nat /\ length (outputs (toy_pair 50).2) = 1%nat.
Proof.
  split; [|vm_compute; split; reflexivity].
  apply (braid_agreement toy_secret (toy_pair 50).1 (toy_pair 50).2 eq_refl).
  rewrite <- surjective_pairing. apply toy_run.
Defined.

(** C9: progress.  In every run, as long as no encoder has emitted more than
    65000 of its 65536 chunks, the parties are never stuck: for every [n] some
    schedule of sends and deliveries leads both of them [n + 1] epochs further,
    where both have output exactly the same keys, one for each epoch. *)
Theorem braid_progress {H : HashFunctions} {HL : HashLaws H} {K : MLKEM768} {KL : MLKEM768Laws K} secret A B n :
  length secret = 32%nat -> run secret (A, B) -> used 65000 (agent A) -> used 65000 (agent B) ->
  exists A' B', rtc system_step (A, B) (A', B') /\
    epoch (agent A') = Z.min (epoch (agent A)) (epoch (agent B)) + Z.of_nat (S n) /\ epoch (agent B') = epoch (agent A') /\
    outputs A' = outputs B' /\ len (outputs A') = epoch (agent A') - 1.
Proof.
  intros Hs Hr HuA HuB. apply run_balanced in Hr; [|done]. destruct Hr as [Hp|Hp]; cbn [fst snd] in Hp;
    destruct (phase_roles _ _ Hp) as (Hle & _); (destruct (epochs_complete n _ _ Hp) as (P' & Q' & Hst & Hp' & Hk & He); [done..|]);
    destruct (phase_between P' Q' Hp' Hk) as (_ & _ & EE & Ho & Hl).
  - rewrite Z.min_r by lia. destruct Hst as [Hst|Hst]; [exists P', Q'|exists Q', P']; (split; [done|]); rewrite <- ?Ho, ?EE, ?He; auto with lia.
  - rewrite Z.min_l by lia. destruct Hst as [Hst|Hst]; apply swap_steps in Hst; [exists Q', P'|exists P', Q']; (split; [done|]); rewrite <- ?Ho, ?EE, ?He; auto with lia.
Qed.

Lemma toy_used : used 65000 (agent (toy_pair 5).1) /\ used 65000 (agent (toy_pair 5).2).
Proof. split; apply usedb_ok; vm_compute; reflexivity. Qed.

Lemma braid_progress_witness : exists A' B', rtc system_step (toy_pair 5) (A', B') /\
  epoch (agent A') = 8 /\ epoch (agent B') = epoch (agent A') /\
  outputs A' = outputs B' /\ len (outputs A') = epoch (agent A') - 1.
Proof.
  destruct toy_used as [HA HB]. change 8 with (Z.min 1 1 + Z.of_nat (S 6)).
  rewrite (surjective_pairing (toy_pair 5)).
  replace (Z.min 1 1) with (Z.min (epoch (agent (toy_pair 5).1)) (epoch (agent (toy_pair 5).2))) by (vm_compute; reflexivity).
  apply (braid_progress toy_secret (toy_pair 5).1 (toy_pair 5).2 6 eq_refl); [|exact HA|exact HB].
  rewrite <- surjective_pairing. apply toy_run.
Defined.

(** C28: no honest message is rejected.  In every run, whatever a party has
    sent, at any time, in any order and any number of times, is received by the
    other without an error. *)
Theorem braid_no_rejection {H : HashFunctions} {HL : HashLaws H} {K : MLKEM768} {KL : MLKEM768Laws K} secret A B m :
  length secret = 32%nat -> run secret (A, B) ->
  (m ∈ sent B -> is_ok (Receive m (agent A)).2 = true) /\ (m ∈ sent A -> is_ok (Receive m (agent B)).2 = true).
Proof.
  intros Hs Hr. apply run_balanced in Hr; [|done]. destruct Hr as [Hp|Hp]; cbn [fst snd] in Hp; split; intros Hin;
    by first [apply (phase_recv_l _ _ m Hp)|apply (phase_recv_r _ _ m Hp)].
Qed.

Lemma braid_no_rejection_witness :
  is_ok (Receive (nthZ no_message (sent (toy_pair 40).1) 7)
    (agent (toy_pair 40).2)).2 = true.
Proof.
  apply (braid_no_rejection toy_secret (toy_pair 40).1 (toy_pair 40).2 _ eq_refl).
  - rewrite <- surjective_pairing. apply toy_run.
  - apply list_elem_of_In, nth_In. vm_compute. lia.
Defined.

(** Lockstep.  The epochs of the two parties never differ by more than one
    and the parties are never both in the role of the key generator. *)
Theorem braid_lockstep {H : HashFunctions} {HL : HashLaws H} {K : MLKEM768} {KL : MLKEM768Laws K} secret A B :
  length secret = 32%nat -> run secret (A, B) ->
  Z.abs (epoch (agent A) - epoch (agent B)) <= 1 /\ isInAliceRole (agent A) && isInAliceRole (agent B) = false /\
  (epoch (agent A) = epoch (agent B) -> isInAliceRole (agent A) || isInAliceRole (agent B) = true).
Proof.
  intros Hs Hr. apply run_balanced in Hr; [|done]. destruct Hr as [Hp|Hp]; cbn [fst snd] in Hp;
    destruct (phase_roles _ _ Hp) as (H1 & H2 & H3).
  - split; [lia|]. split; [done|]. intros E. by rewrite (H3 E).
  - split; [lia|]. rewrite andb_comm. split; [done|]. intros E. by rewrite (H3 (eq_sym E)), orb_true_r.
Qed.

Lemma braid_lockstep_witness : Z.abs (epoch (agent (toy_pair 45).1) - epoch (agent (toy_pair 45).2)) <= 1.
Proof.
  apply (braid_lockstep toy_secret (toy_pair 45).1 (toy_pair 45).2 eq_refl).
  rewrite <- surjective_pairing. apply toy_run.
Defined.



(** C39: failed deliveries.  Whatever message makes [Receive] throw, in whatever
    state, the authenticator and the epoch are unchanged; and when its type is
    one whose handling is isolated in a candidate copy, the whole state is. *)
Theorem braid_failed_receive {H : HashFunctions} {K : MLKEM768} m s s' e :
  Receive m s = (s', Throw e) ->
  auth s' = auth s /\ epoch s' = epoch s /\ (atomic_type (m_type m) = true -> s' = s).
Proof.
  unfold Receive. intros E. destruct (isInAliceRole s).
  - apply receiveAlice_failed in E as [[? ?] ?]. done.
  - apply receiveBob_failed in E as [[? ?] ?]. done.
Qed.

Lemma braid_failed_receive_witness :
  auth (agent toy_bob) = auth (agent toy_bob) /\ epoch (agent toy_bob) = epoch (agent toy_bob) /\
  (atomic_type Hdr = true -> agent toy_bob = agent toy_bob).
Proof.
  apply (braid_failed_receive {| m_epoch := 2; m_type := Hdr; m_chunkIndex := Some 0; m_data := None |}
    (agent toy_bob) (agent toy_bob) (StateTransitionError "EPOCH_MISMATCH")).
  vm_compute. reflexivity.
Defined.

(** C29: only an authenticated ciphertext moves the authenticator.  If a call of
    [Receive] changes it, on any input, then the message completed a second
    ciphertext that carries the MAC of both ciphertexts under the new
    authenticator, which is derived from the decapsulated secret; the epoch
    advances by one and the key output is the one that authenticated it. *)
Theorem braid_auth_moves_verified {H : HashFunctions} {K : MLKEM768} m s s' rr :
  Receive m s = (s', Ok rr) -> auth s' <> auth s ->
  m_type m = Ct2 /\ epoch s' = epoch s + 1 /\
  exists key c1 data ss ok,
    dk s = Some key /\ ct1_decoded s = Some c1 /\ Decaps key c1 (take 128 data) = Ok ss /\
    KDF_OK ss (epoch s) = Ok ok /\ auth_Update (auth s) (epoch s) ok = Ok (auth s') /\
    drop 128 data = MacCt (auth s') (m_epoch m) (c1 ++ take 128 data) /\
    rr_output_key rr = Some {| ok_epoch := epoch s; epoch_secret := ok |}.
Proof.
  unfold Receive. intros E Hne. destruct (isInAliceRole s).
  - destruct (receiveAlice_auth m s s' rr E Hne) as (Ht & c & k & Ek & ->).
    destruct (receive_ct2_auth m c s s' k Ek) as (c1 & d & data & ss & key & Hc & _ & Hk & Hd & (ok & Hok & Hup & ->) & Hv & He);
      [by left|]. split; [done|]. split; [done|]. exists key, c1, data, ss, ok. do 5 (split; [done|]). split; [|done].
    unfold VfyCt, bytes_eqb in Hv. case_bool_decide; done.
  - by destruct (receiveBob_auth m s s' rr E).
Qed.

Lemma braid_auth_moves_verified_witness :
  m_type toy_last_message = Ct2 /\ epoch (Receive toy_last_message toy_last_alice).1 = epoch toy_last_alice + 1.
Proof.
  assert (Hok : is_ok (Receive toy_last_message toy_last_alice).2 = true) by (vm_compute; reflexivity).
  assert (Hroot : bool_decide (mac_key (auth (Receive toy_last_message toy_last_alice).1) = mac_key (auth toy_last_alice)) = false)
    by (vm_compute; reflexivity).
  apply bool_decide_eq_false in Hroot. apply M_is_ok in Hok as [rr E].
  destruct (braid_auth_moves_verified toy_last_message toy_last_alice _ rr E) as (Ht & He & _).
  - intros Ha. apply Hroot. by rewrite Ha.
  - split; [exact Ht|exact He].
Defined.
