(* ===== verification/Identity.v ===== *)
(** * Composite identities and contact trust records ([keys/identity.ts])

    The tuple of the two public keys is the object of trust.  A [PublicKey] is
    a Base64 string and stands for its bytes, so its canonicity is implicit;
    [trustState] is one of its two values.  SHA-256 is the operation of the
    class [Sha256].  Cloning a tuple is the decoding of its encoding, as in
    the source. *)
From S2P Require Import Prelude Utf8 Crypto.

Inductive IdentityType := aci | pni.

#[export] Instance IdentityType_eq_dec : EqDecision IdentityType.
Proof. solve_decision. Defined.
#[export] Instance IdentityType_countable : Countable IdentityType.
Proof. apply (inj_countable' (fun t => match t with aci => true | pni => false end) (fun b => if b : bool then aci else pni)). by intros []. Defined.

Record IdentityKeyPair := { dhKey : KeyPair; signingKey : KeyPair; registrationId : Z }.

Record CompositeIdentityV1 := { ci_version : Z; x25519PublicKey : bytes; ed25519PublicKey : bytes }.

#[export] Instance CompositeIdentityV1_eq_dec : EqDecision CompositeIdentityV1.
Proof. solve_decision. Defined.

Definition COMPOSITE_IDENTITY_V1_VERSION : Z := 0x01.
Definition COMPOSITE_IDENTITY_V1_X25519_TAG : Z := 0x01.
Definition COMPOSITE_IDENTITY_V1_ED25519_TAG : Z := 0x02.
Definition COMPOSITE_IDENTITY_V1_LENGTH : Z := 67.
Definition PUBLIC_KEY_LENGTH : Z := 32.
Definition IDENTITY_COMMITMENT_V1_DOMAIN : string := "signal-protocol-js composite identity v1".

(** ** The tuple and its encoding *)
Definition decodeCanonicalPublicKey (publicKey : bytes) (label : string) : result bytes :=
  throw_when (negb (len publicKey =? PUBLIC_KEY_LENGTH)) (Error (label +:+ " must contain exactly 32 bytes")) ;;
  Ok publicKey.

Definition encodeCompositeIdentityV1 (identity : CompositeIdentityV1) : result bytes :=
  throw_when (negb (ci_version identity =? COMPOSITE_IDENTITY_V1_VERSION)) (Error "Unsupported composite identity version") ;;
  x25519 ← decodeCanonicalPublicKey (x25519PublicKey identity) "X25519 public key";
  ed25519 ← decodeCanonicalPublicKey (ed25519PublicKey identity) "Ed25519 public key";
  Ok ([COMPOSITE_IDENTITY_V1_VERSION; COMPOSITE_IDENTITY_V1_X25519_TAG] ++ x25519 ++ [COMPOSITE_IDENTITY_V1_ED25519_TAG] ++ ed25519).

Definition createCompositeIdentityV1 (identity : IdentityKeyPair) : result CompositeIdentityV1 :=
  let composite := {| ci_version := 1; x25519PublicKey := publicKey (dhKey identity); ed25519PublicKey := publicKey (signingKey identity) |} in
  encodeCompositeIdentityV1 composite ;; Ok composite.

Definition decodeCompositeIdentityV1 (encoded : bytes) : result CompositeIdentityV1 :=
  throw_when (negb (len encoded =? COMPOSITE_IDENTITY_V1_LENGTH)) (Error "CompositeIdentityV1 must contain exactly 67 bytes") ;;
  throw_when (negb (nthZ 0 encoded 0 =? COMPOSITE_IDENTITY_V1_VERSION)) (Error "Unsupported composite identity version") ;;
  throw_when (negb (nthZ 0 encoded 1 =? COMPOSITE_IDENTITY_V1_X25519_TAG)) (Error "Unsupported X25519 algorithm tag") ;;
  throw_when (negb (nthZ 0 encoded 34 =? COMPOSITE_IDENTITY_V1_ED25519_TAG)) (Error "Unsupported Ed25519 algorithm tag") ;;
  Ok {| ci_version := 1; x25519PublicKey := take 32 (drop 2 encoded); ed25519PublicKey := take 32 (drop 35 encoded) |}.

Definition compositeIdentitiesEqual (left right : CompositeIdentityV1) : result bool :=
  l ← encodeCompositeIdentityV1 left;
  r ← encodeCompositeIdentityV1 right;
  Ok (constantTimeEqual l r).

Definition cloneIdentity (identity : CompositeIdentityV1) : result CompositeIdentityV1 :=
  encoded ← encodeCompositeIdentityV1 identity; decodeCompositeIdentityV1 encoded.

(** ** [DeviceRecord.identityKey] *)
Definition UNPINNED_DEVICE_IDENTITY_KEY : bytes := [].

Definition isValidDeviceIdentityKey (b : bytes) : bool :=
  if len b =? 0 then true else is_ok (decodeCompositeIdentityV1 b).

Definition canonicalizeDeviceIdentityKey (b : bytes) (label : string) : result bytes :=
  if len b =? 0 then Ok UNPINNED_DEVICE_IDENTITY_KEY
  else match (identity ← decodeCompositeIdentityV1 b; encodeCompositeIdentityV1 identity) with
       | Ok e => Ok e
       | Throw _ => Throw (Error (label +:+ " is not a canonical composite identity tuple"))
       end.

Inductive DeviceIdentityComparison := unpinned | same | changed.

Definition compareDeviceIdentityKeys (pinned incoming : bytes) : DeviceIdentityComparison :=
  if len pinned =? 0 then unpinned else if constantTimeEqual pinned incoming then same else changed.

(** ** Contact records *)
Inductive IdentityTrustState := UNVERIFIED_TOFU | VERIFIED.
Inductive IdentityCandidateStatus := NEW | MATCH | CHANGED | ROLLBACK.

#[export] Instance IdentityTrustState_eq_dec : EqDecision IdentityTrustState.
Proof. solve_decision. Defined.
#[export] Instance IdentityCandidateStatus_eq_dec : EqDecision IdentityCandidateStatus.
Proof. solve_decision. Defined.

Record ContactIdentityRecord := {
  c_identity : CompositeIdentityV1; trustState : IdentityTrustState; firstSeenAt : Z; lastSeenAt : Z;
  verifiedAt : option Z; c_revision : Z; retiredIdentities : list CompositeIdentityV1 }.

Definition assertTimestamp (value : Z) (label : string) : result unit :=
  throw_when (negb (isSafeInteger value) || (value <? 0)) (Error (label +:+ " must be a non-negative safe integer")).

(** [l.some(f)] with a callback that may throw. *)
Fixpoint someM {A} (f : A -> result bool) (l : list A) : result bool :=
  match l with [] => Ok false | x :: l => b ← f x; if b : bool then Ok true else someM f l end.

(** The loop over [retiredIdentities] with [previous] the entries before. *)
Fixpoint validate_retired (identity : CompositeIdentityV1) (previous retired : list CompositeIdentityV1) : result unit :=
  match retired with
  | [] => Ok tt
  | r :: retired =>
      encodeCompositeIdentityV1 r ;;
      current ← compositeIdentitiesEqual identity r;
      throw_when current (Error "Current identity cannot also be retired") ;;
      duplicate ← someM (compositeIdentitiesEqual r) previous;
      throw_when duplicate (Error "Duplicate retired identity") ;;
      validate_retired identity (previous ++ [r]) retired
  end.

Definition validateContactIdentityRecord (record : ContactIdentityRecord) : result unit :=
  encodeCompositeIdentityV1 (c_identity record) ;;
  assertTimestamp (firstSeenAt record) "firstSeenAt" ;;
  assertTimestamp (lastSeenAt record) "lastSeenAt" ;;
  throw_when (lastSeenAt record <? firstSeenAt record) (Error "lastSeenAt cannot precede firstSeenAt") ;;
  throw_when (negb (isSafeInteger (c_revision record)) || (c_revision record <? 1)) (Error "Identity revision must be a positive safe integer") ;;
  (match trustState record with
   | VERIFIED => match verifiedAt record with
                 | None => Throw (Error "A verified identity must include verifiedAt")
                 | Some t => assertTimestamp t "verifiedAt"
                 end
   | UNVERIFIED_TOFU => throw_when (bool_decide (is_Some (verifiedAt record))) (Error "An unverified identity cannot include verifiedAt")
   end) ;;
  validate_retired (c_identity record) [] (retiredIdentities record).

Section Commitment.
Context {S : Sha256}.

Definition deriveIdentityCommitment (identity : CompositeIdentityV1) : result bytes :=
  encoded ← encodeCompositeIdentityV1 identity;
  Ok (sha256 (bytes_of_string IDENTITY_COMMITMENT_V1_DOMAIN ++ encoded)).

Definition assertIdentityCommitment (identity : CompositeIdentityV1) (suppliedCommitment : bytes) : result unit :=
  derived ← deriveIdentityCommitment identity;
  throw_when (negb (constantTimeEqual derived suppliedCommitment)) (Error "Supplied identity commitment does not match canonical composite identity").

Definition evaluateContactIdentityCandidate (record : option ContactIdentityRecord) (candidate : CompositeIdentityV1)
    (suppliedCommitment : option bytes) : result IdentityCandidateStatus :=
  encodeCompositeIdentityV1 candidate ;;
  (match suppliedCommitment with Some c => assertIdentityCommitment candidate c | None => Ok tt end) ;;
  match record with
  | None => Ok NEW
  | Some record =>
      validateContactIdentityRecord record ;;
      equal ← compositeIdentitiesEqual (c_identity record) candidate;
      if equal : bool then Ok MATCH
      else
        rollback ← someM (fun retired => compositeIdentitiesEqual retired candidate) (retiredIdentities record);
        Ok (if rollback : bool then ROLLBACK else CHANGED)
  end.

Definition createUnverifiedContactIdentityRecord (identity : CompositeIdentityV1) (now : Z) : result ContactIdentityRecord :=
  assertTimestamp now "now" ;;
  clone ← cloneIdentity identity;
  Ok {| c_identity := clone; trustState := UNVERIFIED_TOFU; firstSeenAt := now; lastSeenAt := now; verifiedAt := None;
        c_revision := 1; retiredIdentities := [] |}.

Definition acceptContactIdentityRotation (record : ContactIdentityRecord) (candidate : CompositeIdentityV1) (now : Z)
    (suppliedCommitment : option bytes) : result ContactIdentityRecord :=
  assertTimestamp now "now" ;;
  status ← evaluateContactIdentityCandidate (Some record) candidate suppliedCommitment;
  match status with
  | ROLLBACK => Throw (Error "Refusing previously retired identity as a rollback")
  | MATCH => Ok {| c_identity := c_identity record; trustState := trustState record; firstSeenAt := firstSeenAt record;
                   lastSeenAt := Z.max (lastSeenAt record) now; verifiedAt := verifiedAt record;
                   c_revision := c_revision record; retiredIdentities := retiredIdentities record |}
  | NEW => Throw (Error "Identity rotation requires an existing different identity")
  | CHANGED =>
      clone ← cloneIdentity candidate;
      retired ← mapM_result cloneIdentity (retiredIdentities record);
      previous ← cloneIdentity (c_identity record);
      Ok {| c_identity := clone; trustState := UNVERIFIED_TOFU; firstSeenAt := now; lastSeenAt := now; verifiedAt := None;
            c_revision := c_revision record + 1; retiredIdentities := retired ++ [previous] |}
  end.

Definition verifyContactIdentityRecord (record : ContactIdentityRecord) (candidate : CompositeIdentityV1) (now : Z)
    (suppliedCommitment : option bytes) : result ContactIdentityRecord :=
  assertTimestamp now "now" ;;
  status ← evaluateContactIdentityCandidate (Some record) candidate suppliedCommitment;
  match status with
  | MATCH => Ok {| c_identity := c_identity record; trustState := VERIFIED; firstSeenAt := firstSeenAt record;
                   lastSeenAt := Z.max (lastSeenAt record) now; verifiedAt := Some now;
                   c_revision := c_revision record; retiredIdentities := retiredIdentities record |}
  | _ => Throw (Error "Authenticated identity comparison requires the current tuple")
  end.
End Commitment.
