(* ===== verification/IdentityProofs.v ===== *)
(** * Contact trust records: encodings, validity and life cycle

    The last part holds the properties and the instances of their witnesses. *)
From S2P Require Import Prelude Utf8 Crypto Identity DoubleRatchet RatchetToy.

(** A tuple that the encoder accepts, of bytes. *)
Definition ci_wf (c : CompositeIdentityV1) : Prop :=
  ci_version c = 1 /\ length (x25519PublicKey c) = 32%nat /\ length (ed25519PublicKey c) = 32%nat /\
  is_bytes (x25519PublicKey c) /\ is_bytes (ed25519PublicKey c).

Definition encoding (c : CompositeIdentityV1) : bytes := [1; 1] ++ x25519PublicKey c ++ [2] ++ ed25519PublicKey c.

Lemma throw_when_bind {A} b e (k : result A) : (throw_when b e ;; k) = if b then Throw e else k.
Proof. by destruct b. Qed.

(** ** Encoding *)
Lemma encode_identity_iff c b : encodeCompositeIdentityV1 c = Ok b <->
  ci_version c = 1 /\ length (x25519PublicKey c) = 32%nat /\ length (ed25519PublicKey c) = 32%nat /\ b = encoding c.
Proof.
  unfold encodeCompositeIdentityV1, decodeCanonicalPublicKey, COMPOSITE_IDENTITY_V1_VERSION, PUBLIC_KEY_LENGTH, len.
  repeat (rewrite throw_when_bind || (case_if; cbn [mbind result_bind]; b2p)); unfold encoding; split; try (intros [= <-]; repeat split; lia);
    try discriminate; intros (? & ? & ? & ?); try lia; by subst.
Qed.

Lemma encode_identity c : ci_wf c -> encodeCompositeIdentityV1 c = Ok (encoding c).
Proof. intros (? & ? & ? & ? & ?). by apply encode_identity_iff. Qed.

Lemma encoding_length c : length (x25519PublicKey c) = 32%nat -> length (ed25519PublicKey c) = 32%nat -> length (encoding c) = 67%nat.
Proof. intros E1 E2. unfold encoding. rewrite !length_app, E1, E2. done. Qed.

Lemma encoding_bytes c : ci_wf c -> is_bytes (encoding c).
Proof. intros (? & ? & ? & ? & ?). unfold encoding. rewrite !Forall_app. unfold is_byte. repeat split; [repeat constructor; lia|done|repeat constructor; lia|done]. Qed.

Lemma decode_encoding c : ci_version c = 1 -> length (x25519PublicKey c) = 32%nat -> length (ed25519PublicKey c) = 32%nat ->
  decodeCompositeIdentityV1 (encoding c) = Ok c.
Proof.
  intros Ev Ex Ee. destruct c as [v x e]; cbn [ci_version x25519PublicKey ed25519PublicKey] in *. subst v.
  assert (E34 : nthZ 0 (encoding {| ci_version := 1; x25519PublicKey := x; ed25519PublicKey := e |}) 34 = 2).
  { unfold nthZ, encoding. change (Z.to_nat 34) with (2 + 32)%nat. cbn [x25519PublicKey ed25519PublicKey app Nat.add nth]. rewrite app_nth2 by lia. by rewrite Ex. }
  unfold decodeCompositeIdentityV1. rewrite E34. unfold len. rewrite encoding_length by done.
  rewrite !throw_when_bind. unfold encoding. cbn -[take drop]. change (1 :: 1 :: x ++ 2 :: e) with ([1; 1] ++ x ++ [2] ++ e). do 2 f_equal.
  - by rewrite (drop_app_ge [1; 1] _ 2), drop_0, take_app_le, take_ge by (cbn; lia).
  - rewrite (drop_app_ge [1; 1]), drop_app_ge by (cbn; lia). rewrite Ex. cbn [length Nat.sub]. rewrite (drop_app_ge [2] _ 1), drop_0, take_ge by (cbn; lia). done.
Qed.

Lemma encoding_inj c d : ci_wf c -> ci_wf d -> encoding c = encoding d -> c = d.
Proof.
  intros (? & ? & ? & _) (? & ? & ? & _) E. apply (f_equal decodeCompositeIdentityV1) in E. rewrite !decode_encoding in E by done. by injection E.
Qed.

Lemma identities_equal c d : ci_wf c -> ci_wf d -> compositeIdentitiesEqual c d = Ok (bool_decide (c = d)).
Proof.
  intros Hc Hd. unfold compositeIdentitiesEqual. rewrite !encode_identity by done. cbn [mbind result_bind]. rewrite constantTimeEqual_spec by auto using encoding_bytes.
  f_equal. apply bool_decide_ext. split; [by apply encoding_inj|by intros ->].
Qed.

Lemma clone_identity c : ci_wf c -> cloneIdentity c = Ok c.
Proof. intros Hc. unfold cloneIdentity. rewrite encode_identity by done. destruct Hc as (? & ? & ? & _). by apply decode_encoding. Qed.

Lemma clone_identities l : Forall ci_wf l -> mapM_result cloneIdentity l = Ok l.
Proof. induction 1 as [|c l Hc _ IH]; [done|]. cbn. by rewrite clone_identity, IH. Qed.

Lemma some_equal c l : ci_wf c -> Forall ci_wf l ->
  someM (fun r => compositeIdentitiesEqual r c) l = Ok (bool_decide (c ∈ l)).
Proof.
  intros Hc. induction 1 as [|d l Hd _ IH]; [done|]. cbn [someM]. rewrite identities_equal by done. cbn [mbind result_bind].
  destruct (decide (d = c)) as [->|Hn].
  - rewrite bool_decide_true by done. by rewrite bool_decide_true by left.
  - rewrite bool_decide_false by done. rewrite IH. f_equal. apply bool_decide_ext. rewrite elem_of_cons. naive_solver.
Qed.

Lemma some_equal_left c l : ci_wf c -> Forall ci_wf l -> someM (compositeIdentitiesEqual c) l = Ok (bool_decide (c ∈ l)).
Proof.
  intros Hc Hl. rewrite <- (some_equal c l Hc Hl). induction Hl as [|d l Hd _ IH]; [done|]. cbn [someM].
  rewrite !identities_equal, IH by done. by rewrite (bool_decide_ext (c = d) (d = c)) by (split; congruence).
Qed.

(** ** Valid records *)
Definition timestamp_ok (t : Z) : Prop := 0 <= t <= MAX_SAFE_INTEGER.

Definition trust_ok (s : IdentityTrustState) (t : option Z) : Prop :=
  match s with VERIFIED => exists v, t = Some v /\ timestamp_ok v | UNVERIFIED_TOFU => t = None end.

(** What a record has to satisfy, apart from being made of tuples of bytes. *)
Record contact_valid (r : ContactIdentityRecord) : Prop := {
  cv_identity : ci_wf (c_identity r);
  cv_retired : Forall ci_wf (retiredIdentities r);
  cv_distinct : NoDup (c_identity r :: retiredIdentities r);
  cv_seen : timestamp_ok (firstSeenAt r) /\ timestamp_ok (lastSeenAt r) /\ firstSeenAt r <= lastSeenAt r;
  cv_revision : 1 <= c_revision r <= MAX_SAFE_INTEGER;
  cv_trust : trust_ok (trustState r) (verifiedAt r) }.

Lemma assertTimestamp_iff t l u : assertTimestamp t l = Ok u <-> timestamp_ok t.
Proof.
  unfold assertTimestamp, isSafeInteger, timestamp_ok. rewrite throw_when_Ok, orb_false_iff, negb_false_iff, andb_true_iff.
  unfold MAX_SAFE_INTEGER. lia.
Qed.

Lemma validate_retired_iff c : ci_wf c -> forall l p u, Forall ci_wf p -> Forall ci_wf l ->
  validate_retired c p l = Ok u <-> (c ∉ l) /\ NoDup l /\ (forall x, x ∈ l -> x ∉ p).
Proof.
  intros Hc l. induction l as [|d l IH]; intros p u Hp Hl.
  { cbn. destruct u. split; [|done]. intros _. repeat split; [set_solver|constructor|set_solver]. }
  apply Forall_cons in Hl as [Hd Hl]. cbn [validate_retired]. rewrite encode_identity, identities_equal, some_equal_left by done. cbn [mbind result_bind].
  rewrite throw_when_bind. case_bool_decide as Ec; [subst; split; [done|set_solver]|]. cbn [mbind result_bind].
  rewrite throw_when_bind. case_bool_decide as Ed; [split; [done|set_solver]|].
  rewrite IH by (try apply Forall_app; auto). rewrite NoDup_cons, not_elem_of_cons. set_solver.
Qed.

Lemma bind_unit_Ok {A} (m : result unit) (k : result A) a : (m ;; k) = Ok a <-> m = Ok tt /\ k = Ok a.
Proof. rewrite bind_Ok. split; [intros ([] & ? & ?); auto|intros [? ?]; by exists tt]. Qed.

Lemma validate_iff r : ci_wf (c_identity r) -> Forall ci_wf (retiredIdentities r) ->
  validateContactIdentityRecord r = Ok tt <-> contact_valid r.
Proof.
  intros Hi Hr. unfold validateContactIdentityRecord. rewrite encode_identity by done. cbn [mbind result_bind].
  rewrite !bind_unit_Ok, !assertTimestamp_iff, !throw_when_Ok, validate_retired_iff by auto.
  rewrite Z.ltb_ge, orb_false_iff, negb_false_iff, Z.ltb_ge. unfold isSafeInteger. rewrite andb_true_iff, !Z.leb_le.
  assert (Ht : match trustState r with
    | UNVERIFIED_TOFU => throw_when (bool_decide (is_Some (verifiedAt r))) (Error "An unverified identity cannot include verifiedAt")
    | VERIFIED => match verifiedAt r with Some t => assertTimestamp t "verifiedAt" | None => Throw (Error "A verified identity must include verifiedAt") end
    end = Ok tt <-> trust_ok (trustState r) (verifiedAt r)).
  { unfold trust_ok. destruct (trustState r), (verifiedAt r) as [t|]; cbn; try done.
    - rewrite assertTimestamp_iff. split; [intros; by exists t|by intros (v & [= <-] & ?)].
    - split; [done|]. by intros (v & ? & _). }
  rewrite Ht. split.
  - intros (? & ? & ? & ? & ? & ? & ? & _). split; auto; [by constructor|lia].
  - intros [_ _ D ? ? ?]. apply NoDup_cons in D as [? ?]. unfold timestamp_ok, MAX_SAFE_INTEGER in *.
    repeat split; try tauto; try lia. intros x _. apply not_elem_of_nil.
Qed.

(** ** The status of a candidate *)
Section Candidate.
Context {S : Sha256}.

(** A commitment that a caller supplies is checked before the record. *)
Definition commitment_ok (c : CompositeIdentityV1) (supplied : option bytes) : Prop :=
  match supplied with None => True | Some s => assertIdentityCommitment c s = Ok tt end.

Definition status_of (r : ContactIdentityRecord) (c : CompositeIdentityV1) : IdentityCandidateStatus :=
  if decide (c = c_identity r) then MATCH else if decide (c ∈ retiredIdentities r) then ROLLBACK else CHANGED.

Lemma evaluate_iff r c supplied st : contact_valid r -> ci_wf c ->
  evaluateContactIdentityCandidate (Some r) c supplied = Ok st <-> commitment_ok c supplied /\ st = status_of r c.
Proof.
  intros Hv Hc. unfold evaluateContactIdentityCandidate. rewrite encode_identity by done. cbn [mbind result_bind].
  rewrite bind_unit_Ok. rewrite (proj2 (validate_iff r (cv_identity _ Hv) (cv_retired _ Hv)) Hv). cbn [mbind result_bind].
  rewrite identities_equal by (done || apply Hv). cbn [mbind result_bind]. rewrite some_equal by (done || apply Hv).
  unfold status_of. assert (Hs : match supplied with Some s => assertIdentityCommitment c s | None => Ok tt end = Ok tt <-> commitment_ok c supplied).
  { unfold commitment_ok. by destruct supplied. }
  rewrite Hs. f_equiv. destruct (decide (c = c_identity r)) as [->|Hn].
  - rewrite bool_decide_true by done. naive_solver.
  - rewrite bool_decide_false by congruence. cbn [mbind result_bind]. case_bool_decide; [rewrite decide_True by done|rewrite decide_False by done]; naive_solver.
Qed.

Lemma clone_record r : contact_valid r -> mapM_result cloneIdentity (retiredIdentities r) = Ok (retiredIdentities r) /\
  cloneIdentity (c_identity r) = Ok (c_identity r).
Proof. intros Hv. split; [apply clone_identities|apply clone_identity]; apply Hv. Qed.

(** ** The life cycle of a record *)
Inductive contact_op :=
  | Accept (candidate : CompositeIdentityV1) (now : Z) (supplied : option bytes)
  | Verify (candidate : CompositeIdentityV1) (now : Z) (supplied : option bytes).

Definition op_candidate (o : contact_op) : CompositeIdentityV1 := match o with Accept c _ _ | Verify c _ _ => c end.

Definition contact_result (r : ContactIdentityRecord) (o : contact_op) : result ContactIdentityRecord :=
  match o with
  | Accept c now s => acceptContactIdentityRotation r c now s
  | Verify c now s => verifyContactIdentityRecord r c now s
  end.

(** A store keeps the record when the operation throws. *)
Definition contact_step (r : ContactIdentityRecord) (o : contact_op) : ContactIdentityRecord :=
  match contact_result r o with Ok r' => r' | Throw _ => r end.

Definition seen_again (now : Z) (s : IdentityTrustState) (v : option Z) (r : ContactIdentityRecord) : ContactIdentityRecord := {|
  c_identity := c_identity r; trustState := s; firstSeenAt := firstSeenAt r; lastSeenAt := Z.max (lastSeenAt r) now;
  verifiedAt := v; c_revision := c_revision r; retiredIdentities := retiredIdentities r |}.

Definition rotated (c : CompositeIdentityV1) (now : Z) (r : ContactIdentityRecord) : ContactIdentityRecord := {|
  c_identity := c; trustState := UNVERIFIED_TOFU; firstSeenAt := now; lastSeenAt := now; verifiedAt := None;
  c_revision := c_revision r + 1; retiredIdentities := retiredIdentities r ++ [c_identity r] |}.

(** What an operation on a valid record does. *)
Lemma contact_result_cases r o r' : contact_valid r -> ci_wf (op_candidate o) -> contact_result r o = Ok r' ->
  exists now, timestamp_ok now /\
    ((op_candidate o = c_identity r /\ exists s v, r' = seen_again now s v r /\
        (s = trustState r /\ v = verifiedAt r \/ s = VERIFIED /\ v = Some now)) \/
     (op_candidate o <> c_identity r /\ (op_candidate o ∉ retiredIdentities r) /\ r' = rotated (op_candidate o) now r)).
Proof.
  intros Hv Hc. destruct (clone_record r Hv) as [Cr Ci].
  destruct o as [c now s|c now s]; cbn [contact_result op_candidate] in *; unfold acceptContactIdentityRotation, verifyContactIdentityRecord;
    rewrite bind_unit_Ok; intros [Ht H]; apply assertTimestamp_iff in Ht; exists now; (split; [done|]);
    apply bind_Ok in H as (st & [_ ->]%evaluate_iff & H); try done; unfold status_of in H.
  - destruct (decide (c = c_identity r)) as [->|Hn]; [left; split; [done|]; injection H as <-; do 2 eexists; split; [reflexivity|by left]|].
    destruct (decide (c ∈ _)) as [|Hn2]; [done|]. right. do 2 (split; [done|]).
    rewrite (clone_identity c Hc) in H. cbn [mbind result_bind] in H. rewrite Cr in H. cbn [mbind result_bind] in H. rewrite Ci in H. by injection H as <-.
  - destruct (decide (c = c_identity r)) as [->|Hn]; [|by case_decide].
    left; split; [done|]; injection H as <-; do 2 eexists; split; [reflexivity|by right].
Qed.

Lemma contact_result_valid r o r' : contact_valid r -> ci_wf (op_candidate o) -> c_revision r < MAX_SAFE_INTEGER ->
  contact_result r o = Ok r' -> contact_valid r'.
Proof.
  intros Hv Hc Hrev H. destruct (contact_result_cases r o r' Hv Hc H) as (now & Ht & [(E & s & v & -> & Hs)|(N1 & N2 & ->)]);
    destruct Hv as [Hi Hr Hd Hs' Hrv Htr].
  - split; cbn -[Z.max Z.add]; auto; [unfold timestamp_ok in *; lia|]. destruct Hs as [[-> ->]|[-> ->]]; [done|]. by exists now.
  - split; cbn -[Z.add]; auto; [apply Forall_app; auto| |by repeat split; try apply Ht|lia].
    apply NoDup_cons in Hd as [Hd1 Hd2]. apply NoDup_cons. rewrite not_elem_of_app, list_elem_of_singleton, NoDup_app. split; [done|].
    repeat split; [done| |apply NoDup_singleton]. intros x Hx ->%list_elem_of_singleton. done.
Qed.

Lemma contact_result_prefix r o r' : contact_valid r -> ci_wf (op_candidate o) -> contact_result r o = Ok r' ->
  c_revision r' - len (retiredIdentities r') = c_revision r - len (retiredIdentities r) /\
  retiredIdentities r ++ [c_identity r] `prefix_of` retiredIdentities r' ++ [c_identity r'].
Proof.
  intros Hv Hc H. destruct (contact_result_cases r o r' Hv Hc H) as (now & _ & [(_ & s & v & -> & _)|(_ & _ & ->)]); cbn [c_revision retiredIdentities c_identity seen_again rotated].
  - done.
  - split; [len_lia|]. by apply prefix_app_r.
Qed.

(** A run of operations. *)
Definition contact_run (r : ContactIdentityRecord) (ops : list contact_op) : ContactIdentityRecord := foldl contact_step r ops.

Lemma contact_run_history ops : forall r, contact_valid r -> Forall (fun o => ci_wf (op_candidate o)) ops ->
  c_revision r + len ops <= MAX_SAFE_INTEGER ->
  let r' := contact_run r ops in
  contact_valid r' /\ c_revision r' - len (retiredIdentities r') = c_revision r - len (retiredIdentities r) /\
  retiredIdentities r ++ [c_identity r] `prefix_of` retiredIdentities r' ++ [c_identity r'].
Proof.
  induction ops as [|o ops IH]; intros r Hv Ho Hb; [done|]. apply Forall_cons in Ho as [Hc Ho].
  change (contact_run r (o :: ops)) with (contact_run (contact_step r o) ops). unfold contact_step.
  destruct (contact_result r o) as [r1|e] eqn:E; [|apply IH; auto; len_lia].
  destruct (contact_result_prefix r o r1 Hv Hc E) as [Er Ep].
  assert (Hv1 : contact_valid r1) by (eapply contact_result_valid; eauto; len_lia).
  assert (Hg : c_revision r1 <= c_revision r + 1).
  { destruct (contact_result_cases r o r1 Hv Hc E) as (now & _ & [(_ & s & v & -> & _)|(_ & _ & ->)]); cbn [c_revision seen_again rotated]; lia. }
  destruct (IH r1 Hv1 Ho) as (IV & IR & IP); [len_lia|]. split; [done|]. split; [lia|]. by etrans.
Qed.

(** A retired tuple is a rollback: every operation that presents it throws. *)
Lemma retired_refused r o : contact_valid r -> ci_wf (op_candidate o) -> op_candidate o ∈ retiredIdentities r ->
  is_ok (contact_result r o) = false.
Proof.
  intros Hv Hc Hin. destruct (contact_result r o) as [r'|] eqn:E; [|done].
  destruct (contact_result_cases r o r' Hv Hc E) as (now & _ & [(Ei & _)|(_ & Hn & _)]); [|done].
  destruct Hv as [_ _ Hd _ _ _]. apply NoDup_cons in Hd as [Hd _]. by rewrite Ei in Hin.
Qed.
End Candidate.

(** ** Properties *)
(** Composite identities and byte strings: a string is accepted by
    [decodeCompositeIdentityV1] exactly when it is the encoding of the tuple
    it decodes to, so each tuple has one accepted encoding. *)
Theorem composite_identity_bijection b c : decodeCompositeIdentityV1 b = Ok c <-> encodeCompositeIdentityV1 c = Ok b.
Proof.
  rewrite encode_identity_iff. split; [|intros (? & ? & ? & ->); by apply decode_encoding].
  unfold decodeCompositeIdentityV1, COMPOSITE_IDENTITY_V1_VERSION, COMPOSITE_IDENTITY_V1_X25519_TAG, COMPOSITE_IDENTITY_V1_ED25519_TAG, COMPOSITE_IDENTITY_V1_LENGTH, len.
  repeat (rewrite throw_when_bind; case_if; [discriminate|]; b2p). intros [= <-]. cbn [ci_version x25519PublicKey ed25519PublicKey].
  destruct b as [|b0 [|b1 b]]; try (cbn in *; lia). unfold nthZ in *. change (Z.to_nat 34) with 34%nat in *. change (Z.to_nat 0) with 0%nat in *. change (Z.to_nat 1) with 1%nat in *. cbn [nth] in *.
  subst b0 b1. cbn [length drop] in *. rewrite !length_take, !length_drop. repeat split; try lia.
  unfold encoding. cbn [x25519PublicKey ed25519PublicKey app]. do 2 f_equal. rewrite <- (take_drop 32 b) at 1. f_equal.
  destruct (drop 32 b) as [|y r] eqn:E; [apply (f_equal length) in E; rewrite length_drop in E; cbn in E; lia|].
  assert (Hy : nth 32 b 0 = y). { rewrite <- (take_drop 32 b), app_nth2 by (rewrite length_take; lia). rewrite length_take, E. by replace (32 - 32 `min` length b)%nat with 0%nat by lia. }
  rewrite <- Hy, Hb2. f_equal. replace (drop 33 b) with (drop 1 (drop 32 b)) by (by rewrite drop_drop). rewrite E. cbn [drop]. rewrite drop_0, take_ge; [done|].
  apply (f_equal length) in E. rewrite length_drop in E. cbn [length] in E. lia.
Qed.

(** C38: The life of a contact's trust record.  Whatever explicit acceptances
    and verifications an application makes (in any order, those that throw
    included), the record stays valid, the tuples that were current before
    stay in it in order, none of them ever becomes current again, and every
    operation that presents one of them throws.  The bound keeps the revision
    a safe integer. *)
Theorem contact_record_history `{Sha256} r ops : contact_valid r -> Forall (fun o => ci_wf (op_candidate o)) ops ->
  c_revision r + len ops <= MAX_SAFE_INTEGER ->
  let r' := contact_run r ops in
  validateContactIdentityRecord r' = Ok tt /\
  c_revision r' - len (retiredIdentities r') = c_revision r - len (retiredIdentities r) /\
  retiredIdentities r ++ [c_identity r] `prefix_of` retiredIdentities r' ++ [c_identity r'] /\
  forall o, ci_wf (op_candidate o) -> op_candidate o ∈ retiredIdentities r' ->
    op_candidate o <> c_identity r' /\ is_ok (contact_result r' o) = false.
Proof.
  intros Hv Ho Hb r'. destruct (contact_run_history ops r Hv Ho Hb) as (Hv' & Hr & Hp). fold r' in Hv', Hr, Hp.
  split; [by apply validate_iff; [apply Hv'..|]|]. do 2 (split; [done|]). intros o Hc Hin. split; [|by apply retired_refused].
  intros E. destruct Hv' as [_ _ Hd _ _ _]. apply NoDup_cons in Hd as [Hd _]. by rewrite E in Hin.
Qed.

#[export] Instance toy_sha256 : Sha256 := {| sha256 m := @hmac toy_hash [1] m |}.

Definition toy_identity (n : Z) : CompositeIdentityV1 := {|
  ci_version := 1; x25519PublicKey := replicate 32 n; ed25519PublicKey := replicate 32 (n + 1) |}.

Definition toy_contact : ContactIdentityRecord := {|
  c_identity := toy_identity 1; trustState := UNVERIFIED_TOFU; firstSeenAt := 5; lastSeenAt := 5; verifiedAt := None;
  c_revision := 1; retiredIdentities := [] |}.

Definition toy_contact_ops : list contact_op :=
  [Verify (toy_identity 1) 6 None; Accept (toy_identity 3) 7 None; Accept (toy_identity 1) 8 None; Verify (toy_identity 3) 9 None].

Lemma toy_identity_wf n : 0 <= n < 255 -> ci_wf (toy_identity n).
Proof. intros Hn. unfold ci_wf, toy_identity, is_byte. cbn -[replicate]. rewrite !length_replicate. repeat split; apply Forall_replicate; lia. Qed.

Lemma toy_contact_valid : contact_valid toy_contact.
Proof.
  split; cbn; [apply toy_identity_wf; lia|by constructor| | | |done]; unfold timestamp_ok, MAX_SAFE_INTEGER; try lia.
  apply NoDup_singleton.
Qed.

Lemma contact_record_history_witness :
  c_identity (contact_run toy_contact toy_contact_ops) = toy_identity 3 /\
  trustState (contact_run toy_contact toy_contact_ops) = VERIFIED /\
  validateContactIdentityRecord (contact_run toy_contact toy_contact_ops) = Ok tt /\
  is_ok (contact_result (contact_run toy_contact toy_contact_ops) (Accept (toy_identity 1) 10 None)) = false.
Proof.
  split; [by vm_compute|]. split; [by vm_compute|].
  destruct (contact_record_history toy_contact toy_contact_ops toy_contact_valid) as (Hv & _ & _ & Hr).
  - apply Forall_cons; split; [by apply toy_identity_wf|]. repeat (apply Forall_cons; split; [by apply toy_identity_wf|]). by apply Forall_nil.
  - by vm_compute.
  - split; [exact Hv|]. assert (Hw : ci_wf (toy_identity 1)) by (apply toy_identity_wf; lia).
    assert (Hin : toy_identity 1 ∈ retiredIdentities (contact_run toy_contact toy_contact_ops)).
    { replace (retiredIdentities _) with [toy_identity 1] by (vm_compute; reflexivity). apply list_elem_of_here. }
    exact (proj2 (Hr (Accept (toy_identity 1) 10 None) Hw Hin)).
Defined.
