(* ===== verification/KeyFormats.v ===== *)
(** * Key formats and padding ([crypto/key-prefix.ts], [symmetric/padding.ts],
    [ec/x25519-validation.ts], [pq/kyber.ts], [keys/prekey-signature.ts])

    The arithmetic of the curve ([@noble/curves]) and ML-KEM-1024
    ([@noble/post-quantum]) are operations of classes.  Random bytes are
    arguments. *)
From S2P Require Import Prelude Utf8 Crypto Identity DoubleRatchet.

(** ** Public keys with their type byte *)
Definition DJB_KEY_TYPE : Z := 0x05.
Definition X25519_RAW_KEY_BYTES : Z := 32.
Definition X25519_SERIALIZED_KEY_BYTES : Z := 33.

Definition serializePublicKey (rawKey : bytes) : result bytes :=
  throw_when (negb (len rawKey =? X25519_RAW_KEY_BYTES)) (Error "Cannot serialize") ;;
  Ok (DJB_KEY_TYPE :: rawKey).

Definition deserializePublicKey (serialized : bytes) : result bytes :=
  throw_when (negb (len serialized =? X25519_SERIALIZED_KEY_BYTES)) (Error "Cannot deserialize") ;;
  throw_when (negb (nthZ 0 serialized 0 =? DJB_KEY_TYPE)) (Error "Invalid key type prefix") ;;
  Ok (drop 1 serialized).

Definition isSerializedPublicKey (key : bytes) : bool :=
  (len key =? X25519_SERIALIZED_KEY_BYTES) && (nthZ 0 key 0 =? DJB_KEY_TYPE).

Definition ensureSerializedPublicKey (key : bytes) : result bytes :=
  if len key =? X25519_RAW_KEY_BYTES then serializePublicKey key
  else if len key =? X25519_SERIALIZED_KEY_BYTES then
    throw_when (negb (nthZ 0 key 0 =? DJB_KEY_TYPE)) (Error "Invalid key type prefix") ;; Ok key
  else Throw (Error "Invalid key length").

Definition ensureRawPublicKey (key : bytes) : result bytes :=
  if len key =? X25519_RAW_KEY_BYTES then Ok key
  else if len key =? X25519_SERIALIZED_KEY_BYTES then deserializePublicKey key
  else Throw (Error "Invalid key length").

(** ** Message padding *)
Definition PADDING_BUCKET_SIZE : Z := 160.
Definition PADDING_TERMINATOR : Z := 0x80.

(** [Math.ceil(a / b)] of non-negative integers *)
Definition ceil_div (a b : Z) : Z := (a + b - 1) / b.

Definition padMessage (message : bytes) : bytes :=
  let paddedLength := ceil_div (len message + 1) PADDING_BUCKET_SIZE * PADDING_BUCKET_SIZE in
  message ++ [PADDING_TERMINATOR] ++ replicate (Z.to_nat (paddedLength - len message - 1)) 0.

(** The loop from index [n - 1] down to [0]. *)
Fixpoint find_terminator (n : nat) (padded : bytes) : result (option nat) :=
  match n with
  | O => Ok None
  | S i =>
      let byte := nth i padded 0 in
      if byte =? PADDING_TERMINATOR then Ok (Some i)
      else throw_when (negb (byte =? 0)) (Error "Invalid padding") ;; find_terminator i padded
  end.

Definition unpadMessage (padded : bytes) : result bytes :=
  terminatorIndex ← find_terminator (length padded) padded;
  match terminatorIndex with
  | None => Throw (Error "Invalid padding")
  | Some i => Ok (take i padded)
  end.

(** ** Validation of X25519 public keys *)
(** The field and the point arithmetic of [@noble/curves]. *)
Class Curve25519 := {
  bytesToNumberLE : bytes -> Z;
  numberToBytesLE : Z -> bytes;                     (* 32 bytes *)
  fp_add : Z -> Z -> Z; fp_sub : Z -> Z -> Z; fp_div : Z -> Z -> Z;
  point_torsion_free : bytes -> result bool }.      (* [Point.fromBytes], then [isTorsionFree] *)

Definition scalarIsInRange (keyBytes : bytes) : bool :=
  if negb (js_and (nthZ 0 keyBytes 31) 0x80 =? 0) then false
  else if nthZ 0 keyBytes 31 =? 0x7f then
    let allFF := forallb (fun i => nth i keyBytes 0 =? 0xff) (seq 1 30) in
    negb (allFF && (nthZ 0 keyBytes 0 >=? 0xed))
  else true.

Definition isTorsionFree `{Curve25519} (keyBytes : bytes) : bool :=
  let u := bytesToNumberLE keyBytes in
  let denom := fp_add u 1 in
  if denom =? 0 then false
  else
    let yEd := fp_div (fp_sub u 1) denom in
    let yBytes := numberToBytesLE yEd in
    let yBytes := <[31%nat := js_and (nthZ 0 yBytes 31) 0x7f]> yBytes in
    match point_torsion_free yBytes with Ok b => b | Throw _ => false end.

Definition isCanonicalX25519Point `{Curve25519} (keyBytes : bytes) : bool :=
  if negb (len keyBytes =? 32) then false
  else if negb (scalarIsInRange keyBytes) then false
  else isTorsionFree keyBytes.

Definition validateX25519PublicKey `{Curve25519} (publicKey : bytes) : result unit :=
  throw_when (negb (isCanonicalX25519Point publicKey)) (EncryptionError "INVALID_DH_KEY").

(** ** ML-KEM-1024 *)
Class MlKem1024 := {
  k1024_keygen : bytes -> bytes * bytes;                        (* seed; public key, secret key *)
  k1024_encapsulate : bytes -> bytes -> result (bytes * bytes); (* public key, message; shared secret, ciphertext *)
  k1024_decapsulate : bytes -> bytes -> result bytes }.         (* ciphertext, secret key *)

Definition ML_KEM_1024_RAW_PUBLIC_KEY_BYTES : Z := 1568.
Definition ML_KEM_1024_ALGORITHM_TAG : Z := 0x0a.
Definition ML_KEM_1024_PUBLIC_KEY_BYTES : Z := 1 + ML_KEM_1024_RAW_PUBLIC_KEY_BYTES.
Definition ML_KEM_1024_PRIVATE_KEY_BYTES : Z := 3168.
Definition ML_KEM_1024_RAW_CIPHERTEXT_BYTES : Z := 1568.
Definition ML_KEM_1024_CIPHERTEXT_BYTES : Z := 1 + ML_KEM_1024_RAW_CIPHERTEXT_BYTES.

Definition serializeMlKem1024PublicKey (rawPublicKey : bytes) : result bytes :=
  throw_when (negb (len rawPublicKey =? ML_KEM_1024_RAW_PUBLIC_KEY_BYTES)) (Error "ML-KEM-1024 raw public key must be 1568 bytes") ;;
  Ok (ML_KEM_1024_ALGORITHM_TAG :: rawPublicKey).

Definition parseMlKem1024PublicKey (serialized : bytes) : result bytes :=
  throw_when (negb (len serialized =? ML_KEM_1024_PUBLIC_KEY_BYTES)) (Error "ML-KEM-1024 public key must be tagged and contain 1569 bytes") ;;
  throw_when (negb (nthZ 0 serialized 0 =? ML_KEM_1024_ALGORITHM_TAG)) (Error "Unsupported ML-KEM-1024 public-key tag") ;;
  Ok (drop 1 serialized).

Definition serializeMlKem1024Ciphertext (rawCiphertext : bytes) : result bytes :=
  throw_when (negb (len rawCiphertext =? ML_KEM_1024_RAW_CIPHERTEXT_BYTES)) (Error "ML-KEM-1024 raw ciphertext must be 1568 bytes") ;;
  Ok (ML_KEM_1024_ALGORITHM_TAG :: rawCiphertext).

Definition parseMlKem1024Ciphertext (serialized : bytes) : result bytes :=
  throw_when (negb (len serialized =? ML_KEM_1024_CIPHERTEXT_BYTES)) (Error "ML-KEM-1024 ciphertext must be tagged and contain 1569 bytes") ;;
  throw_when (negb (nthZ 0 serialized 0 =? ML_KEM_1024_ALGORITHM_TAG)) (Error "Unsupported ML-KEM-1024 ciphertext tag") ;;
  Ok (drop 1 serialized).

Section MlKem.
Context {K : MlKem1024}.

Definition generateMlKem1024KeyPair (random64 : bytes) : result (bytes * bytes) :=
  let '(pk, sk) := k1024_keygen random64 in
  publicKey ← serializeMlKem1024PublicKey pk;
  Ok (publicKey, sk).

(** (shared secret, ciphertext) *)
Definition mlKem1024Encapsulate (serializedPublicKey random32 : bytes) : result (bytes * bytes) :=
  rawPublicKey ← parseMlKem1024PublicKey serializedPublicKey;
  r ← k1024_encapsulate rawPublicKey random32;
  sharedSecret ← asKyberSharedSecret r.1;
  ciphertext ← serializeMlKem1024Ciphertext r.2;
  Ok (sharedSecret, ciphertext).

Definition mlKem1024Decapsulate (serializedCiphertext privateKey : bytes) : result bytes :=
  ciphertext ← parseMlKem1024Ciphertext serializedCiphertext;
  throw_when (negb (len privateKey =? ML_KEM_1024_PRIVATE_KEY_BYTES)) (Error "Invalid ML-KEM-1024 private key") ;;
  sharedSecret ← k1024_decapsulate ciphertext privateKey;
  asKyberSharedSecret sharedSecret.
End MlKem.

(** FIPS 203: the sizes, and decapsulation inverts encapsulation. *)
Class MlKem1024Laws (K : MlKem1024) : Prop := {
  k1024_sizes : forall r, length r = 64%nat -> let '(pk, sk) := k1024_keygen r in
    len pk = ML_KEM_1024_RAW_PUBLIC_KEY_BYTES /\ len sk = ML_KEM_1024_PRIVATE_KEY_BYTES;
  k1024_correct : forall r m, length r = 64%nat -> length m = 32%nat -> let '(pk, sk) := k1024_keygen r in
    exists ss ct, k1024_encapsulate pk m = Ok (ss, ct) /\ k1024_decapsulate ct sk = Ok ss /\
      length ss = 32%nat /\ len ct = ML_KEM_1024_RAW_CIPHERTEXT_BYTES }.

(** ** Prekey signatures *)
Definition PREKEY_SIGNATURE_V1_DOMAIN : string := "signal-protocol-js prekey signature v1".
Definition PREKEY_ALGORITHM_X25519 : Z := 0x01.
Definition PREKEY_ALGORITHM_ML_KEM_1024 : Z := 0x0a.

Definition uint32be (value : Z) : result bytes :=
  throw_when (negb (isSafeInteger value) || (value <? 0) || (value >? 0xffffffff)) (Error "Prekey ID must be an unsigned 32-bit integer") ;;
  Ok [u8 (js_ushr value 24); u8 (js_ushr value 16); u8 (js_ushr value 8); u8 value].

Section Signatures.
Context {S : Sha256} {E : Ed25519}.

Definition createPreKeySignatureContext (identity : CompositeIdentityV1) (algorithmTag keyId : Z) (serializedPublicKey : bytes) : result bytes :=
  throw_when (negb (algorithmTag =? PREKEY_ALGORITHM_X25519) && negb (algorithmTag =? PREKEY_ALGORITHM_ML_KEM_1024))
    (Error "Unsupported prekey algorithm tag") ;;
  throw_when (len serializedPublicKey =? 0) (Error "Prekey public key cannot be empty") ;;
  throw_when ((algorithmTag =? PREKEY_ALGORITHM_ML_KEM_1024) && negb (nthZ 0 serializedPublicKey 0 =? PREKEY_ALGORITHM_ML_KEM_1024))
    (Error "ML-KEM-1024 prekey signature requires the complete 0x0A-tagged public key") ;;
  commitment ← deriveIdentityCommitment identity;
  id ← uint32be keyId;
  Ok (bytes_of_string PREKEY_SIGNATURE_V1_DOMAIN ++ commitment ++ [u8 algorithmTag] ++ id ++ serializedPublicKey).

Definition signPreKey (identityKeyPair : IdentityKeyPair) (algorithmTag keyId : Z) (serializedPublicKey : bytes) : result bytes :=
  let identity := {| ci_version := 1; x25519PublicKey := publicKey (dhKey identityKeyPair);
                     ed25519PublicKey := publicKey (signingKey identityKeyPair) |} in
  context ← createPreKeySignatureContext identity algorithmTag keyId serializedPublicKey;
  ed25519_sign context (privateKey (signingKey identityKeyPair)).

Definition verifyPreKeySignature (identity : CompositeIdentityV1) (algorithmTag keyId : Z) (serializedPublicKey signature : bytes) : result bool :=
  context ← createPreKeySignatureContext identity algorithmTag keyId serializedPublicKey;
  Ok (crypto_verify (ed25519PublicKey identity) context signature).
End Signatures.
