(* ===== verification/SessionRecord.v ===== *)
(** * Session states and records ([types/session.ts], [session/session-resolver.ts])

    The fields of [SessionState] are grouped: the ratchet fields are the
    record [RatchetState] of [DoubleRatchet], and [PendingPreKey] holds the
    fields that [withoutPendingPreKey] deletes.  The device IDs, which repeat
    the addresses, and the Kyber refresh fields, which nothing sets, are left
    out.  [archivedSessions] is an object with string keys (Base64 text of a
    key, never an integer index), so it iterates in the order of insertion. *)
From S2P Require Import Prelude JsMap Utf8 Crypto Identity SignalMessage DoubleRatchet SpqrState.

Definition CURRENT_SESSION_RECORD_VERSION : Z := 4.

(** ** Sessions *)
Record TripleRatchetState := { spqrState : SPQRState; enabled : bool; enabledAt : Z }.

(** What an unacknowledged initiator repeats in every PreKey message. *)
Record PendingPreKey := {
  unacknowledgedPreKeyMessage : option bool;
  usedSignedPreKeyId : option Z; usedOneTimePreKeyId : option Z;
  usedKyberPreKeyId : option Z; usedKemOneTimePreKeyId : option Z;
  kyberCiphertext : option bytes; kemOneTimePreKeyCiphertext : option bytes }.

Definition no_pending : PendingPreKey := {|
  unacknowledgedPreKeyMessage := None; usedSignedPreKeyId := None; usedOneTimePreKeyId := None;
  usedKyberPreKeyId := None; usedKemOneTimePreKeyId := None; kyberCiphertext := None; kemOneTimePreKeyCiphertext := None |}.

Record KyberPreKeyUse := {
  use_kyberPreKeyId : Z; use_instanceId : bytes; use_signedPreKeyId : Z; use_baseKeyBytes : bytes }.

(** The prekeys that the first authenticated message of a responder consumes. *)
Record PendingPreKeyDeletion := {
  del_oneTimePreKeyId : option Z; del_kemOneTimePreKeyId : option Z;
  del_kyberPreKeyUse : option KyberPreKeyUse; del_identityType : IdentityType }.

Record SessionState := {
  baseKey : bytes;
  localAddress : ProtocolAddress; remoteAddress : ProtocolAddress;
  localRegistrationId : Z; remoteRegistrationId : Z;
  ratchet : RatchetState;
  recipientIdentityType : option IdentityType;
  pendingPreKey : PendingPreKey;
  pendingPreKeyDeletion : option PendingPreKeyDeletion;
  isInitiator : bool;
  hasReceivedMessage : option bool;
  identityKeyPair : IdentityKeyPair;
  localIdentity : CompositeIdentityV1; remoteIdentity : CompositeIdentityV1;
  localIdentityType : IdentityType; remoteIdentityType : IdentityType;
  createdAt : Z; lastUsedAt : Z;
  tripleRatchet : option TripleRatchetState }.

(** Assignments to the fields that the operations change. *)
Definition upd (r : RatchetState) (p : PendingPreKey) (d : option PendingPreKeyDeletion) (h : option bool) (used : Z)
    (t : option TripleRatchetState) (s : SessionState) : SessionState := {|
  baseKey := baseKey s; localAddress := localAddress s; remoteAddress := remoteAddress s;
  localRegistrationId := localRegistrationId s; remoteRegistrationId := remoteRegistrationId s;
  ratchet := r; recipientIdentityType := recipientIdentityType s; pendingPreKey := p; pendingPreKeyDeletion := d;
  isInitiator := isInitiator s; hasReceivedMessage := h; identityKeyPair := identityKeyPair s;
  localIdentity := localIdentity s; remoteIdentity := remoteIdentity s;
  localIdentityType := localIdentityType s; remoteIdentityType := remoteIdentityType s;
  createdAt := createdAt s; lastUsedAt := used; tripleRatchet := t |}.

Definition with_ratchet_state r (s : SessionState) : SessionState :=
  upd r (pendingPreKey s) (pendingPreKeyDeletion s) (hasReceivedMessage s) (lastUsedAt s) (tripleRatchet s) s.
Definition with_pendingPreKey p (s : SessionState) : SessionState :=
  upd (ratchet s) p (pendingPreKeyDeletion s) (hasReceivedMessage s) (lastUsedAt s) (tripleRatchet s) s.
Definition with_pendingDeletion d (s : SessionState) : SessionState :=
  upd (ratchet s) (pendingPreKey s) d (hasReceivedMessage s) (lastUsedAt s) (tripleRatchet s) s.
Definition with_hasReceived h (s : SessionState) : SessionState :=
  upd (ratchet s) (pendingPreKey s) (pendingPreKeyDeletion s) h (lastUsedAt s) (tripleRatchet s) s.
Definition with_lastUsed u (s : SessionState) : SessionState :=
  upd (ratchet s) (pendingPreKey s) (pendingPreKeyDeletion s) (hasReceivedMessage s) u (tripleRatchet s) s.
Definition with_tripleRatchet t (s : SessionState) : SessionState :=
  upd (ratchet s) (pendingPreKey s) (pendingPreKeyDeletion s) (hasReceivedMessage s) (lastUsedAt s) t s.

(** ** Records *)
Record SessionRecordMetadata := {
  m_lastUsedAt : option Z; m_messagesSent : option Z; m_messagesReceived : option Z; m_isActive : option bool;
  m_label : option jsstring; m_createdAt : option Z; m_lastSentAt : option (option Z); m_lastReceivedAt : option (option Z);
  m_isInitiator : option bool }.

Definition no_metadata : SessionRecordMetadata := {|
  m_lastUsedAt := None; m_messagesSent := None; m_messagesReceived := None; m_isActive := None; m_label := None;
  m_createdAt := None; m_lastSentAt := None; m_lastReceivedAt := None; m_isInitiator := None |}.

Record SessionRecord := {
  currentSession : option SessionState; archivedSessions : Map bytes SessionState; version : Z;
  metadata : option SessionRecordMetadata }.

Definition set_currentSession (c : option SessionState) (r : SessionRecord) : SessionRecord := {|
  currentSession := c; archivedSessions := archivedSessions r; version := version r; metadata := metadata r |}.
Definition set_archived (a : Map bytes SessionState) (r : SessionRecord) : SessionRecord := {|
  currentSession := currentSession r; archivedSessions := a; version := version r; metadata := metadata r |}.
Definition set_metadata (m : option SessionRecordMetadata) (r : SessionRecord) : SessionRecord := {|
  currentSession := currentSession r; archivedSessions := archivedSessions r; version := version r; metadata := m |}.

Definition assertSessionStateIdentityProfile (session : SessionState) (label : string) : result unit :=
  encodeCompositeIdentityV1 (localIdentity session) ;;
  encodeCompositeIdentityV1 (remoteIdentity session) ;;
  expectedLocalIdentity ← createCompositeIdentityV1 (identityKeyPair session);
  equal ← compositeIdentitiesEqual expectedLocalIdentity (localIdentity session);
  throw_when (negb equal) (Error (label +:+ " local identity does not match its identity key pair")) ;;
  throw_when (len (baseKey session) =? 0) (Error (label +:+ " must contain a non-empty base key")).

(** The loop over [Object.entries(archivedSessions)]. *)
Fixpoint assert_archived (archived : Map bytes SessionState) : result unit :=
  match archived with
  | [] => Ok tt
  | (key, session) :: archived =>
      assertSessionStateIdentityProfile session "Archived session" ;;
      throw_when (negb (bool_decide (baseKey session = key))) (Error "Archived session does not match its map key") ;;
      assert_archived archived
  end.

Definition assertCurrentSessionRecord (record : SessionRecord) : result unit :=
  throw_when (negb (version record =? CURRENT_SESSION_RECORD_VERSION)) (Error "Unsupported session record version") ;;
  (match currentSession record with
   | Some session => assertSessionStateIdentityProfile session "Current session"
   | None => Ok tt
   end) ;;
  assert_archived (archivedSessions record).

(** ** The namespace [SessionRecord] *)
Definition MAX_ARCHIVED_SESSIONS : Z := 40.

Definition create_record (session : SessionState) : SessionRecord := {|
  currentSession := Some session; archivedSessions := []; version := CURRENT_SESSION_RECORD_VERSION; metadata := None |}.

Definition withoutPendingPreKey (session : SessionState) : SessionState := with_pendingPreKey no_pending session.

Definition insertArchived (session : SessionState) (archived : Map bytes SessionState) : Map bytes SessionState :=
  Map_set (baseKey session) session (Map_delete (baseKey session) archived).

(** [archivedSessions] with the current session, if there is one. *)
Definition archive_old (record : SessionRecord) : Map bytes SessionState :=
  match currentSession record with
  | Some session => insertArchived (withoutPendingPreKey session) (archivedSessions record)
  | None => archivedSessions record
  end.

Definition archiveCurrent (newSession : option SessionState) (maxArchived : Z) (record : SessionRecord) : SessionRecord :=
  let archived := archive_old record in
  let archivedKeys := archived.*1 in
  let excess := take (Z.to_nat (Z.max 0 (len archivedKeys - maxArchived))) archivedKeys in
  set_currentSession newSession (set_archived (foldl (fun m key => Map_delete key m) archived excess) record).

Definition getAllSessions (record : SessionRecord) : list SessionState :=
  option_list (currentSession record) ++ (archivedSessions record).*2.

Definition findSession (record : SessionRecord) (key : bytes) : option SessionState :=
  match currentSession record with
  | Some session => if decide (baseKey session = key) then Some session else Map_get key (archivedSessions record)
  | None => Map_get key (archivedSessions record)
  end.

Definition hasCurrentSession (record : SessionRecord) : bool := bool_decide (is_Some (currentSession record)).

(** [None] stands for [false], with the record unchanged. *)
Definition record_promoteSession (key : bytes) (record : SessionRecord) : option SessionRecord :=
  match Map_get key (archivedSessions record) with
  | None => None
  | Some sessionToPromote => Some (set_currentSession (Some sessionToPromote) (set_archived (Map_delete key (archive_old record)) record))
  end.

Definition getArchivedCount (record : SessionRecord) : Z := len (archivedSessions record).

Definition MAX_UNACKNOWLEDGED_SESSION_AGE_MS : Z := 30 * 24 * 60 * 60 * 1000.

Definition hasUsableSenderChain (now : Z) (record : SessionRecord) : bool :=
  match currentSession record with
  | None => false
  | Some session =>
      if falsy (CKs (ratchet session)) then false
      else if bool_decide (hasReceivedMessage session = Some false)
      then negb (now - createdAt session >? MAX_UNACKNOWLEDGED_SESSION_AGE_MS)
      else true
  end.

Definition archiveCurrentState (record : SessionRecord) : SessionRecord := archiveCurrent None MAX_ARCHIVED_SESSIONS record.

(** ** [SessionResolver] *)
Definition insertSession (now : Z) (sessionRecord : option SessionRecord) (newSession : SessionState) (initiator : bool)
    (maxArchived : Z) : SessionRecord :=
  match sessionRecord with
  | None => {|
      currentSession := Some newSession; archivedSessions := []; version := CURRENT_SESSION_RECORD_VERSION;
      metadata := Some {| m_lastUsedAt := None; m_messagesSent := None; m_messagesReceived := None; m_isActive := Some true;
                          m_label := None; m_createdAt := Some now; m_lastSentAt := Some None; m_lastReceivedAt := Some None;
                          m_isInitiator := Some initiator |} |}
  | Some record =>
      let old := default no_metadata (metadata record) in
      set_metadata (Some {|
        m_lastUsedAt := Some now; m_messagesSent := m_messagesSent old; m_messagesReceived := m_messagesReceived old;
        m_isActive := m_isActive old; m_label := m_label old; m_createdAt := Some (default now (m_createdAt old));
        m_lastSentAt := m_lastSentAt old; m_lastReceivedAt := m_lastReceivedAt old; m_isInitiator := Some initiator |})
        (archiveCurrent (Some newSession) maxArchived record)
  end.

Record DecryptionCandidate := { cand_session : SessionState; cand_baseKey : option bytes; cand_isActive : bool }.

Definition findDecryptingSessions (sessionRecord : option SessionRecord) : list DecryptionCandidate :=
  match sessionRecord with
  | None => []
  | Some record =>
      option_list ((fun s => {| cand_session := s; cand_baseKey := None; cand_isActive := true |}) <$> currentSession record) ++
      map (fun e => {| cand_session := e.2; cand_baseKey := Some e.1; cand_isActive := false |}) (archivedSessions record)
  end.

Definition promoteSession (now : Z) (record : SessionRecord) (key : bytes) : option SessionRecord :=
  match record_promoteSession key record with
  | None => None
  | Some copy =>
      let old := default no_metadata (metadata copy) in
      Some (set_metadata (Some {|
        m_lastUsedAt := Some now; m_messagesSent := m_messagesSent old; m_messagesReceived := m_messagesReceived old;
        m_isActive := m_isActive old; m_label := m_label old; m_createdAt := m_createdAt old; m_lastSentAt := m_lastSentAt old;
        m_lastReceivedAt := m_lastReceivedAt old; m_isInitiator := m_isInitiator old |}) copy)
  end.

Definition archiveCurrentSession (record : SessionRecord) (maxArchived : Z) : SessionRecord := archiveCurrent None maxArchived record.
