(* ===== verification/Pqxdh.v ===== *)
(** * PQXDH ([protocol/pqxdh/pqxdh.ts], [session/handshake.ts])

    Base64 strings stand for their bytes, so a field is canonical when its
    bytes have the expected length.  The private key of the ephemeral key pair
    and the randomness of the encapsulation are arguments.  The protocol
    selection callback, the diagnostics and the zeroing of secrets are left
    out; the remote address of a [PQXDHRequiredError] only names the peer. *)
From S2P Require Import Prelude Utf8 Crypto Identity DoubleRatchet SpqrState KeyFormats.

(** ** Prekeys ([keys/types.ts]) *)
(** [EcSignedPreKey], [KyberPreKey] and [KemOneTimePreKey] have these fields. *)
Record SignedPreKey := {
  sp_keyId : Z; sp_publicKey : bytes; sp_privateKey : bytes; sp_signature : bytes; sp_timestamp : Z }.

Record EcOneTimePreKey := { ot_keyId : Z; ot_publicKey : bytes; ot_privateKey : bytes }.

(** The public parts, in a bundle. *)
Record SignedPreKeyPublic := { spp_keyId : Z; spp_publicKey : bytes; spp_signature : bytes }.
Record OneTimePreKeyPublic := { otp_keyId : Z; otp_publicKey : bytes }.

Record PreKeyBundle := {
  b_registrationId : Z; b_deviceId : Z; b_identity : CompositeIdentityV1;
  ecSignedPreKey : SignedPreKeyPublic; ecOneTimePreKey : option OneTimePreKeyPublic;
  kemLastResortPreKey : option SignedPreKeyPublic; kemOneTimePreKey : option SignedPreKeyPublic }.

(** The fields of [PreKeyMessage] ([types/messages.ts]) that concern the key
    agreement and the session. *)
Record PreKeyMessage := {
  pm_senderIdentity : CompositeIdentityV1; pm_senderEphemeralKey : bytes; pm_senderRegistrationId : Z;
  pm_recipientIdentityType : IdentityType;
  pm_usedSignedPreKeyId : option Z; pm_usedOneTimePreKeyId : option Z;
  pm_usedKyberPreKeyId : option Z; pm_kyberCiphertext : option bytes;
  pm_usedKemOneTimePreKeyId : option Z; pm_kemOneTimePreKeyCiphertext : option bytes }.

(** ** The key agreement ([pqxdh.ts]) *)
Record PQXDHResult := {
  px_sharedSecret : bytes; px_additionalDerivedBytes : bytes; px_ephemeralKeyPair : KeyPair;
  px_usedSignedPreKeyId : Z; px_usedOneTimePreKeyId : option Z;
  px_kyberCiphertext : option bytes; px_usedKyberPreKeyId : option Z;
  px_kemOneTimePreKeyCiphertext : option bytes; px_usedKemOneTimePreKeyId : option Z }.

Record PQXDHResponderResult := { pr_sharedSecret : bytes; pr_additionalDerivedBytes : bytes }.

Record PQXDHResponderInput := {
  in_senderIdentityKey : bytes; in_senderEphemeralKey : bytes; in_usedSignedPreKeyId : option Z;
  in_usedOneTimePreKeyId : option Z; in_kyberCiphertext : option bytes; in_usedKyberPreKeyId : option Z;
  in_kemOneTimePreKeyCiphertext : option bytes; in_usedKemOneTimePreKeyId : option Z }.

Definition PQXDH_INFO_DEFAULT : string := "OpenE2EE_X25519_SHA-256_ML-KEM-1024".

(** The empty string overrides nothing. *)
Definition resolveKeyExchangeInfoStrings (override : option bytes) : bytes :=
  match override with Some (c :: s) => c :: s | _ => bytes_of_string PQXDH_INFO_DEFAULT end.

Definition concatPQXDHSecrets (x3dhIKM kyberSharedSecret : bytes) : bytes := x3dhIKM ++ kyberSharedSecret.

Definition SIGNATURE_FAILED : exn := EncryptionError "SIGNATURE_VERIFICATION_FAILED".

(** [f x] for a present [x], nothing for an absent one. *)
Definition optM {A B} (f : A -> result B) (x : option A) : result (option B) :=
  match x with Some x => y ← f x; Ok (Some y) | None => Ok None end.

Section Pqxdh.
Context {C : RatchetCrypto} {S : Sha256} {E : Ed25519} {V : Curve25519} {K : MlKem1024}.

(** F || DH1 || DH2 || DH3 || [DH4] *)
Definition dh_ikm (dh1 dh2 dh3 : bytes) (dh4 : option bytes) : bytes :=
  replicate 32 0xff ++ dh1 ++ dh2 ++ dh3 ++ default [] dh4.

(** The single HKDF call of both sides: SK and the 64 additional bytes. *)
Definition derive_pqxdh (ikm info : bytes) : bytes * bytes :=
  let derivedKeys := hkdf ikm (replicate 32 0) info 96 in
  (take 32 derivedKeys, take 64 (drop 32 derivedKeys)).

(** Verification of a KEM prekey immediately before the encapsulation. *)
Definition encapsulate_to (identity : CompositeIdentityV1) (prekey : SignedPreKeyPublic) (random32 : bytes) : result (bytes * bytes) :=
  valid ← verifyPreKeySignature identity PREKEY_ALGORITHM_ML_KEM_1024 (spp_keyId prekey) (spp_publicKey prekey) (spp_signature prekey);
  throw_when (negb valid) SIGNATURE_FAILED ;;
  mlKem1024Encapsulate (spp_publicKey prekey) random32.

Definition performPQXDH (myIdentityKey : IdentityKeyPair) (theirBundle : PreKeyBundle) (infoString : bytes)
    (ephemeral random32 : bytes) : result PQXDHResult :=
  match kemOneTimePreKey theirBundle, kemLastResortPreKey theirBundle with
  | None, None => Throw SIGNATURE_FAILED
  | kemOneTime, kemLastResort =>
      let spk := ecSignedPreKey theirBundle in
      let identity := b_identity theirBundle in
      isValid ← verifyPreKeySignature identity PREKEY_ALGORITHM_X25519 (spp_keyId spk) (spp_publicKey spk) (spp_signature spk);
      throw_when (negb isValid) SIGNATURE_FAILED ;;
      validateX25519PublicKey (x25519PublicKey identity) ;;
      validateX25519PublicKey (spp_publicKey spk) ;;
      optM (fun k => validateX25519PublicKey (otp_publicKey k)) (ecOneTimePreKey theirBundle) ;;
      let ephemeralKey := generateECDHKeyPair ephemeral in
      dh1 ← computeSharedSecret (privateKey (dhKey myIdentityKey)) (spp_publicKey spk);
      dh2 ← computeSharedSecret ephemeral (x25519PublicKey identity);
      dh3 ← computeSharedSecret ephemeral (spp_publicKey spk);
      dh4 ← optM (fun k => computeSharedSecret ephemeral (otp_publicKey k)) (ecOneTimePreKey theirBundle);
      let ikm := dh_ikm dh1 dh2 dh3 dh4 in
      '(secret, ciphertext) ← (match kemOneTime, kemLastResort with
        | Some k, _ => encapsulate_to identity k random32
        | None, Some k => encapsulate_to identity k random32
        | None, None => Throw SIGNATURE_FAILED
        end);
      let '(sharedSecret, additional) := derive_pqxdh (concatPQXDHSecrets ikm secret) infoString in
      Ok {| px_sharedSecret := sharedSecret; px_additionalDerivedBytes := additional; px_ephemeralKeyPair := ephemeralKey;
            px_usedSignedPreKeyId := spp_keyId spk;
            px_usedOneTimePreKeyId := otp_keyId <$> ecOneTimePreKey theirBundle;
            px_kyberCiphertext := match kemOneTime with Some _ => None | None => Some ciphertext end;
            px_usedKyberPreKeyId := match kemOneTime with Some _ => None | None => spp_keyId <$> kemLastResort end;
            px_kemOneTimePreKeyCiphertext := match kemOneTime with Some _ => Some ciphertext | None => None end;
            px_usedKemOneTimePreKeyId := spp_keyId <$> kemOneTime |}
  end.

(** The secret of the KEM mode that the message selects. *)
Definition responder_kem (myKyberPreKey myKemOneTimePreKey : option SignedPreKey) (input : PQXDHResponderInput) : result bytes :=
  match truthy (in_kemOneTimePreKeyCiphertext input), myKemOneTimePreKey with
  | Some ct, Some key => mlKem1024Decapsulate ct (sp_privateKey key)
  | _, _ =>
      match truthy (in_kyberCiphertext input) with
      | Some ct =>
          match myKyberPreKey with
          | Some key => mlKem1024Decapsulate ct (sp_privateKey key)
          | None => Throw SIGNATURE_FAILED
          end
      | None => Throw SIGNATURE_FAILED
      end
  end.

Definition performPQXDHResponder (myIdentityKey : IdentityKeyPair) (mySignedPreKey : SignedPreKey)
    (myOneTimePreKey : option EcOneTimePreKey) (myKyberPreKey myKemOneTimePreKey : option SignedPreKey)
    (input : PQXDHResponderInput) (infoString : bytes) : result PQXDHResponderResult :=
  validateX25519PublicKey (in_senderIdentityKey input) ;;
  validateX25519PublicKey (in_senderEphemeralKey input) ;;
  dh1 ← computeSharedSecret (sp_privateKey mySignedPreKey) (in_senderIdentityKey input);
  dh2 ← computeSharedSecret (privateKey (dhKey myIdentityKey)) (in_senderEphemeralKey input);
  dh3 ← computeSharedSecret (sp_privateKey mySignedPreKey) (in_senderEphemeralKey input);
  dh4 ← (match in_usedOneTimePreKeyId input with
         | Some _ => optM (fun k => computeSharedSecret (ot_privateKey k) (in_senderEphemeralKey input)) myOneTimePreKey
         | None => Ok None
         end);
  let ikm := dh_ikm dh1 dh2 dh3 dh4 in
  kyberSharedSecret ← responder_kem myKyberPreKey myKemOneTimePreKey input;
  let '(sharedSecret, additional) := derive_pqxdh (concatPQXDHSecrets ikm kyberSharedSecret) infoString in
  Ok {| pr_sharedSecret := sharedSecret; pr_additionalDerivedBytes := additional |}.

(** ** The handshake ([handshake.ts]) *)
Definition buildPqxdhResponderInput (m : PreKeyMessage) (senderIdentityKey senderEphemeralKey : bytes) : PQXDHResponderInput := {|
  in_senderIdentityKey := senderIdentityKey; in_senderEphemeralKey := senderEphemeralKey;
  in_usedSignedPreKeyId := pm_usedSignedPreKeyId m; in_usedOneTimePreKeyId := pm_usedOneTimePreKeyId m;
  in_kyberCiphertext := pm_kyberCiphertext m; in_usedKyberPreKeyId := pm_usedKyberPreKeyId m;
  in_kemOneTimePreKeyCiphertext := pm_kemOneTimePreKeyCiphertext m; in_usedKemOneTimePreKeyId := pm_usedKemOneTimePreKeyId m |}.

Definition bundleHasAnyKemMaterial (b : PreKeyBundle) : bool :=
  bool_decide (is_Some (kemLastResortPreKey b)) || bool_decide (is_Some (kemOneTimePreKey b)).

Definition assertUint32_between (value : Z) (label : string) (min max : Z) : result unit :=
  throw_when (negb (isSafeInteger value) || (value <? min) || (value >? max)) (Error (label +:+ " must be an integer")).

Definition decodeCanonicalBase64 (value : bytes) (label : string) (expectedLength : Z) : result bytes :=
  throw_when (negb (len value =? expectedLength)) (Error (label +:+ " must be canonical base64")) ;; Ok value.

Definition validate_kem_prekey (label : string) (prekey : SignedPreKeyPublic) : result unit :=
  assertUint32_between (spp_keyId prekey) label 0 0xffffffff ;;
  publicKey ← decodeCanonicalBase64 (spp_publicKey prekey) label 1569;
  parseMlKem1024PublicKey publicKey ;;
  decodeCanonicalBase64 (spp_signature prekey) label 64 ;; Ok tt.

Definition validatePreKeyBundle (b : PreKeyBundle) : result unit :=
  assertUint32_between (b_registrationId b) "registrationId" 1 16384 ;;
  assertUint32_between (b_deviceId b) "deviceId" 1 0xffffffff ;;
  encodeCompositeIdentityV1 (b_identity b) ;;
  validateX25519PublicKey (x25519PublicKey (b_identity b)) ;;
  let spk := ecSignedPreKey b in
  assertUint32_between (spp_keyId spk) "EC signed prekey ID" 0 0xffffffff ;;
  decodeCanonicalBase64 (spp_publicKey spk) "EC signed prekey" 32 ;;
  validateX25519PublicKey (spp_publicKey spk) ;;
  decodeCanonicalBase64 (spp_signature spk) "EC signed prekey signature" 64 ;;
  optM (fun k => assertUint32_between (otp_keyId k) "EC one-time prekey ID" 0 0xffffffff ;;
                 decodeCanonicalBase64 (otp_publicKey k) "EC one-time prekey" 32 ;;
                 validateX25519PublicKey (otp_publicKey k)) (ecOneTimePreKey b) ;;
  optM (validate_kem_prekey "KEM last-resort prekey") (kemLastResortPreKey b) ;;
  optM (validate_kem_prekey "KEM one-time prekey") (kemOneTimePreKey b) ;;
  Ok tt.

(** [PQXDHRequiredError] by its reason. *)
Definition PQXDH_REQUIRED : exn := CodedError "PQXDHRequiredError" "PQXDH_REQUIRED".
Definition PQXDH_FAILED : exn := CodedError "PQXDHRequiredError" "PQXDH_FAILED".

(** [try { r } catch { throw e }] *)
Definition rethrow {A} (e : exn) (r : result A) : result A := match r with Ok a => Ok a | Throw _ => Throw e end.

Definition performKeyAgreement (identityKeyPair : IdentityKeyPair) (prekeyBundle : PreKeyBundle) (info : option bytes)
    (ephemeral random32 : bytes) : result PQXDHResult :=
  let infoString := resolveKeyExchangeInfoStrings info in
  validatePreKeyBundle prekeyBundle ;;
  throw_when (negb (bundleHasAnyKemMaterial prekeyBundle)) PQXDH_REQUIRED ;;
  rethrow PQXDH_FAILED (performPQXDH identityKeyPair prekeyBundle infoString ephemeral random32).

Definition performResponderKeyAgreement (identityKeyPair : IdentityKeyPair) (signedPreKey : SignedPreKey)
    (oneTimePreKey : option EcOneTimePreKey) (kyberPreKey kemOneTimePreKey : option SignedPreKey)
    (m : PreKeyMessage) (aliceIdentityKey aliceEphemeralKey : bytes) (info : option bytes) : result PQXDHResponderResult :=
  let infoString := resolveKeyExchangeInfoStrings info in
  let hasLastResortId := bool_decide (is_Some (pm_usedKyberPreKeyId m)) in
  let hasLastResortCiphertext := negb (falsy (pm_kyberCiphertext m)) in
  let hasOneTimeId := bool_decide (is_Some (pm_usedKemOneTimePreKeyId m)) in
  let hasOneTimeCiphertext := negb (falsy (pm_kemOneTimePreKeyCiphertext m)) in
  throw_when (negb (Bool.eqb hasLastResortId hasLastResortCiphertext)) (EncryptionError "INVALID_CIPHERTEXT") ;;
  throw_when (negb (Bool.eqb hasOneTimeId hasOneTimeCiphertext)) (EncryptionError "INVALID_CIPHERTEXT") ;;
  let hasLastResortMetadata := hasLastResortId && hasLastResortCiphertext in
  let hasOneTimeMetadata := hasOneTimeId && hasOneTimeCiphertext in
  throw_when (hasLastResortMetadata && hasOneTimeMetadata) (EncryptionError "INVALID_CIPHERTEXT") ;;
  if hasLastResortMetadata || hasOneTimeMetadata then
    throw_when (hasLastResortMetadata && negb (bool_decide (is_Some kyberPreKey))) PQXDH_REQUIRED ;;
    throw_when (hasOneTimeMetadata && negb (bool_decide (is_Some kemOneTimePreKey))) PQXDH_REQUIRED ;;
    rethrow PQXDH_FAILED
      (performPQXDHResponder identityKeyPair signedPreKey oneTimePreKey kyberPreKey kemOneTimePreKey
         (buildPqxdhResponderInput m aliceIdentityKey aliceEphemeralKey) infoString)
  else Throw PQXDH_REQUIRED.
End Pqxdh.

(** ** Key generation ([keys/generation.ts])

    Every draw of random bytes is an argument: a byte list, or a function of
    the position for the loops. *)
(** [new Uint8Array([x, y])] read as [(x << 8) | y] *)
Definition random_uint16 (b : bytes) : Z := js_or (js_shl (nthZ 0 b 0) 8) (nthZ 0 b 1).

Definition generateRegistrationId (random2 : bytes) : Z := Z.rem (random_uint16 random2) 16383 + 1.

Definition generateEcSignedPreKeyId (random3 : bytes) : Z :=
  Z.rem (js_or (js_or (js_shl (nthZ 0 random3 0) 16) (js_shl (nthZ 0 random3 1) 8)) (nthZ 0 random3 2)) 1000000.

Section Generation.
Context {C : RatchetCrypto} {S : Sha256} {E : Ed25519} {K : MlKem1024}.

Definition generateSigningKeyPair (random32 : bytes) : KeyPair :=
  {| publicKey := ed25519_public random32; privateKey := random32 |}.

Definition generateIdentityKeyPair (dhRandom signingRandom random2 : bytes) : IdentityKeyPair := {|
  dhKey := generateECDHKeyPair dhRandom; signingKey := generateSigningKeyPair signingRandom;
  registrationId := generateRegistrationId random2 |}.

(** [id ?? generateEcSignedPreKeyId()] *)
Definition generateEcSignedPreKey (now : Z) (identityKeyPair : IdentityKeyPair) (id : option Z) (random32 random3 : bytes) : result SignedPreKey :=
  let prekeyPair := generateECDHKeyPair random32 in
  let keyId := default (generateEcSignedPreKeyId random3) id in
  signature ← signPreKey identityKeyPair PREKEY_ALGORITHM_X25519 keyId (publicKey prekeyPair);
  Ok {| sp_keyId := keyId; sp_publicKey := publicKey prekeyPair; sp_privateKey := privateKey prekeyPair;
        sp_signature := signature; sp_timestamp := now |}.

Definition generateEcOneTimePreKeys (count startId : Z) (random32 : Z -> bytes) : list EcOneTimePreKey :=
  map (fun i => let keyPair := generateECDHKeyPair (random32 i) in
                {| ot_keyId := startId + i; ot_publicKey := publicKey keyPair; ot_privateKey := privateKey keyPair |})
      (seqZ 0 count).

Definition generateKyberLastResortPreKey (now : Z) (identityKeyPair : IdentityKeyPair) (id : Z) (random64 : bytes) : result SignedPreKey :=
  '(publicKey, privateKey) ← generateMlKem1024KeyPair random64;
  signature ← signPreKey identityKeyPair PREKEY_ALGORITHM_ML_KEM_1024 id publicKey;
  Ok {| sp_keyId := id; sp_publicKey := publicKey; sp_privateKey := privateKey; sp_signature := signature; sp_timestamp := now |}.

Definition generateKemOneTimePreKeys (now : Z) (identityKeyPair : IdentityKeyPair) (count startId : Z) (random64 : Z -> bytes) :
    result (list SignedPreKey) :=
  mapM_result (fun i =>
    '(publicKey, privateKey) ← generateMlKem1024KeyPair (random64 i);
    let keyId := startId + i in
    signature ← signPreKey identityKeyPair PREKEY_ALGORITHM_ML_KEM_1024 keyId publicKey;
    Ok {| sp_keyId := keyId; sp_publicKey := publicKey; sp_privateKey := privateKey; sp_signature := signature; sp_timestamp := now |})
    (seqZ 0 count).
End Generation.
