(* ===== verification/SessionBuilder.v ===== *)
(** * Building sessions ([session/builder.ts], [session/factory.ts])

    [Date.now()] is read once per session here, in the source once per field.
    The [KeyPair] of the signed prekey becomes the first ratchet key pair of
    the responder, whose chains stay unset until the first message. *)
From S2P Require Import Prelude Utf8 ProtoWire SignalMessage Crypto Identity SpqrState DoubleRatchet KeyFormats SessionRecord Pqxdh.

(** [HKDF_ADDITIONAL_RANGES]: (start, end) *)
Definition RANGE_CK : Z * Z := (0, 32).
Definition RANGE_INITIAL_PQR_KEY : Z * Z := (32, 64).

Section Builder.
Context {C : RatchetCrypto} {S : Sha256} {E : Ed25519} {V : Curve25519} {K : MlKem1024}.

(** ** The factory *)
Record InitiatorSessionInput := {
  is_localAddress : ProtocolAddress; is_remoteAddress : ProtocolAddress; is_identityKeyPair : IdentityKeyPair;
  is_remoteIdentity : CompositeIdentityV1; is_remoteRegistrationId : Z; is_recipientIdentityType : IdentityType;
  is_ephemeralKeyPair : KeyPair; is_remoteSignedPreKey : SignedPreKeyPublic;
  is_rootKey : bytes; is_sendingChainKey : bytes; is_receivingChainKey : bytes;
  is_usedOneTimePreKeyId : option Z; is_usedKyberPreKeyId : option Z; is_kyberCiphertext : option bytes;
  is_usedKemOneTimePreKeyId : option Z; is_kemOneTimePreKeyCiphertext : option bytes }.

Definition createInitiatorSession (now : Z) (input : InitiatorSessionInput) : result SessionState :=
  localIdentity ← createCompositeIdentityV1 (is_identityKeyPair input);
  Ok {| baseKey := publicKey (is_ephemeralKeyPair input);
        localAddress := is_localAddress input; remoteAddress := is_remoteAddress input;
        localRegistrationId := registrationId (is_identityKeyPair input); remoteRegistrationId := is_remoteRegistrationId input;
        ratchet := {| DHs := Some (is_ephemeralKeyPair input); DHr := Some (spp_publicKey (is_remoteSignedPreKey input));
                      RK := is_rootKey input; CKs := Some (is_sendingChainKey input); Ns := 0;
                      CKr := Some (is_receivingChainKey input); Nr := 0; PN := 0; receiverChains := []; processedChains := ∅ |};
        recipientIdentityType := Some (is_recipientIdentityType input);
        pendingPreKey := {| unacknowledgedPreKeyMessage := Some true;
                            usedSignedPreKeyId := Some (spp_keyId (is_remoteSignedPreKey input));
                            usedOneTimePreKeyId := is_usedOneTimePreKeyId input;
                            usedKyberPreKeyId := is_usedKyberPreKeyId input;
                            usedKemOneTimePreKeyId := is_usedKemOneTimePreKeyId input;
                            kyberCiphertext := truthy (is_kyberCiphertext input);
                            kemOneTimePreKeyCiphertext := truthy (is_kemOneTimePreKeyCiphertext input) |};
        pendingPreKeyDeletion := None; isInitiator := true; hasReceivedMessage := Some false;
        identityKeyPair := is_identityKeyPair input; localIdentity := localIdentity; remoteIdentity := is_remoteIdentity input;
        localIdentityType := aci; remoteIdentityType := is_recipientIdentityType input;
        createdAt := now; lastUsedAt := now; tripleRatchet := None |}.

Record ResponderSessionInput := {
  rs_localAddress : ProtocolAddress; rs_remoteAddress : ProtocolAddress; rs_senderEphemeralKey : bytes;
  rs_identityKeyPair : IdentityKeyPair; rs_remoteIdentity : CompositeIdentityV1; rs_remoteRegistrationId : Z;
  rs_localIdentityType : IdentityType; rs_ecSignedPreKey : SignedPreKey; rs_rootKey : bytes;
  rs_sendingChainKey : option bytes; rs_receivingChainKey : option bytes }.

Definition createResponderSession (now : Z) (input : ResponderSessionInput) : result SessionState :=
  localIdentity ← createCompositeIdentityV1 (rs_identityKeyPair input);
  Ok {| baseKey := rs_senderEphemeralKey input;
        localAddress := rs_localAddress input; remoteAddress := rs_remoteAddress input;
        localRegistrationId := registrationId (rs_identityKeyPair input); remoteRegistrationId := rs_remoteRegistrationId input;
        ratchet := {| DHs := Some {| publicKey := sp_publicKey (rs_ecSignedPreKey input); privateKey := sp_privateKey (rs_ecSignedPreKey input) |};
                      DHr := None; RK := rs_rootKey input; CKs := rs_sendingChainKey input; Ns := 0;
                      CKr := rs_receivingChainKey input; Nr := 0; PN := 0; receiverChains := []; processedChains := ∅ |};
        recipientIdentityType := None; pendingPreKey := no_pending; pendingPreKeyDeletion := None;
        isInitiator := false; hasReceivedMessage := Some true;
        identityKeyPair := rs_identityKeyPair input; localIdentity := localIdentity; remoteIdentity := rs_remoteIdentity input;
        localIdentityType := rs_localIdentityType input; remoteIdentityType := aci;
        createdAt := now; lastUsedAt := now; tripleRatchet := None |}.

(** ** The builder *)
Record SessionBuilderResult := { sb_sessionState : SessionState; sb_initialRootKeyForSPQR : bytes }.

Definition range (r : Z * Z) (b : bytes) : bytes := slice b r.1 r.2.

Definition buildInitiatorSession (now : Z) (localAddress remoteAddress : ProtocolAddress) (identityKeyPair : IdentityKeyPair)
    (prekeyBundle : PreKeyBundle) (recipientIdentityType : IdentityType) (info : option bytes) (ephemeral random32 : bytes) :
    result SessionBuilderResult :=
  r ← performKeyAgreement identityKeyPair prekeyBundle info ephemeral random32;
  let initialRootKeyForSPQR := range RANGE_INITIAL_PQR_KEY (px_additionalDerivedBytes r) in
  dhOutput ← computeSharedSecret (privateKey (px_ephemeralKeyPair r)) (spp_publicKey (ecSignedPreKey prekeyBundle));
  let '(ratchetedRootKey, sendingChainKey) := kdfRootKey (px_sharedSecret r) dhOutput in
  let receivingChainKey := range RANGE_CK (px_additionalDerivedBytes r) in
  sessionState ← createInitiatorSession now {|
    is_localAddress := localAddress; is_remoteAddress := remoteAddress; is_identityKeyPair := identityKeyPair;
    is_remoteIdentity := b_identity prekeyBundle; is_remoteRegistrationId := b_registrationId prekeyBundle;
    is_recipientIdentityType := recipientIdentityType; is_ephemeralKeyPair := px_ephemeralKeyPair r;
    is_remoteSignedPreKey := ecSignedPreKey prekeyBundle; is_rootKey := ratchetedRootKey;
    is_sendingChainKey := sendingChainKey; is_receivingChainKey := receivingChainKey;
    is_usedOneTimePreKeyId := otp_keyId <$> ecOneTimePreKey prekeyBundle;
    is_usedKyberPreKeyId := px_usedKyberPreKeyId r; is_kyberCiphertext := px_kyberCiphertext r;
    is_usedKemOneTimePreKeyId := px_usedKemOneTimePreKeyId r;
    is_kemOneTimePreKeyCiphertext := px_kemOneTimePreKeyCiphertext r |};
  Ok {| sb_sessionState := sessionState; sb_initialRootKeyForSPQR := initialRootKeyForSPQR |}.

Definition buildResponderSession (now : Z) (localAddress remoteAddress : ProtocolAddress) (identityKeyPair : IdentityKeyPair)
    (m : PreKeyMessage) (ecSignedPreKey : SignedPreKey) (ecOneTimePreKey : option EcOneTimePreKey)
    (kemLastResortPreKey kemOneTimePreKey : option SignedPreKey) (info : option bytes) : result SessionBuilderResult :=
  throw_when (negb (bool_decide (is_Some (pm_usedSignedPreKeyId m)))) (Error "PreKeyMessage missing usedSignedPreKeyId") ;;
  let aliceIdentityKey := x25519PublicKey (pm_senderIdentity m) in
  let aliceEphemeralKey := pm_senderEphemeralKey m in
  r ← performResponderKeyAgreement identityKeyPair ecSignedPreKey ecOneTimePreKey kemLastResortPreKey kemOneTimePreKey m
        aliceIdentityKey aliceEphemeralKey info;
  sessionState ← createResponderSession now {|
    rs_localAddress := localAddress; rs_remoteAddress := remoteAddress; rs_senderEphemeralKey := aliceEphemeralKey;
    rs_identityKeyPair := identityKeyPair; rs_remoteIdentity := pm_senderIdentity m;
    rs_remoteRegistrationId := pm_senderRegistrationId m; rs_localIdentityType := pm_recipientIdentityType m;
    rs_ecSignedPreKey := ecSignedPreKey; rs_rootKey := pr_sharedSecret r;
    rs_sendingChainKey := None; rs_receivingChainKey := None |};
  Ok {| sb_sessionState := sessionState;
        sb_initialRootKeyForSPQR := range RANGE_INITIAL_PQR_KEY (pr_additionalDerivedBytes r) |}.
End Builder.
