(* ===== verification/PqxdhProofs.v ===== *)
(** * Key formats and the agreement of the two sides of PQXDH *)
From S2P Require Import Prelude Utf8 Base64 ProtoWire SignalMessage Crypto Identity IdentityProofs SpqrState DoubleRatchet RatchetProofs RatchetConversation KeyFormats SessionRecord Pqxdh SessionBuilder.

(** ** Key formats: padding, canonical keys, ML-KEM-1024 and prekey signatures *)
(** ** Padding *)
Lemma find_terminator_inv n p i : find_terminator n p = Ok (Some i) <->
  (i < n)%nat /\ nth i p 0 = PADDING_TERMINATOR /\ (forall j, (i < j < n)%nat -> nth j p 0 = 0).
Proof.
  induction n as [|n IH]; [split; [done|lia]|]. cbn [find_terminator]. destruct (Z.eqb_spec (nth n p 0) PADDING_TERMINATOR) as [E|E].
  - split; [intros [= <-]; split; [lia|]; split; [done|lia]|]. intros (Hi & Ht & Hz). destruct (decide (i = n)) as [->|]; [done|].
    specialize (Hz n ltac:(lia)). rewrite Hz in E. done.
  - rewrite throw_when_bind. destruct (Z.eqb_spec (nth n p 0) 0) as [E0|E0]; cbn [negb].
    + rewrite IH. split; intros (Hi & Ht & Hz); (split; [|split; [done|]]).
      * lia.
      * intros j Hj. destruct (decide (j = n)) as [->|]; [done|]. apply Hz. lia.
      * destruct (decide (i = n)) as [->|]; [done|lia].
      * intros j Hj. apply Hz. lia.
    + split; [done|]. intros (Hi & Ht & Hz). destruct (decide (i = n)) as [->|]; [done|]. by rewrite (Hz n) in E0 by lia.
Qed.

Lemma unpad_iff p m : unpadMessage p = Ok m <-> exists k, p = m ++ [PADDING_TERMINATOR] ++ replicate k 0.
Proof.
  unfold unpadMessage. rewrite bind_Ok. split.
  - intros ([i|] & Hi & Hm); [|done]. apply find_terminator_inv in Hi as (Hi & Ht & Hz). injection Hm as <-.
    exists (length p - i - 1)%nat. rewrite <- (take_drop i p) at 1. f_equal.
    apply (nth_ext_eq 0); [rewrite length_drop, length_app, length_replicate; cbn; lia|].
    rewrite length_drop. intros j Hj. rewrite nth_skipn. destruct j as [|j]; [by rewrite Nat.add_0_r|].
    rewrite Hz by lia. cbn [app nth]. symmetry. apply nth_replicate_same.
  - intros (k & ->). exists (Some (length m)). split; [|by rewrite take_app_le, take_ge].
    apply find_terminator_inv. rewrite !length_app, length_replicate. cbn [length]. split; [lia|]. split.
    + by rewrite app_nth2, Nat.sub_diag by lia.
    + intros j Hj. rewrite app_nth2 by lia. destruct (j - length m)%nat as [|i] eqn:E; [lia|]. cbn [app nth]. apply nth_replicate_same.
Qed.

Lemma padMessage_length m : len (padMessage m) = ceil_div (len m + 1) PADDING_BUCKET_SIZE * PADDING_BUCKET_SIZE.
Proof.
  unfold padMessage, ceil_div, PADDING_BUCKET_SIZE, len. rewrite !length_app, length_replicate. cbn [length].
  pose proof (Z.div_mod (Z.of_nat (length m) + 1 + 160 - 1) 160 ltac:(lia)).
  pose proof (Z.mod_pos_bound (Z.of_nat (length m) + 1 + 160 - 1) 160 ltac:(lia)). lia.
Qed.

(** ** Canonical X25519 keys *)
(** The little-endian number of a byte string. *)
Fixpoint le_number (b : bytes) : Z := match b with [] => 0 | x :: b => x + 256 * le_number b end.

Lemma le_number_bound b : is_bytes b -> 0 <= le_number b < 256 ^ len b.
Proof.
  induction 1 as [|x b Hx Hb IH]; [change (0 <= 0 < 1); lia|]. cbn [le_number]. rewrite len_cons, Z.pow_add_r by (pose proof (len_nonneg b); lia).
  unfold is_byte in Hx. lia.
Qed.

Lemma le_number_app b c : le_number (b ++ c) = le_number b + 256 ^ len b * le_number c.
Proof.
  induction b as [|x b IH]; [cbn [app le_number]; change (256 ^ len (@nil Z)) with 1; lia|]. cbn [app le_number]. rewrite IH, len_cons, Z.pow_add_r by (pose proof (len_nonneg b); lia). lia.
Qed.

Lemma le_number_ones b : is_bytes b -> le_number b = 256 ^ len b - 1 <-> Forall (fun x => x = 255) b.
Proof.
  induction 1 as [|x b Hx Hb IH]; [done|]. cbn [le_number]. rewrite Forall_cons, <- IH, len_cons, Z.pow_add_r by (pose proof (len_nonneg b); lia).
  pose proof (le_number_bound b Hb). unfold is_byte in Hx. lia.
Qed.

Definition CURVE_P : Z := 2 ^ 255 - 19.

Lemma scalarIsInRange_spec b : is_bytes b -> length b = 32%nat -> scalarIsInRange b = true <-> le_number b < CURVE_P.
Proof.
  intros Hb Hl. destruct b as [|b0 b]; [done|]. destruct (exists_last (l := b)) as (mid & b31 & ->); [by intros ->|].
  apply Forall_cons in Hb as [H0 Hb]. apply Forall_app in Hb as [Hm H31]. apply Forall_cons in H31 as [H31 _].
  rewrite length_cons, length_app in Hl. cbn [length] in Hl. assert (Em : length mid = 30%nat) by lia.
  pose proof (le_number_bound mid Hm) as Bm. pose proof (le_number_ones mid Hm) as Om.
  assert (Lm : len mid = 30) by (unfold len; lia). rewrite Lm in Bm, Om.
  assert (E31 : nthZ 0 (b0 :: mid ++ [b31]) 31 = b31).
  { unfold nthZ. change (Z.to_nat 31) with (S 30). cbn [nth]. by rewrite app_nth2, Em by lia. }
  assert (Eff : forallb (fun i => nth i (b0 :: mid ++ [b31]) 0 =? 0xff) (seq 1 30) = true <-> Forall (fun x => x = 255) mid).
  { rewrite forallb_forall, Forall_forall. split.
    - intros H x Hx. apply list_elem_of_lookup in Hx as [i Hi]. pose proof (lookup_lt_Some _ _ _ Hi). specialize (H (S i)).
      rewrite in_seq in H. specialize (H ltac:(lia)). cbn [nth] in H. rewrite app_nth1 in H by lia.
      apply nth_lookup_Some with (d := 0) in Hi. rewrite Hi in H. b2p. done.
    - intros H i Hi%in_seq. destruct i as [|i]; [lia|]. cbn [nth]. rewrite app_nth1 by lia. apply Z.eqb_eq, H, nth_in. lia. }
  unfold scalarIsInRange. rewrite E31. unfold nthZ at 1. change (Z.to_nat 0) with 0%nat. cbn [nth].
  replace (js_and b31 0x80) with (Z.land b31 128) by (unfold js_and; by rewrite !to_int32_id by (unfold is_byte in *; lia)).
  assert (En : le_number (b0 :: mid ++ [b31]) = b0 + 256 * (le_number mid + 256 ^ 30 * b31)).
  { cbn [le_number]. rewrite le_number_app, Lm. cbn [le_number]. lia. }
  rewrite land_128 by done. rewrite En. unfold CURVE_P, is_byte in *.
  destruct (forallb _ _) eqn:F; cbn [andb].
  - assert (Hf : Forall (fun x => x = 255) mid) by by apply Eff. apply Om in Hf. rewrite Hf. case_if; b2p; [split; [done|lia]|].
    case_if; b2p; [|split; [lia|done]]. rewrite negb_true_iff, Z.geb_leb, Z.leb_gt. lia.
  - assert (Hf : le_number mid <> 256 ^ 30 - 1) by (rewrite Om, <- Eff; congruence). case_if; b2p; [split; [done|lia]|].
    case_if; b2p; split; try done; lia.
Qed.

(** ** ML-KEM-1024 *)
Lemma mlKem1024_tagged raw : len raw = 1568 ->
  serializeMlKem1024PublicKey raw = Ok (ML_KEM_1024_ALGORITHM_TAG :: raw) /\
  parseMlKem1024PublicKey (ML_KEM_1024_ALGORITHM_TAG :: raw) = Ok raw /\
  serializeMlKem1024Ciphertext raw = Ok (ML_KEM_1024_ALGORITHM_TAG :: raw) /\
  parseMlKem1024Ciphertext (ML_KEM_1024_ALGORITHM_TAG :: raw) = Ok raw.
Proof.
  intros L. unfold serializeMlKem1024PublicKey, parseMlKem1024PublicKey, serializeMlKem1024Ciphertext, parseMlKem1024Ciphertext.
  rewrite len_cons, L. repeat split. all: cbn -[drop]; by rewrite skipn_cons, drop_0.
Qed.

Lemma asKyberSharedSecret_Ok ss : length ss = 32%nat -> asKyberSharedSecret ss = Ok ss.
Proof. intros L. unfold asKyberSharedSecret, len. by rewrite L. Qed.

Lemma mlKem1024_roundtrip `{KL : MlKem1024Laws} seed m : length seed = 64%nat -> length m = 32%nat ->
  exists pk sk ss ct, generateMlKem1024KeyPair seed = Ok (pk, sk) /\ mlKem1024Encapsulate pk m = Ok (ss, ct) /\
    mlKem1024Decapsulate ct sk = Ok ss /\ length ss = 32%nat /\ ct <> [].
Proof.
  intros Hs Hm. pose proof (k1024_sizes seed Hs) as Z1. pose proof (k1024_correct seed m Hs Hm) as Z2. unfold generateMlKem1024KeyPair.
  destruct (k1024_keygen seed) as [pk sk]. destruct Z1 as [L1 L2]. destruct Z2 as (ss & ct & Ee & Ed & L3 & L4).
  destruct (mlKem1024_tagged pk L1) as (P1 & P2 & _). destruct (mlKem1024_tagged ct L4) as (_ & _ & P3 & P4).
  exists (ML_KEM_1024_ALGORITHM_TAG :: pk), sk, ss, (ML_KEM_1024_ALGORITHM_TAG :: ct).
  unfold mlKem1024Encapsulate, mlKem1024Decapsulate. rewrite P1, P2, P4. cbn [mbind result_bind]. rewrite Ee, L2. cbn [mbind result_bind fst snd].
  rewrite (asKyberSharedSecret_Ok ss L3). cbn [mbind result_bind]. rewrite P3. cbn [mbind result_bind]. rewrite Z.eqb_refl. cbn [negb throw_when mbind result_bind].
  rewrite Ed. cbn [mbind result_bind]. by rewrite asKyberSharedSecret_Ok.
Qed.

(** ** Prekey signatures *)
(** An identity key pair whose public keys belong to its private keys. *)
Definition identity_keys_ok `{RatchetCrypto, Ed25519} (k : IdentityKeyPair) : Prop :=
  publicKey (dhKey k) = x25519_public (privateKey (dhKey k)) /\ length (privateKey (dhKey k)) = 32%nat /\
  publicKey (signingKey k) = ed25519_public (privateKey (signingKey k)) /\ length (privateKey (signingKey k)) = 32%nat.

Definition identity_of (k : IdentityKeyPair) : CompositeIdentityV1 := {|
  ci_version := 1; x25519PublicKey := publicKey (dhKey k); ed25519PublicKey := publicKey (signingKey k) |}.

Lemma preKeySignature_verifies `{EL : Ed25519Laws} `{Sha256} priv k tag id pub sig : privateKey (signingKey k) = priv -> length priv = 32%nat ->
  publicKey (signingKey k) = ed25519_public priv ->
  signPreKey k tag id pub = Ok sig -> verifyPreKeySignature (identity_of k) tag id pub sig = Ok true.
Proof.
  intros Hp Hl Hk. unfold signPreKey, verifyPreKeySignature, identity_of. destruct (createPreKeySignatureContext _ _ _ _) as [ctx|]; [|done].
  cbn [mbind result_bind]. destruct (ed25519_correct priv ctx Hl) as (sig' & Es & _ & _ & Ev). rewrite Hp, Es. intros [= <-].
  unfold crypto_verify. cbn [ed25519PublicKey]. by rewrite Hk, Ev.
Qed.

(** ** PQXDH: both sides derive the same keys, and the session they start *)
(** An X25519 public key of a clamped private key is a canonical point of the
    prime-order subgroup. *)
Class HonestKeys (C : RatchetCrypto) (V : Curve25519) : Prop := {
  honest_canonical : forall a, length a = 32%nat -> isCanonicalX25519Point (x25519_public a) = true }.

Section Pqxdh.
Context {C : RatchetCrypto} {S : Sha256} {E : Ed25519} {V : Curve25519} {K : MlKem1024}.

(** ** Generated prekeys *)
Definition ec_prekey_ok (bk : IdentityKeyPair) (k : SignedPreKey) : Prop :=
  sp_publicKey k = x25519_public (sp_privateKey k) /\ length (sp_privateKey k) = 32%nat /\
  signPreKey bk PREKEY_ALGORITHM_X25519 (sp_keyId k) (sp_publicKey k) = Ok (sp_signature k).

Definition kem_prekey_ok (bk : IdentityKeyPair) (k : SignedPreKey) : Prop :=
  (exists seed, length seed = 64%nat /\ generateMlKem1024KeyPair seed = Ok (sp_publicKey k, sp_privateKey k)) /\
  signPreKey bk PREKEY_ALGORITHM_ML_KEM_1024 (sp_keyId k) (sp_publicKey k) = Ok (sp_signature k).

Definition one_time_ok (k : EcOneTimePreKey) : Prop :=
  ot_publicKey k = x25519_public (ot_privateKey k) /\ length (ot_privateKey k) = 32%nat /\ 0 <= ot_keyId k <= 0xffffffff.

Lemma generateEcSignedPreKey_ok now bk id r r3 k : length r = 32%nat -> generateEcSignedPreKey now bk id r r3 = Ok k -> ec_prekey_ok bk k.
Proof. intros Hr. unfold generateEcSignedPreKey. rewrite bind_Ok. by intros (sig & Hs & [= <-]). Qed.

Lemma generateKyberLastResortPreKey_ok now bk id r k : length r = 64%nat -> generateKyberLastResortPreKey now bk id r = Ok k -> kem_prekey_ok bk k.
Proof.
  intros Hr. unfold generateKyberLastResortPreKey. rewrite bind_Ok. intros ([pk sk] & Hg & Hk). apply bind_Ok in Hk as (sig & Hs & [= <-]).
  split; [by exists r|done].
Qed.

Lemma mapM_result_in {A B} (f : A -> result B) : forall l bs b, mapM_result f l = Ok bs -> b ∈ bs -> exists a, a ∈ l /\ f a = Ok b.
Proof.
  induction l as [|a l IH]; intros bs b; cbn [mapM_result]; [intros [= <-] []%elem_of_nil|]. rewrite bind_Ok. intros (c & Hc & Hl).
  apply bind_Ok in Hl as (cs & Hcs & [= <-]). intros [->|Hb]%elem_of_cons; [exists a; by rewrite elem_of_cons; auto|].
  destruct (IH _ _ Hcs Hb) as (x & ? & ?). exists x. rewrite elem_of_cons. auto.
Qed.

Lemma generateKemOneTimePreKeys_ok now bk n start r ks k : (forall i, length (r i) = 64%nat) ->
  generateKemOneTimePreKeys now bk n start r = Ok ks -> k ∈ ks -> kem_prekey_ok bk k.
Proof.
  intros Hr Hg Hk. destruct (mapM_result_in _ _ _ _ Hg Hk) as (i & _ & Hi). apply bind_Ok in Hi as ([pk sk] & Hi & Hs).
  apply bind_Ok in Hs as (sig & Hs & [= <-]). split; [by exists (r i)|done].
Qed.

Lemma generateEcOneTimePreKeys_ok n start r k : (forall i, length (r i) = 32%nat) -> 0 <= start -> start + n <= 2 ^ 32 ->
  k ∈ generateEcOneTimePreKeys n start r -> one_time_ok k.
Proof.
  intros Hr Hs Hn (i & -> & Hi)%list_elem_of_fmap. apply elem_of_seqZ in Hi. split; [done|]. split; [apply Hr|]. cbn. lia.
Qed.

Lemma generateIdentityKeyPair_ok a b c : length a = 32%nat -> length b = 32%nat -> identity_keys_ok (generateIdentityKeyPair a b c).
Proof. done. Qed.

(** Shifts and ors of bytes, as in the reading of big-endian numbers. *)
Lemma js_or_bound x y n : 0 <= n <= 31 -> 0 <= x < 2 ^ n -> 0 <= y < 2 ^ n -> 0 <= js_or x y < 2 ^ n.
Proof.
  intros Hn Hx Hy. assert (2 ^ n <= 2 ^ 31) by (apply Z.pow_le_mono_r; lia). unfold js_or. rewrite !to_int32_id by lia.
  split; [apply Z.lor_nonneg; lia|]. destruct (decide (Z.lor x y = 0)) as [->|Hz]; [lia|].
  assert (0 <= Z.lor x y) by (apply Z.lor_nonneg; lia). apply Z.log2_lt_pow2; [lia|]. rewrite Z.log2_lor by lia.
  assert (0 < n) by (destruct (decide (n = 0)) as [->|]; [exfalso; apply Hz; replace x with 0 by lia; replace y with 0 by lia; done|lia]).
  assert (Hl : forall z, 0 <= z < 2 ^ n -> Z.log2 z < n).
  { intros z Hz'. destruct (decide (z = 0)) as [->|]; [done|]. apply Z.log2_lt_pow2; lia. }
  apply Z.max_lub_lt; by apply Hl.
Qed.

Lemma byte_at_range r i : is_bytes r -> 0 <= nthZ 0 r i < 256.
Proof.
  intros Hr. unfold nthZ. destruct (le_lt_dec (length r) (Z.to_nat i)); [rewrite nth_overflow by done; lia|].
  rewrite Forall_forall in Hr. by apply Hr, nth_in.
Qed.

Lemma js_shl_byte x n : 0 <= x < 256 -> 0 <= n <= 16 -> 0 <= js_shl x n < 2 ^ (n + 8).
Proof.
  intros Hx Hn. assert (0 < 2 ^ n <= 2 ^ 16) by (split; [lia|apply Z.pow_le_mono_r; lia]).
  rewrite js_shl_small by nia. rewrite Z.pow_add_r by lia. nia.
Qed.

Lemma random_uint16_range r : is_bytes r -> 0 <= random_uint16 r < 65536.
Proof.
  intros Hr. pose proof (byte_at_range r 1 Hr). apply (js_or_bound _ _ 16); [lia|by apply (js_shl_byte _ 8); [apply byte_at_range|]|lia].
Qed.

Lemma generateEcSignedPreKeyId_range r : is_bytes r -> 0 <= generateEcSignedPreKeyId r < 1000000.
Proof.
  intros Hr. unfold generateEcSignedPreKeyId. pose proof (byte_at_range r 0 Hr). pose proof (byte_at_range r 1 Hr). pose proof (byte_at_range r 2 Hr).
  apply Z.rem_bound_pos; [|lia]. apply (js_or_bound _ _ 24); [lia| |lia].
  apply (js_or_bound _ _ 24); [lia|by apply (js_shl_byte _ 16)|]. pose proof (js_shl_byte (nthZ 0 r 1) 8). lia.
Qed.

Lemma generateRegistrationId_range r : is_bytes r -> 1 <= generateRegistrationId r <= 16383.
Proof.
  intros Hr. pose proof (random_uint16_range r Hr). unfold generateRegistrationId.
  pose proof (Z.rem_bound_pos (random_uint16 r) 16383). lia.
Qed.

(** ** The agreement *)
Definition public_prekey (k : SignedPreKey) : SignedPreKeyPublic := {|
  spp_keyId := sp_keyId k; spp_publicKey := sp_publicKey k; spp_signature := sp_signature k |}.
Definition public_one_time (k : EcOneTimePreKey) : OneTimePreKeyPublic := {| otp_keyId := ot_keyId k; otp_publicKey := ot_publicKey k |}.

(** The bundle of public keys that a device publishes. *)
Definition bundle_of (device : Z) (bk : IdentityKeyPair) (spk : SignedPreKey) (ot : option EcOneTimePreKey)
    (last_resort one_time : option SignedPreKey) : PreKeyBundle := {|
  b_registrationId := registrationId bk; b_deviceId := device; b_identity := identity_of bk;
  ecSignedPreKey := public_prekey spk; ecOneTimePreKey := public_one_time <$> ot;
  kemLastResortPreKey := public_prekey <$> last_resort; kemOneTimePreKey := public_prekey <$> one_time |}.

(** What both sides are meant to derive, from the private keys of the initiator
    and the public keys of the responder. *)
Definition pqxdh_keys (identity ephemeral : bytes) (bk : IdentityKeyPair) (spk : SignedPreKey) (ot : option EcOneTimePreKey)
    (secret info : bytes) : bytes * bytes :=
  derive_pqxdh (dh_ikm (x25519 identity (sp_publicKey spk)) (x25519 ephemeral (publicKey (dhKey bk)))
                  (x25519 ephemeral (sp_publicKey spk)) ((fun k => x25519 ephemeral (ot_publicKey k)) <$> ot) ++ secret) info.

Definition kem_choice (last_resort one_time : option SignedPreKey) : option SignedPreKey :=
  match one_time with Some k => Some k | None => last_resort end.

(** What the initiator reports of the KEM mode it has used. *)
Definition kem_report {A} (used : A) (one_time : option SignedPreKey) : option A * option A :=
  match one_time with Some _ => (None, Some used) | None => (Some used, None) end.

Context {CL : RatchetCryptoLaws C} {EL : Ed25519Laws E} {KL : MlKem1024Laws K} {HK : HonestKeys C V}.

Lemma identity_good k : identity_keys_ok k -> good_pair (dhKey k) /\ length (ed25519PublicKey (identity_of k)) = 32%nat.
Proof.
  intros (Ed & Ld & Es & Ls). split; [split; [done|by rewrite Ed]|]. cbn. rewrite Es. by apply ed25519_public_length.
Qed.

Lemma validate_honest a : length a = 32%nat -> validateX25519PublicKey (x25519_public a) = Ok tt.
Proof. intros Ha. unfold validateX25519PublicKey. by rewrite honest_canonical. Qed.

Lemma identity_encodes k : identity_keys_ok k -> exists e, encodeCompositeIdentityV1 (identity_of k) = Ok e.
Proof.
  intros Hk. destruct (identity_good k Hk) as [Hg Hl]. eexists. apply encode_identity_iff. split; [done|]. split; [|done].
  by apply (good_public_length (dhKey k)).
Qed.

(** A published signature has 64 bytes, and the ID of its key is a uint32. *)
Lemma signed_prekey bk tag id pub sig : identity_keys_ok bk -> signPreKey bk tag id pub = Ok sig ->
  length sig = 64%nat /\ 0 <= id <= 0xffffffff /\ verifyPreKeySignature (identity_of bk) tag id pub sig = Ok true.
Proof.
  intros (_ & _ & Es & Ls) Hs. split; [|split]; [| |by eapply preKeySignature_verifies].
  - unfold signPreKey in Hs. apply bind_Ok in Hs as (ctx & _ & Hs). destruct (ed25519_correct (privateKey (signingKey bk)) ctx Ls) as (sig' & E' & L & _).
    congruence.
  - unfold signPreKey, createPreKeySignatureContext in Hs. apply bind_Ok in Hs as (ctx & Hc & _).
    repeat (apply bind_Ok in Hc as (? & ? & Hc)). unfold uint32be in *.
    match goal with H : (throw_when _ (Error "Prekey ID must be an unsigned 32-bit integer") ;; _) = Ok _ |- _ => rewrite throw_when_bind in H; revert H end.
    case_if; [done|]. intros _. b2p. lia.
Qed.

Lemma optM_Ok {A B} (f : A -> result B) x : (forall a, x = Some a -> is_Some (match f a with Ok b => Some b | Throw _ => None end)) ->
  exists y, optM f x = Ok y.
Proof.
  intros H. destruct x as [a|]; [|by eexists]. destruct (H a eq_refl) as [b Hb]. cbn [optM]. destruct (f a); [|done]. by eexists.
Qed.

Lemma optM_fmap {A B D} (f : A -> result B) (g : D -> A) (h : D -> B) x : (forall d, x = Some d -> f (g d) = Ok (h d)) ->
  optM f (g <$> x) = Ok (h <$> x).
Proof. intros H. destruct x as [d|]; [|done]. cbn [fmap option_fmap option_map optM]. by rewrite (H d eq_refl). Qed.

Context (ak bk : IdentityKeyPair) (Hak : identity_keys_ok ak) (Hbk : identity_keys_ok bk).
Context (spk : SignedPreKey) (Hspk : ec_prekey_ok bk spk) (ot : option EcOneTimePreKey) (Hot : forall k, ot = Some k -> one_time_ok k).
Context (lr kt : option SignedPreKey) (Hkem : forall k, lr = Some k \/ kt = Some k -> kem_prekey_ok bk k).
Context (used : SignedPreKey) (Hused : kem_choice lr kt = Some used).
Context (eph rnd : bytes) (Heph : length eph = 32%nat) (Hrnd : length rnd = 32%nat).

Lemma used_ok : kem_prekey_ok bk used.
Proof. apply Hkem. unfold kem_choice in Hused. destruct kt; auto. Qed.

Lemma spk_good : good_pair {| publicKey := sp_publicKey spk; privateKey := sp_privateKey spk |}.
Proof. destruct Hspk as (? & ? & _). done. Qed.

Lemma ot_good k : ot = Some k -> good_pair {| publicKey := ot_publicKey k; privateKey := ot_privateKey k |}.
Proof. intros Hk. destruct (Hot k Hk) as (? & ? & _). done. Qed.

(** The KEM secret that the used prekey decapsulates. *)
Lemma encapsulate_used : exists ss ct, encapsulate_to (identity_of bk) (public_prekey used) rnd = Ok (ss, ct) /\
  mlKem1024Decapsulate ct (sp_privateKey used) = Ok ss /\ ct <> [].
Proof.
  destruct used_ok as [(seed & Hl & Hg) Hs]. destruct (mlKem1024_roundtrip seed rnd Hl Hrnd) as (pk & sk & ss & ct & Hg' & He & Hd & _ & Hn).
  rewrite Hg in Hg'. injection Hg' as <- <-. exists ss, ct. split; [|done]. unfold encapsulate_to. cbn [public_prekey spp_keyId spp_publicKey spp_signature].
  destruct (signed_prekey _ _ _ _ _ Hbk Hs) as (_ & _ & ->). done.
Qed.

Lemma initiator_spec device info : exists ss ct, mlKem1024Decapsulate ct (sp_privateKey used) = Ok ss /\ ct <> [] /\
  performPQXDH ak (bundle_of device bk spk ot lr kt) info eph rnd =
    let '(sk, add) := pqxdh_keys (privateKey (dhKey ak)) eph bk spk ot ss info in
    Ok {| px_sharedSecret := sk; px_additionalDerivedBytes := add; px_ephemeralKeyPair := generateECDHKeyPair eph;
          px_usedSignedPreKeyId := sp_keyId spk; px_usedOneTimePreKeyId := ot_keyId <$> ot;
          px_kyberCiphertext := (kem_report ct kt).1; px_usedKyberPreKeyId := (kem_report (sp_keyId used) kt).1;
          px_kemOneTimePreKeyCiphertext := (kem_report ct kt).2; px_usedKemOneTimePreKeyId := (kem_report (sp_keyId used) kt).2 |}.
Proof.
  destruct encapsulate_used as (ss & ct & He & Hd & Hn). exists ss, ct. split; [done|]. split; [done|].
  destruct (identity_good ak Hak) as [Ga _]. destruct (identity_good bk Hbk) as [Gb _]. pose proof spk_good as Gs.
  destruct (signed_prekey _ _ _ _ _ Hbk (proj2 (proj2 Hspk))) as (_ & _ & Hv).
  assert (V1 : validateX25519PublicKey (publicKey (dhKey bk)) = Ok tt) by (rewrite (proj2 Gb); apply validate_honest, Gb).
  assert (V2 : validateX25519PublicKey (sp_publicKey spk) = Ok tt) by (rewrite (proj1 Hspk); apply validate_honest, Hspk).
  assert (V3 : optM (fun k => validateX25519PublicKey (otp_publicKey k)) (public_one_time <$> ot) = Ok ((fun _ => tt) <$> ot)).
  { apply optM_fmap. intros k Hk. cbn [public_one_time otp_publicKey]. destruct (Hot k Hk) as (-> & ? & _). by apply validate_honest. }
  assert (D4 : optM (fun k => computeSharedSecret eph (otp_publicKey k)) (public_one_time <$> ot) = Ok ((fun k => x25519 eph (ot_publicKey k)) <$> ot)).
  { apply optM_fmap. intros k Hk. by apply (computeSharedSecret_honest eph _ Heph (ot_good k Hk)). }
  unfold performPQXDH, pqxdh_keys. cbn [bundle_of kemOneTimePreKey kemLastResortPreKey ecSignedPreKey b_identity ecOneTimePreKey identity_of x25519PublicKey public_prekey spp_keyId spp_publicKey spp_signature].
  fold (identity_of bk).
  set (dh4 := (fun k => x25519 eph (ot_publicKey k)) <$> ot) in *.
  assert (G : forall (T : Type) (f : bytes -> bytes -> bytes -> option bytes -> result T),
    (isValid ← verifyPreKeySignature (identity_of bk) PREKEY_ALGORITHM_X25519 (sp_keyId spk) (sp_publicKey spk) (sp_signature spk);
     throw_when (negb isValid) SIGNATURE_FAILED ;; validateX25519PublicKey (publicKey (dhKey bk)) ;; validateX25519PublicKey (sp_publicKey spk) ;;
     optM (fun k => validateX25519PublicKey (otp_publicKey k)) (public_one_time <$> ot) ;;
     dh1 ← computeSharedSecret (privateKey (dhKey ak)) (sp_publicKey spk); dh2 ← computeSharedSecret eph (publicKey (dhKey bk));
     dh3 ← computeSharedSecret eph (sp_publicKey spk); dh4 ← optM (fun k => computeSharedSecret eph (otp_publicKey k)) (public_one_time <$> ot);
     f dh1 dh2 dh3 dh4) = f (x25519 (privateKey (dhKey ak)) (sp_publicKey spk)) (x25519 eph (publicKey (dhKey bk))) (x25519 eph (sp_publicKey spk)) dh4).
  { intros T f. rewrite Hv. cbn [mbind result_bind negb throw_when]. rewrite V1, V2, V3, D4. cbn [mbind result_bind].
    pose proof (computeSharedSecret_honest (privateKey (dhKey ak)) _ (proj1 Ga) Gs) as Q1. pose proof (computeSharedSecret_honest eph _ Heph Gs) as Q3.
    cbn [publicKey] in Q1, Q3. rewrite Q1, (computeSharedSecret_honest eph _ Heph Gb), Q3. done. }
  unfold kem_choice in Hused. destruct kt as [k|]; [injection Hused as ->|destruct lr as [k|]; [injection Hused as ->|done]];
    cbn [fmap option_fmap option_map]; (etransitivity; [apply G|]); clear G D4 V3; rewrite He; unfold concatPQXDHSecrets;
    cbn [mbind result_bind kem_report fst snd]; unfold dh4; clear dh4 Hot; destruct ot; cbn [fmap option_fmap option_map]; by destruct (derive_pqxdh _ info).
Qed.

(** A message that reports what the initiator has used. *)
Definition reports (m : PreKeyMessage) (ct : bytes) : Prop :=
  pm_senderIdentity m = identity_of ak /\ pm_senderEphemeralKey m = x25519_public eph /\
  pm_usedSignedPreKeyId m = Some (sp_keyId spk) /\ pm_usedOneTimePreKeyId m = ot_keyId <$> ot /\
  pm_kyberCiphertext m = (kem_report ct kt).1 /\ pm_kemOneTimePreKeyCiphertext m = (kem_report ct kt).2 /\
  pm_usedKyberPreKeyId m = (kem_report (sp_keyId used) kt).1 /\ pm_usedKemOneTimePreKeyId m = (kem_report (sp_keyId used) kt).2.

(** The keys that the responder looks up for such a message. *)
Lemma responder_spec m ss ct info : mlKem1024Decapsulate ct (sp_privateKey used) = Ok ss -> ct <> [] -> reports m ct ->
  performResponderKeyAgreement bk spk ot (kem_report used kt).1 (kem_report used kt).2 m (publicKey (dhKey ak)) (x25519_public eph) info =
    let '(sk, add) := pqxdh_keys (privateKey (dhKey ak)) eph bk spk ot ss (resolveKeyExchangeInfoStrings info) in
    Ok {| pr_sharedSecret := sk; pr_additionalDerivedBytes := add |}.
Proof.
  intros Hd Hn (_ & _ & _ & Rot & Rlc & Rkc & Rli & Rki). set (i := resolveKeyExchangeInfoStrings info).
  destruct (identity_good ak Hak) as [Ga _]. destruct (identity_good bk Hbk) as [Gb _]. pose proof spk_good as Gs.
  pose proof (generate_good eph Heph) as Ge.
  assert (V1 : validateX25519PublicKey (publicKey (dhKey ak)) = Ok tt) by (rewrite (proj2 Ga); apply validate_honest, Ga).
  pose proof (validate_honest eph Heph) as V2.
  pose proof (computeSharedSecret_honest (sp_privateKey spk) _ (proj1 Gs) Ga) as Q1.
  pose proof (computeSharedSecret_honest (privateKey (dhKey bk)) _ (proj1 Gb) Ge) as Q2.
  pose proof (computeSharedSecret_honest (sp_privateKey spk) _ (proj1 Gs) Ge) as Q3. cbn [publicKey generateECDHKeyPair] in Q2, Q3.
  assert (X1 : x25519 (sp_privateKey spk) (publicKey (dhKey ak)) = x25519 (privateKey (dhKey ak)) (sp_publicKey spk))
    by (rewrite (proj2 Ga), (proj1 Hspk); apply x25519_comm; [apply Hspk|apply Ga]).
  assert (X2 : x25519 (privateKey (dhKey bk)) (x25519_public eph) = x25519 eph (publicKey (dhKey bk)))
    by (rewrite (proj2 Gb); apply x25519_comm; [apply Gb|done]).
  assert (X3 : x25519 (sp_privateKey spk) (x25519_public eph) = x25519 eph (sp_publicKey spk))
    by (rewrite (proj1 Hspk); apply x25519_comm; [apply Hspk|done]).
  assert (D4 : (match pm_usedOneTimePreKeyId m with
    | Some _ => optM (fun k => computeSharedSecret (ot_privateKey k) (x25519_public eph)) ot | None => Ok None end)
    = Ok ((fun k => x25519 eph (ot_publicKey k)) <$> ot)).
  { rewrite Rot. destruct ot as [k|]; [|done]. cbn [fmap option_fmap option_map optM]. destruct (Hot k eq_refl) as (Ek & Lk & _).
    pose proof (computeSharedSecret_honest (ot_privateKey k) _ Lk Ge) as Q4. cbn [publicKey generateECDHKeyPair] in Q4. rewrite Q4. cbn [mbind result_bind].
    by rewrite Ek, x25519_comm by done. }
  assert (Kem : responder_kem (kem_report used kt).1 (kem_report used kt).2 (buildPqxdhResponderInput m (publicKey (dhKey ak)) (x25519_public eph)) = Ok ss).
  { unfold responder_kem, buildPqxdhResponderInput. cbn [in_kemOneTimePreKeyCiphertext in_kyberCiphertext]. rewrite Rlc, Rkc.
    destruct ct as [|c ct]; [done|]. by destruct kt. }
  assert (R : performPQXDHResponder bk spk ot (kem_report used kt).1 (kem_report used kt).2
    (buildPqxdhResponderInput m (publicKey (dhKey ak)) (x25519_public eph)) i =
    let '(sk, add) := pqxdh_keys (privateKey (dhKey ak)) eph bk spk ot ss i in Ok {| pr_sharedSecret := sk; pr_additionalDerivedBytes := add |}).
  { unfold performPQXDHResponder. rewrite Kem. cbn [buildPqxdhResponderInput in_senderIdentityKey in_senderEphemeralKey in_usedOneTimePreKeyId].
    rewrite V1, V2, Q1, Q2, Q3, D4, X1, X2, X3. done. }
  unfold performResponderKeyAgreement. fold i. rewrite Rlc, Rkc, Rli, Rki. rewrite R. clear R Kem D4.
  destruct ct as [|c ct]; [done|]. destruct (pqxdh_keys _ _ _ _ _ _ _). unfold kem_choice in Hused. by destruct kt.
Qed.

(** A published bundle passes the validation. *)
Lemma bundle_valid device : 1 <= device <= 0xffffffff -> 1 <= registrationId bk <= 16384 ->
  validatePreKeyBundle (bundle_of device bk spk ot lr kt) = Ok tt.
Proof.
  intros Hdev Hreg. destruct (identity_good bk Hbk) as [Gb _]. pose proof spk_good as Gs. destruct (identity_encodes bk Hbk) as [e He].
  destruct (signed_prekey _ _ _ _ _ Hbk (proj2 (proj2 Hspk))) as (Ls & Hid & _).
  assert (U : forall v l lo hi, 0 <= lo -> lo <= v <= hi -> hi <= 0xffffffff -> assertUint32_between v l lo hi = Ok tt).
  { intros v l lo hi ???. unfold assertUint32_between, isSafeInteger, MAX_SAFE_INTEGER, throw_when. case_if; [|done]. b2p; lia. }
  assert (D : forall v l n, len v = n -> decodeCanonicalBase64 v l n = Ok v).
  { intros v l n Hl. unfold decodeCanonicalBase64. rewrite Hl, Z.eqb_refl. done. }
  assert (Kp : forall l k, kem_prekey_ok bk k -> validate_kem_prekey l (public_prekey k) = Ok tt).
  { intros l k [(seed & Hl & Hg) Hs]. destruct (signed_prekey _ _ _ _ _ Hbk Hs) as (Lk & Hk & _). unfold generateMlKem1024KeyPair in Hg.
    pose proof (k1024_sizes seed Hl) as Z1. destruct (k1024_keygen seed) as [pk sk]. destruct Z1 as [L1 _].
    destruct (mlKem1024_tagged pk L1) as (P1 & P2 & _). rewrite P1 in Hg. injection Hg as Hpk Hsk. unfold validate_kem_prekey.
    cbn [public_prekey spp_keyId spp_publicKey spp_signature]. rewrite U by lia. cbn [mbind result_bind]. rewrite <- Hpk.
    rewrite (D _ l 1569) by (by rewrite len_cons, L1). cbn [mbind result_bind]. rewrite P2. cbn [mbind result_bind].
    by rewrite (D _ l 64) by (unfold len; lia). }
  assert (Ko : forall l x, (forall k, x = Some k -> kem_prekey_ok bk k) -> optM (validate_kem_prekey l) (public_prekey <$> x) = Ok ((fun _ => tt) <$> x)).
  { intros l x Hx. apply optM_fmap. intros k Hk. by apply Kp, Hx. }
  unfold validatePreKeyBundle. cbn [bundle_of b_registrationId b_deviceId b_identity ecSignedPreKey ecOneTimePreKey kemLastResortPreKey kemOneTimePreKey public_prekey spp_keyId spp_publicKey spp_signature].
  rewrite !U by lia. cbn [mbind result_bind]. rewrite He. cbn [mbind result_bind identity_of x25519PublicKey].
  rewrite (proj2 Gb), validate_honest by apply Gb. cbn [mbind result_bind].
  rewrite (D _ _ 32) by (unfold len; pose proof (good_public_length _ Gs) as Lp; cbn [publicKey] in Lp; lia). cbn [mbind result_bind].
  replace (validateX25519PublicKey (sp_publicKey spk)) with (Ok tt) by (rewrite (proj1 Hspk), validate_honest by apply Hspk; done). cbn [mbind result_bind].
  rewrite (D _ _ 64) by (unfold len; lia). cbn [mbind result_bind].
  rewrite (optM_fmap _ public_one_time (fun _ => tt)).
  2:{ intros k Hk. destruct (Hot k Hk) as (Ek & Lk & Ik). cbn [public_one_time otp_keyId otp_publicKey]. rewrite U by lia. cbn [mbind result_bind].
      rewrite (D _ _ 32) by (unfold len; pose proof (good_public_length _ (ot_good k Hk)) as Lp; cbn [publicKey] in Lp; lia). cbn [mbind result_bind]. by rewrite Ek, validate_honest. }
  cbn [mbind result_bind]. rewrite !Ko by (intros; apply Hkem; auto). done.
Qed.

(** ** The sessions of both sides *)
(** The PreKey fields that the initiator sends with every message until it is
    acknowledged. *)
Definition message_of (s : SessionState) : PreKeyMessage := {|
  pm_senderIdentity := localIdentity s; pm_senderEphemeralKey := baseKey s; pm_senderRegistrationId := localRegistrationId s;
  pm_recipientIdentityType := default aci (recipientIdentityType s);
  pm_usedSignedPreKeyId := usedSignedPreKeyId (pendingPreKey s); pm_usedOneTimePreKeyId := usedOneTimePreKeyId (pendingPreKey s);
  pm_usedKyberPreKeyId := usedKyberPreKeyId (pendingPreKey s); pm_kyberCiphertext := kyberCiphertext (pendingPreKey s);
  pm_usedKemOneTimePreKeyId := usedKemOneTimePreKeyId (pendingPreKey s);
  pm_kemOneTimePreKeyCiphertext := kemOneTimePreKeyCiphertext (pendingPreKey s) |}.

Lemma create_identity k : identity_keys_ok k -> createCompositeIdentityV1 k = Ok (identity_of k).
Proof. intros Hk. unfold createCompositeIdentityV1. destruct (identity_encodes k Hk) as [e He]. unfold identity_of in He. by rewrite He. Qed.

Lemma pqxdh_keys_length a ss info : length (pqxdh_keys a eph bk spk ot ss info).2 = 64%nat.
Proof. unfold pqxdh_keys, derive_pqxdh. cbn [snd]. rewrite length_take, length_drop, hkdf_length. done. Qed.

(** The prekeys of the responder and the message of the initiator's session
    give the responder a session in sync with it. *)
Lemma sessions_start device now now' aAddr bAddr rt info : 1 <= device <= 0xffffffff -> 1 <= registrationId bk <= 16384 ->
  exists sA sB pqr ck,
    buildInitiatorSession now aAddr bAddr ak (bundle_of device bk spk ot lr kt) rt info eph rnd =
      Ok {| sb_sessionState := sA; sb_initialRootKeyForSPQR := pqr |} /\
    buildResponderSession now' bAddr aAddr bk (message_of sA) spk ot (kem_report used kt).1 (kem_report used kt).2 info =
      Ok {| sb_sessionState := sB; sb_initialRootKeyForSPQR := pqr |} /\
    length pqr = 32%nat /\ baseKey sB = baseKey sA /\
    remoteIdentity sA = identity_of bk /\ remoteIdentity sB = identity_of ak /\
    turn_inv ck {[x25519_public eph; sp_publicKey spk]} (ratchet sA) (ratchet sB).
Proof.
  intros Hdev Hreg. set (i := resolveKeyExchangeInfoStrings info).
  destruct (initiator_spec device i) as (ss & ct & Hd & Hn & Hi).
  pose proof (pqxdh_keys_length (privateKey (dhKey ak)) ss i) as Ladd.
  pose proof spk_good as Gs. pose proof (generate_good eph Heph) as Ge.
  pose proof (computeSharedSecret_honest eph _ Heph Gs) as Q. cbn [publicKey] in Q.
  assert (X3 : x25519 (sp_privateKey spk) (x25519_public eph) = x25519 eph (sp_publicKey spk))
    by (rewrite (proj1 Hspk); apply x25519_comm; [apply Hspk|done]).
  destruct (pqxdh_keys (privateKey (dhKey ak)) eph bk spk ot ss i) as [sk add] eqn:Ek. cbn [snd] in Ladd.
  destruct (kdfRootKey sk (x25519 eph (sp_publicKey spk))) as [rk ck] eqn:Er.
  eexists _, _, (range RANGE_INITIAL_PQR_KEY add), ck. split; [|split].
  - unfold buildInitiatorSession, performKeyAgreement. rewrite bundle_valid by done. fold i. rewrite Hi. cbn [mbind result_bind].
    replace (bundleHasAnyKemMaterial (bundle_of device bk spk ot lr kt)) with true
      by (unfold bundleHasAnyKemMaterial; unfold kem_choice in Hused; destruct kt; [by rewrite orb_true_r|by destruct lr]).
    cbn [negb throw_when mbind result_bind rethrow px_ephemeralKeyPair px_additionalDerivedBytes px_sharedSecret generateECDHKeyPair privateKey bundle_of ecSignedPreKey public_prekey spp_publicKey].
    rewrite Q. cbn [mbind result_bind]. rewrite Er. unfold createInitiatorSession. cbn [is_identityKeyPair]. rewrite create_identity by done. cbn [mbind result_bind]. reflexivity.
  - unfold buildResponderSession, message_of. cbn [pm_usedSignedPreKeyId pm_senderIdentity pm_senderEphemeralKey pendingPreKey usedSignedPreKeyId baseKey localIdentity is_remoteSignedPreKey].
    rewrite bool_decide_true by done. cbn [negb throw_when mbind result_bind].
    erewrite (responder_spec _ ss ct info Hd Hn).
    + fold i. rewrite Ek. cbn [mbind result_bind]. unfold createResponderSession. cbn [rs_identityKeyPair]. rewrite create_identity by done. cbn [mbind result_bind]. reflexivity.
    + unfold reports. cbn. destruct ct as [|c ct]; [done|]. clear. destruct ot, kt; repeat split.
  - split; [by unfold range, slice; cbn [fst snd RANGE_INITIAL_PQR_KEY]; rewrite length_take, length_drop, Ladd|].
    do 3 (split; [done|]). cbn -[kdfRootKey]. split; [|split; [done|]].
    + exists (generateECDHKeyPair eph), {| publicKey := sp_publicKey spk; privateKey := sp_privateKey spk |}. repeat (split; [done|]). cbn [RK privateKey publicKey generateECDHKeyPair]. by rewrite X3.
    + repeat (split; [first [done|split; [done|split; constructor]]|]). unfold seen. cbn [DHr processedChains receiverChains]. set_solver.
Qed.
End Pqxdh.
