(* ===== verification/SessionTheorems.v ===== *)
(** * The first session of two devices, on a small instance of the primitives *)
From S2P Require Import Prelude Utf8 SignalMessage Crypto Identity IdentityProofs DoubleRatchet RatchetToy KeyFormats PqxdhProofs SessionRecord Pqxdh SessionBuilder RatchetProofs RatchetTrace RatchetConversation.

(** ** A small instance of the session primitives

    Not cryptography: functions with the documented lengths and equations, on
    which the witnesses of the session theorems run. *)
#[export] Instance toy_curve : Curve25519 := {|
  bytesToNumberLE := le_number; numberToBytesLE := fun _ => replicate 32 0;
  fp_add := Z.add; fp_sub := Z.sub; fp_div := fun _ _ => 0; point_torsion_free := fun _ => Ok true |}.

#[export] Instance toy_honest : HonestKeys toy_crypto toy_curve.
Proof.
  split. intros a Ha. cbn [x25519_public toy_crypto]. set (b := map (fun x => x mod 128) a).
  assert (B : forall i, 0 <= nth i b 0 < 128).
  { intros i. unfold b. change 0 with ((fun x => x mod 128) 0). rewrite map_nth. apply Z.mod_pos_bound. lia. }
  assert (Lb : length b = 32%nat) by (unfold b; by rewrite length_map).
  assert (Hb : is_bytes b).
  { apply Forall_forall. intros x (y & -> & _)%list_elem_of_fmap. unfold is_byte. pose proof (Z.mod_pos_bound y 128). lia. }
  unfold isCanonicalX25519Point, len. rewrite Lb. cbn [negb Z.of_nat Z.eqb Pos.eqb Pos.of_succ_nat Pos.succ].
  assert (R : scalarIsInRange b = true).
  { unfold scalarIsInRange. unfold nthZ. pose proof (B (Z.to_nat 31)). replace (js_and (nth (Z.to_nat 31) b 0) 0x80 =? 0) with true.
    2:{ unfold js_and. rewrite !to_int32_id by lia. rewrite land_128 by (unfold is_byte; lia). lia. }
    cbn [negb]. case_if; [|done]. replace (forallb _ _) with false; [done|]. symmetry. apply not_true_iff_false. rewrite forallb_forall.
    intros H1. specialize (H1 1%nat). rewrite in_seq in H1. specialize (H1 ltac:(lia)). b2p. pose proof (B 1%nat). lia. }
  pose proof (le_number_bound b Hb) as Bn. rewrite R. cbn [negb]. unfold isTorsionFree. cbn [bytesToNumberLE toy_curve fp_add point_torsion_free].
  destruct (Z.eqb_spec (le_number b + 1) 0); [lia|reflexivity].
Qed.

#[export] Instance toy_kem1024 : MlKem1024 := {|
  k1024_keygen r := (pad 1568 r, pad 3168 r);
  k1024_encapsulate pk m := Ok (@hmac toy_hash (take 32 pk) m, pad 1568 m);
  k1024_decapsulate ct sk := Ok (@hmac toy_hash (take 32 sk) (take 32 ct)) |}.

Lemma take_pad n m l : (n <= length l)%nat -> (n <= m)%nat -> take n (pad m l) = take n l.
Proof. intros H1 H2. unfold pad. rewrite take_take, Nat.min_l by done. by rewrite take_app_le. Qed.

#[export] Instance toy_kem1024_laws : MlKem1024Laws toy_kem1024.
Proof.
  split.
  - intros r Hr. unfold k1024_keygen, toy_kem1024, len. rewrite !pad_length. done.
  - intros r m Hr Hm. unfold k1024_keygen, k1024_encapsulate, k1024_decapsulate, toy_kem1024. eexists _, _. split; [reflexivity|]. split; [|split].
    + assert (T : take 32 (pad 1568 m) = m) by (rewrite take_pad by lia; rewrite take_ge by lia; done).
      rewrite T. rewrite (take_pad 32 3168 r), (take_pad 32 1568 r) by lia. done.
    + apply hmac_length.
    + unfold len. rewrite pad_length. done.
Qed.

(** ** Properties of session set-up and of sessions *)
(** ** Key agreement and the first session *)
Definition identity_generated `{RatchetCrypto, Ed25519} (k : IdentityKeyPair) : Prop :=
  exists a b c, length a = 32%nat /\ length b = 32%nat /\ is_bytes c /\ k = generateIdentityKeyPair a b c.

(** Prekeys from the generators: a signed prekey, perhaps a one-time prekey,
    and the KEM prekeys, last-resort and one-time. *)
Record prekeys_generated `{RatchetCrypto, Sha256, Ed25519, MlKem1024} (bk : IdentityKeyPair) (spk : SignedPreKey)
    (ot : option EcOneTimePreKey) (lr kt : option SignedPreKey) : Prop := {
  pg_ec : exists now id r r3, length r = 32%nat /\ generateEcSignedPreKey now bk id r r3 = Ok spk;
  pg_ot : forall k, ot = Some k -> exists n start r, (forall i, length (r i) = 32%nat) /\ 0 <= start /\ start + n <= 2 ^ 32 /\
    k ∈ generateEcOneTimePreKeys n start r;
  pg_lr : forall k, lr = Some k -> exists now id r, length r = 64%nat /\ generateKyberLastResortPreKey now bk id r = Ok k;
  pg_kt : forall k, kt = Some k -> exists now n start r ks, (forall i, length (r i) = 64%nat) /\
    generateKemOneTimePreKeys now bk n start r = Ok ks /\ k ∈ ks }.

Section Generated.
Context {C : RatchetCrypto} {S : Sha256} {E : Ed25519} {V : Curve25519} {K : MlKem1024}.

Lemma generated_identity k : identity_generated k -> identity_keys_ok k /\ 1 <= registrationId k <= 16384.
Proof.
  intros (a & b & c & Ha & Hb & Hc & ->). split; [by apply generateIdentityKeyPair_ok|].
  pose proof (generateRegistrationId_range c Hc). cbn [registrationId generateIdentityKeyPair]. lia.
Qed.

Lemma generated_prekeys bk spk ot lr kt : prekeys_generated bk spk ot lr kt ->
  ec_prekey_ok bk spk /\ (forall k, ot = Some k -> one_time_ok k) /\ (forall k, lr = Some k \/ kt = Some k -> kem_prekey_ok bk k).
Proof.
  intros [(now & id & r & r3 & Hr & Hg) Hot Hlr Hkt]. split; [by eapply generateEcSignedPreKey_ok|]. split.
  - intros k Hk. destruct (Hot k Hk) as (n & st & f & ? & ? & ? & ?). by eapply generateEcOneTimePreKeys_ok.
  - intros k [Hk|Hk].
    + destruct (Hlr k Hk) as (n & i & f & ? & ?). by eapply generateKyberLastResortPreKey_ok.
    + destruct (Hkt k Hk) as (n & c & st & f & ks & ? & ? & ?). by eapply generateKemOneTimePreKeys_ok.
Qed.
End Generated.

(** C2: end to end from the generated keys.  The initiator builds a session from
    the bundle of the responder's generated public keys; the responder, given
    what that session reports and the keys it names, builds a session with the
    same base key and the same post-quantum root; and every conversation of the
    two sessions, in any order of delivery within a round, agrees on the message
    keys. *)
Theorem first_session_agrees {C : RatchetCrypto} {S : Sha256} {E : Ed25519} {V : Curve25519} {K : MlKem1024}
    {CL : RatchetCryptoLaws C} {EL : Ed25519Laws E} {KL : MlKem1024Laws K} {HK : HonestKeys C V}
    ak bk spk ot lr kt used device eph rnd now now' aAddr bAddr rt info maxSkip rounds :
  identity_generated ak -> identity_generated bk -> prekeys_generated bk spk ot lr kt -> kem_choice lr kt = Some used ->
  1 <= device <= 0xffffffff -> length eph = 32%nat -> length rnd = 32%nat ->
  2000 <= maxSkip -> Forall (round_ok maxSkip) rounds -> NoDup (map round_public rounds) ->
  Forall (fun r => round_public r ∉ ({[x25519_public eph; sp_publicKey spk]} : gset bytes)) rounds ->
  exists sA sB pqr,
    buildInitiatorSession now aAddr bAddr ak (bundle_of device bk spk ot lr kt) rt info eph rnd =
      Ok {| sb_sessionState := sA; sb_initialRootKeyForSPQR := pqr |} /\
    buildResponderSession now' bAddr aAddr bk (message_of sA) spk ot (kem_report used kt).1 (kem_report used kt).2 info =
      Ok {| sb_sessionState := sB; sb_initialRootKeyForSPQR := pqr |} /\
    length pqr = 32%nat /\ baseKey sB = baseKey sA /\
    Forall2 agree rounds (converse maxSkip rounds (ratchet sA) (ratchet sB)).
Proof.
  intros Ha Hb Hp Hused Hdev He Hr Hm Hok Hnd Hfr. destruct (generated_identity ak Ha) as [Hak _]. destruct (generated_identity bk Hb) as [Hbk Hreg].
  destruct (generated_prekeys _ _ _ _ _ Hp) as (Hspk & Hot & Hkem).
  destruct (sessions_start ak bk Hak Hbk spk Hspk ot Hot lr kt Hkem used Hused eph rnd He Hr device now now' aAddr bAddr rt info Hdev Hreg)
    as (sA & sB & pqr & ck & HA & HB & Hl & Hbase & _ & _ & Hturn).
  exists sA, sB, pqr. do 4 (split; [done|]). by eapply converse_agrees_aux.
Qed.

Definition toy_initiator : IdentityKeyPair := @generateIdentityKeyPair toy_crypto toy_ed25519 (replicate 32 11) (replicate 32 12) [1; 2].
Definition toy_responder : IdentityKeyPair := @generateIdentityKeyPair toy_crypto toy_ed25519 (replicate 32 21) (replicate 32 22) [3; 4].
Definition toy_prekey (r : result SignedPreKey) : SignedPreKey :=
  match r with Ok k => k | Throw _ => {| sp_keyId := 0; sp_publicKey := []; sp_privateKey := []; sp_signature := []; sp_timestamp := 0 |} end.
Definition toy_spk : SignedPreKey := toy_prekey (@generateEcSignedPreKey toy_crypto toy_sha256 toy_ed25519 0 toy_responder (Some 7) (replicate 32 23) []).
Definition toy_ots : list EcOneTimePreKey := @generateEcOneTimePreKeys toy_crypto 2 5 (fun i => replicate 32 (24 + i)).
Definition toy_last_resort : SignedPreKey :=
  toy_prekey (@generateKyberLastResortPreKey toy_sha256 toy_ed25519 toy_kem1024 0 toy_responder 9 (replicate 64 31)).
Definition toy_address (n : Z) : ProtocolAddress := {| userId := [97 + n]; deviceId := n |}.
Definition toy_ot : option EcOneTimePreKey := head toy_ots.
Definition toy_rounds : list Round := [
  {| r_count := 2; r_first := {| d_now := 0; d_private := replicate 32 41; d_counter := 1; d_previous := 0 |};
     r_rest := [{| d_now := 0; d_private := replicate 32 41; d_counter := 0; d_previous := 0 |}] |};
  {| r_count := 1; r_first := {| d_now := 0; d_private := replicate 32 42; d_counter := 0; d_previous := 0 |}; r_rest := [] |} ].

Lemma toy_initiator_generated : @identity_generated toy_crypto toy_ed25519 toy_initiator.
Proof. exists (replicate 32 11), (replicate 32 12), [1; 2]. repeat split; repeat constructor; done. Qed.

Lemma toy_responder_generated : @identity_generated toy_crypto toy_ed25519 toy_responder.
Proof. exists (replicate 32 21), (replicate 32 22), [3; 4]. repeat split; repeat constructor; done. Qed.

Lemma toy_prekeys_generated : @prekeys_generated toy_crypto toy_sha256 toy_ed25519 toy_kem1024 toy_responder toy_spk toy_ot (Some toy_last_resort) None.
Proof.
  split.
  - exists 0, (Some 7), (replicate 32 23), []. split; [done|]. vm_compute. reflexivity.
  - intros k Hk. exists 2, 5, (fun i => replicate 32 (24 + i)). split; [done|]. do 2 (split; [done|]). unfold toy_ot in Hk.
    by apply head_Some_elem_of in Hk.
  - intros k [= <-]. exists 0, 9, (replicate 64 31). split; [done|]. vm_compute. reflexivity.
  - done.
Qed.

Lemma first_session_agrees_witness : exists sA sB pqr,
  @buildInitiatorSession toy_crypto toy_sha256 toy_ed25519 toy_curve toy_kem1024 100 (toy_address 0) (toy_address 1) toy_initiator
    (bundle_of 1 toy_responder toy_spk toy_ot (Some toy_last_resort) None) aci None (replicate 32 40) (replicate 32 50) =
    Ok {| sb_sessionState := sA; sb_initialRootKeyForSPQR := pqr |} /\
  @buildResponderSession toy_crypto toy_curve toy_kem1024 101 (toy_address 1) (toy_address 0) toy_responder (message_of sA)
    toy_spk toy_ot (Some toy_last_resort) None None = Ok {| sb_sessionState := sB; sb_initialRootKeyForSPQR := pqr |} /\
  length pqr = 32%nat /\ baseKey sB = baseKey sA /\
  Forall2 (@agree) toy_rounds (@converse toy_crypto 25000 toy_rounds (ratchet sA) (ratchet sB)).
Proof.
  apply (@first_session_agrees toy_crypto toy_sha256 toy_ed25519 toy_curve toy_kem1024 toy_laws toy_ed25519_laws toy_kem1024_laws toy_honest
    toy_initiator toy_responder toy_spk toy_ot (Some toy_last_resort) None toy_last_resort 1 (replicate 32 40) (replicate 32 50) 100 101 (toy_address 0) (toy_address 1) aci None 25000 toy_rounds).
  - exact toy_initiator_generated.
  - exact toy_responder_generated.
  - exact toy_prekeys_generated.
  - reflexivity.
  - lia.
  - reflexivity.
  - reflexivity.
  - lia.
  - repeat constructor; vm_compute; try discriminate; try reflexivity.
  - apply (bool_decide_eq_true_1 _); vm_compute; reflexivity.
  - apply (bool_decide_eq_true_1 _); vm_compute; reflexivity.
Defined.
