(* ===== verification/SessionStore.v ===== *)
(** * The store of identities, prekeys and sessions
    ([local/store/memory/adapter.ts], [local/store/kyber-prekey-lifecycle.ts])

    The state of [InMemorySignalProtocolStore] that the session layer uses.
    A key such as [`${userId}:${identityType}`] or [`${identityType}:${keyId}`]
    is the pair of its parts, which determines the text.  Values are stored and
    returned as copies.  Injected failures, the receive work, the device
    records and the key of the database are left out; the sender keys are in
    [SenderKeyStore]. *)
From S2P Require Import Prelude JsMap Utf8 SignalMessage SenderKeyStore Crypto Identity DoubleRatchet SessionRecord Pqxdh.

(** ** Reusable Kyber prekeys ([kyber-prekey-lifecycle.ts]) *)
(** The identity type, the Kyber prekey, the signed prekey and the base key. *)
Definition UseKey : Type := IdentityType * Z * Z * bytes.

Record StoredKyberPreKeyInstance := { instanceId : bytes; ki_key : SignedPreKey; replacedAt : option Z; uses : gset UseKey }.
Record StoredKyberPreKeyState := { currentKeyId : option Z; instances : Map Z StoredKyberPreKeyInstance }.
Record RetainedKyberPreKey := { rk_preKey : SignedPreKey; rk_instanceId : bytes }.

Definition ReusedBaseKeyError : exn := CodedError "ReusedBaseKeyError" "REUSED_BASE_KEY".

Definition sameKyberPreKeyInstance (left right : SignedPreKey) : bool :=
  (sp_keyId left =? sp_keyId right) && bool_decide (sp_publicKey left = sp_publicKey right) &&
  bool_decide (sp_privateKey left = sp_privateKey right) && bool_decide (sp_signature left = sp_signature right).

Definition assertUnambiguousKyberPreKeyStore (existing : option SignedPreKey) (candidate : SignedPreKey) : result unit :=
  match existing with
  | Some e => throw_when (negb (sameKyberPreKeyInstance e candidate)) (Error "Kyber prekey key ID already identifies different retained material")
  | None => Ok tt
  end.

Definition kyberPreKeyUseKey (t : IdentityType) (use : KyberPreKeyUse) : UseKey :=
  (t, use_kyberPreKeyId use, use_signedPreKeyId use, use_baseKeyBytes use).

Definition createKyberPreKeyState : StoredKyberPreKeyState := {| currentKeyId := None; instances := [] |}.

Definition getCurrentKyberPreKey (state : option StoredKyberPreKeyState) : option SignedPreKey :=
  s ← state; id ← currentKeyId s; i ← Map_get id (instances s); Some (ki_key i).

Definition getRetainedKyberPreKey (state : option StoredKyberPreKeyState) (keyId : Z) : option RetainedKyberPreKey :=
  s ← state; i ← Map_get keyId (instances s); Some {| rk_preKey := ki_key i; rk_instanceId := instanceId i |}.

Definition set_replacedAt (now : Z) (i : StoredKyberPreKeyInstance) : StoredKyberPreKeyInstance := {|
  instanceId := instanceId i; ki_key := ki_key i; replacedAt := Some (default now (replacedAt i)); uses := uses i |}.
Definition add_use (u : UseKey) (i : StoredKyberPreKeyInstance) : StoredKyberPreKeyInstance := {|
  instanceId := instanceId i; ki_key := ki_key i; replacedAt := replacedAt i; uses := {[u]} ∪ uses i |}.

(** Replace the current instance: its [replacedAt] is set once. *)
Definition replace_current (current : option Z) (now : Z) (m : Map Z StoredKyberPreKeyInstance) : Map Z StoredKyberPreKeyInstance :=
  match current with
  | Some id => match Map_get id m with Some i => Map_set id (set_replacedAt now i) m | None => m end
  | None => m
  end.

Definition new_instance (instance : bytes) (k : SignedPreKey) : StoredKyberPreKeyInstance :=
  {| instanceId := instance; ki_key := k; replacedAt := None; uses := ∅ |}.

Definition retainKyberPreKey (candidate : SignedPreKey) (now : Z) (instance : bytes) : M StoredKyberPreKeyState bool := fun state =>
  let existing := Map_get (sp_keyId candidate) (instances state) in
  match assertUnambiguousKyberPreKeyStore (ki_key <$> existing) candidate, existing with
  | Throw e, _ => (state, Throw e)
  | Ok _, Some _ => (state, Ok false)
  | Ok _, None =>
      ({| currentKeyId := Some (sp_keyId candidate);
          instances := Map_set (sp_keyId candidate) (new_instance instance candidate) (replace_current (currentKeyId state) now (instances state)) |}, Ok true)
  end.

Definition assertKyberPreKeyUse (state : option StoredKyberPreKeyState) (t : IdentityType) (use : KyberPreKeyUse) :
    result StoredKyberPreKeyInstance :=
  match state ≫= (fun s => Map_get (use_kyberPreKeyId use) (instances s)) with
  | None => Throw (Error "Kyber prekey is not retained")
  | Some parent =>
      throw_when (negb (bool_decide (instanceId parent = use_instanceId use))) (Error "Kyber prekey instance mismatch") ;;
      throw_when (bool_decide (kyberPreKeyUseKey t use ∈ uses parent)) ReusedBaseKeyError ;;
      Ok parent
  end.

(** The parent with the use recorded. *)
Definition recordKyberPreKeyUse (state : option StoredKyberPreKeyState) (t : IdentityType) (use : KyberPreKeyUse) :
    result StoredKyberPreKeyInstance :=
  parent ← assertKyberPreKeyUse state t use; Ok (add_use (kyberPreKeyUseKey t use) parent).

(** [use] without an instance: that of the retained key. *)
Definition recordKyberPreKeyUseById (state : option StoredKyberPreKeyState) (t : IdentityType) (kyberPreKeyId signedPreKeyId : Z)
    (baseKeyBytes : bytes) : result StoredKyberPreKeyInstance :=
  match state ≫= (fun s => Map_get kyberPreKeyId (instances s)) with
  | None => Throw (Error "Kyber prekey is not retained")
  | Some parent => recordKyberPreKeyUse state t {|
      use_kyberPreKeyId := kyberPreKeyId; use_instanceId := instanceId parent; use_signedPreKeyId := signedPreKeyId;
      use_baseKeyBytes := baseKeyBytes |}
  end.

(** ** The store *)
Abbreviation KeyRef := (IdentityType * Z)%type.

Record Store := {
  identityKeys : Map IdentityType IdentityKeyPair;
  registrationIds : Map IdentityType Z;
  contactIdentities : Map (jsstring * IdentityType) ContactIdentityRecord;
  ecSignedPreKeys : Map KeyRef SignedPreKey;
  ecOneTimePreKeys : Map KeyRef EcOneTimePreKey;
  kyberPreKeys : Map KeyRef StoredKyberPreKeyInstance;
  currentKyberPreKeyIds : Map IdentityType Z;
  kemOneTimePreKeys : Map KeyRef SignedPreKey;
  sessionRecords : Map ProtocolAddress SessionRecord;
  store_handoffs : Map jsstring (Map RowKey SenderKeyHandoffRecord) }.

Definition set_contacts c (s : Store) : Store := {|
  identityKeys := identityKeys s; registrationIds := registrationIds s; contactIdentities := c;
  ecSignedPreKeys := ecSignedPreKeys s; ecOneTimePreKeys := ecOneTimePreKeys s; kyberPreKeys := kyberPreKeys s;
  currentKyberPreKeyIds := currentKyberPreKeyIds s; kemOneTimePreKeys := kemOneTimePreKeys s;
  sessionRecords := sessionRecords s; store_handoffs := store_handoffs s |}.
Definition set_own i r (s : Store) : Store := {|
  identityKeys := i; registrationIds := r; contactIdentities := contactIdentities s;
  ecSignedPreKeys := ecSignedPreKeys s; ecOneTimePreKeys := ecOneTimePreKeys s; kyberPreKeys := kyberPreKeys s;
  currentKyberPreKeyIds := currentKyberPreKeyIds s; kemOneTimePreKeys := kemOneTimePreKeys s;
  sessionRecords := sessionRecords s; store_handoffs := store_handoffs s |}.
Definition set_prekeys ec ot ky cur kem (s : Store) : Store := {|
  identityKeys := identityKeys s; registrationIds := registrationIds s; contactIdentities := contactIdentities s;
  ecSignedPreKeys := ec; ecOneTimePreKeys := ot; kyberPreKeys := ky;
  currentKyberPreKeyIds := cur; kemOneTimePreKeys := kem;
  sessionRecords := sessionRecords s; store_handoffs := store_handoffs s |}.
Definition set_sessions r h (s : Store) : Store := {|
  identityKeys := identityKeys s; registrationIds := registrationIds s; contactIdentities := contactIdentities s;
  ecSignedPreKeys := ecSignedPreKeys s; ecOneTimePreKeys := ecOneTimePreKeys s; kyberPreKeys := kyberPreKeys s;
  currentKyberPreKeyIds := currentKyberPreKeyIds s; kemOneTimePreKeys := kemOneTimePreKeys s;
  sessionRecords := r; store_handoffs := h |}.

Definition set_ecSigned ec (s : Store) : Store :=
  set_prekeys ec (ecOneTimePreKeys s) (kyberPreKeys s) (currentKyberPreKeyIds s) (kemOneTimePreKeys s) s.
Definition set_ecOneTime ot (s : Store) : Store :=
  set_prekeys (ecSignedPreKeys s) ot (kyberPreKeys s) (currentKyberPreKeyIds s) (kemOneTimePreKeys s) s.
Definition set_kyber ky cur (s : Store) : Store :=
  set_prekeys (ecSignedPreKeys s) (ecOneTimePreKeys s) ky cur (kemOneTimePreKeys s) s.
Definition set_kem kem (s : Store) : Store :=
  set_prekeys (ecSignedPreKeys s) (ecOneTimePreKeys s) (kyberPreKeys s) (currentKyberPreKeyIds s) kem s.
Definition set_records r (s : Store) : Store := set_sessions r (store_handoffs s) s.

(** *** Own identity keys *)
Definition storeIdentityKey (keyPair : IdentityKeyPair) (t : IdentityType) : M Store unit :=
  M_modify (fun s => set_own (Map_set t keyPair (identityKeys s)) (registrationIds s) s).
Definition getIdentityKey (t : IdentityType) (s : Store) : option IdentityKeyPair := Map_get t (identityKeys s).
Definition hasIdentityKey (t : IdentityType) (s : Store) : bool := bool_decide (is_Some (Map_get t (identityKeys s))).
Definition getLocalRegistrationId (t : IdentityType) (s : Store) : Z := default 0 (Map_get t (registrationIds s)).
Definition setLocalRegistrationId (id : Z) (t : IdentityType) : M Store unit :=
  M_modify (fun s => set_own (identityKeys s) (Map_set t id (registrationIds s)) s).

(** *** Contact identities *)
Inductive IdentityKeyChange := NEW_IDENTITY | UNCHANGED | KEY_CHANGED | KEY_ROLLBACK.
Inductive TrustDirection := SENDING | RECEIVING.

Section Contacts.
Context {S : Sha256}.

Definition contactKey (address : ProtocolAddress) (t : IdentityType) : jsstring * IdentityType := (userId address, t).
Definition contact_at (address : ProtocolAddress) (t : IdentityType) (s : Store) : option ContactIdentityRecord :=
  Map_get (contactKey address t) (contactIdentities s).

Definition saveContactIdentity (now : Z) (address : ProtocolAddress) (identity : CompositeIdentityV1) (t : IdentityType)
    (suppliedCommitment : option bytes) : M Store IdentityKeyChange := (
  do existing <- M_gets (contact_at address t);
  do status <- M_lift (evaluateContactIdentityCandidate existing identity suppliedCommitment);
  match status with
  | NEW =>
      do record <- M_lift (createUnverifiedContactIdentityRecord identity now);
      do_ M_modify (fun s => set_contacts (Map_set (contactKey address t) record (contactIdentities s)) s);
      M_ret NEW_IDENTITY
  | MATCH => M_ret UNCHANGED
  | ROLLBACK => M_ret KEY_ROLLBACK
  | CHANGED => M_ret KEY_CHANGED
  end)%st.

Definition getContactIdentity (address : ProtocolAddress) (t : IdentityType) (s : Store) : result (option ContactIdentityRecord) :=
  match contact_at address t s with
  | None => Ok None
  | Some record => validateContactIdentityRecord record ;; Ok (Some record)
  end.

Definition record_states (r : SessionRecord) : list SessionState := option_list (currentSession r) ++ (archivedSessions r).*2.

(** A record with a session of any device of the account. *)
Definition is_session_of (user : jsstring) (r : SessionRecord) : bool :=
  existsb (fun state => bool_decide (userId (remoteAddress state) = user)) (record_states r).

(** Also [acceptContactIdentityRotation], which only calls it. *)
Definition acceptContactIdentityRotationAndDeleteSessions (now : Z) (address : ProtocolAddress) (identity : CompositeIdentityV1)
    (t : IdentityType) (suppliedCommitment : option bytes) : M Store ContactIdentityRecord := (
  do existing <- M_gets (contact_at address t);
  match existing with
  | None => M_throw (Error "Cannot rotate an unseen identity")
  | Some existing =>
      do replacement <- M_lift (acceptContactIdentityRotation existing identity now suppliedCommitment);
      do_ M_modify (fun s => set_contacts (Map_set (contactKey address t) replacement (contactIdentities s)) s);
      do_ M_modify (fun s => set_sessions (filter (fun e => is_session_of (userId address) e.2 = false) (sessionRecords s))
                               (deleteAccount (userId address) (store_handoffs s)).1 s);
      M_ret replacement
  end)%st.

Definition verifyContactIdentity (now : Z) (address : ProtocolAddress) (identity : CompositeIdentityV1) (t : IdentityType)
    (suppliedCommitment : option bytes) : M Store ContactIdentityRecord := (
  do existing <- M_gets (contact_at address t);
  match existing with
  | None => M_throw (Error "Cannot verify an unseen identity")
  | Some existing =>
      do verified <- M_lift (verifyContactIdentityRecord existing identity now suppliedCommitment);
      do_ M_modify (fun s => set_contacts (Map_set (contactKey address t) verified (contactIdentities s)) s);
      M_ret verified
  end)%st.

(** The direction plays no part. *)
Definition isTrustedIdentity (address : ProtocolAddress) (identity : CompositeIdentityV1) (direction : TrustDirection)
    (t : IdentityType) (s : Store) : result bool :=
  status ← evaluateContactIdentityCandidate (contact_at address t s) identity None;
  Ok (negb (bool_decide (status = CHANGED)) && negb (bool_decide (status = ROLLBACK))).
End Contacts.

(** *** Prekeys *)
Definition storeEcSignedPreKey (k : SignedPreKey) (t : IdentityType) : M Store unit :=
  M_modify (fun s => set_ecSigned (Map_set (t, sp_keyId k) k (ecSignedPreKeys s)) s).

(** The entries of one identity type, in the order of insertion. *)
Definition of_type {A} (t : IdentityType) (m : Map KeyRef A) : list (Z * A) :=
  omap (fun e => if decide (e.1.1 = t) then Some (e.1.2, e.2) else None) m.

(** The loop over the entries with [maxKeyId] and [result]. *)
Definition most_recent {A} (l : list (Z * A)) : option A :=
  (foldl (fun acc e => if e.1 >? acc.1 then (e.1, Some e.2) else acc) (-1, None) l).2.

Definition getEcSignedPreKey (keyId : option Z) (t : IdentityType) (s : Store) : option SignedPreKey :=
  match keyId with
  | Some id => Map_get (t, id) (ecSignedPreKeys s)
  | None => most_recent (of_type t (ecSignedPreKeys s))
  end.
Definition getAllEcSignedPreKeys (t : IdentityType) (s : Store) : list SignedPreKey := (of_type t (ecSignedPreKeys s)).*2.
Definition removeEcSignedPreKey (keyId : Z) (t : IdentityType) : M Store unit :=
  M_modify (fun s => set_ecSigned (Map_delete (t, keyId) (ecSignedPreKeys s)) s).

Definition storeEcOneTimePreKeys (prekeys : list EcOneTimePreKey) (t : IdentityType) : M Store unit :=
  M_modify (fun s => set_ecOneTime (foldl (fun m k => Map_set (t, ot_keyId k) k m) (ecOneTimePreKeys s) prekeys) s).
Definition getEcOneTimePreKeys (t : IdentityType) (s : Store) : list EcOneTimePreKey := (of_type t (ecOneTimePreKeys s)).*2.
Definition removeEcOneTimePreKey (preKeyId : Z) (t : IdentityType) : M Store unit :=
  M_modify (fun s => set_ecOneTime (Map_delete (t, preKeyId) (ecOneTimePreKeys s)) s).

(** [random32] is the new instance ID. *)
Definition storeKyberPreKey (now : Z) (k : SignedPreKey) (t : IdentityType) (random32 : bytes) : M Store unit := fun s =>
  let existing := Map_get (t, sp_keyId k) (kyberPreKeys s) in
  match assertUnambiguousKyberPreKeyStore (ki_key <$> existing) k, existing with
  | Throw e, _ => (s, Throw e)
  | Ok _, Some _ => (s, Ok tt)
  | Ok _, None =>
      let kept := match Map_get t (currentKyberPreKeyIds s) with
                  | Some id => match Map_get (t, id) (kyberPreKeys s) with
                               | Some i => Map_set (t, id) (set_replacedAt now i) (kyberPreKeys s)
                               | None => kyberPreKeys s
                               end
                  | None => kyberPreKeys s
                  end in
      (set_kyber (Map_set (t, sp_keyId k) (new_instance random32 k) kept) (Map_set t (sp_keyId k) (currentKyberPreKeyIds s)) s, Ok tt)
  end.

Definition getKyberPreKey (t : IdentityType) (s : Store) : option SignedPreKey :=
  id ← Map_get t (currentKyberPreKeyIds s); i ← Map_get (t, id) (kyberPreKeys s); Some (ki_key i).
Definition getKyberPreKeyById (keyId : Z) (t : IdentityType) (s : Store) : option RetainedKyberPreKey :=
  i ← Map_get (t, keyId) (kyberPreKeys s); Some {| rk_preKey := ki_key i; rk_instanceId := instanceId i |}.

(** The state of one instance, which the source passes by reference. *)
Definition kyber_state (t : IdentityType) (keyId : Z) (s : Store) : option StoredKyberPreKeyState :=
  i ← Map_get (t, keyId) (kyberPreKeys s); Some {| currentKeyId := Some keyId; instances := [(keyId, i)] |}.
Definition put_instance (t : IdentityType) (keyId : Z) (i : StoredKyberPreKeyInstance) (s : Store) : Store :=
  set_kyber (Map_set (t, keyId) i (kyberPreKeys s)) (currentKyberPreKeyIds s) s.

Definition markKyberPreKeyUsed (kyberPreKeyId signedPreKeyId : Z) (baseKeyBytes : bytes) (t : IdentityType) : M Store unit := (
  do state <- M_gets (kyber_state t kyberPreKeyId);
  do i <- M_lift (recordKyberPreKeyUseById state t kyberPreKeyId signedPreKeyId baseKeyBytes);
  M_modify (put_instance t kyberPreKeyId i))%st.

Definition storeKemOneTimePreKeys (prekeys : list SignedPreKey) (t : IdentityType) : M Store unit :=
  M_modify (fun s => set_kem (foldl (fun m k => Map_set (t, sp_keyId k) k m) (kemOneTimePreKeys s) prekeys) s).
Definition getKemOneTimePreKeys (t : IdentityType) (s : Store) : list SignedPreKey := (of_type t (kemOneTimePreKeys s)).*2.
Definition getKemOneTimePreKey (keyId : Z) (t : IdentityType) (s : Store) : option SignedPreKey := Map_get (t, keyId) (kemOneTimePreKeys s).
Definition removeKemOneTimePreKey (keyId : Z) (t : IdentityType) : M Store unit :=
  M_modify (fun s => set_kem (Map_delete (t, keyId) (kemOneTimePreKeys s)) s).
Definition getKemOneTimePreKeyCount (t : IdentityType) (s : Store) : Z := len (of_type t (kemOneTimePreKeys s)).

Definition max_id {A} (l : list (Z * A)) : Z := foldl (fun maxId e => if e.1 >? maxId then e.1 else maxId) 0 l.
Definition getEcSignedPreKeyMaxId (t : IdentityType) (s : Store) : Z := max_id (of_type t (ecSignedPreKeys s)).
Definition getKyberPreKeyMaxId (t : IdentityType) (s : Store) : Z := max_id (of_type t (kyberPreKeys s)).

Definition drop_type {A} (t : IdentityType) (m : Map KeyRef A) : Map KeyRef A := filter (fun e => e.1.1 <> t) m.

(** The counts are those of the signed, one-time, Kyber and KEM prekeys. *)
Definition deleteAllPreKeys (t : IdentityType) : M Store (Z * Z * Z * Z) := fun s =>
  (set_prekeys (drop_type t (ecSignedPreKeys s)) (drop_type t (ecOneTimePreKeys s)) (drop_type t (kyberPreKeys s))
     (Map_delete t (currentKyberPreKeyIds s)) (drop_type t (kemOneTimePreKeys s)) s,
   Ok (len (of_type t (ecSignedPreKeys s)), len (of_type t (ecOneTimePreKeys s)), len (of_type t (kyberPreKeys s)),
       len (of_type t (kemOneTimePreKeys s)))).

(** The state of the parts that are not modelled is cleared too. *)
Definition clearAllKeys : M Store unit :=
  M_modify (fun _ => {| identityKeys := []; registrationIds := []; contactIdentities := []; ecSignedPreKeys := [];
    ecOneTimePreKeys := []; kyberPreKeys := []; currentKyberPreKeyIds := []; kemOneTimePreKeys := []; sessionRecords := [];
    store_handoffs := [] |}).

(** *** Session records *)
Definition storeSessionRecord (address : ProtocolAddress) (record : SessionRecord) : M Store unit := (
  do_ M_lift (assertCurrentSessionRecord record);
  M_modify (fun s => set_records (Map_set address record (sessionRecords s)) s))%st.

(** Also [readSession]; a record that is not current is deleted. *)
Definition getSessionRecord (address : ProtocolAddress) : M Store (option SessionRecord) := fun s =>
  match Map_get address (sessionRecords s) with
  | None => (s, Ok None)
  | Some record =>
      match assertCurrentSessionRecord record with
      | Ok _ => (s, Ok (Some record))
      | Throw _ => (set_records (Map_delete address (sessionRecords s)) s, Ok None)
      end
  end.

Definition deleteSessionRecord (address : ProtocolAddress) : M Store unit :=
  M_modify (fun s => set_sessions (Map_delete address (sessionRecords s))
                       (handoff_deleteDevice (userId address, deviceId address) (store_handoffs s)) s).

(** It leaves the sender key handoffs. *)
Definition clearAllSessions : M Store unit := M_modify (set_records []).

Definition set_lastSentAt (now : Z) (m : SessionRecordMetadata) : SessionRecordMetadata := {|
  m_lastUsedAt := m_lastUsedAt m; m_messagesSent := m_messagesSent m; m_messagesReceived := m_messagesReceived m;
  m_isActive := m_isActive m; m_label := m_label m; m_createdAt := m_createdAt m; m_lastSentAt := Some (Some now);
  m_lastReceivedAt := m_lastReceivedAt m; m_isInitiator := m_isInitiator m |}.

Definition store_archiveCurrentSession (now : Z) (address : ProtocolAddress) (newSession : option SessionState) : M Store unit := fun s =>
  let h := handoff_deleteDevice (userId address, deviceId address) (store_handoffs s) in
  match Map_get address (sessionRecords s) with
  | Some record =>
      let record := archiveCurrent newSession MAX_ARCHIVED_SESSIONS record in
      let record := set_metadata (set_lastSentAt now <$> metadata record) record in
      (set_sessions (Map_set address record (sessionRecords s)) h s, Ok tt)
  | None =>
      match newSession with
      | Some session => (set_sessions (Map_set address (create_record session) (sessionRecords s)) h s, Ok tt)
      | None => (set_sessions (sessionRecords s) h s, Ok tt)
      end
  end.

Definition hasSession (address : ProtocolAddress) (s : Store) : bool := bool_decide (is_Some (Map_get address (sessionRecords s))).
Definition getSessionCount (s : Store) : Z := len (sessionRecords s).

(** *** The commit of a session with its trust decision *)
Record SessionTrustCommit := {
  tc_address : ProtocolAddress; tc_record : SessionRecord; tc_contactIdentity : CompositeIdentityV1;
  tc_contactIdentityType : IdentityType; tc_localIdentityType : IdentityType;
  tc_oneTimePreKeyId : option Z; tc_kemOneTimePreKeyId : option Z; tc_kyberPreKeyUse : option KyberPreKeyUse;
  tc_senderKeyHandoffInvalidation : option ProtocolAddress }.

Section Commit.
Context {S : Sha256}.

(** The checks, before any mutation: the record to pin and the Kyber instance
    with its new use. *)
Definition check_commit (now : Z) (c : SessionTrustCommit) (s : Store) :
    result (option ContactIdentityRecord * option (Z * StoredKyberPreKeyInstance)) :=
  assertCurrentSessionRecord (tc_record c) ;;
  contactStatus ← evaluateContactIdentityCandidate (contact_at (tc_address c) (tc_contactIdentityType c) s) (tc_contactIdentity c) None;
  throw_when (negb (bool_decide (contactStatus = NEW)) && negb (bool_decide (contactStatus = MATCH)))
    (Error "Atomic session/trust commit rejected contact identity status") ;;
  newContact ← (if decide (contactStatus = NEW)
                then r ← createUnverifiedContactIdentityRecord (tc_contactIdentity c) now; Ok (Some r) else Ok None);
  throw_when (match tc_oneTimePreKeyId c with
              | Some id => negb (bool_decide (is_Some (Map_get (tc_localIdentityType c, id) (ecOneTimePreKeys s))))
              | None => false
              end) (Error "Atomic session/trust commit cannot consume a missing EC one-time prekey") ;;
  throw_when (match tc_kemOneTimePreKeyId c with
              | Some id => negb (bool_decide (is_Some (Map_get (tc_localIdentityType c, id) (kemOneTimePreKeys s))))
              | None => false
              end) (Error "Atomic session/trust commit cannot consume a missing KEM one-time prekey") ;;
  used ← (match tc_kyberPreKeyUse c with
          | Some use =>
              i ← recordKyberPreKeyUse (kyber_state (tc_localIdentityType c) (use_kyberPreKeyId use) s) (tc_localIdentityType c) use;
              Ok (Some (use_kyberPreKeyId use, i))
          | None => Ok None
          end);
  Ok (newContact, used).

Definition apply_commit (c : SessionTrustCommit) (newContact : option ContactIdentityRecord)
    (used : option (Z * StoredKyberPreKeyInstance)) (s : Store) : Store :=
  let t := tc_localIdentityType c in
  let s := match newContact with
           | Some r => set_contacts (Map_set (contactKey (tc_address c) (tc_contactIdentityType c)) r (contactIdentities s)) s
           | None => s
           end in
  let s := set_records (Map_set (tc_address c) (tc_record c) (sessionRecords s)) s in
  let s := match tc_oneTimePreKeyId c with Some id => set_ecOneTime (Map_delete (t, id) (ecOneTimePreKeys s)) s | None => s end in
  let s := match tc_kemOneTimePreKeyId c with Some id => set_kem (Map_delete (t, id) (kemOneTimePreKeys s)) s | None => s end in
  let s := match used with Some (id, i) => put_instance t id i s | None => s end in
  match tc_senderKeyHandoffInvalidation c with
  | Some a => set_sessions (sessionRecords s) (handoff_deleteDevice (userId a, deviceId a) (store_handoffs s)) s
  | None => s
  end.

Definition commitSessionTrust (now : Z) (c : SessionTrustCommit) : M Store unit := fun s =>
  match check_commit now c s with
  | Throw e => (s, Throw e)
  | Ok (newContact, used) => (apply_commit c newContact used s, Ok tt)
  end.
End Commit.
