(* ===== verification/SessionStoreProofs.v ===== *)
(** * The archive of a session record and the operations of the store *)
From stdpp Require Import sets.
From S2P Require Import Prelude JsMap Utf8 Crypto Identity IdentityProofs SignalMessage DoubleRatchet SpqrState SessionRecord SenderKeyStore Pqxdh SessionStore.

(** ** Session records: the archive, its bound and its order *)
(** ** Maps in insertion order *)
Lemma Map_delete_absent {V} (k : bytes) (m : Map bytes V) : k ∉ m.*1 -> Map_delete k m = m.
Proof.
  unfold Map_delete. induction m as [|[a w] m IH]; [done|]. cbn [fmap list_fmap fst]. intros [Hn Hm]%not_elem_of_cons.
  rewrite filter_cons_True by (cbn; congruence). by rewrite IH.
Qed.

Lemma Map_delete_keys_In {V} (k x : bytes) (m : Map bytes V) : x ∈ (Map_delete k m).*1 <-> x ∈ m.*1 /\ x <> k.
Proof.
  unfold Map_delete. induction m as [|[a w] m IH]; [cbn; split; [by intros ?%not_elem_of_nil|by intros [?%not_elem_of_nil _]]|].
  rewrite filter_cons. cbn [fst]. case_decide as E; cbn [fmap list_fmap fst]; rewrite !elem_of_cons, ?IH; naive_solver.
Qed.

Lemma Map_set_absent {V} (k : bytes) (v : V) (m : Map bytes V) : k ∉ m.*1 -> Map_set k v m = m ++ [(k, v)].
Proof.
  induction m as [|[a w] m IH]; [done|]. cbn. intros [Hn Hm]%not_elem_of_cons. rewrite decide_False by congruence. by rewrite IH.
Qed.

Lemma delete_first_keys {V} (m : Map bytes V) : NoDup m.*1 -> forall n,
  foldl (fun m k => Map_delete k m) m (take n m.*1) = drop n m.
Proof.
  induction m as [|[a w] m IH]; intros Hd n; [by destruct n|]. destruct n as [|n]; [done|]. cbn in *. apply NoDup_cons in Hd as [Ha Hd].
  assert (E : Map_delete a ((a, w) :: m) = m).
  { unfold Map_delete. rewrite filter_cons_False by (cbn; auto). by apply Map_delete_absent. }
  rewrite E. by apply IH.
Qed.

Lemma length_Map_delete {V} (k : bytes) (m : Map bytes V) : (length (Map_delete k m) <= length m)%nat.
Proof. apply sublist_length, Map_delete_sublist. Qed.

Lemma length_Map_delete_present {V} (k : bytes) (m : Map bytes V) : k ∈ m.*1 -> (length (Map_delete k m) < length m)%nat.
Proof.
  unfold Map_delete. induction m as [|[a w] m IH]; [by intros ?%not_elem_of_nil|]. rewrite filter_cons. cbn [fmap list_fmap fst length]. rewrite elem_of_cons.
  case_decide as E; cbn [length].
  - intros [->|Hin]; [done|]. specialize (IH Hin). lia.
  - intros _. pose proof (length_Map_delete k m). unfold Map_delete in *. lia.
Qed.

Lemma Map_delete_Forall {V} (P : bytes * V -> Prop) k m : Forall P m -> Forall P (Map_delete k m).
Proof. rewrite !Forall_forall. intros H x Hx. unfold Map_delete in Hx. apply list_elem_of_filter in Hx as [_ Hx]. auto. Qed.

(** ** Well-formed records *)
(** Every archived session is under its base key, once, and there are at most
    [MAX_ARCHIVED_SESSIONS]. *)
Record record_wf (r : SessionRecord) : Prop := {
  rw_keys : NoDup (archivedSessions r).*1;
  rw_base : Forall (fun e => baseKey e.2 = e.1) (archivedSessions r);
  rw_bound : getArchivedCount r <= MAX_ARCHIVED_SESSIONS }.

Definition archive_ok (m : Map bytes SessionState) : Prop := NoDup m.*1 /\ Forall (fun e => baseKey e.2 = e.1) m.

Lemma insertArchived_eq s m : NoDup m.*1 -> insertArchived s m = Map_delete (baseKey s) m ++ [(baseKey s, s)].
Proof. intros Hd. unfold insertArchived. apply Map_set_absent. rewrite Map_delete_keys_In. naive_solver. Qed.

Lemma insertArchived_ok s m : archive_ok m -> archive_ok (insertArchived s m).
Proof.
  intros [Hd Hb]. rewrite insertArchived_eq by done. split.
  - rewrite fmap_app. apply NoDup_app. split; [by apply Map_delete_NoDup|]. split; [|apply NoDup_singleton].
    intros x Hx ->%list_elem_of_singleton. apply Map_delete_keys_In in Hx as [_ Hx]. done.
  - apply Forall_app. split; [by apply Map_delete_Forall|by repeat constructor].
Qed.

Lemma archive_old_ok r : record_wf r -> archive_ok (archive_old r).
Proof. intros [? ? _]. unfold archive_old. destruct (currentSession r); [apply insertArchived_ok|]; done. Qed.

Lemma archive_ok_drop n m : archive_ok m -> archive_ok (drop n m).
Proof.
  intros [Hd Hb]. split; [|by apply Forall_drop]. rewrite fmap_drop. rewrite <- (take_drop n m.*1) in Hd. by apply NoDup_app in Hd as (_ & _ & ?).
Qed.

(** Over the bound the oldest entries leave. *)
Lemma archiveCurrent_eq new mx r : record_wf r -> archiveCurrent new mx r =
  set_currentSession new (set_archived (drop (Z.to_nat (Z.max 0 (len (archive_old r) - mx))) (archive_old r)) r).
Proof.
  intros Hw. unfold archiveCurrent. destruct (archive_old_ok r Hw) as [Hd _]. rewrite delete_first_keys by done.
  unfold len. by rewrite length_fmap.
Qed.

Lemma archiveCurrent_wf new r : record_wf r -> record_wf (archiveCurrent new MAX_ARCHIVED_SESSIONS r).
Proof.
  intros Hw. rewrite archiveCurrent_eq by done. destruct (archive_ok_drop (Z.to_nat (Z.max 0 (len (archive_old r) - MAX_ARCHIVED_SESSIONS))) _ (archive_old_ok r Hw)) as [Hd Hb].
  split; [exact Hd|exact Hb|]. unfold getArchivedCount, set_currentSession, set_archived, len, MAX_ARCHIVED_SESSIONS in *. cbn [archivedSessions].
  rewrite length_drop. lia.
Qed.

Lemma length_archive_old r : record_wf r -> len (archive_old r) <= len (archivedSessions r) + 1.
Proof.
  intros [Hd _ _]. unfold archive_old. destruct (currentSession r) as [s|]; [|lia].
  rewrite insertArchived_eq by done. unfold len. rewrite length_app. cbn [length]. pose proof (length_Map_delete (baseKey (withoutPendingPreKey s)) (archivedSessions r)). lia.
Qed.

Lemma promote_wf key r r' : record_wf r -> record_promoteSession key r = Some r' -> record_wf r'.
Proof.
  intros Hw. unfold record_promoteSession. destruct (Map_get key (archivedSessions r)) as [s|] eqn:G; [|done]. intros [= <-].
  destruct (archive_old_ok r Hw) as [Hd Hb]. split; cbn [archivedSessions set_currentSession set_archived].
  - by apply Map_delete_NoDup.
  - by apply Map_delete_Forall.
  - unfold getArchivedCount. cbn [archivedSessions set_currentSession set_archived].
    assert (Hin : key ∈ (archivedSessions r).*1). { apply Map_get_In in G. apply list_elem_of_fmap. by exists (key, s). }
    pose proof (length_archive_old r Hw). pose proof (rw_bound r Hw) as Hc. unfold getArchivedCount in Hc.
    destruct (decide (key ∈ (archive_old r).*1)) as [Hk|Hk].
    + pose proof (length_Map_delete_present key (archive_old r) Hk). unfold len in *. lia.
    + exfalso. apply Hk. unfold archive_old. destruct (currentSession r) as [c|]; [|done].
      rewrite insertArchived_eq by apply Hw. rewrite fmap_app, elem_of_app, Map_delete_keys_In.
      destruct (decide (key = baseKey (withoutPendingPreKey c))) as [->|]; [right; by left|by left].
Qed.

Lemma promoteSession_wf now key r r' : record_wf r -> promoteSession now r key = Some r' -> record_wf r'.
Proof.
  intros Hw. unfold promoteSession. destruct (record_promoteSession key r) as [c|] eqn:E; [|done]. intros [= <-].
  destruct (promote_wf key r c Hw E) as [? ? ?]. by split.
Qed.

Lemma set_currentSession_wf c r : record_wf r -> record_wf (set_currentSession c r).
Proof. intros [? ? ?]. by split. Qed.

Lemma create_record_wf s : record_wf (create_record s).
Proof. split; cbn; [constructor|constructor|done]. Qed.

Lemma insertSession_wf now r s i : (forall x, r = Some x -> record_wf x) -> record_wf (insertSession now r s i MAX_ARCHIVED_SESSIONS).
Proof.
  intros Hw. destruct r as [r|]; cbn.
  - destruct (archiveCurrent_wf (Some s) r (Hw r eq_refl)) as [? ? ?]. by split.
  - split; cbn; [constructor|constructor|done].
Qed.

#[export] Hint Resolve archiveCurrent_wf set_currentSession_wf create_record_wf promoteSession_wf insertSession_wf : s2p.

(** ** The session store: prekeys are spent once, pins change by rotation only *)
(** ** The operations that change the store

    The devices, the sender keys and the other parts that are left out share
    this state: their operations change the session records and the handoffs
    only, and [OpOtherParts] stands for any such change. *)
Inductive StoreOp : Type :=
  | OpStoreIdentityKey (k : IdentityKeyPair) (t : IdentityType)
  | OpSetRegistrationId (id : Z) (t : IdentityType)
  | OpSaveContact (now : Z) (a : ProtocolAddress) (c : CompositeIdentityV1) (t : IdentityType) (supplied : option bytes)
  | OpAcceptRotation (now : Z) (a : ProtocolAddress) (c : CompositeIdentityV1) (t : IdentityType) (supplied : option bytes)
  | OpVerifyContact (now : Z) (a : ProtocolAddress) (c : CompositeIdentityV1) (t : IdentityType) (supplied : option bytes)
  | OpStoreSigned (k : SignedPreKey) (t : IdentityType)
  | OpRemoveSigned (id : Z) (t : IdentityType)
  | OpStoreOneTime (ks : list EcOneTimePreKey) (t : IdentityType)
  | OpRemoveOneTime (id : Z) (t : IdentityType)
  | OpStoreKyber (now : Z) (k : SignedPreKey) (t : IdentityType) (instance : bytes)
  | OpMarkKyber (kyber signed : Z) (baseKey : bytes) (t : IdentityType)
  | OpStoreKem (ks : list SignedPreKey) (t : IdentityType)
  | OpRemoveKem (id : Z) (t : IdentityType)
  | OpDeleteAllPreKeys (t : IdentityType)
  | OpStoreSession (a : ProtocolAddress) (r : SessionRecord)
  | OpGetSession (a : ProtocolAddress)
  | OpDeleteSession (a : ProtocolAddress)
  | OpArchive (now : Z) (a : ProtocolAddress) (s : option SessionState)
  | OpCommit (now : Z) (c : SessionTrustCommit)
  | OpClearAllKeys
  | OpClearAllSessions
  | OpOtherParts (records : Map ProtocolAddress SessionRecord) (handoffs : Map jsstring (Map RowKey SenderKeyHandoffRecord)).

Definition forget {S A} (m : M S A) : M S unit := (do_ m; M_ret tt)%st.

Section Ops.
Context {S : Sha256}.

Definition run_store_op (o : StoreOp) : M Store unit :=
  match o with
  | OpStoreIdentityKey k t => storeIdentityKey k t
  | OpSetRegistrationId id t => setLocalRegistrationId id t
  | OpSaveContact now a c t w => forget (saveContactIdentity now a c t w)
  | OpAcceptRotation now a c t w => forget (acceptContactIdentityRotationAndDeleteSessions now a c t w)
  | OpVerifyContact now a c t w => forget (verifyContactIdentity now a c t w)
  | OpStoreSigned k t => storeEcSignedPreKey k t
  | OpRemoveSigned id t => removeEcSignedPreKey id t
  | OpStoreOneTime ks t => storeEcOneTimePreKeys ks t
  | OpRemoveOneTime id t => removeEcOneTimePreKey id t
  | OpStoreKyber now k t i => storeKyberPreKey now k t i
  | OpMarkKyber k s b t => markKyberPreKeyUsed k s b t
  | OpStoreKem ks t => storeKemOneTimePreKeys ks t
  | OpRemoveKem id t => removeKemOneTimePreKey id t
  | OpDeleteAllPreKeys t => forget (deleteAllPreKeys t)
  | OpStoreSession a r => storeSessionRecord a r
  | OpGetSession a => forget (getSessionRecord a)
  | OpDeleteSession a => deleteSessionRecord a
  | OpArchive now a s => store_archiveCurrentSession now a s
  | OpCommit now c => commitSessionTrust now c
  | OpClearAllKeys => clearAllKeys
  | OpClearAllSessions => clearAllSessions
  | OpOtherParts r h => M_modify (set_sessions r h)
  end.

(** Operations in sequence; one that throws is followed by the next. *)
Definition run_ops (ops : list StoreOp) (s : Store) : Store := foldl (fun s o => (run_store_op o s).1) s ops.

Lemma run_ops_maintains (I : Store -> Prop) (P : StoreOp -> Prop) : (forall o, P o -> maintains I (run_store_op o)) ->
  forall ops s, Forall P ops -> I s -> I (run_ops ops s).
Proof.
  intros HP ops. induction ops as [|o ops IH]; intros s Ho Hs; [done|]. apply Forall_cons in Ho as [Ho Hops].
  cbn. apply IH; [done|]. by apply HP.
Qed.

Lemma maintains_forget {A} (I : Store -> Prop) (m : M Store A) : maintains I m -> maintains I (forget m).
Proof. intros Hm. unfold forget. apply maintains_bind; [done|]. intros _. apply maintains_ret. Qed.

(** ** The commit *)
Lemma commit_throws now c s e : (commitSessionTrust now c s).2 = Throw e -> (commitSessionTrust now c s).1 = s.
Proof. unfold commitSessionTrust. by destruct (check_commit now c s) as [[? ?]|?]. Qed.

(** What the checks have established. *)
Lemma check_commit_inv now c s new used : check_commit now c s = Ok (new, used) ->
  assertCurrentSessionRecord (tc_record c) = Ok tt /\
  (exists st, evaluateContactIdentityCandidate (contact_at (tc_address c) (tc_contactIdentityType c) s) (tc_contactIdentity c) None = Ok st /\
     ((st = NEW /\ exists r, createUnverifiedContactIdentityRecord (tc_contactIdentity c) now = Ok r /\ new = Some r) \/ (st = MATCH /\ new = None))) /\
  (forall id, tc_oneTimePreKeyId c = Some id -> is_Some (Map_get (tc_localIdentityType c, id) (ecOneTimePreKeys s))) /\
  (forall id, tc_kemOneTimePreKeyId c = Some id -> is_Some (Map_get (tc_localIdentityType c, id) (kemOneTimePreKeys s))) /\
  match tc_kyberPreKeyUse c with
  | None => used = None
  | Some use => exists i, recordKyberPreKeyUse (kyber_state (tc_localIdentityType c) (use_kyberPreKeyId use) s) (tc_localIdentityType c) use = Ok i /\
      used = Some (use_kyberPreKeyId use, i)
  end.
Proof.
  unfold check_commit. rewrite bind_unit_Ok. intros [Ha H]. apply bind_Ok in H as (st & Hst & H).
  apply bind_unit_Ok in H as [Hg H]. apply throw_when_Ok in Hg. apply bind_Ok in H as (new' & Hn & H).
  apply bind_unit_Ok in H as [H1 H]. apply bind_unit_Ok in H as [H2 H]. apply bind_Ok in H as (used' & Hu & [= <- <-]).
  apply throw_when_Ok in H1, H2. split; [done|]. split; [|split; [|split]].
  - exists st. split; [done|]. destruct (decide (st = NEW)) as [->|Hne].
    + left. apply bind_Ok in Hn as (r & Hr & [= <-]). eauto.
    + right. injection Hn as <-. apply andb_false_iff in Hg. rewrite !negb_false_iff, !bool_decide_eq_true in Hg. by destruct Hg.
  - intros id E. rewrite E in H1. apply negb_false_iff, bool_decide_eq_true in H1. done.
  - intros id E. rewrite E in H2. apply negb_false_iff, bool_decide_eq_true in H2. done.
  - destruct (tc_kyberPreKeyUse c) as [use|]; [|by injection Hu as <-]. apply bind_Ok in Hu as (i & Hi & [= <-]). eauto.
Qed.

Lemma commit_inv now c s s' : commitSessionTrust now c s = (s', Ok tt) ->
  exists new used, check_commit now c s = Ok (new, used) /\ s' = apply_commit c new used s.
Proof. unfold commitSessionTrust. destruct (check_commit now c s) as [[new used]|e]; [|done]. intros [= <-]. eauto. Qed.

(** The parts of the store after a commit. *)
Lemma apply_commit_kyber c new used s :
  kyberPreKeys (apply_commit c new used s) =
  match used with Some (id, i) => Map_set (tc_localIdentityType c, id) i (kyberPreKeys s) | None => kyberPreKeys s end.
Proof. unfold apply_commit. by destruct new, (tc_oneTimePreKeyId c), (tc_kemOneTimePreKeyId c), used as [[? ?]|], (tc_senderKeyHandoffInvalidation c). Qed.

Lemma apply_commit_contacts c new used s :
  contactIdentities (apply_commit c new used s) =
  match new with Some r => Map_set (contactKey (tc_address c) (tc_contactIdentityType c)) r (contactIdentities s) | None => contactIdentities s end.
Proof. unfold apply_commit. by destruct new, (tc_oneTimePreKeyId c), (tc_kemOneTimePreKeyId c), used as [[? ?]|], (tc_senderKeyHandoffInvalidation c). Qed.

Lemma apply_commit_records c new used s :
  sessionRecords (apply_commit c new used s) = Map_set (tc_address c) (tc_record c) (sessionRecords s).
Proof. unfold apply_commit. by destruct new, (tc_oneTimePreKeyId c), (tc_kemOneTimePreKeyId c), used as [[? ?]|], (tc_senderKeyHandoffInvalidation c). Qed.

Lemma apply_commit_oneTime c new used s :
  ecOneTimePreKeys (apply_commit c new used s) =
  match tc_oneTimePreKeyId c with Some id => Map_delete (tc_localIdentityType c, id) (ecOneTimePreKeys s) | None => ecOneTimePreKeys s end.
Proof. unfold apply_commit. by destruct new, (tc_oneTimePreKeyId c), (tc_kemOneTimePreKeyId c), used as [[? ?]|], (tc_senderKeyHandoffInvalidation c). Qed.

(** ** Reusable Kyber prekeys *)
(** The use is refused from now on: its instance is gone, replaced by another
    one, or has recorded it. *)
Definition kyber_spent (t : IdentityType) (u : KyberPreKeyUse) (s : Store) : Prop :=
  forall i, Map_get (t, use_kyberPreKeyId u) (kyberPreKeys s) = Some i ->
    instanceId i = use_instanceId u -> kyberPreKeyUseKey t u ∈ uses i.

Lemma kyber_state_get t id s : (kyber_state t id s ≫= fun st => Map_get id (instances st)) = Map_get (t, id) (kyberPreKeys s).
Proof. unfold kyber_state. destruct (Map_get (t, id) (kyberPreKeys s)); [|done]. cbn. by rewrite decide_True. Qed.

Lemma assert_use_inv t u s i : assertKyberPreKeyUse (kyber_state t (use_kyberPreKeyId u) s) t u = Ok i ->
  Map_get (t, use_kyberPreKeyId u) (kyberPreKeys s) = Some i /\ instanceId i = use_instanceId u /\ kyberPreKeyUseKey t u ∉ uses i.
Proof.
  unfold assertKyberPreKeyUse. rewrite kyber_state_get. destruct (Map_get _ _) as [j|]; [|done].
  rewrite !throw_when_bind. case_bool_decide as E1; cbn [negb]; [|done]. case_bool_decide as E2; [done|]. by intros [= ->].
Qed.

Lemma spent_refused t u s : kyber_spent t u s -> is_ok (assertKyberPreKeyUse (kyber_state t (use_kyberPreKeyId u) s) t u) = false.
Proof.
  intros Hs. destruct (assertKyberPreKeyUse _ t u) as [i|e] eqn:E; [|done]. apply assert_use_inv in E as (G & Hi & Hn). destruct (Hn (Hs i G Hi)).
Qed.

Lemma put_spent t u t' id i s : kyber_spent t u s ->
  (forall j, Map_get (t', id) (kyberPreKeys s) = Some j -> instanceId i = instanceId j /\ uses j ⊆ uses i) ->
  is_Some (Map_get (t', id) (kyberPreKeys s)) ->
  kyber_spent t u (put_instance t' id i s).
Proof.
  intros Hs Hi [j Hj] k. unfold put_instance, set_kyber, set_prekeys. cbn [kyberPreKeys]. rewrite Map_get_set.
  case_decide as E; [|apply Hs]. intros [= <-] Hk. destruct (Hi j Hj) as [Ei Hsub]. apply Hsub, Hs; [by rewrite <- E|congruence].
Qed.

Lemma record_use_inv t u s i : recordKyberPreKeyUse (kyber_state t (use_kyberPreKeyId u) s) t u = Ok i ->
  exists j, Map_get (t, use_kyberPreKeyId u) (kyberPreKeys s) = Some j /\ i = add_use (kyberPreKeyUseKey t u) j.
Proof. unfold recordKyberPreKeyUse. intros (j & Hj & [= <-])%bind_Ok. apply assert_use_inv in Hj as [Hj _]. eauto. Qed.

Lemma record_use_spent t u t' u' i s : kyber_spent t u s ->
  recordKyberPreKeyUse (kyber_state t' (use_kyberPreKeyId u') s) t' u' = Ok i ->
  kyber_spent t u (put_instance t' (use_kyberPreKeyId u') i s).
Proof.
  intros Hs (j & Hj & ->)%record_use_inv. apply put_spent; [done| |by rewrite Hj].
  intros k. rewrite Hj. intros [= <-]. cbn. set_solver.
Qed.

(** The instance identifier of a stored key is new. *)
Definition fresh_instance (u : KyberPreKeyUse) (o : StoreOp) : Prop :=
  match o with OpStoreKyber _ _ _ i => i <> use_instanceId u | _ => True end.

Lemma spent_eq t u s s' : kyberPreKeys s' = kyberPreKeys s -> kyber_spent t u s -> kyber_spent t u s'.
Proof. unfold kyber_spent. by intros ->. Qed.

Lemma storeKyber_spent t u now k t' inst : inst <> use_instanceId u -> maintains (kyber_spent t u) (storeKyberPreKey now k t' inst).
Proof.
  intros Hf s Hs. unfold storeKyberPreKey.
  destruct (assertUnambiguousKyberPreKeyStore _ k); [|done]. destruct (Map_get (t', sp_keyId k) (kyberPreKeys s)) as [i|] eqn:E; [done|].
  intros i. cbn [fst set_kyber set_prekeys kyberPreKeys]. rewrite Map_get_set. case_decide as Ek; [by intros [= <-]|].
  destruct (Map_get t' (currentKyberPreKeyIds s)) as [id|]; [|apply Hs]. destruct (Map_get (t', id) (kyberPreKeys s)) as [j|] eqn:Ej; [|apply Hs].
  rewrite Map_get_set. case_decide as Ei; [|apply Hs]. intros [= <-]. cbn. apply Hs. by rewrite <- Ei.
Qed.

Lemma markKyber_spent t u k sg b t' : maintains (kyber_spent t u) (markKyberPreKeyUsed k sg b t').
Proof.
  intros s Hs. unfold markKyberPreKeyUsed, M_bind, M_gets, M_lift, recordKyberPreKeyUseById. rewrite kyber_state_get.
  destruct (Map_get (t', k) (kyberPreKeys s)) as [j|] eqn:Ej; [|done].
  set (use := {| use_kyberPreKeyId := k; use_instanceId := instanceId j; use_signedPreKeyId := sg; use_baseKeyBytes := b |}).
  destruct (recordKyberPreKeyUse (kyber_state t' k s) t' use) as [i|e] eqn:E; [|done]. by apply (record_use_spent t u t' use).
Qed.

Lemma deleteAll_spent t u t' : maintains (kyber_spent t u) (deleteAllPreKeys t').
Proof.
  intros s Hs i. unfold deleteAllPreKeys. cbn [fst set_prekeys kyberPreKeys]. intros G. apply Hs.
  unfold drop_type in G. clear Hs. induction (kyberPreKeys s) as [|[k v] m IH]; [done|]. rewrite filter_cons in G. cbn [fst] in G.
  case_decide as Ek; cbn [Map_get] in *; [|destruct (decide (k = (t, use_kyberPreKeyId u))) as [->|]; [|auto]].
  - case_decide; auto.
  - exfalso. cbn in Ek. apply Map_get_In, list_elem_of_filter in G as [Hne _]. cbn in Hne. tauto.
Qed.

Lemma commit_spent t u now c : maintains (kyber_spent t u) (commitSessionTrust now c).
Proof.
  intros s Hs. unfold commitSessionTrust. destruct (check_commit now c s) as [[new used]|e] eqn:E; [|done].
  apply check_commit_inv in E as (_ & _ & _ & _ & Hu). cbn [fst]. destruct (tc_kyberPreKeyUse c) as [use|].
  - destruct Hu as (i & Hi & ->). apply (record_use_spent t u) in Hi; [|done]. eapply spent_eq, Hi. apply apply_commit_kyber.
  - subst used. eapply spent_eq, Hs. apply apply_commit_kyber.
Qed.

Lemma run_store_op_spent t u o : fresh_instance u o -> maintains (kyber_spent t u) (run_store_op o).
Proof.
  intros Hf. destruct o; cbn [run_store_op]; try apply maintains_forget;
    try solve [apply maintains_modify; intros s Hs; exact Hs]; auto using storeKyber_spent, markKyber_spent, deleteAll_spent, commit_spent.
  - unfold saveContactIdentity. keeps; apply maintains_modify; auto.
  - unfold acceptContactIdentityRotationAndDeleteSessions. keeps; apply maintains_modify; auto.
  - unfold verifyContactIdentity. keeps; apply maintains_modify; auto.
  - unfold storeSessionRecord. keeps; apply maintains_modify; auto.
  - intros st Hs. unfold getSessionRecord. destruct (Map_get _ _) as [r|]; [|done]. by destruct (assertCurrentSessionRecord r).
  - intros st Hs. unfold store_archiveCurrentSession. destruct (Map_get _ _); [done|]. by destruct s.
  - apply maintains_modify. intros s _ i. done.
Qed.

(** A committed use is spent. *)
Lemma commit_spends now c s s' u : commitSessionTrust now c s = (s', Ok tt) -> tc_kyberPreKeyUse c = Some u ->
  kyber_spent (tc_localIdentityType c) u s'.
Proof.
  intros (new & used & Hc & ->)%commit_inv Hu. apply check_commit_inv in Hc as (_ & _ & _ & _ & Hk). rewrite Hu in Hk.
  destruct Hk as (i & Hi & ->). intros j. rewrite apply_commit_kyber, Map_get_set, decide_True by done. intros [= <-] _.
  apply record_use_inv in Hi as (k & _ & ->). cbn. set_solver.
Qed.

Lemma spent_commit_throws now c s u : tc_kyberPreKeyUse c = Some u -> kyber_spent (tc_localIdentityType c) u s ->
  exists e, commitSessionTrust now c s = (s, Throw e).
Proof.
  intros Hu Hs. unfold commitSessionTrust. destruct (check_commit now c s) as [[new used]|e] eqn:E; [|by exists e].
  apply check_commit_inv in E as (_ & _ & _ & _ & Hk). rewrite Hu in Hk. destruct Hk as (i & Hi & _).
  unfold recordKyberPreKeyUse in Hi. apply bind_Ok in Hi as (j & Hj & _). pose proof (spent_refused _ u s Hs) as Hr. by rewrite Hj in Hr.
Qed.

(** ** Pinned identities *)
Definition pinned (a : ProtocolAddress) (t : IdentityType) (c : CompositeIdentityV1) (s : Store) : Prop :=
  exists r, contact_at a t s = Some r /\ c_identity r = c.

Definition no_rotation (a : ProtocolAddress) (t : IdentityType) (o : StoreOp) : Prop :=
  match o with OpAcceptRotation _ a' _ t' _ => contactKey a' t' <> contactKey a t | OpClearAllKeys => False | _ => True end.

Lemma pinned_eq a t c s s' : contactIdentities s' = contactIdentities s -> pinned a t c s -> pinned a t c s'.
Proof. unfold pinned, contact_at. by intros ->. Qed.

(** An entry is added where there is none, or keeps the tuple. *)
Lemma pinned_set a t c k r s : pinned a t c s ->
  (forall r0, Map_get k (contactIdentities s) = Some r0 -> c_identity r = c_identity r0) ->
  (k = contactKey a t -> is_Some (Map_get k (contactIdentities s))) ->
  pinned a t c (set_contacts (Map_set k r (contactIdentities s)) s).
Proof.
  intros (r0 & G & E) Hr Hk. unfold pinned, contact_at, set_contacts in *. cbn [contactIdentities]. rewrite Map_get_set.
  case_decide as Ek; [|by exists r0]. destruct (Hk Ek) as [r1 G1]. exists r. split; [done|]. subst k. rewrite (Hr r0 G). done.
Qed.

Lemma evaluate_new r c w : evaluateContactIdentityCandidate (Some r) c w <> Ok NEW.
Proof.
  unfold evaluateContactIdentityCandidate. intros (_ & _ & (_ & _ & (_ & _ & (b & _ & H)%bind_Ok)%bind_Ok)%bind_Ok)%bind_Ok.
  destruct b; [done|]. apply bind_Ok in H as (b & _ & H). by destruct b.
Qed.

Lemma evaluate_new_none r c w : evaluateContactIdentityCandidate r c w = Ok NEW -> r = None.
Proof. destruct r as [r|]; [|done]. intros H. by apply evaluate_new in H. Qed.

Lemma verify_keeps r c now w r' : verifyContactIdentityRecord r c now w = Ok r' -> c_identity r' = c_identity r.
Proof.
  unfold verifyContactIdentityRecord. intros [_ H]%bind_unit_Ok. apply bind_Ok in H as (st & _ & H). destruct st; try done. by injection H as <-.
Qed.

Lemma commit_pinned a t c now cm : maintains (pinned a t c) (commitSessionTrust now cm).
Proof.
  intros s Hs. unfold commitSessionTrust. destruct (check_commit now cm s) as [[new used]|e] eqn:E; [|done].
  apply check_commit_inv in E as (_ & (st & Hst & Hn) & _). cbn [fst].
  eapply (pinned_eq _ _ _ (match new with Some r => set_contacts (Map_set (contactKey (tc_address cm) (tc_contactIdentityType cm)) r (contactIdentities s)) s | None => s end)).
  { rewrite apply_commit_contacts. by destruct new. }
  destruct Hn as [(-> & r & _ & ->)|(-> & ->)]; [|done]. apply evaluate_new_none in Hst. unfold contact_at in Hst.
  apply pinned_set; [done| |].
  - intros r0 G. congruence.
  - intros E. destruct Hs as (r0 & G & _). unfold contact_at in G. rewrite E. by exists r0.
Qed.

Lemma run_store_op_pinned a t c o : no_rotation a t o -> maintains (pinned a t c) (run_store_op o).
Proof.
  intros Hf. destruct o; cbn [run_store_op no_rotation] in *; try apply maintains_forget;
    try solve [done|apply maintains_modify; intros s Hs; exact Hs]; auto using commit_pinned; intros st Hs.
  - unfold saveContactIdentity, M_bind, M_gets, M_lift. destruct (evaluateContactIdentityCandidate _ _ _) as [[]|] eqn:E; try done.
    destruct (createUnverifiedContactIdentityRecord _ _); [|done]. apply evaluate_new_none in E. unfold contact_at in E.
    apply pinned_set; [done|congruence|]. intros Ek. destruct Hs as (r0 & G & _). unfold contact_at in G. rewrite Ek. by exists r0.
  - unfold acceptContactIdentityRotationAndDeleteSessions, M_bind, M_gets, M_lift, M_modify. destruct (contact_at a0 t0 st) as [r|]; [|done].
    destruct (acceptContactIdentityRotation _ _ _ _) as [r'|]; [|done]. cbn [fst M_ret]. destruct Hs as (r0 & G & E).
    exists r0. split; [|done]. unfold contact_at, set_contacts, set_sessions. cbn [contactIdentities]. rewrite Map_get_set. by rewrite decide_False.
  - unfold verifyContactIdentity, M_bind, M_gets, M_lift. destruct (contact_at a0 t0 st) as [r|] eqn:G0; [|done].
    destruct (verifyContactIdentityRecord _ _ _ _) as [r'|] eqn:Ev; [|done]. unfold contact_at in G0.
    apply pinned_set; [done| |by eauto]. intros r0 G. rewrite (verify_keeps _ _ _ _ _ Ev). congruence.
  - unfold storeKyberPreKey. destruct (assertUnambiguousKyberPreKeyStore _ _); [|done]. by destruct (Map_get _ (kyberPreKeys st)).
  - unfold markKyberPreKeyUsed, M_bind, M_gets, M_lift. by destruct (recordKyberPreKeyUseById _ _ _ _ _).
  - unfold storeSessionRecord, M_bind, M_lift. by destruct (assertCurrentSessionRecord r).
  - unfold getSessionRecord. destruct (Map_get _ _) as [r|]; [|done]. by destruct (assertCurrentSessionRecord r).
  - unfold store_archiveCurrentSession. destruct (Map_get _ _); [done|]. by destruct s.
Qed.

Lemma evaluate_match r c w : ci_wf (c_identity r) -> ci_wf c -> evaluateContactIdentityCandidate (Some r) c w = Ok MATCH -> c = c_identity r.
Proof.
  unfold evaluateContactIdentityCandidate. intros Hr Hc (_ & _ & (_ & _ & (_ & _ & (b & Hb & H)%bind_Ok)%bind_Ok)%bind_Ok)%bind_Ok.
  rewrite identities_equal in Hb by done. injection Hb as <-. case_bool_decide; [done|]. apply bind_Ok in H as (b & _ & H). by destruct b.
Qed.

Lemma pinned_trusted a t c a' c' d s : pinned a t c s -> ci_wf c -> userId a' = userId a -> ci_wf c' ->
  isTrustedIdentity a' c' d t s = Ok true -> c' = c.
Proof.
  intros (r & G & <-) Hw Hu Hw'. unfold isTrustedIdentity. assert (Hk : contact_at a' t s = Some r) by (unfold contact_at, contactKey in *; by rewrite Hu).
  rewrite Hk. intros (st & Hst & H)%bind_Ok. injection H as H. apply andb_true_iff in H. rewrite !negb_true_iff, !bool_decide_eq_false in H. destruct H as [H1 H2].
  destruct st; try done; [by apply evaluate_new in Hst|]. by eapply evaluate_match.
Qed.

Lemma pinned_commit a t c cm now s : pinned a t c s -> ci_wf c -> userId (tc_address cm) = userId a -> tc_contactIdentityType cm = t ->
  ci_wf (tc_contactIdentity cm) -> (commitSessionTrust now cm s).2 = Ok tt -> tc_contactIdentity cm = c.
Proof.
  intros (r & G & <-) Hw Hu Ht Hc H. destruct (commitSessionTrust now cm s) as [s' q] eqn:E. cbn in H. subst q.
  apply commit_inv in E as (new & used & Hk & _). apply check_commit_inv in Hk as (_ & (st & Hst & Hn) & _).
  assert (Hk : contact_at (tc_address cm) (tc_contactIdentityType cm) s = Some r) by (unfold contact_at, contactKey in *; by rewrite Hu, Ht).
  rewrite Hk in Hst. destruct Hn as [(-> & _)|(-> & _)]; [by apply evaluate_new in Hst|]. by eapply evaluate_match.
Qed.
End Ops.
