(* ===== verification/MessageCipher.v ===== *)
(** * Encryption of one message ([session/identity-binding.ts],
    [session/validation.ts], [session/decryption.ts], [expandMessageKey])

    The parts of the session cipher below the store.  The branch of
    [decryptWithKey] without a Protobuf MAC context, which no message path
    takes, is left out. *)
From S2P Require Import Prelude JsMap ProtoWire Utf8 SignalMessage SenderKeyMessage Crypto Identity BraidAuth SpqrWire SpqrState Spqr DoubleRatchet KeyFormats SessionRecord Pqxdh.

(** ** Message keys ([crypto/kdf/hkdf.ts]) *)
Record ExpandedKey := { encryptionKey : bytes; authKey : bytes; iv : bytes }.

Definition expandMessageKey `{HashFunctions} (messageKey : bytes) (optionalSalt : option bytes) : ExpandedKey :=
  let salt := default (replicate 32 0) optionalSalt in
  let expanded := hkdf messageKey salt (bytes_of_string "WhisperMessageKeys") 80 in
  {| encryptionKey := take 32 expanded; authKey := take 32 (drop 32 expanded); iv := take 16 (drop 64 expanded) |}.

(** ** The message MAC ([identity-binding.ts]) *)
Definition MESSAGE_MAC_V1_DOMAIN : bytes := bytes_of_string "signal-protocol-js composite identity message mac v1".

Section Mac.
Context {H : HashFunctions} {S : Sha256}.

Definition computeCompositeIdentityMessageMac (macKey : bytes) (senderIdentity receiverIdentity : CompositeIdentityV1)
    (serializedMessage : bytes) : result bytes :=
  throw_when (negb (len macKey =? 32)) (Error "MAC key must be 32 bytes") ;;
  s ← deriveIdentityCommitment senderIdentity;
  r ← deriveIdentityCommitment receiverIdentity;
  Ok (take (Z.to_nat MAC_LENGTH) (hmac macKey (MESSAGE_MAC_V1_DOMAIN ++ s ++ r ++ serializedMessage))).

Definition verifyCompositeIdentityMessageMac (macKey : bytes) (senderIdentity receiverIdentity : CompositeIdentityV1)
    (serializedMessage receivedMac : bytes) : result bool :=
  mac ← computeCompositeIdentityMessageMac macKey senderIdentity receiverIdentity serializedMessage;
  Ok (constantTimeEqual mac receivedMac).
End Mac.

(** ** Checks of a session ([validation.ts]) *)
Definition SESSION_CORRUPTED : exn := EncryptionError "SESSION_CORRUPTED".

(** [None] and the empty string skip the check. *)
Definition validateSessionKeyOwnership (session : SessionState) (mySignedPreKeyPublic : option bytes) : result unit :=
  match truthy mySignedPreKeyPublic with
  | None => Ok tt
  | Some mine =>
      if isInitiator session
      then throw_when (bool_decide (publicKey <$> DHs (ratchet session) = Some mine)) SESSION_CORRUPTED
      else throw_when (bool_decide (DHr (ratchet session) = Some mine)) SESSION_CORRUPTED
  end.

Definition check_identity_binding (session : SessionState) : result unit :=
  encodeCompositeIdentityV1 (localIdentity session) ;;
  encodeCompositeIdentityV1 (remoteIdentity session) ;;
  identityFromPrivateState ← createCompositeIdentityV1 (identityKeyPair session);
  equal ← compositeIdentitiesEqual identityFromPrivateState (localIdentity session);
  throw_when (negb equal) (Error "cached local identity does not match the session identity keypair").

Definition validateSessionStateIntegrity (session : SessionState) : result unit :=
  rethrow SESSION_CORRUPTED (check_identity_binding session) ;;
  throw_when (bool_decide (DHr (ratchet session) = Some [])) SESSION_CORRUPTED.

Definition isSelfSession (session : SessionState) : result bool :=
  compositeIdentitiesEqual (localIdentity session) (remoteIdentity session).

Definition getMaxSkipForSession (session : SessionState) (defaultMaxSkip : Z) : result Z :=
  self ← isSelfSession session; Ok (if self : bool then 100000 else defaultMaxSkip).

(** ** Parts of a session as states *)
(** An operation on the ratchet fields, or on the SPQR state, of a session. *)
Definition on_ratchet {A} (m : M RatchetState A) : M SessionState A := fun s =>
  let '(r, a) := m (ratchet s) in (with_ratchet_state r s, a).

Definition on_spqr {A} (t : TripleRatchetState) (m : M SPQRState A) : M SessionState A := fun s =>
  let '(q, a) := m (spqrState t) in
  (with_tripleRatchet (Some {| spqrState := q; enabled := enabled t; enabledAt := enabledAt t |}) s, a).

(** [session.tripleRatchet?.enabled && session.tripleRatchet.spqrState] *)
Definition active_triple (s : SessionState) : option TripleRatchetState :=
  t ← tripleRatchet s; if enabled t then Some t else None.

(** ** Decryption with a message key ([decryption.ts]) *)
Record ProtobufMacContext := { serializedForMac : bytes; ctx_mac : bytes; ctx_addresses : bytes }.

Definition INVALID_CIPHERTEXT : exn := EncryptionError "INVALID_CIPHERTEXT".
Definition DECRYPTION_FAILED : exn := EncryptionError "DECRYPTION_FAILED".

Definition createProtobufMacContext (framedMessage envelopeMac addresses : bytes) : result ProtobufMacContext :=
  throw_when ((len envelopeMac =? 0) || (len framedMessage <=? len envelopeMac)) INVALID_CIPHERTEXT ;;
  throw_when (len addresses =? 0) INVALID_CIPHERTEXT ;;
  Ok {| serializedForMac := take (length framedMessage - length envelopeMac) framedMessage; ctx_mac := envelopeMac; ctx_addresses := addresses |}.

(** The fields of [RatchetMessage], with those of [PreKeyMessage] when it is one. *)
Record Message := {
  msg_ratchetKey : bytes; msg_counter : Z; msg_previousCounter : Z; msg_ciphertext : bytes;
  msg_context : ProtobufMacContext; msg_pqRatchet : option bytes; msg_prekey : option PreKeyMessage }.

Section Decryption.
Context {C : RatchetCrypto} {S : Sha256} {A : AesCbc} {K : MLKEM768} {Q : Kyber768}.

Definition decryptWithKey (messageKey : bytes) (m : Message) (session : SessionState) (optionalPqSalt : option bytes) : result jsstring :=
  let k := expandMessageKey messageKey optionalPqSalt in
  macValid ← verifyCompositeIdentityMessageMac (authKey k) (remoteIdentity session) (localIdentity session)
               (serializedForMac (msg_context m)) (ctx_mac (msg_context m));
  throw_when (negb macValid) DECRYPTION_FAILED ;;
  let addressesValid :=
    match signalProtocolMessageAddressesEqual (ctx_addresses (msg_context m)) (remoteAddress session) (localAddress session) with
    | Ok b => b
    | Throw _ => false
    end in
  throw_when (negb addressesValid) DECRYPTION_FAILED ;;
  paddedPlaintext ← aesCbcDecrypt (encryptionKey k) (iv k) (msg_ciphertext m);
  plaintextBytes ← unpadMessage paddedPlaintext;
  utf8DecodePortable false plaintextBytes.

(** The SPQR key of a skipped message, without an advance of the chain. *)
Definition skipped_pq_key (pq : bytes) (now : Z) (t : TripleRatchetState) : M SessionState (option bytes) := (
  do pqr <- M_lift (decodeSPQRWire pq);
  do spqrEpoch <- M_lift (match w_epoch pqr with Some e => (i ← spqrWireEpochToInternalEpoch e; Ok (Some i)) | None => Ok None end);
  match spqrEpoch, w_chainIndex pqr with
  | Some e, Some i =>
      if i >=? 1 then
        on_spqr t (do k <- tryGetSkippedSPQRKey e i;
                   match k with Some k => M_ret (Some k) | None => deriveSPQRReceiveKey i e now end)
      else M_ret None
  | _, _ => M_ret None
  end)%st.

Definition trySkippedMessageKeys (now : Z) (m : Message) : M SessionState (option jsstring) := (
  do messageKeyBytes <- on_ratchet (tryGetSkippedKey (msg_ratchetKey m) (msg_counter m));
  match messageKeyBytes with
  | None => M_ret None
  | Some key =>
      do s <- M_get;
      do salt <- match active_triple s, truthy (msg_pqRatchet m) with
                 | Some t, Some pq => skipped_pq_key pq now t
                 | _, _ => M_ret None
                 end;
      do s <- M_get;
      do plaintext <- M_lift (decryptWithKey key m s salt);
      M_ret (Some plaintext)
  end)%st.
End Decryption.
