(* ===== verification/SessionCipher.v ===== *)
(** * The session cipher ([session/cipher.ts])

    [encrypt] and [decrypt] run on the store under the lock of the session, so
    each is one step of the model.  A session is a value: the source works on a
    deep copy and commits it.  [establishSession] is the callback of the
    constructor.  Random bytes and the clock are arguments; the receive-work
    record, the diagnostics and the work of a replay rejection are left out. *)
From S2P Require Import Prelude JsMap ProtoWire Utf8 Base64 SignalMessage SenderKeyMessage Crypto Identity BraidAuth SpqrWire SpqrState Spqr DoubleRatchet KeyFormats SessionRecord Pqxdh SessionStore MessageCipher.

Definition identityTypeToWire (t : IdentityType) : Z := match t with aci => 1 | pni => 2 end.
Definition identityTypeFromWire (value : Z) : result IdentityType :=
  if value =? 1 then Ok aci else if value =? 2 then Ok pni else Throw (Error "Recipient identity type must be ACI=1 or PNI=2").

(** [error instanceof EncryptionError] *)
Definition is_EncryptionError (e : exn) : bool :=
  match e with
  | CodedError c _ => existsb (String.eqb c) ["EncryptionError"; "UntrustedIdentityError"; "DuplicatedMessageError"; "PQXDHRequiredError"]
  | Error _ => false
  end.

Definition error_code (e : exn) : option string := match e with CodedError _ c => Some c | Error _ => None end.

Definition SESSION_NOT_FOUND : exn := EncryptionError "SESSION_NOT_FOUND".
Definition UntrustedIdentityError : exn := CodedError "UntrustedIdentityError" "UNTRUSTED_IDENTITY".
Definition DuplicatedMessageError : exn := CodedError "DuplicatedMessageError" "MESSAGE_DUPLICATE".

(** [catch (error) { throw f(error) }] *)
Definition M_catch {S A} (f : exn -> exn) (m : M S A) : M S A := fun s =>
  match m s with (s', Throw e) => (s', Throw (f e)) | r => r end.

(** Run an operation on a copy of a session; the copy is lost when it throws. *)
Definition on_copy {A} (session : SessionState) (m : M SessionState A) : result (SessionState * A) :=
  match m session with (s, Ok a) => Ok (s, a) | (_, Throw e) => Throw e end.

(** [{ ...record, currentSession: session }], or a new record. *)
Definition with_current (record : option SessionRecord) (session : SessionState) : SessionRecord :=
  match record with Some r => set_currentSession (Some session) r | None => create_record session end.

Definition markSessionAcknowledged (session : SessionState) : SessionState :=
  let p := pendingPreKey session in
  with_hasReceived (Some true) (with_pendingPreKey {|
    unacknowledgedPreKeyMessage := Some false; usedSignedPreKeyId := usedSignedPreKeyId p;
    usedOneTimePreKeyId := usedOneTimePreKeyId p; usedKyberPreKeyId := usedKyberPreKeyId p;
    usedKemOneTimePreKeyId := usedKemOneTimePreKeyId p; kyberCiphertext := None; kemOneTimePreKeyCiphertext := None |} session).

Record MatchingPreKeySession := { mp_session : SessionState; mp_archivedBaseKey : option bytes }.

Definition findMatchingPreKeySession (record : option SessionRecord) (m : PreKeyMessage) : result (option MatchingPreKeySession) :=
  match record with
  | None => Ok None
  | Some record =>
      let baseKey := pm_senderEphemeralKey m in
      match findSession record baseKey with
      | None => Ok None
      | Some session =>
          equal ← compositeIdentitiesEqual (remoteIdentity session) (pm_senderIdentity m);
          if equal : bool then
            Ok (Some {| mp_session := session;
                        mp_archivedBaseKey := if decide (SessionRecord.baseKey <$> currentSession record = Some baseKey) then None else Some baseKey |})
          else Ok None
      end
  end.

Section Cipher.
Context {C : RatchetCrypto} {S : Sha256} {A : AesCbc} {K : MLKEM768} {Q : Kyber768}.

(** ** Encryption *)
(** The message key, the SPQR key that salts it and the SPQR bytes. *)
Definition derive_encryption_key (now : Z) (ready : bool) (randomBytes : nat -> bytes) : M SessionState (bytes * option bytes * option bytes) := (
  do s <- M_get;
  match active_triple s with
  | Some t =>
      do messageKey <- on_ratchet deriveSendingKey;
      do r <- on_spqr t (spqrSend ready randomBytes now);
      M_ret (messageKey, Spqr.messageKey r, truthy (Some (msgBytes r)))
  | None =>
      do messageKey <- on_ratchet deriveSendingKey;
      M_ret (messageKey, None, None)
  end)%st.

(** The identity type bound by the MAC of a PreKey message. *)
Definition bound_identity_type (s : SessionState) : result (option Z) :=
  if bool_decide (unacknowledgedPreKeyMessage (pendingPreKey s) = Some true) then
    match recipientIdentityType s with
    | Some t => Ok (Some (identityTypeToWire t))
    | None => Throw SESSION_CORRUPTED
    end
  else Ok None.

(** The framed [SignalProtocolMessage] of a plaintext. *)
Definition seal_message (remote : ProtocolAddress) (counter : Z) (s : SessionState) (messageKey : bytes) (salt pqRatchet : option bytes)
    (plaintext : jsstring) : result bytes :=
  let k := expandMessageKey messageKey salt in
  dhs ← (match DHs (ratchet s) with Some kp => Ok kp | None => Throw (CodedError "TypeError" "undefined") end);
  ciphertext ← aes_cbc_encrypt (encryptionKey k) (iv k) (padMessage (utf8Encode plaintext));
  ratchetKey ← ensureSerializedPublicKey (publicKey dhs);
  identityType ← bound_identity_type s;
  addresses ← serializeSignalProtocolMessageAddresses (localAddress s) remote;
  protobufBytes ← encodeSignalProtocolMessage {|
    SignalMessage.ratchetKey := ratchetKey; SignalMessage.counter := counter; SignalMessage.previousCounter := PN (ratchet s);
    SignalMessage.ciphertext := ciphertext; SignalMessage.pqRatchet := pqRatchet; SignalMessage.addresses := addresses;
    SignalMessage.recipientIdentityType := identityType |};
  let serializedForMac := makeVersionByte CIPHERTEXT_MESSAGE_CURRENT_VERSION :: protobufBytes in
  macBytes ← computeCompositeIdentityMessageMac (authKey k) (localIdentity s) (remoteIdentity s) serializedForMac;
  frameSignalProtocolMessage protobufBytes macBytes.

(** The framed [PreKeySignalProtocolMessage] around it. *)
Definition seal_prekey_message (s : SessionState) (identityType : Z) (framed : bytes) : result bytes :=
  let p := pendingPreKey s in
  dhs ← (match DHs (ratchet s) with Some kp => Ok kp | None => Throw (CodedError "TypeError" "undefined") end);
  baseKey ← ensureSerializedPublicKey (publicKey dhs);
  identityKey ← encodeCompositeIdentityV1 (localIdentity s);
  signedId ← (match usedSignedPreKeyId p with Some id => Ok id | None => Throw (Error "Varint value must be an integer") end);
  protobuf ← encodePreKeySignalProtocolMessage {|
    ecOneTimePreKeyId := usedOneTimePreKeyId p; SignalMessage.baseKey := baseKey; identityKey := identityKey; pk_message := framed;
    SignalMessage.registrationId := localRegistrationId s; ecSignedPreKeyId := signedId;
    kemLastResortPreKeyId := usedKyberPreKeyId p; kemLastResortCiphertext := truthy (kyberCiphertext p);
    kemOneTimePreKeyId := usedKemOneTimePreKeyId p; kemOneTimeCiphertext := truthy (kemOneTimePreKeyCiphertext p);
    pk_recipientIdentityType := identityType |};
  Ok (framePreKeySignalProtocolMessage protobuf).

(** The checks before a key is derived. *)
Definition check_sendable (now : Z) (remote : ProtocolAddress) (s : SessionState) (store : Store) : result unit :=
  validateSessionStateIntegrity s ;;
  assertValidatedSession (ratchet s) ;;
  trusted ← isTrustedIdentity remote (remoteIdentity s) SENDING (remoteIdentityType s) store;
  throw_when (negb trusted) UntrustedIdentityError ;;
  throw_when (bool_decide (hasReceivedMessage s = Some false) && (now - createdAt s >? MAX_UNACKNOWLEDGED_SESSION_AGE_MS)) SESSION_NOT_FOUND ;;
  validateSessionKeyOwnership s (sp_publicKey <$> getEcSignedPreKey None aci store).

Definition trust_commit (remote : ProtocolAddress) (record : SessionRecord) (s : SessionState) : SessionTrustCommit := {|
  tc_address := remote; tc_record := record; tc_contactIdentity := remoteIdentity s; tc_contactIdentityType := remoteIdentityType s;
  tc_localIdentityType := localIdentityType s; tc_oneTimePreKeyId := None; tc_kemOneTimePreKeyId := None;
  tc_kyberPreKeyUse := None; tc_senderKeyHandoffInvalidation := None |}.

(** The new state of the session and the framed message. *)
Definition encrypt_session (now : Z) (ready : bool) (randomBytes : nat -> bytes) (remote : ProtocolAddress) (plaintext : jsstring)
    (session : SessionState) : result (SessionState * bytes * bool) :=
  let session := with_ratchet_state (cleanupExpiredMessageKeys now DEFAULT_RATCHET_CONFIG (ratchet session)) session in
  let originalNs := Ns (ratchet session) in
  '(session, (messageKey, salt, pqRatchet)) ← on_copy session (derive_encryption_key now ready randomBytes);
  framed ← seal_message remote originalNs session messageKey salt pqRatchet plaintext;
  let session := with_lastUsed now session in
  Ok (session, framed, bool_decide (unacknowledgedPreKeyMessage (pendingPreKey session) = Some true)).

Definition encrypt_body (now : Z) (ready : bool) (randomBytes : nat -> bytes) (remote : ProtocolAddress) (plaintext : jsstring) : M Store bytes := (
  do record <- getSessionRecord remote;
  do_ (if bool_decide (default CURRENT_SESSION_RECORD_VERSION (version <$> record) = CURRENT_SESSION_RECORD_VERSION) then M_ret tt
       else (do_ deleteSessionRecord remote; M_throw SESSION_NOT_FOUND));
  match record ≫= currentSession with
  | None => M_throw SESSION_NOT_FOUND
  | Some session =>
      do store <- M_get;
      do_ M_lift (check_sendable now remote session store);
      do r <- M_lift (encrypt_session now ready randomBytes remote plaintext session);
      let '(session, framed, isPreKey) := r in
      do encoded <- (if isPreKey : bool then
                       match getIdentityKey aci store with
                       | None => M_throw (EncryptionError "INITIALIZATION_FAILED")
                       | Some _ =>
                           do identityType <- M_lift (bound_identity_type session);
                           M_lift (seal_prekey_message session (default 0 identityType) framed)
                       end
                     else M_ret framed);
      do_ commitSessionTrust now (trust_commit remote (with_current record session) session);
      M_ret encoded
  end)%st.

Definition encrypt (now : Z) (ready : bool) (randomBytes : nat -> bytes) (remote : ProtocolAddress) (plaintext : jsstring) : M Store bytes :=
  M_catch (fun e => if is_EncryptionError e then e else EncryptionError "ENCRYPTION_FAILED")
    (encrypt_body now ready randomBytes remote plaintext).

(** ** Decryption *)
(** *** Parsing *)
Definition strip_prefix (key : bytes) : result bytes := if len key =? 33 then deserializePublicKey key else Ok key.

Definition parse_inner (framed : bytes) : result (SignalProtocolMessageFields * ProtobufMacContext * bytes) :=
  e ← parseSignalProtocolMessageEnvelope framed;
  fields ← decodeSignalProtocolMessage (env_protobufBytes e);
  context ← createProtobufMacContext framed (env_mac e) (SignalMessage.addresses fields);
  ratchetKey ← strip_prefix (SignalMessage.ratchetKey fields);
  Ok (fields, context, ratchetKey).

Definition message_from (fields : SignalProtocolMessageFields) (context : ProtobufMacContext) (ratchetKey : bytes)
    (prekey : option PreKeyMessage) : Message := {|
  msg_ratchetKey := ratchetKey; msg_counter := SignalMessage.counter fields; msg_previousCounter := SignalMessage.previousCounter fields;
  msg_ciphertext := SignalMessage.ciphertext fields; msg_context := context; msg_pqRatchet := SignalMessage.pqRatchet fields;
  msg_prekey := prekey |}.

Definition parse_prekey (framedBytes : bytes) : result Message :=
  outer ← parsePreKeySignalProtocolMessageEnvelope framedBytes;
  preKeyFields ← decodePreKeySignalProtocolMessage outer.2;
  e ← parseSignalProtocolMessageEnvelope (pk_message preKeyFields);
  fields ← decodeSignalProtocolMessage (env_protobufBytes e);
  throw_when (negb (bool_decide (SignalMessage.recipientIdentityType fields = Some (pk_recipientIdentityType preKeyFields)))) INVALID_CIPHERTEXT ;;
  recipientIdentityType ← identityTypeFromWire (pk_recipientIdentityType preKeyFields);
  context ← createProtobufMacContext (pk_message preKeyFields) (env_mac e) (SignalMessage.addresses fields);
  ratchetKey ← strip_prefix (SignalMessage.ratchetKey fields);
  baseKey ← strip_prefix (SignalMessage.baseKey preKeyFields);
  senderIdentity ← decodeCompositeIdentityV1 (identityKey preKeyFields);
  Ok (message_from fields context ratchetKey (Some {|
    pm_senderIdentity := senderIdentity; pm_senderEphemeralKey := baseKey;
    pm_senderRegistrationId := SignalMessage.registrationId preKeyFields; pm_recipientIdentityType := recipientIdentityType;
    pm_usedSignedPreKeyId := Some (ecSignedPreKeyId preKeyFields); pm_usedOneTimePreKeyId := ecOneTimePreKeyId preKeyFields;
    pm_usedKyberPreKeyId := kemLastResortPreKeyId preKeyFields; pm_kyberCiphertext := truthy (kemLastResortCiphertext preKeyFields);
    pm_usedKemOneTimePreKeyId := kemOneTimePreKeyId preKeyFields;
    pm_kemOneTimePreKeyCiphertext := truthy (kemOneTimeCiphertext preKeyFields) |})).

Definition parse_ratchet (framedBytes : bytes) : result Message :=
  '(fields, context, ratchetKey) ← parse_inner framedBytes;
  Ok (message_from fields context ratchetKey None).

(** The second byte tells the type; a message without one is a ratchet message. *)
Definition parse_message (framedBytes : bytes) : result Message :=
  let firstProtoTag := nthZ 0 framedBytes 1 in
  match (if (firstProtoTag =? 0x08) || (firstProtoTag =? 0x12) then parse_prekey framedBytes else parse_ratchet framedBytes) with
  | Ok m => Ok m
  | Throw e => Throw (if is_EncryptionError e then e else INVALID_CIPHERTEXT)
  end.

(** *** One attempt *)
(** The steps from the skipped keys to the plaintext: [inl] with a skipped key,
    [inr] along the chain. *)
Definition receive_key (now maxSkip : Z) (newPrivate : bytes) (m : Message) : M SessionState (bytes * option bytes) := (
  do s <- M_get;
  let isLazyInit := match DHr (ratchet s) with None => true | Some _ => false end in
  let dhChanged := negb isLazyInit && needsDHRatchet (ratchet s) (msg_ratchetKey m) in
  if dhChanged && bool_decide (is_Some (processedChains (ratchet s) !! msg_ratchetKey m))
  then M_throw (EncryptionError "MESSAGE_DUPLICATE")
  else
    do limit <- M_lift (getMaxSkipForSession s maxSkip);
    do_ (if isLazyInit || dhChanged then
           do_ (if isLazyInit then M_ret tt else on_ratchet (skip_old_chain now limit (msg_previousCounter m)));
           on_ratchet (performDHRatchetStep newPrivate (msg_ratchetKey m))
         else M_ret tt);
    do_ on_ratchet (storeSkippedMessageKeys now (msg_counter m)
          {| maxSkippedMessages := limit; maxMessageKeysStored := maxMessageKeysStored DEFAULT_RATCHET_CONFIG;
             maxMessageKeyAge := maxMessageKeyAge DEFAULT_RATCHET_CONFIG |});
    do s <- M_get;
    do salt <- match active_triple s with
               | Some t => do r <- on_spqr t (spqrRecv (msg_pqRatchet m) now); M_ret (recv_messageKey r)
               | None => M_ret None
               end;
    do messageKey <- on_ratchet deriveReceivingKey;
    M_ret (messageKey, salt))%st.

Definition receive_message (now maxSkip : Z) (newPrivate : bytes) (m : Message) : M SessionState (jsstring + jsstring) := (
  do skipped <- trySkippedMessageKeys now m;
  match skipped with
  | Some plaintext => M_ret (inl plaintext)
  | None =>
      do k <- receive_key now maxSkip newPrivate m;
      do s <- M_get;
      do plaintext <- M_lift (decryptWithKey k.1 m s k.2);
      do_ M_modify (with_lastUsed now);
      M_ret (inr plaintext)
  end)%st.

(** The record with the session that has decrypted a message. *)
Definition converge (now : Z) (existingRecord : option SessionRecord) (usedArchivedCandidate : option bytes) (session : SessionState) : SessionRecord :=
  match usedArchivedCandidate, existingRecord with
  | Some baseKey, Some record =>
      match promoteSession now record baseKey with
      | Some promoted => set_currentSession (Some session) promoted
      | None => set_currentSession (Some session) record
      end
  | _, _ => with_current existingRecord session
  end.

(** The commit of a received message: that of a PreKey message consumes the
    prekeys that the session has kept for it. *)
Definition receive_commit (remote : ProtocolAddress) (isPreKey : bool) (record : SessionRecord) (session : SessionState) : SessionTrustCommit :=
  let pendingDeletion := pendingPreKeyDeletion session in
  if isPreKey then {|
    tc_address := remote; tc_record := record; tc_contactIdentity := remoteIdentity session;
    tc_contactIdentityType := remoteIdentityType session;
    tc_localIdentityType := default (localIdentityType session) (del_identityType <$> pendingDeletion);
    tc_oneTimePreKeyId := pendingDeletion ≫= del_oneTimePreKeyId;
    tc_kemOneTimePreKeyId := pendingDeletion ≫= del_kemOneTimePreKeyId;
    tc_kyberPreKeyUse := pendingDeletion ≫= del_kyberPreKeyUse;
    tc_senderKeyHandoffInvalidation := Some remote |}
  else trust_commit remote record session.

Record Context := {
  x_now : Z; x_maxSkip : Z; x_remote : ProtocolAddress; x_message : Message;
  x_private : nat -> bytes }.   (* the random private key of a DH step, per attempt *)

Definition isPreKeyMessage (x : Context) : bool := bool_decide (is_Some (msg_prekey (x_message x))).

Definition require_trust (remote : ProtocolAddress) (session : SessionState) : M Store unit := (
  do store <- M_get;
  do trusted <- M_lift (isTrustedIdentity remote (remoteIdentity session) RECEIVING (remoteIdentityType session) store);
  if trusted : bool then M_ret tt else M_throw UntrustedIdentityError)%st.

(** Decryption with an established session, and the commit. *)
Definition decrypt_with (x : Context) (attempt : nat) (existingRecord : option SessionRecord) (usedArchivedCandidate : option bytes)
    (session : SessionState) : M Store jsstring := (
  do_ M_lift (validateSessionStateIntegrity session);
  let session := with_ratchet_state (cleanupExpiredMessageKeys (x_now x) DEFAULT_RATCHET_CONFIG (ratchet session)) session in
  do store <- M_get;
  do_ M_lift (validateSessionKeyOwnership session (sp_publicKey <$> getEcSignedPreKey None aci store));
  do r <- M_lift (on_copy session (receive_message (x_now x) (x_maxSkip x) (x_private x attempt) (x_message x)));
  let '(session, text) := r in
  do_ require_trust (x_remote x) session;
  let session := markSessionAcknowledged session in
  let stored := if isPreKeyMessage x then with_pendingDeletion None session else session in
  let record := match text with
                | inl _ => with_current existingRecord stored
                | inr _ => converge (x_now x) existingRecord usedArchivedCandidate stored
                end in
  do_ commitSessionTrust (x_now x) (receive_commit (x_remote x) (isPreKeyMessage x) record session);
  M_ret (match text with inl p => p | inr p => p end))%st.

(** *** The attempts *)
Context (establishSession : Z -> ProtocolAddress -> PreKeyMessage -> M Store SessionState).

(** The variables of the retry loop. *)
Record Loop := {
  l_session : option SessionState; l_record : option SessionRecord; l_archived : option bytes;
  l_candidates : list DecryptionCandidate;      (* from [currentCandidateIndex] on *)
  l_retriedAfterArchive : bool }.

(** The session of an attempt: established by the callback when there is none. *)
Definition attempt_session (x : Context) (session : option SessionState) : M Store SessionState :=
  match session, msg_prekey (x_message x) with
  | Some session, _ => M_ret session
  | None, Some prekey => establishSession (x_now x) (x_remote x) prekey
  | None, None => M_throw SESSION_NOT_FOUND
  end.

(** On a retry the current session is archived in the copy of the record. *)
Definition stage_recovery (l : Loop) : Loop :=
  if l_retriedAfterArchive l then {|
    l_session := None; l_record := archiveCurrentState <$> l_record l; l_archived := l_archived l;
    l_candidates := l_candidates l; l_retriedAfterArchive := false |}
  else l.

Definition try_once (x : Context) (attempt : nat) (l : Loop) : M Store jsstring := (
  do session <- attempt_session x (l_session l);
  decrypt_with x attempt (l_record l) (l_archived l) session)%st.

(** The handler: [inl] continues with new variables, [inr] rethrows. *)
Definition recover (x : Context) (hadExistingSession preKeyMatchedExistingSession : bool) (e : exn) (l : Loop) : Loop + exn :=
  let isPreKey := isPreKeyMessage x in
  if isPreKey && bool_decide (e = ReusedBaseKeyError) then inr DECRYPTION_FAILED
  else if is_EncryptionError e && (bool_decide (error_code e = Some "MESSAGE_DUPLICATE") || bool_decide (error_code e = Some "PREKEY_NOT_FOUND"))
  then inr e
  else if isPreKey && hadExistingSession && negb preKeyMatchedExistingSession && negb (l_retriedAfterArchive l)
  then inl {| l_session := l_session l; l_record := l_record l; l_archived := l_archived l; l_candidates := l_candidates l;
              l_retriedAfterArchive := true |}
  else match isPreKey, l_candidates l with
       | false, next :: rest =>
           inl {| l_session := Some (cand_session next); l_record := l_record l;
                  l_archived := if cand_isActive next then None else truthy (cand_baseKey next);
                  l_candidates := rest; l_retriedAfterArchive := l_retriedAfterArchive l |}
       | _, _ => inr e
       end.

(** [n] attempts are left after number [attempt]. *)
Fixpoint attempts (x : Context) (hadExistingSession matched : bool) (n attempt : nat) (l : Loop) : M Store jsstring := fun store =>
  match n with
  | O => (store, Throw DECRYPTION_FAILED)
  | Datatypes.S n =>
      let l := stage_recovery l in
      match try_once x attempt l store with
      | (store, Ok text) => (store, Ok text)
      | (store, Throw e) =>
          match recover x hadExistingSession matched e l with
          | inl l => attempts x hadExistingSession matched n (Datatypes.S attempt) l store
          | inr e => (store, Throw e)
          end
      end
  end.

(** *** The whole operation *)
(** The code units that [String.prototype.trim] removes. *)
Definition is_blank (u : Z) : bool :=
  existsb (Z.eqb u) [9; 10; 11; 12; 13; 32; 0xa0; 0x1680; 0x2028; 0x2029; 0x202f; 0x205f; 0x3000; 0xfeff] || ((0x2000 <=? u) && (u <=? 0x200a)).

(** [ProtocolAddress.create] *)
Definition create_address (userId : jsstring) (deviceId : Z) : result ProtocolAddress :=
  throw_when (forallb is_blank userId) (Error "userId cannot be empty") ;;
  throw_when (deviceId <? 0) (Error "deviceId must be a non-negative integer") ;;
  Ok {| SignalMessage.userId := userId; SignalMessage.deviceId := deviceId |}.

(** The session that a PreKey message starts from: none after a change of
    identity, and the one of its base key if there is one. *)
Definition prekey_start (x : Context) (record : option SessionRecord) (session : option SessionState) (prekey : PreKeyMessage) :
    M Store (option SessionState * option bytes * bool) := (
  do_ M_lift (create_address (SignalMessage.userId (x_remote x)) (SignalMessage.deviceId (x_remote x)));
  do session <- M_lift (match session with
                        | Some s => equal ← compositeIdentitiesEqual (remoteIdentity s) (pm_senderIdentity prekey);
                                    Ok (if equal : bool then Some s else None)
                        | None => Ok None
                        end);
  do store <- M_get;
  do trusted <- M_lift (isTrustedIdentity (x_remote x) (pm_senderIdentity prekey) RECEIVING aci store);
  do_ (if trusted : bool then M_ret tt else M_throw UntrustedIdentityError);
  do matching <- M_lift (findMatchingPreKeySession record prekey);
  match matching with
  | Some mp => M_ret (Some (mp_session mp), truthy (mp_archivedBaseKey mp), true)
  | None => M_ret (session, None, false)
  end)%st.

(** A record of another version is deleted. *)
Definition load_record (remote : ProtocolAddress) : M Store (option SessionRecord) := (
  do record <- getSessionRecord remote;
  match record with
  | Some r => if version r =? CURRENT_SESSION_RECORD_VERSION then M_ret (Some r) else (do_ deleteSessionRecord remote; M_ret None)
  | None => M_ret None
  end)%st.

Definition decrypt_body (now maxSkip : Z) (privates : nat -> bytes) (remote : ProtocolAddress) (ciphertext : bytes) : M Store jsstring := (
  do message <- M_lift (parse_message ciphertext);
  let x := {| x_now := now; x_maxSkip := maxSkip; x_remote := remote; x_message := message; x_private := privates |} in
  do record <- load_record remote;
  let session := record ≫= currentSession in
  match msg_prekey message with
  | Some prekey =>
      do start <- prekey_start x record session prekey;
      let '(session, archived, matched) := start in
      attempts x (bool_decide (is_Some session)) matched 2 0
        {| l_session := session; l_record := record; l_archived := archived; l_candidates := []; l_retriedAfterArchive := false |}
  | None =>
      let candidates := findDecryptingSessions record in
      let first := match session, candidates with
                   | Some s, _ => (Some s, None, drop 1 candidates)
                   | None, c :: rest => (Some (cand_session c), if cand_isActive c then None else truthy (cand_baseKey c), rest)
                   | None, [] => (None, None, [])
                   end in
      attempts x (bool_decide (is_Some first.1.1)) false (Nat.max 1 (length candidates)) 0
        {| l_session := first.1.1; l_record := record; l_archived := first.1.2; l_candidates := first.2; l_retriedAfterArchive := false |}
  end)%st.

Definition decrypt_error (e : exn) : exn :=
  if is_EncryptionError e && bool_decide (error_code e = Some "MESSAGE_DUPLICATE") then DuplicatedMessageError
  else if is_EncryptionError e then e else DECRYPTION_FAILED.

Definition decrypt (now maxSkip : Z) (privates : nat -> bytes) (remote : ProtocolAddress) (ciphertext : bytes) : M Store jsstring :=
  M_catch decrypt_error (decrypt_body now maxSkip privates remote ciphertext).
End Cipher.
