(* ===== verification/SessionCipherProofs.v ===== *)
(** * Sealed messages open

    What [seal_message] writes, [parse_message] reads back, and
    [decryptWithKey] opens with the same message key in the mirrored session. *)
From S2P Require Import Prelude JsMap ProtoWire ProtoFields Utf8 SignalMessage SignalMessageProofs SenderKeyMessage Crypto Identity IdentityProofs BraidAuth SpqrWire SpqrState Spqr DoubleRatchet KeyFormats PqxdhProofs SessionRecord Pqxdh SessionBuilder SessionStore MessageCipher SessionCipher.

#[local] Arguments varint : simpl never.

(** ** Bytes *)
Lemma encode_point_bytes c : scalar c -> is_bytes (encode_point c).
Proof.
  intros Hc. unfold scalar in Hc. unfold encode_point, is_byte.
  repeat case_if; b2p; repeat constructor; Z.to_euclidean_division_equations; lia.
Qed.

Lemma utf8Encode_bytes s : utf16 s -> is_bytes (utf8Encode s).
Proof.
  intros Hs%code_points_scalar. unfold utf8Encode.
  induction Hs as [|c cps Hc _ IH]; [constructor|]. cbn [map concat]. apply Forall_app; split; [by apply encode_point_bytes|done].
Qed.

Lemma padMessage_bytes m : is_bytes m -> is_bytes (padMessage m).
Proof.
  intros Hm. unfold padMessage. rewrite !Forall_app. split; [done|]. split; [by repeat constructor|].
  apply Forall_replicate. unfold is_byte. lia.
Qed.

Lemma unpad_pad m : unpadMessage (padMessage m) = Ok m.
Proof. apply unpad_iff. eexists. reflexivity. Qed.

(** ** Keys on the wire *)
Lemma ensure_raw key : length key = 32%nat -> ensureSerializedPublicKey key = Ok (DJB_KEY_TYPE :: key).
Proof.
  intros H. unfold ensureSerializedPublicKey, serializePublicKey, X25519_RAW_KEY_BYTES.
  by replace (len key =? 32) with true by (unfold len; lia).
Qed.

Lemma strip_serialized key : length key = 32%nat -> strip_prefix (DJB_KEY_TYPE :: key) = Ok key.
Proof.
  intros H. assert (E : len (DJB_KEY_TYPE :: key) = 33) by (rewrite len_cons; unfold len; lia).
  unfold strip_prefix, deserializePublicKey, X25519_SERIALIZED_KEY_BYTES. by rewrite !E.
Qed.

Lemma identity_roundtrip c b : encodeCompositeIdentityV1 c = Ok b -> len b = 67 /\ decodeCompositeIdentityV1 b = Ok c.
Proof.
  intros (Hv & Hx & He & ->)%encode_identity_iff. split; [|by apply decode_encoding].
  unfold len. by rewrite encoding_length.
Qed.

(** ** The byte after the version *)
Lemma varint_small v : 0 <= v < 128 -> varint 9 v = [v].
Proof. intros H. change (varint 9 v) with (if v >? 127 then (v mod 128 + 128) :: varint 8 (v / 128) else [v]). by replace (v >? 127) with false by lia. Qed.

Lemma second_byte v f fs rest : 0 <= wtag f < 128 -> nthZ 0 (v :: encode_fields (f :: fs) ++ rest) 1 = wtag f.
Proof. intros H. unfold encode_fields. cbn [map concat]. unfold encode_field. by rewrite varint_small by done. Qed.

Section Sealed.
Context {C : RatchetCrypto} {L : RatchetCryptoLaws C} {S : Sha256} {A : AesCbc} {AL : AesCbcLaws A} {K : MLKEM768} {Q : Kyber768}.

(** ** Keys and MACs *)
Lemma expanded_lengths mk salt : let k := expandMessageKey mk salt in
  length (encryptionKey k) = 32%nat /\ length (authKey k) = 32%nat /\ length (iv k) = 16%nat.
Proof. cbn. by rewrite !length_take, !length_drop, hkdf_length. Qed.

Lemma mac_shape k a b m mac : computeCompositeIdentityMessageMac k a b m = Ok mac -> len mac = MAC_LENGTH /\ is_bytes mac.
Proof.
  unfold computeCompositeIdentityMessageMac. rewrite throw_when_bind. case_if; [done|]. intros H.
  apply bind_Ok in H as (x & _ & H). apply bind_Ok in H as (y & _ & H). apply Ok_inj in H as <-. split.
  - unfold len. by rewrite length_take, hmac_length.
  - apply Forall_take, hmac_bytes.
Qed.

Lemma mac_verifies k a b m mac : computeCompositeIdentityMessageMac k a b m = Ok mac ->
  verifyCompositeIdentityMessageMac k a b m mac = Ok true.
Proof.
  intros H. unfold verifyCompositeIdentityMessageMac. rewrite H. cbn [mbind result_bind].
  apply mac_shape in H as [_ H]. by rewrite constantTimeEqual_spec, bool_decide_true by done.
Qed.

(** ** What [seal_message] writes *)
Definition sealed_fields (s : SessionState) (kp : KeyPair) (counter : Z) (ct ad : bytes) (pq : option bytes) (rt : option Z) :
    SignalProtocolMessageFields := {|
  SignalMessage.ratchetKey := DJB_KEY_TYPE :: publicKey kp; SignalMessage.counter := counter; SignalMessage.previousCounter := PN (ratchet s);
  SignalMessage.ciphertext := ct; SignalMessage.pqRatchet := pq; SignalMessage.addresses := ad; SignalMessage.recipientIdentityType := rt |}.

Record sealed (remote : ProtocolAddress) (counter : Z) (s : SessionState) (kp : KeyPair) (mk : bytes) (salt pq : option bytes) (text : jsstring)
    (framed ct ad b mac : bytes) (rt : option Z) : Prop := {
  sealed_aes : aes_cbc_encrypt (encryptionKey (expandMessageKey mk salt)) (iv (expandMessageKey mk salt)) (padMessage (utf8Encode text)) = Ok ct;
  sealed_addresses : serializeSignalProtocolMessageAddresses (localAddress s) remote = Ok ad;
  sealed_type : bound_identity_type s = Ok rt;
  sealed_protobuf : encodeSignalProtocolMessage (sealed_fields s kp counter ct ad pq rt) = Ok b;
  sealed_mac : computeCompositeIdentityMessageMac (authKey (expandMessageKey mk salt)) (localIdentity s) (remoteIdentity s)
                 (makeVersionByte CIPHERTEXT_MESSAGE_CURRENT_VERSION :: b) = Ok mac;
  sealed_frame : framed = makeVersionByte CIPHERTEXT_MESSAGE_CURRENT_VERSION :: b ++ mac }.

Arguments sealed_aes {_} {_} {_} {_} {_} {_} {_} {_} {_} {_} {_} {_} {_} {_} _.
Arguments sealed_addresses {_} {_} {_} {_} {_} {_} {_} {_} {_} {_} {_} {_} {_} {_} _.
Arguments sealed_type {_} {_} {_} {_} {_} {_} {_} {_} {_} {_} {_} {_} {_} {_} _.
Arguments sealed_protobuf {_} {_} {_} {_} {_} {_} {_} {_} {_} {_} {_} {_} {_} {_} _.
Arguments sealed_mac {_} {_} {_} {_} {_} {_} {_} {_} {_} {_} {_} {_} {_} {_} _.
Arguments sealed_frame {_} {_} {_} {_} {_} {_} {_} {_} {_} {_} {_} {_} {_} {_} _.

Lemma seal_inv remote counter s kp mk salt pq text framed : DHs (ratchet s) = Some kp -> length (publicKey kp) = 32%nat ->
  seal_message remote counter s mk salt pq text = Ok framed ->
  exists ct ad b mac rt, sealed remote counter s kp mk salt pq text framed ct ad b mac rt.
Proof.
  intros Hd Hk. unfold seal_message. rewrite Hd. cbn [mbind result_bind]. intros H.
  apply bind_Ok in H as (ct & Hct & H). rewrite ensure_raw in H by done. cbn [mbind result_bind] in H.
  apply bind_Ok in H as (rt & Hrt & H). apply bind_Ok in H as (ad & Had & H).
  apply bind_Ok in H as (b & Hb & H). apply bind_Ok in H as (mac & Hmac & H).
  exists ct, ad, b, mac, rt. split; try done.
  destruct (signal_envelope b mac) as (w & Hw & -> & _); [by apply mac_shape in Hmac as [? _]|]. rewrite Hw in H. by injection H.
Qed.

(** ** What [parse_message] reads back *)
Definition opened (framed mac ad : bytes) (s : SessionState) (kp : KeyPair) (counter : Z) (ct : bytes) (pq : option bytes)
    (prekey : option PreKeyMessage) : Message := {|
  msg_ratchetKey := publicKey kp; msg_counter := counter; msg_previousCounter := PN (ratchet s); msg_ciphertext := ct;
  msg_context := {| serializedForMac := take (length framed - length mac) framed; ctx_mac := mac; ctx_addresses := ad |};
  msg_pqRatchet := pq; msg_prekey := prekey |}.

Section Fixed.
Context {remote : ProtocolAddress} {counter : Z} {s : SessionState} {kp : KeyPair} {mk : bytes} {salt pq : option bytes} {text : jsstring}
  {framed ct ad b mac : bytes} {rt : option Z}.
Context (H : sealed remote counter s kp mk salt pq text framed ct ad b mac rt).
Context (Hk : length (publicKey kp) = 32%nat) (Hpq : pq <> Some []) (Htext : utf16 text).
Context (Hlen : len framed <= MAX_SIGNAL_PROTOCOL_WIRE_MESSAGE_BYTES).

Lemma mac_len : len mac = MAC_LENGTH.
Proof. destruct (mac_shape _ _ _ _ _ (sealed_mac H)) as [? _]. done. Qed.

(** AES-CBC gives a non-empty ciphertext that decrypts to the padded text. *)
Lemma ciphertext_opens : aesCbcDecrypt (encryptionKey (expandMessageKey mk salt)) (iv (expandMessageKey mk salt)) ct = Ok (padMessage (utf8Encode text)) /\ ct <> [].
Proof.
  destruct (expanded_lengths mk salt) as (L1 & _ & L3).
  destruct (aes_cbc_correct _ _ (padMessage (utf8Encode text)) L1 L3) as (c & Hc & _ & Hl & Hd);
    [by apply padMessage_bytes, utf8Encode_bytes|].
  pose proof (sealed_aes H) as Ha. rewrite Hc in Ha. injection Ha as <-.
  unfold aesCbcDecrypt. rewrite Hd. split; [done|]. intros ->. pose proof (len_nonneg (padMessage (utf8Encode text))). rewrite len_nil in Hl. lia.
Qed.

Lemma inner_decodes : decodeSignalProtocolMessage b = Ok (sealed_fields s kp counter ct ad pq rt).
Proof.
  destruct (encodeSignal_fields _ _ (sealed_protobuf H)) as (Eb & Hwf & Ha & Hc & Hp & Ht).
  rewrite Eb, <- (app_nil_r (sig_fields _)). destruct ciphertext_opens as [_ Hct]. apply decode_sig_fields; try done.
  - cbn [SignalMessage.ratchetKey sealed_fields]. rewrite len_cons. unfold len. by rewrite Hk.
  - rewrite app_nil_r. rewrite (sealed_frame H) in Hlen. rewrite len_cons, len_app in Hlen.
    rewrite <- Eb. pose proof (len_nonneg mac). lia.
Qed.

Lemma envelope_parses : parseSignalProtocolMessageEnvelope framed = Ok {| env_version := 4; env_protobufBytes := b; env_mac := mac |}.
Proof.
  destruct (signal_envelope b mac mac_len) as (w & _ & -> & _ & Hw). by rewrite (sealed_frame H).
Qed.

Lemma context_made : createProtobufMacContext framed mac ad =
  Ok {| serializedForMac := take (length framed - length mac) framed; ctx_mac := mac; ctx_addresses := ad |}.
Proof.
  unfold createProtobufMacContext. rewrite mac_len. unfold MAC_LENGTH. rewrite !throw_when_bind.
  destruct (encodeSignal_fields _ _ (sealed_protobuf H)) as (_ & _ & Ha & _). cbn in Ha.
  replace (len ad =? 0) with false by (symmetry; apply Z.eqb_neq; unfold len; destruct ad; [done|cbn; lia]).
  rewrite (sealed_frame H). rewrite len_cons, len_app, mac_len. unfold MAC_LENGTH.
  pose proof (len_nonneg b). by replace ((8 =? 0) || _) with false by lia.
Qed.

Lemma framed_second_byte : nthZ 0 framed 1 = 10.
Proof.
  rewrite (sealed_frame H).
  destruct (encodeSignal_fields _ _ (sealed_protobuf H)) as (Eb & _).
  rewrite Eb. unfold sig_fields. cbn [app]. by rewrite second_byte.
Qed.

Lemma ratchet_message_parses : parse_message framed = Ok (opened framed mac ad s kp counter ct pq None).
Proof.
  unfold parse_message. rewrite framed_second_byte. cbn [Z.eqb Pos.eqb orb]. unfold parse_ratchet, parse_inner.
  rewrite envelope_parses. cbn [mbind result_bind env_protobufBytes env_mac]. rewrite inner_decodes. cbn [mbind result_bind SignalMessage.addresses sealed_fields].
  rewrite context_made. cbn [mbind result_bind SignalMessage.ratchetKey sealed_fields]. by rewrite strip_serialized.
Qed.

(** ** Opening *)
Lemma mac_context : take (length framed - length mac) framed = makeVersionByte CIPHERTEXT_MESSAGE_CURRENT_VERSION :: b.
Proof.
  rewrite (sealed_frame H). rewrite app_comm_cons, length_app.
  replace (_ + _ - _)%nat with (length (makeVersionByte CIPHERTEXT_MESSAGE_CURRENT_VERSION :: b)) by lia. by rewrite take_app_le, take_ge.
Qed.

Context (Hlocal : plain_name (userId (localAddress s))) (Hremote : plain_name (userId remote)).

Lemma opens prekey r : localIdentity r = remoteIdentity s -> remoteIdentity r = localIdentity s ->
  decryptWithKey mk (opened framed mac ad s kp counter ct pq prekey) r salt =
  if bool_decide (remoteAddress r = localAddress s /\ localAddress r = remote) then Ok (received_text text) else Throw DECRYPTION_FAILED.
Proof.
  intros El Er. unfold decryptWithKey, opened. cbn [msg_context serializedForMac ctx_mac ctx_addresses msg_ciphertext].
  rewrite El, Er, mac_context, (mac_verifies _ _ _ _ _ (sealed_mac H)). cbn [mbind result_bind negb throw_when].
  rewrite (binding_equal ad (localAddress s) remote).
  2:{ apply deserialize_binding; [apply (sealed_addresses H)|done|done]. }
  case_bool_decide; [|done]. cbn [negb throw_when mbind result_bind]. destruct ciphertext_opens as [-> _]. cbn [mbind result_bind].
  rewrite unpad_pad. cbn [mbind result_bind]. by apply utf8_decode_encode_any.
Qed.
End Fixed.

(** ** The PreKey message around it *)
Definition prekey_fields (s : SessionState) (kp : KeyPair) (t : Z) (framed ik : bytes) (signedId : Z) : PreKeySignalProtocolMessageFields :=
  let p := pendingPreKey s in {|
  ecOneTimePreKeyId := usedOneTimePreKeyId p; SignalMessage.baseKey := DJB_KEY_TYPE :: publicKey kp; identityKey := ik; pk_message := framed;
  SignalMessage.registrationId := localRegistrationId s; ecSignedPreKeyId := signedId;
  kemLastResortPreKeyId := usedKyberPreKeyId p; kemLastResortCiphertext := truthy (kyberCiphertext p);
  kemOneTimePreKeyId := usedKemOneTimePreKeyId p; kemOneTimeCiphertext := truthy (kemOneTimePreKeyCiphertext p);
  pk_recipientIdentityType := t |}.

Lemma truthy_nonempty x : truthy x <> Some [].
Proof. by destruct x as [[]|]. Qed.

Lemma prekey_second_byte v m : nthZ 0 (v :: encode_fields (pk_fields m)) 1 = 0x08 \/ nthZ 0 (v :: encode_fields (pk_fields m)) 1 = 0x12.
Proof.
  rewrite <- (app_nil_r (encode_fields _)). unfold pk_fields. destruct (ecOneTimePreKeyId m) as [i|]; cbn [opt_list app]; [left|right];
    by rewrite second_byte.
Qed.

Lemma bound_type_Some s t : bound_identity_type s = Ok (Some t) -> exists it, recipientIdentityType s = Some it /\ t = identityTypeToWire it.
Proof. unfold bound_identity_type. case_match; [|done]. destruct (recipientIdentityType s) as [it|]; [|done]. intros [= <-]. eauto. Qed.

Lemma seal_prekey_inv s kp t framed outer : DHs (ratchet s) = Some kp -> length (publicKey kp) = 32%nat ->
  seal_prekey_message s t framed = Ok outer -> exists ik id b, encodeCompositeIdentityV1 (localIdentity s) = Ok ik /\
  usedSignedPreKeyId (pendingPreKey s) = Some id /\ encodePreKeySignalProtocolMessage (prekey_fields s kp t framed ik id) = Ok b /\
  outer = framePreKeySignalProtocolMessage b.
Proof.
  intros Hd Hk. unfold seal_prekey_message. rewrite Hd. cbn [mbind result_bind]. rewrite ensure_raw by done. cbn [mbind result_bind]. intros H.
  apply bind_Ok in H as (ik & Hik & H). apply bind_Ok in H as (id & Hid & H). apply bind_Ok in H as (b & Hb & H). apply Ok_inj in H as <-.
  exists ik, id, b. split; [done|]. split; [|done]. destruct (usedSignedPreKeyId _); [by injection Hid as ->|done].
Qed.

(** An inner message that parses is read through the outer one. *)
Lemma prekey_message_parses s kp t framed outer e fields m : DHs (ratchet s) = Some kp -> length (publicKey kp) = 32%nat ->
  bound_identity_type s = Ok (Some t) -> seal_prekey_message s t framed = Ok outer -> len outer <= MAX_SIGNAL_PROTOCOL_WIRE_MESSAGE_BYTES ->
  baseKey s = publicKey kp -> kyberCiphertext (pendingPreKey s) <> Some [] -> kemOneTimePreKeyCiphertext (pendingPreKey s) <> Some [] ->
  parseSignalProtocolMessageEnvelope framed = Ok e -> decodeSignalProtocolMessage (env_protobufBytes e) = Ok fields ->
  SignalMessage.recipientIdentityType fields = Some t -> parse_message framed = Ok m -> msg_prekey m = None -> nthZ 0 framed 1 = 10 ->
  parse_message outer = Ok {| msg_ratchetKey := msg_ratchetKey m; msg_counter := msg_counter m; msg_previousCounter := msg_previousCounter m;
    msg_ciphertext := msg_ciphertext m; msg_context := msg_context m; msg_pqRatchet := msg_pqRatchet m; msg_prekey := Some (message_of s) |}.
Proof.
  intros Hd Hk Ht Ho Hlen Hbase Hn1 Hn2 He Hf Hft Hm Hnone Hten.
  destruct (seal_prekey_inv s kp t framed outer Hd Hk Ho) as (ik & id & b & Hik & Hid & Hb & ->).
  destruct (encodePreKey_fields _ _ Hb) as (Eb & Hwf & Hty & Hr). destruct (identity_roundtrip _ _ Hik) as [Lik Dik].
  destruct (bound_type_Some _ _ Ht) as (it & Hit & Et).
  assert (Hdec : decodePreKeySignalProtocolMessage b = Ok (prekey_fields s kp t framed ik id)).
  { rewrite Eb, <- (app_nil_r (pk_fields _)). apply decode_pk_fields; try done; try apply truthy_nonempty.
    - cbn [SignalMessage.baseKey prekey_fields]. rewrite len_cons. unfold len. by rewrite Hk.
    - cbn [pk_message prekey_fields]. by intros ->.
    - rewrite app_nil_r, <- Eb. unfold framePreKeySignalProtocolMessage in Hlen. rewrite len_cons in Hlen. lia. }
  unfold parse_message in Hm |- *. rewrite Hten in Hm. cbn [Z.eqb Pos.eqb orb] in Hm.
  assert (H2 : (nthZ 0 (framePreKeySignalProtocolMessage b) 1 =? 0x08) || (nthZ 0 (framePreKeySignalProtocolMessage b) 1 =? 0x12) = true).
  { unfold framePreKeySignalProtocolMessage. rewrite Eb. by destruct (prekey_second_byte (makeVersionByte CIPHERTEXT_MESSAGE_CURRENT_VERSION) (prekey_fields s kp t framed ik id)) as [-> | ->]. }
  rewrite H2. unfold parse_prekey. rewrite prekey_envelope. cbn [mbind result_bind snd]. rewrite Hdec. cbn [mbind result_bind pk_message prekey_fields].
  unfold parse_ratchet, parse_inner in Hm. rewrite He in Hm |- *. cbn [mbind result_bind] in Hm |- *. rewrite Hf in Hm |- *. cbn [mbind result_bind] in Hm |- *.
  rewrite throw_when_bind. cbn [pk_recipientIdentityType prekey_fields]. rewrite bool_decide_true by done. cbn [negb].
  assert (Hback : identityTypeFromWire t = Ok it) by (subst t; by destruct it). rewrite Hback. cbn [mbind result_bind].
  destruct (createProtobufMacContext framed (env_mac e) (addresses fields)) as [cx|]; [|done]. cbn [mbind result_bind] in Hm |- *.
  destruct (strip_prefix (ratchetKey fields)) as [rk|]; [|done]. cbn [mbind result_bind] in Hm |- *.
  cbn [SignalMessage.baseKey prekey_fields]. rewrite strip_serialized by done. cbn [mbind result_bind identityKey prekey_fields]. rewrite Dik. cbn [mbind result_bind].
  apply Ok_inj in Hm as <-. unfold message_from. cbn. do 3 f_equal. unfold message_of. rewrite Hbase, Hit, Hid.
  f_equal; [by destruct (kyberCiphertext _) as [[]|]|by destruct (kemOneTimePreKeyCiphertext _) as [[]|]].
Qed.
End Sealed.
