(* ===== verification/SessionEffects.v ===== *)
(** * What the session cipher does to the store

    A call of [encrypt] or [decrypt] changes the store by one commit, which
    comes last; a call that throws leaves it as it read it. *)
From S2P Require Import Prelude JsMap ProtoWire Utf8 SignalMessage SenderKeyMessage Crypto Identity IdentityProofs BraidAuth SpqrWire SpqrState Spqr DoubleRatchet KeyFormats SessionRecord Pqxdh SessionStore SessionStoreProofs MessageCipher SessionCipher.

(** ** Computations that end in a commit *)
Section Commits.
Context {S : Sha256} {A : Type} (now : Z) (P : SessionTrustCommit -> A -> Prop).

Definition commits (m : M Store A) (s : Store) : Prop :=
  match m s with
  | (s', Ok a) => exists c, commitSessionTrust now c s = (s', Ok tt) /\ P c a
  | (s', Throw _) => s' = s
  end.

Lemma commits_throw e s : commits (M_throw e) s.
Proof. done. Qed.

Lemma commits_bind {B} (f : B -> M Store A) (m : M Store B) s : (m s).1 = s ->
  (forall b, m s = (s, Ok b) -> commits (f b) s) -> commits (M_bind f m) s.
Proof. unfold commits, M_bind. destruct (m s) as [s1 [b|e]]; cbn [fst]; intros ->; [|done]. intros H. by apply H. Qed.

Lemma commits_lift {B} (f : B -> M Store A) (r : result B) s : (forall b, r = Ok b -> commits (f b) s) -> commits (M_bind f (M_lift r)) s.
Proof. intros H. apply commits_bind; [done|]. intros b [= ->]. by apply H. Qed.

Lemma commits_get (f : Store -> M Store A) s : commits (f s) s -> commits (M_bind f M_get) s.
Proof. done. Qed.

Lemma commits_end c a s : P c a -> commits (do_ commitSessionTrust now c; M_ret a)%st s.
Proof.
  intros HP. unfold commits, M_bind. pose proof (commit_throws now c s) as Ht.
  destruct (commitSessionTrust now c s) as [s1 [[]|e]] eqn:E; [|by apply (Ht e)]. cbn. by exists c.
Qed.
End Commits.

(** ** The parties of a session *)
(** Receiving a message changes neither the identities nor the addresses nor
    the base key. *)
Definition same_parties (s s' : SessionState) : Prop :=
  baseKey s' = baseKey s /\ localIdentity s' = localIdentity s /\ remoteIdentity s' = remoteIdentity s /\ localIdentityType s' = localIdentityType s /\
  remoteIdentityType s' = remoteIdentityType s /\ localAddress s' = localAddress s /\ remoteAddress s' = remoteAddress s.

Lemma same_parties_upd s0 r p d h u t s : same_parties s0 s -> same_parties s0 (upd r p d h u t s).
Proof. done. Qed.

Lemma same_parties_trans s1 s2 s3 : same_parties s1 s2 -> same_parties s2 s3 -> same_parties s1 s3.
Proof. unfold same_parties. intros (-> & -> & -> & -> & -> & -> & ->). tauto. Qed.

Lemma on_ratchet_parties {A} s0 (m : M RatchetState A) : maintains (same_parties s0) (on_ratchet m).
Proof. intros s Hs. unfold on_ratchet. by destruct (m (ratchet s)). Qed.

Lemma on_spqr_parties {A} s0 t (m : M SPQRState A) : maintains (same_parties s0) (on_spqr t m).
Proof. intros s Hs. unfold on_spqr. by destruct (m (spqrState t)). Qed.

#[export] Hint Resolve on_ratchet_parties on_spqr_parties : maintain.

Section Cipher.
Context {C : RatchetCrypto} {S : Sha256} {A : AesCbc} {K : MLKEM768} {Q : Kyber768}.

Lemma skipped_pq_parties s0 pq now t : maintains (same_parties s0) (skipped_pq_key pq now t).
Proof. unfold skipped_pq_key. keeps. Qed.
#[local] Hint Resolve skipped_pq_parties : maintain.

Lemma skipped_parties s0 now m : maintains (same_parties s0) (trySkippedMessageKeys now m).
Proof. unfold trySkippedMessageKeys. keeps. Qed.

Lemma receive_key_parties s0 now maxSkip p m : maintains (same_parties s0) (receive_key now maxSkip p m).
Proof. unfold receive_key. keeps. Qed.

(** A text is the result of [decryptWithKey] under a session of the same
    parties. *)
Definition opened_by (m : Message) (s0 : SessionState) (text : jsstring) : Prop :=
  exists key salt s, same_parties s0 s /\ decryptWithKey key m s salt = Ok text.

Lemma skipped_opened s0 now m s s' text : same_parties s0 s -> trySkippedMessageKeys now m s = (s', Ok (Some text)) -> opened_by m s0 text.
Proof.
  intros Hs H. unfold trySkippedMessageKeys in H. inv_bind H key s1 E1.
  assert (H1 : same_parties s0 s1) by (pose proof (on_ratchet_parties s0 (tryGetSkippedKey (msg_ratchetKey m) (msg_counter m)) s Hs) as X; by rewrite E1 in X).
  destruct key as [key|]; [|done]. inv_bind H s2 s2' E2. injection E2 as <- <-. inv_bind H salt s3 E3.
  assert (H3 : same_parties s0 s3).
  { revert E3. destruct (active_triple s1) as [t|]; [|by intros [= <- _]]. destruct (truthy (msg_pqRatchet m)) as [pq|]; [|by intros [= <- _]].
    intros E3. pose proof (skipped_pq_parties s0 pq now t s1 H1) as X. by rewrite E3 in X. }
  inv_bind H s4 s4' E4. injection E4 as <- <-. inv_bind H p s5 E5. apply M_lift_inv in E5 as [-> E5]. injection H as _ <-.
  exists key, salt, s3. done.
Qed.

Lemma receive_opened s0 now maxSkip p m s s' r : same_parties s0 s -> receive_message now maxSkip p m s = (s', Ok r) ->
  same_parties s0 s' /\ opened_by m s0 (match r with inl t => t | inr t => t end).
Proof.
  intros Hs H. unfold receive_message in H. inv_bind H skipped s1 E1.
  assert (H1 : same_parties s0 s1) by (pose proof (skipped_parties s0 now m s Hs) as X; by rewrite E1 in X).
  destruct skipped as [text|]; [injection H as <- <-; split; [done|exact (skipped_opened _ _ _ _ _ _ Hs E1)]|].
  inv_bind H k s2 E2.
  assert (H2 : same_parties s0 s2) by (pose proof (receive_key_parties s0 now maxSkip p m s1 H1) as X; by rewrite E2 in X).
  inv_bind H s3 s3' E3. injection E3 as <- <-. inv_bind H text s4 E4. apply M_lift_inv in E4 as [-> E4].
  inv_bind H u s5 E5. apply M_modify_inv in E5 as ->. injection H as <- <-. split; [done|]. by exists k.1, k.2, s2.
Qed.

(** ** One attempt *)
(** The commit of a text: the record has a current session of the parties
    whose key opened the message, and the contact identity is theirs. *)
Definition commit_of (remote : ProtocolAddress) (m : Message) (c : SessionTrustCommit) (text : jsstring) : Prop :=
  tc_address c = remote /\ exists s, currentSession (tc_record c) = Some s /\ opened_by m s text /\
  tc_contactIdentity c = remoteIdentity s /\ tc_contactIdentityType c = remoteIdentityType s.

Lemma with_current_Some r s : currentSession (with_current r s) = Some s.
Proof. by destruct r. Qed.

Lemma converge_current now r a s : currentSession (converge now r a s) = Some s.
Proof. unfold converge. destruct a, r; try done. by destruct (promoteSession _ _ _). Qed.

Lemma require_trust_reads remote session s : (require_trust remote session s).1 = s.
Proof. unfold require_trust, M_bind, M_get, M_lift. by destruct (isTrustedIdentity _ _ _ _ s) as [[]|]. Qed.

Lemma receive_commit_fields remote pre r s : let c := receive_commit remote pre r s in
  tc_address c = remote /\ tc_record c = r /\ tc_contactIdentity c = remoteIdentity s /\ tc_contactIdentityType c = remoteIdentityType s.
Proof. unfold receive_commit. by destruct pre. Qed.

Lemma decrypt_with_commits x attempt record archived session s :
  commits (x_now x) (commit_of (x_remote x) (x_message x)) (decrypt_with x attempt record archived session) s.
Proof.
  unfold decrypt_with. apply commits_lift. intros _ _. apply commits_get. apply commits_lift. intros _ _.
  apply commits_lift. intros [session' r] Hr. apply commits_bind; [apply require_trust_reads|]. intros _ _.
  apply commits_end. destruct (receive_commit_fields (x_remote x) (isPreKeyMessage x)
    (match r with inl _ => with_current record (if isPreKeyMessage x then with_pendingDeletion None (markSessionAcknowledged session') else markSessionAcknowledged session')
                | inr _ => converge (x_now x) record archived (if isPreKeyMessage x then with_pendingDeletion None (markSessionAcknowledged session') else markSessionAcknowledged session') end)
    (markSessionAcknowledged session')) as (E1 & E2 & E3 & E4).
  split; [exact E1|]. eexists. rewrite E2. split; [by destruct r; [apply with_current_Some|apply converge_current]|].
  unfold on_copy in Hr. destruct (receive_message _ _ _ _ _) as [s2 [r2|e]] eqn:Er; [|done]. injection Hr as -> ->.
  apply (receive_opened session) in Er as [Hp (key & salt & sk & Hsk & Ho)]; [|done].
  rewrite E3, E4. split; [|by destruct (isPreKeyMessage x)].
  exists key, salt, sk. split; [|done]. eapply same_parties_trans; [|exact Hsk]. clear -Hp.
  destruct Hp as (E0 & E1 & E2 & E3 & E4 & E5 & E6). destruct (isPreKeyMessage x); cbn; unfold same_parties; cbn; repeat split; congruence.
Qed.

(** ** The attempts *)
Context (establishSession : Z -> ProtocolAddress -> PreKeyMessage -> M Store SessionState).
Context (establish_reads : forall now remote m s, (establishSession now remote m s).1 = s).

Lemma attempts_commits x had matched n : forall attempt l s,
  commits (x_now x) (commit_of (x_remote x) (x_message x)) (attempts establishSession x had matched n attempt l) s.
Proof.
  induction n as [|n IH]; intros attempt l s; [done|]. unfold commits. cbn [attempts].
  assert (H : commits (x_now x) (commit_of (x_remote x) (x_message x)) (try_once establishSession x attempt (stage_recovery l)) s).
  { unfold try_once. apply commits_bind; [|intros; apply decrypt_with_commits].
    unfold attempt_session. destruct (l_session (stage_recovery l)); [done|]. destruct (msg_prekey _); [apply establish_reads|done]. }
  unfold commits in H. destruct (try_once _ x attempt (stage_recovery l) s) as [s1 [text|e]] eqn:E; [done|]. subst s1.
  destruct (recover _ _ _ _ _) as [l'|e']; [|done]. apply IH.
Qed.

(** The store after the record of the peer has been read. *)
Definition read_store (remote : ProtocolAddress) (s : Store) : Store := (getSessionRecord remote s).1.

Lemma read_record remote s r s' : getSessionRecord remote s = (s', r) -> s' = read_store remote s /\
  exists o, r = Ok o /\ forall rec, o = Some rec -> version rec = CURRENT_SESSION_RECORD_VERSION.
Proof.
  unfold read_store. intros E. rewrite E. split; [done|]. unfold getSessionRecord in E. destruct (Map_get remote (sessionRecords s)) as [rec|].
  - destruct (assertCurrentSessionRecord rec) as [[]|] eqn:Ea; injection E as <- <-; eexists; (split; [done|]); [|done].
    intros ? [= <-]. unfold assertCurrentSessionRecord in Ea. apply bind_unit_Ok in Ea as [Ev _]. apply throw_when_Ok in Ev.
    apply negb_false_iff in Ev. by apply Z.eqb_eq in Ev.
  - injection E as <- <-. eexists. by split.
Qed.

Lemma load_record_reads remote s : exists o, load_record remote s = (read_store remote s, Ok o).
Proof.
  unfold load_record, M_bind. destruct (getSessionRecord remote s) as [s1 r] eqn:E. apply read_record in E as (-> & o & -> & Hv).
  destruct o as [rec|]; [|by eexists]. rewrite (Hv rec) by done. rewrite Z.eqb_refl. by eexists.
Qed.

Lemma prekey_start_reads x record session prekey s : (prekey_start x record session prekey s).1 = s.
Proof.
  unfold prekey_start, M_bind, M_lift, M_get. destruct (create_address _ _); [|done].
  destruct (match session with Some _ => _ | None => _ end); [|done].
  destruct (isTrustedIdentity _ _ _ _ s) as [[]|]; [|done..]. cbn. destruct (findMatchingPreKeySession _ _) as [[]|]; done.
Qed.

(** [decrypt] on the store it has read. *)
Lemma decrypt_body_commits now maxSkip privates remote ciphertext s m : parse_message ciphertext = Ok m ->
  match decrypt_body establishSession now maxSkip privates remote ciphertext s with
  | (s', Ok text) => exists c, commitSessionTrust now c (read_store remote s) = (s', Ok tt) /\ commit_of remote m c text
  | (s', Throw _) => s' = read_store remote s
  end.
Proof.
  intros Hm. unfold decrypt_body. rewrite Hm, run_lift. destruct (load_record_reads remote s) as (record & Hl).
  rewrite (M_bind_Ok _ _ _ _ _ Hl).
  match goal with |- match ?f _ with _ => _ end => change (commits now (commit_of remote m) f (read_store remote s)) end.
  destruct (msg_prekey m) as [prekey|] eqn:Ep.
  - apply commits_bind; [apply prekey_start_reads|]. intros [[session archived] matched] _.
    match goal with |- commits _ _ (attempts _ ?x _ _ _ _ _) _ => apply (attempts_commits x) end.
  - match goal with |- commits _ _ (attempts _ ?x _ _ _ _ _) _ => apply (attempts_commits x) end.
Qed.

(** ** Encryption *)
(** The commit of an encryption: the current session of the stored record,
    after [encrypt_session]. *)
Definition sent_of (now : Z) (ready : bool) (randomBytes : nat -> bytes) (remote : ProtocolAddress) (plaintext : jsstring)
    (record : option SessionRecord) (c : SessionTrustCommit) (encoded : bytes) : Prop :=
  tc_address c = remote /\ exists session session' framed isPreKey, (record ≫= currentSession) = Some session /\
    encrypt_session now ready randomBytes remote plaintext session = Ok (session', framed, isPreKey) /\
    currentSession (tc_record c) = Some session' /\ (if isPreKey then exists t, seal_prekey_message session' t framed = Ok encoded else encoded = framed).

Lemma encrypt_body_commits now ready randomBytes remote plaintext s record : getSessionRecord remote s = (read_store remote s, Ok record) ->
  match encrypt_body now ready randomBytes remote plaintext s with
  | (s', Ok encoded) => exists c, commitSessionTrust now c (read_store remote s) = (s', Ok tt) /\
      sent_of now ready randomBytes remote plaintext record c encoded
  | (s', Throw _) => s' = read_store remote s
  end.
Proof.
  intros Hg. destruct (read_record _ _ _ _ Hg) as (_ & o & [= <-] & Hv). unfold encrypt_body. rewrite (M_bind_Ok _ _ _ _ _ Hg).
  match goal with |- match ?f _ with _ => _ end =>
    change (commits now (sent_of now ready randomBytes remote plaintext record) f (read_store remote s)) end.
  assert (Hver : default CURRENT_SESSION_RECORD_VERSION (version <$> record) = CURRENT_SESSION_RECORD_VERSION) by (destruct record; [by apply Hv|done]).
  rewrite bool_decide_true by done. apply commits_bind; [done|]. intros _ _.
  destruct (record ≫= currentSession) as [session|] eqn:Es; [|apply commits_throw].
  apply commits_get, commits_lift. intros _ _. apply commits_lift. intros [[session' framed] isPreKey] He.
  apply commits_bind.
  { destruct isPreKey; [|done]. destruct (getIdentityKey _ _); [|done]. unfold M_bind, M_lift. by destruct (bound_identity_type session'). }
  intros encoded Henc. apply commits_end. split; [done|]. exists session, session', framed, isPreKey. split; [done|]. split; [done|].
  split; [apply with_current_Some|]. destruct isPreKey; [|by injection Henc as <-].
  destruct (getIdentityKey _ _); [|done]. unfold M_bind, M_lift in Henc. destruct (bound_identity_type session') as [t|]; [|done].
  injection Henc as Henc. by exists (default 0 t).
Qed.

(** ** What a committed text shows *)
Lemma opened_authentic m key salt s text : decryptWithKey key m s salt = Ok text ->
  verifyCompositeIdentityMessageMac (authKey (expandMessageKey key salt)) (remoteIdentity s) (localIdentity s)
    (serializedForMac (msg_context m)) (ctx_mac (msg_context m)) = Ok true /\
  signalProtocolMessageAddressesEqual (ctx_addresses (msg_context m)) (remoteAddress s) (localAddress s) = Ok true.
Proof.
  unfold decryptWithKey. intros (b & Hb & [Hn H]%bind_unit_Ok)%bind_Ok. apply throw_when_Ok, negb_false_iff in Hn as ->. split; [done|].
  apply bind_unit_Ok in H as [Ha _]. apply throw_when_Ok, negb_false_iff in Ha. destruct (signalProtocolMessageAddressesEqual _ _ _) as [[]|]; done.
Qed.

Lemma identities_equal_refl c b : encodeCompositeIdentityV1 c = Ok b -> compositeIdentitiesEqual c c = Ok true.
Proof. intros H. unfold compositeIdentitiesEqual. rewrite H. cbn [mbind result_bind]. by rewrite constantTimeEqual_refl. Qed.

(** After a commit the contact is pinned to the identity committed. *)
Lemma committed_contact now c s s' : commitSessionTrust now c s = (s', Ok tt) -> exists r,
  contact_at (tc_address c) (tc_contactIdentityType c) s' = Some r /\ compositeIdentitiesEqual (c_identity r) (tc_contactIdentity c) = Ok true.
Proof.
  intros (new & used & Hc & ->)%commit_inv. apply check_commit_inv in Hc as (_ & (st & Hst & Hn) & _). unfold contact_at.
  rewrite apply_commit_contacts. destruct Hn as [(-> & r & Hr & ->)|(-> & ->)].
  - exists r. rewrite Map_get_set, decide_True by done. split; [done|]. unfold createUnverifiedContactIdentityRecord in Hr.
    apply bind_unit_Ok in Hr as [_ (clone & Hclone & [= <-])%bind_Ok]. unfold cloneIdentity in Hclone. apply bind_Ok in Hclone as (b & Hb & Hd).
    assert (E : clone = tc_contactIdentity c).
    { pose proof Hb as (Hv & Hx & He & ->)%encode_identity_iff. rewrite decode_encoding in Hd by done. by injection Hd. }
    cbn [c_identity]. rewrite E. by eapply identities_equal_refl.
  - unfold evaluateContactIdentityCandidate, contact_at in Hst. apply bind_Ok in Hst as (e & _ & Hst).
    destruct (Map_get _ (contactIdentities s)) as [r|]; [|done]. exists r. split; [done|].
    cbn [mbind result_bind] in Hst. apply bind_unit_Ok in Hst as [_ (b & Hb & H)%bind_Ok]. destruct b; [done|].
    apply bind_Ok in H as (b & _ & H). by destruct b.
Qed.

(** ** The record after a message of an archived session *)
Definition cleaned (now : Z) (session : SessionState) : SessionState :=
  with_ratchet_state (cleanupExpiredMessageKeys now DEFAULT_RATCHET_CONFIG (ratchet session)) session.

(** Whether the key of the message is a stored one. *)
Definition has_skipped_key (x : Context) (session : SessionState) : bool :=
  match (trySkippedMessageKeys (x_now x) (x_message x) (cleaned (x_now x) session)).2 with Ok (Some _) => true | _ => false end.

Lemma decrypt_with_record x attempt record archived session s s' text : decrypt_with x attempt record archived session s = (s', Ok text) ->
  exists stored, baseKey stored = baseKey session /\ Map_get (x_remote x) (sessionRecords s') =
    Some (if has_skipped_key x session then with_current record stored else converge (x_now x) record archived stored).
Proof.
  unfold decrypt_with. intros H. inv_bind H u s1 E1. apply M_lift_inv in E1 as [-> _]. inv_bind H st s2 E2. injection E2 as <- <-.
  inv_bind H u2 s2 E2. apply M_lift_inv in E2 as [-> _]. inv_bind H r s3 E3. apply M_lift_inv in E3 as [-> Hr].
  destruct r as [session' r]. inv_bind H u3 s3 E3. pose proof (require_trust_reads (x_remote x) session' s) as Ht. rewrite E3 in Ht. cbn in Ht. subst s3.
  inv_bind H u4 s4 E4. injection H as -> _. destruct u4. apply commit_inv in E4 as (new & used & _ & ->).
  rewrite apply_commit_records, (proj1 (receive_commit_fields _ _ _ _)), (proj1 (proj2 (receive_commit_fields _ _ _ _))), Map_get_set, decide_True by done.
  unfold on_copy in Hr. destruct (receive_message _ _ _ _ _) as [s5 [r5|e]] eqn:Er; [|done]. injection Hr as -> ->.
  exists (if isPreKeyMessage x then with_pendingDeletion None (markSessionAcknowledged session') else markSessionAcknowledged session'). split.
  - apply (receive_opened session) in Er as [(E0 & _) _]; [|done]. by destruct (isPreKeyMessage x).
  - assert (Hk : has_skipped_key x session = match r with inl _ => true | inr _ => false end).
    { unfold receive_message in Er. unfold has_skipped_key. inv_bind Er k s6 E6. unfold cleaned. rewrite E6. cbn [snd].
      destruct k as [t|]; [by injection Er as _ <-|]. inv_bind Er k s7 E7. inv_bind Er k2 s8 E8. inv_bind Er k3 s9 E9. inv_bind Er k4 s10 E10. by injection Er as _ <-. }
    rewrite Hk. by destruct r.
Qed.

Lemma archive_old_current r cur : currentSession r = Some cur -> Map_get (baseKey cur) (archive_old r) = Some (withoutPendingPreKey cur).
Proof. intros E. unfold archive_old, insertArchived. rewrite E, Map_get_set. by rewrite decide_True. Qed.

(** Promotion keeps the former current session in the archive. *)
Lemma converge_keeps_current now r key cur stored : currentSession r = Some cur -> is_Some (Map_get key (archivedSessions r)) ->
  baseKey stored = key -> baseKey cur <> key ->
  findSession (converge now (Some r) (Some key) stored) (baseKey cur) = Some (withoutPendingPreKey cur).
Proof.
  intros Hc [a Ha] Hs Hne. unfold converge, promoteSession, record_promoteSession. rewrite Ha. unfold findSession.
  cbn [currentSession set_currentSession archivedSessions set_metadata set_archived]. rewrite decide_False by congruence.
  rewrite Map_get_delete, decide_False by congruence. by apply archive_old_current.
Qed.
End Cipher.
