(* ===== verification/SessionManager.v ===== *)
(** * The session manager ([manager/manager.ts])

    A device is the manager with its store.  The configuration is an argument;
    random bytes and the clock are arguments of each operation.  The retained
    start-up, which only checks keys, and the upload of keys are left out. *)
From S2P Require Import Prelude JsMap Utf8 SignalMessage Crypto Identity BraidAuth SpqrWire SpqrState Spqr DoubleRatchet KeyFormats SessionRecord Pqxdh SessionBuilder SessionStore MessageCipher SessionCipher.

(** [ProtocolStrategyConfig], as far as sessions depend on it. *)
Record ProtocolStrategyConfig := {
  keyExchangeInfoString : option bytes; sckaMode : option SCKAMode;
  cfg_maxMessageJump : option Z; cfg_maxOutOfOrderKeys : option Z; cfg_maxSkip : option Z }.

Definition resolveSCKAMode (config : ProtocolStrategyConfig) : SCKAMode := default BraidMode (sckaMode config).
Definition DEFAULT_MAX_SKIP : Z := 25000.

Record Device := { d_store : Store; initialized : bool; localUserId : option jsstring; localDeviceId : option Z }.

Definition set_store (s : Store) (d : Device) : Device := {|
  d_store := s; initialized := initialized d; localUserId := localUserId d; localDeviceId := localDeviceId d |}.
Definition set_initialized (d : Device) : Device := {|
  d_store := d_store d; initialized := true; localUserId := localUserId d; localDeviceId := localDeviceId d |}.

Definition on_store {A} (m : M Store A) : M Device A := fun d => let '(s, a) := m (d_store d) in (set_store s d, a).

Definition INITIALIZATION_FAILED : exn := EncryptionError "INITIALIZATION_FAILED".
Definition PREKEY_NOT_FOUND : exn := EncryptionError "PREKEY_NOT_FOUND".
Definition KEY_STORAGE_ERROR : exn := EncryptionError "KEY_STORAGE_ERROR".
Definition TRIPLE_RATCHET_REQUIRED : exn := EncryptionError "TRIPLE_RATCHET_REQUIRED".

(** An [EncryptionError] is kept, another error is wrapped. *)
Definition keep_or (wrapped e : exn) : exn := if is_EncryptionError e then e else wrapped.

(** The random bytes of the two identity keys and of the registration ID. *)
Record IdentityRandom := { ir_dh : bytes; ir_signing : bytes; ir_registration : bytes }.

Section Manager.
Context {C : RatchetCrypto} {S : Sha256} {A : AesCbc} {E : Ed25519} {V : Curve25519} {K1024 : MlKem1024} {K : MLKEM768} {Q : Kyber768}.

(** [crypto/validation.ts] *)
Definition validateX25519KeyPair (publicKey privateKey : bytes) : result unit :=
  throw_when (negb (constantTimeEqual (x25519_public privateKey) publicKey)) KEY_STORAGE_ERROR.

(** ** Start-up *)
Definition initializeIdentity (t : IdentityType) (r : IdentityRandom) : M Store unit := (
  do s <- M_get;
  if hasIdentityKey t s then M_ret tt
  else storeIdentityKey (generateIdentityKeyPair (ir_dh r) (ir_signing r) (ir_registration r)) t)%st.

Fixpoint initialize_types (types : list IdentityType) (r : IdentityType -> IdentityRandom) : M Store unit :=
  match types with
  | [] => M_ret tt
  | t :: types => (do_ initializeIdentity t (r t); initialize_types types r)%st
  end.

Definition initialize (types : list IdentityType) (r : IdentityType -> IdentityRandom) : M Device unit :=
  M_catch (fun _ => INITIALIZATION_FAILED) (do_ on_store (initialize_types types r); M_modify set_initialized)%st.

Definition ensure_initialized (r : IdentityType -> IdentityRandom) : M Device unit := (
  do d <- M_get; if initialized d then M_ret tt else initialize [aci; pni] r)%st.

Definition setLocalIdentity (userId : jsstring) (deviceId : Z) : M Device unit :=
  M_modify (fun d => {| d_store := d_store d; initialized := initialized d; localUserId := Some userId; localDeviceId := Some deviceId |}).

(** ** Prekeys *)
Definition manager_generateEcSignedPreKey (now : Z) (t : IdentityType) (random32 random3 : bytes) : M Store SignedPreKey := (
  do s <- M_get;
  match getIdentityKey t s with
  | None => M_throw (Error "Identity key not found for signing prekey")
  | Some identityKey => M_lift (generateEcSignedPreKey now identityKey None random32 random3)
  end)%st.

(** The random bytes of a signed prekey and its ID, and of a Kyber prekey and
    its instance. *)
Record PreKeyRandom := { kr_signed : bytes; kr_signedId : bytes; kr_kyber : bytes; kr_instance : bytes }.

Definition prekey_bundle_body (now : Z) (t : IdentityType) (r : PreKeyRandom) : M Store unit := (
  do s <- M_get;
  match getIdentityKey t s with
  | None => M_throw (Error "Identity key not found")
  | Some identityKey =>
      do signedPreKey <- manager_generateEcSignedPreKey now t (kr_signed r) (kr_signedId r);
      do_ storeEcSignedPreKey signedPreKey t;
      do s <- M_get;
      match getKyberPreKey t s with
      | Some _ => M_ret tt
      | None =>
          do kyberPreKey <- M_lift (generateKyberLastResortPreKey now identityKey 1 (kr_kyber r));
          storeKyberPreKey now kyberPreKey t (kr_instance r)
      end
  end)%st.

Definition generatePreKeyBundle (now : Z) (userId : jsstring) (deviceId : Z) (t : IdentityType) (ir : IdentityType -> IdentityRandom)
    (r : PreKeyRandom) : M Device unit :=
  M_catch (fun _ => INITIALIZATION_FAILED)
    (do_ ensure_initialized ir; do_ setLocalIdentity userId deviceId; on_store (prekey_bundle_body now t r))%st.

Definition rotateEcSignedPreKey (now : Z) (t : IdentityType) (random32 random3 : bytes) : M Store unit :=
  M_catch (fun _ => KEY_STORAGE_ERROR)
    (do s <- M_get;
     match getIdentityKey t s with
     | None => M_throw (Error "Identity key not found")
     | Some _ =>
         do newSignedPreKey <- manager_generateEcSignedPreKey now t random32 random3;
         storeEcSignedPreKey newSignedPreKey t
     end)%st.

Definition rotateKyberPreKey (now : Z) (t : IdentityType) (random64 instance : bytes) : M Store unit :=
  M_catch (fun _ => KEY_STORAGE_ERROR)
    (do s <- M_get;
     match getIdentityKey t s with
     | None => M_throw (Error "Identity key not found")
     | Some identityKey =>
         let nextKeyId := default 0 (sp_keyId <$> getKyberPreKey t s) + 1 in
         do newKyberPreKey <- M_lift (generateKyberLastResortPreKey now identityKey nextKeyId random64);
         storeKyberPreKey now newKyberPreKey t instance
     end)%st.

Definition getIdentityPublicKey (s : Store) : result bytes :=
  match getIdentityKey aci s with Some k => Ok (publicKey (signingKey k)) | None => Throw KEY_STORAGE_ERROR end.

(** ** Sessions *)
Context (cfg : ProtocolStrategyConfig).

(** Steps 3 and 8: the post-quantum ratchet of a new session, which sends a key
    first. *)
Definition start_triple_ratchet (now : Z) (d : Direction) (rootKey seed64 : bytes) (session : SessionState) : result SessionState :=
  let ourKyberPrivateKey := (k768_keygen seed64).2 in
  spqr ← rethrow TRIPLE_RATCHET_REQUIRED
           (initializeSPQR (resolveSCKAMode cfg) rootKey d (Some ourKyberPrivateKey) None V1 V1 (resolveSPQRInfoStrings None None None None)
              (resolveSPQRLimits (cfg_maxMessageJump cfg) (cfg_maxOutOfOrderKeys cfg)) now);
  Ok (with_tripleRatchet (Some {| spqrState := with_ratchet true spqr; enabled := true; enabledAt := now |}) session).

(** [SessionRecord.archiveCurrent] of the stored record, or a new record. *)
Definition started_record (existing : option SessionRecord) (session : SessionState) : SessionRecord :=
  match existing with
  | Some r => archiveCurrent (Some session) MAX_ARCHIVED_SESSIONS r
  | None => create_record session
  end.

Record StartRandom := { sr_ephemeral : bytes; sr_kem : bytes; sr_kyber768 : bytes }.

Definition build_started_session (now : Z) (localUser : jsstring) (localDevice : Z) (remote : ProtocolAddress) (bundle : PreKeyBundle)
    (t : IdentityType) (r : StartRandom) (store : Store) : result SessionState :=
  let spk := ecSignedPreKey bundle in
  isValid ← verifyPreKeySignature (b_identity bundle) PREKEY_ALGORITHM_X25519 (spp_keyId spk) (spp_publicKey spk) (spp_signature spk);
  throw_when (negb isValid) SIGNATURE_FAILED ;;
  isTrusted ← isTrustedIdentity remote (b_identity bundle) SENDING t store;
  throw_when (negb isTrusted) UntrustedIdentityError ;;
  myIdentityKey ← (match getIdentityKey aci store with Some k => Ok k | None => Throw INITIALIZATION_FAILED end);
  localAddress ← create_address localUser localDevice;
  built ← buildInitiatorSession now localAddress remote myIdentityKey bundle t (keyExchangeInfoString cfg) (sr_ephemeral r) (sr_kem r);
  start_triple_ratchet now A2B (sb_initialRootKeyForSPQR built) (sr_kyber768 r) (sb_sessionState built).

(** The session is committed together with the pin of the identity. *)
Definition commit_started (now : Z) (remote : ProtocolAddress) (bundle : PreKeyBundle) (t : IdentityType) (session : SessionState) : M Store unit :=
  M_catch (keep_or KEY_STORAGE_ERROR)
    (do stored <- getSessionRecord remote;
     let existing := match stored with
                     | Some r => if version r =? CURRENT_SESSION_RECORD_VERSION then Some r else None
                     | None => None
                     end in
     commitSessionTrust now {|
       tc_address := remote; tc_record := started_record existing session; tc_contactIdentity := b_identity bundle;
       tc_contactIdentityType := t; tc_localIdentityType := localIdentityType session; tc_oneTimePreKeyId := None;
       tc_kemOneTimePreKeyId := None; tc_kyberPreKeyUse := None;
       tc_senderKeyHandoffInvalidation := match existing ≫= currentSession with Some _ => Some remote | None => None end |})%st.

Definition startSession (now : Z) (remote : ProtocolAddress) (bundle : PreKeyBundle) (t : IdentityType) (ir : IdentityType -> IdentityRandom)
    (r : StartRandom) : M Device unit :=
  M_catch (keep_or (EncryptionError "INVALID_PREKEY_BUNDLE"))
    (do_ ensure_initialized ir;
     do d <- M_get;
     match truthy (localUserId d), localDeviceId d with
     | Some user, Some device =>
         do session <- M_lift (build_started_session now user device remote bundle t r (d_store d));
         on_store (commit_started now remote bundle t session)
     | _, _ => M_throw INITIALIZATION_FAILED
     end)%st.

(** ** The responder *)
Definition find_one_time (t : IdentityType) (m : PreKeyMessage) (s : Store) : result (option EcOneTimePreKey) :=
  match pm_usedOneTimePreKeyId m with
  | None => Ok None
  | Some id =>
      match snd <$> list_find (fun k => ot_keyId k = id) (getEcOneTimePreKeys t s) with
      | None => Throw PREKEY_NOT_FOUND
      | Some k => validateX25519KeyPair (ot_publicKey k) (ot_privateKey k) ;; Ok (Some k)
      end
  end.

Definition find_kyber (t : IdentityType) (m : PreKeyMessage) (s : Store) : result (option RetainedKyberPreKey) :=
  match pm_usedKyberPreKeyId m, truthy (pm_kyberCiphertext m) with
  | Some id, Some _ =>
      match getKyberPreKeyById id t s with
      | None => Ok None
      | Some k => throw_when (negb (id =? sp_keyId (rk_preKey k))) PREKEY_NOT_FOUND ;; Ok (Some k)
      end
  | _, _ => Ok None
  end.

Definition find_kem_one_time (t : IdentityType) (m : PreKeyMessage) (s : Store) : result (option SignedPreKey) :=
  match pm_usedKemOneTimePreKeyId m, truthy (pm_kemOneTimePreKeyCiphertext m) with
  | Some id, Some _ => match getKemOneTimePreKey id t s with Some k => Ok (Some k) | None => Throw PREKEY_NOT_FOUND end
  | _, _ => Ok None
  end.

(** What the first authenticated message will consume. *)
Definition pending_deletion (t : IdentityType) (m : PreKeyMessage) (signed : SignedPreKey) (ot : option EcOneTimePreKey)
    (kyber : option RetainedKyberPreKey) (kem : option SignedPreKey) : option PendingPreKeyDeletion :=
  match ot, kem, kyber with
  | None, None, None => None
  | _, _, _ => Some {|
      del_oneTimePreKeyId := ot_keyId <$> ot; del_kemOneTimePreKeyId := sp_keyId <$> kem;
      del_kyberPreKeyUse := match kyber with
        | Some k => match rk_instanceId k with
                    | [] => None
                    | i => Some {| use_kyberPreKeyId := sp_keyId (rk_preKey k); use_instanceId := i;
                                   use_signedPreKeyId := sp_keyId signed; use_baseKeyBytes := pm_senderEphemeralKey m |}
                    end
        | None => None
        end;
      del_identityType := t |}
  end.

Definition pni_prefix : jsstring := bytes_of_string "pni-".

Definition respond (now : Z) (seed64 : bytes) (localUser : option jsstring) (localDevice : option Z) (remote : ProtocolAddress) (m : PreKeyMessage)
    (s : Store) : result SessionState :=
  let t := pm_recipientIdentityType m in
  myIdentityKey ← (match getIdentityKey t s with Some k => Ok k | None => Throw INITIALIZATION_FAILED end);
  validateX25519KeyPair (publicKey (dhKey myIdentityKey)) (privateKey (dhKey myIdentityKey)) ;;
  mySignedPreKey ← (match getEcSignedPreKey (pm_usedSignedPreKeyId m) t s with Some k => Ok k | None => Throw PREKEY_NOT_FOUND end);
  validateX25519KeyPair (sp_publicKey mySignedPreKey) (sp_privateKey mySignedPreKey) ;;
  myOneTimePreKey ← find_one_time t m s;
  myKyberPreKey ← find_kyber t m s;
  myKemOneTimePreKey ← find_kem_one_time t m s;
  match truthy localUser, localDevice with
  | Some user, Some device =>
      localAddress ← create_address (if decide (t = pni) then pni_prefix ++ user else user) device;
      built ← buildResponderSession now localAddress remote myIdentityKey m mySignedPreKey myOneTimePreKey (rk_preKey <$> myKyberPreKey)
                myKemOneTimePreKey (keyExchangeInfoString cfg);
      let session := match pending_deletion t m mySignedPreKey myOneTimePreKey myKyberPreKey myKemOneTimePreKey with
                     | Some d => with_pendingDeletion (Some d) (sb_sessionState built)
                     | None => sb_sessionState built
                     end in
      start_triple_ratchet now B2A (sb_initialRootKeyForSPQR built) seed64 session
  | _, _ => Throw INITIALIZATION_FAILED
  end.

(** The callback of the cipher; it only reads the store. *)
Definition performX3DHResponder (seed64 : bytes) (d : Device) (now : Z) (remote : ProtocolAddress) (m : PreKeyMessage) : M Store SessionState :=
  fun s => (s, respond now seed64 (localUserId d) (localDeviceId d) remote m s).

(** ** Messages *)
Definition max_skip : Z := default DEFAULT_MAX_SKIP (cfg_maxSkip cfg).

Definition manager_encrypt (now : Z) (ready : bool) (randomBytes : nat -> bytes) (remote : ProtocolAddress) (plaintext : jsstring) : M Device bytes :=
  on_store (encrypt now ready randomBytes remote plaintext).

Definition manager_decrypt (now : Z) (seed64 : bytes) (privates : nat -> bytes) (remote : ProtocolAddress) (ciphertext : bytes) : M Device jsstring := (
  do d <- M_get;
  on_store (decrypt (performX3DHResponder seed64 d) now max_skip privates remote ciphertext))%st.

(** Whether a current session is stored; a stale record is deleted on the way. *)
Definition manager_hasSession (remote : ProtocolAddress) : M Store bool := (
  do record <- getSessionRecord remote; M_ret (bool_decide (is_Some (record ≫= currentSession))))%st.

Definition manager_cleanup (now : Z) (session : SessionState) : result SessionState :=
  match DHs (ratchet session), truthy (DHr (ratchet session)) with
  | Some _, Some _ =>
      throw_when (falsy (CKs (ratchet session)) || falsy (CKr (ratchet session))) (Error "Cannot extract ratchet state") ;;
      Ok (with_ratchet_state (DoubleRatchet.cleanupExpiredKeys now DEFAULT_RATCHET_CONFIG (ratchet session)) session)
  | _, _ => Ok session
  end.

Definition manager_cleanupExpiredKeys (now : Z) (remote : ProtocolAddress) : M Store unit :=
  M_catch (fun _ => KEY_STORAGE_ERROR)
    (do record <- getSessionRecord remote;
     match record with
     | Some r =>
         match currentSession r with
         | Some session =>
             do session <- M_lift (manager_cleanup now session);
             storeSessionRecord remote (set_currentSession (Some session) r)
         | None => M_ret tt
         end
     | None => M_ret tt
     end)%st.
End Manager.
