(* ===== verification/SessionCipherTheorems.v ===== *)
(** * Properties of the session cipher and of the manager's messages *)
From S2P Require Import Prelude JsMap ProtoWire ProtoFields Utf8 SignalMessage SignalMessageProofs SenderKeyMessage SenderKeyStore Crypto Identity IdentityProofs BraidAuth SpqrWire SpqrState Spqr DoubleRatchet RatchetToy KeyFormats SessionRecord Pqxdh SessionBuilder SessionStore SessionStoreProofs MessageCipher SessionCipher SessionCipherProofs SessionEffects SessionManager PqxdhProofs SessionTheorems SpqrToy.

Definition with_prekey (p : PreKeyMessage) (m : Message) : Message := {|
  msg_ratchetKey := msg_ratchetKey m; msg_counter := msg_counter m; msg_previousCounter := msg_previousCounter m;
  msg_ciphertext := msg_ciphertext m; msg_context := msg_context m; msg_pqRatchet := msg_pqRatchet m; msg_prekey := Some p |}.

(** C19: Sealed messages open.  What [seal_message] writes for a text between
    users whose names are plain parses to the header it was given, and under
    the same message key and salt it decrypts in every session of the mirrored
    identities, exactly when that session also has the mirrored addresses.
    Wrapped as a PreKey message it parses to the same message with the
    handshake data of the session.  The decrypted text is the sealed one when
    that has no lone surrogate and does not begin with U+FEFF: lone surrogates
    are replaced, and a leading U+FEFF is lost. *)
Theorem sealed_message_opens {C : RatchetCrypto} {L : RatchetCryptoLaws C} {S : Sha256} {A : AesCbc} {AL : AesCbcLaws A}
    remote counter s kp mk salt pq text framed :
  DHs (ratchet s) = Some kp -> length (publicKey kp) = 32%nat -> pq <> Some [] ->
  utf16 text -> plain_name (userId (localAddress s)) -> plain_name (userId remote) ->
  seal_message remote counter s mk salt pq text = Ok framed -> len framed <= MAX_SIGNAL_PROTOCOL_WIRE_MESSAGE_BYTES ->
  (well_formed text -> head text <> Some BOM -> received_text text = text) /\
  (forall rest, text = BOM :: rest -> well_formed rest -> received_text text = rest) /\
  exists m, parse_message framed = Ok m /\
    msg_ratchetKey m = publicKey kp /\ msg_counter m = counter /\ msg_previousCounter m = PN (ratchet s) /\ msg_pqRatchet m = pq /\
    (forall r prekey, localIdentity r = remoteIdentity s -> remoteIdentity r = localIdentity s ->
       decryptWithKey mk m r salt =
         (if bool_decide (remoteAddress r = localAddress s /\ localAddress r = remote) then Ok (received_text text) else Throw DECRYPTION_FAILED) /\
       decryptWithKey mk (with_prekey prekey m) r salt = decryptWithKey mk m r salt) /\
    (forall t outer, bound_identity_type s = Ok (Some t) -> seal_prekey_message s t framed = Ok outer ->
       len outer <= MAX_SIGNAL_PROTOCOL_WIRE_MESSAGE_BYTES -> baseKey s = publicKey kp ->
       kyberCiphertext (pendingPreKey s) <> Some [] -> kemOneTimePreKeyCiphertext (pendingPreKey s) <> Some [] ->
       parse_message outer = Ok (with_prekey (message_of s) m)).
Proof.
  intros Hd Hk Hpq Htext Hlocal Hremote Hseal Hlen.
  split; [apply received_same|]. split; [intros rest ->; apply received_after_bom|].
  destruct (seal_inv _ _ _ _ _ _ _ _ _ Hd Hk Hseal) as (ct & ad & b & mac & rt & H).
  pose proof (ratchet_message_parses H Hk Hpq Htext Hlen) as Hm.
  exists (opened framed mac ad s kp counter ct pq None). do 5 (split; [done|]). split.
  - intros r prekey El Er. split; [by apply (opens H)|done].
  - intros t outer Ht Ho Hl Hbase H1 H2.
    apply (prekey_message_parses s kp t framed outer {| env_version := 4; env_protobufBytes := b; env_mac := mac |}
      (sealed_fields s kp counter ct ad pq rt) (opened framed mac ad s kp counter ct pq None)); try done.
    + eapply envelope_parses, H.
    + by eapply inner_decodes.
    + cbn [SignalMessage.recipientIdentityType sealed_fields]. destruct H as [_ _ Ht' _ _ _]. rewrite Ht in Ht'. by injection Ht' as <-.
    + eapply framed_second_byte, H.
Qed.

(** C4: Messages are atomic.  A call of [encrypt] or [decrypt] that throws
    leaves the device as it was, save that a stored record of another version
    is deleted when it is read.  A call that returns has made one commit: an
    encryption that of the session after [encrypt_session], before the
    ciphertext is released, a decryption that of a session whose key opened
    the message. *)
Theorem message_calls_atomic {C : RatchetCrypto} {S : Sha256} {A : AesCbc} {E : Ed25519} {V : Curve25519} {K1024 : MlKem1024} {K : MLKEM768} {Q : Kyber768}
    cfg now ready randomBytes seed64 privates remote plaintext ciphertext d :
  let base := read_store remote (d_store d) in
  ((forall r, Map_get remote (sessionRecords (d_store d)) = Some r -> assertCurrentSessionRecord r = Ok tt) -> base = d_store d) /\
  match manager_encrypt now ready randomBytes remote plaintext d with
  | (d', Ok encoded) => d' = set_store (d_store d') d /\ exists c record, getSessionRecord remote (d_store d) = (base, Ok record) /\
      commitSessionTrust now c base = (d_store d', Ok tt) /\ sent_of now ready randomBytes remote plaintext record c encoded
  | (d', Throw _) => d' = set_store base d
  end /\
  match manager_decrypt cfg now seed64 privates remote ciphertext d with
  | (d', Ok text) => d' = set_store (d_store d') d /\ exists m c, parse_message ciphertext = Ok m /\
      commitSessionTrust now c base = (d_store d', Ok tt) /\ commit_of remote m c text
  | (d', Throw _) => d' = d \/ d' = set_store base d
  end.
Proof.
  intros base. split; [|split].
  - intros Hr. unfold base, read_store, getSessionRecord. destruct (Map_get _ _) as [r|]; [|done]. by rewrite Hr.
  - unfold manager_encrypt, on_store, encrypt, M_catch.
    destruct (getSessionRecord remote (d_store d)) as [s1 r] eqn:Eg. destruct (read_record _ _ _ _ Eg) as (-> & record & -> & _).
    pose proof (encrypt_body_commits now ready randomBytes remote plaintext _ _ Eg) as H.
    destruct (encrypt_body _ _ _ _ _ (d_store d)) as [s' [encoded|e]]; [|by rewrite H].
    destruct H as (c & Hc & Hs). split; [done|]. by exists c, record.
  - unfold manager_decrypt. rewrite (M_bind_Ok _ _ d d d) by done. unfold on_store, decrypt, M_catch.
    destruct (parse_message ciphertext) as [m|e] eqn:Em.
    + pose proof (decrypt_body_commits (performX3DHResponder cfg seed64 d) (fun _ _ _ _ => eq_refl) now (max_skip cfg) privates remote ciphertext (d_store d) m Em) as H.
      destruct (decrypt_body _ _ _ _ _ _ (d_store d)) as [s' [text|e]]; [|right; by rewrite H].
      destruct H as (c & Hc & Hs). split; [done|]. by exists m, c.
    + unfold decrypt_body. rewrite Em. left. by destruct d.
Qed.

(** C3: Decrypted texts are authentic.  When a device returns a text for a
    message of a peer, the message carries a MAC that verifies under a key
    expanded for the identities of the session, its address binding names the
    addresses of that session, the session is now the current one stored for
    the peer, and the contact is pinned to the identity of the session. *)
Theorem decrypted_text_authentic {C : RatchetCrypto} {S : Sha256} {A : AesCbc} {E : Ed25519} {V : Curve25519} {K1024 : MlKem1024} {K : MLKEM768} {Q : Kyber768}
    cfg now seed64 privates remote ciphertext d d' text :
  manager_decrypt cfg now seed64 privates remote ciphertext d = (d', Ok text) ->
  exists m key salt s record contact, parse_message ciphertext = Ok m /\
    Map_get remote (sessionRecords (d_store d')) = Some record /\ currentSession record = Some s /\
    verifyCompositeIdentityMessageMac (H := ratchet_hash) (authKey (expandMessageKey (H := ratchet_hash) key salt)) (remoteIdentity s) (localIdentity s)
      (serializedForMac (msg_context m)) (ctx_mac (msg_context m)) = Ok true /\
    signalProtocolMessageAddressesEqual (ctx_addresses (msg_context m)) (remoteAddress s) (localAddress s) = Ok true /\
    contact_at remote (remoteIdentityType s) (d_store d') = Some contact /\
    compositeIdentitiesEqual (c_identity contact) (remoteIdentity s) = Ok true.
Proof.
  intros H. unfold manager_decrypt in H. rewrite (M_bind_Ok _ _ d d d) in H by done. unfold on_store, decrypt, M_catch in H.
  destruct (parse_message ciphertext) as [m|e] eqn:Em.
  2:{ unfold decrypt_body in H. rewrite Em in H. done. }
  pose proof (decrypt_body_commits (performX3DHResponder cfg seed64 d) (fun _ _ _ _ => eq_refl) now (max_skip cfg) privates remote ciphertext (d_store d) m Em) as Hc.
  destruct (decrypt_body _ _ _ _ _ _ (d_store d)) as [s' [p|e]]; [|done]. injection H as <- ->.
  destruct Hc as (c & Hc & <- & s & Hs & (key & salt & sk & (_ & E1 & E2 & E3 & E4 & E5 & E6) & Ho) & Hi & Ht). cbn [d_store set_store].
  destruct (committed_contact _ _ _ _ Hc) as (r & Hr & Heq). destruct (opened_authentic _ _ _ _ _ Ho) as [Hmac Haddr].
  exists m, key, salt, s, (tc_record c), r. rewrite E1, E2 in Hmac. rewrite E5, E6 in Haddr. rewrite Ht, Hi in *.
  split; [done|]. split; [|by repeat (split; [assumption|])]. destruct (commit_inv _ _ _ _ Hc) as (new & used & _ & ->). rewrite apply_commit_records, Map_get_set. by rewrite decide_True.
Qed.

(** ** Two devices *)
Definition fresh_store : Store := {|
  identityKeys := []; registrationIds := []; contactIdentities := []; ecSignedPreKeys := []; ecOneTimePreKeys := []; kyberPreKeys := [];
  currentKyberPreKeyIds := []; kemOneTimePreKeys := []; sessionRecords := []; store_handoffs := [] |}.
Definition toy_config : ProtocolStrategyConfig := {|
  keyExchangeInfoString := None; sckaMode := None; cfg_maxMessageJump := None; cfg_maxOutOfOrderKeys := None; cfg_maxSkip := None |}.
Definition toy_user (n : Z) : ProtocolAddress := {| userId := [n]; deviceId := 1 |}.

(** The device of user [u], whose random bytes start at [n]. *)
Definition toy_device (u n : Z) : Device := (generatePreKeyBundle (C := toy_crypto) 10 [u] 1 aci
  (fun _ => {| ir_dh := replicate 32 n; ir_signing := replicate 32 (n + 1); ir_registration := [n; 5] |})
  {| kr_signed := replicate 32 (n + 2); kr_signedId := [0; 0; 7]; kr_kyber := replicate 64 (n + 3); kr_instance := replicate 32 (n + 4) |}
  {| d_store := fresh_store; initialized := false; localUserId := None; localDeviceId := None |}).1.
Definition alice_device : Device := toy_device 97 11.
Definition bob_device : Device := toy_device 98 21.

(** Bob's bundle, and Alice's device with a session from it. *)
Definition toy_bundle : option PreKeyBundle :=
  k ← getIdentityKey aci (d_store bob_device); spk ← getEcSignedPreKey None aci (d_store bob_device); kk ← getKyberPreKey aci (d_store bob_device);
  Some (bundle_of 1 k spk None (Some kk) None).
Definition toy_started : Device :=
  match toy_bundle with
  | Some b => (startSession (C := toy_crypto) toy_config 20 (toy_user 98) b aci (fun _ => {| ir_dh := []; ir_signing := []; ir_registration := [] |})
                {| sr_ephemeral := replicate 32 31; sr_kem := replicate 32 32; sr_kyber768 := replicate 64 33 |} alice_device).1
  | None => alice_device
  end.

(** Alice's first message and Bob after it. *)
Definition toy_sent : Device * result bytes := manager_encrypt (C := toy_crypto) 30 true toy_random (toy_user 98) [104; 105] toy_started.
Definition toy_first : bytes := match toy_sent.2 with Ok b => b | Throw _ => [] end.
Definition bob_received : Device * result jsstring :=
  manager_decrypt (C := toy_crypto) toy_config 40 (replicate 64 41) (fun _ => replicate 32 42) (toy_user 97) toy_first bob_device.

Lemma decrypted_text_authentic_witness : exists m key salt s record contact, parse_message toy_first = Ok m /\
  Map_get (toy_user 97) (sessionRecords (d_store bob_received.1)) = Some record /\ currentSession record = Some s /\
  @verifyCompositeIdentityMessageMac toy_hash toy_sha256 (authKey (@expandMessageKey toy_hash key salt)) (remoteIdentity s) (localIdentity s)
    (serializedForMac (msg_context m)) (ctx_mac (msg_context m)) = Ok true /\
  signalProtocolMessageAddressesEqual (ctx_addresses (msg_context m)) (remoteAddress s) (localAddress s) = Ok true /\
  contact_at (toy_user 97) (remoteIdentityType s) (d_store bob_received.1) = Some contact /\
  compositeIdentitiesEqual (c_identity contact) (remoteIdentity s) = Ok true.
Proof.
  apply (decrypted_text_authentic (C := toy_crypto) toy_config 40 (replicate 64 41) (fun _ => replicate 32 42) (toy_user 97) toy_first bob_device _ [104; 105]).
  unfold bob_received. rewrite (surjective_pairing (manager_decrypt _ _ _ _ _ _ _)) at 1. f_equal; vm_compute; reflexivity.
Defined.

(** Alice's session, and a text it has sealed. *)
Definition toy_session : SessionState :=
  match Map_get (toy_user 98) (sessionRecords (d_store toy_started)) ≫= currentSession with
  | Some s => s
  | None => {| baseKey := []; localAddress := toy_user 0; remoteAddress := toy_user 0; localRegistrationId := 0; remoteRegistrationId := 0;
      ratchet := {| DHs := None; DHr := None; RK := []; CKs := None; Ns := 0; CKr := None; Nr := 0; PN := 0; receiverChains := []; processedChains := ∅ |};
      recipientIdentityType := None; pendingPreKey := no_pending; pendingPreKeyDeletion := None; isInitiator := false; hasReceivedMessage := None;
      identityKeyPair := toy_initiator; localIdentity := toy_identity 1; remoteIdentity := toy_identity 1;
      localIdentityType := aci; remoteIdentityType := aci; createdAt := 0; lastUsedAt := 0; tripleRatchet := None |}
  end.
Definition toy_key_pair : KeyPair := {| publicKey := @x25519_public toy_crypto (replicate 32 31); privateKey := replicate 32 31 |}.
Definition toy_sealed : bytes :=
  match seal_message (C := toy_crypto) (toy_user 98) 0 toy_session (replicate 32 9) (Some (replicate 32 8)) (Some [1; 2]) [104; 105] with
  | Ok b => b | Throw _ => [] end.

Lemma sealed_message_opens_witness : exists m, parse_message toy_sealed = Ok m /\
  (forall r, localIdentity r = remoteIdentity toy_session -> remoteIdentity r = localIdentity toy_session ->
     remoteAddress r = localAddress toy_session -> localAddress r = toy_user 98 ->
     decryptWithKey (C := toy_crypto) (replicate 32 9) m r (Some (replicate 32 8)) = Ok [104; 105]) /\
  (forall outer, seal_prekey_message toy_session 1 toy_sealed = Ok outer -> len outer <= MAX_SIGNAL_PROTOCOL_WIRE_MESSAGE_BYTES ->
     parse_message outer = Ok (with_prekey (message_of toy_session) m)).
Proof.
  destruct (sealed_message_opens (C := toy_crypto) (toy_user 98) 0 toy_session toy_key_pair (replicate 32 9) (Some (replicate 32 8)) (Some [1; 2]) [104; 105] toy_sealed)
    as (_ & _ & m & Hm & _ & _ & _ & _ & Hopen & Houter).
  - vm_compute. reflexivity.
  - reflexivity.
  - discriminate.
  - repeat constructor; lia.
  - replace (userId (localAddress toy_session)) with [97] by (vm_compute; reflexivity). apply ascii_plain. repeat constructor; lia.
  - apply ascii_plain. repeat constructor; lia.
  - unfold toy_sealed. vm_compute. reflexivity.
  - vm_compute. discriminate.
  - exists m. split; [exact Hm|]. split.
    + intros r El Er Ea Eb. destruct (Hopen r (message_of toy_session) El Er) as [-> _]. rewrite bool_decide_true; [reflexivity|exact (conj Ea Eb)].
    + intros outer Ho Hl. apply (Houter 1 outer); [vm_compute; reflexivity|exact Ho|exact Hl|vm_compute; reflexivity|vm_compute; discriminate|vm_compute; discriminate].
Defined.

(** C30: Convergence on an archived session.  When a message is decrypted by an
    archived session, that session becomes the current one.  The former
    current session goes to the archive when the message key came from the
    chain, but when it was a stored key of a skipped message the record keeps
    its old archive, and the former current session is lost. *)
Theorem archived_session_convergence {C : RatchetCrypto} {S : Sha256} {A : AesCbc} {K : MLKEM768} {Q : Kyber768}
    x attempt rec key cur session s s' text :
  currentSession rec = Some cur -> baseKey session = key -> is_Some (Map_get key (archivedSessions rec)) -> baseKey cur <> key ->
  decrypt_with x attempt (Some rec) (Some key) session s = (s', Ok text) ->
  exists rec', Map_get (x_remote x) (sessionRecords s') = Some rec' /\
    (exists stored, currentSession rec' = Some stored /\ baseKey stored = key) /\
    findSession rec' (baseKey cur) =
      if has_skipped_key x session then Map_get (baseKey cur) (archivedSessions rec) else Some (withoutPendingPreKey cur).
Proof.
  intros Hc Hb Ha Hne H. destruct (decrypt_with_record _ _ _ _ _ _ _ _ H) as (stored & Es & Hg). rewrite Hg. eexists. split; [done|].
  split; [exists stored; split; [case_match; [apply with_current_Some|apply converge_current]|congruence]|].
  case_match.
  - unfold findSession, with_current. cbn. by rewrite decide_False by congruence.
  - apply converge_keeps_current; [done|done|congruence|done].
Qed.

(** Two more messages of Alice, of which Bob receives the second; then Alice
    starts another session, and Bob receives its first message. *)
Definition toy_send (now : Z) (d : Device) : Device * bytes :=
  let '(d', r) := manager_encrypt (C := toy_crypto) now true toy_random (toy_user 98) [104; 105] d in
  (d', match r with Ok b => b | Throw _ => [] end).
Definition toy_deliver (now : Z) (b : bytes) (d : Device) : Device :=
  (manager_decrypt (C := toy_crypto) toy_config now (replicate 64 41) (fun _ => replicate 32 42) (toy_user 97) b d).1.
Definition toy_second : Device * bytes := toy_send 50 toy_sent.1.
Definition toy_third : Device * bytes := toy_send 51 toy_second.1.
Definition toy_restarted : Device :=
  match toy_bundle with
  | Some b => (startSession (C := toy_crypto) toy_config 60 (toy_user 98) b aci (fun _ => {| ir_dh := []; ir_signing := []; ir_registration := [] |})
                {| sr_ephemeral := replicate 32 51; sr_kem := replicate 32 52; sr_kyber768 := replicate 64 53 |} toy_third.1).1
  | None => alice_device
  end.
Definition toy_other_first : bytes := (toy_send 61 toy_restarted).2.
Definition toy_bob_before : Device := toy_deliver 70 toy_other_first (toy_deliver 52 toy_third.2 bob_received.1).

(** The record of Bob before the late message, its archived session, and the
    attempt that decrypts the message. *)
Definition toy_record : SessionRecord :=
  default (create_record toy_session) (Map_get (toy_user 97) (sessionRecords (d_store toy_bob_before))).
Definition toy_current : SessionState := default toy_session (currentSession toy_record).
Definition toy_archived : SessionState := default toy_session (Map_get (replicate 32 31) (archivedSessions toy_record)).
Definition no_session_message : Message := {|
  msg_ratchetKey := []; msg_counter := 0; msg_previousCounter := 0; msg_ciphertext := [];
  msg_context := {| serializedForMac := []; ctx_mac := []; ctx_addresses := [] |}; msg_pqRatchet := None; msg_prekey := None |}.
Definition toy_attempt : Context := {|
  x_now := 80; x_maxSkip := 25000; x_remote := toy_user 97;
  x_message := match parse_message toy_second.2 with Ok m => m | Throw _ => no_session_message end; x_private := fun _ => replicate 32 42 |}.
Definition toy_late : Store * result jsstring :=
  decrypt_with (C := toy_crypto) toy_attempt 0 (Some toy_record) (Some (replicate 32 31)) toy_archived (d_store toy_bob_before).

Lemma archived_session_convergence_witness : exists rec', toy_late.2 = Ok [104; 105] /\
  Map_get (toy_user 97) (sessionRecords toy_late.1) = Some rec' /\ findSession toy_record (SessionRecord.baseKey toy_current) = Some toy_current /\
  findSession rec' (SessionRecord.baseKey toy_current) = None.
Proof.
  destruct (archived_session_convergence (C := toy_crypto) toy_attempt 0 toy_record (replicate 32 31) toy_current toy_archived (d_store toy_bob_before) toy_late.1 [104; 105])
    as (rec' & Hr & _ & Hf).
  - vm_compute. reflexivity.
  - vm_compute. reflexivity.
  - vm_compute. by eexists.
  - vm_compute. discriminate.
  - unfold toy_late. rewrite (surjective_pairing (decrypt_with _ _ _ _ _ _)) at 1. f_equal; vm_compute; reflexivity.
  - exists rec'. split; [vm_compute; reflexivity|]. split; [exact Hr|]. split; [vm_compute; reflexivity|].
    rewrite Hf. vm_compute. reflexivity.
Defined.
