(* ===== verification/SessionStoreTheorems.v ===== *)
(** * Properties of the session store and of prekey rotation *)
From S2P Require Import Prelude JsMap Utf8 SignalMessage SenderKeyStore Crypto Identity IdentityProofs DoubleRatchet SessionRecord Pqxdh KeyFormats SessionStore SessionStoreProofs SessionCipher SessionManager PqxdhProofs RatchetToy SessionTheorems.

(** C10: A reusable Kyber prekey accepts a base key once.  After a commit that
    recorded a use, whatever operations the store performs (also clearing all
    keys and storing others, whose instance identifiers are new), every
    commit of the same use throws and changes nothing. *)
Theorem kyber_use_committed_once {S : Sha256} now c s s1 u ops now' c' :
  commitSessionTrust now c s = (s1, Ok tt) -> tc_kyberPreKeyUse c = Some u ->
  Forall (fresh_instance u) ops ->
  tc_kyberPreKeyUse c' = Some u -> tc_localIdentityType c' = tc_localIdentityType c ->
  exists e, commitSessionTrust now' c' (run_ops ops s1) = (run_ops ops s1, Throw e).
Proof.
  intros Hc Hu Hf Hu' Ht. apply (spent_commit_throws now' c' _ u Hu'). rewrite Ht.
  apply (run_ops_maintains _ (fresh_instance u) (run_store_op_spent _ u)); [done|]. by eapply commit_spends.
Qed.

(** C11: Trust on first use.  Once a store has pinned an identity tuple for a
    contact, then whatever operations it performs except an accepted rotation
    of that contact and the clearing of all keys, the pin stays that tuple, the trust check refuses every
    other tuple and no session with another tuple is committed. *)
Theorem identity_pin_stable {S : Sha256} a t c s ops : pinned a t c s -> ci_wf c -> Forall (no_rotation a t) ops ->
  let s' := run_ops ops s in
  pinned a t c s' /\
  (forall a' c' d, userId a' = userId a -> ci_wf c' -> isTrustedIdentity a' c' d t s' = Ok true -> c' = c) /\
  (forall cm now, userId (tc_address cm) = userId a -> tc_contactIdentityType cm = t -> ci_wf (tc_contactIdentity cm) ->
     (commitSessionTrust now cm s').2 = Ok tt -> tc_contactIdentity cm = c).
Proof.
  intros Hp Hw Ho s'. assert (Hp' : pinned a t c s') by (apply (run_ops_maintains _ (no_rotation a t) (run_store_op_pinned a t c)); done).
  split; [done|]. split; intros; [by eapply pinned_trusted|by eapply pinned_commit].
Qed.

(** ** Rotation of the signed prekey *)
(** The loop finds the entry with the greatest key. *)
Lemma most_recent_aux {A} (l : list (Z * A)) : forall m v,
  let r := foldl (fun acc e => if e.1 >? acc.1 then (e.1, Some e.2) else acc) (m, v) l in
  (forall e, e ∈ l -> e.1 <= r.1) /\ m <= r.1 /\ (r = (m, v) \/ exists e, e ∈ l /\ r = (e.1, Some e.2)).
Proof.
  induction l as [|[k x] l IH]; intros m v; cbn -[foldl].
  { cbn. split; [by intros e ?%not_elem_of_nil|]. split; [lia|by left]. }
  cbn [foldl fst snd]. destruct (k >? m) eqn:E; b2p.
  - destruct (IH k (Some x)) as (H1 & H2 & H3). split; [|split; [lia|]].
    + intros e [->|He]%elem_of_cons; [exact H2|by apply H1].
    + right. destruct H3 as [->|(e & He & ->)]; [exists (k, x); split; [left|done]|exists e; split; [by right|done]].
  - destruct (IH m v) as (H1 & H2 & H3). split; [|split; [lia|]].
    + intros e [->|He]%elem_of_cons; [cbn; lia|by apply H1].
    + destruct H3 as [->|(e & He & ->)]; [by left|right; exists e; split; [by right|done]].
Qed.

Lemma most_recent_Some {A} (l : list (Z * A)) k v : NoDup l.*1 -> (k, v) ∈ l -> 0 <= k -> (forall e, e ∈ l -> e.1 <= k) ->
  most_recent l = Some v.
Proof.
  intros Hd Hin Hk Hmax. unfold most_recent. pose proof (most_recent_aux l (-1) None) as H. cbn zeta in H.
  destruct H as (H1 & H2 & [E|(e & He & E)]); rewrite E in *; cbn [fst snd] in *.
  - specialize (H1 _ Hin). cbn in H1. lia.
  - assert (Ek : e.1 = k) by (apply Z.le_antisymm; [by apply Hmax|by apply (H1 _ Hin)]). f_equal.
    pose proof (Map_get_Some k v l Hd Hin) as G1. destruct e as [k' v']. cbn in *. subst k'.
    pose proof (Map_get_Some k v' l Hd He) as G2. congruence.
Qed.

Lemma most_recent_In {A} (l : list (Z * A)) v : most_recent l = Some v -> exists k, (k, v) ∈ l /\ forall e, e ∈ l -> e.1 <= k.
Proof.
  unfold most_recent. pose proof (most_recent_aux l (-1) None) as H. cbn zeta in H.
  destruct H as (H1 & H2 & [E|(e & He & E)]); rewrite E in *; [done|]. intros [= <-]. exists e.1. split; [by destruct e|done].
Qed.

Section OfType.
Context {A : Type} (t : IdentityType).
Implicit Types m : Map (IdentityType * Z) A.

Lemma elem_of_of_type m id v : (id, v) ∈ of_type t m <-> ((t, id), v) ∈ m.
Proof.
  unfold of_type. rewrite list_elem_of_omap. split.
  - intros ([[t' id'] v'] & Hin & H). cbn in H. by case_decide; simplify_eq.
  - intros Hin. exists ((t, id), v). split; [done|]. cbn. by rewrite decide_True.
Qed.

Lemma of_type_keys m id : id ∈ (of_type t m).*1 -> (t, id) ∈ m.*1.
Proof. intros ([id' v] & -> & Hin)%list_elem_of_fmap. apply elem_of_of_type in Hin. apply list_elem_of_fmap. by exists ((t, id'), v). Qed.

Lemma of_type_NoDup m : NoDup m.*1 -> NoDup (of_type t m).*1.
Proof.
  unfold of_type. induction m as [|[[t' id] v] m IH]; [constructor|]. cbn [fmap list_fmap fst]. intros [Hn Hd]%NoDup_cons.
  cbn [omap list_omap fst snd]. case_decide as E; [|by apply IH]. cbn. apply NoDup_cons. split; [|by apply IH].
  intros Hin. apply Hn. subst t'. by apply of_type_keys in Hin.
Qed.
End OfType.

Lemma Map_set_In {K V} `{EqDecision K} k (v : V) (m : Map K V) e : NoDup m.*1 -> e ∈ Map_set k v m <-> e = (k, v) \/ (e ∈ m /\ e.1 <> k).
Proof.
  intros Hd. destruct e as [k' v']. split.
  - intros Hin. apply Map_get_Some in Hin; [|by apply Map_set_NoDup]. rewrite Map_get_set in Hin. case_decide; [left; congruence|].
    right. split; [by apply Map_get_In|cbn; congruence].
  - intros H. apply Map_get_In. rewrite Map_get_set. destruct H as [[= -> ->]|[Hin Hne]]; [by rewrite decide_True|].
    cbn in Hne. rewrite decide_False by congruence. by apply Map_get_Some.
Qed.

(** C31: Rotation of the signed prekey.  When [rotateEcSignedPreKey] returns, the
    store holds the new key under its random identifier, but the key that the
    store gives out as the current one is the new key only when no stored
    identifier is greater; otherwise it is exactly the key it was before. *)
Theorem rotation_takes_effect_iff {C : RatchetCrypto} {S : Sha256} {E : Ed25519} now t r32 r3 s s' :
  NoDup (ecSignedPreKeys s).*1 -> (forall id v, ((t, id), v) ∈ ecSignedPreKeys s -> 0 <= id) -> is_bytes r3 ->
  rotateEcSignedPreKey now t r32 r3 s = (s', Ok tt) ->
  exists k, sp_keyId k = generateEcSignedPreKeyId r3 /\ getEcSignedPreKey (Some (sp_keyId k)) t s' = Some k /\
    ((forall id v, ((t, id), v) ∈ ecSignedPreKeys s -> id <= sp_keyId k) -> getEcSignedPreKey None t s' = Some k) /\
    ((exists id v, ((t, id), v) ∈ ecSignedPreKeys s /\ sp_keyId k < id) -> getEcSignedPreKey None t s' = getEcSignedPreKey None t s).
Proof.
  intros Hd Hnn Hb. unfold rotateEcSignedPreKey, M_catch. intros H.
  destruct (M_bind _ _ s) as [s1 q] eqn:Eq in H. destruct q as [[]|e]; [|done]. injection H as ->.
  rewrite (M_bind_Ok _ _ s s s) in Eq by done. destruct (getIdentityKey t s) as [ik|] eqn:Ei; [|done].
  inv_bind Eq k s2 Ek. unfold manager_generateEcSignedPreKey in Ek. rewrite (M_bind_Ok _ _ s s s) in Ek by done. rewrite Ei in Ek.
  apply M_lift_inv in Ek as [-> Ek]. apply M_modify_inv in Eq as ->.
  assert (Eid : sp_keyId k = generateEcSignedPreKeyId r3).
  { unfold generateEcSignedPreKey in Ek. apply bind_Ok in Ek as (sig & _ & [= <-]). done. }
  assert (Hk0 : 0 <= sp_keyId k).
  { rewrite Eid. by apply generateEcSignedPreKeyId_range. }
  exists k. split; [done|]. set (m := ecSignedPreKeys s) in *.
  assert (Em : ecSignedPreKeys (set_ecSigned (Map_set (t, sp_keyId k) k m) s) = Map_set (t, sp_keyId k) k m) by done.
  unfold getEcSignedPreKey. rewrite Em. fold m. split; [by rewrite Map_get_set, decide_True|]. split.
  - intros Hmax. apply (most_recent_Some _ (sp_keyId k)); [by apply of_type_NoDup, Map_set_NoDup| |done|].
    + apply elem_of_of_type, Map_set_In; [done|by left].
    + intros [id v] He. apply elem_of_of_type, Map_set_In in He as [[= -> ->]|[He _]]; [cbn; lia| |done]. cbn. by eapply Hmax.
  - intros (id & v & Hin & Hlt). destruct (most_recent (of_type t m)) as [w|] eqn:Ew.
    + apply most_recent_In in Ew as (j & Hj & Hmax). pose proof (Hmax (id, v)) as Hid. cbn in Hid. rewrite elem_of_of_type in Hid. specialize (Hid Hin).
      apply (most_recent_Some _ j); [by apply of_type_NoDup, Map_set_NoDup| |lia|].
      * apply elem_of_of_type, Map_set_In; [done|]. right. split; [by apply elem_of_of_type|]. cbn. intros [= E']. lia.
      * intros [i u] He. apply elem_of_of_type, Map_set_In in He as [[= -> ->]|[He _]]; [cbn; lia| |done]. apply Hmax. by apply elem_of_of_type.
    + exfalso. pose proof (most_recent_aux (of_type t m) (-1) None) as H. cbn zeta in H. unfold most_recent in Ew.
      destruct H as (H1 & _ & [E2|(e & He & E2)]); rewrite E2 in *; [|done]. specialize (H1 (id, v)). rewrite elem_of_of_type in H1.
      specialize (H1 Hin). cbn in H1. lia.
Qed.

(** ** A store with one reusable Kyber prekey *)
Definition toy_use : KyberPreKeyUse := {|
  use_kyberPreKeyId := 9; use_instanceId := replicate 32 1; use_signedPreKeyId := 7; use_baseKeyBytes := replicate 32 2 |}.

Definition toy_store : Store := {|
  identityKeys := [(aci, toy_responder)]; registrationIds := []; contactIdentities := [];
  ecSignedPreKeys := [((aci, 7), toy_spk)]; ecOneTimePreKeys := [];
  kyberPreKeys := [((aci, 9), new_instance (replicate 32 1) toy_last_resort)]; currentKyberPreKeyIds := [(aci, 9)];
  kemOneTimePreKeys := []; sessionRecords := []; store_handoffs := [] |}.

Definition toy_commit (identity : Z) (use : option KyberPreKeyUse) : SessionTrustCommit := {|
  tc_address := toy_address 1; tc_record := {| currentSession := None; archivedSessions := []; version := 4; metadata := None |};
  tc_contactIdentity := toy_identity identity; tc_contactIdentityType := aci; tc_localIdentityType := aci;
  tc_oneTimePreKeyId := None; tc_kemOneTimePreKeyId := None; tc_kyberPreKeyUse := use; tc_senderKeyHandoffInvalidation := None |}.

Definition toy_committed (use : option KyberPreKeyUse) : Store := (@commitSessionTrust toy_sha256 100 (toy_commit 1 use) toy_store).1.

(** The operations between the two commits. *)
Definition toy_ops : list StoreOp := [
  OpRemoveSigned 7 aci; OpDeleteAllPreKeys pni; OpStoreKyber 200 toy_last_resort aci (replicate 32 5);
  OpSaveContact 200 (toy_address 1) (toy_identity 3) aci None; OpDeleteSession (toy_address 1);
  OpMarkKyber 9 7 (replicate 32 3) aci; OpClearAllSessions ].

Lemma kyber_use_committed_once_witness :
  exists e, @commitSessionTrust toy_sha256 300 (toy_commit 1 (Some toy_use)) (@run_ops toy_sha256 toy_ops (toy_committed (Some toy_use))) =
    (@run_ops toy_sha256 toy_ops (toy_committed (Some toy_use)), Throw e).
Proof.
  apply (@kyber_use_committed_once toy_sha256 100 (toy_commit 1 (Some toy_use)) toy_store (toy_committed (Some toy_use)) toy_use).
  - unfold toy_committed. rewrite (surjective_pairing (commitSessionTrust _ _ toy_store)) at 1. f_equal; vm_compute; reflexivity.
  - reflexivity.
  - repeat constructor. discriminate.
  - reflexivity.
  - reflexivity.
Defined.

Lemma identity_pin_stable_witness :
  let s' := @run_ops toy_sha256 toy_ops (toy_committed None) in
  pinned (toy_address 1) aci (toy_identity 1) s' /\
  (forall a' c' d, userId a' = userId (toy_address 1) -> ci_wf c' -> @isTrustedIdentity toy_sha256 a' c' d aci s' = Ok true -> c' = toy_identity 1) /\
  (forall cm now, userId (tc_address cm) = userId (toy_address 1) -> tc_contactIdentityType cm = aci -> ci_wf (tc_contactIdentity cm) ->
     (@commitSessionTrust toy_sha256 now cm s').2 = Ok tt -> tc_contactIdentity cm = toy_identity 1).
Proof.
  apply (@identity_pin_stable toy_sha256 (toy_address 1) aci (toy_identity 1) (toy_committed None) toy_ops).
  - eexists. split; [vm_compute; reflexivity|reflexivity].
  - unfold ci_wf. cbn. repeat split; repeat constructor; vm_compute; try done.
  - repeat constructor.
Defined.

(** A rotation whose random identifier is smaller than the current one. *)
Definition toy_rotated : Store :=
  (@rotateEcSignedPreKey toy_crypto toy_sha256 toy_ed25519 200 aci (replicate 32 60) [0; 0; 3] toy_store).1.

Lemma rotation_takes_effect_iff_witness :
  (exists k, sp_keyId k = 3 /\ getEcSignedPreKey (Some 3) aci toy_rotated = Some k) /\
  getEcSignedPreKey None aci toy_rotated = getEcSignedPreKey None aci toy_store /\ getEcSignedPreKey None aci toy_rotated = Some toy_spk.
Proof.
  destruct (@rotation_takes_effect_iff toy_crypto toy_sha256 toy_ed25519 200 aci (replicate 32 60) [0; 0; 3] toy_store toy_rotated) as (k & Ek & Hg & _ & Hold).
  - apply NoDup_singleton.
  - intros id v Hin. cbn in Hin. apply list_elem_of_singleton in Hin. injection Hin as -> _. lia.
  - repeat constructor; vm_compute; try discriminate; reflexivity.
  - unfold toy_rotated. rewrite (surjective_pairing (rotateEcSignedPreKey _ _ _ _ toy_store)) at 1. f_equal; vm_compute; reflexivity.
  - change (generateEcSignedPreKeyId [0; 0; 3]) with 3 in Ek. rewrite Ek in *. split; [by exists k|].
    rewrite Hold; [split; reflexivity|]. exists 7, toy_spk. split; [left|lia].
Defined.
