(* ===== verification/GroupTypes.v ===== *)
(** * Group state and group changes ([internal/groups/types.ts])

    The decrypted types.  The numeric enums are numbers, as values of other
    numbers come from the wire.  A field that a server derives is an option in
    a change; a state keeps the option, since the validation of a submission
    applies it to a copy of the state before the field is there.  The encrypted
    types, which hold the same fields as ciphertexts, are left out. *)
From S2P Require Import Prelude Utf8.

(** [MemberRole] *)
Definition ROLE_UNKNOWN : Z := 0.
Definition ROLE_DEFAULT : Z := 1.
Definition ROLE_ADMINISTRATOR : Z := 2.

(** [AccessRequired] *)
Definition ACCESS_UNKNOWN : Z := 0.
Definition ACCESS_ANY : Z := 1.
Definition ACCESS_MEMBER : Z := 2.
Definition ACCESS_ADMINISTRATOR : Z := 3.
Definition ACCESS_UNSATISFIABLE : Z := 4.

(** [EnabledState] *)
Definition STATE_UNKNOWN : Z := 0.
Definition STATE_ENABLED : Z := 1.
Definition STATE_DISABLED : Z := 2.

Record AccessControl := { ac_attributes : Z; ac_members : Z; ac_addFromInviteLink : Z; ac_memberLabel : Z }.

(** ** The state of a group *)
Record DecryptedMember := {
  mb_aciBytes : bytes; mb_role : Z; mb_profileKey : bytes; mb_joinedAtRevision : option Z; mb_pniBytes : bytes;
  mb_labelEmoji : jsstring; mb_labelString : jsstring }.

Record DecryptedPendingMember := {
  pn_serviceIdBytes : bytes; pn_role : Z; pn_addedByAci : option bytes; pn_timestamp : option Z;
  pn_serviceIdCipherText : bytes; pn_quarantined : bool }.

Record DecryptedRequestingMember := {
  rq_aciBytes : bytes; rq_profileKey : bytes; rq_timestamp : option Z; rq_aciCipherText : option bytes;
  rq_profileKeyCipherText : option bytes; rq_quarantined : bool }.

Record DecryptedBannedMember := {
  bn_serviceIdBytes : bytes; bn_timestamp : option Z; bn_serviceIdCipherText : option bytes; bn_quarantined : bool }.

Record DecryptedGroup := {
  g_title : jsstring; g_avatar : jsstring; g_disappearingMessagesTimer : Z; g_accessControl : AccessControl; g_revision : Z;
  g_members : list DecryptedMember; g_pendingMembers : list DecryptedPendingMember;
  g_requestingMembers : list DecryptedRequestingMember; g_inviteLinkPassword : bytes; g_description : jsstring;
  g_isAnnouncementGroup : Z; g_bannedMembers : list DecryptedBannedMember; g_terminated : bool }.

(** ** A change *)
Record DecryptedAddMember := { am_aciBytes : bytes; am_role : Z; am_profileKey : bytes; am_joinedAtRevision : option Z }.
Record DecryptedProfileKeyUpdate := { pk_aciBytes : bytes; pk_profileKey : bytes }.

(** Both promotions; [pp_pniBytes] is that of the PNI-to-ACI promotion. *)
Record DecryptedPendingMemberPromotion := {
  pp_aciBytes : bytes; pp_profileKey : bytes; pp_role : option Z; pp_joinedAtRevision : option Z; pp_pniBytes : bytes }.

Record DecryptedAddPendingMember := {
  ap_serviceIdBytes : bytes; ap_role : Z; ap_addedByAci : option bytes; ap_timestamp : option Z;
  ap_serviceIdCipherText : option bytes; ap_quarantined : bool }.
Record DecryptedPendingMemberRemoval := { pr_serviceIdBytes : bytes; pr_serviceIdCipherText : bytes }.
Record DecryptedDeleteBannedMember := { db_serviceIdBytes : bytes; db_serviceIdCipherText : option bytes }.
Record DecryptedApproveMember := { ar_aciBytes : bytes; ar_role : Z }.
Record DecryptedModifyMemberRole := { mr_aciBytes : bytes; mr_role : Z }.
Record DecryptedModifyMemberLabel := { ml_aciBytes : bytes; ml_labelEmoji : jsstring; ml_labelString : jsstring }.

(** [DecryptedAddRequestingMember] and [DecryptedAddBannedMember] have the
    fields of the stored entries. *)
Record DecryptedGroupChange := {
  ch_editorServiceIdBytes : bytes; ch_revision : Z;
  ch_newMembers : list DecryptedAddMember; ch_deleteMembers : list bytes;
  ch_modifyMemberRoles : list DecryptedModifyMemberRole; ch_modifiedProfileKeys : list DecryptedProfileKeyUpdate;
  ch_newPendingMembers : list DecryptedAddPendingMember; ch_deletePendingMembers : list DecryptedPendingMemberRemoval;
  ch_promotePendingMembers : list DecryptedPendingMemberPromotion;
  ch_newTitle : option jsstring; ch_newAvatar : option jsstring; ch_newTimer : option Z;
  ch_newAttributeAccess : option Z; ch_newMemberAccess : option Z; ch_newInviteLinkAccess : option Z; ch_newMemberLabelAccess : option Z;
  ch_newRequestingMembers : list DecryptedRequestingMember; ch_deleteRequestingMembers : list bytes;
  ch_promoteRequestingMembers : list DecryptedApproveMember;
  ch_newInviteLinkPassword : option bytes; ch_newDescription : option jsstring; ch_newIsAnnouncementGroup : option Z;
  ch_newBannedMembers : list DecryptedBannedMember; ch_deleteBannedMembers : list DecryptedDeleteBannedMember;
  ch_promotePendingPniAciMembers : list DecryptedPendingMemberPromotion;
  ch_modifyMemberLabels : list DecryptedModifyMemberLabel; ch_terminate : option bool }.

Definition defaultAccessControl : AccessControl := {|
  ac_attributes := ACCESS_MEMBER; ac_members := ACCESS_MEMBER; ac_addFromInviteLink := ACCESS_UNSATISFIABLE;
  ac_memberLabel := ACCESS_ADMINISTRATOR |}.

Definition emptyGroupChange (editorServiceIdBytes : bytes) (revision : Z) : DecryptedGroupChange := {|
  ch_editorServiceIdBytes := editorServiceIdBytes; ch_revision := revision;
  ch_newMembers := []; ch_deleteMembers := []; ch_modifyMemberRoles := []; ch_modifiedProfileKeys := [];
  ch_newPendingMembers := []; ch_deletePendingMembers := []; ch_promotePendingMembers := [];
  ch_newTitle := None; ch_newAvatar := None; ch_newTimer := None;
  ch_newAttributeAccess := None; ch_newMemberAccess := None; ch_newInviteLinkAccess := None; ch_newMemberLabelAccess := None;
  ch_newRequestingMembers := []; ch_deleteRequestingMembers := []; ch_promoteRequestingMembers := [];
  ch_newInviteLinkPassword := None; ch_newDescription := None; ch_newIsAnnouncementGroup := None;
  ch_newBannedMembers := []; ch_deleteBannedMembers := []; ch_promotePendingPniAciMembers := []; ch_modifyMemberLabels := [];
  ch_terminate := None |}.

(** ** Identifiers ([protocol/zk/groups/uid-struct.ts], [crypto/utils.ts]) *)
Definition SERVICE_ID_ACI : Z := 0.
Definition SERVICE_ID_PNI : Z := 1.

Definition isNilUuid (uuid : bytes) : bool := (len uuid =? 16) && forallb (fun byte => byte =? 0) uuid.

(** [constantTimeEqual] of two byte arrays ([Crypto.constantTimeEqual_spec]). *)
Definition bytesEqual (a b : bytes) : bool := bool_decide (a = b).

Lemma bytesEqual_true a b : bytesEqual a b = true <-> a = b.
Proof. apply bool_decide_eq_true. Qed.
Lemma bytesEqual_false a b : bytesEqual a b = false <-> a <> b.
Proof. apply bool_decide_eq_false. Qed.
Lemma bytesEqual_refl a : bytesEqual a a = true.
Proof. by apply bytesEqual_true. Qed.

(** [b[0] === kind] *)
Definition kind_is (kind : Z) (serviceId : bytes) : bool := bool_decide (head serviceId = Some kind).
