(* ===== verification/GroupAccess.v ===== *)
(** * Authorization of group actions ([groups/access-control.ts],
    [groups/change-authorization.ts])

    The table of permissions by role, and the check of every action that a
    change carries against the state before it.  An absent optional boolean of
    a context is [false], as the source compares with [true]. *)
From S2P Require Import Prelude Utf8 GroupTypes.

(** ** Actions *)
Inductive GroupAction :=
  | MODIFY_TITLE | MODIFY_AVATAR | MODIFY_DESCRIPTION | MODIFY_DISAPPEARING_MESSAGES
  | ADD_MEMBER | REMOVE_MEMBER | MODIFY_MEMBER_ROLE | MODIFY_MEMBER_LABEL | MODIFY_MEMBER_PROFILE_KEY
  | MODIFY_ATTRIBUTES_ACCESS | MODIFY_MEMBERS_ACCESS | MODIFY_INVITE_LINK_ACCESS | MODIFY_INVITE_LINK_PASSWORD
  | MODIFY_ANNOUNCEMENTS | MODIFY_MEMBER_LABEL_ACCESS
  | BAN_MEMBER | UNBAN_MEMBER
  | ADD_MEMBER_PENDING_PROFILE_KEY | DELETE_MEMBER_PENDING_PROFILE_KEY
  | PROMOTE_MEMBER_PENDING_PROFILE_KEY | PROMOTE_MEMBER_PENDING_PNI_ACI_PROFILE_KEY
  | ADD_MEMBER_PENDING_ADMIN_APPROVAL | DELETE_MEMBER_PENDING_ADMIN_APPROVAL | PROMOTE_MEMBER_PENDING_ADMIN_APPROVAL
  | TERMINATE_GROUP | SEND_MESSAGE.

#[export] Instance GroupAction_eq_dec : EqDecision GroupAction.
Proof. solve_decision. Defined.

(** The value of the enum. *)
Definition action_name (a : GroupAction) : string :=
  match a with
  | MODIFY_TITLE => "MODIFY_TITLE" | MODIFY_AVATAR => "MODIFY_AVATAR" | MODIFY_DESCRIPTION => "MODIFY_DESCRIPTION"
  | MODIFY_DISAPPEARING_MESSAGES => "MODIFY_DISAPPEARING_MESSAGES" | ADD_MEMBER => "ADD_MEMBER" | REMOVE_MEMBER => "REMOVE_MEMBER"
  | MODIFY_MEMBER_ROLE => "MODIFY_MEMBER_ROLE" | MODIFY_MEMBER_LABEL => "MODIFY_MEMBER_LABEL"
  | MODIFY_MEMBER_PROFILE_KEY => "MODIFY_MEMBER_PROFILE_KEY" | MODIFY_ATTRIBUTES_ACCESS => "MODIFY_ATTRIBUTES_ACCESS"
  | MODIFY_MEMBERS_ACCESS => "MODIFY_MEMBERS_ACCESS" | MODIFY_INVITE_LINK_ACCESS => "MODIFY_INVITE_LINK_ACCESS"
  | MODIFY_INVITE_LINK_PASSWORD => "MODIFY_INVITE_LINK_PASSWORD" | MODIFY_ANNOUNCEMENTS => "MODIFY_ANNOUNCEMENTS"
  | MODIFY_MEMBER_LABEL_ACCESS => "MODIFY_MEMBER_LABEL_ACCESS" | BAN_MEMBER => "BAN_MEMBER" | UNBAN_MEMBER => "UNBAN_MEMBER"
  | ADD_MEMBER_PENDING_PROFILE_KEY => "ADD_MEMBER_PENDING_PROFILE_KEY"
  | DELETE_MEMBER_PENDING_PROFILE_KEY => "DELETE_MEMBER_PENDING_PROFILE_KEY"
  | PROMOTE_MEMBER_PENDING_PROFILE_KEY => "PROMOTE_MEMBER_PENDING_PROFILE_KEY"
  | PROMOTE_MEMBER_PENDING_PNI_ACI_PROFILE_KEY => "PROMOTE_MEMBER_PENDING_PNI_ACI_PROFILE_KEY"
  | ADD_MEMBER_PENDING_ADMIN_APPROVAL => "ADD_MEMBER_PENDING_ADMIN_APPROVAL"
  | DELETE_MEMBER_PENDING_ADMIN_APPROVAL => "DELETE_MEMBER_PENDING_ADMIN_APPROVAL"
  | PROMOTE_MEMBER_PENDING_ADMIN_APPROVAL => "PROMOTE_MEMBER_PENDING_ADMIN_APPROVAL"
  | TERMINATE_GROUP => "TERMINATE_GROUP" | SEND_MESSAGE => "SEND_MESSAGE"
  end.

Definition satisfiesLiveGroupAdministratorInvariant (group : DecryptedGroup) : bool :=
  g_terminated group || existsb (fun member => mb_role member =? ROLE_ADMINISTRATOR) (g_members group).

Record GroupActionContext := {
  cx_targetAciBytes : option bytes; cx_targetServiceIdBytes : option bytes; cx_assignedRole : option Z }.
Definition no_context : GroupActionContext := {| cx_targetAciBytes := None; cx_targetServiceIdBytes := None; cx_assignedRole := None |}.

Record GroupActionAuthorizationContext := {
  ax_requesterIsBanned : bool; ax_targetIsRequester : bool; ax_assignedRole : option Z }.

(** ** Members *)
Definition findMember (group : DecryptedGroup) (aciBytes : bytes) : option DecryptedMember :=
  List.find (fun member => bytesEqual (mb_aciBytes member) aciBytes) (g_members group).

Definition getMemberRole (group : DecryptedGroup) (aciBytes : bytes) : Z :=
  default ROLE_UNKNOWN (mb_role <$> findMember group aciBytes).

Definition isAdmin (group : DecryptedGroup) (aciBytes : bytes) : bool := getMemberRole group aciBytes =? ROLE_ADMINISTRATOR.
Definition isMember (group : DecryptedGroup) (aciBytes : bytes) : bool := bool_decide (is_Some (findMember group aciBytes)).
Definition isPending (group : DecryptedGroup) (serviceIdBytes : bytes) : bool :=
  existsb (fun pending => bytesEqual (pn_serviceIdBytes pending) serviceIdBytes) (g_pendingMembers group).
Definition isBanned (group : DecryptedGroup) (serviceIdBytes : bytes) : bool :=
  existsb (fun banned => bytesEqual (bn_serviceIdBytes banned) serviceIdBytes) (g_bannedMembers group).

(** ** The table of permissions *)
Definition meetsAccessRequirement (memberRole requirement : Z) : bool :=
  if requirement =? ACCESS_ANY then true
  else if requirement =? ACCESS_MEMBER then (memberRole =? ROLE_DEFAULT) || (memberRole =? ROLE_ADMINISTRATOR)
  else if requirement =? ACCESS_ADMINISTRATOR then memberRole =? ROLE_ADMINISTRATOR
  else false.

Definition isRoleAccessRequirement (requirement : Z) : bool :=
  (requirement =? ACCESS_MEMBER) || (requirement =? ACCESS_ADMINISTRATOR).
Definition isInviteLinkAccessRequirement (requirement : Z) : bool :=
  (requirement =? ACCESS_UNSATISFIABLE) || (requirement =? ACCESS_ANY) || (requirement =? ACCESS_ADMINISTRATOR).
Definition isStoredMemberRole (role : Z) : bool := (role =? ROLE_DEFAULT) || (role =? ROLE_ADMINISTRATOR).

Definition canAssignInitialRole (requesterRole : Z) (assignedRole : option Z) : bool :=
  bool_decide (assignedRole = Some ROLE_DEFAULT) ||
  (bool_decide (assignedRole = Some ROLE_ADMINISTRATOR) && (requesterRole =? ROLE_ADMINISTRATOR)).

Definition meetsRoleAccessRequirement (memberRole requirement : Z) : bool :=
  isRoleAccessRequirement requirement && meetsAccessRequirement memberRole requirement.

Definition canRolePerformAction (group : DecryptedGroup) (role : Z) (action : GroupAction) (context : GroupActionAuthorizationContext) : bool :=
  let ac := g_accessControl group in
  let admin := role =? ROLE_ADMINISTRATOR in
  let self := ax_targetIsRequester context in
  if ax_requesterIsBanned context then false
  else match action with
  | SEND_MESSAGE => if g_isAnnouncementGroup group =? STATE_ENABLED then admin else (role =? ROLE_DEFAULT) || admin
  | MODIFY_TITLE | MODIFY_AVATAR | MODIFY_DESCRIPTION | MODIFY_DISAPPEARING_MESSAGES => meetsRoleAccessRequirement role (ac_attributes ac)
  | ADD_MEMBER =>
      canAssignInitialRole role (ax_assignedRole context) &&
      (meetsRoleAccessRequirement role (ac_members ac) || (self && (ac_addFromInviteLink ac =? ACCESS_ANY)))
  | REMOVE_MEMBER => admin || self
  | MODIFY_MEMBER_ROLE => admin
  | MODIFY_MEMBER_LABEL => self || meetsRoleAccessRequirement role (ac_memberLabel ac)
  | MODIFY_MEMBER_PROFILE_KEY => self
  | MODIFY_ATTRIBUTES_ACCESS | MODIFY_MEMBERS_ACCESS | MODIFY_INVITE_LINK_ACCESS | MODIFY_INVITE_LINK_PASSWORD
  | MODIFY_MEMBER_LABEL_ACCESS => admin
  | MODIFY_ANNOUNCEMENTS => admin
  | BAN_MEMBER | UNBAN_MEMBER => admin
  | ADD_MEMBER_PENDING_PROFILE_KEY => canAssignInitialRole role (ax_assignedRole context) && meetsRoleAccessRequirement role (ac_members ac)
  | DELETE_MEMBER_PENDING_PROFILE_KEY => admin || self
  | PROMOTE_MEMBER_PENDING_PROFILE_KEY | PROMOTE_MEMBER_PENDING_PNI_ACI_PROFILE_KEY => self
  | ADD_MEMBER_PENDING_ADMIN_APPROVAL => self && (ac_addFromInviteLink ac =? ACCESS_ADMINISTRATOR)
  | DELETE_MEMBER_PENDING_ADMIN_APPROVAL => admin || self
  | PROMOTE_MEMBER_PENDING_ADMIN_APPROVAL | TERMINATE_GROUP => admin
  end.

Definition requester_aci (serviceIdBytes : bytes) : option bytes :=
  if kind_is SERVICE_ID_ACI serviceIdBytes then Some (drop 1 serviceIdBytes) else None.

Definition canPerformAction (group : DecryptedGroup) (requesterServiceIdBytes : bytes) (action : GroupAction) (context : GroupActionContext) : bool :=
  if negb (len requesterServiceIdBytes =? 17) ||
     (negb (kind_is SERVICE_ID_ACI requesterServiceIdBytes) && negb (kind_is SERVICE_ID_PNI requesterServiceIdBytes)) then false
  else
    let requesterAciBytes := requester_aci requesterServiceIdBytes in
    let role := match requesterAciBytes with None => ROLE_UNKNOWN | Some aci => getMemberRole group aci end in
    let targetsRequesterAci :=
      match requesterAciBytes, cx_targetAciBytes context with Some aci, Some target => bytesEqual target aci | _, _ => false end in
    let targetsRequesterServiceId :=
      match cx_targetServiceIdBytes context with Some target => bytesEqual target requesterServiceIdBytes | None => false end in
    canRolePerformAction group role action {|
      ax_requesterIsBanned := isBanned group requesterServiceIdBytes;
      ax_targetIsRequester := targetsRequesterAci || targetsRequesterServiceId;
      ax_assignedRole := cx_assignedRole context |}.

(** ** The actions of a change *)
Definition on_aci (aciBytes : bytes) : GroupActionContext :=
  {| cx_targetAciBytes := Some aciBytes; cx_targetServiceIdBytes := None; cx_assignedRole := None |}.
Definition on_service_id (serviceIdBytes : bytes) : GroupActionContext :=
  {| cx_targetAciBytes := None; cx_targetServiceIdBytes := Some serviceIdBytes; cx_assignedRole := None |}.

Definition authorize (state : DecryptedGroup) (change : DecryptedGroupChange) (action : GroupAction) (context : GroupActionContext) : list string :=
  if canPerformAction state (ch_editorServiceIdBytes change) action context then [] else ["Unauthorized action: " +:+ action_name action].

(** [find] of the pending member with the ACI, or the PNI, of [uuid]. *)
Definition find_pending (kind : Z) (uuid : bytes) (state : DecryptedGroup) : option DecryptedPendingMember :=
  List.find (fun member => kind_is kind (pn_serviceIdBytes member) && bytesEqual (drop 1 (pn_serviceIdBytes member)) uuid) (g_pendingMembers state).

Definition conflicting_aliases (state : DecryptedGroup) (promotion : DecryptedPendingMemberPromotion) : list string :=
  match find_pending SERVICE_ID_PNI (pp_pniBytes promotion) state, find_pending SERVICE_ID_ACI (pp_aciBytes promotion) state with
  | Some pniPending, Some aciPending =>
      if negb (pn_role pniPending =? pn_role aciPending)
      then ["Unauthorized action: PROMOTE_MEMBER_PENDING_PNI_ACI_PROFILE_KEY has conflicting pending alias roles"] else []
  | _, _ => []
  end.

Definition if_some {A B} (x : option A) (l : list B) : list B := match x with Some _ => l | None => [] end.

Definition validateChangeAuthorization (state : DecryptedGroup) (change : DecryptedGroupChange) : list string :=
  let check := authorize state change in
  concat (map (fun m => check ADD_MEMBER {| cx_targetAciBytes := Some (am_aciBytes m); cx_targetServiceIdBytes := None; cx_assignedRole := Some (am_role m) |})
            (ch_newMembers change)) ++
  concat (map (fun aciBytes => check REMOVE_MEMBER (on_aci aciBytes)) (ch_deleteMembers change)) ++
  concat (map (fun m => check MODIFY_MEMBER_ROLE (on_aci (mr_aciBytes m))) (ch_modifyMemberRoles change)) ++
  concat (map (fun m => check MODIFY_MEMBER_PROFILE_KEY (on_aci (pk_aciBytes m))) (ch_modifiedProfileKeys change)) ++
  concat (map (fun m => check ADD_MEMBER_PENDING_PROFILE_KEY
                 {| cx_targetAciBytes := None; cx_targetServiceIdBytes := Some (ap_serviceIdBytes m); cx_assignedRole := Some (ap_role m) |})
            (ch_newPendingMembers change)) ++
  concat (map (fun r => check DELETE_MEMBER_PENDING_PROFILE_KEY (on_service_id (pr_serviceIdBytes r))) (ch_deletePendingMembers change)) ++
  concat (map (fun p => check PROMOTE_MEMBER_PENDING_PROFILE_KEY (on_aci (pp_aciBytes p))) (ch_promotePendingMembers change)) ++
  concat (map (fun p => check PROMOTE_MEMBER_PENDING_PNI_ACI_PROFILE_KEY (on_service_id (SERVICE_ID_PNI :: pp_pniBytes p)) ++ conflicting_aliases state p)
            (ch_promotePendingPniAciMembers change)) ++
  if_some (ch_newTitle change) (check MODIFY_TITLE no_context) ++
  if_some (ch_newAvatar change) (check MODIFY_AVATAR no_context) ++
  if_some (ch_newTimer change) (check MODIFY_DISAPPEARING_MESSAGES no_context) ++
  if_some (ch_newDescription change) (check MODIFY_DESCRIPTION no_context) ++
  if_some (ch_newAttributeAccess change) (check MODIFY_ATTRIBUTES_ACCESS no_context) ++
  if_some (ch_newMemberAccess change) (check MODIFY_MEMBERS_ACCESS no_context) ++
  if_some (ch_newInviteLinkAccess change) (check MODIFY_INVITE_LINK_ACCESS no_context) ++
  if_some (ch_newMemberLabelAccess change) (check MODIFY_MEMBER_LABEL_ACCESS no_context) ++
  if_some (ch_newInviteLinkPassword change) (check MODIFY_INVITE_LINK_PASSWORD no_context) ++
  if_some (ch_newIsAnnouncementGroup change) (check MODIFY_ANNOUNCEMENTS no_context) ++
  concat (map (fun m => check ADD_MEMBER_PENDING_ADMIN_APPROVAL (on_aci (rq_aciBytes m))) (ch_newRequestingMembers change)) ++
  concat (map (fun aciBytes => check DELETE_MEMBER_PENDING_ADMIN_APPROVAL (on_aci aciBytes)) (ch_deleteRequestingMembers change)) ++
  concat (map (fun p => check PROMOTE_MEMBER_PENDING_ADMIN_APPROVAL (on_aci (ar_aciBytes p))) (ch_promoteRequestingMembers change)) ++
  concat (map (fun m => check BAN_MEMBER (on_service_id (bn_serviceIdBytes m))) (ch_newBannedMembers change)) ++
  concat (map (fun m => check UNBAN_MEMBER (on_service_id (db_serviceIdBytes m))) (ch_deleteBannedMembers change)) ++
  concat (map (fun m => check MODIFY_MEMBER_LABEL (on_aci (ml_aciBytes m))) (ch_modifyMemberLabels change)) ++
  (if bool_decide (ch_terminate change = Some true) then check TERMINATE_GROUP no_context else []).
