(* ===== verification/GroupChange.v ===== *)
(** * Validation and application of group changes ([groups/change-actions.ts])

    The application of a change mutates a copy of the state action by action
    and throws at the first that does not fit; the validation applies every
    action alone to a shadow of the state and collects the messages. *)
From stdpp Require Import pretty.
From S2P Require Import Prelude Utf8 GroupTypes GroupAccess.

(** ** Domains of stored states and changes *)
Definition at_index (label : string) (index : nat) : string := label +:+ "[" +:+ pretty (N.of_nat index) +:+ "]".

(** [for (const [index, x] of l.entries()) errors.push(...)] *)
Definition each {A} (f : nat -> A -> list string) (l : list A) : list string := concat (imap f l).

Definition nilUuidError (value : bytes) (label : string) : list string :=
  if isNilUuid value then [label +:+ " uses the reserved nil UUID"] else [].
Definition nilServiceIdError (value : bytes) (label : string) : list string :=
  if (len value =? 17) && isNilUuid (drop 1 value) then [label +:+ " uses the reserved nil UUID"] else [].

Definition validateGroupIdentifiers (group : DecryptedGroup) : list string :=
  each (fun i m => nilUuidError (mb_aciBytes m) (at_index "members" i +:+ ".aciBytes") ++
                   (if len (mb_pniBytes m) >? 0 then nilUuidError (mb_pniBytes m) (at_index "members" i +:+ ".pniBytes") else []))
    (g_members group) ++
  each (fun i m => nilServiceIdError (pn_serviceIdBytes m) (at_index "pendingMembers" i +:+ ".serviceIdBytes") ++
                   match pn_addedByAci m with Some a => nilUuidError a (at_index "pendingMembers" i +:+ ".addedByAci") | None => [] end)
    (g_pendingMembers group) ++
  each (fun i m => nilUuidError (rq_aciBytes m) (at_index "requestingMembers" i +:+ ".aciBytes")) (g_requestingMembers group) ++
  each (fun i m => nilServiceIdError (bn_serviceIdBytes m) (at_index "bannedMembers" i +:+ ".serviceIdBytes")) (g_bannedMembers group).

Definition push_if (b : bool) (message : string) : list string := if b then [message] else [].

Definition validateGroupAccessControl (group : DecryptedGroup) : list string :=
  let ac := g_accessControl group in
  push_if (negb (isRoleAccessRequirement (ac_attributes ac))) "accessControl.attributes is outside its §6.7 domain" ++
  push_if (negb (isRoleAccessRequirement (ac_members ac))) "accessControl.members is outside its §6.7 domain" ++
  push_if (negb (isRoleAccessRequirement (ac_memberLabel ac))) "accessControl.memberLabel is outside its §6.7 domain" ++
  push_if (negb (isInviteLinkAccessRequirement (ac_addFromInviteLink ac))) "accessControl.addFromInviteLink is outside its §6.7 domain".

Definition validateGroupMemberRoles (group : DecryptedGroup) : list string :=
  each (fun i m => push_if (negb (isStoredMemberRole (mb_role m))) (at_index "members" i +:+ ".role is outside its §6.8 domain")) (g_members group) ++
  each (fun i m => push_if (negb (isStoredMemberRole (pn_role m))) (at_index "pendingMembers" i +:+ ".role is outside its §6.8 domain")) (g_pendingMembers group).

Definition isCanonicalTimestamp (value : option Z) : bool :=
  match value with Some v => isSafeInteger v && (v >=? 0) | None => false end.

Definition joined_ok (revision : Z) (joinedAtRevision : option Z) : bool :=
  match joinedAtRevision with Some j => isSafeInteger j && negb (j <? 0) && negb (j >? revision) | None => false end.

Definition timestamp_errors {A} (timestamp : A -> option Z) (label : string) (l : list A) : list string :=
  each (fun i e => push_if (negb (isCanonicalTimestamp (timestamp e))) (at_index label i +:+ ".timestamp is outside its §7.8 domain")) l.

Definition validateGroupCanonicalFields (group : DecryptedGroup) : list string :=
  push_if (negb (isSafeInteger (g_revision group)) || (g_revision group <? 0)) "revision must be a non-negative safe integer" ++
  push_if (negb (g_isAnnouncementGroup group =? STATE_ENABLED) && negb (g_isAnnouncementGroup group =? STATE_DISABLED))
    "isAnnouncementGroup is outside its §7.8 domain" ++
  push_if (negb (len (g_inviteLinkPassword group) =? 0) && negb (len (g_inviteLinkPassword group) =? 16))
    "inviteLinkPassword must be empty or exactly 16 bytes" ++
  each (fun i m => push_if (negb (joined_ok (g_revision group) (mb_joinedAtRevision m)))
                     (at_index "members" i +:+ ".joinedAtRevision is outside its §7.8 domain")) (g_members group) ++
  timestamp_errors pn_timestamp "pendingMembers" (g_pendingMembers group) ++
  timestamp_errors rq_timestamp "requestingMembers" (g_requestingMembers group) ++
  timestamp_errors bn_timestamp "bannedMembers" (g_bannedMembers group).

Definition aci_errors {A} (aci : A -> bytes) (label : string) (l : list A) : list string :=
  each (fun i m => nilUuidError (aci m) (at_index label i +:+ ".aciBytes")) l.
Definition service_errors {A} (serviceId : A -> bytes) (label : string) (l : list A) : list string :=
  each (fun i m => nilServiceIdError (serviceId m) (at_index label i +:+ ".serviceIdBytes")) l.

Definition validateChangeIdentifiers (change : DecryptedGroupChange) : list string :=
  nilServiceIdError (ch_editorServiceIdBytes change) "editorServiceIdBytes" ++
  aci_errors am_aciBytes "newMembers" (ch_newMembers change) ++
  aci_errors pk_aciBytes "modifiedProfileKeys" (ch_modifiedProfileKeys change) ++
  aci_errors pp_aciBytes "promotePendingMembers" (ch_promotePendingMembers change) ++
  each (fun i m => nilUuidError (pp_aciBytes m) (at_index "promotePendingPniAciMembers" i +:+ ".aciBytes") ++
                   (if len (pp_pniBytes m) >? 0 then nilUuidError (pp_pniBytes m) (at_index "promotePendingPniAciMembers" i +:+ ".pniBytes") else []))
    (ch_promotePendingPniAciMembers change) ++
  each (fun i aciBytes => nilUuidError aciBytes (at_index "deleteMembers" i)) (ch_deleteMembers change) ++
  aci_errors mr_aciBytes "modifyMemberRoles" (ch_modifyMemberRoles change) ++
  each (fun i m => nilServiceIdError (ap_serviceIdBytes m) (at_index "newPendingMembers" i +:+ ".serviceIdBytes") ++
                   match ap_addedByAci m with Some a => nilUuidError a (at_index "newPendingMembers" i +:+ ".addedByAci") | None => [] end)
    (ch_newPendingMembers change) ++
  service_errors pr_serviceIdBytes "deletePendingMembers" (ch_deletePendingMembers change) ++
  aci_errors rq_aciBytes "newRequestingMembers" (ch_newRequestingMembers change) ++
  each (fun i aciBytes => nilUuidError aciBytes (at_index "deleteRequestingMembers" i)) (ch_deleteRequestingMembers change) ++
  aci_errors ar_aciBytes "promoteRequestingMembers" (ch_promoteRequestingMembers change) ++
  service_errors bn_serviceIdBytes "newBannedMembers" (ch_newBannedMembers change) ++
  service_errors db_serviceIdBytes "deleteBannedMembers" (ch_deleteBannedMembers change) ++
  aci_errors ml_aciBytes "modifyMemberLabels" (ch_modifyMemberLabels change).

Definition outside (ok : Z -> bool) (value : option Z) (message : string) : list string :=
  match value with Some v => push_if (negb (ok v)) message | None => [] end.

Definition validateChangeAccessControl (change : DecryptedGroupChange) : list string :=
  outside isRoleAccessRequirement (ch_newAttributeAccess change) "newAttributeAccess is outside its §6.7 domain" ++
  outside isRoleAccessRequirement (ch_newMemberAccess change) "newMemberAccess is outside its §6.7 domain" ++
  outside isRoleAccessRequirement (ch_newMemberLabelAccess change) "newMemberLabelAccess is outside its §6.7 domain" ++
  outside isInviteLinkAccessRequirement (ch_newInviteLinkAccess change) "newInviteLinkAccess is outside its §6.7 domain".

Definition role_errors {A} (role : A -> option Z) (label : string) (l : list A) : list string :=
  each (fun i m => outside isStoredMemberRole (role m) (at_index label i +:+ ".role is outside its §6.8 domain")) l.

Definition validateChangeMemberRoles (change : DecryptedGroupChange) : list string :=
  role_errors (fun m => Some (am_role m)) "newMembers" (ch_newMembers change) ++
  role_errors pp_role "promotePendingMembers" (ch_promotePendingMembers change) ++
  role_errors pp_role "promotePendingPniAciMembers" (ch_promotePendingPniAciMembers change) ++
  role_errors (fun m => Some (ap_role m)) "newPendingMembers" (ch_newPendingMembers change) ++
  role_errors (fun m => Some (mr_role m)) "modifyMemberRoles" (ch_modifyMemberRoles change) ++
  role_errors (fun m => Some (ar_role m)) "promoteRequestingMembers" (ch_promoteRequestingMembers change).

(** ** Derived fields *)
Inductive DecryptedGroupChangeForm := submission | canonical.
#[export] Instance DecryptedGroupChangeForm_eq_dec : EqDecision DecryptedGroupChangeForm.
Proof. solve_decision. Defined.

Definition expectDerived (form : DecryptedGroupChangeForm) (present : bool) (label : string) : list string :=
  match form, present with
  | canonical, false => [label +:+ " must be present in canonical form"]
  | submission, true => [label +:+ " must be absent in submission form"]
  | _, _ => []
  end.

Definition is_present {A} (x : option A) : bool := bool_decide (is_Some x).

Definition promotion_errors (form : DecryptedGroupChangeForm) (revision : Z) (label : string)
    (expectedRole : DecryptedPendingMemberPromotion -> option Z) (l : list DecryptedPendingMemberPromotion) : list string :=
  let canon := bool_decide (form = canonical) in
  each (fun i p =>
    expectDerived form (is_present (pp_role p)) (at_index label i +:+ ".role") ++
    expectDerived form (is_present (pp_joinedAtRevision p)) (at_index label i +:+ ".joinedAtRevision") ++
    push_if (canon && negb (bool_decide (pp_role p = expectedRole p))) (at_index label i +:+ ".role must equal the pending role") ++
    push_if (canon && negb (bool_decide (pp_joinedAtRevision p = Some revision)))
      (at_index label i +:+ ".joinedAtRevision must equal the change revision")) l.

(** [bytesEqual] of an absent [addedByAci] raises a [TypeError]. *)
Definition pending_errors (form : DecryptedGroupChangeForm) (editor : bytes) (i : nat) (m : DecryptedAddPendingMember) : result (list string) :=
  let label := at_index "newPendingMembers" i in
  let derived := expectDerived form (is_present (ap_addedByAci m)) (label +:+ ".addedByAci") ++
                 expectDerived form (is_present (ap_timestamp m)) (label +:+ ".timestamp") in
  match form with
  | submission => Ok derived
  | canonical =>
      wrong ← (if negb (kind_is SERVICE_ID_ACI editor) then Ok true
               else match ap_addedByAci m with
                    | Some a => Ok (negb (bytesEqual a (drop 1 editor)))
                    | None => Throw (CodedError "TypeError" "undefined")
                    end);
      Ok (derived ++ push_if wrong (label +:+ ".addedByAci must equal sourceUserId") ++
          push_if (negb (isCanonicalTimestamp (ap_timestamp m))) (label +:+ ".timestamp is outside its §7.8 domain"))
  end.

Definition derived_timestamps {A} (form : DecryptedGroupChangeForm) (timestamp : A -> option Z) (label : string) (l : list A) : list string :=
  each (fun i e =>
    expectDerived form (is_present (timestamp e)) (at_index label i +:+ ".timestamp") ++
    push_if (bool_decide (form = canonical) && negb (isCanonicalTimestamp (timestamp e)))
      (at_index label i +:+ ".timestamp is outside its §7.8 domain")) l.

Definition validateChangeCanonicalFields (state : DecryptedGroup) (change : DecryptedGroupChange) (form : DecryptedGroupChangeForm) :
    result (list string) :=
  let canon := bool_decide (form = canonical) in
  let before :=
    push_if (negb (isSafeInteger (ch_revision change)) || (ch_revision change <? 1)) "change revision must be a positive safe integer" ++
    match ch_newIsAnnouncementGroup change with
    | Some v => push_if (negb (v =? STATE_ENABLED) && negb (v =? STATE_DISABLED)) "newIsAnnouncementGroup is outside its §7.8 domain"
    | None => []
    end ++
    match ch_newInviteLinkPassword change with
    | Some p => push_if (negb (len p =? 16)) "newInviteLinkPassword must be exactly 16 bytes"
    | None => []
    end ++
    each (fun i m =>
      expectDerived form (is_present (am_joinedAtRevision m)) (at_index "newMembers" i +:+ ".joinedAtRevision") ++
      push_if (canon && negb (bool_decide (am_joinedAtRevision m = Some (ch_revision change))))
        (at_index "newMembers" i +:+ ".joinedAtRevision must equal the change revision")) (ch_newMembers change) ++
    promotion_errors form (ch_revision change) "promotePendingMembers"
      (fun p => pn_role <$> find_pending SERVICE_ID_ACI (pp_aciBytes p) state) (ch_promotePendingMembers change) ++
    promotion_errors form (ch_revision change) "promotePendingPniAciMembers"
      (fun p => pn_role <$> find_pending SERVICE_ID_PNI (pp_pniBytes p) state) (ch_promotePendingPniAciMembers change) in
  pending ← mapM_result id (imap (pending_errors form (ch_editorServiceIdBytes change)) (ch_newPendingMembers change));
  Ok (before ++ concat pending ++
      derived_timestamps form rq_timestamp "newRequestingMembers" (ch_newRequestingMembers change) ++
      derived_timestamps form bn_timestamp "newBannedMembers" (ch_newBannedMembers change)).

(** ** Assignments to the fields of a state *)
Definition upd_group ms ps rs bs (g : DecryptedGroup) : DecryptedGroup := {|
  g_title := g_title g; g_avatar := g_avatar g; g_disappearingMessagesTimer := g_disappearingMessagesTimer g;
  g_accessControl := g_accessControl g; g_revision := g_revision g; g_members := ms; g_pendingMembers := ps; g_requestingMembers := rs;
  g_inviteLinkPassword := g_inviteLinkPassword g; g_description := g_description g; g_isAnnouncementGroup := g_isAnnouncementGroup g;
  g_bannedMembers := bs; g_terminated := g_terminated g |}.
Definition set_members ms g := upd_group ms (g_pendingMembers g) (g_requestingMembers g) (g_bannedMembers g) g.
Definition set_pendingMembers ps g := upd_group (g_members g) ps (g_requestingMembers g) (g_bannedMembers g) g.
Definition set_requestingMembers rs g := upd_group (g_members g) (g_pendingMembers g) rs (g_bannedMembers g) g.
Definition set_bannedMembers bs g := upd_group (g_members g) (g_pendingMembers g) (g_requestingMembers g) bs g.

Definition set_attributes title avatar timer description password announcement access (g : DecryptedGroup) : DecryptedGroup := {|
  g_title := title; g_avatar := avatar; g_disappearingMessagesTimer := timer; g_accessControl := access; g_revision := g_revision g;
  g_members := g_members g; g_pendingMembers := g_pendingMembers g; g_requestingMembers := g_requestingMembers g;
  g_inviteLinkPassword := password; g_description := description; g_isAnnouncementGroup := announcement;
  g_bannedMembers := g_bannedMembers g; g_terminated := g_terminated g |}.

Definition set_lifecycle revision terminated (g : DecryptedGroup) : DecryptedGroup := {|
  g_title := g_title g; g_avatar := g_avatar g; g_disappearingMessagesTimer := g_disappearingMessagesTimer g;
  g_accessControl := g_accessControl g; g_revision := revision; g_members := g_members g; g_pendingMembers := g_pendingMembers g;
  g_requestingMembers := g_requestingMembers g; g_inviteLinkPassword := g_inviteLinkPassword g; g_description := g_description g;
  g_isAnnouncementGroup := g_isAnnouncementGroup g; g_bannedMembers := g_bannedMembers g; g_terminated := terminated |}.

(** ** The actions *)
Definition INVALID_CHANGE : string := "INVALID_CHANGE: ".
Definition invalid_change (message : string) : exn := Error (INVALID_CHANGE +:+ message).
Definition require (b : bool) (message : string) : M DecryptedGroup unit := M_lift (throw_when (negb b) (invalid_change message)).

(** [findIndex] *)
Definition findIndex {A} (p : A -> bool) (l : list A) : option nat := fst <$> list_find (fun x => p x = true) l.

(** [l.filter((x) => !p(x))] *)
Definition remove_all {A} (p : A -> bool) (l : list A) : list A := List.filter (fun x => negb (p x)) l.

(** *** Deletions *)
Definition pendingTargetMatches (member : DecryptedPendingMember) (target : DecryptedPendingMemberRemoval) : bool :=
  ((len (pr_serviceIdCipherText target) >? 0) && bytesEqual (pn_serviceIdCipherText member) (pr_serviceIdCipherText target)) ||
  (negb (pn_quarantined member) && bytesEqual (pn_serviceIdBytes member) (pr_serviceIdBytes target)).

(** [x !== undefined && bytesEqual(x, y)] *)
Definition some_equal_bytes (x : option bytes) (y : bytes) : bool := match x with Some x => bytesEqual x y | None => false end.

Definition requestingTargetMatches (member : DecryptedRequestingMember) (target : bytes) : bool :=
  if len target =? 65 then some_equal_bytes (rq_aciCipherText member) target
  else negb (rq_quarantined member) && bytesEqual (rq_aciBytes member) target.

Definition banned_matches (serviceIdBytes : bytes) (cipherText : option bytes) (member : DecryptedBannedMember) : bool :=
  match cipherText with
  | Some c => some_equal_bytes (bn_serviceIdCipherText member) c
  | None => negb (bn_quarantined member) && bytesEqual (bn_serviceIdBytes member) serviceIdBytes
  end.
Definition bannedTargetMatches (member : DecryptedBannedMember) (target : DecryptedDeleteBannedMember) : bool :=
  banned_matches (db_serviceIdBytes target) (db_serviceIdCipherText target) member.

Definition is_member_aci (aciBytes : bytes) (member : DecryptedMember) : bool := bytesEqual (mb_aciBytes member) aciBytes.

Definition delete_pending (removal : DecryptedPendingMemberRemoval) : M DecryptedGroup unit := (
  do state <- M_get;
  let matches := fun member => pendingTargetMatches member removal in
  do_ require (existsb matches (g_pendingMembers state)) "Attempted to delete non-existent pending member";
  M_modify (fun s => set_pendingMembers (remove_all matches (g_pendingMembers s)) s))%st.

Definition delete_requesting (target : bytes) : M DecryptedGroup unit := (
  do state <- M_get;
  let matches := fun member => requestingTargetMatches member target in
  do_ require (existsb matches (g_requestingMembers state)) "Attempted to delete non-existent requesting member";
  M_modify (fun s => set_requestingMembers (remove_all matches (g_requestingMembers s)) s))%st.

Definition delete_banned (removal : DecryptedDeleteBannedMember) : M DecryptedGroup unit := (
  do state <- M_get;
  let matches := fun member => bannedTargetMatches member removal in
  do_ require (existsb matches (g_bannedMembers state)) "Attempted to unban non-existent banned member";
  M_modify (fun s => set_bannedMembers (remove_all matches (g_bannedMembers s)) s))%st.

Definition delete_member (aciBytes : bytes) : M DecryptedGroup unit := (
  do state <- M_get;
  do_ require (existsb (is_member_aci aciBytes) (g_members state)) "Attempted to delete non-existent member";
  M_modify (fun s => set_members (remove_all (is_member_aci aciBytes) (g_members s)) s))%st.

Definition applyDeletions (change : DecryptedGroupChange) : M DecryptedGroup unit := (
  do_ for_each delete_pending (ch_deletePendingMembers change);
  do_ for_each delete_requesting (ch_deleteRequestingMembers change);
  do_ for_each delete_banned (ch_deleteBannedMembers change);
  for_each delete_member (ch_deleteMembers change))%st.

(** *** Bans *)
Definition ban (banned : DecryptedBannedMember) : M DecryptedGroup unit := (
  do state <- M_get;
  do_ require (negb (existsb (banned_matches (bn_serviceIdBytes banned) (bn_serviceIdCipherText banned)) (g_bannedMembers state)))
    "Attempted to ban already-banned member";
  M_modify (fun s => set_bannedMembers (g_bannedMembers s ++ [{|
    bn_serviceIdBytes := bn_serviceIdBytes banned; bn_timestamp := bn_timestamp banned;
    bn_serviceIdCipherText := bn_serviceIdCipherText banned;
    bn_quarantined := is_present (bn_serviceIdCipherText banned) |}]) s))%st.

Definition applyBans (change : DecryptedGroupChange) : M DecryptedGroup unit := for_each ban (ch_newBannedMembers change).

(** *** Promotions *)
Definition assertMemberDestinationAvailable (aciBytes : bytes) (errorMessage : string) : M DecryptedGroup unit := (
  do state <- M_get; require (negb (existsb (is_member_aci aciBytes) (g_members state))) errorMessage)%st.

Definition new_member (aciBytes : bytes) (role : Z) (profileKey : bytes) (joinedAtRevision : option Z) : DecryptedMember := {|
  mb_aciBytes := aciBytes; mb_role := role; mb_profileKey := profileKey; mb_joinedAtRevision := joinedAtRevision; mb_pniBytes := [];
  mb_labelEmoji := []; mb_labelString := [] |}.
Definition memberFromPromotion (promotion : DecryptedPendingMemberPromotion) (role revision : Z) : DecryptedMember :=
  new_member (pp_aciBytes promotion) role (pp_profileKey promotion) (Some revision).

Definition append_member (m : DecryptedMember) : M DecryptedGroup unit := M_modify (fun s => set_members (g_members s ++ [m]) s).

(** [got ${b.length}] *)
Definition length_text (b : bytes) : string := pretty (N.of_nat (length b)).

Definition is_pending_id (serviceIdBytes : bytes) (member : DecryptedPendingMember) : bool := bytesEqual (pn_serviceIdBytes member) serviceIdBytes.

Definition promote_pending (revision : Z) (promotion : DecryptedPendingMemberPromotion) : M DecryptedGroup unit := (
  do_ require (len (pp_aciBytes promotion) =? 16) ("Pending promotion ACI must be 16 bytes, got " +:+ length_text (pp_aciBytes promotion));
  do_ assertMemberDestinationAvailable (pp_aciBytes promotion) "Attempted to promote pending member who is already a member";
  do state <- M_get;
  match list_find (fun m => is_pending_id (SERVICE_ID_ACI :: pp_aciBytes promotion) m = true) (g_pendingMembers state) with
  | None => M_throw (invalid_change "Attempted to promote non-existent pending member")
  | Some (pendingIndex, pending) =>
      do_ M_modify (fun s => set_pendingMembers (delete pendingIndex (g_pendingMembers s)) s);
      append_member (memberFromPromotion promotion (pn_role pending) revision)
  end)%st.

Definition promote_pni (revision : Z) (promotion : DecryptedPendingMemberPromotion) : M DecryptedGroup unit := (
  do_ require (len (pp_aciBytes promotion) =? 16) ("Pending PNI promotion ACI must be 16 bytes, got " +:+ length_text (pp_aciBytes promotion));
  do_ require (len (pp_pniBytes promotion) =? 16) ("Pending promotion PNI must be 16 bytes, got " +:+ length_text (pp_pniBytes promotion));
  do_ assertMemberDestinationAvailable (pp_aciBytes promotion) "Attempted to promote PNI/ACI member who is already a member";
  do state <- M_get;
  match list_find (fun m => is_pending_id (SERVICE_ID_PNI :: pp_pniBytes promotion) m = true) (g_pendingMembers state) with
  | None => M_throw (invalid_change "Attempted to promote PNI/ACI member not in pending list")
  | Some (pendingIndex, pending) =>
      let is_alias := is_pending_id (SERVICE_ID_ACI :: pp_aciBytes promotion) in
      do_ require (match List.find is_alias (g_pendingMembers state) with
                   | Some aciPending => pn_role aciPending =? pn_role pending
                   | None => true
                   end) "PNI-to-ACI promotion cannot consume pending aliases with different roles";
      do_ M_modify (fun s => set_pendingMembers (remove_all is_alias (delete pendingIndex (g_pendingMembers s))) s);
      append_member (memberFromPromotion promotion (pn_role pending) revision)
  end)%st.

Definition promote_requesting (revision : Z) (approval : DecryptedApproveMember) : M DecryptedGroup unit := (
  do_ assertMemberDestinationAvailable (ar_aciBytes approval) "Attempted to promote requesting member who is already a member";
  do state <- M_get;
  match list_find (fun m => bytesEqual (rq_aciBytes m) (ar_aciBytes approval) = true) (g_requestingMembers state) with
  | None => M_throw (invalid_change "Attempted to promote non-existent requesting member")
  | Some (requestingIndex, requestingMember) =>
      do_ M_modify (fun s => set_requestingMembers (delete requestingIndex (g_requestingMembers s)) s);
      append_member (new_member (ar_aciBytes approval) (ar_role approval) (rq_profileKey requestingMember) (Some revision))
  end)%st.

Definition applyPromotions (change : DecryptedGroupChange) : M DecryptedGroup unit := (
  do_ for_each (promote_pending (ch_revision change)) (ch_promotePendingMembers change);
  do_ for_each (promote_pni (ch_revision change)) (ch_promotePendingPniAciMembers change);
  for_each (promote_requesting (ch_revision change)) (ch_promoteRequestingMembers change))%st.

(** *** Additions *)
Definition add_member (m : DecryptedAddMember) : M DecryptedGroup unit := (
  do_ assertMemberDestinationAvailable (am_aciBytes m) "Attempted to add existing member";
  append_member (new_member (am_aciBytes m) (am_role m) (am_profileKey m) (am_joinedAtRevision m)))%st.

Definition add_pending (pending : DecryptedAddPendingMember) : M DecryptedGroup unit := (
  do state <- M_get;
  do_ require (negb (existsb (fun member =>
        match ap_serviceIdCipherText pending, ap_quarantined pending with
        | Some c, true => bytesEqual (pn_serviceIdCipherText member) c
        | _, _ => negb (pn_quarantined member) && bytesEqual (pn_serviceIdBytes member) (ap_serviceIdBytes pending)
        end) (g_pendingMembers state))) "Attempted to add existing pending member";
  M_modify (fun s => set_pendingMembers (g_pendingMembers s ++ [{|
    pn_serviceIdBytes := ap_serviceIdBytes pending; pn_role := ap_role pending; pn_addedByAci := ap_addedByAci pending;
    pn_timestamp := ap_timestamp pending; pn_serviceIdCipherText := default [] (ap_serviceIdCipherText pending);
    pn_quarantined := ap_quarantined pending |}]) s))%st.

Definition add_requesting (requesting : DecryptedRequestingMember) : M DecryptedGroup unit := (
  do state <- M_get;
  do_ require (negb (existsb (fun member =>
        match rq_quarantined requesting, rq_aciCipherText requesting with
        | true, Some c => some_equal_bytes (rq_aciCipherText member) c
        | _, _ => negb (rq_quarantined member) && bytesEqual (rq_aciBytes member) (rq_aciBytes requesting)
        end) (g_requestingMembers state))) "Attempted to add existing requesting member";
  M_modify (fun s => set_requestingMembers (g_requestingMembers s ++ [{|
    rq_aciBytes := rq_aciBytes requesting; rq_profileKey := rq_profileKey requesting; rq_timestamp := rq_timestamp requesting;
    rq_aciCipherText := if rq_quarantined requesting then rq_aciCipherText requesting else None;
    rq_profileKeyCipherText := if rq_quarantined requesting then rq_profileKeyCipherText requesting else None;
    rq_quarantined := rq_quarantined requesting |}]) s))%st.

Definition applyAdditions (change : DecryptedGroupChange) : M DecryptedGroup unit := (
  do_ for_each add_member (ch_newMembers change);
  do_ for_each add_pending (ch_newPendingMembers change);
  for_each add_requesting (ch_newRequestingMembers change))%st.

(** *** Modifications *)
Definition set_role (role : Z) (m : DecryptedMember) : DecryptedMember := {|
  mb_aciBytes := mb_aciBytes m; mb_role := role; mb_profileKey := mb_profileKey m; mb_joinedAtRevision := mb_joinedAtRevision m;
  mb_pniBytes := mb_pniBytes m; mb_labelEmoji := mb_labelEmoji m; mb_labelString := mb_labelString m |}.
Definition set_labels (emoji label : jsstring) (m : DecryptedMember) : DecryptedMember := {|
  mb_aciBytes := mb_aciBytes m; mb_role := mb_role m; mb_profileKey := mb_profileKey m; mb_joinedAtRevision := mb_joinedAtRevision m;
  mb_pniBytes := mb_pniBytes m; mb_labelEmoji := emoji; mb_labelString := label |}.
Definition set_profileKey (key : bytes) (m : DecryptedMember) : DecryptedMember := {|
  mb_aciBytes := mb_aciBytes m; mb_role := mb_role m; mb_profileKey := key; mb_joinedAtRevision := mb_joinedAtRevision m;
  mb_pniBytes := mb_pniBytes m; mb_labelEmoji := mb_labelEmoji m; mb_labelString := mb_labelString m |}.

(** The first member with the ACI is replaced. *)
Definition modify_member (aciBytes : bytes) (f : DecryptedMember -> DecryptedMember) (errorMessage : string) : M DecryptedGroup unit := (
  do state <- M_get;
  match findIndex (is_member_aci aciBytes) (g_members state) with
  | Some memberIndex => M_modify (fun s => set_members (alter f memberIndex (g_members s)) s)
  | None => M_throw (invalid_change errorMessage)
  end)%st.

Definition modify_role (m : DecryptedModifyMemberRole) : M DecryptedGroup unit :=
  modify_member (mr_aciBytes m) (set_role (mr_role m)) "Attempted to modify role of non-existent member".
Definition modify_labels (m : DecryptedModifyMemberLabel) : M DecryptedGroup unit :=
  modify_member (ml_aciBytes m) (set_labels (ml_labelEmoji m) (ml_labelString m)) "Attempted to modify labels of non-existent member".
Definition modify_profile_key (m : DecryptedProfileKeyUpdate) : M DecryptedGroup unit :=
  modify_member (pk_aciBytes m) (set_profileKey (pk_profileKey m)) "Attempted to modify profile key of non-existent member".

Definition applyMemberModifications (change : DecryptedGroupChange) : M DecryptedGroup unit := (
  do_ for_each modify_role (ch_modifyMemberRoles change);
  do_ for_each modify_labels (ch_modifyMemberLabels change);
  for_each modify_profile_key (ch_modifiedProfileKeys change))%st.

(** *** Attributes, termination *)
(** A value that is neither absent nor [UNKNOWN] replaces the old one. *)
Definition known_or (unknown old : Z) (value : option Z) : Z :=
  match value with Some v => if v =? unknown then old else v | None => old end.

Definition applyAttributesAndAccessControl (change : DecryptedGroupChange) : M DecryptedGroup unit := M_modify (fun state =>
  let ac := g_accessControl state in
  set_attributes
    (default (g_title state) (ch_newTitle change)) (default (g_avatar state) (ch_newAvatar change))
    (default (g_disappearingMessagesTimer state) (ch_newTimer change)) (default (g_description state) (ch_newDescription change))
    (default (g_inviteLinkPassword state) (ch_newInviteLinkPassword change))
    (known_or STATE_UNKNOWN (g_isAnnouncementGroup state) (ch_newIsAnnouncementGroup change))
    {| ac_attributes := known_or ACCESS_UNKNOWN (ac_attributes ac) (ch_newAttributeAccess change);
       ac_members := known_or ACCESS_UNKNOWN (ac_members ac) (ch_newMemberAccess change);
       ac_addFromInviteLink := known_or ACCESS_UNKNOWN (ac_addFromInviteLink ac) (ch_newInviteLinkAccess change);
       ac_memberLabel := known_or ACCESS_UNKNOWN (ac_memberLabel ac) (ch_newMemberLabelAccess change) |} state).

Definition applyTermination (change : DecryptedGroupChange) : M DecryptedGroup unit :=
  match ch_terminate change with
  | None => M_ret tt
  | Some t => (do_ require t "Termination action must be true"; M_modify (fun s => set_lifecycle (g_revision s) true s))%st
  end.

(** ** The application *)
Definition apply_actions (change : DecryptedGroupChange) : M DecryptedGroup unit := (
  do_ applyDeletions change;
  do_ applyBans change;
  do_ applyPromotions change;
  do_ applyAdditions change;
  do_ applyMemberModifications change;
  do_ applyAttributesAndAccessControl change;
  do_ applyTermination change;
  M_modify (fun s => set_lifecycle (ch_revision change) (g_terminated s) s))%st.

Definition applyGroupChange (state : DecryptedGroup) (change : DecryptedGroupChange) : result DecryptedGroup :=
  throw_when (g_terminated state) (invalid_change "Group is terminated") ;;
  throw_when (negb (ch_revision change =? g_revision state + 1))
    (Error ("Invalid revision: expected " +:+ pretty (g_revision state + 1) +:+ ", got " +:+ pretty (ch_revision change))) ;;
  let '(newState, r) := apply_actions change state in
  r ;; Ok newState.

(** ** The validation *)
Definition message_of_exn (e : exn) : string := match e with Error m => m | CodedError _ m => m end.
(** [message.replace(/^INVALID_CHANGE: /, '')] *)
Definition without_prefix (message : string) : string :=
  if String.prefix INVALID_CHANGE message then String.substring (String.length INVALID_CHANGE) (String.length message - String.length INVALID_CHANGE) message
  else message.

(** The shadow and the messages so far. *)
Abbreviation Shadow := (DecryptedGroup * list string)%type.
Definition validateStep (apply : M DecryptedGroup unit) (x : Shadow) : Shadow :=
  let '(shadow, errors) := x in
  match apply shadow with
  | (shadow, Ok _) => (shadow, errors)
  | (shadow, Throw e) => (shadow, errors ++ [without_prefix (message_of_exn e)])
  end.
Definition validate_each {A} (apply : A -> M DecryptedGroup unit) (l : list A) (x : Shadow) : Shadow :=
  foldl (fun x a => validateStep (apply a) x) x l.

(** Whether a change has an action. *)
Definition hasArrayAction (change : DecryptedGroupChange) : bool :=
  negb (bool_decide (ch_newMembers change = []) && bool_decide (ch_deleteMembers change = []) && bool_decide (ch_modifyMemberRoles change = []) &&
        bool_decide (ch_modifiedProfileKeys change = []) && bool_decide (ch_newPendingMembers change = []) &&
        bool_decide (ch_deletePendingMembers change = []) && bool_decide (ch_promotePendingMembers change = []) &&
        bool_decide (ch_promotePendingPniAciMembers change = []) && bool_decide (ch_newRequestingMembers change = []) &&
        bool_decide (ch_deleteRequestingMembers change = []) && bool_decide (ch_promoteRequestingMembers change = []) &&
        bool_decide (ch_newBannedMembers change = []) && bool_decide (ch_deleteBannedMembers change = []) &&
        bool_decide (ch_modifyMemberLabels change = [])).
Definition hasScalarAction (change : DecryptedGroupChange) : bool :=
  is_present (ch_newTitle change) || is_present (ch_newAvatar change) || is_present (ch_newTimer change) || is_present (ch_newAttributeAccess change) ||
  is_present (ch_newMemberAccess change) || is_present (ch_newInviteLinkAccess change) || is_present (ch_newMemberLabelAccess change) ||
  is_present (ch_newInviteLinkPassword change) || is_present (ch_newDescription change) || is_present (ch_newIsAnnouncementGroup change) ||
  is_present (ch_terminate change).

(** Every action as a change of its own, in the order of the application; of
    a change with one action only the loop of that action runs. *)
Definition validate_steps (change : DecryptedGroupChange) (x : Shadow) : Shadow :=
  let revision := ch_revision change in
  let x := validate_each delete_pending (ch_deletePendingMembers change) x in
  let x := validate_each delete_requesting (ch_deleteRequestingMembers change) x in
  let x := validate_each delete_banned (ch_deleteBannedMembers change) x in
  let x := validate_each delete_member (ch_deleteMembers change) x in
  let x := validate_each ban (ch_newBannedMembers change) x in
  let x := validate_each (promote_pending revision) (ch_promotePendingMembers change) x in
  let x := validate_each (promote_pni revision) (ch_promotePendingPniAciMembers change) x in
  let x := validate_each (promote_requesting revision) (ch_promoteRequestingMembers change) x in
  let x := validate_each add_member (ch_newMembers change) x in
  let x := validate_each add_pending (ch_newPendingMembers change) x in
  let x := validate_each add_requesting (ch_newRequestingMembers change) x in
  let x := validate_each modify_role (ch_modifyMemberRoles change) x in
  let x := validate_each modify_labels (ch_modifyMemberLabels change) x in
  let x := validate_each modify_profile_key (ch_modifiedProfileKeys change) x in
  match ch_terminate change with Some _ => validateStep (applyTermination change) x | None => x end.

Definition validateChangeStructure (state : DecryptedGroup) (change : DecryptedGroupChange) (form : DecryptedGroupChangeForm) : result (list string) :=
  canonicalFields ← validateChangeCanonicalFields state change form;
  let errors := validateGroupIdentifiers state ++ validateGroupAccessControl state ++ validateGroupMemberRoles state ++
                validateGroupCanonicalFields state ++ validateChangeIdentifiers change ++ validateChangeAccessControl change ++
                validateChangeMemberRoles change ++ canonicalFields ++
                push_if (negb (ch_revision change =? g_revision state + 1))
                  ("Invalid revision: expected " +:+ pretty (g_revision state + 1) +:+ ", got " +:+ pretty (ch_revision change)) in
  if g_terminated state then Ok (errors ++ ["Group is terminated"])
  else if negb (hasArrayAction change) && negb (hasScalarAction change) then Ok (errors ++ ["Change contains no actions"])
  else Ok (validate_steps change (state, errors)).2.

(** ** The acceptance of a signed change ([groups/manager.ts]) *)
(** From the authorization to the new state of a full member's replay, after
    the signature, the epoch, the group binding and the decryption. *)
Definition acceptChange (state : DecryptedGroup) (change : DecryptedGroupChange) : result DecryptedGroup :=
  throw_when (negb (bool_decide (validateChangeAuthorization state change = [])))
    (Error ("UNAUTHORIZED_CHANGE: " +:+ String.concat ", " (validateChangeAuthorization state change))) ;;
  structuralErrors ← validateChangeStructure state change canonical;
  throw_when (negb (bool_decide (structuralErrors = []))) (Error (INVALID_CHANGE +:+ String.concat ", " structuralErrors)) ;;
  nextState ← applyGroupChange state change;
  throw_when (negb (satisfiesLiveGroupAdministratorInvariant nextState))
    (invalid_change "Every non-terminated group must have at least one administrator") ;;
  Ok nextState.
