(* ===== verification/GroupProofs.v ===== *)
(** * Group changes: validation and application agree; what each action does *)
From S2P Require Import Prelude Utf8 GroupTypes GroupAccess GroupChange.

(** ** Loops *)
Section Loops.
Context {S : Type}.
Implicit Types (m : M S unit) (s : S).

Lemma for_each_cons {A} (f : A -> M S unit) a l s : for_each f (a :: l) s = match f a s with (s', Ok _) => for_each f l s' | (s', Throw e) => (s', Throw e) end.
Proof. done. Qed.

Lemma for_each_app {A} (f : A -> M S unit) l k s :
  for_each f (l ++ k) s = match for_each f l s with (s', Ok _) => for_each f k s' | (s', Throw e) => (s', Throw e) end.
Proof.
  revert s. induction l as [|a l IH]; intros s; [done|]. cbn [app]. rewrite !for_each_cons. destruct (f a s) as [s' [u|e]]; [apply IH|done].
Qed.

Lemma for_each_map {A B} (g : A -> B) (f : B -> M S unit) l s : for_each f (map g l) s = for_each (fun a => f (g a)) l s.
Proof.
  revert s. induction l as [|a l IH]; intros s; [done|]. cbn [map]. rewrite !for_each_cons. destruct (f (g a) s) as [s' [u|e]]; [apply IH|done].
Qed.

(** An invariant of the calls that return. *)
Definition preserves (P : S -> Prop) m : Prop := forall s s', P s -> m s = (s', Ok tt) -> P s'.

Lemma preserves_bind P m k : preserves P m -> preserves P k -> preserves P (M_bind (fun _ => k) m).
Proof. intros Hm Hk s s' Hs H. unfold M_bind in H. destruct (m s) as [s1 [[]|e]] eqn:E; [|done]. eauto. Qed.

Lemma preserves_for_each {A} P (f : A -> M S unit) l : (forall a, a ∈ l -> preserves P (f a)) -> preserves P (for_each f l).
Proof.
  induction l as [|a l IH]; intros Hf; [by intros s s' Hs [= <-]|]. cbn [for_each]. apply preserves_bind; [apply Hf; left|].
  apply IH. intros b Hb. apply Hf. by right.
Qed.
End Loops.

(** ** Validation and application *)
(** The actions of a change up to the attributes, in order. *)
Definition actions (change : DecryptedGroupChange) : list (M DecryptedGroup unit) :=
  let revision := ch_revision change in
  map delete_pending (ch_deletePendingMembers change) ++ map delete_requesting (ch_deleteRequestingMembers change) ++
  map delete_banned (ch_deleteBannedMembers change) ++ map delete_member (ch_deleteMembers change) ++ map ban (ch_newBannedMembers change) ++
  map (promote_pending revision) (ch_promotePendingMembers change) ++ map (promote_pni revision) (ch_promotePendingPniAciMembers change) ++
  map (promote_requesting revision) (ch_promoteRequestingMembers change) ++ map add_member (ch_newMembers change) ++
  map add_pending (ch_newPendingMembers change) ++ map add_requesting (ch_newRequestingMembers change) ++
  map modify_role (ch_modifyMemberRoles change) ++ map modify_labels (ch_modifyMemberLabels change) ++
  map modify_profile_key (ch_modifiedProfileKeys change).

Lemma validateStep_grows m x : exists l, (validateStep m x).2 = x.2 ++ l.
Proof. destruct x as [s errors]. cbn. destruct (m s) as [s' [u|e]]; [exists []; by rewrite app_nil_r|eauto]. Qed.

Lemma validate_grows ms : forall x, exists l, (foldl (fun x m => validateStep m x) x ms).2 = x.2 ++ l.
Proof.
  induction ms as [|m ms IH]; intros x; [exists []; by rewrite app_nil_r|]. cbn [foldl].
  destruct (IH (validateStep m x)) as (l & ->). destruct (validateStep_grows m x) as (k & ->). exists (k ++ l). by rewrite app_assoc.
Qed.

(** No message is added exactly when the actions, one after the other, return. *)
Lemma actions_validate_iff ms : forall s errors, (foldl (fun x m => validateStep m x) (s, errors) ms).2 = errors <->
  exists s', for_each id ms s = (s', Ok tt) /\ foldl (fun x m => validateStep m x) (s, errors) ms = (s', errors).
Proof.
  induction ms as [|m ms IH]; intros s errors; [split; [by exists s|by intros (s' & [= <-] & _)]|].
  cbn [foldl]. rewrite for_each_cons. unfold id at 1. cbn [validateStep]. destruct (m s) as [s1 [[]|e]] eqn:E; [apply IH|].
  split.
  - intros H. destruct (validate_grows ms (s1, errors ++ [without_prefix (message_of_exn e)])) as (l & Hl). rewrite Hl in H. cbn [snd] in H.
    exfalso. apply (f_equal length) in H. rewrite !length_app in H. cbn in H. lia.
  - intros (s' & H & _). done.
Qed.

Lemma validate_each_map {A} (f : A -> M DecryptedGroup unit) l x : validate_each f l x = foldl (fun x m => validateStep m x) x (map f l).
Proof. unfold validate_each. revert x. induction l as [|a l IH]; intros x; [done|]. cbn [foldl map]. apply IH. Qed.

Lemma validate_steps_actions change x : validate_steps change x =
  match ch_terminate change with
  | Some _ => validateStep (applyTermination change) (foldl (fun x m => validateStep m x) x (actions change))
  | None => foldl (fun x m => validateStep m x) x (actions change)
  end.
Proof. unfold validate_steps, actions. rewrite !foldl_app, !validate_each_map. done. Qed.

Lemma for_each_id_map {A} (f : A -> M DecryptedGroup unit) l s : for_each id (map f l) s = for_each f l s.
Proof. by rewrite for_each_map. Qed.

(** The phases of the application run the actions. *)
Lemma phases_actions change s (k : M DecryptedGroup unit) :
  (do_ applyDeletions change; do_ applyBans change; do_ applyPromotions change; do_ applyAdditions change;
   do_ applyMemberModifications change; k)%st s = M_bind (fun _ => k) (for_each id (actions change)) s.
Proof.
  unfold applyDeletions, applyBans, applyPromotions, applyAdditions, applyMemberModifications, actions, M_bind.
  rewrite !for_each_app, !for_each_id_map.
  repeat (match goal with |- context [for_each ?f ?l ?s] => destruct (for_each f l s) as [? [[]|?]]; [rewrite ?for_each_app, ?for_each_id_map|done] end).
  done.
Qed.

Lemma apply_actions_eq change s : apply_actions change s =
  match for_each id (actions change) s with
  | (s', Ok _) =>
      match ch_terminate change with
      | Some false => ((applyAttributesAndAccessControl change s').1, Throw (invalid_change "Termination action must be true"))
      | t => (set_lifecycle (ch_revision change) (g_terminated s' || bool_decide (t = Some true)) (applyAttributesAndAccessControl change s').1, Ok tt)
      end
  | (s', Throw e) => (s', Throw e)
  end.
Proof.
  unfold apply_actions. rewrite phases_actions. unfold M_bind at 1. destruct (for_each id (actions change) s) as [s' [[]|e]]; [|done].
  unfold applyAttributesAndAccessControl. rewrite run_modify. unfold applyTermination. destruct (ch_terminate change) as [[]|]; cbn; [by rewrite orb_true_r|done|by rewrite orb_false_r].
Qed.

Lemma steps_iff change s errors : (validate_steps change (s, errors)).2 = errors <-> is_ok (apply_actions change s).2 = true.
Proof.
  rewrite validate_steps_actions, apply_actions_eq. split.
  - intros H. assert (Hf : (foldl (fun x m => validateStep m x) (s, errors) (actions change)).2 = errors).
    { destruct (ch_terminate change); [|done]. destruct (validate_grows (actions change) (s, errors)) as (l & Hl).
      destruct (validateStep_grows (applyTermination change) (foldl (fun x m => validateStep m x) (s, errors) (actions change))) as (k & Hk).
      rewrite Hk, Hl in H. cbn [snd] in *. rewrite <- app_assoc in H. rewrite <- (app_nil_r errors) in H at 2. apply app_inv_head in H.
      apply app_nil in H as [-> _]. by rewrite app_nil_r in Hl. }
    apply actions_validate_iff in Hf as (s' & -> & Hf). rewrite Hf in H. destruct (ch_terminate change) as [[]|] eqn:Et; [done| |done].
    unfold validateStep, applyTermination in H. rewrite Et in H. cbn in H. apply (f_equal length) in H. rewrite length_app in H. cbn in H. lia.
  - destruct (for_each id (actions change) s) as [s' [[]|e]] eqn:E; [|done]. intros H.
    assert (Hf : foldl (fun x m => validateStep m x) (s, errors) (actions change) = (s', errors)).
    { clear H. revert s E. induction (actions change) as [|m ms IH]; intros s E; [by injection E as <-|]. rewrite for_each_cons in E. cbn [foldl validateStep].
      unfold id at 1 in E. destruct (m s) as [s1 [[]|e]]; [|done]. by apply IH. }
    rewrite Hf. destruct (ch_terminate change) as [[]|] eqn:Et; [|done|done]. unfold validateStep, applyTermination. rewrite Et. done.
Qed.

(** ** What each action of a group change does when it returns *)
Lemma require_inv b message (s s' : DecryptedGroup) u : require b message s = (s', Ok u) -> s' = s /\ b = true.
Proof. unfold require. intros [-> H]%M_lift_inv. by destruct b. Qed.

Lemma findIndex_inv {A} (p : A -> bool) l i : findIndex p l = Some i -> exists x, l !! i = Some x /\ p x = true.
Proof.
  unfold findIndex. intros ([j x] & (Hj & Hx & _)%list_find_Some & ->)%fmap_Some. by exists x.
Qed.

Definition no_member (aciBytes : bytes) (s : DecryptedGroup) : Prop := existsb (is_member_aci aciBytes) (g_members s) = false.

(** A step of the proofs below: take a guard or an assignment off. *)
Ltac group_step E :=
  let x := fresh "x" in let s1 := fresh "s" in let E1 := fresh "E" in
  inv_bind E x s1 E1;
  first [ injection E1 as <- <-
        | apply M_modify_inv in E1 as ->
        | apply require_inv in E1 as [-> E1]; try apply negb_true_iff in E1 ].

Lemma destination_inv aciBytes message (s s' : DecryptedGroup) u :
  assertMemberDestinationAvailable aciBytes message s = (s', Ok u) -> s' = s /\ no_member aciBytes s.
Proof. unfold assertMemberDestinationAvailable. intros E. group_step E. apply require_inv in E as [-> H%negb_true_iff]. done. Qed.

Lemma delete_pending_inv r s s' : delete_pending r s = (s', Ok tt) ->
  s' = set_pendingMembers (remove_all (fun m => pendingTargetMatches m r) (g_pendingMembers s)) s.
Proof. unfold delete_pending. intros E. do 2 group_step E. by apply M_modify_inv in E. Qed.

Lemma delete_requesting_inv t s s' : delete_requesting t s = (s', Ok tt) ->
  s' = set_requestingMembers (remove_all (fun m => requestingTargetMatches m t) (g_requestingMembers s)) s.
Proof. unfold delete_requesting. intros E. do 2 group_step E. by apply M_modify_inv in E. Qed.

Lemma delete_banned_inv r s s' : delete_banned r s = (s', Ok tt) ->
  s' = set_bannedMembers (remove_all (fun m => bannedTargetMatches m r) (g_bannedMembers s)) s.
Proof. unfold delete_banned. intros E. do 2 group_step E. by apply M_modify_inv in E. Qed.

Lemma delete_member_inv aciBytes s s' : delete_member aciBytes s = (s', Ok tt) ->
  existsb (is_member_aci aciBytes) (g_members s) = true /\ s' = set_members (remove_all (is_member_aci aciBytes) (g_members s)) s.
Proof. unfold delete_member. intros E. do 2 group_step E. by apply M_modify_inv in E. Qed.

Definition banned_entry (b : DecryptedBannedMember) : DecryptedBannedMember := {|
  bn_serviceIdBytes := bn_serviceIdBytes b; bn_timestamp := bn_timestamp b; bn_serviceIdCipherText := bn_serviceIdCipherText b;
  bn_quarantined := is_present (bn_serviceIdCipherText b) |}.

Lemma ban_inv b s s' : ban b s = (s', Ok tt) ->
  existsb (banned_matches (bn_serviceIdBytes b) (bn_serviceIdCipherText b)) (g_bannedMembers s) = false /\
  s' = set_bannedMembers (g_bannedMembers s ++ [banned_entry b]) s.
Proof. unfold ban. intros E. do 2 group_step E. by apply M_modify_inv in E. Qed.

Lemma promote_pending_inv revision p s s' : promote_pending revision p s = (s', Ok tt) ->
  no_member (pp_aciBytes p) s /\
  exists i m, g_pendingMembers s !! i = Some m /\ pn_serviceIdBytes m = SERVICE_ID_ACI :: pp_aciBytes p /\
    s' = set_members (g_members s ++ [memberFromPromotion p (pn_role m) revision]) (set_pendingMembers (delete i (g_pendingMembers s)) s).
Proof.
  unfold promote_pending. intros E. group_step E. inv_bind E u sd Ed. apply destination_inv in Ed as [-> Hn]. group_step E.
  destruct (list_find _ _) as [[i m]|] eqn:Ef; [|done]. apply list_find_Some in Ef as (Hi & Hm%bytesEqual_true & _). group_step E.
  apply M_modify_inv in E as ->. split; [done|]. by exists i, m.
Qed.

Lemma promote_pni_inv revision p s s' : promote_pni revision p s = (s', Ok tt) ->
  no_member (pp_aciBytes p) s /\
  exists i m, g_pendingMembers s !! i = Some m /\ pn_serviceIdBytes m = SERVICE_ID_PNI :: pp_pniBytes p /\
    s' = set_members (g_members s ++ [memberFromPromotion p (pn_role m) revision])
           (set_pendingMembers (remove_all (is_pending_id (SERVICE_ID_ACI :: pp_aciBytes p)) (delete i (g_pendingMembers s))) s).
Proof.
  unfold promote_pni. intros E. do 2 group_step E. inv_bind E u sd Ed. apply destination_inv in Ed as [-> Hn]. group_step E.
  destruct (list_find _ _) as [[i m]|] eqn:Ef; [|done]. apply list_find_Some in Ef as (Hi & Hm%bytesEqual_true & _). cbn zeta in E. group_step E. group_step E.
  apply M_modify_inv in E as ->. split; [done|]. by exists i, m.
Qed.

Lemma promote_requesting_inv revision a s s' : promote_requesting revision a s = (s', Ok tt) ->
  no_member (ar_aciBytes a) s /\
  exists i m, g_requestingMembers s !! i = Some m /\ rq_aciBytes m = ar_aciBytes a /\
    s' = set_members (g_members s ++ [new_member (ar_aciBytes a) (ar_role a) (rq_profileKey m) (Some revision)])
           (set_requestingMembers (delete i (g_requestingMembers s)) s).
Proof.
  unfold promote_requesting. intros E. inv_bind E u sd Ed. apply destination_inv in Ed as [-> Hn]. group_step E.
  destruct (list_find _ _) as [[i m]|] eqn:Ef; [|done]. apply list_find_Some in Ef as (Hi & Hm%bytesEqual_true & _). group_step E.
  apply M_modify_inv in E as ->. split; [done|]. by exists i, m.
Qed.

Definition added_member (m : DecryptedAddMember) : DecryptedMember :=
  new_member (am_aciBytes m) (am_role m) (am_profileKey m) (am_joinedAtRevision m).

Lemma add_member_inv m s s' : add_member m s = (s', Ok tt) ->
  no_member (am_aciBytes m) s /\ s' = set_members (g_members s ++ [added_member m]) s.
Proof. unfold add_member. intros E. inv_bind E u sd Ed. apply destination_inv in Ed as [-> Hn]. by apply M_modify_inv in E. Qed.

Definition same_pending (p : DecryptedAddPendingMember) (m : DecryptedPendingMember) : bool :=
  match ap_serviceIdCipherText p, ap_quarantined p with
  | Some c, true => bytesEqual (pn_serviceIdCipherText m) c
  | _, _ => negb (pn_quarantined m) && bytesEqual (pn_serviceIdBytes m) (ap_serviceIdBytes p)
  end.
Definition pending_entry (p : DecryptedAddPendingMember) : DecryptedPendingMember := {|
  pn_serviceIdBytes := ap_serviceIdBytes p; pn_role := ap_role p; pn_addedByAci := ap_addedByAci p; pn_timestamp := ap_timestamp p;
  pn_serviceIdCipherText := default [] (ap_serviceIdCipherText p); pn_quarantined := ap_quarantined p |}.

Lemma add_pending_inv p s s' : add_pending p s = (s', Ok tt) ->
  existsb (same_pending p) (g_pendingMembers s) = false /\ s' = set_pendingMembers (g_pendingMembers s ++ [pending_entry p]) s.
Proof. unfold add_pending. intros E. do 2 group_step E. by apply M_modify_inv in E. Qed.

Definition same_requesting (r m : DecryptedRequestingMember) : bool :=
  match rq_quarantined r, rq_aciCipherText r with
  | true, Some c => some_equal_bytes (rq_aciCipherText m) c
  | _, _ => negb (rq_quarantined m) && bytesEqual (rq_aciBytes m) (rq_aciBytes r)
  end.
Definition requesting_entry (r : DecryptedRequestingMember) : DecryptedRequestingMember := {|
  rq_aciBytes := rq_aciBytes r; rq_profileKey := rq_profileKey r; rq_timestamp := rq_timestamp r;
  rq_aciCipherText := if rq_quarantined r then rq_aciCipherText r else None;
  rq_profileKeyCipherText := if rq_quarantined r then rq_profileKeyCipherText r else None; rq_quarantined := rq_quarantined r |}.

Lemma add_requesting_inv r s s' : add_requesting r s = (s', Ok tt) ->
  existsb (same_requesting r) (g_requestingMembers s) = false /\ s' = set_requestingMembers (g_requestingMembers s ++ [requesting_entry r]) s.
Proof. unfold add_requesting. intros E. do 2 group_step E. by apply M_modify_inv in E. Qed.

Lemma modify_member_inv aciBytes f message s s' : modify_member aciBytes f message s = (s', Ok tt) ->
  exists i m, g_members s !! i = Some m /\ mb_aciBytes m = aciBytes /\ s' = set_members (alter f i (g_members s)) s.
Proof.
  unfold modify_member. intros E. group_step E. destruct (findIndex _ _) as [i|] eqn:Ef; [|done].
  apply findIndex_inv in Ef as (m & Hi & Hm%bytesEqual_true). apply M_modify_inv in E as ->. by exists i, m.
Qed.

(** ** Fields that no action changes *)
(** The state but for its four lists. *)
Definition same_scalars (s s' : DecryptedGroup) : Prop :=
  s' = upd_group (g_members s') (g_pendingMembers s') (g_requestingMembers s') (g_bannedMembers s') s.

(** Replace the call that has returned by what it did. *)
Ltac acted E :=
  first
  [ apply delete_pending_inv in E as -> | apply delete_requesting_inv in E as -> | apply delete_banned_inv in E as ->
  | let H := fresh "Hin" in apply delete_member_inv in E as [H ->]
  | let H := fresh "Hno" in apply ban_inv in E as [H ->]
  | let H := fresh "Hno" in let i := fresh "i" in let m := fresh "m" in let Hi := fresh "Hi" in let Hm := fresh "Hid" in
    first [ apply promote_pending_inv in E as (H & i & m & Hi & Hm & ->) | apply promote_pni_inv in E as (H & i & m & Hi & Hm & ->)
          | apply promote_requesting_inv in E as (H & i & m & Hi & Hm & ->) ]
  | let H := fresh "Hno" in first [ apply add_member_inv in E as [H ->] | apply add_pending_inv in E as [H ->] | apply add_requesting_inv in E as [H ->] ]
  | let i := fresh "i" in let m := fresh "m" in let Hi := fresh "Hi" in let Hm := fresh "Hid" in
    unfold modify_role, modify_labels, modify_profile_key in E; apply modify_member_inv in E as (i & m & Hi & Hm & ->) ].

(** A property of every action of a change. *)
Lemma actions_forall change (P : M DecryptedGroup unit -> Prop) :
  (forall r, r ∈ ch_deletePendingMembers change -> P (delete_pending r)) ->
  (forall t, t ∈ ch_deleteRequestingMembers change -> P (delete_requesting t)) ->
  (forall r, r ∈ ch_deleteBannedMembers change -> P (delete_banned r)) ->
  (forall a, a ∈ ch_deleteMembers change -> P (delete_member a)) ->
  (forall b, b ∈ ch_newBannedMembers change -> P (ban b)) ->
  (forall p, p ∈ ch_promotePendingMembers change -> P (promote_pending (ch_revision change) p)) ->
  (forall p, p ∈ ch_promotePendingPniAciMembers change -> P (promote_pni (ch_revision change) p)) ->
  (forall p, p ∈ ch_promoteRequestingMembers change -> P (promote_requesting (ch_revision change) p)) ->
  (forall m, m ∈ ch_newMembers change -> P (add_member m)) ->
  (forall m, m ∈ ch_newPendingMembers change -> P (add_pending m)) ->
  (forall m, m ∈ ch_newRequestingMembers change -> P (add_requesting m)) ->
  (forall m, m ∈ ch_modifyMemberRoles change -> P (modify_role m)) ->
  (forall m, m ∈ ch_modifyMemberLabels change -> P (modify_labels m)) ->
  (forall m, m ∈ ch_modifiedProfileKeys change -> P (modify_profile_key m)) ->
  forall m, m ∈ actions change -> P m.
Proof.
  intros H1 H2 H3 H4 H5 H6 H7 H8 H9 H10 H11 H12 H13 H14 m Hm. unfold actions in Hm.
  rewrite !elem_of_app, !list_elem_of_fmap in Hm. naive_solver.
Qed.

Lemma apply_inv state change s' : applyGroupChange state change = Ok s' -> exists s1,
  g_terminated state = false /\ ch_revision change = g_revision state + 1 /\ for_each id (actions change) state = (s1, Ok tt) /\
  ch_terminate change <> Some false /\
  s' = set_lifecycle (ch_revision change) (g_terminated s1 || bool_decide (ch_terminate change = Some true)) (applyAttributesAndAccessControl change s1).1.
Proof.
  unfold applyGroupChange, throw_when. destruct (g_terminated state); [done|]. destruct (_ =? _) eqn:Er; [|done]. b2p. cbn [negb].
  change (Ok tt ;; ?k) with k. rewrite apply_actions_eq. destruct (for_each id (actions change) state) as [s1 [[]|e]]; [|done].
  destruct (ch_terminate change) as [[]|] eqn:Et; [|done|]; intros [= <-]; exists s1; done.
Qed.

Lemma actions_preserve (P : DecryptedGroup -> Prop) change s s1 :
  (forall m, m ∈ actions change -> preserves P m) -> P s -> for_each id (actions change) s = (s1, Ok tt) -> P s1.
Proof. intros H Hs. apply (preserves_for_each P id); [|done]. intros m Hm. by apply H. Qed.

Lemma actions_scalars change s s1 : for_each id (actions change) s = (s1, Ok tt) -> same_scalars s s1.
Proof.
  apply (actions_preserve (same_scalars s)); [|by destruct s].
  apply actions_forall; intros a _ s2 s3 Hs2 E; acted E; unfold same_scalars in *; by rewrite Hs2.
Qed.
