(* ===== verification/GroupValid.v ===== *)
(** * Validity of group states is kept by accepted changes *)
From S2P Require Import Prelude Utf8 GroupTypes GroupAccess GroupChange GroupProofs.

(** ** The validators as predicates *)
Lemma push_if_nil b m : push_if b m = [] <-> b = false.
Proof. by destruct b. Qed.

Lemma each_nil {A} (P : A -> Prop) (f : nat -> A -> list string) l : (forall i x, f i x = [] <-> P x) -> each f l = [] <-> Forall P l.
Proof.
  unfold each. revert f. induction l as [|x l IH]; intros f Hf; [done|]. cbn [imap concat]. rewrite app_nil, Hf, Forall_cons.
  rewrite (IH (f ∘ Datatypes.S)); [done|]. intros i y. apply Hf.
Qed.

Definition not_nil (uuid : bytes) : Prop := isNilUuid uuid = false.
Definition service_ok (serviceId : bytes) : Prop := (len serviceId =? 17) && isNilUuid (drop 1 serviceId) = false.
Definition stamp_ok (t : option Z) : Prop := isCanonicalTimestamp t = true.
Definition role_ok (role : Z) : Prop := isStoredMemberRole role = true.

Lemma nilUuid_nil b m : nilUuidError b m = [] <-> not_nil b.
Proof. unfold nilUuidError, not_nil. by destruct (isNilUuid b). Qed.
Lemma nilService_nil b m : nilServiceIdError b m = [] <-> service_ok b.
Proof. unfold nilServiceIdError, service_ok. by destruct (_ && _). Qed.

Definition member_ok (revision : Z) (m : DecryptedMember) : Prop :=
  (not_nil (mb_aciBytes m) /\ (0 < len (mb_pniBytes m) -> not_nil (mb_pniBytes m))) /\ role_ok (mb_role m) /\ joined_ok revision (mb_joinedAtRevision m) = true.
Definition pending_ok (m : DecryptedPendingMember) : Prop :=
  (service_ok (pn_serviceIdBytes m) /\ (forall a, pn_addedByAci m = Some a -> not_nil a)) /\ role_ok (pn_role m) /\ stamp_ok (pn_timestamp m).
Definition requesting_ok (m : DecryptedRequestingMember) : Prop := not_nil (rq_aciBytes m) /\ stamp_ok (rq_timestamp m).
Definition banned_ok (m : DecryptedBannedMember) : Prop := service_ok (bn_serviceIdBytes m) /\ stamp_ok (bn_timestamp m).

Definition access_ok (ac : AccessControl) : Prop :=
  isRoleAccessRequirement (ac_attributes ac) = true /\ isRoleAccessRequirement (ac_members ac) = true /\
  isRoleAccessRequirement (ac_memberLabel ac) = true /\ isInviteLinkAccessRequirement (ac_addFromInviteLink ac) = true.

Definition lists_ok (revision : Z) (g : DecryptedGroup) : Prop :=
  Forall (member_ok revision) (g_members g) /\ Forall pending_ok (g_pendingMembers g) /\
  Forall requesting_ok (g_requestingMembers g) /\ Forall banned_ok (g_bannedMembers g).
Definition scalars_ok (g : DecryptedGroup) : Prop :=
  access_ok (g_accessControl g) /\ (g_isAnnouncementGroup g = STATE_ENABLED \/ g_isAnnouncementGroup g = STATE_DISABLED) /\
  (len (g_inviteLinkPassword g) = 0 \/ len (g_inviteLinkPassword g) = 16).
Definition group_valid (g : DecryptedGroup) : Prop :=
  isSafeInteger (g_revision g) = true /\ 0 <= g_revision g /\ lists_ok (g_revision g) g /\ scalars_ok g.

(** Everything that the validation checks of a stored state. *)
Definition state_errors (g : DecryptedGroup) : list string :=
  validateGroupIdentifiers g ++ validateGroupAccessControl g ++ validateGroupMemberRoles g ++ validateGroupCanonicalFields g.

Lemma if_nil {A} (b : bool) (l : list A) : (if b then l else []) = [] <-> (b = true -> l = []).
Proof. destruct b; naive_solver. Qed.

Lemma timestamps_nil {A} (t : A -> option Z) label l : timestamp_errors t label l = [] <-> Forall (fun x => stamp_ok (t x)) l.
Proof. apply each_nil. intros i x. by rewrite push_if_nil, negb_false_iff. Qed.

Lemma members_nil l : each (fun i m => nilUuidError (mb_aciBytes m) (at_index "members" i +:+ ".aciBytes") ++
    (if len (mb_pniBytes m) >? 0 then nilUuidError (mb_pniBytes m) (at_index "members" i +:+ ".pniBytes") else [])) l = [] <->
  Forall (fun m => not_nil (mb_aciBytes m) /\ (0 < len (mb_pniBytes m) -> not_nil (mb_pniBytes m))) l.
Proof. apply each_nil. intros i m. rewrite app_nil, nilUuid_nil, if_nil, nilUuid_nil. by rewrite Z.gtb_lt. Qed.

Lemma option_nil {A B} (x : option A) (f : A -> list B) : match x with Some a => f a | None => [] end = [] <-> (forall a, x = Some a -> f a = []).
Proof. destruct x; naive_solver. Qed.

Lemma pendings_nil label l : each (fun i m => nilServiceIdError (pn_serviceIdBytes m) (at_index label i +:+ ".serviceIdBytes") ++
    match pn_addedByAci m with Some a => nilUuidError a (at_index label i +:+ ".addedByAci") | None => [] end) l = [] <->
  Forall (fun m => service_ok (pn_serviceIdBytes m) /\ (forall a, pn_addedByAci m = Some a -> not_nil a)) l.
Proof.
  apply each_nil. intros i m. rewrite app_nil, nilService_nil, option_nil. f_equiv. split; intros H a Ha; specialize (H a Ha); by apply nilUuid_nil in H || apply nilUuid_nil.
Qed.

Lemma stored_roles_nil {A} (role : A -> Z) (text : nat -> string) l :
  each (fun i m => push_if (negb (isStoredMemberRole (role m))) (text i)) l = [] <-> Forall (fun m => role_ok (role m)) l.
Proof. apply each_nil. intros i m. by rewrite push_if_nil, negb_false_iff. Qed.

Lemma valid_iff g : state_errors g = [] <-> group_valid g.
Proof.
  unfold state_errors, validateGroupIdentifiers, validateGroupAccessControl, validateGroupMemberRoles, validateGroupCanonicalFields.
  rewrite !app_nil, !push_if_nil, members_nil, pendings_nil, !stored_roles_nil, !timestamps_nil, !negb_false_iff, orb_false_iff, !andb_false_iff, !negb_false_iff, !Z.eqb_eq.
  rewrite (each_nil (fun m => not_nil (rq_aciBytes m))) by (intros; apply nilUuid_nil).
  rewrite (each_nil (fun m => service_ok (bn_serviceIdBytes m))) by (intros; apply nilService_nil).
  rewrite (each_nil (fun m => joined_ok (g_revision g) (mb_joinedAtRevision m) = true)) by (intros; by rewrite push_if_nil, negb_false_iff).
  unfold group_valid, lists_ok, scalars_ok, access_ok, member_ok, pending_ok, requesting_ok, banned_ok.
  rewrite !Forall_and, Z.ltb_ge. tauto.
Qed.

(** ** The static checks of a change, as a predicate *)
Lemma outside_nil ok value message : outside ok value message = [] <-> (forall v, value = Some v -> ok v = true).
Proof. unfold outside. destruct value as [v|]; [|naive_solver]. rewrite push_if_nil, negb_false_iff. naive_solver. Qed.

Lemma nilUuid_each {A} (f : A -> bytes) (label : nat -> string) l :
  each (fun i m => nilUuidError (f m) (label i)) l = [] <-> Forall (fun m => not_nil (f m)) l.
Proof. apply each_nil. intros. apply nilUuid_nil. Qed.
Lemma nilService_each {A} (f : A -> bytes) (label : nat -> string) l :
  each (fun i m => nilServiceIdError (f m) (label i)) l = [] <-> Forall (fun m => service_ok (f m)) l.
Proof. apply each_nil. intros. apply nilService_nil. Qed.
Lemma roles_nil {A} (role : A -> option Z) label l : role_errors role label l = [] <-> Forall (fun m => forall r, role m = Some r -> role_ok r) l.
Proof. apply each_nil. intros. apply outside_nil. Qed.

Lemma each_Forall {A} (P : A -> Prop) (f : nat -> A -> list string) l : (forall i x, f i x = [] -> P x) -> each f l = [] -> Forall P l.
Proof.
  unfold each. revert f. induction l as [|x l IH]; intros f Hf; [by constructor|]. cbn [imap concat]. intros [H1 H2]%app_nil.
  constructor; [by eapply Hf|]. apply (IH (f ∘ Datatypes.S)); [|done]. intros i y. apply Hf.
Qed.

Lemma mapM_imap_Forall {A} (P : A -> Prop) (f : nat -> A -> result (list string)) l k : (forall i x, f i x = Ok [] -> P x) ->
  mapM_result id (imap f l) = Ok k -> concat k = [] -> Forall P l.
Proof.
  revert f k. induction l as [|x l IH]; intros f k Hf H Hk; [by constructor|]. cbn [imap mapM_result] in H. unfold id at 1 in H.
  apply bind_Ok in H as (b & Eb & H). apply bind_Ok in H as (k' & Ek & [= <-]). apply app_nil in Hk as [-> Hk].
  constructor; [by eapply Hf|]. apply (IH (f ∘ Datatypes.S) k'); [|done|done]. intros i y. apply Hf.
Qed.

Lemma pending_errors_nil editor i m : pending_errors canonical editor i m = Ok [] -> stamp_ok (ap_timestamp m).
Proof.
  unfold pending_errors. destruct (if negb _ then _ else _) as [wrong|e]; [|done].
  intros [= H]. rewrite !app_nil, !push_if_nil, negb_false_iff in H. apply H.
Qed.

(** What the checks of a canonical change give. *)
Record change_ok (change : DecryptedGroupChange) : Prop := {
  co_revision : isSafeInteger (ch_revision change) = true /\ 1 <= ch_revision change;
  co_newMembers : Forall (fun m => not_nil (am_aciBytes m) /\ role_ok (am_role m) /\ am_joinedAtRevision m = Some (ch_revision change)) (ch_newMembers change);
  co_promotions : Forall (fun p => not_nil (pp_aciBytes p)) (ch_promotePendingMembers change);
  co_pniPromotions : Forall (fun p => not_nil (pp_aciBytes p)) (ch_promotePendingPniAciMembers change);
  co_approvals : Forall (fun a => not_nil (ar_aciBytes a) /\ role_ok (ar_role a)) (ch_promoteRequestingMembers change);
  co_newPending : Forall (fun m => pending_ok (pending_entry m)) (ch_newPendingMembers change);
  co_newRequesting : Forall requesting_ok (ch_newRequestingMembers change);
  co_newBanned : Forall banned_ok (ch_newBannedMembers change);
  co_roles : Forall (fun m => role_ok (mr_role m)) (ch_modifyMemberRoles change);
  co_scalars : forall g, scalars_ok g -> scalars_ok (applyAttributesAndAccessControl change g).1 }.

Lemma known_or_ok (ok : Z -> Prop) unknown old value : ok old -> (forall v, value = Some v -> ok v) -> ok (known_or unknown old value).
Proof. intros Ho Hv. unfold known_or. destruct value as [v|]; [|done]. destruct (v =? unknown); [done|]. by apply Hv. Qed.

Lemma scalars_kept change g : validateChangeAccessControl change = [] ->
  (forall v, ch_newIsAnnouncementGroup change = Some v -> v = STATE_ENABLED \/ v = STATE_DISABLED) ->
  (forall p, ch_newInviteLinkPassword change = Some p -> len p = 16) ->
  scalars_ok g -> scalars_ok (applyAttributesAndAccessControl change g).1.
Proof.
  unfold validateChangeAccessControl. rewrite !app_nil, !outside_nil. intros (H1 & H2 & H3 & H4) Ha Hp ((A1 & A2 & A3 & A4) & Hg & Hw).
  split; [|split]; [split; [|split; [|split]]| |]; cbn.
  1-4: by apply (known_or_ok (fun v => _ v = true)).
  - by apply (known_or_ok (fun v => v = STATE_ENABLED \/ v = STATE_DISABLED)).
  - destruct (ch_newInviteLinkPassword change) as [p|]; [|done]. right. by apply Hp.
Qed.

Lemma announcement_nil (v : option Z) message :
  match v with Some v => push_if (negb (v =? STATE_ENABLED) && negb (v =? STATE_DISABLED)) message | None => [] end = [] ->
  forall a, v = Some a -> a = STATE_ENABLED \/ a = STATE_DISABLED.
Proof. intros H a ->. rewrite push_if_nil, andb_false_iff, !negb_false_iff, !Z.eqb_eq in H. done. Qed.

Lemma password_nil (v : option bytes) message : match v with Some p => push_if (negb (len p =? 16)) message | None => [] end = [] ->
  forall p, v = Some p -> len p = 16.
Proof. intros H p ->. by rewrite push_if_nil, negb_false_iff, Z.eqb_eq in H. Qed.

(** The checks of the canonical form, one by one. *)
Lemma canonical_fields state change : validateChangeCanonicalFields state change canonical = Ok [] ->
  (isSafeInteger (ch_revision change) = true /\ 1 <= ch_revision change) /\
  (forall a, ch_newIsAnnouncementGroup change = Some a -> a = STATE_ENABLED \/ a = STATE_DISABLED) /\
  (forall p, ch_newInviteLinkPassword change = Some p -> len p = 16) /\
  Forall (fun m => am_joinedAtRevision m = Some (ch_revision change)) (ch_newMembers change) /\
  Forall (fun m => stamp_ok (ap_timestamp m)) (ch_newPendingMembers change) /\
  Forall (fun m => stamp_ok (rq_timestamp m)) (ch_newRequestingMembers change) /\
  Forall (fun m => stamp_ok (bn_timestamp m)) (ch_newBannedMembers change).
Proof.
  unfold validateChangeCanonicalFields. intros (pending & Hp & [= H])%bind_Ok.
  rewrite !app_nil in H. destruct H as ((Hr & Ha & Hw & Hm & _) & Hc & Hq & Hb). rewrite push_if_nil in Hr. b2p.
  repeat split; [done|lia|by eapply announcement_nil|by eapply password_nil| | | |].
  - eapply each_Forall, Hm. intros i x [_ Hx]%app_nil. rewrite push_if_nil in Hx. cbn in Hx. b2p. by apply bool_decide_eq_true in Hx.
  - eapply mapM_imap_Forall; [|exact Hp|exact Hc]. intros i m. apply pending_errors_nil.
  - eapply each_Forall, Hq. intros i x [_ Hx]%app_nil. rewrite push_if_nil in Hx. by apply negb_false_iff in Hx.
  - eapply each_Forall, Hb. intros i x [_ Hx]%app_nil. rewrite push_if_nil in Hx. by apply negb_false_iff in Hx.
Qed.

Lemma pair_ids_nil {A} (a b : A -> bytes) (la lb : nat -> string) l :
  each (fun i m => nilUuidError (a m) (la i) ++ (if len (b m) >? 0 then nilUuidError (b m) (lb i) else [])) l = [] -> Forall (fun m => not_nil (a m)) l.
Proof. apply each_Forall. intros i x [H _]%app_nil. by apply nilUuid_nil in H. Qed.

Lemma change_checks state change : validateChangeIdentifiers change = [] -> validateChangeAccessControl change = [] ->
  validateChangeMemberRoles change = [] -> validateChangeCanonicalFields state change canonical = Ok [] -> change_ok change.
Proof.
  unfold validateChangeIdentifiers, validateChangeMemberRoles, aci_errors, service_errors. rewrite !app_nil.
  intros (_ & I1 & _ & I2 & I3%pair_ids_nil & _ & _ & I4 & _ & I5 & _ & I6 & I7 & _) Ha (R1 & _ & _ & R2 & R3 & R4) (C1 & C2 & C3 & C4 & C5 & C6 & C7)%canonical_fields.
  apply nilUuid_each in I1, I2, I5, I6. apply nilService_each in I7. apply roles_nil in R1, R2, R3, R4.
  assert (P : Forall (fun m => service_ok (ap_serviceIdBytes m) /\ forall a, ap_addedByAci m = Some a -> not_nil a) (ch_newPendingMembers change)).
  { eapply each_Forall, I4. intros i x [Hs%nilService_nil Ho]%app_nil. split; [done|]. rewrite option_nil in Ho.
    intros a Hx. by apply (nilUuid_nil _ (at_index "newPendingMembers" i +:+ ".addedByAci")), Ho. }
  constructor; [done| |done|done| | | | | |intros g; by apply scalars_kept]; rewrite ?Forall_forall in *.
  all: intros m Hm; unfold pending_ok, requesting_ok, banned_ok; cbn; naive_solver.
Qed.

(** ** Accepted changes keep the states of a group well-formed *)
(** ** Entries without repetition *)
Lemma Forall_sublist {A} (P : A -> Prop) l k : l `sublist_of` k -> Forall P k -> Forall P l.
Proof. induction 1; inversion_clear 1; auto. Qed.

Lemma sublist_fmap {A B} (f : A -> B) l k : l `sublist_of` k -> f <$> l `sublist_of` f <$> k.
Proof. induction 1; by constructor. Qed.

Lemma remove_all_sublist {A} (p : A -> bool) l : remove_all p l `sublist_of` l.
Proof. unfold remove_all. induction l as [|x l IH]; [done|]. cbn. destruct (negb (p x)); by constructor. Qed.

(** The identifiers of the entries that decrypt. *)
Definition live {A} (quarantined : A -> bool) (id : A -> bytes) (l : list A) : list bytes :=
  id <$> List.filter (fun x => negb (quarantined x)) l.

Lemma live_sublist {A} (q : A -> bool) id l k : l `sublist_of` k -> live q id l `sublist_of` live q id k.
Proof.
  unfold live. intros Hs. apply sublist_fmap. induction Hs; [done| |]; cbn; destruct (negb (q x)); first [done|by constructor].
Qed.

Lemma live_snoc {A} (q : A -> bool) id l x : NoDup (live q id l) -> (q x = false -> forall y, y ∈ l -> q y = false -> id y <> id x) ->
  NoDup (live q id (l ++ [x])).
Proof.
  unfold live. intros Hl Hx. rewrite List.filter_app, fmap_app. apply NoDup_app. split; [done|]. cbn. destruct (q x); cbn.
  - split; [set_solver|constructor].
  - split; [|apply NoDup_singleton]. intros i (y & -> & Hy)%list_elem_of_fmap Hi. apply list_elem_of_singleton in Hi.
    apply list_elem_of_In, List.filter_In in Hy as [Hy Hq]. apply list_elem_of_In in Hy. apply negb_true_iff in Hq. by apply (Hx eq_refl y).
Qed.

Lemma existsb_false {A} (p : A -> bool) l : existsb p l = false <-> forall x, x ∈ l -> p x = false.
Proof.
  split.
  - intros H x Hx. destruct (p x) eqn:E; [|done]. rewrite <- not_true_iff_false in H. destruct H. apply existsb_exists. exists x.
    by rewrite <- list_elem_of_In.
  - intros H. apply not_true_iff_false. intros (x & Hx & Hp)%existsb_exists. rewrite <- list_elem_of_In in Hx. by rewrite H in Hp.
Qed.

Definition acis (g : DecryptedGroup) : list bytes := mb_aciBytes <$> g_members g.
Definition distinct (g : DecryptedGroup) : Prop :=
  NoDup (acis g) /\ NoDup (live pn_quarantined pn_serviceIdBytes (g_pendingMembers g)) /\
  NoDup (live rq_quarantined rq_aciBytes (g_requestingMembers g)) /\ NoDup (live bn_quarantined bn_serviceIdBytes (g_bannedMembers g)).

(** ** The lists after each action *)
Definition lists_inv (revision : Z) (g : DecryptedGroup) : Prop := lists_ok revision g /\ distinct g.

Lemma no_member_acis aciBytes g : no_member aciBytes g -> aciBytes ∉ acis g.
Proof.
  unfold no_member, acis. rewrite existsb_false. intros H (m & -> & Hm)%list_elem_of_fmap. specialize (H m Hm). unfold is_member_aci in H. by rewrite bytesEqual_refl in H.
Qed.

Lemma snoc_member revision g m : lists_inv revision g -> member_ok revision m -> no_member (mb_aciBytes m) g ->
  lists_inv revision (set_members (g_members g ++ [m]) g).
Proof.
  intros [(H1 & Hrest) (D1 & Drest)] Hm Hn%no_member_acis. split; (split; [|done]).
  - apply Forall_app. by rewrite Forall_singleton.
  - unfold acis. cbn. rewrite fmap_app. apply NoDup_app. split; [done|]. split; [|apply NoDup_singleton].
    intros a Ha Hin. apply list_elem_of_singleton in Hin. by subst.
Qed.

Lemma fewer_pending revision g l : lists_inv revision g -> l `sublist_of` g_pendingMembers g -> lists_inv revision (set_pendingMembers l g).
Proof.
  intros [(H1 & H2 & Hr) (D1 & D2 & Dr)] Hl. split; (split; [done|split; [|done]]); [by eapply Forall_sublist|].
  eapply sublist_NoDup; [exact D2|by apply live_sublist].
Qed.
Lemma fewer_requesting revision g l : lists_inv revision g -> l `sublist_of` g_requestingMembers g -> lists_inv revision (set_requestingMembers l g).
Proof.
  intros [(H1 & H2 & H3 & H4) (D1 & D2 & D3 & D4)] Hl. split; (split; [done|split; [done|split; [|done]]]); [by eapply Forall_sublist|].
  eapply sublist_NoDup; [exact D3|by apply live_sublist].
Qed.
Lemma fewer_banned revision g l : lists_inv revision g -> l `sublist_of` g_bannedMembers g -> lists_inv revision (set_bannedMembers l g).
Proof.
  intros [(H1 & H2 & H3 & H4) (D1 & D2 & D3 & D4)] Hl. split; (split; [done|split; [done|split; [done|]]]); [by eapply Forall_sublist|].
  eapply sublist_NoDup; [exact D4|by apply live_sublist].
Qed.
Lemma fewer_members revision g l : lists_inv revision g -> l `sublist_of` g_members g -> lists_inv revision (set_members l g).
Proof.
  intros [(H1 & Hr) (D1 & Dr)] Hl. split; (split; [|done]); [by eapply Forall_sublist|].
  eapply sublist_NoDup; [exact D1|]. unfold acis. cbn. by apply sublist_fmap.
Qed.

Lemma alter_members revision g i f : lists_inv revision g -> (forall m, mb_aciBytes (f m) = mb_aciBytes m) ->
  (forall m, member_ok revision m -> member_ok revision (f m)) -> lists_inv revision (set_members (alter f i (g_members g)) g).
Proof.
  intros [(H1 & Hr) (D1 & Dr)] Ha Hf. split; (split; [|done]).
  - cbn. apply Forall_alter; [done|]. intros m _ Hm. by apply Hf.
  - unfold acis in *. cbn. rewrite (list_fmap_alter mb_aciBytes f id); [by rewrite list_alter_id|]. apply Forall_forall. intros m _. apply Ha.
Qed.

(** *** The entries that the additions append *)
Lemma snoc_pending revision g p : lists_inv revision g -> pending_ok (pending_entry p) -> existsb (same_pending p) (g_pendingMembers g) = false ->
  lists_inv revision (set_pendingMembers (g_pendingMembers g ++ [pending_entry p]) g).
Proof.
  intros [(H1 & H2 & Hr) (D1 & D2 & Dr)] Hp Hn. split; (split; [done|split; [|done]]).
  - apply Forall_app. by rewrite Forall_singleton.
  - apply live_snoc; [done|]. cbn. intros Hq m Hm Hqm Heq. apply (proj1 (existsb_false _ _) Hn) in Hm. unfold same_pending in Hm.
    rewrite Hq, Hqm, Heq, bytesEqual_refl in Hm. by destruct (ap_serviceIdCipherText p).
Qed.

Lemma snoc_requesting revision g r : lists_inv revision g -> requesting_ok r -> existsb (same_requesting r) (g_requestingMembers g) = false ->
  lists_inv revision (set_requestingMembers (g_requestingMembers g ++ [requesting_entry r]) g).
Proof.
  intros [(H1 & H2 & H3 & H4) (D1 & D2 & D3 & D4)] Hp Hn. split; (split; [done|split; [done|split; [|done]]]).
  - apply Forall_app. by rewrite Forall_singleton.
  - apply live_snoc; [done|]. cbn. intros Hq m Hm Hqm Heq. apply (proj1 (existsb_false _ _) Hn) in Hm. unfold same_requesting in Hm.
    by rewrite Hq, Hqm, Heq, bytesEqual_refl in Hm.
Qed.

Lemma snoc_banned revision g b : lists_inv revision g -> banned_ok b ->
  existsb (banned_matches (bn_serviceIdBytes b) (bn_serviceIdCipherText b)) (g_bannedMembers g) = false ->
  lists_inv revision (set_bannedMembers (g_bannedMembers g ++ [banned_entry b]) g).
Proof.
  intros [(H1 & H2 & H3 & H4) (D1 & D2 & D3 & D4)] Hp Hn. split; (split; [done|split; [done|split; [done|]]]).
  - apply Forall_app. by rewrite Forall_singleton.
  - apply live_snoc; [done|]. cbn. intros Hq m Hm Hqm Heq. apply (proj1 (existsb_false _ _) Hn) in Hm. unfold banned_matches in Hm.
    destruct (bn_serviceIdCipherText b); [done|]. by rewrite Hqm, Heq, bytesEqual_refl in Hm.
Qed.

(** The member of a promotion. *)
Lemma promoted_ok revision aciBytes role profileKey : isSafeInteger revision = true -> 1 <= revision -> not_nil aciBytes -> role_ok role ->
  member_ok revision (new_member aciBytes role profileKey (Some revision)).
Proof.
  intros Hs Hr Ha Hro. split; [split; [done|by cbn]|]. split; [done|]. cbn. rewrite Hs. cbn. apply andb_true_iff. split; apply negb_true_iff.
  - apply Z.ltb_ge. lia.
  - rewrite Z.gtb_ltb. apply Z.ltb_irrefl.
Qed.

Lemma stored_pending revision g i m : lists_inv revision g -> g_pendingMembers g !! i = Some m -> pending_ok m.
Proof. intros [(_ & H & _) _] Hi. by eapply Forall_lookup_1. Qed.

Lemma promote_lists revision aciBytes role profileKey s s1 : lists_inv revision s1 -> g_members s1 = g_members s ->
  isSafeInteger revision = true -> 1 <= revision -> not_nil aciBytes -> role_ok role -> no_member aciBytes s ->
  lists_inv revision (set_members (g_members s ++ [new_member aciBytes role profileKey (Some revision)]) s1).
Proof. intros H1 Hm Hs Hr Ha Hro Hn. rewrite <- Hm. apply snoc_member; [done|by apply promoted_ok|]. unfold no_member. by rewrite Hm. Qed.

Lemma actions_lists change m : change_ok change -> m ∈ actions change -> preserves (lists_inv (ch_revision change)) m.
Proof.
  intros [[Hs Hr] C1 C2 C3 C4 C5 C6 C7 C8 _]. repeat match goal with H : Forall _ _ |- _ => rewrite Forall_forall in H end.
  revert m. apply actions_forall; intros a Ha s s' Hi E; acted E.
  1: by apply fewer_pending, remove_all_sublist.
  1: by apply fewer_requesting, remove_all_sublist.
  1: by apply fewer_banned, remove_all_sublist.
  1: by apply fewer_members, remove_all_sublist.
  1: by apply snoc_banned; [|apply C7|].
  - apply promote_lists; [by apply fewer_pending, sublist_delete|done|done|done|by apply C2| |done].
    by eapply stored_pending.
  - apply promote_lists; [|done|done|done|by apply C3| |done]; [|by eapply stored_pending].
    apply fewer_pending; [done|]. etrans; [apply remove_all_sublist|apply sublist_delete].
  - apply promote_lists; [by apply fewer_requesting, sublist_delete|done|done|done|by apply C4|by apply C4|done].
  - destruct (C1 a Ha) as (H1 & H2 & H3). apply snoc_member; [done| |done]. unfold added_member. rewrite H3. by apply promoted_ok.
  - by apply snoc_pending; [|apply C5|].
  - by apply snoc_requesting; [|apply C6|].
  - apply alter_members; [done|done|]. intros x [H1 [H2 H3]]. split; [done|]. split; [by apply C8|done].
  - by apply alter_members.
  - by apply alter_members.
Qed.

(** ** The acceptance *)
Definition has_action (change : DecryptedGroupChange) : bool := hasArrayAction change || hasScalarAction change.

Lemma steps_nil change s errors : (validate_steps change (s, errors)).2 = [] <-> errors = [] /\ is_ok (apply_actions change s).2 = true.
Proof.
  split; [|by intros [-> H]; apply steps_iff].
  intros H. assert (errors = []) as ->; [|by split; [|apply (steps_iff _ _ [])]].
  rewrite validate_steps_actions in H. destruct (validate_grows (actions change) (s, errors)) as (l & Hl).
  destruct (ch_terminate change); [|rewrite Hl in H; by apply app_nil in H as [H _]].
  destruct (validateStep_grows (applyTermination change) (foldl (fun x m => validateStep m x) (s, errors) (actions change))) as (k & Hk).
  rewrite Hk, Hl in H. by apply app_nil in H as [[H _]%app_nil _].
Qed.

Lemma apply_is_ok s change : is_ok (applyGroupChange s change) = true <->
  g_terminated s = false /\ ch_revision change = g_revision s + 1 /\ is_ok (apply_actions change s).2 = true.
Proof.
  unfold applyGroupChange, throw_when. destruct (g_terminated s); [naive_solver|]. destruct (Z.eqb_spec (ch_revision change) (g_revision s + 1)); [|naive_solver].
  cbn [negb]. change (Ok tt ;; ?k) with k. destruct (apply_actions change s) as [s' [[]|er]]; naive_solver.
Qed.

(** The validation passes when the state and the change are in their domains
    and the application returns. *)
Lemma structure_nil s change form : validateChangeStructure s change form = Ok [] <->
  state_errors s = [] /\ validateChangeIdentifiers change = [] /\ validateChangeAccessControl change = [] /\ validateChangeMemberRoles change = [] /\
  validateChangeCanonicalFields s change form = Ok [] /\ has_action change = true /\ is_ok (applyGroupChange s change) = true.
Proof.
  rewrite apply_is_ok. unfold validateChangeStructure, state_errors, has_action. rewrite bind_Ok. split.
  - intros (fields & -> & H). destruct (g_terminated s) eqn:Et; [by injection H as [_ H]%app_nil|].
    destruct (negb (hasArrayAction change) && _) eqn:Ea; [by injection H as [_ H]%app_nil|].
    injection H as H. apply steps_nil in H as [H Hk]. rewrite !app_nil, push_if_nil, negb_false_iff, Z.eqb_eq in H.
    rewrite !app_nil. destruct (hasArrayAction change), (hasScalarAction change); naive_solver.
  - intros (H & Hi & Ha & Hr & Hc & Hact & Ht & Hv & Hk). exists []. split; [done|]. rewrite Ht.
    assert (negb (hasArrayAction change) && negb (hasScalarAction change) = false) as -> by (destruct (hasArrayAction change), (hasScalarAction change); done).
    f_equal. apply steps_nil. split; [|done]. rewrite !app_nil in *. rewrite push_if_nil, negb_false_iff, Z.eqb_eq. naive_solver.
Qed.

Lemma accept_inv s change s' : acceptChange s change = Ok s' ->
  validateChangeAuthorization s change = [] /\ validateChangeStructure s change canonical = Ok [] /\ applyGroupChange s change = Ok s' /\
  satisfiesLiveGroupAdministratorInvariant s' = true.
Proof.
  unfold acceptChange. intros ([] & Ha & H)%bind_Ok. apply bind_Ok in H as (errors & Hs & H). apply bind_Ok in H as ([] & He & H).
  apply bind_Ok in H as (s1 & Hap & H). apply bind_Ok in H as ([] & Hadm & [= <-]).
  unfold throw_when in *. destruct (bool_decide _) eqn:Ea in Ha; [|done]. apply bool_decide_eq_true in Ea.
  destruct (bool_decide (errors = [])) eqn:Ee; [|done]. apply bool_decide_eq_true in Ee as ->.
  by destruct (satisfiesLiveGroupAdministratorInvariant s1).
Qed.

Lemma lists_mono revision revision' g : revision <= revision' -> lists_ok revision g -> lists_ok revision' g.
Proof.
  intros Hr (H1 & Hrest). split; [|done]. eapply Forall_impl; [exact H1|]. intros m (Ha & Hro & Hj). split; [done|split; [done|]].
  unfold joined_ok in *. destruct (mb_joinedAtRevision m) as [j|]; [|done]. rewrite !andb_true_iff, !negb_true_iff in *. destruct Hj as [? Hj].
  split; [done|]. rewrite Z.gtb_ltb, Z.ltb_ge in *. lia.
Qed.

(** One accepted change. *)
Lemma accept_step s change s' : acceptChange s change = Ok s' -> distinct s ->
  group_valid s /\ group_valid s' /\ distinct s' /\ g_revision s' = g_revision s + 1 /\ g_terminated s = false /\
  satisfiesLiveGroupAdministratorInvariant s' = true.
Proof.
  intros (Ha & Hs & Hap & Hadm)%accept_inv Hd. apply structure_nil in Hs as (Hv%valid_iff & Hi & Hac & Hro & Hc & _ & _).
  pose proof (change_checks _ _ Hi Hac Hro Hc) as Hok. apply apply_inv in Hap as (s1 & Ht & Hrev & Hrun & _ & ->).
  assert (lists_inv (ch_revision change) s1) as [Hl1 Hd1].
  { eapply actions_preserve; [intros m Hm; by apply actions_lists| |exact Hrun]. split; [|done]. destruct Hv as (_ & _ & Hl & _). eapply lists_mono, Hl. lia. }
  apply actions_scalars in Hrun as Hsame. destruct (co_revision _ Hok) as [Hsafe Hpos].
  split; [done|]. split; [|done]. split; [done|]. split; [cbn; lia|]. split; [done|]. destruct Hv as (_ & _ & _ & Hsc).
  assert (scalars_ok s1) as Hsc1 by (rewrite Hsame; exact Hsc). by apply (co_scalars _ Hok) in Hsc1.
Qed.
