(* ===== verification/GroupAuthority.v ===== *)
(** * What the authorization check allows to an editor who is no administrator *)
From S2P Require Import Prelude Utf8 GroupTypes GroupAccess GroupChange GroupProofs GroupValid.

(** The role that the check gives to the editor. *)
Definition editor_role (s : DecryptedGroup) (change : DecryptedGroupChange) : Z :=
  match requester_aci (ch_editorServiceIdBytes change) with None => ROLE_UNKNOWN | Some aci => getMemberRole s aci end.

(** The editor is the account with the ACI. *)
Definition edited_by (aciBytes : bytes) (change : DecryptedGroupChange) : Prop := ch_editorServiceIdBytes change = SERVICE_ID_ACI :: aciBytes.

Lemma kind_is_cons kind r : kind_is kind r = true -> r = kind :: drop 1 r.
Proof. unfold kind_is. rewrite bool_decide_eq_true. destruct r; [done|]. by intros [= ->]. Qed.

Lemma requester_aci_Some r aci : requester_aci r = Some aci -> r = SERVICE_ID_ACI :: aci.
Proof. unfold requester_aci. destruct (kind_is _ r) eqn:E; [|done]. intros [= <-]. by apply kind_is_cons. Qed.

(** The permission with the context that the check builds. *)
Definition authorized_as (s : DecryptedGroup) (change : DecryptedGroupChange) (action : GroupAction) (self : bool) (role : option Z) : Prop :=
  canRolePerformAction s (editor_role s change) action
    {| ax_requesterIsBanned := isBanned s (ch_editorServiceIdBytes change); ax_targetIsRequester := self; ax_assignedRole := role |} = true.

Definition targets_editor (change : DecryptedGroupChange) (c : GroupActionContext) : Prop :=
  (exists a, cx_targetAciBytes c = Some a /\ edited_by a change) \/ cx_targetServiceIdBytes c = Some (ch_editorServiceIdBytes change).

Lemma authorize_nil s change action c : authorize s change action c = [] ->
  exists self, authorized_as s change action self (cx_assignedRole c) /\ (self = true -> targets_editor change c).
Proof.
  unfold authorize, canPerformAction, authorized_as, editor_role. destruct (negb _ || _); [done|]. cbn zeta.
  destruct (canRolePerformAction _ _ _ _) eqn:E; [|done]. intros _. eexists. split; [exact E|]. intros [H|H]%orb_true_iff.
  - left. destruct (requester_aci _) as [aci|] eqn:Er; [|done]. destruct (cx_targetAciBytes c) as [t|]; [|done]. apply bytesEqual_true in H as ->.
    exists aci. split; [done|]. by apply requester_aci_Some.
  - right. destruct (cx_targetServiceIdBytes c) as [t|]; [|done]. by apply bytesEqual_true in H as ->.
Qed.

Lemma concat_map_nil {A} (f : A -> list string) l : concat (map f l) = [] <-> (forall a, a ∈ l -> f a = []).
Proof.
  induction l as [|a l IH]; cbn; [split; [intros _ a H; by apply not_elem_of_nil in H|done]|]. rewrite app_nil, IH. split.
  - intros [H1 H2] b [->|H]%elem_of_cons; auto.
  - intros H. split; [apply H; left|]. intros b Hb. apply H. by right.
Qed.

(** A change that only an administrator may sign has none of these. *)
Record confined (s : DecryptedGroup) (change : DecryptedGroupChange) : Prop := {
  cf_newMembers : forall m, m ∈ ch_newMembers change -> am_role m = ROLE_DEFAULT;
  cf_deleteMembers : forall a, a ∈ ch_deleteMembers change -> edited_by a change;
  cf_roles : ch_modifyMemberRoles change = [];
  cf_profileKeys : forall m, m ∈ ch_modifiedProfileKeys change -> edited_by (pk_aciBytes m) change;
  cf_newPending : forall m, m ∈ ch_newPendingMembers change -> ap_role m = ROLE_DEFAULT;
  cf_promotions : forall p, p ∈ ch_promotePendingMembers change -> edited_by (pp_aciBytes p) change;
  cf_pniPromotions : forall p, p ∈ ch_promotePendingPniAciMembers change -> ch_editorServiceIdBytes change = SERVICE_ID_PNI :: pp_pniBytes p;
  cf_approvals : ch_promoteRequestingMembers change = [];
  cf_bans : ch_newBannedMembers change = [] /\ ch_deleteBannedMembers change = [];
  cf_access : ch_newAttributeAccess change = None /\ ch_newMemberAccess change = None /\ ch_newInviteLinkAccess change = None /\
    ch_newMemberLabelAccess change = None;
  cf_password : ch_newInviteLinkPassword change = None /\ ch_newIsAnnouncementGroup change = None;
  cf_terminate : ch_terminate change <> Some true;
  cf_attributes : meetsRoleAccessRequirement (editor_role s change) (ac_attributes (g_accessControl s)) = false ->
    ch_newTitle change = None /\ ch_newAvatar change = None /\ ch_newTimer change = None /\ ch_newDescription change = None }.

Lemma no_elements {A} (l : list A) : (forall a, a ∈ l -> False) -> l = [].
Proof. destruct l as [|a l]; [done|]. intros H. destruct (H a). left. Qed.

Lemma if_some_None {A} (x : option A) (l : list string) : if_some x l = [] -> (l = [] -> False) -> x = None.
Proof. destruct x; [|done]. cbn. tauto. Qed.

Lemma not_banned s change action self role : authorized_as s change action self role -> isBanned s (ch_editorServiceIdBytes change) = false.
Proof. unfold authorized_as, canRolePerformAction. cbn. by destruct (isBanned _ _). Qed.

Section NotAdministrator.
Context {s : DecryptedGroup} {change : DecryptedGroupChange} (Hrole : editor_role s change <> ROLE_ADMINISTRATOR).

Lemma not_admin : (editor_role s change =? ROLE_ADMINISTRATOR) = false.
Proof. by apply Z.eqb_neq. Qed.

(** The actions of an administrator. *)
Lemma denied action c : authorize s change action c = [] ->
  match action with
  | MODIFY_MEMBER_ROLE | MODIFY_ATTRIBUTES_ACCESS | MODIFY_MEMBERS_ACCESS | MODIFY_INVITE_LINK_ACCESS | MODIFY_INVITE_LINK_PASSWORD
  | MODIFY_MEMBER_LABEL_ACCESS | MODIFY_ANNOUNCEMENTS | BAN_MEMBER | UNBAN_MEMBER | PROMOTE_MEMBER_PENDING_ADMIN_APPROVAL | TERMINATE_GROUP => False
  | _ => True
  end.
Proof.
  intros (self & H & _)%authorize_nil. unfold authorized_as, canRolePerformAction in H. cbn in H. rewrite not_admin in H.
  destruct (isBanned _ _); [done|]. by destruct action.
Qed.

(** The actions on the editor. *)
Lemma only_self action c : authorize s change action c = [] ->
  action = REMOVE_MEMBER \/ action = MODIFY_MEMBER_PROFILE_KEY \/ action = PROMOTE_MEMBER_PENDING_PROFILE_KEY \/
  action = PROMOTE_MEMBER_PENDING_PNI_ACI_PROFILE_KEY -> targets_editor change c.
Proof.
  intros (self & H & Hself)%authorize_nil Ha. apply Hself. unfold authorized_as, canRolePerformAction in H. cbn in H. rewrite not_admin in H.
  destruct (isBanned _ _); [done|]. by destruct Ha as [-> | [-> | [-> | ->]]].
Qed.

(** The roles that the editor gives. *)
Lemma only_default action c : authorize s change action c = [] -> action = ADD_MEMBER \/ action = ADD_MEMBER_PENDING_PROFILE_KEY ->
  cx_assignedRole c = Some ROLE_DEFAULT.
Proof.
  intros (self & H & _)%authorize_nil Ha. unfold authorized_as, canRolePerformAction, canAssignInitialRole in H. cbn in H. rewrite not_admin, andb_false_r, orb_false_r in H.
  destruct (isBanned _ _); [done|]. destruct (bool_decide _) eqn:E; [by apply bool_decide_eq_true in E|]. by destruct Ha as [-> | ->].
Qed.

Lemma only_attributes action c : authorize s change action c = [] ->
  action = MODIFY_TITLE \/ action = MODIFY_AVATAR \/ action = MODIFY_DISAPPEARING_MESSAGES \/ action = MODIFY_DESCRIPTION ->
  meetsRoleAccessRequirement (editor_role s change) (ac_attributes (g_accessControl s)) = true.
Proof.
  intros (self & H & _)%authorize_nil Ha. unfold authorized_as, canRolePerformAction in H. cbn in H.
  destruct (isBanned _ _); [done|]. by destruct Ha as [-> | [-> | [-> | ->]]].
Qed.

Lemma aci_targets a : targets_editor change (on_aci a) -> edited_by a change.
Proof. by intros [(? & [= <-] & H)|[=]]. Qed.

Lemma authorization_confined : validateChangeAuthorization s change = [] -> confined s change.
Proof.
  unfold validateChangeAuthorization. cbn zeta. rewrite !app_nil, !concat_map_nil.
  intros (H1 & H2 & H3 & H4 & H5 & _ & H7 & H8 & T1 & T2 & T3 & T4 & A1 & A2 & A3 & A4 & P1 & P2 & _ & _ & Q & B1 & B2 & _ & Ht).
  constructor.
  - intros m Hm. specialize (H1 m Hm). apply only_default in H1; [by injection H1|by left].
  - intros a Ha. apply aci_targets. eapply only_self; [by apply H2|tauto].
  - apply no_elements. intros m Hm. exact (denied _ _ (H3 m Hm)).
  - intros m Hm. apply aci_targets. eapply only_self; [by apply H4|tauto].
  - intros m Hm. specialize (H5 m Hm). apply only_default in H5; [by injection H5|by right].
  - intros p Hp. apply aci_targets. eapply only_self; [by apply H7|tauto].
  - intros p Hp. specialize (H8 p Hp). apply app_nil in H8 as [H8 _]. apply only_self in H8; [|tauto].
    by destruct H8 as [(? & [=] & _)|[= <-]].
  - apply no_elements. intros m Hm. exact (denied _ _ (Q m Hm)).
  - split; apply no_elements; intros m Hm; [exact (denied _ _ (B1 m Hm))|exact (denied _ _ (B2 m Hm))].
  - repeat split; eapply if_some_None; try eassumption; exact (denied _ no_context).
  - split; eapply if_some_None; try eassumption; exact (denied _ no_context).
  - intros Hs. rewrite bool_decide_eq_true_2 in Ht by done. exact (denied _ _ Ht).
  - intros Hm. repeat split; eapply if_some_None; try eassumption; intros H; apply only_attributes in H; [congruence|tauto|congruence|tauto|congruence|tauto|congruence|tauto].
Qed.
End NotAdministrator.

(** ** A banned editor *)
Lemma banned_refused s change : isBanned s (ch_editorServiceIdBytes change) = true -> validateChangeAuthorization s change = [] ->
  has_action change = true -> ch_terminate change = Some false.
Proof.
  intros Hb. assert (D : forall a c, authorize s change a c = [] -> False).
  { intros a c (self & H & _)%authorize_nil. apply not_banned in H. congruence. }
  unfold validateChangeAuthorization. cbn zeta. rewrite !app_nil, !concat_map_nil.
  intros (H1 & H2 & H3 & H4 & H5 & H6 & H7 & H8 & T1 & T2 & T3 & T4 & A1 & A2 & A3 & A4 & P1 & P2 & R1 & R2 & R3 & B1 & B2 & L & Ht).
  assert (E8 : ch_promotePendingPniAciMembers change = []) by (apply no_elements; intros p [Hp _]%H8%app_nil; eauto).
  unfold has_action, hasArrayAction, hasScalarAction. rewrite E8.
  rewrite (no_elements (ch_newMembers change)), (no_elements (ch_deleteMembers change)), (no_elements (ch_modifyMemberRoles change)),
    (no_elements (ch_modifiedProfileKeys change)), (no_elements (ch_newPendingMembers change)), (no_elements (ch_deletePendingMembers change)),
    (no_elements (ch_promotePendingMembers change)), (no_elements (ch_newRequestingMembers change)),
    (no_elements (ch_deleteRequestingMembers change)), (no_elements (ch_promoteRequestingMembers change)), (no_elements (ch_newBannedMembers change)),
    (no_elements (ch_deleteBannedMembers change)), (no_elements (ch_modifyMemberLabels change)) by eauto.
  rewrite (if_some_None _ _ T1), (if_some_None _ _ T2), (if_some_None _ _ T3), (if_some_None _ _ T4), (if_some_None _ _ A1), (if_some_None _ _ A2),
    (if_some_None _ _ A3), (if_some_None _ _ A4), (if_some_None _ _ P1), (if_some_None _ _ P2) by eauto. cbn.
  destruct (ch_terminate change) as [[]|]; [|done|done]. intros _. by destruct (D _ _ Ht).
Qed.

(** ** The state after the actions of a confined change *)
(** The accounts as which the editor joins: the one whose ACI it signed with, or
    that which a promotion names for the PNI it signed with. *)
Definition joins_as (change : DecryptedGroupChange) (aciBytes : bytes) : Prop :=
  edited_by aciBytes change \/
  exists p, p ∈ ch_promotePendingPniAciMembers change /\ ch_editorServiceIdBytes change = SERVICE_ID_PNI :: pp_pniBytes p /\ pp_aciBytes p = aciBytes.

(** The invitations of a service identifier. *)
Definition invitations (id : bytes) (s : DecryptedGroup) : list DecryptedPendingMember :=
  filter (fun p => pn_serviceIdBytes p = id) (g_pendingMembers s).

Definition unlabelled (m : DecryptedMember) : DecryptedMember := set_labels [] [] m.

Definition confined_state (change : DecryptedGroupChange) (s s' : DecryptedGroup) : Prop :=
  (forall m, m ∈ g_members s -> ~ edited_by (mb_aciBytes m) change -> exists m', m' ∈ g_members s' /\ unlabelled m' = unlabelled m) /\
  (forall m, m ∈ g_members s' -> mb_role m = ROLE_ADMINISTRATOR ->
     (exists m0, m0 ∈ g_members s /\ mb_aciBytes m0 = mb_aciBytes m /\ mb_role m0 = ROLE_ADMINISTRATOR) \/
     (joins_as change (mb_aciBytes m) /\
      exists p, p ∈ g_pendingMembers s /\ pn_serviceIdBytes p = ch_editorServiceIdBytes change /\ pn_role p = ROLE_ADMINISTRATOR)) /\
  (forall p, p ∈ g_pendingMembers s' -> pn_role p = ROLE_ADMINISTRATOR -> p ∈ g_pendingMembers s) /\
  g_bannedMembers s' = g_bannedMembers s.

Lemma confined_start change s : confined_state change s s.
Proof. repeat split; naive_solver. Qed.

Lemma confined_fewer_pending change s s' l : confined_state change s s' -> l `sublist_of` g_pendingMembers s' ->
  confined_state change s (set_pendingMembers l s').
Proof. intros (H1 & H2 & H3 & H4) Hl. split; [done|split; [done|split; [|done]]]. intros p Hp. apply H3. cbn in Hp. by apply (sublist_subseteq l _ Hl). Qed.

(** The invited editor joins. *)
Lemma confined_promoted change s s' l p m : confined_state change s s' -> l `sublist_of` g_pendingMembers s' ->
  p ∈ g_pendingMembers s' -> pn_serviceIdBytes p = ch_editorServiceIdBytes change -> mb_role m = pn_role p -> joins_as change (mb_aciBytes m) ->
  confined_state change s (set_members (g_members s' ++ [m]) (set_pendingMembers l s')).
Proof.
  intros Hc Hl Hp Hid Hr Hj. destruct (confined_fewer_pending _ _ _ _ Hc Hl) as (H1 & H2 & H3 & H4). destruct Hc as (_ & _ & Hpend & _).
  split; [|split; [|done]].
  - intros x Hx Hn. destruct (H1 x Hx Hn) as (x' & Hx' & He). exists x'. split; [|done]. apply elem_of_app. by left.
  - intros x [Hx|Hx]%elem_of_app Ha; [by apply H2|]. apply list_elem_of_singleton in Hx as ->. right. split; [done|]. exists p.
    assert (pn_role p = ROLE_ADMINISTRATOR) as Hpr by congruence. split; [by apply Hpend|done].
Qed.

Lemma confined_added change s s' m : confined_state change s s' -> mb_role m <> ROLE_ADMINISTRATOR ->
  confined_state change s (set_members (g_members s' ++ [m]) s').
Proof.
  intros (H1 & H2 & H3) Hr. split; [|split; [|done]].
  - intros x Hx Hn. destruct (H1 x Hx Hn) as (x' & Hx' & He). exists x'. split; [|done]. apply elem_of_app. by left.
  - intros x [Hx|Hx]%elem_of_app Ha; [by apply H2|]. by apply list_elem_of_singleton in Hx as ->.
Qed.

Lemma remove_all_elem {A} (p : A -> bool) l x : x ∈ remove_all p l <-> x ∈ l /\ p x = false.
Proof. unfold remove_all. rewrite !list_elem_of_In, List.filter_In, negb_true_iff. done. Qed.

Lemma confined_removed change s s' aciBytes : confined_state change s s' -> edited_by aciBytes change ->
  confined_state change s (set_members (remove_all (is_member_aci aciBytes) (g_members s')) s').
Proof.
  intros (H1 & H2 & H3) He. split; [|split; [|done]].
  - intros x Hx Hn. destruct (H1 x Hx Hn) as (x' & Hx' & Hu). exists x'. split; [|done]. apply remove_all_elem. split; [done|].
    apply bytesEqual_false. intros Ha. apply Hn. assert (mb_aciBytes x = aciBytes) as ->; [|done]. apply (f_equal mb_aciBytes) in Hu. cbn in Hu. congruence.
  - intros x [Hx _]%remove_all_elem. by apply H2.
Qed.

Lemma alter_elem {A} (f : A -> A) (i : nat) (l : list A) x : x ∈ alter f i l -> exists y, y ∈ l /\ (x = y \/ x = f y).
Proof.
  intros (j & Hj)%list_elem_of_lookup. rewrite list_lookup_alter in Hj. destruct (decide (i = j)).
  - apply fmap_Some in Hj as (y & Hy & ->). exists y. split; [by eapply list_elem_of_lookup_2|by right].
  - exists x. split; [by eapply list_elem_of_lookup_2|by left].
Qed.

Lemma elem_alter {A} (f : A -> A) (i : nat) (l : list A) x : x ∈ l -> x ∈ alter f i l \/ (l !! i = Some x /\ f x ∈ alter f i l).
Proof.
  intros (j & Hj)%list_elem_of_lookup. destruct (decide (i = j)) as [->|Hne].
  - right. split; [done|]. apply (list_elem_of_lookup_2 _ j). by rewrite list_lookup_alter, decide_True, Hj.
  - left. apply (list_elem_of_lookup_2 _ j). by rewrite list_lookup_alter, decide_False.
Qed.

Lemma confined_altered change s s' f i m : confined_state change s s' -> g_members s' !! i = Some m ->
  (forall x, mb_aciBytes (f x) = mb_aciBytes x /\ mb_role (f x) = mb_role x) ->
  edited_by (mb_aciBytes m) change \/ (forall x, unlabelled (f x) = unlabelled x) ->
  confined_state change s (set_members (alter f i (g_members s')) s').
Proof.
  intros (H1 & H2 & H3) Hi Hf Hor. split; [|split; [|done]].
  - intros x Hx Hn. destruct (H1 x Hx Hn) as (x' & Hx' & Hu). destruct (elem_alter f i _ _ Hx') as [Hin|[Hl Hin]]; [by exists x'|].
    destruct Hor as [He|Hl']; [|exists (f x'); by rewrite Hl'].
    exfalso. apply Hn. assert (m = x') as -> by congruence. apply (f_equal mb_aciBytes) in Hu. cbn in Hu. congruence.
  - intros x (y & Hy & Hor')%alter_elem Ha. destruct (Hf y) as [Hfa Hfr]. destruct Hor' as [-> | ->]; [by apply H2|]. rewrite Hfa. rewrite Hfr in Ha. by apply H2.
Qed.

Lemma actions_confined s change m : confined s change -> m ∈ actions change -> preserves (confined_state change s) m.
Proof.
  intros [C1 C2 C3 C4 C5 C6 C7 C8 [C9 C10] _ _ _ _]. revert m. apply actions_forall; rewrite ?C3, ?C8, ?C9, ?C10; intros a Ha; try by apply not_elem_of_nil in Ha.
  all: intros s1 s2 Hc E; acted E.
  - apply confined_fewer_pending, remove_all_sublist; done.
  - exact Hc.
  - by apply confined_removed, C2.
  - apply (confined_promoted _ _ _ _ m); [done|apply sublist_delete|by eapply list_elem_of_lookup_2| |done|]; [by rewrite (C6 a Ha)|by left; apply C6].
  - apply (confined_promoted _ _ _ _ m); [done| |by eapply list_elem_of_lookup_2| |done|].
    + etrans; [apply remove_all_sublist|apply sublist_delete].
    + by rewrite (C7 a Ha).
    + right. exists a. split; [done|]. split; [by apply C7|done].
  - apply confined_added; [done|]. cbn. by rewrite (C1 a Ha).
  - destruct Hc as (H1 & H2 & H3 & H4). split; [done|split; [done|split; [|done]]]. intros p [Hp|Hp]%elem_of_app Hr; [by apply H3|].
    apply list_elem_of_singleton in Hp as ->. cbn in Hr. by rewrite (C5 a Ha) in Hr.
  - exact Hc.
  - apply (confined_altered _ _ _ _ _ m); [done|done|done|]. by right.
  - apply (confined_altered _ _ _ _ _ m); [done|done|done|]. left. rewrite Hid. by apply C4.
Qed.

(** *** Every promotion of a PNI uses up an invitation *)
Lemma invitations_sublist id s l : l `sublist_of` g_pendingMembers s ->
  (length (invitations id (set_pendingMembers l s)) <= length (invitations id s))%nat.
Proof.
  unfold invitations. cbn [g_pendingMembers set_pendingMembers upd_group]. intros Hl.
  induction Hl as [|p l k _ IH|p l k _ IH]; [done| |]; rewrite !filter_cons; repeat case_decide; cbn [length]; lia.
Qed.

Lemma invitations_delete id s i p : g_pendingMembers s !! i = Some p -> pn_serviceIdBytes p = id ->
  (length (invitations id (set_pendingMembers (delete i (g_pendingMembers s)) s)) < length (invitations id s))%nat.
Proof.
  unfold invitations. cbn [g_pendingMembers set_pendingMembers upd_group]. generalize (g_pendingMembers s). intros l. revert i.
  induction l as [|q l IH]; intros [|i] Hi Hid; [done|done| |].
  - injection Hi as ->. change (delete 0%nat (p :: l)) with l. rewrite filter_cons, decide_True by done. cbn [length]. lia.
  - change (delete (S i) (q :: l)) with (q :: delete i l). specialize (IH i Hi Hid).
    rewrite !filter_cons. case_decide; cbn [length]; lia.
Qed.

Lemma promotions_invited change revision l : forall s s', (forall p, p ∈ l -> ch_editorServiceIdBytes change = SERVICE_ID_PNI :: pp_pniBytes p) ->
  for_each (promote_pni revision) l s = (s', Ok tt) ->
  (length (invitations (ch_editorServiceIdBytes change) s') + length l <= length (invitations (ch_editorServiceIdBytes change) s))%nat.
Proof.
  induction l as [|p l IH]; intros s s' Hl H; [injection H as <-; cbn [length]; lia|].
  rewrite for_each_cons in H. destruct (promote_pni revision p s) as [s1 [[]|e]] eqn:E; [|done].
  apply IH in H; [|intros q Hq; apply Hl; by right]. apply promote_pni_inv in E as (_ & i & m & Hi & Hm & ->).
  pose proof (invitations_delete (ch_editorServiceIdBytes change) s i m Hi) as Hd. rewrite Hm in Hd. specialize (Hd (eq_sym (Hl p ltac:(left)))).
  pose proof (invitations_sublist (ch_editorServiceIdBytes change) (set_pendingMembers (delete i (g_pendingMembers s)) s)
    (remove_all (is_pending_id (SERVICE_ID_ACI :: pp_aciBytes p)) (delete i (g_pendingMembers s))) (remove_all_sublist _ _)) as Hr.
  unfold invitations in *. cbn [g_pendingMembers set_pendingMembers set_members upd_group length] in *. lia.
Qed.

Lemma pni_promotions_invited change s s1 :
  (forall p, p ∈ ch_promotePendingPniAciMembers change -> ch_editorServiceIdBytes change = SERVICE_ID_PNI :: pp_pniBytes p) ->
  for_each id (actions change) s = (s1, Ok tt) ->
  (length (ch_promotePendingPniAciMembers change) <= length (invitations (ch_editorServiceIdBytes change) s))%nat.
Proof.
  intros Hl H. unfold actions in H. cbn zeta in H. set (id' := ch_editorServiceIdBytes change) in *.
  set (promotions := map (promote_pni _) (ch_promotePendingPniAciMembers change)) in H. rewrite 5 app_assoc in H.
  rewrite for_each_app in H. destruct (for_each id _ s) as [s2 [[]|e]] eqn:E in H; [|done].
  rewrite for_each_app in H. destruct (for_each id promotions s2) as [s3 [[]|e]] eqn:E3 in H; [|done]. clear H.
  unfold promotions in E3. rewrite for_each_id_map in E3. apply (promotions_invited change) in E3; [|done]. fold id' in E3.
  assert ((length (invitations id' s2) <= length (invitations id' s))%nat); [|lia].
  eapply (preserves_for_each (fun x => (length (invitations id' x) <= length (invitations id' s))%nat) id); [|reflexivity|exact E].
  intros m Hm x y Hx Ey. unfold id in Ey. rewrite !elem_of_app, !list_elem_of_fmap in Hm.
  assert (Hsub : g_pendingMembers y `sublist_of` g_pendingMembers x).
  { decompose [or ex and] Hm; subst; acted Ey; cbn [g_pendingMembers set_pendingMembers set_requestingMembers set_bannedMembers set_members upd_group];
      first [done|apply remove_all_sublist|apply sublist_delete]. }
  etrans; [|exact Hx]. apply (invitations_sublist id' x _ Hsub).
Qed.
