(* ===== verification/GroupTheorems.v ===== *)
(** * Groups: the changes that a member accepts *)
From S2P Require Import Prelude Utf8 GroupTypes GroupAccess GroupChange GroupProofs GroupValid GroupAuthority.

(** C32: the validation of a change, which tries the actions one by one on a
    copy of the state and collects messages, returns none exactly when the
    stored state is in its domains, the static checks of the change pass, the
    change has an action, and the application of the whole change returns; so
    a change that passes never fails half-way when it is applied. *)
Theorem validation_mirrors_application (s : DecryptedGroup) (change : DecryptedGroupChange) (form : DecryptedGroupChangeForm) :
  validateChangeStructure s change form = Ok [] <->
  group_valid s /\ validateChangeIdentifiers change = [] /\ validateChangeAccessControl change = [] /\ validateChangeMemberRoles change = [] /\
  validateChangeCanonicalFields s change form = Ok [] /\ hasArrayAction change || hasScalarAction change = true /\
  (exists s', applyGroupChange s change = Ok s').
Proof.
  rewrite structure_nil, valid_iff. unfold has_action. destruct (applyGroupChange s change) as [s'|e]; cbn; naive_solver.
Qed.

(** C12: from any state whose entries that decrypt do not repeat, a sequence of
    accepted changes leads to states in the domains of the stored fields (roles,
    access levels, timestamps, joined revisions, identifiers, password), again
    without repetition, with the revision one higher per change and, unless the
    group was terminated, with an administrator; nothing is accepted after a termination. *)
Theorem accepted_changes_valid (s s' : DecryptedGroup) (changes : list DecryptedGroupChange) :
  changes <> [] -> distinct s -> foldM_result acceptChange s changes = Ok s' ->
  group_valid s' /\ distinct s' /\ g_revision s' = g_revision s + len changes /\ g_terminated s = false /\
  (g_terminated s' = true \/ exists m, m ∈ g_members s' /\ mb_role m = ROLE_ADMINISTRATOR).
Proof.
  intros Hne. revert s. induction changes as [|change changes IH]; intros s Hd H; [done|].
  cbn [foldM_result] in H. apply bind_Ok in H as (s1 & H1 & H). apply accept_step in H1 as (Hv & Hv1 & Hd1 & Hr & Ht & Ha); [|done].
  destruct changes as [|change' changes].
  - injection H as <-. split; [done|]. split; [done|]. split; [change (len [change]) with 1; lia|]. split; [done|].
    apply orb_true_iff in Ha as [?|Ha]; [by left|right]. apply existsb_exists in Ha as (m & Hm & Hrole). exists m.
    rewrite list_elem_of_In. split; [done|by apply Z.eqb_eq].
  - destruct (IH ltac:(done) s1 Hd1 H) as (G1 & G2 & G3 & _ & G5). split; [done|]. split; [done|]. split; [|done].
    rewrite G3, Hr. unfold len. cbn [length]. lia.
Qed.

(** C13: what an accepted change of an editor who is not an administrator can
    do: the editor is not banned; access control, invite password,
    announcement setting, bans and termination stay; title, avatar,
    description and timer stay unless the editor's role meets the attributes
    requirement; every other member keeps role, profile key and place, at
    most the labels change; and an administrator afterwards was one before, or
    an administrator invitation named the editor and it is the account as
    which the editor joins: the ACI the editor signed with or, where it signed
    with a PNI, the ACI that a promotion names for that PNI, and each such
    promotion uses up an invitation of the PNI. *)
Theorem member_change_confined (s s' : DecryptedGroup) (change : DecryptedGroupChange) :
  acceptChange s change = Ok s' -> editor_role s change <> ROLE_ADMINISTRATOR ->
  isBanned s (ch_editorServiceIdBytes change) = false /\
  (g_accessControl s' = g_accessControl s /\ g_inviteLinkPassword s' = g_inviteLinkPassword s /\
   g_isAnnouncementGroup s' = g_isAnnouncementGroup s /\ g_bannedMembers s' = g_bannedMembers s /\ g_terminated s' = false) /\
  (meetsRoleAccessRequirement (editor_role s change) (ac_attributes (g_accessControl s)) = false ->
   g_title s' = g_title s /\ g_avatar s' = g_avatar s /\ g_description s' = g_description s /\
   g_disappearingMessagesTimer s' = g_disappearingMessagesTimer s) /\
  (forall m, m ∈ g_members s -> ch_editorServiceIdBytes change <> SERVICE_ID_ACI :: mb_aciBytes m ->
   exists m', m' ∈ g_members s' /\ set_labels [] [] m' = set_labels [] [] m) /\
  (forall m, m ∈ g_members s' -> mb_role m = ROLE_ADMINISTRATOR ->
   (exists m0, m0 ∈ g_members s /\ mb_aciBytes m0 = mb_aciBytes m /\ mb_role m0 = ROLE_ADMINISTRATOR) \/
   ((ch_editorServiceIdBytes change = SERVICE_ID_ACI :: mb_aciBytes m \/
     exists a, a ∈ ch_promotePendingPniAciMembers change /\ ch_editorServiceIdBytes change = SERVICE_ID_PNI :: pp_pniBytes a /\
       pp_aciBytes a = mb_aciBytes m) /\
    exists p, p ∈ g_pendingMembers s /\ pn_serviceIdBytes p = ch_editorServiceIdBytes change /\ pn_role p = ROLE_ADMINISTRATOR)) /\
  (length (ch_promotePendingPniAciMembers change) <=
     length (filter (fun p => pn_serviceIdBytes p = ch_editorServiceIdBytes change) (g_pendingMembers s)))%nat.
Proof.
  intros (Hauth & Hs & Hap & _)%accept_inv Hrole. apply structure_nil in Hs as (_ & _ & _ & _ & _ & Hact & _).
  apply apply_inv in Hap as (s1 & Ht & _ & Hrun & Hterm & ->).
  pose proof (authorization_confined Hrole Hauth) as Hc. pose proof (actions_scalars _ _ _ Hrun) as Hsame.
  pose proof (actions_preserve (confined_state change s) _ _ _ (fun m Hm => actions_confined s change m Hc Hm) (confined_start _ _) Hrun) as (K1 & K2 & _ & K4).
  split; [|split; [|split; [|split; [exact K1|split; [exact K2|]]]]].
  - apply not_true_iff_false. intros Hb. by apply (banned_refused s change) in Hb.
  - destruct Hc as [_ _ _ _ _ _ _ _ _ (A1 & A2 & A3 & A4) (P1 & P2) Hnt _]. cbn. rewrite A1, A2, A3, A4, P1, P2, bool_decide_eq_false_2, Hsame by done. cbn.
    rewrite Ht. by destruct (g_accessControl s).
  - intros Hm. destruct (cf_attributes _ _ Hc Hm) as (T1 & T2 & T3 & T4). cbn. rewrite T1, T2, T3, T4, Hsame. done.
  - eapply pni_promotions_invited; [exact (cf_pniPromotions _ _ Hc)|exact Hrun].
Qed.

(** ** A small group *)
Definition crew_aci (i : Z) : bytes := replicate 16 i.
Definition crew_member (i role : Z) : DecryptedMember := new_member (crew_aci i) role (replicate 32 i) (Some 1).
Definition crew_invitation (i role : Z) : DecryptedPendingMember := {|
  pn_serviceIdBytes := SERVICE_ID_ACI :: crew_aci i; pn_role := role; pn_addedByAci := Some (crew_aci 1); pn_timestamp := Some 1000;
  pn_serviceIdCipherText := []; pn_quarantined := false |}.

Definition crew : DecryptedGroup := {|
  g_title := [84]; g_avatar := []; g_disappearingMessagesTimer := 0; g_accessControl := defaultAccessControl; g_revision := 5;
  g_members := [crew_member 1 ROLE_ADMINISTRATOR; crew_member 2 ROLE_DEFAULT];
  g_pendingMembers := [crew_invitation 3 ROLE_ADMINISTRATOR]; g_requestingMembers := []; g_inviteLinkPassword := []; g_description := [];
  g_isAnnouncementGroup := STATE_DISABLED;
  g_bannedMembers := [{| bn_serviceIdBytes := SERVICE_ID_ACI :: crew_aci 9; bn_timestamp := Some 1000; bn_serviceIdCipherText := None; bn_quarantined := false |}];
  g_terminated := false |}.

(** Member 2 adds member 4 and renames the group; the invited account 3
    joins; as an administrator it removes member 1 and terminates the group. *)
Definition crew_adds : DecryptedGroupChange :=
  let c := emptyGroupChange (SERVICE_ID_ACI :: crew_aci 2) 6 in {|
  ch_editorServiceIdBytes := ch_editorServiceIdBytes c; ch_revision := ch_revision c;
  ch_newMembers := [{| am_aciBytes := crew_aci 4; am_role := ROLE_DEFAULT; am_profileKey := replicate 32 4; am_joinedAtRevision := Some 6 |}];
  ch_deleteMembers := []; ch_modifyMemberRoles := []; ch_modifiedProfileKeys := [];
  ch_newPendingMembers := []; ch_deletePendingMembers := []; ch_promotePendingMembers := [];
  ch_newTitle := Some [85]; ch_newAvatar := None; ch_newTimer := None;
  ch_newAttributeAccess := None; ch_newMemberAccess := None; ch_newInviteLinkAccess := None; ch_newMemberLabelAccess := None;
  ch_newRequestingMembers := []; ch_deleteRequestingMembers := []; ch_promoteRequestingMembers := [];
  ch_newInviteLinkPassword := None; ch_newDescription := None; ch_newIsAnnouncementGroup := None;
  ch_newBannedMembers := []; ch_deleteBannedMembers := []; ch_promotePendingPniAciMembers := []; ch_modifyMemberLabels := [];
  ch_terminate := None |}.

Definition crew_joins (revision : Z) : DecryptedGroupChange :=
  let c := emptyGroupChange (SERVICE_ID_ACI :: crew_aci 3) revision in {|
  ch_editorServiceIdBytes := ch_editorServiceIdBytes c; ch_revision := ch_revision c;
  ch_newMembers := []; ch_deleteMembers := []; ch_modifyMemberRoles := []; ch_modifiedProfileKeys := [];
  ch_newPendingMembers := []; ch_deletePendingMembers := [];
  ch_promotePendingMembers := [{| pp_aciBytes := crew_aci 3; pp_profileKey := replicate 32 3; pp_role := Some ROLE_ADMINISTRATOR;
    pp_joinedAtRevision := Some revision; pp_pniBytes := [] |}];
  ch_newTitle := None; ch_newAvatar := None; ch_newTimer := None;
  ch_newAttributeAccess := None; ch_newMemberAccess := None; ch_newInviteLinkAccess := None; ch_newMemberLabelAccess := None;
  ch_newRequestingMembers := []; ch_deleteRequestingMembers := []; ch_promoteRequestingMembers := [];
  ch_newInviteLinkPassword := None; ch_newDescription := None; ch_newIsAnnouncementGroup := None;
  ch_newBannedMembers := []; ch_deleteBannedMembers := []; ch_promotePendingPniAciMembers := []; ch_modifyMemberLabels := [];
  ch_terminate := None |}.

Definition crew_ends : DecryptedGroupChange :=
  let c := emptyGroupChange (SERVICE_ID_ACI :: crew_aci 3) 8 in {|
  ch_editorServiceIdBytes := ch_editorServiceIdBytes c; ch_revision := ch_revision c;
  ch_newMembers := []; ch_deleteMembers := [crew_aci 1]; ch_modifyMemberRoles := []; ch_modifiedProfileKeys := [];
  ch_newPendingMembers := []; ch_deletePendingMembers := []; ch_promotePendingMembers := [];
  ch_newTitle := None; ch_newAvatar := None; ch_newTimer := None;
  ch_newAttributeAccess := None; ch_newMemberAccess := None; ch_newInviteLinkAccess := None; ch_newMemberLabelAccess := None;
  ch_newRequestingMembers := []; ch_deleteRequestingMembers := []; ch_promoteRequestingMembers := [];
  ch_newInviteLinkPassword := None; ch_newDescription := None; ch_newIsAnnouncementGroup := None;
  ch_newBannedMembers := []; ch_deleteBannedMembers := []; ch_promotePendingPniAciMembers := []; ch_modifyMemberLabels := [];
  ch_terminate := Some true |}.

Definition crew_after (changes : list DecryptedGroupChange) : DecryptedGroup :=
  match foldM_result acceptChange crew changes with Ok s => s | Throw _ => crew end.

Lemma crew_distinct : distinct crew.
Proof. unfold distinct. vm_compute. repeat split; repeat constructor; set_solver. Qed.

Lemma accepted_changes_valid_witness :
  let s' := crew_after [crew_adds; crew_joins 7; crew_ends] in
  group_valid s' /\ distinct s' /\ g_revision s' = g_revision crew + 3 /\ g_terminated crew = false /\
  (g_terminated s' = true \/ exists m, m ∈ g_members s' /\ mb_role m = ROLE_ADMINISTRATOR).
Proof.
  apply (accepted_changes_valid crew _ [crew_adds; crew_joins 7; crew_ends]); [done|apply crew_distinct|]. vm_compute. reflexivity.
Defined.

Lemma member_change_confined_witness :
  g_bannedMembers (crew_after [crew_adds]) = g_bannedMembers crew /\
  (forall m, m ∈ g_members (crew_after [crew_joins 6]) -> mb_role m = ROLE_ADMINISTRATOR ->
   (exists m0, m0 ∈ g_members crew /\ mb_aciBytes m0 = mb_aciBytes m /\ mb_role m0 = ROLE_ADMINISTRATOR) \/
   ((SERVICE_ID_ACI :: crew_aci 3 = SERVICE_ID_ACI :: mb_aciBytes m \/
     exists a, a ∈ ch_promotePendingPniAciMembers (crew_joins 6) /\ SERVICE_ID_ACI :: crew_aci 3 = SERVICE_ID_PNI :: pp_pniBytes a /\
       pp_aciBytes a = mb_aciBytes m) /\
    exists p, p ∈ g_pendingMembers crew /\ pn_serviceIdBytes p = SERVICE_ID_ACI :: crew_aci 3 /\ pn_role p = ROLE_ADMINISTRATOR)).
Proof.
  split.
  - destruct (member_change_confined crew (crew_after [crew_adds]) crew_adds) as (_ & (_ & _ & _ & Hb & _) & _); [vm_compute; reflexivity|done|exact Hb].
  - destruct (member_change_confined crew (crew_after [crew_joins 6]) (crew_joins 6)) as (_ & _ & _ & _ & Ha & _); [vm_compute; reflexivity|done|exact Ha].
Defined.
