(* ===== verification/SealedSenderWire.v ===== *)
(** * Sealed-sender formats ([protocol/sealed-sender/multi-recipient-message.ts],
    [proto/index.ts], [certificate.ts])

    The binary message for many recipients, the view of one device, and the
    certificates.  Base64 strings stand for their bytes.  A number read from a
    fixed64 field is kept exact where the source rounds it above [2^53]; the
    checks for safe integers refuse both alike. *)
From S2P Require Import Prelude ProtoWire Utf8 Base64 SignalMessage Crypto.

(** ** Service ids *)
Definition ACI_MARKER : Z := 0x00.
Definition SERVICE_ID_WIRE_SIZE : Z := 17.
Definition UUID_BYTES : Z := 16.
Definition ENCRYPTED_KEY_SIZE : Z := 32.
Definition AUTH_TAG_SIZE : Z := 16.
Definition EPHEMERAL_PUBLIC_SIZE : Z := 32.
Definition REG_ID_MASK : Z := 0x3fff.
Definition HAS_MORE_DEVICES_FLAG : Z := 0x8000.
Definition EXCLUDED_RECIPIENT_DEVICE_ID : Z := 0x00.
Definition SEALED_SENDER_V2_UUID_VERSION : Z := 0x22.
Definition SEALED_SENDER_V2_SERVICE_ID_VERSION : Z := 0x23.

(** A code unit between two others. *)
Definition between (a c b : Z) : bool := (a <=? c) && (c <=? b).

(** [/^[0-9a-f]$/i] and the digit's value. *)
Definition hex_value (c : Z) : option Z :=
  if between 0x30 c 0x39 then Some (c - 0x30)
  else if between 0x61 c 0x66 then Some (c - 0x61 + 10)
  else if between 0x41 c 0x46 then Some (c - 0x41 + 10)
  else None.

(** [parseInt(hex.substring(2 * i, 2 * i + 2), 16)] for every [i]. *)
Fixpoint parse_hex (s : jsstring) : bytes :=
  match s with
  | a :: b :: s => (default 0 (hex_value a) * 16 + default 0 (hex_value b)) :: parse_hex s
  | _ => []
  end.

(** [/^[A-Za-z0-9_-]$/] *)
Definition base64url_char (c : Z) : bool :=
  between 0x41 c 0x5a || between 0x61 c 0x7a || between 0x30 c 0x39 || (c =? 0x5f) || (c =? 0x2d).

Definition urlSafeToBase64 (urlSafe : jsstring) : jsstring :=
  let base64 := map (fun c => if c =? 0x2d then 0x2b else if c =? 0x5f then 0x2f else c) urlSafe in
  let pad := len base64 mod 4 in
  if pad =? 2 then base64 ++ [PAD; PAD] else if pad =? 3 then base64 ++ [PAD] else base64.

(** [stripBase64Padding] *)
Fixpoint strip_padding (base64 : jsstring) : jsstring :=
  match base64 with
  | [] => []
  | c :: s => match strip_padding s with [] => if c =? PAD then [] else [c] | s' => c :: s' end
  end.

Definition bytesToUrlSafeBase64 (b : bytes) : jsstring :=
  strip_padding (map (fun c => if c =? 0x2b then 0x2d else if c =? 0x2f then 0x5f else c) (bytesToBase64 b)).

Definition serviceIdToBytes (serviceId : jsstring) : result bytes :=
  let hex := List.filter (fun c => negb (c =? 0x2d)) serviceId in
  let wrong := Error "serviceId must encode exactly 16 bytes as UUID or base64url" in
  if (len hex =? 32) && forallb (fun c => bool_decide (is_Some (hex_value c))) hex then Ok (parse_hex hex)
  else if (len serviceId =? 22) && forallb base64url_char serviceId then
    b ← base64ToBytesPortable (urlSafeToBase64 serviceId);
    if len b =? UUID_BYTES then Ok b else Throw wrong
  else Throw wrong.

(** [b.toString(16).padStart(2, '0')] *)
Definition hex_char (d : Z) : Z := if d <? 10 then 0x30 + d else 0x61 + (d - 10).
Definition to_hex (b : bytes) : jsstring := concat (map (fun x => [hex_char (x / 16); hex_char (x mod 16)]) b).

Definition bytesToServiceId (b : bytes) : result jsstring :=
  if negb (len b =? UUID_BYTES) then Throw (Error "Expected 16 bytes for ServiceId")
  else
    let hex := to_hex b in
    Ok (slice hex 0 8 ++ [0x2d] ++ slice hex 8 12 ++ [0x2d] ++ slice hex 12 16 ++ [0x2d] ++ slice hex 16 20 ++ [0x2d] ++ slice hex 20 32).

(** ** The message for many recipients *)
Record WireDevice := { wd_deviceId : Z; wd_registrationId : Z }.

(** [SentMessageRecipient], [ParsedSentRecipient] *)
Record SentMessageRecipient := {
  sr_serviceId : jsstring; sr_devices : list WireDevice; sr_encryptedMessageKey : bytes; sr_authenticationTag : bytes }.

Definition service_id_bytes (serviceId : jsstring) : result bytes := b ← serviceIdToBytes serviceId; Ok (ACI_MARKER :: b).

Definition device_bytes (d : WireDevice) (isLast : bool) : bytes :=
  let regIdWithFlag := js_or (js_and (wd_registrationId d) REG_ID_MASK) (if isLast then 0x0000 else HAS_MORE_DEVICES_FLAG) in
  [js_and (wd_deviceId d) 0xff; js_and (js_shr regIdWithFlag 8) 0xff; js_and regIdWithFlag 0xff].

Fixpoint device_list (l : list WireDevice) : bytes :=
  match l with
  | [] => []
  | [d] => device_bytes d true
  | d :: l => device_bytes d false ++ device_list l
  end.

Definition recipient_bytes (r : SentMessageRecipient) : result bytes :=
  throw_when (len (sr_devices r) =? 0) (Error "Included recipient must have at least one device") ;;
  throw_when (negb (len (sr_encryptedMessageKey r) =? ENCRYPTED_KEY_SIZE)) (Error "encryptedMessageKey must be 32 bytes") ;;
  throw_when (negb (len (sr_authenticationTag r) =? AUTH_TAG_SIZE)) (Error "authenticationTag must be 16 bytes") ;;
  id ← service_id_bytes (sr_serviceId r);
  Ok (id ++ device_list (sr_devices r) ++ sr_encryptedMessageKey r ++ sr_authenticationTag r).

Definition excluded_bytes (serviceId : jsstring) : result bytes :=
  id ← service_id_bytes serviceId; Ok (id ++ [EXCLUDED_RECIPIENT_DEVICE_ID]).

Definition serializeSentMessage (recipients : list SentMessageRecipient) (excludedRecipients : list jsstring)
    (ephemeralPublic messageCiphertext : bytes) : result bytes :=
  throw_when (negb (len ephemeralPublic =? EPHEMERAL_PUBLIC_SIZE)) (Error "ephemeralPublic must be 32 bytes") ;;
  count ← encodeVarint (Int (len recipients + len excludedRecipients));
  included ← mapM_result recipient_bytes recipients;
  excluded ← mapM_result excluded_bytes excludedRecipients;
  Ok (concatFields ([[SEALED_SENDER_V2_SERVICE_ID_VERSION]; count] ++ included ++ excluded ++ [ephemeralPublic; messageCiphertext])).

Record DeserializedSentMessage := {
  ds_recipients : list SentMessageRecipient; ds_excludedRecipients : list jsstring;
  ds_ephemeralPublic : bytes; ds_messageCiphertext : bytes }.

(** The [while (hasMore)] loop; a round consumes three bytes, so the length of
    the message is enough fuel. *)
Fixpoint parse_devices (fuel : nat) (data : bytes) (offset : Z) : result (list WireDevice * Z) :=
  match fuel with
  | O => Throw (Error "out of fuel")
  | S fuel =>
      throw_when (offset + 3 >? len data) (Error "Truncated device entry") ;;
      let deviceId := byte_at data offset in
      let regIdWithFlag := js_or (js_shl (byte_at data (offset + 1)) 8) (byte_at data (offset + 2)) in
      let d := {| wd_deviceId := deviceId; wd_registrationId := js_and regIdWithFlag REG_ID_MASK |} in
      if negb (js_and regIdWithFlag HAS_MORE_DEVICES_FLAG =? 0) then
        '(l, offset) ← parse_devices fuel data (offset + 3);
        Ok (d :: l, offset)
      else Ok ([d], offset + 3)
  end.

(** One round of the loop over the recipients: an included or an excluded one. *)
Definition parse_recipient (data : bytes) (offset : Z) : result ((SentMessageRecipient + jsstring) * Z) :=
  throw_when (offset + SERVICE_ID_WIRE_SIZE >? len data) (Error "Truncated ServiceId") ;;
  serviceId ← bytesToServiceId (slice data (offset + 1) (offset + 1 + UUID_BYTES));
  let offset := offset + 1 + UUID_BYTES in
  throw_when (offset >=? len data) (Error "Truncated device list") ;;
  if byte_at data offset =? EXCLUDED_RECIPIENT_DEVICE_ID then Ok (inr serviceId, offset + 1)
  else
    '(devices, offset) ← parse_devices (length data) data offset;
    throw_when (offset + ENCRYPTED_KEY_SIZE + AUTH_TAG_SIZE >? len data) (Error "Truncated key material") ;;
    let tag_at := offset + ENCRYPTED_KEY_SIZE in
    Ok (inl {| sr_serviceId := serviceId; sr_devices := devices;
               sr_encryptedMessageKey := slice data offset tag_at;
               sr_authenticationTag := slice data tag_at (tag_at + AUTH_TAG_SIZE) |}, tag_at + AUTH_TAG_SIZE).

Fixpoint parse_recipients (count : nat) (data : bytes) (offset : Z) : result (list SentMessageRecipient * list jsstring * Z) :=
  match count with
  | O => Ok ([], [], offset)
  | S count =>
      '(x, offset) ← parse_recipient data offset;
      '(included, excluded, offset) ← parse_recipients count data offset;
      Ok (match x with inl r => (r :: included, excluded, offset) | inr s => (included, s :: excluded, offset) end)
  end.

Definition deserializeSentMessage (data : bytes) : result DeserializedSentMessage :=
  throw_when (len data <? 1) (Error "Empty sealed sender V2 message") ;;
  throw_when (negb (byte_at data 0 =? SEALED_SENDER_V2_SERVICE_ID_VERSION)) (Error "Unexpected version byte") ;;
  '(recipientCount, countBytes) ← decodeVarint data 1;
  '(recipients, excluded, offset) ← parse_recipients (Z.to_nat recipientCount) data (1 + countBytes);
  throw_when (offset + EPHEMERAL_PUBLIC_SIZE >? len data) (Error "Truncated ephemeral public key") ;;
  let body_at := offset + EPHEMERAL_PUBLIC_SIZE in
  Ok {| ds_recipients := recipients; ds_excludedRecipients := excluded;
        ds_ephemeralPublic := slice data offset body_at; ds_messageCiphertext := slice data body_at (len data) |}.

(** ** The view of one device *)
Definition serializeReceivedMessage (encryptedMessageKey authenticationTag ephemeralPublic messageCiphertext : bytes) : result bytes :=
  throw_when (negb (len encryptedMessageKey =? ENCRYPTED_KEY_SIZE)) (Error "encryptedMessageKey must be 32 bytes") ;;
  throw_when (negb (len authenticationTag =? AUTH_TAG_SIZE)) (Error "authenticationTag must be 16 bytes") ;;
  throw_when (negb (len ephemeralPublic =? EPHEMERAL_PUBLIC_SIZE)) (Error "ephemeralPublic must be 32 bytes") ;;
  Ok (concatFields [[SEALED_SENDER_V2_UUID_VERSION]; encryptedMessageKey; authenticationTag; ephemeralPublic; messageCiphertext]).

Record DeserializedReceivedMessage := {
  dr_encryptedMessageKey : bytes; dr_authenticationTag : bytes; dr_ephemeralPublic : bytes; dr_messageCiphertext : bytes }.

Definition deserializeReceivedMessage (data : bytes) : result DeserializedReceivedMessage :=
  throw_when (len data <? 1 + ENCRYPTED_KEY_SIZE + AUTH_TAG_SIZE + EPHEMERAL_PUBLIC_SIZE) (Error "Received message too short") ;;
  throw_when (negb (byte_at data 0 =? SEALED_SENDER_V2_UUID_VERSION)) (Error "Unexpected received message version") ;;
  let tag_at := 1 + ENCRYPTED_KEY_SIZE in
  let key_at := tag_at + AUTH_TAG_SIZE in
  let body_at := key_at + EPHEMERAL_PUBLIC_SIZE in
  Ok {| dr_encryptedMessageKey := slice data 1 tag_at; dr_authenticationTag := slice data tag_at key_at;
        dr_ephemeralPublic := slice data key_at body_at; dr_messageCiphertext := slice data body_at (len data) |}.

(** ** Certificates *)
(** [ServerCertificateProto], [SenderCertificateProto] *)
Record SignedProto := { sp_certificate : bytes; sp_signature : bytes }.

Definition encodeSenderCertificate (cert : SignedProto) : result bytes :=
  f1 ← encodeBytesField 1 (sp_certificate cert);
  f2 ← encodeBytesField 2 (sp_signature cert);
  Ok (concatFields [f1; f2]).

Definition signed_field (fieldNumber : Z) (a : SignedProto) : M ProtoReader SignedProto :=
  if fieldNumber =? 1 then assign (fun v a => {| sp_certificate := v; sp_signature := sp_signature a |}) a readBytes
  else if fieldNumber =? 2 then assign (fun v a => {| sp_certificate := sp_certificate a; sp_signature := v |}) a readBytes
  else assign (fun _ a => a) a skipField.

Definition decodeSenderCertificate (b : bytes) : result SignedProto :=
  (read_fields (length b) signed_field {| sp_certificate := []; sp_signature := [] |} (new_ProtoReader b)).2.
Definition decodeServerCertificate (b : bytes) : result SignedProto :=
  (read_fields (length b) signed_field {| sp_certificate := []; sp_signature := [] |} (new_ProtoReader b)).2.

Record ServerCertificateData := { sv_id : Z; sv_key : bytes; sv_notBefore : Z; sv_notAfter : Z }.

Definition server_field (fieldNumber : Z) (a : ServerCertificateData) : M ProtoReader ServerCertificateData :=
  let '(Build_ServerCertificateData id key nb na) := a in
  if fieldNumber =? 1 then assign (fun v _ => Build_ServerCertificateData v key nb na) a readUint32
  else if fieldNumber =? 2 then assign (fun v _ => Build_ServerCertificateData id v nb na) a readBytes
  else if fieldNumber =? 3 then assign (fun v _ => Build_ServerCertificateData id key v na) a readFixed64
  else if fieldNumber =? 4 then assign (fun v _ => Build_ServerCertificateData id key nb v) a readFixed64
  else assign (fun _ a => a) a skipField.

Definition decodeServerCertificateData (b : bytes) : result ServerCertificateData :=
  (read_fields (length b) server_field (Build_ServerCertificateData 0 [] 0 0) (new_ProtoReader b)).2.

Record SenderCertificateData := {
  sc_senderE164 : jsstring; sc_senderUuid : jsstring; sc_senderDevice : Z; sc_expires : Z;
  sc_identityKey : bytes; sc_signerCertificate : bytes; sc_relayScopeId : bytes }.

Definition readString : M ProtoReader jsstring := M_bind (fun b => M_lift (utf8DecodePortable false b)) readBytes.

Definition sender_field (fieldNumber : Z) (a : SenderCertificateData) : M ProtoReader SenderCertificateData :=
  let '(Build_SenderCertificateData e u d x k s r) := a in
  if fieldNumber =? 1 then assign (fun v _ => Build_SenderCertificateData v u d x k s r) a readString
  else if fieldNumber =? 2 then assign (fun v _ => Build_SenderCertificateData e u v x k s r) a readUint32
  else if fieldNumber =? 3 then assign (fun v _ => Build_SenderCertificateData e u d v k s r) a readFixed64
  else if fieldNumber =? 4 then assign (fun v _ => Build_SenderCertificateData e u d x v s r) a readBytes
  else if fieldNumber =? 5 then assign (fun v _ => Build_SenderCertificateData e u d x k v r) a readBytes
  else if fieldNumber =? 6 then assign (fun v _ => Build_SenderCertificateData e v d x k s r) a readString
  else if fieldNumber =? 7 then assign (fun v _ => Build_SenderCertificateData e u d x k s v) a readBytes
  else assign (fun _ a => a) a skipField.

Definition decodeSenderCertificateData (b : bytes) : result SenderCertificateData :=
  (read_fields (length b) sender_field (Build_SenderCertificateData [] [] 0 0 [] [] []) (new_ProtoReader b)).2.

Record ServerCertificate := {
  vc_id : Z; vc_publicKey : bytes; vc_notBefore : Z; vc_notAfter : Z; vc_certificateBytes : bytes; vc_signature : bytes }.

Record SenderCertificate := {
  senderUuid : jsstring; senderDeviceId : Z; senderIdentityKey : bytes; expires : Z; senderE164 : option jsstring;
  relayScopeId : bytes; signer : ServerCertificate; certificateBytes : bytes; certificateSignature : bytes }.

Definition serializeSenderCertificate (cert : SenderCertificate) : result bytes :=
  encodeSenderCertificate {| sp_certificate := certificateBytes cert; sp_signature := certificateSignature cert |}.

Definition VERIFICATION_FAILED : exn := Error "Sealed sender verification failed".

(** [try { ... } catch { throw new Error(GENERIC_ERROR) }] *)
Definition or_failed {A} (r : result A) : result A := match r with Ok a => Ok a | Throw _ => Throw VERIFICATION_FAILED end.

Definition empty {A} (l : list A) : bool := len l =? 0.

Definition deserializeSenderCertificate (b : bytes) : result SenderCertificate := or_failed (
  let missing := Error "missing required fields" in
  outer ← decodeSenderCertificate b;
  throw_when (empty (sp_certificate outer) || empty (sp_signature outer)) missing ;;
  inner ← decodeSenderCertificateData (sp_certificate outer);
  throw_when (empty (sc_senderUuid inner) || empty (sc_identityKey inner) || empty (sc_signerCertificate inner) ||
              negb (len (sc_relayScopeId inner) =? 16)) missing ;;
  signerOuter ← decodeServerCertificate (sc_signerCertificate inner);
  throw_when (empty (sp_certificate signerOuter) || empty (sp_signature signerOuter)) missing ;;
  signerInner ← decodeServerCertificateData (sp_certificate signerOuter);
  throw_when (empty (sv_key signerInner) || negb (isSafeInteger (sv_notBefore signerInner)) || negb (isSafeInteger (sv_notAfter signerInner)) ||
              (sv_notBefore signerInner <=? 0) || (sv_notAfter signerInner <? sv_notBefore signerInner)) missing ;;
  Ok {| senderUuid := sc_senderUuid inner; senderDeviceId := sc_senderDevice inner; senderIdentityKey := sc_identityKey inner;
        expires := sc_expires inner;
        senderE164 := match sc_senderE164 inner with [] => None | e => Some e end;
        relayScopeId := sc_relayScopeId inner;
        signer := {| vc_id := sv_id signerInner; vc_publicKey := sv_key signerInner; vc_notBefore := sv_notBefore signerInner;
                     vc_notAfter := sv_notAfter signerInner; vc_certificateBytes := sp_certificate signerOuter;
                     vc_signature := sp_signature signerOuter |};
        certificateBytes := sp_certificate outer; certificateSignature := sp_signature outer |}).

Record SenderCertificateValidationPolicy := { expectedRelayScopeId : bytes; revokedIssuerKeyIds : option (list Z) }.

Definition REVOKED_CERTIFICATE_IDS : list Z := [].
Definition includes (l : list Z) (x : Z) : bool := existsb (Z.eqb x) l.

Section Validation.
Context {E : Ed25519}.

(** The loop over the trust roots, which runs through all of them. *)
Definition any_root_verifies (trustRoots : list bytes) (cert : ServerCertificate) : bool :=
  fold_left (fun anyValid root => anyValid || crypto_verify root (vc_certificateBytes cert) (vc_signature cert)) trustRoots false.

Definition validateSenderCertificate (cert : SenderCertificate) (trustRoots : list bytes) (now : Z)
    (policy : SenderCertificateValidationPolicy) : result unit :=
  let s := signer cert in
  throw_when (len trustRoots =? 0) VERIFICATION_FAILED ;;
  throw_when (negb (len (expectedRelayScopeId policy) =? 16)) VERIFICATION_FAILED ;;
  throw_when (includes REVOKED_CERTIFICATE_IDS (vc_id s) ||
              match revokedIssuerKeyIds policy with Some l => includes l (vc_id s) | None => false end) VERIFICATION_FAILED ;;
  throw_when (negb (len (relayScopeId cert) =? 16) || negb (constantTimeEqual (relayScopeId cert) (expectedRelayScopeId policy))) VERIFICATION_FAILED ;;
  throw_when (negb (isSafeInteger (expires cert)) || (expires cert <=? 0) || (vc_notBefore s >? vc_notAfter s) ||
              negb (isSafeInteger (vc_notBefore s)) || negb (isSafeInteger (vc_notAfter s)) || (vc_notBefore s <=? 0) ||
              (now <? vc_notBefore s) || (now >? vc_notAfter s) || (expires cert >? vc_notAfter s)) VERIFICATION_FAILED ;;
  throw_when (negb (any_root_verifies trustRoots s)) VERIFICATION_FAILED ;;
  throw_when (negb (crypto_verify (vc_publicKey s) (certificateBytes cert) (certificateSignature cert))) VERIFICATION_FAILED ;;
  throw_when (now >? expires cert) VERIFICATION_FAILED.

Definition validateServerCertificate (cert : ServerCertificate) (trustRoots : list bytes) (currentTime : Z) : result unit :=
  throw_when (includes REVOKED_CERTIFICATE_IDS (vc_id cert)) VERIFICATION_FAILED ;;
  throw_when (negb (isSafeInteger (vc_notBefore cert)) || negb (isSafeInteger (vc_notAfter cert)) || (vc_notBefore cert <=? 0) ||
              (vc_notAfter cert <? vc_notBefore cert) || (currentTime <? vc_notBefore cert) || (currentTime >? vc_notAfter cert)) VERIFICATION_FAILED ;;
  throw_when (negb (len (vc_publicKey cert) =? 32)) VERIFICATION_FAILED ;;
  throw_when (negb (any_root_verifies trustRoots cert)) VERIFICATION_FAILED.
End Validation.
