(* ===== verification/SealedSender.v ===== *)
(** * Sealed sender ([protocol/sealed-sender/multi-recipient-crypto.ts],
    [encryption.ts], [decryption.ts], [client/sealed-sender.ts],
    [client/group-sealed-sender.ts], [client/hosted-anonymous-delivery.ts])

    One message key for all recipients: each recipient gets the key xored with
    a key of its own, and a tag over the identities of both sides.  The random
    key material is an argument; the zeroing of secrets is left out.  AES-GCM-SIV
    of the third-party package is an operation of a class. *)
From S2P Require Import Prelude JsMap ProtoWire Utf8 Base64 SignalMessage Crypto Identity DoubleRatchet SessionRecord SessionStore SealedSenderWire.

Class AesGcmSiv := {
  gcm_siv_encrypt : bytes -> bytes -> bytes -> bytes;          (* key, nonce, plaintext *)
  gcm_siv_decrypt : bytes -> bytes -> bytes -> result bytes }. (* key, nonce, ciphertext *)

(** AES-GCM-SIV decrypts what it encrypted, and appends a tag of 16 bytes. *)
Class AesGcmSivLaws (G : AesGcmSiv) : Prop := {
  gcm_siv_correct : forall k n p, length k = 32%nat -> length n = 12%nat -> is_bytes p ->
    gcm_siv_decrypt k n (gcm_siv_encrypt k n p) = Ok p /\ is_bytes (gcm_siv_encrypt k n p) /\
    len (gcm_siv_encrypt k n p) = len p + 16 }.

Definition AES_GCM_SIV_KEY_BYTES : Z := 32.
Definition AES_GCM_SIV_NONCE_BYTES : Z := 12.
Definition ZERO_NONCE : bytes := replicate 12 0.

Definition gcm_siv_checks (key nonce : bytes) : result unit :=
  throw_when (negb (len key =? AES_GCM_SIV_KEY_BYTES)) (Error "AES-GCM-SIV key must be 32 bytes") ;;
  throw_when (negb (len nonce =? AES_GCM_SIV_NONCE_BYTES)) (Error "AES-GCM-SIV nonce must be 12 bytes").
Definition aesGcmSivEncrypt `{AesGcmSiv} (key nonce plaintext : bytes) : result bytes :=
  gcm_siv_checks key nonce ;; Ok (gcm_siv_encrypt key nonce plaintext).
Definition aesGcmSivDecrypt `{AesGcmSiv} (key nonce ciphertext : bytes) : result bytes :=
  gcm_siv_checks key nonce ;;
  match gcm_siv_decrypt key nonce ciphertext with Ok p => Ok p | Throw _ => Throw (Error "Authentication failed") end.
Definition aesGcmSivEncryptZeroNonce `{AesGcmSiv} (key plaintext : bytes) : result bytes := aesGcmSivEncrypt key ZERO_NONCE plaintext.
Definition aesGcmSivDecryptZeroNonce `{AesGcmSiv} (key ciphertext : bytes) : result bytes := aesGcmSivDecrypt key ZERO_NONCE ciphertext.

Section SealedSender.
Context {C : RatchetCrypto} {G : AesGcmSiv} {E : Ed25519}.

(** ** Key encapsulation *)
Definition V2_RANDOM_M_BYTES : Z := 32.
Definition V2_AUTH_TAG_LEN : Z := 16.
Definition V2_LABEL_R : bytes := bytes_of_string "Sealed Sender v2: r (2023-08)".
Definition V2_LABEL_K : bytes := bytes_of_string "Sealed Sender v2: K".
Definition V2_LABEL_DH : bytes := bytes_of_string "Sealed Sender v2: DH".
Definition V2_LABEL_DH_S : bytes := bytes_of_string "Sealed Sender v2: DH-sender".

Definition V2_FAILED : exn := Error "Sealed sender V2 operation failed".

(** [x25519.getPublicKey], [x25519.getSharedSecret] of the curve library: keys
    of another length than 32 and the zero point are refused. *)
Definition getPublicKey (priv : bytes) : result bytes :=
  throw_when (negb (len priv =? 32)) (Error "expected Uint8Array of length 32") ;; Ok (x25519_public priv).
Definition getSharedSecret (priv pub : bytes) : result bytes :=
  throw_when (negb (len priv =? 32) || negb (len pub =? 32)) (Error "expected Uint8Array of length 32") ;;
  throw_when (bool_decide (x25519 priv pub = replicate 32 0)) (Error "invalid private or public key received") ;;
  Ok (x25519 priv pub).

Definition deriveCipherKeyFromM (m : bytes) : bytes := hkdf m [] V2_LABEL_K 32.
Definition deriveEphemeralPrivateFromM (m : bytes) : bytes := hkdf m [] V2_LABEL_R 32.
Definition deriveEphemeralFromM (m : bytes) : result KeyPair :=
  let priv := deriveEphemeralPrivateFromM m in
  pub ← getPublicKey priv;
  Ok {| publicKey := pub; privateKey := priv |}.

(** [serializePublicKey] of this module: [set] of more than 32 bytes throws, of
    fewer leaves zeros. *)
Definition serialize_raw (raw32 : bytes) : result bytes :=
  throw_when (len raw32 >? 32) (CodedError "RangeError" "offset is out of bounds") ;;
  Ok (0x05 :: raw32 ++ replicate (32 - length raw32) 0).

Inductive AgreementDirection := sending | receiving.

Definition applyAgreementXor (ourPrivate ephemeralPublic theirPublic : bytes) (direction : AgreementDirection) (input : bytes) : result bytes :=
  throw_when (negb (len input =? V2_RANDOM_M_BYTES)) V2_FAILED ;;
  agreement ← getSharedSecret ourPrivate theirPublic;
  ikm ← match direction with
        | sending =>
            e ← serialize_raw ephemeralPublic; t ← serialize_raw theirPublic; Ok (agreement ++ e ++ t)
        | receiving =>
            recipientIdentityPublic ← getPublicKey ourPrivate;
            t ← serialize_raw theirPublic; r ← serialize_raw recipientIdentityPublic; Ok (agreement ++ t ++ r)
        end;
  let xorKey := hkdf ikm [] V2_LABEL_DH 32 in
  Ok (zip_with Z.lxor input xorKey).

Definition computeAuthenticationTag (ourIdentityPrivate ourIdentityPublic theirIdentityPublic ephemeralPublic encryptedMessageKey : bytes)
    (direction : AgreementDirection) : result bytes :=
  identityAgreement ← getSharedSecret ourIdentityPrivate theirIdentityPublic;
  e ← serialize_raw ephemeralPublic;
  ours ← serialize_raw ourIdentityPublic;
  theirs ← serialize_raw theirIdentityPublic;
  let ids := match direction with sending => ours ++ theirs | receiving => theirs ++ ours end in
  Ok (hkdf (identityAgreement ++ e ++ encryptedMessageKey ++ ids) [] V2_LABEL_DH_S (Z.to_nat V2_AUTH_TAG_LEN)).

Definition verifyAuthenticationTag (expected received : bytes) : bool :=
  if negb (len expected =? V2_AUTH_TAG_LEN) || negb (len received =? V2_AUTH_TAG_LEN) then false
  else constantTimeEqual expected received.

(** ** Sealing *)
(** [SealedSenderContentType] *)
Definition CT_PREKEY_MESSAGE : Z := 1.
Definition CT_MESSAGE : Z := 2.
Definition CT_SENDERKEY_MESSAGE : Z := 7.
Definition CT_PLAINTEXT_CONTENT : Z := 8.
Definition isSealedSenderContentType (value : Z) : bool :=
  (value =? CT_PREKEY_MESSAGE) || (value =? CT_MESSAGE) || (value =? CT_SENDERKEY_MESSAGE) || (value =? CT_PLAINTEXT_CONTENT).

Definition serializeEnvelope (certBytes message : bytes) (contentType : Z) (contentHint : option Z) : result bytes :=
  certLen ← encodeVarint (Int (len certBytes));
  msgLen ← encodeVarint (Int (len message));
  Ok ([u8 contentType] ++ certLen ++ certBytes ++ msgLen ++ message ++ [u8 (default 0 contentHint)]).

Record SealRecipient := { rp_serviceId : jsstring; rp_deviceId : Z; rp_registrationId : Z; rp_identityPublic : bytes }.

Record SealedSenderRecipient := {
  se_serviceId : jsstring; se_deviceId : Z; se_registrationId : Z; se_encryptedMessageKey : bytes; se_authenticationTag : bytes }.

Record SealedSenderMessage := {
  sm_version : Z; sm_ephemeralPublic : bytes; sm_recipients : list SealedSenderRecipient; sm_messageCiphertext : bytes }.

(** [group.push(x)] into a map by [key]; a new key goes to the end. *)
Definition group_push {A} (key : A -> jsstring) (groups : Map jsstring (list A)) (x : A) : Map jsstring (list A) :=
  Map_set (key x) (default [] (Map_get (key x) groups) ++ [x]) groups.
Definition group_by {A} (key : A -> jsstring) (l : list A) : Map jsstring (list A) := fold_left (group_push key) l [].

(** The entries of the devices of one user. *)
Definition seal_user (senderPrivate senderPublic : bytes) (ephemeral : KeyPair) (m : bytes) (devices : list SealRecipient) :
    result (list SealedSenderRecipient) :=
  let identityPublic := match devices with d :: _ => rp_identityPublic d | [] => [] end in
  encryptedMessageKey ← applyAgreementXor (privateKey ephemeral) (publicKey ephemeral) identityPublic sending m;
  authenticationTag ← computeAuthenticationTag senderPrivate senderPublic identityPublic (publicKey ephemeral) encryptedMessageKey sending;
  Ok (map (fun d => {| se_serviceId := rp_serviceId d; se_deviceId := rp_deviceId d; se_registrationId := rp_registrationId d;
                       se_encryptedMessageKey := encryptedMessageKey; se_authenticationTag := authenticationTag |}) devices).

Definition sealMultiRecipient (m : bytes) (senderCertificate : SenderCertificate) (senderPrivate senderPublic : bytes)
    (recipients : list SealRecipient) (signalProtocolMessage : bytes) (contentHint : option Z) (contentType : Z) : result SealedSenderMessage :=
  throw_when (len recipients =? 0) (Error "Sealed sender encryption failed") ;;
  ephemeral ← deriveEphemeralFromM m;
  let cipherKey := deriveCipherKeyFromM m in
  certBytes ← serializeSenderCertificate senderCertificate;
  envelope ← serializeEnvelope certBytes signalProtocolMessage contentType contentHint;
  messageCiphertext ← aesGcmSivEncryptZeroNonce cipherKey envelope;
  entries ← mapM_result (fun g => seal_user senderPrivate senderPublic ephemeral m g.2) (group_by rp_serviceId recipients);
  Ok {| sm_version := SEALED_SENDER_V2_UUID_VERSION; sm_ephemeralPublic := publicKey ephemeral; sm_recipients := concat entries;
        sm_messageCiphertext := messageCiphertext |}.

(** ** Unsealing *)
Definition MIN_ENVELOPE_BYTES : Z := 4.

Record Envelope := { ev_certificate : SenderCertificate; ev_message : bytes; ev_contentType : Z; ev_contentHint : Z }.

Definition parseEnvelope (envelope : bytes) : result Envelope :=
  throw_when (len envelope <? MIN_ENVELOPE_BYTES) VERIFICATION_FAILED ;;
  let contentType := byte_at envelope 0 in
  throw_when (negb (isSealedSenderContentType contentType)) VERIFICATION_FAILED ;;
  '(certLen, certLenBytes) ← decodeVarint envelope 1;
  throw_when (certLenBytes =? 0) VERIFICATION_FAILED ;;
  let offset := 1 + certLenBytes in
  throw_when (offset + certLen >? len envelope) VERIFICATION_FAILED ;;
  let certBytes := slice envelope offset (offset + certLen) in
  let offset := offset + certLen in
  '(msgLen, msgLenBytes) ← decodeVarint envelope offset;
  throw_when (msgLenBytes =? 0) VERIFICATION_FAILED ;;
  let offset := offset + msgLenBytes in
  throw_when (offset + msgLen >? len envelope) VERIFICATION_FAILED ;;
  let message := slice envelope offset (offset + msgLen) in
  let offset := offset + msgLen in
  throw_when (offset >=? len envelope) VERIFICATION_FAILED ;;
  let contentHint := byte_at envelope offset in
  throw_when (negb (offset + 1 =? len envelope)) VERIFICATION_FAILED ;;
  certificate ← deserializeSenderCertificate certBytes;
  Ok {| ev_certificate := certificate; ev_message := message; ev_contentType := contentType; ev_contentHint := contentHint |}.

Record SealedSenderMessageContent := {
  ct_senderCertificate : SenderCertificate; ct_signalProtocolMessage : bytes; ct_contentType : Z; ct_contentHint : Z }.

Definition is_recipient (serviceId : jsstring) (deviceId : Z) (r : SealedSenderRecipient) : bool :=
  bool_decide (se_serviceId r = serviceId) && (se_deviceId r =? deviceId).

Definition unseal (sealed : SealedSenderMessage) (recipientPrivate recipientPublic : bytes) (serviceId : jsstring) (deviceId : Z)
    (trustRoots : list bytes) (now : Z) (policy : SenderCertificateValidationPolicy) : result SealedSenderMessageContent :=
  throw_when (negb (sm_version sealed =? SEALED_SENDER_V2_UUID_VERSION) && negb (sm_version sealed =? SEALED_SENDER_V2_SERVICE_ID_VERSION))
    VERIFICATION_FAILED ;;
  myRecipient ← required (List.find (is_recipient serviceId deviceId) (sm_recipients sealed)) VERIFICATION_FAILED;
  let ephemeralPublic := sm_ephemeralPublic sealed in
  let encryptedMessageKey := se_encryptedMessageKey myRecipient in
  throw_when (negb (len ephemeralPublic =? 32)) VERIFICATION_FAILED ;;
  m ← applyAgreementXor recipientPrivate ephemeralPublic ephemeralPublic receiving encryptedMessageKey;
  derivedEphemeralPublic ← getPublicKey (deriveEphemeralPrivateFromM m);
  throw_when (negb (constantTimeEqual ephemeralPublic derivedEphemeralPublic)) VERIFICATION_FAILED ;;
  envelope ← or_failed (aesGcmSivDecryptZeroNonce (deriveCipherKeyFromM m) (sm_messageCiphertext sealed));
  e ← parseEnvelope envelope;
  let cert := ev_certificate e in
  expectedAuthTag ← computeAuthenticationTag recipientPrivate recipientPublic (senderIdentityKey cert) ephemeralPublic encryptedMessageKey receiving;
  throw_when (negb (verifyAuthenticationTag expectedAuthTag (se_authenticationTag myRecipient))) VERIFICATION_FAILED ;;
  validateSenderCertificate cert trustRoots now policy ;;
  throw_when (bool_decide (senderUuid cert = serviceId) && (senderDeviceId cert =? deviceId)) VERIFICATION_FAILED ;;
  Ok {| ct_senderCertificate := cert; ct_signalProtocolMessage := ev_message e; ct_contentType := ev_contentType e;
        ct_contentHint := ev_contentHint e |}.

(** ** The client *)
Record SealedSenderConfig := { cfg_trustRoots : list bytes; cfg_relayScopeId : bytes; cfg_revokedIssuerKeyIds : list Z }.

Record Unsealed := {
  un_senderUserId : jsstring; un_senderDeviceId : Z; un_innerCiphertext : bytes; un_contentType : Z; un_contentHint : Z }.

Definition unsealReceivedMessage (sealedBytes recipientPrivate : bytes) (recipientUuid : jsstring) (recipientDeviceId : Z)
    (config : SealedSenderConfig) (relayEnqueueTime : Z) : result Unsealed :=
  d ← deserializeReceivedMessage sealedBytes;
  recipientPublic ← getPublicKey recipientPrivate;
  let message := {|
    sm_version := SEALED_SENDER_V2_UUID_VERSION; sm_ephemeralPublic := dr_ephemeralPublic d;
    sm_recipients := [{| se_serviceId := recipientUuid; se_deviceId := recipientDeviceId; se_registrationId := 0;
                         se_encryptedMessageKey := dr_encryptedMessageKey d; se_authenticationTag := dr_authenticationTag d |}];
    sm_messageCiphertext := dr_messageCiphertext d |} in
  content ← unseal message recipientPrivate recipientPublic recipientUuid recipientDeviceId (cfg_trustRoots config) relayEnqueueTime
    {| expectedRelayScopeId := cfg_relayScopeId config; revokedIssuerKeyIds := Some (cfg_revokedIssuerKeyIds config) |};
  Ok {| un_senderUserId := senderUuid (ct_senderCertificate content); un_senderDeviceId := senderDeviceId (ct_senderCertificate content);
        un_innerCiphertext := ct_signalProtocolMessage content; un_contentType := ct_contentType content;
        un_contentHint := ct_contentHint content |}.

Definition unsealMessage (sealedBytes recipientPrivate : bytes) (recipientUuid : jsstring) (recipientDeviceId : Z)
    (config : SealedSenderConfig) (relayEnqueueTime : option Z) : result Unsealed :=
  match relayEnqueueTime with
  | None => Throw (Error "Sealed sender verification requires an immutable Relay enqueue time")
  | Some t =>
      throw_when (negb (isSafeInteger t) || (t <=? 0)) (Error "Sealed sender verification requires an immutable Relay enqueue time") ;;
      match head sealedBytes with
      | Some v =>
          if (v =? SEALED_SENDER_V2_UUID_VERSION) || (v =? SEALED_SENDER_V2_SERVICE_ID_VERSION)
          then unsealReceivedMessage sealedBytes recipientPrivate recipientUuid recipientDeviceId config t
          else Throw (Error "Unsupported sealed sender transport version")
      | None => Throw (Error "Unsupported sealed sender transport version")
      end
  end.

(** The entries of one user as a recipient of the sent message. *)
Definition sent_recipient (l : list SealedSenderRecipient) : SentMessageRecipient :=
  match l with
  | [] => {| sr_serviceId := []; sr_devices := []; sr_encryptedMessageKey := []; sr_authenticationTag := [] |}
  | r :: _ => {| sr_serviceId := se_serviceId r;
                 sr_devices := map (fun r => {| wd_deviceId := se_deviceId r; wd_registrationId := se_registrationId r |}) l;
                 sr_encryptedMessageKey := se_encryptedMessageKey r; sr_authenticationTag := se_authenticationTag r |}
  end.

(** The [messageType] of an envelope. *)
Inductive EnvelopeMessageType := prekey_bundle | ciphertext_type | sender_key_type | retry_request.

(** The content type of a direct message; the conditional chain of the seal. *)
Definition content_type_of (messageType : EnvelopeMessageType) : Z :=
  match messageType with
  | sender_key_type => CT_SENDERKEY_MESSAGE | prekey_bundle => CT_PREKEY_MESSAGE
  | retry_request => CT_PLAINTEXT_CONTENT | ciphertext_type => CT_MESSAGE
  end.

Definition envelopeTypeForContent (contentType : Z) : result EnvelopeMessageType :=
  if contentType =? CT_SENDERKEY_MESSAGE then Ok sender_key_type
  else if (contentType =? CT_PREKEY_MESSAGE) || (contentType =? CT_MESSAGE) then Ok ciphertext_type
  else if contentType =? CT_PLAINTEXT_CONTENT then Ok retry_request
  else Throw (Error "Unsupported sealed sender content type").

Definition serializeDirectSealedSenderMessage (m : bytes) (recipientUserId : jsstring) (recipientDeviceId : Z) (ciphertext : bytes)
    (messageType : EnvelopeMessageType) (recipientRegistrationId : option Z) (senderCertificateBytes senderPrivate senderPublic recipientIdentityPublic : bytes)
    (contentHint : option Z) : result bytes :=
  senderCertificate ← deserializeSenderCertificate senderCertificateBytes;
  sealed ← sealMultiRecipient m senderCertificate senderPrivate senderPublic
    [{| rp_serviceId := recipientUserId; rp_deviceId := recipientDeviceId; rp_registrationId := default 0 recipientRegistrationId;
        rp_identityPublic := recipientIdentityPublic |}] ciphertext contentHint (content_type_of messageType);
  match sm_recipients sealed with
  | [] => Throw (Error "Sealed sender produced no direct recipient")
  | recipient :: _ =>
      serializeSentMessage [sent_recipient [recipient]] [] (sm_ephemeralPublic sealed) (sm_messageCiphertext sealed)
  end.

(** [prepareGroupSharedMessage] after the identities and registrations of the
    members have been read. *)
Definition group_sent_message (m : bytes) (recipients : list SealRecipient) (senderCertificateBytes senderPrivate senderPublic encryptedMessage : bytes)
    (contentHint : option Z) : result bytes :=
  senderCertificate ← deserializeSenderCertificate senderCertificateBytes;
  sealed ← sealMultiRecipient m senderCertificate senderPrivate senderPublic recipients encryptedMessage contentHint CT_SENDERKEY_MESSAGE;
  serializeSentMessage (map (fun g => sent_recipient g.2) (group_by se_serviceId (sm_recipients sealed))) []
    (sm_ephemeralPublic sealed) (sm_messageCiphertext sealed).

(** The members whose identity is pinned, with what the body names of them. *)
Definition member_recipient (s : Store) (member : ProtocolAddress) : result (option SealRecipient) :=
  record ← getContactIdentity {| userId := userId member; deviceId := 1 |} aci s;
  match record with
  | None => Ok None
  | Some record =>
      session ← (getSessionRecord member s).2;
      let registration := match session with
        | Some r => match currentSession r with Some c => remoteRegistrationId c | None => 0 end
        | None => 0
        end in
      Ok (Some {| rp_serviceId := userId member; rp_deviceId := deviceId member; rp_registrationId := registration;
                  rp_identityPublic := x25519PublicKey (c_identity record) |})
  end.

(** ** Anonymous delivery *)
Definition FRAME_VERSION : Z := 1.
Definition FRAME_HEADER_BYTES : Z := 9.
Definition GROUP_BODY_BYTES : Z := 96 * 1024.
Definition DIRECT_BODY_BYTES : Z := 256 * 1024.

(** [setBigUint64(1, v)] *)
Definition uint64be (v : Z) : bytes := map (fun i => v / 2 ^ (8 * i) mod 256) [7; 6; 5; 4; 3; 2; 1; 0].
Definition of_uint64be (b : bytes) : Z := fold_left (fun v x => v * 256 + x) b 0.

Definition timestampHeader (timestamp : Z) : result bytes :=
  throw_when (negb (isSafeInteger timestamp) || (timestamp <=? 0)) (Error "Anonymous delivery timestamp is invalid") ;;
  Ok (FRAME_VERSION :: uint64be timestamp).

(** The frame of the relay: the received message and its time. *)
Definition decodeHostedAnonymousEnvelope (value : bytes) : result (bytes * Z) :=
  throw_when ((len value <=? FRAME_HEADER_BYTES) || negb (byte_at value 0 =? FRAME_VERSION)) (Error "Anonymous mailbox envelope is invalid") ;;
  let timestamp := of_uint64be (slice value 1 9) in
  timestampHeader timestamp ;;
  let received := slice value FRAME_HEADER_BYTES (len value) in
  d ← deserializeReceivedMessage received;
  throw_when (len (dr_messageCiphertext d) =? 0) (Error "Anonymous mailbox envelope is invalid") ;;
  Ok (received, timestamp).

Inductive SealedSenderAuth :=
  | accessKey (unidentifiedAccessKey : bytes)
  | groupSendToken (token : bytes) (recipientAciBytes : Map jsstring bytes).

(** ** Which way a message goes ([resolveSealedSenderContext])

    The provider, the profile states and the endorsements are callbacks of the
    application; they may reject. *)
Inductive SealedSenderDeliveryMode := mode_preferred | mode_required | mode_disabled.

(** [UnidentifiedAccessMode] *)
Definition ACCESS_MODE_UNKNOWN : Z := 0.
Definition ACCESS_MODE_ENABLED : Z := 1.
Definition ACCESS_MODE_DISABLED : Z := 2.
Definition ACCESS_MODE_UNRESTRICTED : Z := 3.

Record ContactProfileStateStore := {
  getContactProfileKey : jsstring -> result (option bytes); getUnidentifiedAccessMode : jsstring -> result Z }.

Record ProvidedSender := { ps_certificate : bytes; ps_private : bytes; ps_public : bytes; ps_config : SealedSenderConfig }.

Record ResolvedSealedSenderContext := {
  rv_sender : ProvidedSender; rv_recipientIdentityPublic : bytes; rv_auth : SealedSenderAuth }.

Record SealedSenderResolutionContext := {
  rx_storage : Store; rx_deliveryMode : SealedSenderDeliveryMode; rx_relaySupportsUnidentified : bool;
  rx_provider : option (result ProvidedSender);
  rx_contactProfileStateStore : option ContactProfileStateStore;
  (* token and ACI bytes for a group and a recipient *)
  rx_getTokenForRecipient : option (jsstring -> jsstring -> result (option (bytes * bytes))) }.

(** [useIdentifiedDeliveryOrThrow] *)
Definition useIdentifiedDeliveryOrThrow (mode : SealedSenderDeliveryMode) : result (option ResolvedSealedSenderContext) :=
  match mode with mode_required => Throw (EncryptionError "SEALED_SENDER_REQUIRED") | _ => Ok None end.

(** The counter-mode block of AES-256-GCM of the platform. *)
Definition ACCESS_KEY_BYTES : Z := 16.
Definition deriveAccessKey (encryptAesGcm : bytes -> bytes -> bytes -> result bytes) (profileKey : bytes) : result bytes :=
  throw_when (negb (len profileKey =? 32)) VERIFICATION_FAILED ;;
  encrypted ← encryptAesGcm profileKey (replicate 12 0) (replicate 16 0);
  let key := slice encrypted 0 ACCESS_KEY_BYTES in
  throw_when (negb (len key =? ACCESS_KEY_BYTES)) VERIFICATION_FAILED ;; Ok key.

(** The access key for a recipient, or [None] where identified delivery takes over. *)
Definition access_key_of (encryptAesGcm : bytes -> bytes -> bytes -> result bytes) (profiles : ContactProfileStateStore) (recipientUserId : jsstring) : result (option bytes) :=
  mode ← getUnidentifiedAccessMode profiles recipientUserId;
  if mode =? ACCESS_MODE_DISABLED then Ok None
  else if mode =? ACCESS_MODE_UNRESTRICTED then Ok (Some (replicate 16 0))
  else
    key ← getContactProfileKey profiles recipientUserId;
    match key with
    | Some key => k ← deriveAccessKey encryptAesGcm key; Ok (Some k)
    | None => Ok (if mode =? ACCESS_MODE_ENABLED then None else Some (replicate 16 0))
    end.

(** The context of a group endorsement, if there is one for a known recipient. *)
Definition endorsed_context (context : SealedSenderResolutionContext) (provider : result ProvidedSender) (recipientUserId : jsstring) (groupId : option jsstring) :
    result (option ResolvedSealedSenderContext) :=
  match nonempty groupId, rx_getTokenForRecipient context with
  | Some groupId, Some getToken =>
      token ← getToken groupId recipientUserId;
      match token with
      | None => Ok None
      | Some (token, aciBytes) =>
          sender ← provider;
          record ← getContactIdentity {| userId := recipientUserId; deviceId := 1 |} aci (rx_storage context);
          Ok (option_map (fun record => {| rv_sender := sender; rv_recipientIdentityPublic := x25519PublicKey (c_identity record);
                rv_auth := groupSendToken token [(recipientUserId, aciBytes)] |}) record)
      end
  | _, _ => Ok None
  end.

Definition resolveSealedSenderContext (encryptAesGcm : bytes -> bytes -> bytes -> result bytes) (context : SealedSenderResolutionContext)
    (recipientUserId : jsstring) (groupId : option jsstring) : result (option ResolvedSealedSenderContext) :=
  let identified := useIdentifiedDeliveryOrThrow (rx_deliveryMode context) in
  match rx_deliveryMode context, rx_provider context, rx_relaySupportsUnidentified context with
  | mode_disabled, _, _ => Ok None
  | _, Some provider, true =>
      endorsed ← endorsed_context context provider recipientUserId groupId;
      match endorsed, rx_contactProfileStateStore context with
      | Some resolved, _ => Ok (Some resolved)
      | None, None => identified
      | None, Some profiles =>
          key ← access_key_of encryptAesGcm profiles recipientUserId;
          match key with
          | None => identified
          | Some key =>
              sender ← provider;
              record ← getContactIdentity {| userId := recipientUserId; deviceId := 1 |} aci (rx_storage context);
              match record with
              | None => identified
              | Some record => Ok (Some {| rv_sender := sender; rv_recipientIdentityPublic := x25519PublicKey (c_identity record); rv_auth := accessKey key |})
              end
          end
      end
  | _, _, _ => identified
  end.

Record AnonymousRecipient := { an_accountAddress : jsstring; an_devices : list WireDevice; an_prefix : bytes }.

Definition recipients_invalid : exn := Error "Anonymous delivery recipients are invalid".

(** One recipient of the post; [accounts] are the addresses before it. *)
Definition anonymous_recipient (auth : SealedSenderAuth) (header : bytes) (parsed : DeserializedSentMessage) (expected : option jsstring)
    (accounts : list jsstring) (entry : SentMessageRecipient) : result AnonymousRecipient :=
  id ← serviceIdToBytes (sr_serviceId entry);
  let accountAddress := bytesToUrlSafeBase64 id in
  let ids := map wd_deviceId (sr_devices entry) in
  throw_when (forallb (fun v => v =? 0) id || bool_decide (accountAddress ∈ accounts) ||
              match expected with Some e => negb (bool_decide (e = accountAddress)) | None => false end ||
              (len (sr_devices entry) <? 1) || (len (sr_devices entry) >? 5) || negb (bool_decide (NoDup ids)) ||
              existsb (fun d => (d <? 1) || (d >? 5)) ids) recipients_invalid ;;
  match auth with
  | groupSendToken _ claims =>
      match Map_get accountAddress claims with
      | None => Throw (EncryptionError "SEALED_SENDER_AUTH_FAILED")
      | Some claimed => throw_when (negb (bool_decide (bytesToUrlSafeBase64 claimed = accountAddress))) (EncryptionError "SEALED_SENDER_AUTH_FAILED")
      end
  | accessKey _ => Ok tt
  end ;;
  view ← serializeReceivedMessage (sr_encryptedMessageKey entry) (sr_authenticationTag entry) (ds_ephemeralPublic parsed) [];
  let prefix := header ++ view in
  throw_when (match auth with accessKey _ => len prefix + len (ds_messageCiphertext parsed) >? DIRECT_BODY_BYTES | _ => false end)
    (Error "Anonymous delivery envelope exceeds its limit") ;;
  Ok {| an_accountAddress := accountAddress; an_devices := sr_devices entry; an_prefix := prefix |}.

Fixpoint anonymous_recipients (auth : SealedSenderAuth) (header : bytes) (parsed : DeserializedSentMessage) (expected : option (list jsstring))
    (accounts : list jsstring) (l : list SentMessageRecipient) : result (list AnonymousRecipient) :=
  match l with
  | [] => Ok []
  | entry :: l =>
      r ← anonymous_recipient auth header parsed (match expected with Some (e :: _) => Some e | _ => None end) accounts entry;
      rest ← anonymous_recipients auth header parsed (option_map (drop 1) expected) (an_accountAddress r :: accounts) l;
      Ok (r :: rest)
  end.

Inductive DeliveryClass := user_visible | background_sync | ephemeral_class.

(** [send] up to the resolution of the destinations; the types rule out other
    delivery classes and content kinds. *)
Definition prepare_send (sentMessage : bytes) (auth : SealedSenderAuth) (timestamp : Z) (deliveryClass : DeliveryClass)
    (recipientUserIds : option (list jsstring)) (clientMessageId : option jsstring) : result (list AnonymousRecipient * bytes) :=
  header ← timestampHeader timestamp;
  throw_when (match nonempty clientMessageId with None => true | Some i => len i >? 128 end) (Error "Anonymous delivery operation is invalid") ;;
  parsed ← deserializeSentMessage sentMessage;
  throw_when ((len (ds_recipients parsed) =? 0) || (len (ds_recipients parsed) >? 1000) || (len (ds_messageCiphertext parsed) =? 0) ||
              match recipientUserIds with Some l => negb (len l =? len (ds_recipients parsed)) | None => false end) recipients_invalid ;;
  match auth with
  | accessKey key =>
      throw_when (negb (len key =? 16) || negb (len (ds_recipients parsed) =? 1)) (Error "Anonymous access-key delivery requires one account")
  | groupSendToken token _ =>
      throw_when (negb (len token =? 24) || match deliveryClass with ephemeral_class => true | _ => false end || (len (ds_messageCiphertext parsed) >? GROUP_BODY_BYTES))
        (Error "Anonymous group delivery is invalid")
  end ;;
  recipients ← anonymous_recipients auth header parsed recipientUserIds [] (ds_recipients parsed);
  throw_when (match auth with groupSendToken _ claims => negb (len claims =? len recipients) | accessKey _ => false end)
    (EncryptionError "SEALED_SENDER_AUTH_FAILED") ;;
  Ok (recipients, ds_messageCiphertext parsed).
End SealedSender.
