(* ===== verification/SealedSenderProofs.v ===== *)
(** * Proofs about the sealed-sender formats

    Parsing what was serialized: device lists, recipients, the sent message,
    the view of one device, service ids and the certificate.  [at_pos b o x]
    reads that the bytes [x] stand in [b] at the offset [o]. *)
From S2P Require Import Prelude ProtoWire Utf8 Base64 ProtoFields SignalMessage SignalMessageProofs Crypto SealedSenderWire.

#[local] Arguments varint : simpl never.

(** ** Service ids *)
Lemma parse_hex_length n : forall s, length s = (2 * n)%nat -> length (parse_hex s) = n.
Proof.
  induction n as [|n IH]; intros [|a [|b s]] H; cbn in H; try lia; [done|]. cbn [parse_hex length].
  rewrite IH; lia.
Qed.

Lemma serviceIdToBytes_length s id : serviceIdToBytes s = Ok id -> len id = 16.
Proof.
  unfold serviceIdToBytes. cbv zeta. destruct (_ && forallb _ _) eqn:E.
  - intros [= <-]. apply andb_true_iff in E as [E _]. apply Z.eqb_eq in E. unfold len in *. rewrite (parse_hex_length 16); lia.
  - destruct (_ && forallb base64url_char _); [|done]. rewrite bind_Ok. intros (b & _ & H). destruct (Z.eqb_spec (len b) UUID_BYTES) as [E'|]; [|done]. by injection H as <-.
Qed.

Lemma hex_char_spec d : 0 <= d < 16 ->
  hex_value (hex_char d) = Some d /\ (hex_char d =? 0x2d) = false.
Proof.
  intros Hd. assert (H : forallb (fun d => bool_decide (hex_value (hex_char d) = Some d /\ (hex_char d =? 0x2d) = false)) (seqZ 0 16) = true) by (vm_compute; done).
  rewrite forallb_forall in H. specialize (H d). rewrite <- list_elem_of_In, elem_of_seqZ in H. specialize (H ltac:(lia)).
  by apply bool_decide_eq_true in H.
Qed.

Lemma to_hex_cons x id : to_hex (x :: id) = hex_char (x / 16) :: hex_char (x mod 16) :: to_hex id.
Proof. done. Qed.

Lemma byte_digits x : is_byte x -> 0 <= x / 16 < 16 /\ 0 <= x mod 16 < 16.
Proof. unfold is_byte. intros. split; [|apply Z.mod_pos_bound; lia]. split; [apply Z.div_pos; lia|apply Z.div_lt_upper_bound; lia]. Qed.

Lemma to_hex_spec id : is_bytes id ->
  parse_hex (to_hex id) = id /\ length (to_hex id) = (2 * length id)%nat /\
  Forall (fun c => is_Some (hex_value c) /\ (c =? 0x2d) = false) (to_hex id).
Proof.
  induction 1 as [|x id Hx _ (IH1 & IH2 & IH3)]; [done|]. rewrite to_hex_cons.
  destruct (byte_digits x Hx) as [H1 H2]. apply hex_char_spec in H1 as [H1 H1'], H2 as [H2 H2'].
  split; [|split].
  - cbn [parse_hex]. rewrite H1, H2, IH1. cbn [from_option]. f_equal. unfold Datatypes.id. pose proof (Z.div_mod x 16 ltac:(lia)) as Hm. rewrite Z.mul_comm. by rewrite <- Hm.
  - cbn [length]. rewrite IH2. lia.
  - repeat constructor; rewrite ?H1, ?H2; eauto.
Qed.

Lemma filter_no_dash s : Forall (fun c => is_Some (hex_value c) /\ (c =? 0x2d) = false) s -> List.filter (fun c => negb (c =? 0x2d)) s = s.
Proof. induction 1 as [|c s [_ Hc] _ IH]; [done|]. cbn. by rewrite Hc, IH. Qed.

Lemma filter_app_dash (s k : jsstring) : List.filter (fun c => negb (c =? 0x2d)) (s ++ 0x2d :: k) =
  List.filter (fun c => negb (c =? 0x2d)) s ++ List.filter (fun c => negb (c =? 0x2d)) k.
Proof. by rewrite List.filter_app. Qed.

Lemma slices5 (l : jsstring) a b c d : length l = 32%nat -> (a <= b <= c)%nat -> (c <= d <= 32)%nat ->
  slice l 0 (Z.of_nat a) ++ slice l (Z.of_nat a) (Z.of_nat b) ++ slice l (Z.of_nat b) (Z.of_nat c) ++ slice l (Z.of_nat c) (Z.of_nat d) ++ slice l (Z.of_nat d) 32 = l.
Proof.
  intros Hl H1 H2. unfold slice. rewrite !Nat2Z.id.
  replace (Z.to_nat (Z.of_nat a - 0)) with a by lia. replace (Z.to_nat (Z.of_nat b - Z.of_nat a)) with (b - a)%nat by lia.
  replace (Z.to_nat (Z.of_nat c - Z.of_nat b)) with (c - b)%nat by lia. replace (Z.to_nat (Z.of_nat d - Z.of_nat c)) with (d - c)%nat by lia.
  assert (K : forall i j, (i <= j)%nat -> take (j - i) (drop i l) ++ drop j l = drop i l).
  { intros i j Hij. rewrite <- (take_drop (j - i) (drop i l)) at 2. rewrite drop_drop. do 2 f_equal. lia. }
  rewrite (take_ge (drop d l)) by (rewrite length_drop; lia). rewrite !K by lia. change (Z.to_nat 0) with 0%nat.
  rewrite drop_0. apply take_drop.
Qed.

(** The name written from the bytes stands for the same account. *)
Lemma service_id_roundtrip id s : is_bytes id -> bytesToServiceId id = Ok s -> serviceIdToBytes s = Ok id.
Proof.
  intros Hb. unfold bytesToServiceId. destruct (Z.eqb_spec (len id) UUID_BYTES) as [Hl|]; [|done]. cbn [negb]. intros [= <-].
  destruct (to_hex_spec id Hb) as (Hp & Hn & Hd). unfold serviceIdToBytes. cbv zeta.
  assert (Hl32 : length (to_hex id) = 32%nat) by (unfold len, UUID_BYTES in Hl; lia).
  rewrite !filter_app_dash, <- !List.filter_app.
  pose proof (slices5 (to_hex id) 8 12 16 20 Hl32 ltac:(lia) ltac:(lia)) as E. 
  change (Z.of_nat 8) with 8 in E. change (Z.of_nat 12) with 12 in E. change (Z.of_nat 16) with 16 in E. change (Z.of_nat 20) with 20 in E.
  rewrite E.
  rewrite filter_no_dash by done. replace (len (to_hex id) =? 32) with true by (unfold len; rewrite Hl32; done).
  replace (forallb _ _) with true; [cbn [andb]; by rewrite Hp|]. symmetry. apply forallb_forall. intros c Hc.
  apply bool_decide_eq_true. rewrite Forall_forall in Hd. apply Hd. by rewrite list_elem_of_In.
Qed.

Lemma bytesToServiceId_ok id : len id = 16 -> exists s, bytesToServiceId id = Ok s.
Proof. intros H. unfold bytesToServiceId. rewrite H. by eexists. Qed.

(** ** Device lists *)
(** A device that fits its three bytes; an id of zero would read as an excluded recipient. *)
Definition wire_device (d : WireDevice) : Prop := 1 <= wd_deviceId d < 256 /\ 0 <= wd_registrationId d < 2 ^ 14.

Definition flagged (isLast : bool) (r : Z) : Z := js_or (js_and r REG_ID_MASK) (if isLast then 0x0000 else HAS_MORE_DEVICES_FLAG).
Definition device_word (d : WireDevice) (isLast : bool) : Z := flagged isLast (wd_registrationId d).

(** The two bytes of a word with its flag read back. *)
Definition word_read (w r : Z) (isLast : bool) : Prop :=
  js_or (js_shl (js_and (js_shr w 8) 0xff) 8) (js_and w 0xff) = w /\ js_and w REG_ID_MASK = r /\
  negb (js_and w HAS_MORE_DEVICES_FLAG =? 0) = negb isLast.

Lemma js_and_land a b : 0 <= a < 2 ^ 31 -> 0 <= b < 2 ^ 31 -> js_and a b = Z.land a b.
Proof.
  intros Ha Hb. unfold js_and. by rewrite !to_int32_id by lia.
Qed.

Lemma mask_mod w : 0 <= w < 2 ^ 31 -> js_and w REG_ID_MASK = w mod 2 ^ 14.
Proof. intros H. rewrite js_and_land by (unfold REG_ID_MASK; lia). by apply land_low. Qed.

Lemma flagged_eq isLast r : 0 <= r < 2 ^ 14 -> flagged isLast r = (if isLast then 0 else 1) * 2 ^ 15 + r.
Proof.
  intros H. unfold flagged. rewrite mask_mod, Z.mod_small by lia.
  replace (if isLast then 0 else HAS_MORE_DEVICES_FLAG) with ((if isLast then 0 else 1) * 2 ^ 15) by (by destruct isLast).
  rewrite <- (js_or_disjoint _ _ 15) by (destruct isLast; lia). unfold js_or. apply Z.lor_comm.
Qed.

Lemma flags_ok (isLast : bool) :
  forallb (fun a => forallb (fun b => Bool.eqb (negb (Z.land ((if isLast then 0 else 1) * 2 ^ 15 + (a * 128 + b)) HAS_MORE_DEVICES_FLAG =? 0)) (negb isLast))
    (seqZ 0 128)) (seqZ 0 128) = true.
Proof. destruct isLast; vm_compute; reflexivity. Qed.

Lemma ids_ok : forallb (fun i => js_and i 0xff =? i) (seqZ 0 256) = true.
Proof. vm_compute. reflexivity. Qed.

Lemma forallb_seqZ f n x : forallb f (seqZ 0 n) = true -> 0 <= x < n -> f x = true.
Proof. intros H Hx. rewrite forallb_forall in H. apply H. rewrite <- list_elem_of_In, elem_of_seqZ. lia. Qed.

Lemma forallb_square f n x : 0 < n -> forallb (fun a => forallb (fun b => f (a * n + b)) (seqZ 0 n)) (seqZ 0 n) = true -> 0 <= x < n * n -> f x = true.
Proof.
  intros Hn H Hx. pose proof (Z.mod_pos_bound x n ltac:(lia)).
  apply (forallb_seqZ _ _ (x / n)) in H; [|split; [apply Z.div_pos|apply Z.div_lt_upper_bound]; lia].
  apply (forallb_seqZ _ _ (x mod n)) in H; [|done]. by rewrite Z.mul_comm, <- Z.div_mod in H by lia.
Qed.

Lemma byte_id i : 0 <= i < 256 -> js_and i 0xff = i.
Proof. intros H. apply Z.eqb_eq. exact (forallb_seqZ _ _ _ ids_ok H). Qed.

Lemma wire_word d isLast : wire_device d -> word_read (device_word d isLast) (wd_registrationId d) isLast.
Proof.
  intros [_ H]. unfold device_word. rewrite flagged_eq by done. 
  pose proof (forallb_square (fun r => Bool.eqb (negb (Z.land ((if isLast then 0 else 1) * 2 ^ 15 + r) HAS_MORE_DEVICES_FLAG =? 0)) (negb isLast)) 128 _ ltac:(lia) (flags_ok isLast) H) as F.
  set (r := wd_registrationId d) in *. set (w := (if isLast then 0 else 1) * 2 ^ 15 + r) in *.
  assert (Hw : 0 <= w < 2 ^ 16) by (subst w; destruct isLast; lia). split_and!.
  - pose proof (Z.mod_pos_bound w 256 ltac:(lia)). assert (0 <= w / 2 ^ 8 < 256) by (split; [apply Z.div_pos|apply Z.div_lt_upper_bound]; lia).
    rewrite js_shr_small, !js_and_255, (Z.mod_small (w / 2 ^ 8)), js_shl_small, js_or_disjoint by lia.
    change (2 ^ 8) with 256. rewrite Z.mul_comm. symmetry. apply Z.div_mod. lia.
  - rewrite mask_mod by lia. subst w. destruct isLast; [apply Z.mod_small; lia|].
    change (2 ^ 15) with (2 * 2 ^ 14). rewrite Z.add_comm, Z.mul_assoc, Z_mod_plus_full. apply Z.mod_small. lia.
  - rewrite js_and_land by (unfold HAS_MORE_DEVICES_FLAG; lia). by apply Bool.eqb_prop.
Qed.

Lemma bytes3 pre a b c rest : let data := pre ++ a :: b :: c :: rest in
  byte_at data (len pre) = a /\ byte_at data (len pre + 1) = b /\ byte_at data (len pre + 2) = c /\ (len pre + 3 >? len data) = false.
Proof.
  cbn zeta. split; [by apply byte_at_app|]. split; [|split].
  - replace (pre ++ a :: b :: c :: rest) with ((pre ++ [a]) ++ b :: c :: rest) by (by rewrite <- app_assoc).
    apply byte_at_app. len_lia.
  - replace (pre ++ a :: b :: c :: rest) with ((pre ++ [a; b]) ++ c :: rest) by (by rewrite <- app_assoc).
    apply byte_at_app. len_lia.
  - rewrite Z.gtb_ltb. apply Z.ltb_ge. len_lia.
Qed.

(** One round over the three bytes of a device. *)
Lemma parse_devices_bytes fuel pre a b c rest :
  parse_devices (S fuel) (pre ++ a :: b :: c :: rest) (len pre) =
  if negb (js_and (js_or (js_shl b 8) c) HAS_MORE_DEVICES_FLAG =? 0) then
    '(l, offset) ← parse_devices fuel (pre ++ a :: b :: c :: rest) (len pre + 3);
    Ok ({| wd_deviceId := a; wd_registrationId := js_and (js_or (js_shl b 8) c) REG_ID_MASK |} :: l, offset)
  else Ok ([{| wd_deviceId := a; wd_registrationId := js_and (js_or (js_shl b 8) c) REG_ID_MASK |}], len pre + 3).
Proof.
  destruct (bytes3 pre a b c rest) as (E1 & E2 & E3 & E4). cbn [parse_devices]. by rewrite E1, E2, E3, E4.
Qed.

Lemma parse_device fuel pre d (isLast : bool) rest : wire_device d ->
  parse_devices (S fuel) (pre ++ device_bytes d isLast ++ rest) (len pre) =
  if isLast then Ok ([d], len pre + 3)
  else '(l, offset) ← parse_devices fuel (pre ++ device_bytes d isLast ++ rest) (len pre + 3); Ok (d :: l, offset).
Proof.
  intros Hd. destruct (wire_word d isLast Hd) as (W1 & W2 & W3). 
  change (device_bytes d isLast) with [js_and (wd_deviceId d) 0xff; js_and (js_shr (device_word d isLast) 8) 0xff; js_and (device_word d isLast) 0xff].
  cbn [app]. rewrite parse_devices_bytes, W1, W2, W3, byte_id by (destruct Hd; lia). destruct d as [i r]. by destruct isLast.
Qed.

Lemma length_device_bytes d last : len (device_bytes d last) = 3.
Proof. done. Qed.

Lemma parse_device_list l : forall fuel pre rest, Forall wire_device l -> l <> [] -> (length l <= fuel)%nat ->
  parse_devices fuel (pre ++ device_list l ++ rest) (len pre) = Ok (l, len pre + len (device_list l)).
Proof.
  induction l as [|d l IH]; intros fuel pre rest Hw Hne Hf; [done|]. apply Forall_cons in Hw as [Hd Hw].
  destruct fuel as [|fuel]; [cbn in Hf; lia|]. destruct l as [|d' l].
  - cbn [device_list]. by rewrite parse_device.
  - change (device_list (d :: d' :: l)) with (device_bytes d false ++ device_list (d' :: l)). rewrite <- app_assoc, parse_device by done.
    specialize (IH fuel (pre ++ device_bytes d false) rest Hw ltac:(done) ltac:(cbn in *; lia)).
    rewrite <- app_assoc, len_app, length_device_bytes in IH. rewrite IH. cbn [mbind result_bind].
    rewrite len_app, length_device_bytes. do 2 f_equal. lia.
Qed.

Lemma device_list_first d l : wire_device d -> exists k, device_list (d :: l) = wd_deviceId d :: k.
Proof.
  intros [Hi _]. rewrite <- (byte_id (wd_deviceId d)) by lia. destruct l; cbn [device_list]; unfold device_bytes; cbn [app]; by eexists.
Qed.

Lemma device_list_length l : len (device_list l) = 3 * len l.
Proof.
  induction l as [|d [|d' l] IH]; [done|done|]. change (device_list (d :: d' :: l)) with (device_bytes d false ++ device_list (d' :: l)).
  rewrite len_app, IH, !len_cons, length_device_bytes. lia.
Qed.

(** ** Recipients *)
(** The name that the parser gives the account of a service id. *)
Definition canonical_id (serviceId : jsstring) : jsstring :=
  match (id ← serviceIdToBytes serviceId; bytesToServiceId id) with Ok s => s | Throw _ => [] end.
Definition canonical_recipient (r : SentMessageRecipient) : SentMessageRecipient :=
  {| sr_serviceId := canonical_id (sr_serviceId r); sr_devices := sr_devices r;
     sr_encryptedMessageKey := sr_encryptedMessageKey r; sr_authenticationTag := sr_authenticationTag r |}.

Definition wire_recipient (r : SentMessageRecipient) : Prop := Forall wire_device (sr_devices r).

(** A part of the data in its place. *)
Lemma slice_at pre d rest a b : a = len pre -> b = len pre + len d -> slice (pre ++ d ++ rest) a b = d.
Proof. intros -> ->. apply slice_app. Qed.

Lemma slice_end pre d a b : a = len pre -> b = len (pre ++ d) -> slice (pre ++ d) a b = d.
Proof. intros -> ->. rewrite <- (app_nil_r d) at 1. apply slice_at; len_lia. Qed.

Lemma gtb_false a b : a <= b -> (a >? b) = false.
Proof. intros. rewrite Z.gtb_ltb. by apply Z.ltb_ge. Qed.
Lemma geb_false a b : a < b -> (a >=? b) = false.
Proof. intros. rewrite Z.geb_leb. by apply Z.leb_gt. Qed.

Lemma service_id_bytes_inv s b : service_id_bytes s = Ok b ->
  exists id, serviceIdToBytes s = Ok id /\ b = ACI_MARKER :: id /\ len id = 16 /\ bytesToServiceId id = Ok (canonical_id s).
Proof.
  unfold service_id_bytes, canonical_id. rewrite bind_Ok. intros (id & E & [= <-]). exists id.
  pose proof (serviceIdToBytes_length _ _ E) as H. split_and!; [done..|]. rewrite E. cbn [mbind result_bind].
  by destruct (bytesToServiceId_ok id H) as [s' ->].
Qed.

(** Service id, then a first device byte. *)
Lemma parse_recipient_head pre s b x rest : service_id_bytes s = Ok b ->
  parse_recipient (pre ++ b ++ x :: rest) (len pre) =
  let data := pre ++ b ++ x :: rest in
  if x =? EXCLUDED_RECIPIENT_DEVICE_ID then Ok (inr (canonical_id s), len pre + 17 + 1)
  else
    '(devices, offset) ← parse_devices (length data) data (len pre + 17);
    throw_when (offset + ENCRYPTED_KEY_SIZE + AUTH_TAG_SIZE >? len data) (Error "Truncated key material") ;;
    Ok (inl {| sr_serviceId := canonical_id s; sr_devices := devices;
               sr_encryptedMessageKey := slice data offset (offset + ENCRYPTED_KEY_SIZE);
               sr_authenticationTag := slice data (offset + ENCRYPTED_KEY_SIZE) (offset + ENCRYPTED_KEY_SIZE + AUTH_TAG_SIZE) |},
        offset + ENCRYPTED_KEY_SIZE + AUTH_TAG_SIZE).
Proof.
  intros E. apply service_id_bytes_inv in E as (id & _ & -> & Hl & E). unfold parse_recipient.
  change (SERVICE_ID_WIRE_SIZE) with 17. change UUID_BYTES with 16.
  rewrite gtb_false by len_lia. cbn [throw_when mbind result_bind].
  assert (Es : slice (pre ++ (ACI_MARKER :: id) ++ x :: rest) (len pre + 1) (len pre + 1 + 16) = id).
  { replace (pre ++ (ACI_MARKER :: id) ++ x :: rest) with ((pre ++ [ACI_MARKER]) ++ id ++ x :: rest) by (by rewrite <- !app_assoc).
    apply slice_at; len_lia. }
  rewrite Es, E. cbn [mbind result_bind]. cbv zeta. rewrite geb_false by len_lia. cbn [throw_when mbind result_bind].
  replace (len pre + 1 + 16) with (len pre + 17) by lia.
  replace (byte_at _ (len pre + 17)) with x; [done|]. symmetry. rewrite app_assoc. apply byte_at_app. len_lia.
Qed.

Lemma recipient_bytes_inv r b : recipient_bytes r = Ok b ->
  sr_devices r <> [] /\ len (sr_encryptedMessageKey r) = 32 /\ len (sr_authenticationTag r) = 16 /\
  exists id, service_id_bytes (sr_serviceId r) = Ok id /\ b = id ++ device_list (sr_devices r) ++ sr_encryptedMessageKey r ++ sr_authenticationTag r.
Proof.
  unfold recipient_bytes. destruct (Z.eqb_spec (len (sr_devices r)) 0) as [|Hd]; [done|].
  destruct (Z.eqb_spec (len (sr_encryptedMessageKey r)) ENCRYPTED_KEY_SIZE); [|done].
  destruct (Z.eqb_spec (len (sr_authenticationTag r)) AUTH_TAG_SIZE); [|done]. cbn [negb throw_when mbind result_bind].
  rewrite bind_Ok. intros (id & E & [= <-]). split; [by intros Hn; rewrite Hn in Hd|]. eauto.
Qed.

Lemma parse_recipient_included pre r b rest : recipient_bytes r = Ok b -> wire_recipient r ->
  parse_recipient (pre ++ b ++ rest) (len pre) = Ok (inl (canonical_recipient r), len pre + len b).
Proof.
  intros E Hw. apply recipient_bytes_inv in E as (Hd & Hk & Ht & id & E & ->).
  destruct r as [s l k t]; cbn [sr_serviceId sr_devices sr_encryptedMessageKey sr_authenticationTag] in *. unfold wire_recipient in Hw; cbn in Hw.
  destruct (service_id_bytes_inv _ _ E) as (id0 & _ & Eid & Hid & _). assert (Hlen : len id = 17) by (subst id; len_lia).
  assert (exists x y, device_list l = x :: y /\ x <> 0) as (x & y & El & Hx).
  { destruct l as [|d l]; [done|]. apply Forall_cons in Hw as [Hd' _]. destruct (device_list_first d l Hd') as [y ->]. exists (wd_deviceId d), y.
    split; [done|]. destruct Hd'; lia. }
  replace (pre ++ (id ++ device_list l ++ k ++ t) ++ rest) with (pre ++ id ++ x :: (y ++ k ++ t ++ rest))
    by (rewrite El; cbn [app]; by rewrite <- !app_assoc; cbn [app]; rewrite <- ?app_assoc).
  rewrite (parse_recipient_head _ _ _ _ _ E). cbv zeta. rewrite (proj2 (Z.eqb_neq x EXCLUDED_RECIPIENT_DEVICE_ID)) by done.
  set (data := pre ++ id ++ x :: (y ++ k ++ t ++ rest)).
  assert (Edata : data = (pre ++ id) ++ device_list l ++ k ++ t ++ rest) by (subst data; rewrite El; cbn [app]; by rewrite <- !app_assoc).
  rewrite Edata at 2. replace (len pre + 17) with (len (pre ++ id)) by len_lia.
  rewrite parse_device_list; [|done|done|].
  2:{ rewrite Edata. pose proof (device_list_length l). unfold len in *. rewrite !length_app. lia. }
  cbn [mbind result_bind]. change ENCRYPTED_KEY_SIZE with 32. change AUTH_TAG_SIZE with 16. rewrite gtb_false by (rewrite Edata; len_lia).
  cbn [throw_when mbind result_bind]. unfold canonical_recipient; cbn [sr_serviceId sr_devices sr_encryptedMessageKey sr_authenticationTag].
  assert (E1 : slice data (len (pre ++ id) + len (device_list l)) (len (pre ++ id) + len (device_list l) + 32) = k).
  { rewrite Edata, app_assoc. apply slice_at; len_lia. }
  assert (E2 : slice data (len (pre ++ id) + len (device_list l) + 32) (len (pre ++ id) + len (device_list l) + 32 + 16) = t).
  { rewrite Edata, app_assoc, (app_assoc _ k). apply slice_at; len_lia. }
  rewrite E1, E2. do 2 f_equal. len_lia.
Qed.

Lemma parse_recipient_excluded pre s b rest : excluded_bytes s = Ok b ->
  parse_recipient (pre ++ b ++ rest) (len pre) = Ok (inr (canonical_id s), len pre + len b).
Proof.
  unfold excluded_bytes. rewrite bind_Ok. intros (id & E & [= <-]). rewrite <- app_assoc. cbn [app].
  rewrite (parse_recipient_head _ _ _ _ _ E). cbv zeta. rewrite Z.eqb_refl.
  apply service_id_bytes_inv in E as (id0 & _ & -> & Hl & _). do 2 f_equal. len_lia.
Qed.

Lemma parse_excluded ex : forall bs pre rest, mapM_result excluded_bytes ex = Ok bs ->
  parse_recipients (length ex) (pre ++ concat bs ++ rest) (len pre) = Ok ([], map canonical_id ex, len pre + len (concat bs)).
Proof.
  induction ex as [|s ex IH]; intros bs pre rest H.
  - injection H as <-. cbn. do 2 f_equal. change (len []) with 0. lia.
  - cbn [mapM_result] in H. apply bind_Ok in H as (b & Eb & H). apply bind_Ok in H as (bs' & Ebs & [= <-]).
    cbn [length parse_recipients concat]. rewrite <- app_assoc, (parse_recipient_excluded _ _ _ _ Eb). cbn [mbind result_bind].
    specialize (IH bs' (pre ++ b) rest Ebs). rewrite <- app_assoc, len_app in IH. rewrite IH. cbn [mbind result_bind map].
    do 2 f_equal. len_lia.
Qed.

Lemma parse_all rs : forall ex bs bs' pre rest, mapM_result recipient_bytes rs = Ok bs -> mapM_result excluded_bytes ex = Ok bs' ->
  Forall wire_recipient rs ->
  parse_recipients (length rs + length ex) (pre ++ concat bs ++ concat bs' ++ rest) (len pre) =
    Ok (map canonical_recipient rs, map canonical_id ex, len pre + len (concat bs) + len (concat bs')).
Proof.
  induction rs as [|r rs IH]; intros ex bs bs' pre rest H H' Hw.
  - injection H as <-. cbn [length Nat.add concat app map]. rewrite (parse_excluded _ _ _ _ H'). change (len []) with 0. do 2 f_equal. lia.
  - cbn [mapM_result] in H. apply bind_Ok in H as (b & Eb & H). apply bind_Ok in H as (bs0 & Ebs & [= <-]).
    apply Forall_cons in Hw as [Hr Hw]. cbn [length Nat.add parse_recipients concat]. rewrite <- app_assoc.
    rewrite (parse_recipient_included _ _ _ _ Eb Hr). cbn [mbind result_bind].
    specialize (IH ex bs0 bs' (pre ++ b) rest Ebs H' Hw). rewrite <- app_assoc, len_app in IH. rewrite IH. cbn [mbind result_bind map].
    do 2 f_equal. len_lia.
Qed.

(** The sent message read back. *)
Lemma deserialize_serialized rs ex ep mc b : serializeSentMessage rs ex ep mc = Ok b -> Forall wire_recipient rs ->
  deserializeSentMessage b = Ok {| ds_recipients := map canonical_recipient rs; ds_excludedRecipients := map canonical_id ex;
                                   ds_ephemeralPublic := ep; ds_messageCiphertext := mc |}.
Proof.
  intros H Hw. unfold serializeSentMessage in H. destruct (Z.eqb_spec (len ep) EPHEMERAL_PUBLIC_SIZE) as [Hep|]; [|done].
  cbn [negb throw_when mbind result_bind] in H. apply bind_Ok in H as (count & Hc & H). apply encodeVarint_inv in Hc as [Hc ->].
  apply bind_Ok in H as (bs & Hbs & H). apply bind_Ok in H as (bs' & Hbs' & [= <-]).
  unfold concatFields. rewrite !concat_app. cbn [concat]. rewrite !app_nil_r.
  set (n := varint 9 (len rs + len ex)). set (V := SEALED_SENDER_V2_SERVICE_ID_VERSION).
  unfold deserializeSentMessage. rewrite (proj2 (Z.ltb_ge _ _)) by (cbn [app]; len_lia).
  cbn [app]. change (byte_at (V :: ?l) 0) with V. rewrite Z.eqb_refl. cbn [negb throw_when mbind result_bind].
  pose proof (decodeVarint_varint [V] _ (concat bs ++ concat bs' ++ ep ++ mc) Hc) as D. fold n in D. cbn [app] in D.
  change (len [V]) with 1 in D. rewrite D. cbn [mbind result_bind]. replace (Z.to_nat _) with (length rs + length ex)%nat by (unfold len; lia).
  pose proof (parse_all rs ex bs bs' (V :: n) (ep ++ mc) Hbs Hbs' Hw) as P. cbn [app] in P. rewrite len_cons in P. rewrite P. cbn [mbind result_bind].
  change EPHEMERAL_PUBLIC_SIZE with 32 in *. rewrite gtb_false by len_lia. cbn [throw_when mbind result_bind]. cbv zeta.
  set (data := V :: n ++ _). assert (E : data = (V :: n ++ concat bs ++ concat bs') ++ ep ++ mc) by (subst data; cbn [app]; by rewrite <- !app_assoc).
  do 2 f_equal; rewrite E.
  - apply slice_at; len_lia.
  - rewrite app_assoc. apply slice_end; len_lia.
Qed.

(** The view of a device read back. *)
Lemma deserialize_received k t ep mc b : serializeReceivedMessage k t ep [] = Ok b ->
  deserializeReceivedMessage (b ++ mc) = Ok {| dr_encryptedMessageKey := k; dr_authenticationTag := t; dr_ephemeralPublic := ep; dr_messageCiphertext := mc |} /\
  len k = 32 /\ len t = 16 /\ len ep = 32.
Proof.
  unfold serializeReceivedMessage. change ENCRYPTED_KEY_SIZE with 32. change AUTH_TAG_SIZE with 16. change EPHEMERAL_PUBLIC_SIZE with 32.
  destruct (Z.eqb_spec (len k) 32) as [Hk|]; [|done]. destruct (Z.eqb_spec (len t) 16) as [Ht|]; [|done].
  destruct (Z.eqb_spec (len ep) 32) as [He|]; [|done]. cbn [negb throw_when mbind result_bind]. intros [= <-]. split; [|done].
  unfold concatFields, deserializeReceivedMessage. cbn [concat]. rewrite ?app_nil_r. cbn [app]. rewrite <- ?app_assoc.
  set (V := SEALED_SENDER_V2_UUID_VERSION). change ENCRYPTED_KEY_SIZE with 32. change AUTH_TAG_SIZE with 16. change EPHEMERAL_PUBLIC_SIZE with 32.
  rewrite (proj2 (Z.ltb_ge _ _)) by len_lia. change (byte_at (V :: ?l) 0) with V. rewrite Z.eqb_refl. cbn [negb throw_when mbind result_bind].
  cbv zeta. do 2 f_equal.
  - apply (slice_at [V] k (t ++ ep ++ mc)); len_lia.
  - change (V :: k ++ t ++ ep ++ mc) with ((V :: k) ++ t ++ ep ++ mc). apply slice_at; len_lia.
  - change (V :: k ++ t ++ ep ++ mc) with ((V :: k) ++ t ++ ep ++ mc). rewrite app_assoc. apply slice_at; len_lia.
  - change (V :: k ++ t ++ ep ++ mc) with ((V :: k) ++ t ++ ep ++ mc). rewrite !app_assoc. apply slice_end; len_lia.
Qed.

(** ** Certificates *)
Definition signed_upd (n : Z) (f : wfield) (a : SignedProto) : result SignedProto :=
  if n =? 1 then v ← bytes_of f; Ok {| sp_certificate := v; sp_signature := sp_signature a |}
  else if n =? 2 then v ← bytes_of f; Ok {| sp_certificate := sp_certificate a; sp_signature := v |}
  else Ok a.

Lemma signed_field_reader n a : field_reader (signed_field n a) (fun f => signed_upd n f a).
Proof. unfold signed_field, signed_upd, assign. field_cases. Qed.

Lemma signed_roundtrip c b : encodeSenderCertificate c = Ok b -> decodeSenderCertificate b = Ok c.
Proof.
  unfold encodeSenderCertificate. intros H. encode_inv H. apply Ok_inj in H as <-. destruct c as [c s]. cbn [sp_certificate sp_signature] in *.
  assert (E : concatFields [encode_field (WBytes 1 c); encode_field (WBytes 2 s)] = encode_fields [WBytes 1 c; WBytes 2 s]) by done.
  unfold decodeSenderCertificate. rewrite E, (decode_loop_ok _ _ signed_field_reader) by wf_fields. by repeat (fold_step signed_upd).
Qed.

(** The certificate depends on the two signed parts of its encoding alone. *)
Definition certificate_of (outer : SignedProto) : result SenderCertificate := or_failed (
  let missing := Error "missing required fields" in
  throw_when (empty (sp_certificate outer) || empty (sp_signature outer)) missing ;;
  inner ← decodeSenderCertificateData (sp_certificate outer);
  throw_when (empty (sc_senderUuid inner) || empty (sc_identityKey inner) || empty (sc_signerCertificate inner) ||
              negb (len (sc_relayScopeId inner) =? 16)) missing ;;
  signerOuter ← decodeServerCertificate (sc_signerCertificate inner);
  throw_when (empty (sp_certificate signerOuter) || empty (sp_signature signerOuter)) missing ;;
  signerInner ← decodeServerCertificateData (sp_certificate signerOuter);
  throw_when (empty (sv_key signerInner) || negb (isSafeInteger (sv_notBefore signerInner)) || negb (isSafeInteger (sv_notAfter signerInner)) ||
              (sv_notBefore signerInner <=? 0) || (sv_notAfter signerInner <? sv_notBefore signerInner)) missing ;;
  Ok {| senderUuid := sc_senderUuid inner; senderDeviceId := sc_senderDevice inner; senderIdentityKey := sc_identityKey inner;
        expires := sc_expires inner;
        senderE164 := match sc_senderE164 inner with [] => None | e => Some e end;
        relayScopeId := sc_relayScopeId inner;
        signer := {| vc_id := sv_id signerInner; vc_publicKey := sv_key signerInner; vc_notBefore := sv_notBefore signerInner;
                     vc_notAfter := sv_notAfter signerInner; vc_certificateBytes := sp_certificate signerOuter;
                     vc_signature := sp_signature signerOuter |};
        certificateBytes := sp_certificate outer; certificateSignature := sp_signature outer |}).

Lemma deserialize_certificate b outer : decodeSenderCertificate b = Ok outer -> deserializeSenderCertificate b = certificate_of outer.
Proof. intros E. unfold deserializeSenderCertificate, certificate_of. by rewrite E. Qed.

(** What an accepted certificate says is read from its signed parts. *)
Lemma deserialize_certificate_inv b cert : deserializeSenderCertificate b = Ok cert ->
  exists outer inner signerOuter signerInner,
    decodeSenderCertificate b = Ok outer /\ certificateBytes cert = sp_certificate outer /\ certificateSignature cert = sp_signature outer /\
    decodeSenderCertificateData (certificateBytes cert) = Ok inner /\
    senderUuid cert = sc_senderUuid inner /\ senderDeviceId cert = sc_senderDevice inner /\ senderIdentityKey cert = sc_identityKey inner /\
    expires cert = sc_expires inner /\ relayScopeId cert = sc_relayScopeId inner /\
    decodeServerCertificate (sc_signerCertificate inner) = Ok signerOuter /\ vc_certificateBytes (signer cert) = sp_certificate signerOuter /\
    decodeServerCertificateData (vc_certificateBytes (signer cert)) = Ok signerInner /\
    vc_publicKey (signer cert) = sv_key signerInner /\ vc_notBefore (signer cert) = sv_notBefore signerInner /\
    vc_notAfter (signer cert) = sv_notAfter signerInner.
Proof.
  unfold deserializeSenderCertificate, or_failed. destruct (_ ≫= _) as [c|] eqn:H; [|done]. intros [= <-].
  apply bind_Ok in H as (outer & Eo & H). apply bind_Ok in H as (? & _ & H). apply bind_Ok in H as (inner & Ei & H).
  apply bind_Ok in H as (? & _ & H). apply bind_Ok in H as (so & Eso & H). apply bind_Ok in H as (? & _ & H).
  apply bind_Ok in H as (si & Esi & H). apply bind_Ok in H as (? & _ & H). injection H as <-.
  exists outer, inner, so, si. by split_and!.
Qed.

Lemma certificate_roundtrip b cert b' : deserializeSenderCertificate b = Ok cert -> serializeSenderCertificate cert = Ok b' ->
  deserializeSenderCertificate b' = Ok cert.
Proof.
  intros H E. pose proof (deserialize_certificate_inv _ _ H) as (outer & _ & _ & _ & Eo & Ec & Es & _).
  rewrite (deserialize_certificate _ _ Eo) in H. unfold serializeSenderCertificate in E. rewrite Ec, Es in E.
  apply signed_roundtrip in E. rewrite (deserialize_certificate _ _ E). by destruct outer.
Qed.

(** ** What the checks of a certificate say *)
Section Checks.
Context {E : Ed25519}.

Lemma any_root_spec roots cert : any_root_verifies roots cert = true <->
  exists root, root ∈ roots /\ crypto_verify root (vc_certificateBytes cert) (vc_signature cert) = true.
Proof.
  unfold any_root_verifies. set (v := fun root => crypto_verify root (vc_certificateBytes cert) (vc_signature cert)).
  enough (H : forall b, fold_left (fun anyValid root => anyValid || v root) roots b = b || existsb v roots).
  { rewrite H. cbn [orb]. rewrite existsb_exists. by setoid_rewrite list_elem_of_In. }
  induction roots as [|r roots IH]; intros b; cbn; [by rewrite orb_false_r|]. by rewrite IH, orb_assoc.
Qed.

Lemma validateSenderCertificate_inv cert roots now policy u : validateSenderCertificate cert roots now policy = Ok u ->
  (exists root, root ∈ roots /\ crypto_verify root (vc_certificateBytes (signer cert)) (vc_signature (signer cert)) = true) /\
  crypto_verify (vc_publicKey (signer cert)) (certificateBytes cert) (certificateSignature cert) = true /\
  vc_notBefore (signer cert) <= now <= vc_notAfter (signer cert) /\ now <= expires cert /\
  constantTimeEqual (relayScopeId cert) (expectedRelayScopeId policy) = true /\
  vc_id (signer cert) ∉ default [] (revokedIssuerKeyIds policy).
Proof.
  unfold validateSenderCertificate. cbv zeta. intros H. repeat (apply bind_Ok in H as (? & T & H); apply throw_when_Ok in T; revert T).
  apply throw_when_Ok in H. intros T7 T6 T5 T4 T3 T2 T1.
  apply negb_false_iff in T6, T7. rewrite any_root_spec in T6. repeat (apply orb_false_iff in T5 as [T5 ?]).
  apply orb_false_iff in T3 as [_ T3], T4 as [_ T4]. apply negb_false_iff in T4.
  split_and!; try done; try lia. intros Hin. destruct (revokedIssuerKeyIds policy) as [l|]; cbn in Hin; [|by apply not_elem_of_nil in Hin].
  enough (includes l (vc_id (signer cert)) = true) by congruence. apply existsb_exists. eexists. rewrite <- list_elem_of_In. split; [done|apply Z.eqb_refl].
Qed.
End Checks.

(** ** Service ids are bytes *)
Lemma hex_value_range c d : hex_value c = Some d -> 0 <= d < 16.
Proof.
  unfold hex_value, between. repeat case_match; intros [= <-]; b2p; lia.
Qed.

Lemma digit_default o : (forall d : Z, o = Some d -> 0 <= d < 16) -> 0 <= default 0 o < 16.
Proof. destruct o as [d|]; intros H; cbn; [by apply H|lia]. Qed.

Lemma parse_hex_bytes n : forall s, (length s <= n)%nat -> is_bytes (parse_hex s).
Proof.
  induction n as [|n IH]; intros [|a [|b s]] H; cbn in H; try lia; try by constructor. cbn [parse_hex]. constructor; [|apply IH; lia].
  pose proof (digit_default (hex_value a) (hex_value_range a)). pose proof (digit_default (hex_value b) (hex_value_range b)). unfold is_byte. lia.
Qed.

Lemma serviceIdToBytes_bytes s id : serviceIdToBytes s = Ok id -> is_bytes id.
Proof.
  unfold serviceIdToBytes. cbv zeta. destruct (_ && forallb _ _); [intros [= <-]; by eapply parse_hex_bytes|].
  destruct (_ && forallb base64url_char _); [|done]. rewrite bind_Ok. intros (b & E & H). apply base64_bijection in E as [_ E].
  destruct (len b =? UUID_BYTES); [|done]. by injection H as <-.
Qed.

Lemma canonical_id_same s id : serviceIdToBytes s = Ok id -> serviceIdToBytes (canonical_id s) = Ok id.
Proof.
  intros E. pose proof (serviceIdToBytes_bytes _ _ E) as Hb. pose proof (serviceIdToBytes_length _ _ E) as Hl.
  destruct (bytesToServiceId_ok id Hl) as [s' E']. unfold canonical_id. rewrite E. cbn [mbind result_bind]. rewrite E'. by apply service_id_roundtrip.
Qed.

Lemma mapM_result_total {A B} (f : A -> result B) (l : list A) : (forall a, a ∈ l -> exists b, f a = Ok b) -> exists bs, mapM_result f l = Ok bs.
Proof.
  induction l as [|a l IH]; intros H; [by eexists|]. cbn [mapM_result]. destruct (H a) as [b ->]; [left|].
  destruct IH as [bs ->]; [intros; apply H; by right|]. by eexists.
Qed.

Lemma mapM_result_inv {A B} (f : A -> result B) l bs a : mapM_result f l = Ok bs -> a ∈ l -> exists b, f a = Ok b.
Proof.
  revert bs. induction l as [|x l IH]; intros bs H Hin; [by apply not_elem_of_nil in Hin|]. cbn [mapM_result] in H.
  apply bind_Ok in H as (b & Eb & H). apply bind_Ok in H as (bs' & Ebs & _). apply elem_of_cons in Hin as [->|Hin]; eauto.
Qed.

(** Every account of a message that was serialized has its 16 bytes. *)
Lemma serialized_service_ids rs ex ep mc b : serializeSentMessage rs ex ep mc = Ok b ->
  forall s, s ∈ map sr_serviceId rs ++ ex -> exists id, serviceIdToBytes s = Ok id.
Proof.
  unfold serializeSentMessage. intros H. apply bind_Ok in H as (? & _ & H). apply bind_Ok in H as (count & _ & H).
  apply bind_Ok in H as (bs & Hbs & H). apply bind_Ok in H as (bs' & Hbs' & _). intros s [Hin|Hin]%elem_of_app.
  - apply list_elem_of_fmap in Hin as (r & -> & Hr). destruct (mapM_result_inv _ _ _ _ Hbs Hr) as [w Ex].
    apply recipient_bytes_inv in Ex as (_ & _ & _ & id & Ex & _). apply service_id_bytes_inv in Ex as (id' & Ex & _). eauto.
  - destruct (mapM_result_inv _ _ _ _ Hbs' Hin) as [w Ex]. unfold excluded_bytes in Ex. apply bind_Ok in Ex as (y & Ex & _).
    apply service_id_bytes_inv in Ex as (id' & Ex & _). eauto.
Qed.
