(* ===== verification/SealedSenderDelivery.v ===== *)
(** * Sealing and unsealing

    Both ends derive the same key encapsulation and the same tag; the grouping
    by account keeps every device; the parsed envelope is the sealed one.
    From these: a sealed group message reaches every device of every member,
    and what a device accepts is bound to a certified sender. *)
From S2P Require Import Prelude JsMap ProtoWire Utf8 Base64 ProtoFields SignalMessage SignalMessageProofs Crypto Identity DoubleRatchet SessionRecord SessionStore SealedSenderWire SealedSender SealedSenderProofs.

#[local] Arguments varint : simpl never.

(** ** Grouping by key *)
Section GroupBy.
Context {A : Type} (key : A -> jsstring).

Definition with_key (k : jsstring) (l : list A) : list A := filter (fun a => key a = k) l.

(** The map after the elements of [seen]: one group per key, in order of arrival. *)
Definition groups_of (seen : list A) (m : Map jsstring (list A)) : Prop :=
  NoDup m.*1 /\ forall k, Map_get k m = match with_key k seen with [] => None | g => Some g end.

Lemma group_push_spec seen m x : groups_of seen m -> groups_of (seen ++ [x]) (group_push key m x).
Proof.
  intros [Hnd Hm]. split; [by apply Map_set_NoDup|]. intros k. unfold group_push. rewrite Map_get_set, (Hm (key x)).
  unfold with_key at 2. rewrite filter_app. cbn [filter list_filter]. destruct (decide (key x = k)) as [<-|Hne].
  - unfold with_key. destruct (filter _ seen); done.
  - rewrite app_nil_r. apply Hm.
Qed.

Lemma group_by_spec l : groups_of l (group_by key l).
Proof.
  unfold group_by. enough (H : forall seen m, groups_of seen m -> groups_of (seen ++ l) (fold_left (group_push key) l m)).
  { apply (H []). split; [constructor|done]. }
  induction l as [|x l IH]; intros seen m Hm; cbn [fold_left]; [by rewrite app_nil_r|].
  replace (seen ++ x :: l) with ((seen ++ [x]) ++ l) by (by rewrite <- app_assoc). by apply IH, group_push_spec.
Qed.

Lemma group_of_In l k g : (k, g) ∈ group_by key l -> g = with_key k l /\ g <> [].
Proof.
  destruct (group_by_spec l) as [Hnd Hm]. intros Hg. apply (Map_get_Some _ _ _ Hnd) in Hg. rewrite Hm in Hg.
  by destruct (with_key k l) as [|x g'] eqn:E; [|injection Hg as <-].
Qed.

Lemma group_of_member l x : x ∈ l -> (key x, with_key (key x) l) ∈ group_by key l.
Proof.
  intros Hx. apply Map_get_In. destruct (group_by_spec l) as [_ Hm]. rewrite Hm.
  assert (Hin : x ∈ with_key (key x) l) by (by apply list_elem_of_filter).
  destruct (with_key (key x) l); [by apply elem_of_nil in Hin|done].
Qed.
End GroupBy.

(** ** Key encapsulation *)
Lemma xor_twice a k : (length a <= length k)%nat -> zip_with Z.lxor (zip_with Z.lxor a k) k = a.
Proof.
  revert k. induction a as [|x a IH]; intros [|y k] H; cbn in *; try lia; [done|done|].
  rewrite IH by lia. f_equal. by rewrite Z.lxor_assoc, Z.lxor_nilpotent, Z.lxor_0_r.
Qed.

Section Agreement.
Context {C : RatchetCrypto} {CL : RatchetCryptoLaws C}.

Lemma getPublicKey_ok priv : length priv = 32%nat -> getPublicKey priv = Ok (x25519_public priv).
Proof. intros H. unfold getPublicKey, len. by rewrite H. Qed.

Lemma getSharedSecret_ok a b : length a = 32%nat -> length b = 32%nat -> getSharedSecret a (x25519_public b) = Ok (x25519 a (x25519_public b)).
Proof.
  intros Ha Hb. unfold getSharedSecret, len. rewrite Ha, x25519_public_length by done. cbn [Z.eqb negb orb throw_when mbind result_bind].
  change (Z.of_nat 32 =? 32) with true. cbn [negb orb throw_when mbind result_bind]. by rewrite bool_decide_false by (by apply x25519_nonzero).
Qed.

Lemma serialize_raw_ok k : length k = 32%nat -> serialize_raw k = Ok (0x05 :: k).
Proof. intros H. unfold serialize_raw, len. rewrite H. cbn. by rewrite app_nil_r. Qed.

Definition serialized (k : bytes) : bytes := 0x05 :: k.
Definition encapsulate (e r m : bytes) : bytes :=
  zip_with Z.lxor m (hkdf (x25519 e (x25519_public r) ++ serialized (x25519_public e) ++ serialized (x25519_public r)) [] V2_LABEL_DH 32).
Definition tag_of (s r e c : bytes) : bytes :=
  hkdf (x25519 s (x25519_public r) ++ serialized (x25519_public e) ++ c ++ serialized (x25519_public s) ++ serialized (x25519_public r)) [] V2_LABEL_DH_S 16.

Context (e r : bytes) (He : length e = 32%nat) (Hr : length r = 32%nat).

Lemma xor_sending m : len m = 32 ->
  applyAgreementXor e (x25519_public e) (x25519_public r) sending m = Ok (encapsulate e r m).
Proof.
  intros Hm. unfold applyAgreementXor, V2_RANDOM_M_BYTES. rewrite Hm. cbn [Z.eqb Pos.eqb negb throw_when mbind result_bind].
  rewrite getSharedSecret_ok, !serialize_raw_ok by auto using x25519_public_length. done.
Qed.

Lemma encapsulate_length m : length (encapsulate e r m) = Nat.min (length m) 32.
Proof. unfold encapsulate. by rewrite length_zip_with, hkdf_length. Qed.

Lemma xor_receiving m : len m = 32 ->
  applyAgreementXor r (x25519_public e) (x25519_public e) receiving (encapsulate e r m) = Ok m.
Proof.
  intros Hm. unfold applyAgreementXor, V2_RANDOM_M_BYTES. replace (len (encapsulate e r m)) with 32 by (unfold len in *; rewrite encapsulate_length; lia).
  cbn [Z.eqb Pos.eqb negb throw_when mbind result_bind]. rewrite getSharedSecret_ok, getPublicKey_ok by done. cbn [mbind result_bind].
  rewrite !serialize_raw_ok by auto using x25519_public_length. cbn [mbind result_bind]. f_equal.
  unfold encapsulate, serialized. rewrite (x25519_comm r e) by done. apply xor_twice. rewrite hkdf_length. unfold len in Hm. lia.
Qed.

Context (s : bytes) (Hs : length s = 32%nat).

Lemma tag_sending c : computeAuthenticationTag s (x25519_public s) (x25519_public r) (x25519_public e) c sending = Ok (tag_of s r e c).
Proof.
  unfold computeAuthenticationTag. rewrite getSharedSecret_ok by done. cbn [mbind result_bind].
  rewrite !serialize_raw_ok by auto using x25519_public_length. done.
Qed.

Lemma tag_receiving c : computeAuthenticationTag r (x25519_public r) (x25519_public s) (x25519_public e) c receiving = Ok (tag_of s r e c).
Proof.
  unfold computeAuthenticationTag. rewrite getSharedSecret_ok by done. cbn [mbind result_bind].
  rewrite !serialize_raw_ok by auto using x25519_public_length. cbn [mbind result_bind]. unfold tag_of. by rewrite (x25519_comm r s) by done.
Qed.

Lemma tag_length c : length (tag_of s r e c) = 16%nat.
Proof. apply hkdf_length. Qed.
End Agreement.

(** ** The envelope *)
Lemma serializeEnvelope_ok cb msg ct hint : len cb < 2 ^ 32 -> len msg < 2 ^ 32 -> is_byte ct -> is_byte (default 0 hint) ->
  serializeEnvelope cb msg ct hint = Ok (ct :: varint 9 (len cb) ++ cb ++ varint 9 (len msg) ++ msg ++ [default 0 hint]).
Proof.
  intros H1 H2 Hc Hh. unfold serializeEnvelope. pose proof (len_nonneg cb). pose proof (len_nonneg msg).
  rewrite !encodeVarint_ok by lia. cbn [mbind result_bind]. by rewrite !u8_id.
Qed.

Lemma envelope_bytes cb msg ct h : len cb < 2 ^ 32 -> len msg < 2 ^ 32 -> is_bytes cb -> is_bytes msg -> is_byte ct -> is_byte h ->
  is_bytes (ct :: varint 9 (len cb) ++ cb ++ varint 9 (len msg) ++ msg ++ [h]).
Proof.
  intros H1 H2 ? ? ? ?. pose proof (len_nonneg cb). pose proof (len_nonneg msg).
  assert (V : forall v, 0 <= v < 2 ^ 32 -> is_bytes (varint 9 v)) by (intros v Hv; apply varint_bytes; cbn; lia).
  constructor; [done|]. repeat (apply Forall_app_2; [try done; apply V; lia|]). by apply Forall_singleton.
Qed.

Lemma varint9_pos v : 1 <= len (varint 9 v).
Proof. pose proof (varint_length 9 v). unfold len. lia. Qed.

Lemma parseEnvelope_ok cb msg ct h cert : len cb < 2 ^ 32 -> len msg < 2 ^ 32 -> isSealedSenderContentType ct = true ->
  deserializeSenderCertificate cb = Ok cert ->
  parseEnvelope (ct :: varint 9 (len cb) ++ cb ++ varint 9 (len msg) ++ msg ++ [h]) =
    Ok {| ev_certificate := cert; ev_message := msg; ev_contentType := ct; ev_contentHint := h |}.
Proof.
  intros H1 H2 Hct Hcert. pose proof (len_nonneg cb). pose proof (len_nonneg msg).
  set (n1 := varint 9 (len cb)). set (n2 := varint 9 (len msg)). assert (0 < len n1 /\ 0 < len n2) as [P1 P2] by (split; pose proof (varint9_pos (len cb)); pose proof (varint9_pos (len msg)); subst n1 n2; lia).
  set (b := ct :: _). assert (Hb : len b = 1 + len n1 + len cb + len n2 + len msg + 1) by (subst b; len_lia).
  unfold parseEnvelope, MIN_ENVELOPE_BYTES. rewrite (proj2 (Z.ltb_ge _ _)) by lia. cbn [throw_when mbind result_bind].
  change (byte_at b 0) with ct. rewrite Hct. cbn [negb throw_when mbind result_bind]. cbv zeta.
  pose proof (decodeVarint_varint [ct] (len cb) (cb ++ n2 ++ msg ++ [h]) ltac:(lia)) as D1. cbn [app] in D1. change (len [ct]) with 1 in D1. fold n1 b in D1.
  rewrite D1. cbn [mbind result_bind]. rewrite (proj2 (Z.eqb_neq (len n1) 0)), gtb_false by lia. cbn [throw_when mbind result_bind].
  pose proof (decodeVarint_varint (ct :: n1 ++ cb) (len msg) (msg ++ [h]) ltac:(lia)) as D2. fold n2 in D2.
  replace ((ct :: n1 ++ cb) ++ n2 ++ msg ++ [h]) with b in D2 by (subst b; cbn [app]; by rewrite <- !app_assoc).
  replace (len (ct :: n1 ++ cb)) with (1 + len n1 + len cb) in D2 by len_lia.
  rewrite D2. cbn [mbind result_bind]. rewrite (proj2 (Z.eqb_neq (len n2) 0)), gtb_false by lia. cbn [throw_when mbind result_bind].
  rewrite geb_false by lia. cbn [throw_when mbind result_bind]. rewrite (proj2 (Z.eqb_eq _ _)) by lia. cbn [negb throw_when mbind result_bind].
  assert (E1 : slice b (1 + len n1) (1 + len n1 + len cb) = cb).
  { replace b with ((ct :: n1) ++ cb ++ n2 ++ msg ++ [h]) by done. apply slice_at; len_lia. }
  assert (E2 : slice b (1 + len n1 + len cb + len n2) (1 + len n1 + len cb + len n2 + len msg) = msg).
  { replace b with (((ct :: n1) ++ cb ++ n2) ++ msg ++ [h]) by (subst b; cbn [app]; by rewrite <- !app_assoc). apply slice_at; len_lia. }
  assert (E3 : byte_at b (1 + len n1 + len cb + len n2 + len msg) = h).
  { replace b with (((ct :: n1) ++ cb ++ n2 ++ msg) ++ [h]) by (subst b; cbn [app]; by rewrite <- !app_assoc). apply byte_at_app. len_lia. }
  by rewrite E1, E2, E3, Hcert.
Qed.

(** ** Sealing for one account and unsealing *)
Section Seal.
Context {C : RatchetCrypto} {CL : RatchetCryptoLaws C} {G : AesGcmSiv} {GL : AesGcmSivLaws G} {E : Ed25519}.

(** What the sealed message consists of, for the random [m]. *)
Definition ephemeral_of (m : bytes) : bytes := deriveEphemeralPrivateFromM m.
Definition ciphertext_of (m cb msg : bytes) (ct : Z) (hint : option Z) : bytes :=
  gcm_siv_encrypt (deriveCipherKeyFromM m) ZERO_NONCE (ct :: varint 9 (len cb) ++ cb ++ varint 9 (len msg) ++ msg ++ [default 0 hint]).

Lemma ephemeral_length m : length (ephemeral_of m) = 32%nat.
Proof. apply hkdf_length. Qed.

Lemma cipher_key_length m : len (deriveCipherKeyFromM m) = 32.
Proof. unfold len, deriveCipherKeyFromM. by rewrite hkdf_length. Qed.

(** A sender with a certificate that the recipients accept. *)
Record sender_ok (cert : SenderCertificate) (cb spriv : bytes) : Prop := {
  so_serialize : serializeSenderCertificate cert = Ok cb;
  so_deserialize : deserializeSenderCertificate cb = Ok cert;
  so_short : len cb < 2 ^ 32; so_bytes : is_bytes cb;
  so_key : senderIdentityKey cert = x25519_public spriv; so_length : length spriv = 32%nat }.

Definition sealable (m msg : bytes) (hint : option Z) : Prop :=
  len m = 32 /\ len msg < 2 ^ 32 /\ is_bytes msg /\ is_byte (default 0 hint).

Lemma content_type_byte ct : isSealedSenderContentType ct = true -> is_byte ct.
Proof.
  unfold isSealedSenderContentType, CT_PREKEY_MESSAGE, CT_MESSAGE, CT_SENDERKEY_MESSAGE, CT_PLAINTEXT_CONTENT, is_byte.
  intros H. repeat (apply orb_true_iff in H as [H|H]); apply Z.eqb_eq in H; lia.
Qed.

Lemma open_ciphertext m cb msg ct hint cert : sealable m msg hint -> len cb < 2 ^ 32 -> is_bytes cb ->
  isSealedSenderContentType ct = true -> deserializeSenderCertificate cb = Ok cert ->
  (envelope ← or_failed (aesGcmSivDecryptZeroNonce (deriveCipherKeyFromM m) (ciphertext_of m cb msg ct hint)); parseEnvelope envelope) =
    Ok {| ev_certificate := cert; ev_message := msg; ev_contentType := ct; ev_contentHint := default 0 hint |}.
Proof.
  intros (Hm & Hl & Hb & Hh) Hcl Hcb Hct Hc. pose proof (content_type_byte ct Hct).
  unfold ciphertext_of. set (env := ct :: _). pose proof (cipher_key_length m) as Hk.
  destruct (gcm_siv_correct (deriveCipherKeyFromM m) ZERO_NONCE env) as (D & _ & _); [apply hkdf_length|done|by apply envelope_bytes|].
  unfold aesGcmSivDecryptZeroNonce, aesGcmSivDecrypt, gcm_siv_checks. rewrite Hk. change (32 =? AES_GCM_SIV_KEY_BYTES) with true. change (len ZERO_NONCE =? AES_GCM_SIV_NONCE_BYTES) with true.
  cbn [negb throw_when mbind result_bind]. rewrite D. cbn [or_failed mbind result_bind]. by apply parseEnvelope_ok.
Qed.

Lemma ciphertext_length m cb msg ct hint : sealable m msg hint -> len cb < 2 ^ 32 -> is_bytes cb ->
  isSealedSenderContentType ct = true -> 0 < len (ciphertext_of m cb msg ct hint).
Proof.
  intros (Hm & Hl & Hb & Hh) Hcl Hcb Hct. pose proof (content_type_byte ct Hct). unfold ciphertext_of.
  destruct (gcm_siv_correct (deriveCipherKeyFromM m) ZERO_NONCE (ct :: varint 9 (len cb) ++ cb ++ varint 9 (len msg) ++ msg ++ [default 0 hint])) as (_ & _ & L);
    [apply hkdf_length|done|by apply envelope_bytes|]. rewrite L. len_lia.
Qed.

(** The entry of an account opens with the key of that account. *)
Lemma unseal_sealed cert cb spriv rpriv m msg ct hint uuid dev reg roots now policy :
  sender_ok cert cb spriv -> sealable m msg hint -> isSealedSenderContentType ct = true -> length rpriv = 32%nat ->
  validateSenderCertificate cert roots now policy = Ok tt ->
  (senderUuid cert = uuid /\ senderDeviceId cert = dev -> False) ->
  let e := ephemeral_of m in
  unseal {| sm_version := SEALED_SENDER_V2_UUID_VERSION; sm_ephemeralPublic := x25519_public e;
            sm_recipients := [{| se_serviceId := uuid; se_deviceId := dev; se_registrationId := reg;
              se_encryptedMessageKey := encapsulate e rpriv m; se_authenticationTag := tag_of spriv rpriv e (encapsulate e rpriv m) |}];
            sm_messageCiphertext := ciphertext_of m cb msg ct hint |} rpriv (x25519_public rpriv) uuid dev roots now policy =
  Ok {| ct_senderCertificate := cert; ct_signalProtocolMessage := msg; ct_contentType := ct; ct_contentHint := default 0 hint |}.
Proof.
  intros [_ Hd Hcl Hcb Hkey Hs] Hok Hct Hr Hval Hself e. pose proof (ephemeral_length m) as He. fold e in He.
  destruct Hok as (Hm & Hok). pose proof (conj Hm Hok) as Hok'.
  unfold unseal. cbn [sm_version sm_recipients sm_ephemeralPublic sm_messageCiphertext List.find]. rewrite Z.eqb_refl. cbn [negb andb throw_when mbind result_bind].
  unfold is_recipient at 1. cbn [se_serviceId se_deviceId]. rewrite bool_decide_true, Z.eqb_refl by done. cbn [andb required mbind result_bind].
  cbv zeta. cbn [se_encryptedMessageKey se_authenticationTag]. replace (len (x25519_public e)) with 32 by (unfold len; by rewrite x25519_public_length).
  cbn [Z.eqb Pos.eqb negb throw_when mbind result_bind]. rewrite xor_receiving by done. cbn [mbind result_bind].
  fold (ephemeral_of m). fold e. rewrite getPublicKey_ok by done. cbn [mbind result_bind].
  rewrite constantTimeEqual_refl. cbn [negb throw_when mbind result_bind].
  pose proof (open_ciphertext m cb msg ct hint cert Hok' Hcl Hcb Hct Hd) as O. apply bind_Ok in O as (env & -> & O). cbn [mbind result_bind].
  rewrite O. cbn [mbind result_bind ev_certificate ev_message ev_contentType ev_contentHint]. rewrite Hkey, tag_receiving by done. cbn [mbind result_bind].
  unfold verifyAuthenticationTag, len. rewrite !tag_length. change (Z.of_nat 16 =? V2_AUTH_TAG_LEN) with true. cbn [negb orb].
  rewrite constantTimeEqual_refl. cbn [negb throw_when mbind result_bind].
  rewrite Hval. cbn [mbind result_bind]. replace (_ && _) with false; [done|]. symmetry. apply andb_false_iff.
  destruct (decide (senderUuid cert = uuid)); [right|left; by apply bool_decide_false]. apply Z.eqb_neq. naive_solver.
Qed.
End Seal.

(** ** A group message *)
Section Delivery.
Context {C : RatchetCrypto} {CL : RatchetCryptoLaws C} {G : AesGcmSiv} {GL : AesGcmSivLaws G} {E : Ed25519}.
(** The identity private key of an account; all its devices share it. *)
Context (account : jsstring -> bytes) (account_length : forall s, length (account s) = 32%nat).

Definition member_device (r : SealRecipient) : Prop :=
  rp_identityPublic r = x25519_public (account (rp_serviceId r)) /\
  wire_device {| wd_deviceId := rp_deviceId r; wd_registrationId := rp_registrationId r |} /\
  exists id, serviceIdToBytes (rp_serviceId r) = Ok id.

Context (spriv m : bytes) (Hs : length spriv = 32%nat) (Hm : len m = 32).

Definition entry_of (r : SealRecipient) : SealedSenderRecipient :=
  let e := ephemeral_of m in
  let c := encapsulate e (account (rp_serviceId r)) m in
  {| se_serviceId := rp_serviceId r; se_deviceId := rp_deviceId r; se_registrationId := rp_registrationId r;
     se_encryptedMessageKey := c; se_authenticationTag := tag_of spriv (account (rp_serviceId r)) e c |}.

Definition ephemeral_pair : KeyPair := {| publicKey := x25519_public (ephemeral_of m); privateKey := ephemeral_of m |}.

Lemma seal_user_ok k g : g <> [] -> (forall r, r ∈ g -> rp_serviceId r = k /\ member_device r) ->
  seal_user spriv (x25519_public spriv) ephemeral_pair m g = Ok (map entry_of g).
Proof.
  intros Hg Hk. destruct g as [|d g]; [done|]. destruct (Hk d) as [<- (Hi & _)]; [left|].
  unfold seal_user. cbn [ephemeral_pair publicKey privateKey]. rewrite Hi. pose proof (ephemeral_length m).
  rewrite xor_sending by auto. cbn [mbind result_bind]. rewrite tag_sending by auto. cbn [mbind result_bind]. f_equal.
  apply map_ext_in. intros r Hr. apply list_elem_of_In, Hk in Hr as [Hr _]. unfold entry_of. by rewrite Hr.
Qed.

Definition entries_of (recipients : list SealRecipient) : list SealedSenderRecipient :=
  concat (map (fun g => map entry_of g.2) (group_by rp_serviceId recipients)).

Lemma entries_of_In recipients x : x ∈ entries_of recipients <-> exists r, r ∈ recipients /\ x = entry_of r.
Proof.
  unfold entries_of. rewrite list_elem_of_In, in_concat. setoid_rewrite in_map_iff. split.
  - intros (l & ((k & g) & <- & Hg) & Hx). apply in_map_iff in Hx as (r & <- & Hr). apply list_elem_of_In in Hg, Hr.
    apply group_of_In in Hg as [-> _]. cbn in Hr. apply list_elem_of_filter in Hr as [_ Hr]. by exists r.
  - intros (r & Hr & ->). eexists. split; [eexists; split; [reflexivity|]; rewrite <- list_elem_of_In; by apply group_of_member|].
    apply in_map_iff. exists r. split; [done|]. rewrite <- list_elem_of_In. by apply list_elem_of_filter.
Qed.

Lemma sealMultiRecipient_ok cert cb recipients msg hint ct : sender_ok cert cb spriv -> sealable m msg hint ->
  isSealedSenderContentType ct = true -> recipients <> [] -> Forall member_device recipients ->
  sealMultiRecipient m cert spriv (x25519_public spriv) recipients msg hint ct =
    Ok {| sm_version := SEALED_SENDER_V2_UUID_VERSION; sm_ephemeralPublic := x25519_public (ephemeral_of m);
          sm_recipients := entries_of recipients; sm_messageCiphertext := ciphertext_of m cb msg ct hint |}.
Proof.
  intros Hso (_ & Hl & Hb & Hh) Hct Hne Hr. pose proof (content_type_byte ct Hct) as Hctb. unfold sealMultiRecipient.
  rewrite (proj2 (Z.eqb_neq (len recipients) 0)) by (destruct recipients; [done|len_lia]). cbn [throw_when mbind result_bind].
  unfold deriveEphemeralFromM. fold (ephemeral_of m). rewrite getPublicKey_ok by apply ephemeral_length. cbn [mbind result_bind].
  rewrite (so_serialize _ _ _ Hso). cbn [mbind result_bind]. rewrite serializeEnvelope_ok by (done || apply (so_short _ _ _ Hso)). cbn [mbind result_bind].
  unfold aesGcmSivEncryptZeroNonce, aesGcmSivEncrypt, gcm_siv_checks. rewrite cipher_key_length. change (32 =? AES_GCM_SIV_KEY_BYTES) with true. change (len ZERO_NONCE =? AES_GCM_SIV_NONCE_BYTES) with true.
  cbn [negb throw_when mbind result_bind]. fold ephemeral_pair. rewrite (mapM_result_Ok _ (fun g => map entry_of g.2)); [done|].
  intros [k g] Hg. apply group_of_In in Hg as [-> Hg]. apply (seal_user_ok k); [done|]. intros r Hin.
  apply list_elem_of_filter in Hin as [<- Hin]. split; [done|]. rewrite Forall_forall in Hr. by apply Hr.
Qed.

(** The recipients of the sent message: one per account, with all its devices. *)
Definition sent_recipients_of (recipients : list SealRecipient) : list SentMessageRecipient :=
  map (fun g => sent_recipient g.2) (group_by se_serviceId (entries_of recipients)).

Lemma sent_of_In recipients x : x ∈ sent_recipients_of recipients -> exists r, r ∈ recipients /\
  x = sent_recipient (with_key se_serviceId (rp_serviceId r) (entries_of recipients)).
Proof.
  intros ([k g] & -> & Hg)%list_elem_of_fmap. apply group_of_In in Hg as [-> Hg]. cbn [snd].
  destruct (with_key se_serviceId k (entries_of recipients)) as [|y l] eqn:Ey; [done|].
  assert (Hy : y ∈ with_key se_serviceId k (entries_of recipients)) by (rewrite Ey; left).
  apply list_elem_of_filter in Hy as [<- Hy]. apply entries_of_In in Hy as (r & Hr & ->). exists r. split; [done|]. by rewrite <- Ey.
Qed.

Lemma sent_of_member recipients r : r ∈ recipients -> sent_recipient (with_key se_serviceId (rp_serviceId r) (entries_of recipients)) ∈ sent_recipients_of recipients.
Proof.
  intros Hr. apply list_elem_of_fmap. exists (rp_serviceId r, with_key se_serviceId (rp_serviceId r) (entries_of recipients)).
  split; [done|]. apply (group_of_member se_serviceId _ (entry_of r)). apply entries_of_In. eauto.
Qed.

Lemma with_key_In k l x : x ∈ with_key se_serviceId k (entries_of l) <-> exists r, r ∈ l /\ x = entry_of r /\ rp_serviceId r = k.
Proof. unfold with_key. rewrite list_elem_of_filter, entries_of_In. naive_solver. Qed.

(** The one entry of an account in the sent message. *)
Lemma sent_recipient_spec recipients r : r ∈ recipients ->
  let e := ephemeral_of m in
  let k := account (rp_serviceId r) in
  let x := sent_recipient (with_key se_serviceId (rp_serviceId r) (entries_of recipients)) in
  sr_serviceId x = rp_serviceId r /\ sr_encryptedMessageKey x = encapsulate e k m /\
  sr_authenticationTag x = tag_of spriv k e (encapsulate e k m) /\ sr_devices x <> [] /\
  (forall d, d ∈ sr_devices x <-> exists r', r' ∈ recipients /\ rp_serviceId r' = rp_serviceId r /\
     d = {| wd_deviceId := rp_deviceId r'; wd_registrationId := rp_registrationId r' |}).
Proof.
  intros Hr e k. assert (Hin : entry_of r ∈ with_key se_serviceId (rp_serviceId r) (entries_of recipients)) by (apply with_key_In; eauto).
  pose proof (with_key_In (rp_serviceId r) recipients) as W. revert Hin W. generalize (with_key se_serviceId (rp_serviceId r) (entries_of recipients)).
  intros [|y l] Hin W; [by apply elem_of_nil in Hin|]. destruct (proj1 (W y)) as (r' & Hr' & -> & Hk); [left|]. cbv zeta.
  unfold sent_recipient. cbn [sr_serviceId sr_encryptedMessageKey sr_authenticationTag sr_devices entry_of se_serviceId se_encryptedMessageKey se_authenticationTag].
  rewrite Hk. split_and!; try done. intros d. rewrite list_elem_of_In, in_map_iff. setoid_rewrite <- list_elem_of_In. split.
  - intros (z & <- & Hz). apply W in Hz as (r2 & ? & -> & ?). eauto.
  - intros (r2 & ? & ? & ->). exists (entry_of r2). split; [done|]. apply W. eauto.
Qed.

Lemma sent_of_count recipients : len (sent_recipients_of recipients) <= len recipients.
Proof.
  unfold sent_recipients_of, len. rewrite length_map. destruct (group_by_spec se_serviceId (entries_of recipients)) as [Hnd Hg].
  rewrite <- (length_fmap fst (group_by _ _)), <- (length_map rp_serviceId recipients). apply Nat2Z.inj_le.
  apply NoDup_incl_length; [by apply NoDup_ListNoDup|]. intros k Hk. apply list_elem_of_In, list_elem_of_fmap in Hk as ([k' g] & -> & Hin).
  cbn [fst]. apply group_of_In in Hin as [-> Hne]. destruct (with_key _ k' _) as [|y l] eqn:Ey; [done|].
  destruct (proj1 (with_key_In k' recipients y)) as (r & Hr & _ & <-); [rewrite Ey; left|]. apply list_elem_of_In in Hr. by apply in_map.
Qed.

Lemma sent_recipients_ok recipients x : Forall member_device recipients -> x ∈ sent_recipients_of recipients ->
  wire_recipient x /\ exists b, recipient_bytes x = Ok b.
Proof.
  intros Hr Hx. rewrite Forall_forall in Hr. apply sent_of_In in Hx as (r & Hin & ->). pose proof (sent_recipient_spec recipients r Hin) as (E1 & E2 & E3 & E4 & E5).
  cbv zeta in *. revert E1 E2 E3 E4 E5. generalize (sent_recipient (with_key se_serviceId (rp_serviceId r) (entries_of recipients))).
  intros x E1 E2 E3 E4 E5. split.
  - apply Forall_forall. intros d Hd. apply E5 in Hd as (r' & Hr' & _ & ->). by apply Hr.
  - unfold recipient_bytes. rewrite (proj2 (Z.eqb_neq (len (sr_devices x)) 0)) by (destruct (sr_devices x); [done|len_lia]).
    replace (len (sr_encryptedMessageKey x)) with 32 by (rewrite E2; unfold len in *; rewrite encapsulate_length; lia).
    replace (len (sr_authenticationTag x)) with 16 by (rewrite E3; unfold len; by rewrite tag_length).
    change (32 =? ENCRYPTED_KEY_SIZE) with true. change (16 =? AUTH_TAG_SIZE) with true. cbn [negb throw_when mbind result_bind].
    destruct (Hr r Hin) as (_ & _ & id & Eid). unfold service_id_bytes. rewrite E1, Eid. cbn [mbind result_bind]. by eexists.
Qed.

Lemma sent_serialized recipients mc : Forall member_device recipients -> len recipients < 2 ^ 32 ->
  exists sent, serializeSentMessage (sent_recipients_of recipients) [] (x25519_public (ephemeral_of m)) mc = Ok sent /\
    deserializeSentMessage sent = Ok {| ds_recipients := map canonical_recipient (sent_recipients_of recipients); ds_excludedRecipients := [];
      ds_ephemeralPublic := x25519_public (ephemeral_of m); ds_messageCiphertext := mc |}.
Proof.
  intros Hr Hn. pose proof (sent_of_count recipients). pose proof (len_nonneg (sent_recipients_of recipients)).
  enough (exists sent, serializeSentMessage (sent_recipients_of recipients) [] (x25519_public (ephemeral_of m)) mc = Ok sent) as [sent Es].
  { exists sent. split; [done|]. apply (deserialize_serialized _ _ _ _ _ Es). apply Forall_forall. intros x Hx. by apply (sent_recipients_ok recipients). }
  unfold serializeSentMessage. replace (len (x25519_public (ephemeral_of m))) with 32 by (unfold len; by rewrite x25519_public_length by apply ephemeral_length).
  change (32 =? EPHEMERAL_PUBLIC_SIZE) with true. cbn [negb throw_when mbind result_bind]. change (len []) with 0. rewrite encodeVarint_ok by lia.
  cbn [mbind result_bind]. destruct (mapM_result_total recipient_bytes (sent_recipients_of recipients)) as [bs ->]; [intros x Hx; by apply (sent_recipients_ok recipients)|].
  by eexists.
Qed.

(** ** Delivery *)
Definition policy_of (config : SealedSenderConfig) : SenderCertificateValidationPolicy :=
  {| expectedRelayScopeId := cfg_relayScopeId config; revokedIssuerKeyIds := Some (cfg_revokedIssuerKeyIds config) |}.

(** Every device named in the message can open what the transport hands it. *)
Definition reaches (sent : bytes) (recipients : list SealRecipient) (cert : SenderCertificate) (msg : bytes) (ct hint : Z) : Prop :=
  forall auth ts class ids cid rs body, prepare_send sent auth ts class ids cid = Ok (rs, body) ->
  forall r id, r ∈ recipients -> serviceIdToBytes (rp_serviceId r) = Ok id ->
  exists a received, a ∈ rs /\ an_accountAddress a = bytesToUrlSafeBase64 id /\
    {| wd_deviceId := rp_deviceId r; wd_registrationId := rp_registrationId r |} ∈ an_devices a /\
    decodeHostedAnonymousEnvelope (an_prefix a ++ body) = Ok (received, ts) /\
    forall config now, validateSenderCertificate cert (cfg_trustRoots config) now (policy_of config) = Ok tt ->
      isSafeInteger now = true -> 0 < now -> ~ (senderUuid cert = rp_serviceId r /\ senderDeviceId cert = rp_deviceId r) ->
      unsealMessage received (account (rp_serviceId r)) (rp_serviceId r) (rp_deviceId r) config (Some now) =
        Ok {| un_senderUserId := senderUuid cert; un_senderDeviceId := senderDeviceId cert; un_innerCiphertext := msg;
              un_contentType := ct; un_contentHint := hint |}.

Lemma timestampHeader_inv ts h : timestampHeader ts = Ok h -> 0 < ts <= MAX_SAFE_INTEGER /\ h = FRAME_VERSION :: uint64be ts.
Proof.
  unfold timestampHeader. rewrite bind_Ok. intros (? & T & [= <-]). apply throw_when_Ok, orb_false_iff in T as [T1 T2].
  apply negb_false_iff, andb_true_iff in T1 as [_ T1]. split; [lia|done].
Qed.

Lemma of_uint64be_ok ts : 0 <= ts < 2 ^ 64 -> of_uint64be (uint64be ts) = ts.
Proof.
  intros H. unfold uint64be, of_uint64be. cbn [map fold_left Z.mul Pos.mul]. rewrite Z.pow_0_r, Z.div_1_r.
  assert (K : forall k, 0 <= k -> ts / 2 ^ (8 * (k + 1)) * 256 + ts / 2 ^ (8 * k) mod 256 = ts / 2 ^ (8 * k)).
  { intros k Hk. replace (8 * (k + 1)) with (8 * k + 8) by lia. rewrite Z.pow_add_r, <- Z.div_div by lia. change (2 ^ 8) with 256.
    pose proof (Z.div_mod (ts / 2 ^ (8 * k)) 256). lia. }
  assert (K0 : ts / 2 ^ 8 * 256 + ts / 2 ^ 0 mod 256 = ts / 2 ^ 0) by exact (K 0 ltac:(lia)).
  assert (K1 : ts / 2 ^ 16 * 256 + ts / 2 ^ 8 mod 256 = ts / 2 ^ 8) by exact (K 1 ltac:(lia)).
  assert (K2 : ts / 2 ^ 24 * 256 + ts / 2 ^ 16 mod 256 = ts / 2 ^ 16) by exact (K 2 ltac:(lia)).
  assert (K3 : ts / 2 ^ 32 * 256 + ts / 2 ^ 24 mod 256 = ts / 2 ^ 24) by exact (K 3 ltac:(lia)).
  assert (K4 : ts / 2 ^ 40 * 256 + ts / 2 ^ 32 mod 256 = ts / 2 ^ 32) by exact (K 4 ltac:(lia)).
  assert (K5 : ts / 2 ^ 48 * 256 + ts / 2 ^ 40 mod 256 = ts / 2 ^ 40) by exact (K 5 ltac:(lia)).
  assert (K6 : ts / 2 ^ 56 * 256 + ts / 2 ^ 48 mod 256 = ts / 2 ^ 48) by exact (K 6 ltac:(lia)).
  rewrite Z.pow_0_r, Z.div_1_r in K0.
  rewrite (Z.mod_small (ts / 2 ^ 56)) by (split; [apply Z.div_pos|apply Z.div_lt_upper_bound]; lia).
  rewrite Z.add_0_l.
  change (8 * 1) with 8. change (8 * 2) with 16. change (8 * 3) with 24. change (8 * 4) with 32. change (8 * 5) with 40. change (8 * 6) with 48.
  by rewrite K6, K5, K4, K3, K2, K1, K0.
Qed.

Lemma anonymous_recipient_inv auth header parsed expected accounts entry a :
  anonymous_recipient auth header parsed expected accounts entry = Ok a -> exists id view,
  serviceIdToBytes (sr_serviceId entry) = Ok id /\ an_accountAddress a = bytesToUrlSafeBase64 id /\ an_devices a = sr_devices entry /\
  serializeReceivedMessage (sr_encryptedMessageKey entry) (sr_authenticationTag entry) (ds_ephemeralPublic parsed) [] = Ok view /\
  an_prefix a = header ++ view.
Proof.
  unfold anonymous_recipient. cbv zeta. intros H. apply bind_Ok in H as (id & Eid & H). apply bind_Ok in H as (? & _ & H).
  apply bind_Ok in H as (? & _ & H). apply bind_Ok in H as (view & Ev & H). apply bind_Ok in H as (? & _ & [= <-]).
  exists id, view. by split_and!.
Qed.

Lemma anonymous_recipients_In auth header parsed l : forall expected accounts rs,
  anonymous_recipients auth header parsed expected accounts l = Ok rs -> forall entry, entry ∈ l ->
  exists a expected accounts, a ∈ rs /\ anonymous_recipient auth header parsed expected accounts entry = Ok a.
Proof.
  induction l as [|x l IH]; intros expected accounts rs H entry Hin; [by apply elem_of_nil in Hin|].
  cbn [anonymous_recipients] in H. apply bind_Ok in H as (a & Ea & H). apply bind_Ok in H as (rest & Er & [= <-]).
  apply elem_of_cons in Hin as [->|Hin]; [exists a; do 2 eexists; split; [left|exact Ea]|].
  destruct (IH _ _ _ Er entry Hin) as (a' & e' & ac' & Ha & Eq). exists a', e', ac'. split; [by right|done].
Qed.

Lemma prepare_send_inv sent auth ts class ids cid rs body : prepare_send sent auth ts class ids cid = Ok (rs, body) ->
  exists parsed header, deserializeSentMessage sent = Ok parsed /\ timestampHeader ts = Ok header /\ body = ds_messageCiphertext parsed /\
  0 < len body /\ anonymous_recipients auth header parsed ids [] (ds_recipients parsed) = Ok rs.
Proof.
  unfold prepare_send. intros H. apply bind_Ok in H as (header & Eh & H). apply bind_Ok in H as (? & _ & H).
  apply bind_Ok in H as (parsed & Ep & H). apply bind_Ok in H as (? & T & H).
  apply bind_Ok in H as (? & _ & H). apply bind_Ok in H as (rs' & Er & H). apply bind_Ok in H as (? & _ & [= <- <-]).
  apply throw_when_Ok in T. repeat apply orb_false_iff in T as [T ?]. exists parsed, header. split_and!; try done. len_pos. b2p. lia.
Qed.

Lemma decode_frame ts header k t ep view mc : timestampHeader ts = Ok header -> serializeReceivedMessage k t ep [] = Ok view -> 0 < len mc ->
  decodeHostedAnonymousEnvelope ((header ++ view) ++ mc) = Ok (view ++ mc, ts).
Proof.
  intros Eh Ev Hmc. destruct (deserialize_received k t ep mc view Ev) as (D & _). apply timestampHeader_inv in Eh as Eh'. destruct Eh' as [Ht ->].
  assert (Hl : len (uint64be ts) = 8) by done. set (h := uint64be ts) in *. unfold decodeHostedAnonymousEnvelope. rewrite <- app_assoc. cbn [app].
  change FRAME_HEADER_BYTES with 9. rewrite (proj2 (Z.leb_gt _ _)) by len_lia. change (byte_at (FRAME_VERSION :: ?l) 0) with FRAME_VERSION.
  rewrite Z.eqb_refl. cbn [negb orb throw_when mbind result_bind]. cbv zeta.
  assert (E1 : slice (FRAME_VERSION :: h ++ view ++ mc) 1 9 = h) by (apply (slice_at [FRAME_VERSION]); len_lia).
  assert (E2 : slice (FRAME_VERSION :: h ++ view ++ mc) 9 (len (FRAME_VERSION :: h ++ view ++ mc)) = view ++ mc) by (apply (slice_end (FRAME_VERSION :: h)); len_lia).
  rewrite E1, E2. subst h. rewrite of_uint64be_ok by (unfold MAX_SAFE_INTEGER in *; lia). rewrite Eh. cbn [mbind result_bind].
  rewrite D. cbn [mbind result_bind dr_messageCiphertext]. rewrite (proj2 (Z.eqb_neq _ _)) by lia. done.
Qed.

Lemma view_version k t ep view mc : serializeReceivedMessage k t ep [] = Ok view -> head (view ++ mc) = Some SEALED_SENDER_V2_UUID_VERSION.
Proof.
  unfold serializeReceivedMessage. rewrite bind_Ok. intros (? & _ & H). apply bind_Ok in H as (? & _ & H). apply bind_Ok in H as (? & _ & [= <-]). done.
Qed.

Lemma reaches_all cert cb recipients msg ct hint sent : sender_ok cert cb spriv -> sealable m msg hint -> isSealedSenderContentType ct = true ->
  Forall member_device recipients -> len recipients < 2 ^ 32 ->
  serializeSentMessage (sent_recipients_of recipients) [] (x25519_public (ephemeral_of m)) (ciphertext_of m cb msg ct hint) = Ok sent ->
  reaches sent recipients cert msg ct (default 0 hint).
Proof.
  intros Hso Hok Hct Hmem Hn Es auth ts class ids cid rs body Hp r id Hr Hid.
  destruct (sent_serialized recipients (ciphertext_of m cb msg ct hint) Hmem Hn) as (sent' & Es' & Ed). rewrite Es in Es'. injection Es' as <-.
  apply prepare_send_inv in Hp as (parsed & header & Ep & Eh & -> & Hlen & Ers). rewrite Ed in Ep. injection Ep as <-. cbn [ds_messageCiphertext ds_recipients] in *.
  pose proof (sent_recipient_spec recipients r Hr) as S. cbv zeta in S. destruct S as (E1 & E2 & E3 & _ & E5).
  pose proof (sent_of_member recipients r Hr) as Hin. set (x := sent_recipient _) in *.
  destruct (anonymous_recipients_In _ _ _ _ _ _ _ Ers (canonical_recipient x)) as (a & expected & accounts & Ha & Eq).
  { apply list_elem_of_In, in_map. by apply list_elem_of_In. }
  apply anonymous_recipient_inv in Eq as (id' & view & Eid & Eaddr & Edev & Ev & Epre).
  cbn [canonical_recipient sr_serviceId sr_devices sr_encryptedMessageKey sr_authenticationTag ds_ephemeralPublic] in *.
  rewrite E1, (canonical_id_same _ _ Hid) in Eid. injection Eid as <-. set (mc := ciphertext_of _ _ _ _ _) in *.
  exists a, (view ++ mc). split; [done|]. split; [done|]. split; [rewrite Edev; apply E5; eauto|].
  split; [rewrite Epre; by apply (decode_frame ts header (sr_encryptedMessageKey x) (sr_authenticationTag x) (x25519_public (ephemeral_of m)))|].
  intros config now Hval Hsafe Hnow Hself. unfold unsealMessage. rewrite Hsafe, (proj2 (Z.leb_gt now 0)) by lia. cbn [negb orb throw_when mbind result_bind].
  rewrite (view_version _ _ _ _ _ Ev), Z.eqb_refl. cbn [orb].
  destruct (deserialize_received _ _ _ mc _ Ev) as (D & _). unfold unsealReceivedMessage. rewrite D. cbn [mbind result_bind]. rewrite getPublicKey_ok by auto.
  cbn [mbind result_bind dr_encryptedMessageKey dr_authenticationTag dr_ephemeralPublic dr_messageCiphertext]. rewrite E2, E3.
  fold (policy_of config). unfold mc. rewrite (unseal_sealed cert cb) by (auto || naive_solver). done.
Qed.
End Delivery.

(** ** What a device accepts *)
Section Accepted.
Context {C : RatchetCrypto} {CL : RatchetCryptoLaws C} {G : AesGcmSiv} {E : Ed25519}.

Lemma getSharedSecret_inv a b d : getSharedSecret a b = Ok d -> len a = 32 /\ len b = 32 /\ d = x25519 a b /\ d <> replicate 32 0.
Proof.
  unfold getSharedSecret. intros H. apply bind_Ok in H as (? & T1 & H). apply bind_Ok in H as (? & T2 & [= <-]).
  apply throw_when_Ok in T1, T2. apply orb_false_iff in T1 as [T1 T1']. apply bool_decide_eq_false in T2. b2p. done.
Qed.

(** The tag that the holder of [priv] expects of the identity [sender]. *)
Definition expected_tag (priv sender ephemeral key : bytes) : bytes :=
  hkdf (x25519 priv sender ++ serialized ephemeral ++ key ++ serialized sender ++ serialized (x25519_public priv)) [] V2_LABEL_DH_S 16.

Lemma computeAuthenticationTag_inv priv sender ephemeral key tag : len ephemeral = 32 ->
  computeAuthenticationTag priv (x25519_public priv) sender ephemeral key receiving = Ok tag ->
  len sender = 32 /\ x25519 priv sender <> replicate 32 0 /\ tag = expected_tag priv sender ephemeral key.
Proof.
  intros He H. unfold computeAuthenticationTag in H. apply bind_Ok in H as (d & Ed & H). apply getSharedSecret_inv in Ed as (Hp & Hs & -> & Hz).
  rewrite !serialize_raw_ok in H by (unfold len in *; rewrite ?x25519_public_length; lia). cbn [mbind result_bind] in H. injection H as <-. done.
Qed.

Lemma parseEnvelope_inv b e : parseEnvelope b = Ok e ->
  isSealedSenderContentType (ev_contentType e) = true /\ exists cb, deserializeSenderCertificate cb = Ok (ev_certificate e).
Proof.
  unfold parseEnvelope. cbv zeta. intros H. apply bind_Ok in H as (? & _ & H). apply bind_Ok in H as (? & T & H).
  apply bind_Ok in H as ([cl cn] & _ & H). apply bind_Ok in H as (? & _ & H). apply bind_Ok in H as (? & _ & H).
  apply bind_Ok in H as ([ml mn] & _ & H). do 4 apply bind_Ok in H as (? & _ & H). apply bind_Ok in H as (cert & Ec & [= <-]).
  apply throw_when_Ok, negb_false_iff in T. eauto.
Qed.

Lemma unseal_inv sealed priv pub uuid dev roots now policy c : unseal sealed priv pub uuid dev roots now policy = Ok c ->
  exists r e tag, List.find (is_recipient uuid dev) (sm_recipients sealed) = Some r /\ len (sm_ephemeralPublic sealed) = 32 /\
    isSealedSenderContentType (ct_contentType c) = true /\ (exists cb, deserializeSenderCertificate cb = Ok (ct_senderCertificate c)) /\
    c = {| ct_senderCertificate := ev_certificate e; ct_signalProtocolMessage := ev_message e; ct_contentType := ev_contentType e; ct_contentHint := ev_contentHint e |} /\
    computeAuthenticationTag priv pub (senderIdentityKey (ct_senderCertificate c)) (sm_ephemeralPublic sealed) (se_encryptedMessageKey r) receiving = Ok tag /\
    verifyAuthenticationTag tag (se_authenticationTag r) = true /\
    validateSenderCertificate (ct_senderCertificate c) roots now policy = Ok tt /\
    ~ (senderUuid (ct_senderCertificate c) = uuid /\ senderDeviceId (ct_senderCertificate c) = dev).
Proof.
  unfold unseal. cbv zeta. intros H. apply bind_Ok in H as (? & _ & H). apply bind_Ok in H as (r & Er & H). apply bind_Ok in H as (? & T & H).
  apply bind_Ok in H as (m & _ & H). apply bind_Ok in H as (ep & _ & H). apply bind_Ok in H as (? & _ & H). apply bind_Ok in H as (env & _ & H).
  apply bind_Ok in H as (e & Ee & H). apply bind_Ok in H as (tag & Et & H). apply bind_Ok in H as (? & Tv & H). apply bind_Ok in H as ([] & Ev & H).
  apply bind_Ok in H as (? & Ts & [= <-]). apply throw_when_Ok, negb_false_iff in T, Tv. apply throw_when_Ok, andb_false_iff in Ts.
  apply parseEnvelope_inv in Ee as [Hct Hcb]. destruct (List.find _ _) as [r'|]; [injection Er as <-|done]. b2p.
  exists r', e, tag. split_and!; try done. cbn [ct_senderCertificate]. intros [H1 H2]. rewrite H1, H2, bool_decide_true, Z.eqb_refl in Ts by done. naive_solver.
Qed.

Lemma deserialize_received_bytes b d : is_bytes b -> deserializeReceivedMessage b = Ok d -> is_bytes (dr_authenticationTag d).
Proof.
  intros Hb. unfold deserializeReceivedMessage. cbv zeta. intros H. apply bind_Ok in H as (? & _ & H). apply bind_Ok in H as (? & _ & [= <-]).
  by apply Forall_take, Forall_drop.
Qed.
End Accepted.
