(* ===== verification/SealedSenderTheorems.v ===== *)
(** * Theorems about sealed sender

    The sent message is read back as it was written; a sealed group or direct
    message reaches every device it names; what a device accepts is bound to a
    certified sender.  The witnesses run on small instances of the primitives. *)
From S2P Require Import Prelude JsMap ProtoWire Utf8 Base64 SignalMessage Crypto Identity IdentityProofs DoubleRatchet SessionRecord SessionStore SealedSenderWire SealedSender SealedSenderProofs SealedSenderDelivery RatchetToy.

(** C7: A sealed message reaches every device it names.  For a sender with a
    certificate, and members with known identities, service ids and device
    and registration numbers of their wire sizes, the sealed group message is
    built; and whatever the transport makes of it ([prepare_send]), each
    member's account has an entry that lists the device, the frame built from
    the entry decodes to the view of the device and the time stamp, and under
    trust roots and at a time at which the certificate is valid the device
    unseals the message, the sender of the certificate, the content type and
    the hint.  The same holds of a direct message to one device. *)
Theorem sealed_sender_delivers {C : RatchetCrypto} {CL : RatchetCryptoLaws C} {G : AesGcmSiv} {GL : AesGcmSivLaws G} {E : Ed25519}
    (account : jsstring -> bytes) (spriv m scb cb : bytes) (cert : SenderCertificate) recipients msg hint :
  (forall s, length (account s) = 32%nat) -> length spriv = 32%nat ->
  deserializeSenderCertificate scb = Ok cert -> serializeSenderCertificate cert = Ok cb -> is_bytes cb -> len cb < 2 ^ 32 ->
  senderIdentityKey cert = x25519_public spriv -> sealable m msg hint ->
  recipients <> [] -> Forall (member_device account) recipients -> len recipients < 2 ^ 32 ->
  (exists sent, group_sent_message m recipients scb spriv (x25519_public spriv) msg hint = Ok sent /\
    reaches account sent recipients cert msg CT_SENDERKEY_MESSAGE (default 0 hint)) /\
  forall r messageType, recipients = [r] ->
    exists sent, serializeDirectSealedSenderMessage m (rp_serviceId r) (rp_deviceId r) msg messageType (Some (rp_registrationId r)) scb spriv
      (x25519_public spriv) (rp_identityPublic r) hint = Ok sent /\
    reaches account sent recipients cert msg (content_type_of messageType) (default 0 hint).
Proof.
  intros Hacc Hs Hd Hser Hcb Hcl Hkey Hok Hne Hmem Hn. pose proof Hok as (Hm & _).
  assert (Hso : sender_ok cert cb spriv) by (split; try done; by apply (certificate_roundtrip scb)).
  split; [|intros r mt ->; assert (Hct : isSealedSenderContentType (content_type_of mt) = true) by (by destruct mt)].
  - destruct (sent_serialized account spriv m Hs Hm recipients (ciphertext_of m cb msg CT_SENDERKEY_MESSAGE hint)) as (sent & Es & _); [done..|].
    exists sent. split; [|by apply (reaches_all account Hacc spriv m Hs Hm cert cb)].
    unfold group_sent_message. rewrite Hd. cbn [mbind result_bind]. rewrite (sealMultiRecipient_ok account Hacc spriv m Hs Hm cert cb) by done. exact Es.
  - destruct (sent_serialized account spriv m Hs Hm [r] (ciphertext_of m cb msg (content_type_of mt) hint)) as (sent & Es & _); [done..|].
    exists sent. split; [|by apply (reaches_all account Hacc spriv m Hs Hm cert cb)].
    unfold serializeDirectSealedSenderMessage. rewrite Hd. cbn [mbind result_bind].
    change (default 0 (Some (rp_registrationId r))) with (rp_registrationId r).
    assert (Er : {| rp_serviceId := rp_serviceId r; rp_deviceId := rp_deviceId r; rp_registrationId := rp_registrationId r; rp_identityPublic := rp_identityPublic r |} = r) by (by destruct r).
    rewrite Er, (sealMultiRecipient_ok account Hacc spriv m Hs Hm cert cb) by done. exact Es.
Qed.

(** C8: What a device unseals is bound to a certified sender, on every input.
    When [unsealMessage] returns, the sender it names stands in a certificate
    whose signed bytes verify under the key of an issuer, the issuer's signed
    bytes verify under a trust root, the time lies in both terms, the scope is
    the own one and the issuer is not revoked; the sender is not the device
    itself; and the tag of the message is the one derived from the agreement
    between the device's identity and the certified identity, over the
    ephemeral key, the encapsulated key and both identities. *)
Theorem unsealed_sender_bound {C : RatchetCrypto} {CL : RatchetCryptoLaws C} {G : AesGcmSiv} {E : Ed25519}
    sealed priv uuid dev config t u : is_bytes sealed ->
  unsealMessage sealed priv uuid dev config (Some t) = Ok u ->
  exists d cert inner issuer root,
    deserializeReceivedMessage sealed = Ok d /\
    decodeSenderCertificateData (certificateBytes cert) = Ok inner /\
    un_senderUserId u = sc_senderUuid inner /\ un_senderDeviceId u = sc_senderDevice inner /\ t <= sc_expires inner /\
    constantTimeEqual (sc_relayScopeId inner) (cfg_relayScopeId config) = true /\
    decodeServerCertificateData (vc_certificateBytes (signer cert)) = Ok issuer /\ sv_notBefore issuer <= t <= sv_notAfter issuer /\
    crypto_verify (sv_key issuer) (certificateBytes cert) (certificateSignature cert) = true /\
    root ∈ cfg_trustRoots config /\ crypto_verify root (vc_certificateBytes (signer cert)) (vc_signature (signer cert)) = true /\
    (vc_id (signer cert) ∉ cfg_revokedIssuerKeyIds config) /\
    ~ (un_senderUserId u = uuid /\ un_senderDeviceId u = dev) /\
    x25519 priv (sc_identityKey inner) <> replicate 32 0 /\
    dr_authenticationTag d = expected_tag priv (sc_identityKey inner) (dr_ephemeralPublic d) (dr_encryptedMessageKey d) /\
    isSealedSenderContentType (un_contentType u) = true.
Proof.
  intros Hb H. unfold unsealMessage in H. apply bind_Ok in H as (? & _ & H). destruct (head sealed) as [v|]; [|done].
  destruct (_ || _); [|done]. unfold unsealReceivedMessage in H. apply bind_Ok in H as (d & Ed & H). apply bind_Ok in H as (pub & Ep & H).
  unfold getPublicKey in Ep. apply bind_Ok in Ep as (? & _ & [= <-]). apply bind_Ok in H as (c & Ec & [= <-]).
  apply unseal_inv in Ec as (r & e & tag & Er & He & Hct & (cb & Hcb) & _ & Et & Ev & Hval & Hself). cbn [sm_recipients sm_ephemeralPublic List.find] in *.
  destruct (is_recipient _ _ _); [injection Er as <-|done]. cbn [se_encryptedMessageKey se_authenticationTag] in *.
  apply deserialize_certificate_inv in Hcb as (outer & inner & so & si & _ & _ & _ & Ei & E1 & E2 & E3 & E4 & E5 & _ & _ & Esi & E6 & E7 & E8).
  apply validateSenderCertificate_inv in Hval as ((root & Hroot & Vr) & Vc & Ht & Hx & Hscope & Hrev).
  apply computeAuthenticationTag_inv in Et as (_ & Hz & ->); [|done]. rewrite E3 in *.
  unfold verifyAuthenticationTag in Ev. destruct (negb _ || negb _); [done|]. rewrite constantTimeEqual_spec in Ev by (apply hkdf_bytes || by eapply deserialize_received_bytes).
  apply bool_decide_eq_true in Ev. exists d, (ct_senderCertificate c), inner, si, root.
  cbn [un_senderUserId un_senderDeviceId un_contentType]. rewrite <- E6, <- E7, <- E8, <- E4, <- E5, <- E1, <- E2. split_and!; first [done|lia].
Qed.

(** The message for many recipients is read back as it was written: for
    devices whose ids and registration ids have their wire sizes, parsing
    gives the same devices, keys and tags in order, the excluded accounts, the
    ephemeral key and the ciphertext; an account comes back under its UUID
    name, which stands for the same 16 bytes. *)
Theorem sent_message_roundtrip rs ex ep mc b : serializeSentMessage rs ex ep mc = Ok b -> Forall wire_recipient rs ->
  deserializeSentMessage b = Ok {| ds_recipients := map canonical_recipient rs; ds_excludedRecipients := map canonical_id ex;
                                   ds_ephemeralPublic := ep; ds_messageCiphertext := mc |} /\
  forall s, s ∈ map sr_serviceId rs ++ ex -> exists id, serviceIdToBytes s = Ok id /\ serviceIdToBytes (canonical_id s) = Ok id.
Proof.
  intros H Hw. split; [by apply deserialize_serialized|]. intros s Hin.
  enough (exists id, serviceIdToBytes s = Ok id) as [id E] by (exists id; split; [done|by apply canonical_id_same]).
  by apply (serialized_service_ids _ _ _ _ _ H).
Qed.

Lemma identified_None mode : useIdentifiedDeliveryOrThrow mode = Ok None -> mode <> mode_required.
Proof. by destruct mode. Qed.

(** The key with which a message is posted to an account: derived from its
    profile key unless the account gives access to everybody; the key of
    zeros where it does, or where neither its mode nor a profile key is known. *)
Definition access_key_for (gcm : bytes -> bytes -> bytes -> result bytes) (profiles : ContactProfileStateStore) (user : jsstring) (mode : Z) (k : bytes) : Prop :=
  (mode = ACCESS_MODE_UNRESTRICTED /\ k = replicate 16 0) \/
  (mode <> ACCESS_MODE_UNRESTRICTED /\ exists key, getContactProfileKey profiles user = Ok (Some key) /\ deriveAccessKey gcm key = Ok k) \/
  (mode <> ACCESS_MODE_UNRESTRICTED /\ mode <> ACCESS_MODE_ENABLED /\ getContactProfileKey profiles user = Ok None /\ k = replicate 16 0).

Lemma access_key_inv gcm profiles user k : access_key_of gcm profiles user = Ok (Some k) -> exists mode,
  getUnidentifiedAccessMode profiles user = Ok mode /\ mode <> ACCESS_MODE_DISABLED /\ access_key_for gcm profiles user mode k.
Proof.
  unfold access_key_of, access_key_for. intros H. apply bind_Ok in H as (mode & Em & H). exists mode. split; [done|].
  destruct (Z.eqb_spec mode ACCESS_MODE_DISABLED); [done|]. split; [done|].
  destruct (Z.eqb_spec mode ACCESS_MODE_UNRESTRICTED); [injection H as <-; by left|]. right.
  apply bind_Ok in H as ([key|] & Ek & H).
  - apply bind_Ok in H as (k' & Ek' & [= ->]). left. eauto.
  - right. destruct (Z.eqb_spec mode ACCESS_MODE_ENABLED); [done|]. by injection H as <-.
Qed.

Lemma endorsed_inv context provider user groupId resolved : endorsed_context context provider user groupId = Ok (Some resolved) ->
  Some provider = Some (Ok (rv_sender resolved)) /\
  (exists record, getContactIdentity {| userId := user; deviceId := 1 |} aci (rx_storage context) = Ok (Some record) /\
    rv_recipientIdentityPublic resolved = x25519PublicKey (c_identity record)) /\
  match rv_auth resolved with
  | groupSendToken token recipients => exists getToken g aciBytes, rx_getTokenForRecipient context = Some getToken /\
      groupId = Some g /\ getToken g user = Ok (Some (token, aciBytes)) /\ recipients = [(user, aciBytes)]
  | accessKey _ => False
  end.
Proof.
  unfold endorsed_context. destruct groupId as [[|c g]|]; [done| |done]. cbn [nonempty].
  destruct (rx_getTokenForRecipient context) as [getToken|]; [|done]. intros H. apply bind_Ok in H as ([[token aciBytes]|] & Et & H); [|done].
  apply bind_Ok in H as (sender & -> & H). apply bind_Ok in H as ([record|] & Er & H); [|done]. injection H as <-.
  cbn [rv_sender rv_auth rv_recipientIdentityPublic]. split; [done|]. split; [eauto|]. exists getToken, (c :: g), aciBytes. done.
Qed.

(** C20: Where sealed sender is required, no message falls back to identified
    delivery: the choice of the route throws instead; where it is disabled,
    none is sealed.  A message is sealed only if the transport supports it, to
    the identity that the store has pinned for the account, and authorized
    either by the endorsement of the group for this recipient alone or by an
    access key of an account that has not disabled anonymous access.  That key
    is derived from the stored profile key; it is the key of 16 zeros, which no
    owner gives, exactly when the account gives access to everybody, or when
    its mode is not known to be limited to contacts and no profile key is
    stored. *)
Theorem sealed_route_respects_policy gcm context user groupId :
  (rx_deliveryMode context = mode_required -> resolveSealedSenderContext gcm context user groupId <> Ok None) /\
  (rx_deliveryMode context = mode_disabled -> resolveSealedSenderContext gcm context user groupId = Ok None) /\
  forall resolved, resolveSealedSenderContext gcm context user groupId = Ok (Some resolved) ->
    rx_relaySupportsUnidentified context = true /\ rx_provider context = Some (Ok (rv_sender resolved)) /\
    (exists record, getContactIdentity {| userId := user; deviceId := 1 |} aci (rx_storage context) = Ok (Some record) /\
      rv_recipientIdentityPublic resolved = x25519PublicKey (c_identity record)) /\
    match rv_auth resolved with
    | groupSendToken token recipients => exists getToken g aciBytes, rx_getTokenForRecipient context = Some getToken /\
        groupId = Some g /\ getToken g user = Ok (Some (token, aciBytes)) /\ recipients = [(user, aciBytes)]
    | accessKey k => exists profiles mode, rx_contactProfileStateStore context = Some profiles /\
        getUnidentifiedAccessMode profiles user = Ok mode /\ mode <> ACCESS_MODE_DISABLED /\
        ((mode = ACCESS_MODE_UNRESTRICTED /\ k = replicate 16 0) \/
         (mode <> ACCESS_MODE_UNRESTRICTED /\ exists key, getContactProfileKey profiles user = Ok (Some key) /\ deriveAccessKey gcm key = Ok k) \/
         (mode <> ACCESS_MODE_UNRESTRICTED /\ mode <> ACCESS_MODE_ENABLED /\ getContactProfileKey profiles user = Ok None /\ k = replicate 16 0))
    end.
Proof.
  destruct context as [s mode supports provider profiles tokens]. unfold resolveSealedSenderContext.
  cbn [rx_storage rx_deliveryMode rx_relaySupportsUnidentified rx_provider rx_contactProfileStateStore rx_getTokenForRecipient].
  split; [|split; [by intros ->|]].
  - intros ->. destruct provider as [provider|]; [|done]. destruct supports; [|done]. intros H.
    apply bind_Ok in H as ([resolved|] & _ & H); [done|]. destruct profiles as [profiles|]; [|done].
    apply bind_Ok in H as ([key|] & _ & H); [|done]. apply bind_Ok in H as (sender & _ & H). by apply bind_Ok in H as ([record|] & _ & H).
  - intros resolved H. destruct mode; [| |done].
    all: destruct provider as [provider|]; [|done]; destruct supports; [|done]; split; [done|];
      apply bind_Ok in H as ([endorsed|] & Ee & H);
      [injection H as ->; apply endorsed_inv in Ee; cbn [rx_storage rx_getTokenForRecipient] in Ee; destruct (rv_auth resolved); tauto
      |destruct profiles as [profiles|]; [|done]; apply bind_Ok in H as ([key|] & Ek & H); [|done];
       apply bind_Ok in H as (sender & -> & H); apply bind_Ok in H as ([record|] & Er & H); [|done]; injection H as <-; cbn [rv_sender rv_auth rv_recipientIdentityPublic];
       apply access_key_inv in Ek as (am & Em & Hd & He); split; [done|]; split; [eauto|]; exists profiles, am; done].
Qed.

(** ** A run on small instances *)
#[export] Instance toy_siv : AesGcmSiv := {|
  gcm_siv_encrypt k n p := p ++ take 16 (@hmac toy_hash k (n ++ p));
  gcm_siv_decrypt k n c :=
    let p := take (length c - 16) c in
    if bool_decide (drop (length c - 16) c = take 16 (@hmac toy_hash k (n ++ p))) then Ok p else Throw (Error "tag mismatch") |}.

#[export] Instance toy_siv_laws : AesGcmSivLaws toy_siv.
Proof.
  split. intros k n p _ _ Hp. cbn [gcm_siv_encrypt gcm_siv_decrypt toy_siv]. set (t := take 16 (hmac k (n ++ p))).
  assert (Ht : length t = 16%nat) by (subst t; rewrite length_take, hmac_length; done).
  rewrite length_app, Ht. replace (length p + 16 - 16)%nat with (length p) by lia. rewrite take_app_length, drop_app_length.
  split; [by rewrite bool_decide_true|]. split; [apply Forall_app; split; [done|apply Forall_take, hmac_bytes]|]. unfold len. rewrite length_app. lia.
Qed.

Definition ok_bytes (r : result bytes) : bytes := match r with Ok b => b | Throw _ => [] end.
Definition toy_signed (cert root : bytes) : bytes :=
  ok_bytes (encodeSenderCertificate {| sp_certificate := cert; sp_signature := ok_bytes (ed25519_sign cert root) |}).
Definition toy_root : bytes := replicate 32 1.
Definition toy_issuer : bytes := replicate 32 2.
Definition toy_scope : bytes := replicate 16 3.
Definition toy_uuid (n : Z) : jsstring := ok_bytes (bytesToServiceId (replicate 16 n)).
Definition toy_sender_key : bytes := replicate 32 4.
Definition toy_account (s : jsstring) : bytes := replicate 32 (len s + nthZ 0 s 1).

Definition toy_server_certificate : bytes := toy_signed (concat (map ok_bytes
  [encodeUint32Field 1 (Int 9); encodeBytesField 2 toy_issuer; encodeFixed64Field 3 10; encodeFixed64Field 4 1000])) toy_root.
Definition toy_sender_certificate : bytes := toy_signed (concat (map ok_bytes
  [encodeUint32Field 2 (Int 1); encodeFixed64Field 3 500; encodeBytesField 4 (@x25519_public toy_crypto toy_sender_key);
   encodeBytesField 5 toy_server_certificate; encodeBytesField 6 (toy_uuid 7); encodeBytesField 7 toy_scope])) toy_issuer.

Definition toy_cert : SenderCertificate :=
  match deserializeSenderCertificate toy_sender_certificate with
  | Ok c => c
  | Throw _ => {| senderUuid := []; senderDeviceId := 0; senderIdentityKey := []; expires := 0; senderE164 := None; relayScopeId := [];
                  signer := {| vc_id := 0; vc_publicKey := []; vc_notBefore := 0; vc_notAfter := 0; vc_certificateBytes := []; vc_signature := [] |};
                  certificateBytes := []; certificateSignature := [] |}
  end.

Definition toy_seal_recipient (n d reg : Z) : SealRecipient :=
  {| rp_serviceId := toy_uuid n; rp_deviceId := d; rp_registrationId := reg; rp_identityPublic := @x25519_public toy_crypto (toy_account (toy_uuid n)) |}.
Definition toy_recipients : list SealRecipient := [toy_seal_recipient 33 1 5; toy_seal_recipient 44 2 6; toy_seal_recipient 33 3 16000].
Definition toy_seed : bytes := replicate 32 77.
Definition toy_seal_config : SealedSenderConfig := {| cfg_trustRoots := [replicate 32 8; toy_root]; cfg_relayScopeId := toy_scope; cfg_revokedIssuerKeyIds := [4] |}.

Lemma toy_members : Forall (@member_device toy_crypto toy_account) toy_recipients.
Proof. repeat constructor; try done; (eexists; vm_compute; reflexivity). Qed.

Lemma toy_message_ok : sealable toy_seed [1; 2; 3] (Some 1).
Proof. split_and!; [done|done|by repeat constructor|done]. Qed.

(** The run from the seal to the device: prepared, framed, decoded, unsealed. *)
Definition toy_seal_sent : bytes :=
  ok_bytes (@group_sent_message toy_crypto toy_siv toy_seed toy_recipients toy_sender_certificate toy_sender_key
    (@x25519_public toy_crypto toy_sender_key) [1; 2; 3] (Some 1)).
Definition toy_auth : SealedSenderAuth := groupSendToken (replicate 24 0)
  [(bytesToUrlSafeBase64 (replicate 16 33), replicate 16 33); (bytesToUrlSafeBase64 (replicate 16 44), replicate 16 44)].
Definition toy_prepared : result (list AnonymousRecipient * bytes) := prepare_send toy_seal_sent toy_auth 400 user_visible None (Some [1]).
Definition toy_frame (i : nat) : bytes :=
  match toy_prepared with Ok (rs, body) => match rs !! i with Some a => an_prefix a ++ body | None => [] end | Throw _ => [] end.
Definition toy_view (i : nat) : bytes := match decodeHostedAnonymousEnvelope (toy_frame i) with Ok (v, _) => v | Throw _ => [] end.
Definition toy_unsealed (i : nat) (n d : Z) (now : Z) : result Unsealed :=
  @unsealMessage toy_crypto toy_siv toy_ed25519 (toy_view i) (toy_account (toy_uuid n)) (toy_uuid n) d toy_seal_config (Some now).
Definition toy_content : Unsealed :=
  {| un_senderUserId := toy_uuid 7; un_senderDeviceId := 1; un_innerCiphertext := [1; 2; 3]; un_contentType := CT_SENDERKEY_MESSAGE; un_contentHint := 1 |}.

(** Both devices of the first account and the device of the second read the
    message; after the term of the certificate none does, nor does a device of
    the other account on this view. *)
Example toy_delivery :
  toy_unsealed 0 33 1 450 = Ok toy_content /\ toy_unsealed 0 33 3 450 = Ok toy_content /\ toy_unsealed 1 44 2 450 = Ok toy_content /\
  toy_unsealed 0 33 1 501 = Throw VERIFICATION_FAILED /\ toy_unsealed 0 44 2 450 = Throw VERIFICATION_FAILED.
Proof. vm_compute. by split_and!. Qed.

Lemma sealed_sender_delivers_witness :
  @reaches toy_crypto toy_siv toy_ed25519 toy_account toy_seal_sent toy_recipients toy_cert [1; 2; 3] CT_SENDERKEY_MESSAGE 1 /\ is_ok toy_prepared = true.
Proof.
  split; [|vm_compute; reflexivity].
  destruct (@sealed_sender_delivers toy_crypto toy_laws toy_siv toy_siv_laws toy_ed25519 toy_account toy_sender_key toy_seed toy_sender_certificate
    toy_sender_certificate toy_cert toy_recipients [1; 2; 3] (Some 1)) as [(sent & Es & H) _];
    [done|done|vm_compute; reflexivity|vm_compute; reflexivity|apply (bool_decide_eq_true_1 _); vm_compute; reflexivity|vm_compute; reflexivity
    |vm_compute; reflexivity|exact toy_message_ok|done|exact toy_members|vm_compute; reflexivity|].
  replace toy_seal_sent with sent; [exact H|]. unfold toy_seal_sent. by rewrite Es.
Defined.

Lemma unsealed_sender_bound_witness : exists d cert inner root,
  deserializeReceivedMessage (toy_view 1) = Ok d /\ decodeSenderCertificateData (certificateBytes cert) = Ok inner /\
  toy_uuid 7 = sc_senderUuid inner /\ root ∈ cfg_trustRoots toy_seal_config /\
  @crypto_verify toy_ed25519 root (vc_certificateBytes (signer cert)) (vc_signature (signer cert)) = true /\
  dr_authenticationTag d = @expected_tag toy_crypto (toy_account (toy_uuid 44)) (sc_identityKey inner) (dr_ephemeralPublic d) (dr_encryptedMessageKey d).
Proof.
  destruct (@unsealed_sender_bound toy_crypto toy_laws toy_siv toy_ed25519 (toy_view 1) (toy_account (toy_uuid 44)) (toy_uuid 44) 2 toy_seal_config 450 toy_content)
    as (d & cert & inner & issuer & root & H1 & H2 & H3 & _ & _ & _ & _ & _ & _ & H4 & H5 & _ & _ & _ & H6 & _);
    [apply (bool_decide_eq_true_1 _); vm_compute; reflexivity|vm_compute; reflexivity|].
  exists d, cert, inner, root. by split_and!.
Defined.

Definition toy_sent_recipients : list SentMessageRecipient :=
  [{| sr_serviceId := toy_uuid 33; sr_devices := [{| wd_deviceId := 1; wd_registrationId := 5 |}; {| wd_deviceId := 3; wd_registrationId := 16383 |}];
      sr_encryptedMessageKey := replicate 32 5; sr_authenticationTag := replicate 16 6 |}].

Lemma sent_message_roundtrip_witness : exists b,
  serializeSentMessage toy_sent_recipients [toy_uuid 44] (replicate 32 9) [1; 2] = Ok b /\
  deserializeSentMessage b = Ok {| ds_recipients := map canonical_recipient toy_sent_recipients; ds_excludedRecipients := map canonical_id [toy_uuid 44];
                                   ds_ephemeralPublic := replicate 32 9; ds_messageCiphertext := [1; 2] |}.
Proof.
  exists (ok_bytes (serializeSentMessage toy_sent_recipients [toy_uuid 44] (replicate 32 9) [1; 2])). split; [vm_compute; reflexivity|].
  apply (sent_message_roundtrip toy_sent_recipients [toy_uuid 44] (replicate 32 9) [1; 2]); [vm_compute; reflexivity|by repeat constructor].
Defined.

(** An account that is known, with the access mode and the profile key given. *)
Definition toy_profiles (mode : Z) (key : option bytes) : ContactProfileStateStore :=
  {| getContactProfileKey := fun _ => Ok key; getUnidentifiedAccessMode := fun _ => Ok mode |}.
Definition toy_route (mode : Z) (key : option bytes) : SealedSenderResolutionContext := {|
  rx_storage := {| identityKeys := []; registrationIds := []; contactIdentities := [((toy_uuid 33, aci), toy_contact)]; ecSignedPreKeys := [];
    ecOneTimePreKeys := []; kyberPreKeys := []; currentKyberPreKeyIds := []; kemOneTimePreKeys := []; sessionRecords := []; store_handoffs := [] |};
  rx_deliveryMode := mode_required; rx_relaySupportsUnidentified := true;
  rx_provider := Some (Ok {| ps_certificate := toy_sender_certificate; ps_private := toy_sender_key; ps_public := []; ps_config := toy_seal_config |});
  rx_contactProfileStateStore := Some (toy_profiles mode key); rx_getTokenForRecipient := None |}.
Definition toy_gcm (key _ _ : bytes) : result bytes := Ok (map (Z.add 1) (take 16 key)).
Definition toy_resolved (k : bytes) : ResolvedSealedSenderContext := {|
  rv_sender := {| ps_certificate := toy_sender_certificate; ps_private := toy_sender_key; ps_public := []; ps_config := toy_seal_config |};
  rv_recipientIdentityPublic := x25519PublicKey (c_identity toy_contact); rv_auth := accessKey k |}.

(** Of an account in an unknown mode without a profile key, and of one that
    limits access to contacts. *)
Lemma sealed_route_respects_policy_witness :
  (exists profiles mode, Some (toy_profiles ACCESS_MODE_UNKNOWN None) = Some profiles /\
    getUnidentifiedAccessMode profiles (toy_uuid 33) = Ok mode /\ mode <> ACCESS_MODE_DISABLED /\
    access_key_for toy_gcm profiles (toy_uuid 33) mode (replicate 16 0)) /\
  (exists profiles mode, Some (toy_profiles ACCESS_MODE_ENABLED (Some (replicate 32 6))) = Some profiles /\
    getUnidentifiedAccessMode profiles (toy_uuid 33) = Ok mode /\ mode <> ACCESS_MODE_DISABLED /\
    access_key_for toy_gcm profiles (toy_uuid 33) mode (replicate 16 7)).
Proof.
  split.
  - destruct (sealed_route_respects_policy toy_gcm (toy_route ACCESS_MODE_UNKNOWN None) (toy_uuid 33) None) as (_ & _ & H).
    destruct (H (toy_resolved (replicate 16 0))) as (_ & _ & _ & Hk); [vm_compute; reflexivity|exact Hk].
  - destruct (sealed_route_respects_policy toy_gcm (toy_route ACCESS_MODE_ENABLED (Some (replicate 32 6))) (toy_uuid 33) None) as (_ & _ & H).
    destruct (H (toy_resolved (replicate 16 7))) as (_ & _ & _ & Hk); [vm_compute; reflexivity|exact Hk].
Defined.
