(* ===== verification/FanOut.v ===== *)
(** * Bounded fan-out ([utils/bounded-fan-out.ts])

    The relay requests of one client share a bound.  JavaScript runs one piece
    of code at a time, up to its next [await]: a step of the system is such a
    piece.  A call of [request] runs [acquire]; the slot is held from there;
    the request itself starts in a later step, when the [await] returns; it
    settles, and [release] passes the slot on; and a stop signal aborts.
    Requests are numbered in the order of their calls. *)
From S2P Require Import Prelude ProtoWire.

(** ** The bound *)
Definition RELAY_REQUESTS_IN_FLIGHT : Z := 4.

Record BoundedFanOut := { fo_limit : Z; inFlight : Z; waiting : list nat }.

Definition new_BoundedFanOut (limit : option jsnum) : result BoundedFanOut :=
  let limit := default (Int RELAY_REQUESTS_IN_FLIGHT) limit in
  throw_when (negb (isInteger limit) || js_lt limit 1) (CodedError "RangeError" "The fan-out limit must be a positive integer") ;;
  Ok {| fo_limit := int_of limit; inFlight := 0; waiting := [] |}.

(** The promise that [acquire] returns: rejected, fulfilled, or pending with
    [grant] at the end of the queue. *)
Inductive Acquired := acquire_rejected | acquire_resolved | acquire_pending.

Definition acquire (stopSignalAborted : bool) (grant : nat) (f : BoundedFanOut) : BoundedFanOut * Acquired :=
  if stopSignalAborted then (f, acquire_rejected)
  else if inFlight f <? fo_limit f then ({| fo_limit := fo_limit f; inFlight := inFlight f + 1; waiting := waiting f |}, acquire_resolved)
  else ({| fo_limit := fo_limit f; inFlight := inFlight f; waiting := waiting f ++ [grant] |}, acquire_pending).

(** The slot passes to the first waiter, whose number is returned. *)
Definition release (f : BoundedFanOut) : BoundedFanOut * option nat :=
  match waiting f with
  | next :: rest => ({| fo_limit := fo_limit f; inFlight := inFlight f; waiting := rest |}, Some next)
  | [] => ({| fo_limit := fo_limit f; inFlight := inFlight f - 1; waiting := [] |}, None)
  end.

(** The listener of the stop signal: [true] when the waiter was still queued. *)
Definition abandon (grant : nat) (f : BoundedFanOut) : BoundedFanOut * bool :=
  if bool_decide (grant ∈ waiting f)
  then ({| fo_limit := fo_limit f; inFlight := inFlight f; waiting := filter (fun g => g <> grant) (waiting f) |}, true)
  else (f, false).

(** ** The client *)
Inductive RequestStatus := queued | holds_slot | in_request | rejected | settled.

#[export] Instance RequestStatus_eq_dec : EqDecision RequestStatus.
Proof. solve_decision. Defined.

Record Request := { rq_signal : option nat; rq_status : RequestStatus }.
Record Client := { fan : BoundedFanOut; requests : list Request; aborted : list nat }.

Inductive FanEvent := Call (stopSignal : option nat) | Start (i : nat) | Settle (i : nat) | AbortSignal (signal : nat).

Definition with_status (st : RequestStatus) (r : Request) : Request := {| rq_signal := rq_signal r; rq_status := st |}.
Definition request_status (c : Client) (i : nat) : option RequestStatus := rq_status <$> requests c !! i.
Definition set_request (i : nat) (st : RequestStatus) (f : BoundedFanOut) (c : Client) : Client :=
  {| fan := f; requests := alter (with_status st) i (requests c); aborted := aborted c |}.

Definition signal_aborted (c : Client) (signal : option nat) : bool :=
  match signal with Some s => bool_decide (s ∈ aborted c) | None => false end.

(** The listeners of a signal: those of the queued requests that it stops. *)
Definition listens (c : Client) (signal i : nat) : bool :=
  match requests c !! i with Some r => bool_decide (rq_signal r = Some signal) | None => false end.
Definition listeners (signal : nat) (c : Client) : list nat := List.filter (listens c signal) (waiting (fan c)).

Definition abandon_request (c : Client) (i : nat) : Client :=
  let '(f, found) := abandon i (fan c) in if found then set_request i rejected f c else c.

Definition fan_step (c : Client) (e : FanEvent) : option Client :=
  match e with
  | Call signal =>
      let '(f, a) := acquire (signal_aborted c signal) (length (requests c)) (fan c) in
      let st := match a with acquire_rejected => rejected | acquire_resolved => holds_slot | acquire_pending => queued end in
      Some {| fan := f; requests := requests c ++ [{| rq_signal := signal; rq_status := st |}]; aborted := aborted c |}
  | Start i => if bool_decide (request_status c i = Some holds_slot) then Some (set_request i in_request (fan c) c) else None
  | Settle i =>
      if bool_decide (request_status c i = Some in_request) then
        let '(f, next) := release (fan c) in
        let c := set_request i settled f c in
        Some match next with Some w => set_request w holds_slot f c | None => c end
      else None
  | AbortSignal s => Some (fold_left abandon_request (listeners s c) {| fan := fan c; requests := requests c; aborted := s :: aborted c |})
  end.

Fixpoint fan_run (c : Client) (es : list FanEvent) : option Client :=
  match es with [] => Some c | e :: es => match fan_step c e with Some c => fan_run c es | None => None end end.

Definition new_client (f : BoundedFanOut) : Client := {| fan := f; requests := []; aborted := [] |}.

(** ** A fan-out and the phases *)
Inductive FanOutOutcome (R : Type) := outcome_ok (value : R) | outcome_error (error : exn).
Arguments outcome_ok {R} value.
Arguments outcome_error {R} error.

(** The error of a fan-out: stopped, or one with the errors in input order. *)
Inductive FanOutFailure := fan_out_stopped | fan_out_error (errors : list exn).

Definition errors_of {R} (outcomes : list (FanOutOutcome R)) : list exn :=
  concat (map (fun o => match o with outcome_ok _ => [] | outcome_error e => [e] end) outcomes).

(** The first error of a [FanOutError] ([undefined] when it has none); any
    other error, here the one of the [stopped] option, as it is. *)
Definition firstItemError (stopped : exn) (f : FanOutFailure) : option exn :=
  match f with fan_out_error errors => head errors | fan_out_stopped => Some stopped end.

(** [all] after every item has settled: the loop over the outcomes. *)
Fixpoint all_values {R} (stopped : bool) (outcomes all : list (FanOutOutcome R)) : FanOutFailure + list R :=
  match outcomes with
  | [] => inr []
  | outcome_ok value :: outcomes =>
      match all_values stopped outcomes all with inr values => inr (value :: values) | inl e => inl e end
  | outcome_error _ :: _ => inl (if stopped then fan_out_stopped else fan_out_error (errors_of all))
  end.
(** [all]: the stop signal is read before the tasks start and after they settled. *)
Definition fan_out_all {R} (stopped_before stopped_after : bool) (outcomes : list (FanOutOutcome R)) : FanOutFailure + list R :=
  if stopped_before then inl fan_out_stopped else all_values stopped_after outcomes outcomes.

Inductive PhaseState := phase_ready | phase_running | phase_failed.

(** [run] up to the call of the phase, and after the phase has settled. *)
Definition phase_start (stopSignalAborted : bool) (s : PhaseState) : result PhaseState :=
  match s with
  | phase_running => Throw (Error "A phase started before the phase before it settled")
  | phase_failed => Throw (Error "A phase started after the phase before it failed")
  | phase_ready => throw_when stopSignalAborted (Error "stopped") ;; Ok phase_running
  end.
Definition phase_end (succeeded : bool) : PhaseState := if succeeded then phase_ready else phase_failed.

(** ** Positions and counts of the requests *)
Definition is_queued (r : Request) : bool := match rq_status r with queued => true | _ => false end.
Definition has_slot (r : Request) : bool := match rq_status r with holds_slot | in_request => true | _ => false end.

Fixpoint positions (p : Request -> bool) (l : list Request) (k : nat) : list nat :=
  match l with [] => [] | r :: l => if p r then k :: positions p l (S k) else positions p l (S k) end.
Definition count (p : Request -> bool) (l : list Request) : Z := len (List.filter p l).

Lemma positions_app p l r : forall k, positions p (l ++ [r]) k = positions p l k ++ (if p r then [(k + length l)%nat] else []).
Proof.
  induction l as [|x l IH]; intros k; cbn [app positions length].
  - rewrite Nat.add_0_r. by destruct (p r).
  - rewrite IH. replace (S k + length l)%nat with (k + S (length l))%nat by lia. by destruct (p x).
Qed.

Lemma positions_In p l : forall k i, i ∈ positions p l k <-> exists r, (k <= i)%nat /\ l !! (i - k)%nat = Some r /\ p r = true.
Proof.
  induction l as [|x l IH]; intros k i; cbn [positions].
  - split; [intros H; by apply not_elem_of_nil in H|intros (r & _ & H & _); done].
  - assert (E : forall r, (k < i)%nat -> (l !! (i - S k)%nat = Some r <-> (x :: l) !! (i - k)%nat = Some r)).
    { intros r Hi. replace (i - k)%nat with (S (i - S k)) by lia. done. }
    split.
    + intros Hin. assert (i = k /\ p x = true \/ i ∈ positions p l (S k)) as [[-> Hx]|Hl].
      { destruct (p x); [apply elem_of_cons in Hin as [->|]|]; auto. }
      * exists x. rewrite Nat.sub_diag. auto.
      * apply IH in Hl as (r & Hi & Hr & Hp). exists r. split; [lia|]. split; [|done]. apply E; [lia|done].
    + intros (r & Hi & Hr & Hp). destruct (decide (i = k)) as [->|Hne].
      * rewrite Nat.sub_diag in Hr. injection Hr as ->. rewrite Hp. left.
      * assert (i ∈ positions p l (S k)) by (apply IH; exists r; split; [lia|]; split; [apply E; [lia|done]|done]).
        destruct (p x); [by right|done].
Qed.

Lemma filter_id (P : nat -> Prop) `{!forall x, Decision (P x)} (l : list nat) : (forall x, x ∈ l -> P x) -> filter P l = l.
Proof. induction l as [|x l IH]; intros Hin; [done|]. rewrite filter_cons_True by (apply Hin; left). f_equal. apply IH. intros. apply Hin. by right. Qed.

Lemma filter_ext_in (P Q : nat -> Prop) `{!forall x, Decision (P x)} `{!forall x, Decision (Q x)} (l : list nat) :
  (forall x, x ∈ l -> (P x <-> Q x)) -> filter P l = filter Q l.
Proof.
  induction l as [|x l IH]; intros Hin; [done|]. rewrite !filter_cons, IH by (intros; apply Hin; by right).
  pose proof (Hin x ltac:(left)). repeat case_decide; tauto.
Qed.

Lemma positions_same p l r f : forall k i, l !! i = Some r -> p (f r) = p r -> positions p (alter f i l) k = positions p l k.
Proof.
  induction l as [|x l IH]; intros k [|i] H E; [done|done| |].
  - injection H as ->. cbn [alter list_alter positions]. by rewrite E.
  - cbn [alter list_alter positions]. by rewrite (IH (S k) i H E).
Qed.

Lemma positions_leave p l r f : forall k i, l !! i = Some r -> p r = true -> p (f r) = false ->
  positions p (alter f i l) k = filter (fun j => j <> (k + i)%nat) (positions p l k).
Proof.
  induction l as [|x l IH]; intros k [|i] H E E'; [done|done| |].
  - injection H as ->. cbn [alter list_alter positions]. rewrite E, E', Nat.add_0_r, filter_cons_False by auto. symmetry. apply filter_id.
    intros j Hj. apply positions_In in Hj as (? & ? & _). lia.
  - cbn [alter list_alter positions]. rewrite (IH (S k) i H E E'). replace (S k + i)%nat with (k + S i)%nat by lia.
    destruct (p x); [|done]. by rewrite filter_cons_True by lia.
Qed.

Lemma positions_NoDup p l k : NoDup (positions p l k).
Proof.
  revert k. induction l as [|x l IH]; intros k; [constructor|]. cbn [positions]. destruct (p x); [|apply IH]. constructor; [|apply IH].
  intros Hin. apply positions_In in Hin as (? & ? & _). lia.
Qed.

Definition b2z (b : bool) : Z := if b then 1 else 0.

Lemma count_app p l r : count p (l ++ [r]) = count p l + b2z (p r).
Proof. unfold count, len. rewrite List.filter_app, length_app. cbn. destruct (p r); cbn; lia. Qed.

Lemma count_alter p l r f : forall i, l !! i = Some r -> count p (alter f i l) = count p l - b2z (p r) + b2z (p (f r)).
Proof.
  induction l as [|x l IH]; intros [|i] H; [done|done| |]; unfold count, len in *; cbn [alter list_alter List.filter].
  - injection H as ->. destruct (p r), (p (f r)); cbn; lia.
  - specialize (IH i H). destruct (p x); cbn [length]; lia.
Qed.

(** ** The invariant of the client *)
Record core_ok (c : Client) : Prop := {
  ok_limit : 1 <= fo_limit (fan c);
  ok_slots : count has_slot (requests c) = inFlight (fan c);
  ok_bound : 0 <= inFlight (fan c) <= fo_limit (fan c);
  ok_waiting : waiting (fan c) = positions is_queued (requests c) 0;
  ok_full : waiting (fan c) <> [] -> inFlight (fan c) = fo_limit (fan c) }.

(** No queued request has an aborted signal. *)
Definition stopped_ok (c : Client) : Prop :=
  forall i r s, requests c !! i = Some r -> rq_status r = queued -> rq_signal r = Some s -> s ∉ aborted c.

Lemma waiting_status c i : core_ok c -> i ∈ waiting (fan c) <-> request_status c i = Some queued.
Proof.
  intros H. rewrite (ok_waiting _ H), positions_In. unfold request_status, is_queued. rewrite Nat.sub_0_r. split.
  - intros (r & _ & -> & Hr). cbn. f_equal. by destruct (rq_status r).
  - destruct (requests c !! i) as [r|]; cbn; [|done]. intros [= Hr]. exists r. split; [lia|]. split; [done|]. by rewrite Hr.
Qed.

Lemma status_Some c i st : request_status c i = Some st -> exists r, requests c !! i = Some r /\ rq_status r = st.
Proof. unfold request_status. destruct (requests c !! i) as [r|]; cbn; [|done]. intros [= <-]. eauto. Qed.

(** A request changes its status and the bound follows. *)
Lemma set_request_ok i st f c r : requests c !! i = Some r -> core_ok c -> st <> queued -> fo_limit f = fo_limit (fan c) ->
  inFlight f = inFlight (fan c) - b2z (has_slot r) + b2z (has_slot (with_status st r)) -> 0 <= inFlight f <= fo_limit f ->
  waiting f = (if is_queued r then filter (fun j => j <> i) (waiting (fan c)) else waiting (fan c)) ->
  (waiting f <> [] -> inFlight f = fo_limit f) -> core_ok (set_request i st f c).
Proof.
  intros Hr [H1 H2 H3 H4 H5] Hst Hl Hn Hb Hw Hfull. split; cbn [set_request fan requests aborted].
  - lia.
  - rewrite (count_alter _ _ _ _ _ Hr). lia.
  - done.
  - rewrite Hw, H4. destruct (is_queued r) eqn:E.
    + rewrite (positions_leave _ _ _ _ 0 i Hr E); [done|]. unfold is_queued, with_status. by destruct st.
    + symmetry. apply (positions_same _ _ _ _ 0 i Hr). rewrite E. unfold is_queued, with_status. by destruct st.
  - done.
Qed.

Lemma set_request_stopped i st f c : st <> queued -> stopped_ok c -> stopped_ok (set_request i st f c).
Proof.
  intros Hst H j r' s Hj Hq Hs. cbn [set_request requests aborted] in *. rewrite list_lookup_alter in Hj. destruct (decide (i = j)) as [->|]; [|by eapply H].
  destruct (requests c !! j) as [r|]; [|done]. by injection Hj as <-.
Qed.

Lemma call_ok c signal c' : core_ok c -> fan_step c (Call signal) = Some c' -> core_ok c'.
Proof.
  intros [H1 H2 H3 H4 H5]. cbn [fan_step]. unfold acquire.
  assert (New : forall st f, fo_limit f = fo_limit (fan c) -> inFlight f = inFlight (fan c) + b2z (has_slot {| rq_signal := signal; rq_status := st |}) ->
    0 <= inFlight f <= fo_limit f -> waiting f = waiting (fan c) ++ (if is_queued {| rq_signal := signal; rq_status := st |} then [length (requests c)] else []) ->
    (waiting f <> [] -> inFlight f = fo_limit f) ->
    core_ok {| fan := f; requests := requests c ++ [{| rq_signal := signal; rq_status := st |}]; aborted := aborted c |}).
  { intros st f Hl Hn Hb Hw Hfull. split; cbn [fan requests]; [lia|rewrite count_app; lia|done|by rewrite Hw, H4, positions_app|done]. }
  destruct (signal_aborted c signal) eqn:Ea; [|destruct (Z.ltb_spec (inFlight (fan c)) (fo_limit (fan c)))]; intros [= <-]; apply New; cbn [fo_limit inFlight waiting];
    unfold has_slot, is_queued; cbn [rq_status b2z]; rewrite ?app_nil_r;
    try done; try lia; auto.
  intros Hne. apply H5 in Hne. lia.
Qed.

Lemma start_ok c i c' : core_ok c -> fan_step c (Start i) = Some c' -> core_ok c'.
Proof.
  intros H. cbn [fan_step]. destruct (bool_decide_reflect (request_status c i = Some holds_slot)) as [Hs|]; [|done]. intros [= <-].
  apply status_Some in Hs as (r & Hr & Hst). pose proof (ok_bound _ H). apply (set_request_ok _ _ _ _ r Hr H); try done; [| |apply (ok_full _ H)].
  - unfold has_slot, with_status. cbn [rq_status]. rewrite Hst. cbn [b2z]. lia.
  - unfold is_queued. by rewrite Hst.
Qed.

Lemma count_nonneg p l : 0 <= count p l.
Proof. apply len_nonneg. Qed.

(** The slot of a request that settles goes to the first waiter. *)
Lemma pass_slot_ok c i r w rest : core_ok c -> requests c !! i = Some r -> rq_status r = in_request -> waiting (fan c) = w :: rest ->
  core_ok (set_request w holds_slot {| fo_limit := fo_limit (fan c); inFlight := inFlight (fan c); waiting := rest |}
    (set_request i settled {| fo_limit := fo_limit (fan c); inFlight := inFlight (fan c); waiting := rest |} c)).
Proof.
  intros H Hr Hst Hw. assert (Hin : w ∈ waiting (fan c)) by (rewrite Hw; left). apply (waiting_status _ _ H), status_Some in Hin as (rw & Hrw & Hqw).
  assert (Hne : i <> w) by (intros ->; congruence). destruct H as [H1 H2 H3 H4 H5].
  assert (Hrw' : alter (with_status settled) i (requests c) !! w = Some rw) by (by rewrite list_lookup_alter_ne).
  assert (Hq : is_queued r = false) by (unfold is_queued; by rewrite Hst). assert (Hqw' : is_queued rw = true) by (unfold is_queued; by rewrite Hqw).
  split; cbn [set_request fan requests aborted fo_limit inFlight waiting]; try done.
  - rewrite (count_alter _ _ _ _ _ Hrw'), (count_alter _ _ _ _ _ Hr), H2. unfold has_slot, with_status. cbn [rq_status]. rewrite Hst, Hqw. cbn [b2z]. lia.
  - rewrite (positions_leave _ _ _ _ 0 w Hrw' Hqw'), (positions_same _ _ _ _ 0 i Hr), <- H4, Hw by done. rewrite filter_cons_False by auto.
    symmetry. apply filter_id. intros j Hj ->. assert (Hnd : NoDup (w :: rest)) by (rewrite <- Hw, H4; apply positions_NoDup).
    by apply NoDup_cons in Hnd as [Hnd _].
  - intros _. apply H5. by rewrite Hw.
Qed.

Lemma settle_ok c i c' : core_ok c -> fan_step c (Settle i) = Some c' -> core_ok c'.
Proof.
  intros H. cbn [fan_step]. destruct (bool_decide_reflect (request_status c i = Some in_request)) as [Hs|]; [|done].
  apply status_Some in Hs as (r & Hr & Hst). unfold release. destruct (waiting (fan c)) as [|w rest] eqn:Hw; intros [= <-]; [|by apply (pass_slot_ok c i r)].
  pose proof (ok_bound _ H). pose proof (count_nonneg has_slot (alter (with_status settled) i (requests c))) as Hc.
  rewrite (count_alter _ _ _ _ _ Hr), (ok_slots _ H) in Hc. unfold has_slot, with_status in Hc. cbn [rq_status] in Hc. rewrite Hst in Hc. cbn [b2z] in Hc.
  apply (set_request_ok _ _ _ _ r Hr H); cbn [fo_limit inFlight waiting]; try done; try lia.
  - unfold has_slot, with_status. cbn [rq_status]. rewrite Hst. cbn [b2z]. lia.
  - rewrite Hw. by destruct (is_queued r).
Qed.

Lemma abandon_ok c i : core_ok c -> core_ok (abandon_request c i).
Proof.
  intros H. unfold abandon_request, abandon. destruct (bool_decide_reflect (i ∈ waiting (fan c))) as [Hin|]; [|done].
  pose proof Hin as Hfull. apply (waiting_status _ _ H), status_Some in Hin as (r & Hr & Hst). pose proof (ok_bound _ H).
  apply (set_request_ok _ _ _ _ r Hr H); cbn [fo_limit inFlight waiting]; try done.
  - unfold has_slot, with_status. cbn [rq_status]. rewrite Hst. cbn [b2z]. lia.
  - unfold is_queued. by rewrite Hst.
  - intros _. apply (ok_full _ H). intros E. rewrite E in Hfull. by apply not_elem_of_nil in Hfull.
Qed.

(** The waiters left after the listeners of a signal have run. *)
Lemma abandoned_waiting gs : forall c, waiting (fan (fold_left abandon_request gs c)) = filter (fun j => j ∉ gs) (waiting (fan c)) /\
  aborted (fold_left abandon_request gs c) = aborted c /\
  forall i, i ∉ gs -> requests (fold_left abandon_request gs c) !! i = requests c !! i.
Proof.
  induction gs as [|i gs IH]; intros c; cbn [fold_left].
  - split; [|done]. symmetry. apply filter_id. intros j _. apply not_elem_of_nil.
  - destruct (IH (abandon_request c i)) as (-> & -> & IH3). unfold abandon_request, abandon in *. destruct (bool_decide_reflect (i ∈ waiting (fan c))) as [Hin|Hn].
    + cbn [set_request fan waiting aborted]. split; [|split; [done|]].
      * rewrite list_filter_filter. apply list_filter_iff. intros j. rewrite not_elem_of_cons. naive_solver.
      * intros j [Hj Hj']%not_elem_of_cons. rewrite IH3 by done. cbn [set_request requests]. by rewrite list_lookup_alter_ne.
    + split; [|split; [done|]].
      * apply filter_ext_in. intros j Hj. rewrite not_elem_of_cons. naive_solver.
      * intros j [_ Hj]%not_elem_of_cons. by apply IH3.
Qed.

Lemma call_stopped c signal c' : stopped_ok c -> fan_step c (Call signal) = Some c' -> stopped_ok c'.
Proof.
  intros H. cbn [fan_step]. destruct (acquire _ _ _) as [f a] eqn:Ea. intros [= <-] i r s Hi Hst Hs. cbn [requests aborted] in *.
  apply lookup_app_Some in Hi as [Hi|[_ Hi]]; [by eapply H|]. apply list_lookup_singleton_Some in Hi as [_ <-]. cbn in Hst, Hs. subst signal.
  unfold acquire in Ea. cbn [signal_aborted] in Ea. destruct (bool_decide_reflect (s ∈ aborted c)); [|done]. by injection Ea as <- <-.
Qed.

Lemma fold_core_ok gs : forall c, core_ok c -> core_ok (fold_left abandon_request gs c).
Proof. induction gs as [|g gs IH]; intros c H; [done|]. by apply IH, abandon_ok. Qed.

Lemma abort_ok c s c' : core_ok c -> stopped_ok c -> fan_step c (AbortSignal s) = Some c' -> core_ok c' /\ stopped_ok c'.
Proof.
  intros H Hs. cbn [fan_step]. set (c0 := {| fan := fan c; requests := requests c; aborted := s :: aborted c |}). intros [= <-].
  assert (H0 : core_ok c0) by (destruct H; by split). pose proof (fold_core_ok (listeners s c) c0 H0) as H1. split; [done|].
  destruct (abandoned_waiting (listeners s c) c0) as (Ew & Ea & Er). set (c1 := fold_left _ _ _) in *. intros i r s' Hi Hst Hsig. rewrite Ea.
  assert (Hin : i ∈ waiting (fan c1)) by (apply (waiting_status _ _ H1); unfold request_status; by rewrite Hi; cbn; rewrite Hst).
  rewrite Ew in Hin. apply list_elem_of_filter in Hin as [Hn Hin]. rewrite Er in Hi by done. cbn [c0 fan requests aborted] in *.
  rewrite not_elem_of_cons. split; [|by eapply Hs]. intros ->. apply Hn. unfold listeners. rewrite list_elem_of_In, filter_In, <- list_elem_of_In. split; [done|].
  unfold listens. rewrite Hi. by apply bool_decide_eq_true.
Qed.

Definition client_ok (c : Client) : Prop := core_ok c /\ stopped_ok c.

Lemma step_ok c e c' : client_ok c -> fan_step c e = Some c' -> client_ok c'.
Proof.
  intros [H Hs] E. destruct e as [signal|i|i|s].
  - split; [by eapply call_ok|by eapply call_stopped].
  - split; [by eapply start_ok|]. cbn [fan_step] in E. destruct (bool_decide _); [|done]. injection E as <-. by apply set_request_stopped.
  - split; [by eapply settle_ok|]. cbn [fan_step] in E. destruct (bool_decide _); [|done]. destruct (release _) as [f [w|]]; injection E as <-; by repeat apply set_request_stopped.
  - by apply (abort_ok c s).
Qed.

Lemma run_ok es : forall c c', client_ok c -> fan_run c es = Some c' -> client_ok c'.
Proof.
  induction es as [|e es IH]; intros c c' H E; cbn in E; [by injection E as <-|]. destruct (fan_step c e) as [c1|] eqn:E1; [|done].
  eapply IH; [|exact E]. by eapply step_ok.
Qed.

Lemma new_ok limit f : new_BoundedFanOut limit = Ok f -> client_ok (new_client f).
Proof.
  unfold new_BoundedFanOut. intros H. apply bind_Ok in H as (? & T & [= <-]). apply throw_when_Ok, orb_false_iff in T as [T1 T2]. apply negb_false_iff in T1.
  split; [|intros i r s Hi; done]. destruct (default _ limit) as [z| | |]; [|done..]. cbn [js_lt int_of] in *. split; cbn [new_client fan requests fo_limit inFlight waiting]; try done; try lia.
Qed.

(** ** Bounded waiting *)
Lemma filter_position (P : nat -> Prop) `{!forall x, Decision (P x)} (l : list nat) : forall k i, l !! k = Some i -> P i ->
  exists k', filter P l !! k' = Some i /\ (k' <= k)%nat.
Proof.
  induction l as [|x l IH]; intros [|k] i Hi HP; [done|done| |].
  - injection Hi as ->. exists 0%nat. by rewrite filter_cons_True.
  - destruct (IH k i Hi HP) as (k' & Hk' & Hle). rewrite filter_cons. case_decide; [exists (S k')|exists k']; (split; [done|lia]).
Qed.

Definition is_settle (e : FanEvent) : bool := match e with Settle _ => true | _ => false end.
Definition settles (es : list FanEvent) : nat := length (List.filter is_settle es).

Lemma release_position c w rest k i : waiting (fan c) = w :: rest -> waiting (fan c) !! k = Some i -> i ∈ rest -> NoDup (waiting (fan c)) ->
  exists k', rest !! k' = Some i /\ (S k' = k)%nat.
Proof.
  intros Hw. rewrite Hw. destruct k as [|k]; cbn.
  - intros [= ->] Hin Hnd. by apply NoDup_cons in Hnd as [Hnd _].
  - intros Hk _ _. eauto.
Qed.

Lemma acquire_waiting b i f : waiting (acquire b i f).1 = waiting f \/ waiting (acquire b i f).1 = waiting f ++ [i].
Proof. unfold acquire. destruct b; [by left|]. destruct (_ <? _); [by left|by right]. Qed.

(** A request that stays queued moves up by one place with every settlement. *)
Lemma step_position c e c' k i : client_ok c -> fan_step c e = Some c' -> waiting (fan c) !! k = Some i -> i ∈ waiting (fan c') ->
  exists k', waiting (fan c') !! k' = Some i /\ (k' + (if is_settle e then 1 else 0) <= k)%nat.
Proof.
  intros [H _] E Hk Hin. destruct e as [signal|j|j|s]; cbn [fan_step is_settle] in *.
  - pose proof (acquire_waiting (signal_aborted c signal) (length (requests c)) (fan c)) as W.
    destruct (acquire _ _ _) as [f a]. injection E as <-. cbn [fan fst] in *. exists k. split; [|lia].
    destruct W as [->| ->]; [done|by apply lookup_app_l_Some].
  - destruct (bool_decide _); [|done]. injection E as <-. exists k. split; [done|lia].
  - destruct (bool_decide _); [|done]. unfold release in E. destruct (waiting (fan c)) as [|w rest] eqn:Hw; [done|].
    injection E as <-. cbn [set_request fan waiting] in *. destruct (release_position c w rest k i) as (k' & Hk' & Hle); try done.
    { by rewrite Hw. } { rewrite (ok_waiting _ H). apply positions_NoDup. } exists k'. split; [done|lia].
  - injection E as <-. destruct (abandoned_waiting (listeners s c) {| fan := fan c; requests := requests c; aborted := s :: aborted c |}) as (Ew & _).
    rewrite Ew in *. cbn [fan] in *. apply list_elem_of_filter in Hin as [Hn _].
    destruct (filter_position (fun j => j ∉ listeners s c) (waiting (fan c)) k i Hk Hn) as (k' & Hk' & Hle). exists k'. split; [done|lia].
Qed.

(** A request that has left the queue does not come back. *)
Lemma queue_left c e c' i : client_ok c -> fan_step c e = Some c' -> (i < length (requests c))%nat -> i ∈ waiting (fan c') -> i ∈ waiting (fan c).
Proof.
  intros [H _] E Hi Hin. destruct e as [signal|j|j|s]; cbn [fan_step] in *.
  - pose proof (acquire_waiting (signal_aborted c signal) (length (requests c)) (fan c)) as W.
    destruct (acquire _ _ _) as [f a]. injection E as <-. cbn [fan fst] in *. destruct W as [W|W]; rewrite W in Hin; [done|].
    apply elem_of_app in Hin as [|Hin]; [done|]. apply list_elem_of_singleton in Hin. lia.
  - destruct (bool_decide _); [|done]. by injection E as <-.
  - destruct (bool_decide _); [|done]. unfold release in E. destruct (waiting (fan c)) as [|w rest] eqn:Hw; injection E as <-; cbn [set_request fan waiting] in Hin;
      [done|by right].
  - injection E as <-. destruct (abandoned_waiting (listeners s c) {| fan := fan c; requests := requests c; aborted := s :: aborted c |}) as (Ew & _).
    rewrite Ew in Hin. by apply list_elem_of_filter in Hin as [_ Hin].
Qed.

Lemma abandon_length c i : length (requests (abandon_request c i)) = length (requests c).
Proof. unfold abandon_request. destruct (abandon _ _) as [f []]; [|done]. cbn. apply length_alter. Qed.

Lemma fold_abandon_length gs : forall c, length (requests (fold_left abandon_request gs c)) = length (requests c).
Proof. induction gs as [|g gs IH]; intros c; [done|]. cbn. by rewrite IH, abandon_length. Qed.

Lemma requests_grow c e c' : fan_step c e = Some c' -> (length (requests c) <= length (requests c'))%nat.
Proof.
  destruct e as [signal|i|i|s]; cbn [fan_step].
  - destruct (acquire _ _ _) as [f a]. intros [= <-]. cbn. rewrite length_app. lia.
  - destruct (bool_decide _); [|done]. intros [= <-]. cbn. by rewrite length_alter.
  - destruct (bool_decide _); [|done]. destruct (release _) as [f [w|]]; intros [= <-]; cbn; by rewrite ?length_alter.
  - intros [= <-]. by rewrite fold_abandon_length.
Qed.

Lemma queued_run es : forall c c' i, client_ok c -> fan_run c es = Some c' -> (i < length (requests c))%nat ->
  i ∈ waiting (fan c') -> i ∈ waiting (fan c).
Proof.
  induction es as [|e es IH]; intros c c' i H E Hi Hin; cbn in E; [by injection E as <-|]. destruct (fan_step c e) as [c1|] eqn:E1; [|done].
  eapply queue_left; [done|done|done|]. eapply IH; [by eapply step_ok|done| |done]. pose proof (requests_grow _ _ _ E1). lia.
Qed.

Lemma queued_bound c i : client_ok c -> i ∈ waiting (fan c) -> (i < length (requests c))%nat.
Proof. intros [H _] Hin. apply (waiting_status _ _ H), status_Some in Hin as (r & Hr & _). by eapply lookup_lt_Some. Qed.

Lemma bounded_wait es : forall c c' k i, client_ok c -> fan_run c es = Some c' -> waiting (fan c) !! k = Some i ->
  i ∈ waiting (fan c') -> (settles es <= k)%nat.
Proof.
  induction es as [|e es IH]; intros c c' k i H E Hk Hin; cbn in E; [unfold settles; cbn; lia|]. destruct (fan_step c e) as [c1|] eqn:E1; [|done].
  assert (H1 : client_ok c1) by (by eapply step_ok). assert (Hi : (i < length (requests c))%nat) by (apply queued_bound; [done|]; by eapply list_elem_of_lookup_2).
  assert (Hin1 : i ∈ waiting (fan c1)) by (eapply queued_run; [exact H1|exact E| |exact Hin]; pose proof (requests_grow _ _ _ E1); lia).
  destruct (step_position c e c1 k i H E1 Hk Hin1) as (k' & Hk' & Hle). specialize (IH c1 c' k' i H1 E Hk' Hin).
  unfold settles in *. cbn [List.filter]. destruct (is_settle e); cbn [length]; lia.
Qed.

(** C24: The relay requests of a client stay within the bound and are served in
    the order of their calls.  In every run, whatever requests are made,
    settle or are stopped, in any order: the requests under way are those that
    hold a slot, and are at most the limit; a request waits only while all
    slots are taken; the queue holds exactly the waiting requests, in call
    order; and a queued request has left the queue once more requests have
    settled than were queued before it. *)
Theorem fan_out_bounded limit f es c : new_BoundedFanOut limit = Ok f -> fan_run (new_client f) es = Some c ->
  count has_slot (requests c) = inFlight (fan c) /\ 0 <= inFlight (fan c) <= fo_limit (fan c) /\
  waiting (fan c) = positions is_queued (requests c) 0 /\
  (waiting (fan c) <> [] -> inFlight (fan c) = fo_limit (fan c)) /\
  forall k i es' c', waiting (fan c) !! k = Some i -> fan_run c es' = Some c' -> (k < settles es')%nat -> i ∉ waiting (fan c').
Proof.
  intros Hn Hr. pose proof (run_ok _ _ _ (new_ok _ _ Hn) Hr) as H. pose proof H as [[H1 H2 H3 H4 H5] _]. split_and!; try done; try lia.
  intros k i es' c' Hk Hr' Hlt Hin. pose proof (bounded_wait es' c c' k i H Hr' Hk Hin). lia.
Qed.

Lemma fan_out_bounded_witness : exists f c, new_BoundedFanOut (Some (Int 1)) = Ok f /\
  fan_run (new_client f) [Call None; Call None; Call (Some 3%nat); Start 0] = Some c /\ waiting (fan c) = [1; 2]%nat /\ inFlight (fan c) = 1 /\
  forall es' c', fan_run c es' = Some c' -> (1 < settles es')%nat -> 2%nat ∉ waiting (fan c').
Proof.
  exists {| fo_limit := 1; inFlight := 0; waiting := [] |}. eexists. split; [reflexivity|]. split; [vm_compute; reflexivity|].
  split; [reflexivity|]. split; [reflexivity|]. intros es' c'.
  apply (fan_out_bounded (Some (Int 1)) {| fo_limit := 1; inFlight := 0; waiting := [] |} [Call None; Call None; Call (Some 3%nat); Start 0]); [done|vm_compute; reflexivity|done].
Defined.

(** ** The stop signal *)
(** What a request was before a step: the same but for its status, and a
    rejected one is never touched; or it is the request of a call. *)
Definition came_from (c : Client) (e : FanEvent) (i : nat) (r' : Request) : Prop :=
  (exists r, requests c !! i = Some r /\ rq_signal r = rq_signal r' /\ (rq_status r = rejected -> r' = r)) \/
  exists signal, e = Call signal /\ i = length (requests c) /\ rq_signal r' = signal /\ (signal_aborted c signal = true -> rq_status r' = rejected).

Lemma altered j st f c i r' r0 : requests c !! j = Some r0 -> rq_status r0 <> rejected -> requests (set_request j st f c) !! i = Some r' ->
  exists r, requests c !! i = Some r /\ rq_signal r = rq_signal r' /\ (rq_status r = rejected -> r' = r).
Proof.
  intros Hj Hs. cbn [set_request requests]. rewrite list_lookup_alter. destruct (decide (j = i)) as [->|].
  - rewrite Hj. intros [= <-]. exists r0. split; [done|]. split; [done|done].
  - intros H. exists r'. done.
Qed.

Lemma abandoned_from gs : forall c i r', core_ok c -> requests (fold_left abandon_request gs c) !! i = Some r' ->
  exists r, requests c !! i = Some r /\ rq_signal r = rq_signal r' /\ (rq_status r = rejected -> r' = r).
Proof.
  induction gs as [|g gs IH]; intros c i r' H Hi; cbn [fold_left] in Hi; [by exists r'|].
  destruct (IH _ i r' (abandon_ok c g H) Hi) as (r1 & Hr1 & Hs1 & Hrej1). unfold abandon_request, abandon in Hr1.
  destruct (bool_decide_reflect (g ∈ waiting (fan c))) as [Hg|]; [|by exists r1].
  apply (waiting_status _ _ H), status_Some in Hg as (r0 & Hr0 & Hst0).
  destruct (altered g rejected _ c i r1 r0 Hr0 ltac:(congruence) Hr1) as (r & Hr & Hs & Hrej). exists r. split; [done|]. split; [congruence|].
  intros E. assert (r1 = r) as -> by auto. auto.
Qed.

Lemma step_from c e c' i r' : client_ok c -> fan_step c e = Some c' -> requests c' !! i = Some r' -> came_from c e i r'.
Proof.
  intros [H _] E Hi. destruct e as [signal|j|j|s]; cbn [fan_step] in E.
  - destruct (acquire _ _ _) as [f a] eqn:Ea. injection E as <-. cbn [requests] in Hi. apply lookup_app_Some in Hi as [Hi|[Hle Hi]]; [left; by exists r'|].
    right. apply list_lookup_singleton_Some in Hi as [Hz <-]. exists signal. split; [done|]. split; [lia|]. split; [done|]. intros Ha.
    unfold acquire in Ea. rewrite Ha in Ea. by injection Ea as <- <-.
  - left. destruct (bool_decide_reflect (request_status c j = Some holds_slot)) as [Hj|]; [|done]. injection E as <-.
    apply status_Some in Hj as (r0 & Hr0 & Hst). eapply altered; [exact Hr0|congruence|exact Hi].
  - left. destruct (bool_decide_reflect (request_status c j = Some in_request)) as [Hj|]; [|done].
    apply status_Some in Hj as (r0 & Hr0 & Hst). unfold release in E. destruct (waiting (fan c)) as [|w rest] eqn:Hw; injection E as <-.
    + eapply altered; [exact Hr0|congruence|exact Hi].
    + assert (Hin : w ∈ waiting (fan c)) by (rewrite Hw; left). apply (waiting_status _ _ H), status_Some in Hin as (rw & Hrw & Hqw).
      set (f1 := {| fo_limit := fo_limit (fan c); inFlight := inFlight (fan c); waiting := rest |}) in *.
      assert (Hrw' : requests (set_request j settled f1 c) !! w = Some rw) by (cbn; rewrite list_lookup_alter_ne by congruence; done).
      destruct (altered w holds_slot f1 _ i r' rw Hrw' ltac:(congruence) Hi) as (r1 & Hr1 & Hs1 & Hrej1).
      destruct (altered j settled f1 c i r1 r0 Hr0 ltac:(congruence) Hr1) as (r & Hr & Hs & Hrej). exists r. split; [done|]. split; [congruence|].
      intros Er. assert (r1 = r) as -> by auto. auto.
  - left. injection E as <-. eapply abandoned_from in Hi; [exact Hi|]. destruct H; by split.
Qed.

Lemma rejected_stays es : forall c c' i r, client_ok c -> fan_run c es = Some c' -> requests c !! i = Some r -> rq_status r = rejected ->
  requests c' !! i = Some r.
Proof.
  induction es as [|e es IH]; intros c c' i r H E Hr Hst; cbn in E; [by injection E as <-|]. destruct (fan_step c e) as [c1|] eqn:E1; [|done].
  eapply IH; [by eapply step_ok|exact E| |done]. pose proof (requests_grow _ _ _ E1). apply lookup_lt_Some in Hr as Hlt.
  destruct (lookup_lt_is_Some_2 (requests c1) i ltac:(lia)) as [r1 Hr1]. rewrite Hr1.
  destruct (step_from _ _ _ _ _ H E1 Hr1) as [(r0 & Hr0 & _ & Hrej)|(sg & _ & -> & _)]; [|lia]. rewrite Hr in Hr0. injection Hr0 as <-. f_equal. auto.
Qed.

(** Every request with the signal from the [n]th on is rejected. *)
Definition late_rejected (s n : nat) (c : Client) : Prop :=
  s ∈ aborted c /\ forall i r, (n <= i)%nat -> requests c !! i = Some r -> rq_signal r = Some s -> rq_status r = rejected.

Lemma aborted_stays c e c' s : fan_step c e = Some c' -> s ∈ aborted c -> s ∈ aborted c'.
Proof.
  destruct e as [signal|i|i|s']; cbn [fan_step].
  - destruct (acquire _ _ _) as [f a]. by intros [= <-].
  - destruct (bool_decide _); [|done]. by intros [= <-].
  - destruct (bool_decide _); [|done]. destruct (release _) as [f [w|]]; by intros [= <-].
  - intros [= <-] Hs. destruct (abandoned_waiting (listeners s' c) {| fan := fan c; requests := requests c; aborted := s' :: aborted c |}) as (_ & -> & _).
    by right.
Qed.

Lemma late_step s n c e c' : client_ok c -> late_rejected s n c -> fan_step c e = Some c' -> late_rejected s n c'.
Proof.
  intros H [Ha Hl] E. split; [by eapply aborted_stays|]. intros i r' Hle Hi Hs. destruct (step_from _ _ _ _ _ H E Hi) as [(r & Hr & Hsig & Hrej)|(sg & _ & _ & Hsg & Hrej)].
  - assert (Hst : rq_status r = rejected) by (eapply Hl; [exact Hle|exact Hr|congruence]). by rewrite (Hrej Hst).
  - apply Hrej. rewrite <- Hsg, Hs. cbn. by apply bool_decide_eq_true.
Qed.

Lemma late_run es s n : forall c c', client_ok c -> late_rejected s n c -> fan_run c es = Some c' -> late_rejected s n c'.
Proof.
  induction es as [|e es IH]; intros c c' H Hl E; cbn in E; [by injection E as <-|]. destruct (fan_step c e) as [c1|] eqn:E1; [|done].
  eapply IH; [by eapply step_ok|by eapply late_step|exact E].
Qed.

Lemma abandon_listener gs : forall c i r, core_ok c -> requests c !! i = Some r -> rq_status r = queued -> i ∈ gs ->
  requests (fold_left abandon_request gs c) !! i = Some (with_status rejected r).
Proof.
  induction gs as [|g gs IH]; intros c i r H Hr Hst Hin; [by apply not_elem_of_nil in Hin|]. cbn [fold_left].
  assert (Hw : i ∈ waiting (fan c)) by (apply (waiting_status _ _ H); unfold request_status; rewrite Hr; cbn; by rewrite Hst).
  destruct (decide (g = i)) as [->|Hne].
  - assert (Hi : requests (abandon_request c i) !! i = Some (with_status rejected r)).
    { unfold abandon_request, abandon. rewrite bool_decide_true by done. cbn [set_request requests]. by rewrite list_lookup_alter_eq, Hr. }
    destruct (lookup_lt_is_Some_2 (requests (fold_left abandon_request gs (abandon_request c i))) i) as [r2 Hr2].
    { rewrite fold_abandon_length. by eapply lookup_lt_Some. }
    destruct (abandoned_from gs _ i r2 (abandon_ok c i H) Hr2) as (r1 & Hr1 & _ & Hrej). rewrite Hi in Hr1. injection Hr1 as <-. rewrite Hr2. f_equal. by apply Hrej.
  - apply elem_of_cons in Hin as [->|Hin]; [done|]. apply IH; [by apply abandon_ok| |done|done].
    unfold abandon_request, abandon. destruct (bool_decide _); [|done]. cbn [set_request requests]. by rewrite list_lookup_alter_ne.
Qed.

(** C25: What a stop signal stops.  After it aborts, a request that was waiting
    for a slot is rejected and stays so in every continuation, and so is every
    request that is made with the signal later; but a request that already
    holds a slot starts all the same, although it has not begun when the
    signal aborts. *)
Theorem stop_signal_scope limit f es c s c1 : new_BoundedFanOut limit = Ok f -> fan_run (new_client f) es = Some c ->
  fan_step c (AbortSignal s) = Some c1 ->
  (forall i r es' c2, requests c !! i = Some r -> rq_signal r = Some s -> rq_status r = queued -> fan_run c1 es' = Some c2 ->
    request_status c2 i = Some rejected) /\
  (forall i r es' c2, fan_run c1 es' = Some c2 -> requests c2 !! i = Some r -> rq_signal r = Some s -> (length (requests c) <= i)%nat ->
    rq_status r = rejected) /\
  (forall i, request_status c i = Some holds_slot -> exists c2, fan_step c1 (Start i) = Some c2 /\ request_status c2 i = Some in_request).
Proof.
  intros Hn Hr E. pose proof (run_ok _ _ _ (new_ok _ _ Hn) Hr) as H. pose proof (step_ok _ _ _ H E) as H1. pose proof H as [Hc _].
  cbn [fan_step] in E. set (c0 := {| fan := fan c; requests := requests c; aborted := s :: aborted c |}) in *. injection E as <-.
  assert (H0 : core_ok c0) by (destruct Hc; by split). destruct (abandoned_waiting (listeners s c) c0) as (_ & Ea & Er). split; [|split].
  - intros i r es' c2 Hi Hs Hst Hrun. assert (Hl : i ∈ listeners s c).
    { unfold listeners. rewrite list_elem_of_In, filter_In, <- list_elem_of_In. split; [apply (waiting_status _ _ Hc); unfold request_status; rewrite Hi; cbn; by rewrite Hst|].
      unfold listens. rewrite Hi. by apply bool_decide_eq_true. }
    pose proof (abandon_listener (listeners s c) c0 i r H0 Hi Hst Hl) as A. unfold request_status. by rewrite (rejected_stays _ _ _ _ _ H1 Hrun A).
  - intros i r es' c2 Hrun Hi Hs Hle. eapply (late_run es' s (length (requests c)) _ c2 H1); [|exact Hrun|exact Hle|exact Hi|exact Hs].
    split; [rewrite Ea; left|]. intros j r' Hj Hr'. apply lookup_lt_Some in Hr'. rewrite fold_abandon_length in Hr'. cbn [c0 requests] in Hr'. lia.
  - intros i Hi. set (c1 := fold_left _ _ _) in *. assert (Hs1 : request_status c1 i = Some holds_slot).
    { unfold request_status. subst c1. rewrite Er; [exact Hi|]. intros Hl. unfold listeners in Hl. rewrite list_elem_of_In, filter_In, <- list_elem_of_In in Hl.
      destruct Hl as [Hl _]. apply (waiting_status _ _ Hc) in Hl. congruence. }
    exists (set_request i in_request (fan c1) c1). cbn [fan_step]. rewrite bool_decide_true by done. split; [done|].
    apply status_Some in Hs1 as (r & Hr1 & _). unfold request_status. cbn [set_request requests]. by rewrite list_lookup_alter_eq, Hr1.
Qed.

Definition toy_fan : BoundedFanOut := {| fo_limit := 1; inFlight := 0; waiting := [] |}.
Definition toy_requests : list FanEvent := [Call (Some 7%nat); Call (Some 7%nat)].
Definition toy_client : Client := default (new_client toy_fan) (fan_run (new_client toy_fan) toy_requests).

(** The request that holds the slot starts after the signal has aborted; the queued one is rejected. *)
Lemma stop_signal_scope_witness : exists c1, fan_step toy_client (AbortSignal 7) = Some c1 /\
  (exists c2, fan_step c1 (Start 0) = Some c2 /\ request_status c2 0 = Some in_request) /\ request_status c1 1 = Some rejected.
Proof.
  exists (default toy_client (fan_step toy_client (AbortSignal 7))). split; [vm_compute; reflexivity|].
  destruct (stop_signal_scope (Some (Int 1)) toy_fan toy_requests toy_client 7 (default toy_client (fan_step toy_client (AbortSignal 7)))) as (H1 & _ & H2);
    [reflexivity|vm_compute; reflexivity|vm_compute; reflexivity|].
  split; [destruct (H2 0%nat) as (c2 & E & S); [vm_compute; reflexivity|by exists c2]|].
  refine (H1 1%nat {| rq_signal := Some 7%nat; rq_status := queued |} [] _ _ _ _ _); reflexivity.
Defined.

(** ** The outcomes of a fan-out and the phases *)
Lemma all_values_spec {R} stopped (outcomes all : list (FanOutOutcome R)) :
  all_values stopped outcomes all =
  match errors_of outcomes with
  | [] => inr (concat (map (fun o => match o with outcome_ok v => [v] | outcome_error _ => [] end) outcomes))
  | _ => inl (if stopped then fan_out_stopped else fan_out_error (errors_of all))
  end.
Proof.
  induction outcomes as [|[v|e] outcomes IH]; [done| |done]. cbn [all_values]. rewrite IH.
  change (errors_of (outcome_ok v :: outcomes)) with (errors_of outcomes). by destruct (errors_of outcomes).
Qed.

(** A fan-out fails with the error of its first failed item in input order,
    unless it was stopped, and else returns the values in input order. *)
Lemma fan_out_all_first_error {R} (outcomes : list (FanOutOutcome R)) stopped failure :
  fan_out_all false false outcomes = inl failure -> firstItemError stopped failure = head (errors_of outcomes) /\ errors_of outcomes <> [].
Proof.
  unfold fan_out_all. rewrite all_values_spec. destruct (errors_of outcomes) as [|e es] eqn:E; [done|]. intros [= <-]. done.
Qed.

(** Only one phase runs at a time, and none after a failure. *)
Lemma phases_in_order stopped s s' : phase_start stopped s = Ok s' -> s = phase_ready /\ s' = phase_running /\ stopped = false.
Proof. destruct s; cbn; [|done|done]. destruct stopped; [done|]. by intros [= <-]. Qed.
