(* ===== verification/KeyedLock.v ===== *)
(** * The keyed lock ([utils/keyed-lock.ts])

    The in-process lock that the session and user record locks are built on.
    A call of [withKeyedLock] runs in three pieces between its [await]s: it
    enqueues itself ([Enter]), its operation begins when the promise of the
    call before it has settled ([Begin]), and when the operation settles, either
    way, it releases the lock ([Leave]).  The [Map]s that the [WeakMap] holds
    are shared objects: a call keeps the one it found, so they live in a heap.
    Calls are numbered in their order, and the promise [current] of a call is
    its number. *)
From S2P Require Import Prelude.

Inductive LockStatus := lock_waiting | lock_running | lock_finished.

#[export] Instance LockStatus_eq_dec : EqDecision LockStatus.
Proof. solve_decision. Defined.

Record LockCall := { lc_owner : nat; lc_key : string; lc_locks : nat; lc_previous : option nat; lc_status : LockStatus }.
Record KeyedLocks := { collections : gmap nat nat; lock_maps : list (gmap string nat); lock_calls : list LockCall }.

Definition createKeyedLocks : KeyedLocks := {| collections := ∅; lock_maps := []; lock_calls := [] |}.

Definition locks_at (s : KeyedLocks) (m : nat) : gmap string nat := default ∅ (lock_maps s !! m).

(** [collections.get(owner)], or a new [Map] that is stored first. *)
Definition locks_of (owner : nat) (s : KeyedLocks) : nat * KeyedLocks :=
  match collections s !! owner with
  | Some m => (m, s)
  | None => let m := length (lock_maps s) in
            (m, {| collections := <[owner := m]> (collections s); lock_maps := lock_maps s ++ [∅]; lock_calls := lock_calls s |})
  end.

Definition lock_enter (owner : nat) (key : string) (s : KeyedLocks) : KeyedLocks :=
  let '(m, s) := locks_of owner s in
  let previous := locks_at s m !! key in
  let current := length (lock_calls s) in
  {| collections := collections s; lock_maps := <[m := <[key := current]> (locks_at s m)]> (lock_maps s);
     lock_calls := lock_calls s ++ [{| lc_owner := owner; lc_key := key; lc_locks := m; lc_previous := previous; lc_status := lock_waiting |}] |}.

Definition with_lock_status (st : LockStatus) (c : LockCall) : LockCall :=
  {| lc_owner := lc_owner c; lc_key := lc_key c; lc_locks := lc_locks c; lc_previous := lc_previous c; lc_status := st |}.
Definition set_lock_status (i : nat) (st : LockStatus) (s : KeyedLocks) : KeyedLocks :=
  {| collections := collections s; lock_maps := lock_maps s; lock_calls := alter (with_lock_status st) i (lock_calls s) |}.

(** [previous] is [Promise.resolve()] or the promise of an earlier call. *)
Definition previous_settled (s : KeyedLocks) (previous : option nat) : bool :=
  match previous with None => true | Some j => bool_decide (lc_status <$> lock_calls s !! j = Some lock_finished) end.

(** The [finally] block of call [i]. *)
Definition lock_leave (i : nat) (c : LockCall) (s : KeyedLocks) : KeyedLocks :=
  let locks := locks_at s (lc_locks c) in
  let locks := if bool_decide (locks !! lc_key c = Some i) then delete (lc_key c) locks else locks in
  let s := set_lock_status i lock_finished s in
  {| collections := if bool_decide (locks = ∅) then delete (lc_owner c) (collections s) else collections s;
     lock_maps := <[lc_locks c := locks]> (lock_maps s); lock_calls := lock_calls s |}.

Inductive LockEvent := Enter (owner : nat) (key : string) | Begin (i : nat) | Leave (i : nat).

Definition lock_step (s : KeyedLocks) (e : LockEvent) : option KeyedLocks :=
  match e with
  | Enter owner key => Some (lock_enter owner key s)
  | Begin i =>
      c ← lock_calls s !! i;
      if bool_decide (lc_status c = lock_waiting) && previous_settled s (lc_previous c) then Some (set_lock_status i lock_running s) else None
  | Leave i => c ← lock_calls s !! i; if bool_decide (lc_status c = lock_running) then Some (lock_leave i c s) else None
  end.

Fixpoint lock_run (s : KeyedLocks) (es : list LockEvent) : option KeyedLocks :=
  match es with [] => Some s | e :: es => s ← lock_step s e; lock_run s es end.

(** ** The specification: in call order, one at a time

    A state is the calls so far, each with its owner and key.  The operation
    of a call may begin exactly when every earlier call with the same owner
    and key has finished. *)
Definition lock_id : Type := nat * string.

Definition finished_or_other (l : lock_id) (c : lock_id * LockStatus) : bool :=
  bool_decide (c.1 = l -> c.2 = lock_finished).

Definition spec_lock_step (a : list (lock_id * LockStatus)) (e : LockEvent) : option (list (lock_id * LockStatus)) :=
  match e with
  | Enter owner key => Some (a ++ [((owner, key), lock_waiting)])
  | Begin i =>
      c ← a !! i;
      if bool_decide (c.2 = lock_waiting) && forallb (finished_or_other c.1) (take i a) then Some (<[i := (c.1, lock_running)]> a) else None
  | Leave i => c ← a !! i; if bool_decide (c.2 = lock_running) then Some (<[i := (c.1, lock_finished)]> a) else None
  end.

Fixpoint spec_lock_run (a : list (lock_id * LockStatus)) (es : list LockEvent) : option (list (lock_id * LockStatus)) :=
  match es with [] => Some a | e :: es => a ← spec_lock_step a e; spec_lock_run a es end.

Definition id_of (c : LockCall) : lock_id := (lc_owner c, lc_key c).
Definition lock_view (s : KeyedLocks) : list (lock_id * LockStatus) := map (fun c => (id_of c, lc_status c)) (lock_calls s).

(** ** The invariant *)
Definition holder (s : KeyedLocks) (l : lock_id) : option nat := m ← collections s !! l.1; locks_at s m !! l.2.

Record heap_ok (s : KeyedLocks) : Prop := {
  ok_heap : forall o m, collections s !! o = Some m -> (m < length (lock_maps s))%nat /\ locks_at s m <> ∅;
  ok_owner : forall o o' m, collections s !! o = Some m -> collections s !! o' = Some m -> o = o' }.

(** The promise a call waits for is that of the last call before it with the same lock, if that had not finished. *)
Definition previous_ok (s : KeyedLocks) (i : nat) (c : LockCall) : Prop :=
  match lc_previous c with
  | None => forall j c', (j < i)%nat -> lock_calls s !! j = Some c' -> id_of c' = id_of c -> lc_status c' = lock_finished
  | Some p => (p < i)%nat /\ (exists c', lock_calls s !! p = Some c' /\ id_of c' = id_of c) /\
              forall j c', (p < j < i)%nat -> lock_calls s !! j = Some c' -> id_of c' <> id_of c
  end.

Record locks_ok (s : KeyedLocks) : Prop := {
  ok_maps : heap_ok s;
  ok_holder : forall l i, holder s l = Some i -> (exists c, lock_calls s !! i = Some c /\ id_of c = l /\ lc_status c <> lock_finished) /\
    forall j c', (i < j)%nat -> lock_calls s !! j = Some c' -> id_of c' <> l;
  ok_open : forall i c, lock_calls s !! i = Some c -> lc_status c <> lock_finished ->
    is_Some (holder s (id_of c)) /\ collections s !! lc_owner c = Some (lc_locks c);
  ok_previous : forall i c, lock_calls s !! i = Some c -> previous_ok s i c;
  ok_order : forall i c j c', lock_calls s !! i = Some c -> lc_status c <> lock_waiting -> (j < i)%nat ->
    lock_calls s !! j = Some c' -> id_of c' = id_of c -> lc_status c' = lock_finished }.

(** *** The heap of maps *)
Lemma locks_at_insert s m ls calls cs m' : (m < length (lock_maps s))%nat ->
  locks_at {| collections := cs; lock_maps := <[m := ls]> (lock_maps s); lock_calls := calls |} m' = if decide (m' = m) then ls else locks_at s m'.
Proof.
  intros H. unfold locks_at. cbn. destruct (decide (m' = m)) as [->|]; [by rewrite list_lookup_insert_eq|by rewrite list_lookup_insert_ne].
Qed.

Lemma locks_of_spec owner s : heap_ok s -> let '(m, s1) := locks_of owner s in
  collections s1 = <[owner := m]> (collections s) /\ lock_calls s1 = lock_calls s /\ (m < length (lock_maps s1))%nat /\
  locks_at s1 m = default ∅ (locks_at s <$> collections s !! owner) /\
  (forall o m', o <> owner -> collections s !! o = Some m' -> m' <> m /\ locks_at s1 m' = locks_at s m') /\
  (length (lock_maps s) <= length (lock_maps s1))%nat.
Proof.
  intros [H1 H2]. unfold locks_of. destruct (collections s !! owner) as [m|] eqn:E; cbn.
  - rewrite insert_id by done. split_and!; [done|done|by eapply H1|done| |lia]. intros o m' Ho Hm. split; [|done]. intros ->. apply Ho. by eapply H2.
  - rewrite length_app. cbn. split_and!; [done|done|lia| | |lia].
    + unfold locks_at. cbn. by rewrite list_lookup_middle.
    + intros o m' Ho Hm. apply H1 in Hm as [Hm _]. split; [lia|]. unfold locks_at. cbn. by rewrite lookup_app_l.
Qed.

Lemma holder_owner s o k : holder s (o, k) = default ∅ (locks_at s <$> collections s !! o) !! k.
Proof. unfold holder. cbn. destruct (collections s !! o); cbn; [done|by rewrite lookup_empty]. Qed.

Lemma enter_spec owner key s : heap_ok s -> exists m, heap_ok (lock_enter owner key s) /\
  lock_calls (lock_enter owner key s) = lock_calls s ++
    [{| lc_owner := owner; lc_key := key; lc_locks := m; lc_previous := holder s (owner, key); lc_status := lock_waiting |}] /\
  collections (lock_enter owner key s) = <[owner := m]> (collections s) /\ (forall m', collections s !! owner = Some m' -> m' = m) /\
  forall l, holder (lock_enter owner key s) l = if decide (l = (owner, key)) then Some (length (lock_calls s)) else holder s l.
Proof.
  intros Hs. pose proof (locks_of_spec owner s Hs) as H. unfold lock_enter. assert (Hid : forall m', collections s !! owner = Some m' -> m' = (locks_of owner s).1).
  { intros m' E. unfold locks_of. by rewrite E. }
  destruct (locks_of owner s) as [m s1]. destruct H as (Ec & El & Hm & Em & Ho & Hlen). destruct Hs as [Hh Hj].
  exists m. rewrite Ec, El, Em. cbn [collections lock_maps lock_calls]. rewrite <- holder_owner. split_and!; try done.
  - split; cbn [collections lock_maps].
    + intros o m'. rewrite length_insert, locks_at_insert by done. intros Hc. apply lookup_insert_Some in Hc as [[<- <-]|[Hne Hc]].
      * rewrite decide_True by done. split; [done|apply insert_non_empty].
      * destruct (Ho o m') as [Hne' ->]; [done|done|]. rewrite decide_False by done. apply Hh in Hc as [? ?]. split; [lia|done].
    + intros o o' m' Hc Hc'. apply lookup_insert_Some in Hc as [[<- <-]|[Hne Hc]], Hc' as [[E E']|[Hne' Hc']]; subst; try done; [| |by eapply Hj];
        by destruct (Ho _ _ (not_eq_sym ltac:(eassumption)) ltac:(eassumption)).
  - intros [o k]. rewrite (holder_owner _ o k), (holder_owner _ o k). cbn [collections]. destruct (decide (o = owner)) as [->|Hne].
    + rewrite lookup_insert_eq. cbn [fmap option_fmap option_map default]. rewrite locks_at_insert, decide_True by done. cbn [id default].
      destruct (decide ((owner, key) = (owner, k))) as [[= <-]|Hk]; [rewrite lookup_insert_eq|rewrite lookup_insert_ne by congruence].
      * by rewrite decide_True.
      * rewrite decide_False by congruence. done.
    + rewrite lookup_insert_ne by done. rewrite decide_False by congruence. destruct (collections s !! o) as [m'|] eqn:E; cbn; [|done].
      destruct (Ho o m' Hne E) as [Hm' Hl]. by rewrite locks_at_insert, decide_False, Hl by done.
Qed.

Lemma leave_spec i c s : heap_ok s -> collections s !! lc_owner c = Some (lc_locks c) -> heap_ok (lock_leave i c s) /\
  (forall l, holder (lock_leave i c s) l = if decide (l = id_of c /\ holder s l = Some i) then None else holder s l) /\
  (forall o, (exists k, is_Some (holder (lock_leave i c s) (o, k))) -> collections (lock_leave i c s) !! o = collections s !! o).
Proof.
  intros [Hh Hj] Ec. destruct (Hh _ _ Ec) as [Hm Hne]. unfold lock_leave. set (ls := if bool_decide (locks_at s (lc_locks c) !! lc_key c = Some i) then _ else _).
  assert (Els : forall k, ls !! k = if decide ((lc_owner c, k) = id_of c /\ holder s (lc_owner c, k) = Some i) then None else holder s (lc_owner c, k)).
  { intros k. unfold holder, id_of. cbn [fst snd]. rewrite Ec. cbn. subst ls. case_bool_decide as Hd.
    - destruct (decide (k = lc_key c)) as [->|Hk]; [rewrite lookup_delete_eq, decide_True by auto; done|].
      rewrite lookup_delete_ne, decide_False by naive_solver. done.
    - rewrite decide_False by naive_solver. done. }
  clearbody ls. set (s' := {| collections := _ |}).
  assert (Hc : forall o m, collections s' !! o = Some m -> collections s !! o = Some m /\ (o = lc_owner c -> ls <> ∅)).
  { intros o m. subst s'. cbn. case_bool_decide as Hd; [|done]. intros E. apply lookup_delete_Some in E as [? ?]. by split. }
  assert (Hat : forall m, locks_at s' m = if decide (m = lc_locks c) then ls else locks_at s m).
  { intros m. by apply (locks_at_insert s (lc_locks c) ls). }
  assert (Hholder : forall l, holder s' l = if decide (l = id_of c /\ holder s l = Some i) then None else holder s l).
  { intros [o k]. destruct (decide (o = lc_owner c)) as [->|Ho].
    - assert (Eown : collections s' !! lc_owner c = if bool_decide (ls = ∅) then None else Some (lc_locks c)).
      { subst s'. cbn. case_bool_decide; [by rewrite lookup_delete_eq|done]. }
      rewrite <- Els, holder_owner, Eown. case_bool_decide as Hd; cbn; [by rewrite Hd, lookup_empty|]. by rewrite Hat, decide_True.
    - rewrite decide_False by (unfold id_of; naive_solver). rewrite !holder_owner.
      assert (Eo : collections s' !! o = collections s !! o).
      { subst s'. cbn. case_bool_decide; [by rewrite lookup_delete_ne|done]. }
      rewrite Eo. destruct (collections s !! o) as [m|] eqn:E; cbn; [|done]. rewrite Hat, decide_False; [done|]. intros ->. by apply Ho, (Hj _ _ (lc_locks c)). }
  split_and!; [split|done|].
  - intros o m E. apply Hc in E as [E Hls]. rewrite Hat. subst s'. cbn [lock_maps]. rewrite length_insert.
    destruct (Hh _ _ E) as [? ?]. split; [done|]. destruct (decide (m = lc_locks c)) as [->|]; [|done]. apply Hls. by eapply Hj.
  - intros o o' m E E'. apply Hc in E as [E _], E' as [E' _]. by eapply Hj.
  - intros o (k & i' & Hk). unfold holder in Hk. cbn [fst] in Hk. destruct (collections s' !! o) as [m|] eqn:E; [|done]. apply Hc in E as [E _]. done.
Qed.

Lemma set_status_lookup i st s j c' : lock_calls (set_lock_status i st s) !! j = Some c' ->
  exists c, lock_calls s !! j = Some c /\ id_of c' = id_of c /\ lc_locks c' = lc_locks c /\ lc_owner c' = lc_owner c /\ lc_previous c' = lc_previous c /\
    lc_status c' = if decide (i = j) then st else lc_status c.
Proof.
  cbn. rewrite list_lookup_alter. destruct (decide (i = j)) as [<-|]; destruct (lock_calls s !! _) as [c|] eqn:E; try done; intros [= <-];
    exists c; split_and!; done.
Qed.

(** *** Every step keeps the invariant *)
Lemma earlier_finished s i c : locks_ok s -> lock_calls s !! i = Some c -> previous_settled s (lc_previous c) = true ->
  forall j c', (j < i)%nat -> lock_calls s !! j = Some c' -> id_of c' = id_of c -> lc_status c' = lock_finished.
Proof.
  intros H Hi Hp j c' Hj Hc Hid. pose proof (ok_previous _ H _ _ Hi) as P. unfold previous_ok in P.
  destruct (lc_previous c) as [p|]; [|by eapply P]. destruct P as (Hlt & (cp & Ep & Hidp) & Hbetween).
  cbn in Hp. apply bool_decide_eq_true in Hp. rewrite Ep in Hp. injection Hp as Hp.
  destruct (decide (j = p)) as [->|]; [congruence|]. destruct (decide (j < p)%nat) as [Hjp|].
  - eapply (ok_order _ H p cp j c'); try done; [by rewrite Hp|congruence].
  - destruct (Hbetween j c'); [lia|done|done].
Qed.

Lemma previous_status i st s j c c' : lock_calls s !! i = Some c -> (lc_status c = lock_finished -> st = lock_finished) ->
  lock_calls s !! j = Some c' -> previous_ok s j c' -> forall c2, id_of c2 = id_of c' -> lc_previous c2 = lc_previous c' ->
  previous_ok (set_lock_status i st s) j c2.
Proof.
  intros Hi Hst Hj P c2 Hid Hp. unfold previous_ok in *. rewrite Hp, Hid. destruct (lc_previous c') as [p|].
  - destruct P as (Hlt & (cp & Ep & Hidp) & Hb). split; [done|]. split.
    + cbn [set_lock_status lock_calls]. destruct (decide (i = p)) as [->|];
        [rewrite list_lookup_alter_eq, Ep|rewrite list_lookup_alter_ne, Ep by done]; eexists; (split; [reflexivity|exact Hidp]).
    + intros k ck Hk Ek. apply set_status_lookup in Ek as (ck0 & Ek & -> & _). by eapply Hb.
  - intros k ck Hk Ek Hidk. apply set_status_lookup in Ek as (ck0 & Ek & Hidk' & _ & _ & _ & ->). rewrite Hidk' in Hidk.
    pose proof (P k ck0 Hk Ek Hidk) as F. destruct (decide (i = k)) as [->|]; [|done]. apply Hst. congruence.
Qed.

Lemma begin_ok s i c : locks_ok s -> lock_calls s !! i = Some c -> lc_status c = lock_waiting -> previous_settled s (lc_previous c) = true ->
  locks_ok (set_lock_status i lock_running s).
Proof.
  intros H Hi Hw Hp. pose proof (earlier_finished s i c H Hi Hp) as Hearlier. pose proof H as [[Hh Hj] Hholder Hopen Hprev Horder]. split.
  - by split.
  - intros l j Hl. destruct (Hholder l j Hl) as [(cj & Ej & Hid & Hst) Hlater]. split.
    + cbn [set_lock_status lock_calls]. destruct (decide (i = j)) as [->|];
        [rewrite list_lookup_alter_eq, Ej|rewrite list_lookup_alter_ne, Ej by done]; eexists; (split; [reflexivity|split; [exact Hid|done]]).
    + intros k ck Hk Ek. apply set_status_lookup in Ek as (ck0 & Ek & -> & _). by eapply Hlater.
  - intros j cj Ej Hst. apply set_status_lookup in Ej as (cj0 & Ej & Hid & Hl & Ho & _ & E). rewrite Hid, Hl, Ho. apply (Hopen j); [done|].
    rewrite E in Hst. destruct (decide (i = j)) as [->|]; congruence.
  - intros j cj Ej. apply set_status_lookup in Ej as (cj0 & Ej & Hid & _ & _ & Hpr & _). eapply previous_status; eauto. congruence.
  - intros j cj k ck Ej Hst Hk Ek Hid. apply set_status_lookup in Ej as (cj0 & Ej & Hidj & _ & _ & _ & Esj), Ek as (ck0 & Ek & Hidk & _ & _ & _ & Esk).
    rewrite Hidj, Hidk in Hid. assert (F : lc_status ck0 = lock_finished).
    { destruct (decide (i = j)) as [->|]; [eapply Hearlier; [exact Hk|exact Ek|congruence]|]. eapply Horder; [exact Ej|congruence|exact Hk|exact Ek|done]. }
    rewrite Esk. destruct (decide (i = k)) as [->|]; [congruence|done].
Qed.

Lemma leave_ok s i c : locks_ok s -> lock_calls s !! i = Some c -> lc_status c = lock_running -> locks_ok (lock_leave i c s).
Proof.
  intros H Hi Hr. pose proof H as [Hm Hholder Hopen Hprev Horder]. destruct (Hopen i c Hi ltac:(congruence)) as [_ Hown].
  destruct (leave_spec i c s Hm Hown) as (Hm' & Hl' & Ho'). split; [done| | | |].
  - intros l j. rewrite Hl'. destruct (decide _) as [|Hn]; [done|]. intros Hl. destruct (Hholder l j Hl) as [(cj & Ej & Hid & Hst) Hlater]. split.
    + assert (i <> j) by (intros ->; apply Hn; split; congruence). change (lock_calls (lock_leave i c s)) with (lock_calls (set_lock_status i lock_finished s)).
      cbn [set_lock_status lock_calls]. rewrite list_lookup_alter_ne, Ej by done. by exists cj.
    + intros k ck Hk Ek. apply (set_status_lookup i lock_finished s) in Ek as (ck0 & Ek & -> & _). by eapply Hlater.
  - intros j cj Ej Hst. apply (set_status_lookup i lock_finished s) in Ej as (cj0 & Ej & Hid & Hl & Ho & _ & E). rewrite Hid, Hl, Ho.
    destruct (decide (i = j)) as [|Hne]; [congruence|]. rewrite E in Hst. destruct (Hopen j cj0 Ej Hst) as [[x Hx] Hc].
    assert (Hx' : is_Some (holder (lock_leave i c s) (id_of cj0))).
    { rewrite Hl'. destruct (decide _) as [[Hid' Hi']|]; [|by exists x]. exfalso. apply Hst. destruct (Hholder _ _ Hi') as [_ Hlater].
      destruct (decide (i < j)%nat) as [Hlt|]; [by destruct (Hlater j cj0 Hlt Ej)|]. eapply (Horder i c j cj0); try done; [congruence|lia]. }
    split; [done|]. rewrite <- Hc. apply Ho'. by exists (lc_key cj0).
  - intros j cj Ej. apply (set_status_lookup i lock_finished s) in Ej as (cj0 & Ej & Hid & _ & _ & Hpr & _). 
    by eapply (previous_status i lock_finished s j c cj0); eauto.
  - intros j cj k ck Ej Hst Hk Ek Hid. apply (set_status_lookup i lock_finished s) in Ej as (cj0 & Ej & Hidj & _ & _ & _ & Esj), Ek as (ck0 & Ek & Hidk & _ & _ & _ & Esk).
    rewrite Hidj, Hidk in Hid. rewrite Esk. destruct (decide (i = k)); [done|]. eapply (Horder j cj0); [done| |done|done|done].
    destruct (decide (i = j)) as [->|]; congruence.
Qed.

Lemma enter_ok owner key s : locks_ok s -> locks_ok (lock_enter owner key s).
Proof.
  intros [Hm Hholder Hopen Hprev Horder]. destruct (enter_spec owner key s Hm) as (m & Hm' & Ecalls & Ecoll & Hsame & Hl').
  assert (New : forall i c, lock_calls (lock_enter owner key s) !! i = Some c -> lock_calls s !! i = Some c \/
    i = length (lock_calls s) /\ c = {| lc_owner := owner; lc_key := key; lc_locks := m; lc_previous := holder s (owner, key); lc_status := lock_waiting |}).
  { intros i c E. rewrite Ecalls in E. apply lookup_app_Some in E as [E|[Hi E]]; [by left|right]. apply list_lookup_singleton_Some in E as [? <-]. split; [lia|done]. }
  assert (Old : forall i c, lock_calls s !! i = Some c -> lock_calls (lock_enter owner key s) !! i = Some c).
  { intros i c E. rewrite Ecalls. by apply lookup_app_l_Some. }
  assert (Lt : forall i c, lock_calls s !! i = Some c -> (i < length (lock_calls s))%nat) by (intros i c E; by eapply lookup_lt_Some).
  split; [done| | | |].
  - intros l i. rewrite Hl'. destruct (decide (l = (owner, key))) as [->|Hne].
    + intros [= <-]. split; [eexists; split_and!; [rewrite Ecalls; by apply list_lookup_middle|done|done]|].
      intros j c Hj E. apply New in E as [E|[-> _]]; [apply Lt in E; lia|lia].
    + intros Hl. destruct (Hholder l i Hl) as [(c & E & Hid & Hst) Hlater]. split; [exists c; split_and!; auto|].
      intros j c' Hj E'. apply New in E' as [E'|[-> ->]]; [by eapply Hlater|]. unfold id_of. cbn. congruence.
  - intros i c E Hst. rewrite Hl', Ecoll. apply New in E as [E|[-> ->]].
    + destruct (Hopen i c E Hst) as [Hs Ho]. split; [destruct (decide _); [done|exact Hs]|].
      destruct (decide (owner = lc_owner c)) as [->|]; [rewrite lookup_insert_eq; f_equal; symmetry; by apply Hsame|by rewrite lookup_insert_ne].
    + cbn. rewrite decide_True, lookup_insert_eq by done. by split.
  - intros i c E. unfold previous_ok. apply New in E as [E|[-> ->]].
    + pose proof (Hprev i c E) as P. apply Lt in E. unfold previous_ok in P. destruct (lc_previous c) as [p|].
      * destruct P as (Hlt & (cp & Ep & Hidp) & Hb). split_and!; [done|exists cp; auto|]. intros j c' Hj E'. apply New in E' as [E'|[-> _]]; [by eapply Hb|lia].
      * intros j c' Hj E'. apply New in E' as [E'|[-> _]]; [by eapply P|lia].
    + change (id_of {| lc_owner := owner; lc_key := key; lc_locks := m; lc_previous := holder s (owner, key); lc_status := lock_waiting |}) with (owner, key).
      cbn [lc_previous]. destruct (holder s (owner, key)) as [p|] eqn:Hp.
      * destruct (Hholder _ _ Hp) as [(cp & Ep & Hid & _) Hlater]. split_and!; [by eapply Lt|exists cp; auto|].
        intros j c' Hj E'. apply New in E' as [E'|[-> _]]; [eapply Hlater; [|done]; lia|lia].
      * intros j c' Hj E' Hid. apply New in E' as [E'|[-> _]]; [|lia]. destruct (decide (lc_status c' = lock_finished)) as [|Hst]; [done|].
        destruct (Hopen j c' E' Hst) as [[x Hx] _]. congruence.
  - intros i c j c' E Hst Hj E' Hid. apply New in E as [E|[-> ->]]; [|done]. pose proof (Lt _ _ E). apply New in E' as [E'|[-> _]]; [eapply (Horder i c j c'); done|lia].
Qed.

(** ** Refinement *)
Lemma view_lookup s i : lock_view s !! i = (fun c => (id_of c, lc_status c)) <$> lock_calls s !! i.
Proof. unfold lock_view. apply list_lookup_fmap. Qed.

Lemma view_set_status i st s c : lock_calls s !! i = Some c -> lock_view (set_lock_status i st s) = <[i := (id_of c, st)]> (lock_view s).
Proof.
  intros Hi. apply list_eq. intros j. rewrite view_lookup. cbn [set_lock_status lock_calls]. destruct (decide (i = j)) as [<-|Hne].
  - rewrite list_lookup_alter_eq, Hi, list_lookup_insert_eq; [done|]. unfold lock_view. rewrite length_map. by eapply lookup_lt_Some.
  - by rewrite list_lookup_alter_ne, list_lookup_insert_ne, view_lookup by done.
Qed.

Lemma settled_iff s i c : locks_ok s -> lock_calls s !! i = Some c ->
  previous_settled s (lc_previous c) = forallb (finished_or_other (id_of c)) (take i (lock_view s)).
Proof.
  intros H Hi. apply eq_iff_eq_true. rewrite forallb_forall. split.
  - intros Hp x Hx. apply list_elem_of_In, list_elem_of_lookup in Hx as [j Hj]. apply lookup_take_Some in Hj as [Hj Hlt].
    rewrite view_lookup in Hj. destruct (lock_calls s !! j) as [cj|] eqn:Ej; [|done]. injection Hj as <-. apply bool_decide_eq_true. cbn. intros Hid.
    by eapply (earlier_finished s i c).
  - intros Hall. pose proof (ok_previous _ H _ _ Hi) as P. unfold previous_ok in P. destruct (lc_previous c) as [p|]; [|done].
    destruct P as (Hlt & (cp & Ep & Hid) & _). cbn. apply bool_decide_eq_true. rewrite Ep. cbn. f_equal.
    assert (Hin : List.In (id_of cp, lc_status cp) (take i (lock_view s))).
    { apply list_elem_of_In, list_elem_of_lookup. exists p. apply lookup_take_Some. split; [|done]. by rewrite view_lookup, Ep. }
    apply Hall, bool_decide_eq_true in Hin. by apply Hin.
Qed.

Lemma lock_step_refines s e : locks_ok s -> lock_view <$> lock_step s e = spec_lock_step (lock_view s) e.
Proof.
  intros H. destruct e as [o k|i|i]; cbn [lock_step spec_lock_step].
  - destruct (enter_spec o k s (ok_maps _ H)) as (m & _ & Ec & _). cbn. f_equal. unfold lock_view. rewrite Ec. apply map_app.
  - rewrite view_lookup. destruct (lock_calls s !! i) as [c|] eqn:Hi; [|done]. cbn [mbind option_bind fmap option_fmap option_map fst snd].
    rewrite (settled_iff _ _ _ H Hi). destruct (_ && _); [|done]. cbn. f_equal. by apply view_set_status.
  - rewrite view_lookup. destruct (lock_calls s !! i) as [c|] eqn:Hi; [|done]. cbn [mbind option_bind fmap option_fmap option_map fst snd].
    destruct (bool_decide _); [|done]. cbn. f_equal. by apply (view_set_status i lock_finished).
Qed.

Lemma lock_step_ok s e s' : locks_ok s -> lock_step s e = Some s' -> locks_ok s'.
Proof.
  intros H. destruct e as [o k|i|i]; cbn [lock_step]; [intros [= <-]; by apply enter_ok| |];
    (destruct (lock_calls s !! i) as [c|] eqn:Hi; [|done]); cbn [mbind option_bind].
  - destruct (bool_decide _) eqn:Hw; [|done]. destruct (previous_settled _ _) eqn:Hp; [|done]. apply bool_decide_eq_true in Hw.
    intros [= <-]. by eapply begin_ok.
  - case_bool_decide as Hr; [|done]. intros [= <-]. by apply leave_ok.
Qed.

Lemma create_ok : locks_ok createKeyedLocks.
Proof. split; [split| | | |]; intros *; unfold holder; cbn; by rewrite ?lookup_empty. Qed.

Lemma lock_run_refines es : forall s, locks_ok s -> lock_view <$> lock_run s es = spec_lock_run (lock_view s) es.
Proof.
  induction es as [|e es IH]; intros s H; [done|]. cbn [lock_run spec_lock_run]. rewrite <- lock_step_refines by done.
  destruct (lock_step s e) as [s'|] eqn:E; [|done]. cbn. apply IH. by eapply lock_step_ok.
Qed.

Lemma lock_run_ok es : forall s s', locks_ok s -> lock_run s es = Some s' -> locks_ok s'.
Proof.
  induction es as [|e es IH]; intros s s' H; [by intros [= <-]|]. cbn [lock_run]. destruct (lock_step s e) as [s1|] eqn:E; [|done]. cbn.
  apply IH. by eapply lock_step_ok.
Qed.

(** ** What the lock promises *)
Lemma lock_progress s : locks_ok s -> forall i c, lock_calls s !! i = Some c -> lc_status c <> lock_finished ->
  exists j cj, lock_calls s !! j = Some cj /\ id_of cj = id_of c /\ (lc_status cj = lock_running \/ is_Some (lock_step s (Begin j))).
Proof.
  intros H i. induction (lt_wf i) as [i _ IH]. intros c Hi Hst. destruct (lc_status c) eqn:Es; [|by exists i, c; auto|done].
  destruct (previous_settled s (lc_previous c)) eqn:Hp.
  - exists i, c. split_and!; [done|done|right]. cbn [lock_step]. rewrite Hi. cbn [mbind option_bind]. rewrite Es, Hp. by eexists.
  - pose proof (ok_previous _ H _ _ Hi) as P. unfold previous_ok in P. destruct (lc_previous c) as [p|]; [|done].
    destruct P as (Hlt & (cp & Ep & Hid) & _). cbn in Hp. rewrite Ep in Hp. apply bool_decide_eq_false in Hp.
    destruct (IH p Hlt cp Ep) as (j & cj & Ej & Hidj & Hj); [intros F; apply Hp; cbn; by rewrite F|]. exists j, cj. split_and!; [done|congruence|done].
Qed.

Lemma lock_exclusive s : locks_ok s -> forall i j c c', lock_calls s !! i = Some c -> lock_calls s !! j = Some c' -> id_of c = id_of c' ->
  lc_status c = lock_running -> lc_status c' = lock_running -> i = j.
Proof.
  intros H i j c c' Hi Hj Hid Hr Hr'. destruct (decide (i < j)%nat); [|destruct (decide (j < i)%nat); [|lia]].
  - pose proof (ok_order _ H j c' i c Hj). rewrite Hr, Hr' in *. by assert (lock_running = lock_finished) by eauto.
  - pose proof (ok_order _ H i c j c' Hi). rewrite Hr, Hr' in *. by assert (lock_running = lock_finished) by eauto.
Qed.

Lemma lock_no_leak s : locks_ok s -> forall o, is_Some (collections s !! o) <->
  exists i c, lock_calls s !! i = Some c /\ lc_owner c = o /\ lc_status c <> lock_finished.
Proof.
  intros H o. split.
  - intros [m Hm]. destruct (ok_heap _ (ok_maps _ H) _ _ Hm) as [_ Hne]. apply map_choose in Hne as (k & i & Hk).
    destruct (ok_holder _ H (o, k) i) as [(c & Hi & Hid & Hst) _]; [unfold holder; cbn; by rewrite Hm|]. exists i, c. injection Hid as ? ?. auto.
  - intros (i & c & Hi & <- & Hst). destruct (ok_open _ H i c Hi Hst) as [_ ->]. done.
Qed.

(** C23: The keyed lock implements its specification: in every sequence of
    calls, begins and ends, an operation can begin exactly when every earlier
    call with the same owner and key has finished, whatever other owners and
    keys do.  So operations with one owner and key never overlap and begin in
    call order; as long as one call is unfinished, one of its lock is running
    or can begin; and an owner has an entry exactly while it has an unfinished
    call, so no entry leaks. *)
Theorem keyed_lock_refines es : lock_view <$> lock_run createKeyedLocks es = spec_lock_run [] es /\
  forall s, lock_run createKeyedLocks es = Some s ->
  (forall i j c c', lock_calls s !! i = Some c -> lock_calls s !! j = Some c' -> id_of c = id_of c' ->
    lc_status c = lock_running -> lc_status c' = lock_running -> i = j) /\
  (forall i c, lock_calls s !! i = Some c -> lc_status c <> lock_finished ->
    exists j cj, lock_calls s !! j = Some cj /\ id_of cj = id_of c /\ (lc_status cj = lock_running \/ is_Some (lock_step s (Begin j)))) /\
  (forall o, is_Some (collections s !! o) <-> exists i c, lock_calls s !! i = Some c /\ lc_owner c = o /\ lc_status c <> lock_finished).
Proof.
  split; [exact (lock_run_refines es _ create_ok)|]. intros s E. pose proof (lock_run_ok _ _ _ create_ok E) as H.
  split; [by apply lock_exclusive|split; [by apply lock_progress|by apply lock_no_leak]].
Qed.

Definition toy_lock_run : list LockEvent := [Enter 3 "a"; Enter 3 "a"; Begin 0; Enter 3 "b"; Begin 2; Leave 0; Begin 1].
Definition toy_locks : KeyedLocks := default createKeyedLocks (lock_run createKeyedLocks toy_lock_run).

(** The second call of a key begins after the first has left; the other key did not wait. *)
Lemma keyed_lock_refines_witness : spec_lock_run [] toy_lock_run = Some [((3%nat, "a"), lock_finished); ((3%nat, "a"), lock_running); ((3%nat, "b"), lock_running)] /\
  is_Some (collections toy_locks !! 3%nat) /\ lock_step toy_locks (Begin 0) = None.
Proof.
  destruct (keyed_lock_refines toy_lock_run) as [H1 H2]. destruct (H2 toy_locks) as (_ & _ & H3); [vm_compute; reflexivity|].
  split; [rewrite <- H1; vm_compute; reflexivity|]. split; [|vm_compute; reflexivity]. apply H3. exists 1%nat.
  exists {| lc_owner := 3; lc_key := "a"; lc_locks := 0; lc_previous := Some 0%nat; lc_status := lock_running |}.
  split; [vm_compute; reflexivity|by split].
Defined.
