(* ===== verification/SafetyNumber.v ===== *)
(** * Safety numbers ([safety/core.ts], [protobuf.ts], [fingerprint.ts], [index.ts])

    Two users compare the fingerprints of both identities, as a 60-digit
    number, as emojis, or by scanning the other's code.  SHA-512 is the
    operation of the class [Sha512]; [bytesToHex] of the hash package is an
    argument.  A Base64 text stands for its bytes. *)
From S2P Require Import Prelude JsMap ProtoWire Utf8 Base64 ProtoFields Crypto Identity IdentityProofs KeyFormats RatchetToy.

Class Sha512 := { sha512Sync : bytes -> bytes }.
Class Sha512Laws (S : Sha512) : Prop := { sha512_length : forall m, length (sha512Sync m) = 64%nat; sha512_bytes : forall m, is_bytes (sha512Sync m) }.

(** ** Fingerprints ([core.ts]) *)
Definition FINGERPRINT_ITERATIONS : Z := 5200.
Definition FINGERPRINT_VERSION_PREFIX : bytes := [0x00; 0x00].
Definition FINGERPRINT_VERSION : Z := 2.
Definition COMPOSITE_FINGERPRINT_VERSION : Z := 4.
Definition COMPOSITE_FINGERPRINT_DOMAIN : string := "signal-protocol-js composite safety number v1".
Definition SCANNABLE_FINGERPRINT_BYTES : Z := 32.

Record IndividualFingerprint := { scannable : bytes; full : bytes }.
Record FingerprintPair := {
  localFingerprint : IndividualFingerprint; remoteFingerprint : IndividualFingerprint; firstFingerprint : IndividualFingerprint;
  displayable : jsstring; fp_hex : jsstring }.

Definition bytesToNumber (b : bytes) : Z := fold_left (fun result byte => result * 256 + byte) b 0.

(** [for (let i = 0; i < iterations; i++) hash = sha512Sync(concatBytes(hash, suffix))] *)
Definition iterate_hash {S : Sha512} (iterations : Z) (suffix hash : bytes) : bytes :=
  Nat.iter (Z.to_nat iterations) (fun hash => sha512Sync (hash ++ suffix)) hash.

Definition fingerprint_of (hash : bytes) : IndividualFingerprint := {| scannable := slice hash 0 SCANNABLE_FINGERPRINT_BYTES; full := hash |}.

Definition computeIndividualFingerprint {S : Sha512} (identityKey : bytes) (userId : jsstring) (iterations : Z) : result IndividualFingerprint :=
  throw_when (negb (len identityKey =? X25519_RAW_KEY_BYTES)) (Error "Invalid identity key") ;;
  keyBytes ← serializePublicKey identityKey;
  Ok (fingerprint_of (iterate_hash iterations keyBytes (FINGERPRINT_VERSION_PREFIX ++ keyBytes ++ utf8Encode userId))).

(** The decimal digits of a number below [10 ^ fuel]. *)
Fixpoint decimal (fuel : nat) (n : Z) : jsstring :=
  match fuel with
  | O => []
  | S fuel => if n <? 10 then [0x30 + n] else decimal fuel (n / 10) ++ [0x30 + n mod 10]
  end.
Definition padStart (n : Z) (c : Z) (s : jsstring) : jsstring := replicate (Z.to_nat (n - len s)) c ++ s.

(** [(num % 100000).toString().padStart(5, '0')] *)
Definition five_digits (num : Z) : jsstring := padStart 5 0x30 (decimal 5 (num mod 100000)).

(** The loop of [generateNumericFromFingerprint]. *)
Fixpoint numeric_loop (rounds : nat) (i digitCount : Z) (hash : bytes) (result : jsstring) : jsstring :=
  match rounds with
  | O => result
  | S rounds =>
      if len result <? digitCount
      then numeric_loop rounds (i + 1) digitCount hash (result ++ five_digits (bytesToNumber (slice hash (i * 5) (i * 5 + 5))))
      else result
  end.
Definition generateNumericFromFingerprint (hash : bytes) (digitCount : Z) : jsstring :=
  let chunksNeeded := (digitCount + 4) / 5 in
  slice (numeric_loop (Z.to_nat chunksNeeded) 0 digitCount hash []) 0 digitCount.

(** Unsigned byte comparison: negative, zero or positive. *)
Fixpoint compareBytes (left right : bytes) : Z :=
  match left, right with
  | x :: left', y :: right' => if x - y =? 0 then compareBytes left' right' else x - y
  | _, _ => len left - len right
  end.

(** ** Grouping of digits and emojis *)
Definition line_terminator (c : Z) : bool := (c =? 0x0a) || (c =? 0x0d) || (c =? 0x2028) || (c =? 0x2029).

(** The matches of [/.{1,5}/g], with the current one so far. *)
Fixpoint match_fives (current s : jsstring) : list jsstring :=
  let flush := match current with [] => [] | _ => [current] end in
  match s with
  | [] => flush
  | c :: s =>
      if line_terminator c then flush ++ match_fives [] s
      else if len current =? 4 then (current ++ [c]) :: match_fives [] s
      else match_fives (current ++ [c]) s
  end.

(** [groups.join(' ')] *)
Fixpoint join_spaces (groups : list jsstring) : jsstring :=
  match groups with [] => [] | [g] => g | g :: groups => g ++ 0x20 :: join_spaces groups end.

Definition formatNumeric (numeric : jsstring) : jsstring :=
  match join_spaces (match_fives [] numeric) with [] => numeric | s => s end.

Definition FINGERPRINT_EMOJIS : list Z :=
  [0x1f600; 0x1f603; 0x1f604; 0x1f601; 0x1f606; 0x1f605; 0x1f923; 0x1f602;
   0x1f642; 0x1f643; 0x1f609; 0x1f60a; 0x1f607; 0x1f970; 0x1f60d; 0x1f929;
   0x1f618; 0x1f617; 0x1f61a; 0x1f619; 0x1f972; 0x1f60b; 0x1f61b; 0x1f61c;
   0x1f92a; 0x1f61d; 0x1f911; 0x1f917; 0x1f92d; 0x1f92b; 0x1f914; 0x1f910;
   0x1f928; 0x1f610; 0x1f611; 0x1f636; 0x1f60f; 0x1f612; 0x1f644; 0x1f62c;
   0x1f925; 0x1f60c; 0x1f614; 0x1f62a; 0x1f924; 0x1f634; 0x1f637; 0x1f912;
   0x1f915; 0x1f922; 0x1f92e; 0x1f927; 0x1f975; 0x1f976; 0x1f635; 0x1f92f;
   0x1f920; 0x1f973; 0x1f60e; 0x1f913; 0x1f9d0; 0x1f615; 0x1f61f; 0x1f641].

Definition generateEmojiFingerprint (hash : bytes) : jsstring :=
  concat (map (fun byte => emit_units (nthZ 0 FINGERPRINT_EMOJIS (byte mod len FINGERPRINT_EMOJIS))) (take 30 hash)).

(** [Array.from(s)]: a surrogate pair is one element. *)
Fixpoint array_from (s : jsstring) : list jsstring :=
  match s with
  | [] => []
  | u :: s' =>
      if high_surrogate u then
        match s' with
        | v :: s'' => if low_surrogate v then [u; v] :: array_from s'' else [u] :: array_from s'
        | [] => [[u]]
        end
      else [u] :: array_from s'
  end.

(** Slices of five elements. *)
Fixpoint slices_of_five (rounds : nat) (l : list jsstring) : list jsstring :=
  match rounds, l with
  | S rounds, _ :: _ => concat (take 5 l) :: slices_of_five rounds (drop 5 l)
  | _, _ => []
  end.
Definition formatEmojis (emojis : jsstring) : jsstring :=
  let emojiArray := array_from emojis in join_spaces (slices_of_five (length emojiArray) emojiArray).

(** ** The pair of fingerprints *)
Definition orderFingerprintPair (bytesToHex : bytes -> jsstring) (l r : IndividualFingerprint) : FingerprintPair :=
  let localDigits := generateNumericFromFingerprint (full l) 30 in
  let remoteDigits := generateNumericFromFingerprint (full r) 30 in
  let order := compareBytes (utf8Encode localDigits) (utf8Encode remoteDigits) in
  let order := if order =? 0 then compareBytes (full l) (full r) else order in
  let localFirst := order <=? 0 in
  let first := if localFirst then l else r in
  let second := if localFirst then r else l in
  {| localFingerprint := l; remoteFingerprint := r; firstFingerprint := first;
     displayable := formatNumeric (if localFirst then localDigits ++ remoteDigits else remoteDigits ++ localDigits);
     fp_hex := bytesToHex (scannable first) ++ bytesToHex (scannable second) |}.

Definition computeFingerprintPair {S : Sha512} (bytesToHex : bytes -> jsstring) (localKey remoteKey : bytes) (localId remoteId : jsstring) : result FingerprintPair :=
  l ← computeIndividualFingerprint localKey localId FINGERPRINT_ITERATIONS;
  r ← computeIndividualFingerprint remoteKey remoteId FINGERPRINT_ITERATIONS;
  Ok (orderFingerprintPair bytesToHex l r).

(** [DataView.setUint32] keeps the value modulo [2 ^ 32]. *)
Definition uint32_bytes (value : Z) : bytes := [u8 (value / 2 ^ 24); u8 (value / 2 ^ 16); u8 (value / 2 ^ 8); u8 value].

Definition encodeCompositeSafetyIdentifier (userId : jsstring) (identityType : IdentityType) : result bytes :=
  let userIdBytes := utf8Encode userId in
  throw_when (len userIdBytes =? 0) (Error "Safety-number userId cannot be empty") ;;
  Ok ([match identityType with aci => 0x01 | pni => 0x02 end] ++ uint32_bytes (len userIdBytes) ++ userIdBytes).

Definition computeCompositeIndividualFingerprint {S : Sha256} {S5 : Sha512} (identity : CompositeIdentityV1) (userId : jsstring)
    (identityType : IdentityType) (iterations : Z) : result IndividualFingerprint :=
  commitment ← deriveIdentityCommitment identity;
  identifier ← encodeCompositeSafetyIdentifier userId identityType;
  Ok (fingerprint_of (iterate_hash iterations commitment (bytes_of_string COMPOSITE_FINGERPRINT_DOMAIN ++ identifier ++ commitment))).

Definition computeCompositeFingerprintPair {S : Sha256} {S5 : Sha512} (bytesToHex : bytes -> jsstring) (localIdentity remoteIdentity : CompositeIdentityV1)
    (localId remoteId : jsstring) (identityType : IdentityType) (iterations : Z) : result FingerprintPair :=
  l ← computeCompositeIndividualFingerprint localIdentity localId identityType iterations;
  r ← computeCompositeIndividualFingerprint remoteIdentity remoteId identityType iterations;
  Ok (orderFingerprintPair bytesToHex l r).

(** ** The code to scan ([protobuf.ts]) *)
Record CombinedFingerprints := { cf_version : Z; cf_local : bytes; cf_remote : bytes }.

Definition encodeLogicalFingerprint (content : bytes) : result bytes := encodeBytesField 1 content.

Definition decodeLogicalFingerprint (buffer : bytes) : result bytes :=
  '(tag, tagBytes) ← decodeVarint buffer 0;
  throw_when (negb (js_ushr tag 3 =? 1) || negb (js_and tag 0x07 =? WIRE_TYPE_LENGTH_DELIMITED)) (Error "Invalid LogicalFingerprint tag") ;;
  '(length, lengthBytes) ← decodeVarint buffer tagBytes;
  let offset := tagBytes + lengthBytes in
  let content := slice buffer offset (offset + length) in
  throw_when (negb (len content =? length)) (Error "Truncated LogicalFingerprint") ;;
  Ok content.

Definition encodeCombinedFingerprints (data : CombinedFingerprints) : result bytes :=
  version ← encodeUint32Field 1 (Int (cf_version data));
  localFp ← encodeLogicalFingerprint (cf_local data);
  localField ← encodeBytesField 2 localFp;
  remoteFp ← encodeLogicalFingerprint (cf_remote data);
  remoteField ← encodeBytesField 3 remoteFp;
  Ok (concatFields [version; localField; remoteField]).

(** The variables of [decodeCombinedFingerprints]. *)
Record CombinedLocals := { cl_version : option Z; cl_local : option bytes; cl_remote : option bytes }.

(** One length-delimited fingerprint at [offset]: its content and the new offset. *)
Definition read_fingerprint (data : bytes) (wireType offset : Z) : result (bytes * Z) :=
  throw_when (negb (wireType =? WIRE_TYPE_LENGTH_DELIMITED)) (Error "Invalid wire type for a fingerprint") ;;
  '(length, lengthBytes) ← decodeVarint data offset;
  let offset := offset + lengthBytes in
  content ← decodeLogicalFingerprint (slice data offset (offset + length));
  Ok (content, offset + length).

(** Each round reads at least the byte of a tag. *)
Fixpoint decode_combined (fuel : nat) (data : bytes) (offset : Z) (l : CombinedLocals) : result CombinedLocals :=
  match fuel with
  | O => Ok l
  | S fuel =>
      if offset <? len data then
        '(tag, tagBytes) ← decodeVarint data offset;
        let offset := offset + tagBytes in
        let fieldNumber := js_ushr tag 3 in
        let wireType := js_and tag 0x7 in
        if fieldNumber =? 1 then
          throw_when (negb (wireType =? WIRE_TYPE_VARINT)) (Error "Invalid wire type for version") ;;
          '(v, vBytes) ← decodeVarint data offset;
          decode_combined fuel data (offset + vBytes) {| cl_version := Some v; cl_local := cl_local l; cl_remote := cl_remote l |}
        else if fieldNumber =? 2 then
          '(content, offset) ← read_fingerprint data wireType offset;
          decode_combined fuel data offset {| cl_version := cl_version l; cl_local := Some content; cl_remote := cl_remote l |}
        else if fieldNumber =? 3 then
          '(content, offset) ← read_fingerprint data wireType offset;
          decode_combined fuel data offset {| cl_version := cl_version l; cl_local := cl_local l; cl_remote := Some content |}
        else
          offset ← skipUnknownField wireType data offset;
          decode_combined fuel data offset l
      else Ok l
  end.

Definition decodeCombinedFingerprints (data : bytes) : result CombinedFingerprints :=
  l ← decode_combined (length data) data 0 {| cl_version := None; cl_local := None; cl_remote := None |};
  match cl_version l, cl_local l, cl_remote l with
  | None, _, _ => Throw (Error "Missing version field in CombinedFingerprints")
  | _, None, _ => Throw (Error "Missing local_fingerprint field in CombinedFingerprints")
  | _, _, None => Throw (Error "Missing remote_fingerprint field in CombinedFingerprints")
  | Some v, Some a, Some b => Ok {| cf_version := v; cf_local := a; cf_remote := b |}
  end.

(** ** The classes of [fingerprint.ts] *)
Inductive CompareResult := scan_match | scan_no_match | scan_version_mismatch.

Record ScannableFingerprint := { sf_local : bytes; sf_remote : bytes; sf_version : Z }.

Definition new_ScannableFingerprint (localFingerprint remoteFingerprint : bytes) (version : Z) : result ScannableFingerprint :=
  throw_when (negb (len localFingerprint =? SCANNABLE_FINGERPRINT_BYTES)) (Error "Local fingerprint must be 32 bytes") ;;
  throw_when (negb (len remoteFingerprint =? SCANNABLE_FINGERPRINT_BYTES)) (Error "Remote fingerprint must be 32 bytes") ;;
  Ok {| sf_local := localFingerprint; sf_remote := remoteFingerprint; sf_version := version |}.

Definition toBuffer (f : ScannableFingerprint) : result bytes :=
  encodeCombinedFingerprints {| cf_version := sf_version f; cf_local := sf_local f; cf_remote := sf_remote f |}.

Definition compare_scanned (f : ScannableFingerprint) (scannedData : bytes) : CompareResult :=
  match decodeCombinedFingerprints scannedData with
  | Throw _ => scan_no_match
  | Ok decoded =>
      if negb (cf_version decoded =? sf_version f) then scan_version_mismatch
      else
        let localMatch := constantTimeEqual (cf_local decoded) (sf_remote f) in
        let remoteMatch := constantTimeEqual (cf_remote decoded) (sf_local f) in
        if localMatch && remoteMatch then scan_match else scan_no_match
  end.
Definition compareWith (f other : ScannableFingerprint) : result CompareResult := b ← toBuffer other; Ok (compare_scanned f b).

Definition fromBuffer (data : bytes) : result ScannableFingerprint :=
  decoded ← decodeCombinedFingerprints data;
  new_ScannableFingerprint (cf_local decoded) (cf_remote decoded) (cf_version decoded).

Definition is_digit (c : Z) : bool := (0x30 <=? c) && (c <=? 0x39).
Definition DisplayableFingerprint : Type := jsstring.
Definition new_DisplayableFingerprint (numeric : jsstring) : result DisplayableFingerprint :=
  throw_when (negb (len numeric =? 60)) (Error "Fingerprint must be exactly 60 digits") ;;
  throw_when (negb (forallb is_digit numeric)) (Error "Fingerprint must contain only digits") ;;
  Ok numeric.
Definition displayable_equals (a b : DisplayableFingerprint) : bool := constantTimeEqual (utf8Encode a) (utf8Encode b).

Record Fingerprint := { f_displayable : DisplayableFingerprint; f_scannable : ScannableFingerprint }.
Definition new_Fingerprint {S : Sha512} (bytesToHex : bytes -> jsstring) (localIdentityKey remoteIdentityKey : bytes)
    (localIdentifier remoteIdentifier : jsstring) : result Fingerprint :=
  pair ← computeFingerprintPair bytesToHex localIdentityKey remoteIdentityKey localIdentifier remoteIdentifier;
  d ← new_DisplayableFingerprint (List.filter (fun c => negb (c =? 0x20)) (displayable pair));
  s ← new_ScannableFingerprint (scannable (localFingerprint pair)) (scannable (remoteFingerprint pair)) FINGERPRINT_VERSION;
  Ok {| f_displayable := d; f_scannable := s |}.

(** ** The functions of [index.ts] *)
Record SafetyNumber := { numeric : jsstring; emojis : jsstring; sn_hex : jsstring; sn_qrData : bytes; sn_scannable : ScannableFingerprint }.

Definition safety_number_of (version : Z) (pair : FingerprintPair) : result SafetyNumber :=
  s ← new_ScannableFingerprint (scannable (localFingerprint pair)) (scannable (remoteFingerprint pair)) version;
  qr ← toBuffer s;
  Ok {| numeric := displayable pair; emojis := formatEmojis (generateEmojiFingerprint (full (firstFingerprint pair)));
        sn_hex := fp_hex pair; sn_qrData := qr; sn_scannable := s |}.

Definition generateCompositeSafetyNumber {S : Sha256} {S5 : Sha512} (bytesToHex : bytes -> jsstring) (localIdentity remoteIdentity : CompositeIdentityV1)
    (localIdentifier remoteIdentifier : jsstring) (identityType : IdentityType) : result SafetyNumber :=
  pair ← computeCompositeFingerprintPair bytesToHex localIdentity remoteIdentity localIdentifier remoteIdentifier identityType FINGERPRINT_ITERATIONS;
  safety_number_of COMPOSITE_FINGERPRINT_VERSION pair.

Definition isValidSafetyNumber (s : jsstring) : bool := let cleaned := normalized s in (len cleaned =? 60) && forallb is_digit cleaned.

(** ** The cache of single-key safety numbers *)
Definition CACHE_MAX_SIZE : Z := 50.
Definition CacheKey : Type := jsstring * bytes * jsstring * bytes.
Definition FingerprintCache : Type := Map CacheKey SafetyNumber.

Definition getCacheKey (localIdentityKey remoteIdentityKey : bytes) (localIdentifier remoteIdentifier : jsstring) : CacheKey :=
  (localIdentifier, localIdentityKey, remoteIdentifier, remoteIdentityKey).

Definition cacheGet (key : CacheKey) (cache : FingerprintCache) : option SafetyNumber * FingerprintCache :=
  match Map_get key cache with
  | Some value => (Some value, Map_set key value (Map_delete key cache))
  | None => (None, cache)
  end.

Definition cacheSet (key : CacheKey) (value : SafetyNumber) (cache : FingerprintCache) : FingerprintCache :=
  let cache := Map_delete key cache in
  let cache := if len cache >=? CACHE_MAX_SIZE then match cache with (oldestKey, _) :: _ => Map_delete oldestKey cache | [] => cache end else cache in
  Map_set key value cache.

Definition generateSingleKeyReferenceSafetyNumber {S : Sha512} (bytesToHex : bytes -> jsstring) (user1IdentityKey user2IdentityKey : bytes)
    (user1Identifier user2Identifier : jsstring) : M FingerprintCache SafetyNumber := fun cache =>
  let cacheKey := getCacheKey user1IdentityKey user2IdentityKey user1Identifier user2Identifier in
  match cacheGet cacheKey cache with
  | (Some cached, cache) => (cache, Ok cached)
  | (None, cache) =>
      match (pair ← computeFingerprintPair bytesToHex user1IdentityKey user2IdentityKey user1Identifier user2Identifier;
             safety_number_of FINGERPRINT_VERSION pair) with
      | Ok result => (cacheSet cacheKey result cache, Ok result)
      | Throw e => (cache, Throw e)
      end
  end.

(** ** Digits *)
Lemma is_digit_spec c : is_digit c = true <-> 0x30 <= c <= 0x39.
Proof. unfold is_digit. lia. Qed.

Lemma decimal_spec fuel : forall n, 0 <= n < 10 ^ Z.of_nat fuel -> len (decimal fuel n) <= Z.of_nat fuel /\ forallb is_digit (decimal fuel n) = true.
Proof.
  induction fuel as [|fuel IH]; intros n Hn; cbn [decimal]; [done|]. case_if; b2p.
  - split; [len_lia|]. cbn. rewrite andb_true_r. apply is_digit_spec. lia.
  - rewrite Nat2Z.inj_succ, Z.pow_succ_r in Hn by lia. destruct (IH (n / 10)) as [H1 H2].
    { split; [apply Z.div_pos; lia|apply Z.div_lt_upper_bound; lia]. }
    pose proof (Z.mod_pos_bound n 10). split; [len_lia|]. rewrite forallb_app, H2. cbn. rewrite andb_true_r. apply is_digit_spec. lia.
Qed.

Lemma five_digits_spec num : len (five_digits num) = 5 /\ forallb is_digit (five_digits num) = true.
Proof.
  unfold five_digits, padStart. pose proof (Z.mod_pos_bound num 100000). destruct (decimal_spec 5 (num mod 100000)) as [H1 H2]; [cbn; lia|].
  rewrite forallb_app, H2, andb_true_r. split; [rewrite len_app; unfold len at 1; rewrite length_replicate; lia|].
  apply forallb_forall. intros c Hc. apply repeat_spec in Hc || (apply list_elem_of_In, elem_of_replicate in Hc as [-> _]). done.
Qed.

Lemma numeric_loop_spec hash n rounds : forall i result, len result = n - 5 * Z.of_nat rounds -> forallb is_digit result = true ->
  len (numeric_loop rounds i n hash result) = n /\ forallb is_digit (numeric_loop rounds i n hash result) = true.
Proof.
  induction rounds as [|rounds IH]; intros i result Hl Hd; cbn [numeric_loop]; [split; [lia|done]|].
  replace (_ <? _) with true by lia. destruct (five_digits_spec (bytesToNumber (slice hash (i * 5) (i * 5 + 5)))) as [H1 H2].
  apply IH; [rewrite len_app; lia|by rewrite forallb_app, Hd, H2].
Qed.

Lemma thirty_digits hash : len (generateNumericFromFingerprint hash 30) = 30 /\ forallb is_digit (generateNumericFromFingerprint hash 30) = true.
Proof.
  unfold generateNumericFromFingerprint. change (Z.to_nat ((30 + 4) / 5)) with 6%nat. destruct (numeric_loop_spec hash 30 6 0 []) as [H1 H2]; [done|done|].
  set (d := numeric_loop _ _ _ _ _) in *. assert (E : slice d 0 30 = d); [|by rewrite E].
  unfold slice. change (Z.to_nat 0) with 0%nat. rewrite drop_0. apply take_ge. unfold len in H1. lia.
Qed.

Lemma digit_plain c : is_digit c = true -> white_space c = false /\ line_terminator c = false.
Proof. rewrite is_digit_spec. unfold white_space, line_terminator. split; lia. Qed.

Lemma normalized_app s t : normalized (s ++ t) = normalized s ++ normalized t.
Proof. apply filter_app. Qed.

Lemma normalized_join g gs : normalized (join_spaces (g :: gs)) = normalized g ++ normalized (join_spaces gs).
Proof.
  destruct gs as [|h gs]; [cbn [join_spaces]; by rewrite app_nil_r|]. change (join_spaces (g :: h :: gs)) with (g ++ 0x20 :: join_spaces (h :: gs)).
  by rewrite normalized_app.
Qed.

Lemma normalized_digits s : forallb is_digit s = true -> normalized s = s.
Proof.
  intros H. apply normalized_id, Forall_forall. intros c Hc. apply list_elem_of_In in Hc. rewrite forallb_forall in H. by apply digit_plain, H.
Qed.

Lemma match_fives_digits s : forall current, forallb is_digit (current ++ s) = true -> normalized (join_spaces (match_fives current s)) = current ++ s.
Proof.
  induction s as [|c s IH]; intros current H; cbn [match_fives].
  - rewrite app_nil_r in *. destruct current as [|x current]; [done|]. cbn [join_spaces]. by apply normalized_digits.
  - assert (Hc : is_digit c = true) by (rewrite forallb_app in H; cbn in H; b2p; done). destruct (digit_plain c Hc) as [_ ->].
    replace (current ++ c :: s) with ((current ++ [c]) ++ s) in * by (by rewrite <- app_assoc). case_if.
    + rewrite normalized_join. rewrite forallb_app in H. apply andb_true_iff in H as [H1 H2]. rewrite (IH []) by done. by rewrite normalized_digits.
    + by apply IH.
Qed.

Lemma formatNumeric_digits s : forallb is_digit s = true -> normalized (formatNumeric s) = s.
Proof.
  intros H. pose proof (match_fives_digits s [] H) as E. unfold formatNumeric. destruct (join_spaces _) as [|c t]; [by apply normalized_digits|done].
Qed.

(** ** The order of the two parties *)
Lemma compareBytes_flip a : forall b, compareBytes b a = - compareBytes a b.
Proof.
  induction a as [|x a IH]; intros [|y b]; cbn [compareBytes]; try lia. rewrite IH. replace (y - x =? 0) with (x - y =? 0) by lia. case_if; lia.
Qed.

Lemma compareBytes_eq a : forall b, compareBytes a b = 0 -> a = b.
Proof.
  induction a as [|x a IH]; intros [|y b]; cbn [compareBytes]; try len_lia; [done|]. case_if; b2p; [|lia]. intros E. f_equal; [lia|by apply IH].
Qed.

Lemma order_symmetric hex g h : let p := orderFingerprintPair hex (fingerprint_of g) (fingerprint_of h) in let q := orderFingerprintPair hex (fingerprint_of h) (fingerprint_of g) in
  displayable p = displayable q /\ fp_hex p = fp_hex q /\ firstFingerprint p = firstFingerprint q.
Proof.
  cbv zeta. unfold orderFingerprintPair. cbn [fingerprint_of full displayable fp_hex firstFingerprint].
  set (dg := generateNumericFromFingerprint g 30). set (dh := generateNumericFromFingerprint h 30).
  rewrite (compareBytes_flip (utf8Encode dg) (utf8Encode dh)), (compareBytes_flip g h).
  set (o := compareBytes (utf8Encode dg) _). set (o' := compareBytes g h).
  destruct (Z.eqb_spec o 0) as [E|E], (Z.eqb_spec (- o) 0) as [E2|E2]; try lia.
  - destruct (Z.eq_dec o' 0) as [E'|E']; [apply compareBytes_eq in E' as <-; subst dh; by destruct (_ <=? 0), (- _ <=? 0)|]. destruct (Z.leb_spec o' 0), (Z.leb_spec (- o') 0); try lia; done.
  - destruct (Z.leb_spec o 0), (Z.leb_spec (- o) 0); try lia; done.
Qed.

Lemma order_valid hex g h : isValidSafetyNumber (displayable (orderFingerprintPair hex (fingerprint_of g) (fingerprint_of h))) = true.
Proof.
  destruct (thirty_digits g) as [Lg Dg], (thirty_digits h) as [Lh Dh]. unfold isValidSafetyNumber, orderFingerprintPair. cbn [displayable fingerprint_of full].
  set (first := (_ <=? 0)). destruct first; rewrite formatNumeric_digits by (rewrite forallb_app; by apply andb_true_iff); rewrite len_app, forallb_app, Lg, Lh, Dg, Dh; done.
Qed.

(** ** The scanned code *)

#[local] Arguments varint : simpl never.

Lemma decode_tag pre f rest : 1 <= fnum f < 2 ^ 28 -> exists tag, decodeVarint (pre ++ encode_field f ++ rest) (len pre) = Ok (tag, len (varint 9 (wtag f))) /\
  js_ushr tag 3 = fnum f /\ js_and tag 0x7 = wtype f.
Proof.
  intros Hf. pose proof (wtype_range f) as Hw. exists (wtag f). unfold encode_field, wtag. rewrite <- app_assoc, decodeVarint_varint by lia.
  rewrite js_ushr_div by lia. change 0x7 with (Z.ones 3). rewrite js_and_small by lia. change (2 ^ 3) with 8.
  rewrite (Z.mul_comm 8), Z.div_add_l, Z.div_small, Z.add_0_r, Z.add_comm, Z.mod_add, Z.mod_small by lia. done.
Qed.

(** A length-delimited value after its tag. *)
Lemma decode_payload pre n d rest : len d < 2 ^ 32 ->
  decodeVarint (pre ++ payload (WBytes n d) ++ rest) (len pre) = Ok (len d, len (varint 9 (len d))) /\
  slice (pre ++ payload (WBytes n d) ++ rest) (len pre + len (varint 9 (len d))) (len pre + len (varint 9 (len d)) + len d) = d.
Proof.
  intros Hd. cbn [payload]. split; [rewrite <- app_assoc; apply decodeVarint_varint; len_lia|].
  rewrite <- app_assoc, app_assoc. rewrite <- len_app. apply slice_app.
Qed.

Lemma decode_logical d : len d < 2 ^ 28 -> decodeLogicalFingerprint (encode_field (WBytes 1 d)) = Ok d.
Proof.
  intros Hd. unfold decodeLogicalFingerprint. destruct (decode_tag [] (WBytes 1 d) []) as (tag & Et & En & Ew); [cbn; lia|].
  cbn [app] in Et. rewrite app_nil_r in Et. change (len []) with 0 in Et. rewrite Et. cbn [mbind result_bind]. rewrite En, Ew. cbn [fnum wtype Z.eqb negb orb throw_when mbind result_bind].
  destruct (decode_payload (varint 9 (wtag (WBytes 1 d))) 1 d []) as [E1 E2]; [lia|]. rewrite app_nil_r in E1, E2. unfold encode_field.
  rewrite E1. cbn [mbind result_bind]. rewrite E2, Z.eqb_refl. done.
Qed.

Lemma read_fingerprint_at pre n d rest : len d < 2 ^ 20 ->
  read_fingerprint (pre ++ payload (WBytes n (encode_field (WBytes 1 d))) ++ rest) WIRE_TYPE_LENGTH_DELIMITED (len pre) =
  Ok (d, len (pre ++ payload (WBytes n (encode_field (WBytes 1 d))))).
Proof.
  intros Hd. unfold read_fingerprint. assert (Hl : len (encode_field (WBytes 1 d)) < 2 ^ 32).
  { unfold encode_field, payload. rewrite !len_app. pose proof (varint_length 9 (wtag (WBytes 1 d))). pose proof (varint_length 9 (len d)). unfold len in *. lia. }
  destruct (decode_payload pre n (encode_field (WBytes 1 d)) rest Hl) as [E1 E2]. rewrite E1. cbn [Z.eqb negb throw_when mbind result_bind WIRE_TYPE_LENGTH_DELIMITED Pos.eqb].
  rewrite E2, decode_logical by lia. cbn [mbind result_bind]. do 2 f_equal. cbn [payload]. rewrite !len_app. lia.
Qed.

Lemma combined_round fuel data pre f rest l : data = pre ++ encode_field f ++ rest -> 1 <= fnum f < 2 ^ 28 ->
  decode_combined (S fuel) data (len pre) l =
  let offset := len (pre ++ varint 9 (wtag f)) in
  if fnum f =? 1 then
    throw_when (negb (wtype f =? WIRE_TYPE_VARINT)) (Error "Invalid wire type for version") ;;
    '(v, vBytes) ← decodeVarint data offset;
    decode_combined fuel data (offset + vBytes) {| cl_version := Some v; cl_local := cl_local l; cl_remote := cl_remote l |}
  else if fnum f =? 2 then
    '(content, offset) ← read_fingerprint data (wtype f) offset;
    decode_combined fuel data offset {| cl_version := cl_version l; cl_local := Some content; cl_remote := cl_remote l |}
  else if fnum f =? 3 then
    '(content, offset) ← read_fingerprint data (wtype f) offset;
    decode_combined fuel data offset {| cl_version := cl_version l; cl_local := cl_local l; cl_remote := Some content |}
  else
    offset ← skipUnknownField (wtype f) data offset;
    decode_combined fuel data offset l.
Proof.
  intros -> Hf. destruct (decode_tag pre f rest Hf) as (tag & Et & En & Ew). cbn [decode_combined].
  assert (Hv : 1 <= len (varint 9 (wtag f))) by (pose proof (varint_length 9 (wtag f)); unfold len; lia).
  replace (_ <? _) with true by (unfold encode_field; rewrite !len_app; len_pos; lia).
  rewrite Et. cbn [mbind result_bind]. by rewrite En, Ew, len_app.
Qed.

Definition scan_bytes (v : Z) (a b : bytes) : bytes :=
  encode_field (WVarint 1 v) ++ encode_field (WBytes 2 (encode_field (WBytes 1 a))) ++ encode_field (WBytes 3 (encode_field (WBytes 1 b))).

Lemma fingerprint_round fuel data pre n d rest l : data = pre ++ encode_field (WBytes n (encode_field (WBytes 1 d))) ++ rest -> n = 2 \/ n = 3 -> len d < 2 ^ 20 ->
  decode_combined (S fuel) data (len pre) l =
  decode_combined fuel data (len (pre ++ encode_field (WBytes n (encode_field (WBytes 1 d)))))
    {| cl_version := cl_version l; cl_local := if n =? 2 then Some d else cl_local l; cl_remote := if n =? 2 then cl_remote l else Some d |}.
Proof.
  intros Hd Hn Hl. rewrite (combined_round fuel data pre _ rest l Hd) by (cbn [fnum]; lia). cbn zeta. cbn [fnum wtype].
  assert (E : data = (pre ++ varint 9 (wtag (WBytes n (encode_field (WBytes 1 d))))) ++ payload (WBytes n (encode_field (WBytes 1 d))) ++ rest).
  { rewrite Hd. unfold encode_field at 1. by rewrite <- !app_assoc. }
  pose proof (read_fingerprint_at (pre ++ varint 9 (wtag (WBytes n (encode_field (WBytes 1 d))))) n d rest Hl) as R. rewrite <- E in R. rewrite R.
  cbn [mbind result_bind]. rewrite <- app_assoc. change (varint 9 _ ++ payload _) with (encode_field (WBytes n (encode_field (WBytes 1 d)))).
  by destruct Hn as [-> | ->].
Qed.

Lemma version_round fuel data v rest l : data = encode_field (WVarint 1 v) ++ rest -> 0 <= v < 2 ^ 32 ->
  decode_combined (S fuel) data 0 l =
  decode_combined fuel data (len (encode_field (WVarint 1 v))) {| cl_version := Some v; cl_local := cl_local l; cl_remote := cl_remote l |}.
Proof.
  intros Hd Hv. change 0 with (@len Z []) at 1. rewrite (combined_round fuel data [] (WVarint 1 v) rest l Hd) by (cbn [fnum]; lia). cbn zeta. cbn [fnum wtype app].
  pose proof (decodeVarint_varint (varint 9 (wtag (WVarint 1 v))) v rest Hv) as D.
  replace (_ ++ _) with data in D by (rewrite Hd; unfold encode_field; by rewrite <- app_assoc).
  change (1 =? 1) with true. cbn match. rewrite D. unfold encode_field. cbn [payload]. by rewrite len_app.
Qed.

Lemma combined_end fuel data l : decode_combined fuel data (len data) l = Ok l.
Proof. destruct fuel; [done|]. cbn [decode_combined]. by rewrite Z.ltb_irrefl. Qed.

Lemma scan_rounds fuel v a b : 0 <= v < 2 ^ 32 -> len a < 2 ^ 20 -> len b < 2 ^ 20 ->
  decode_combined (S (S (S fuel))) (scan_bytes v a b) 0 {| cl_version := None; cl_local := None; cl_remote := None |} =
  Ok {| cl_version := Some v; cl_local := Some a; cl_remote := Some b |}.
Proof.
  intros Hv Ha Hb. assert (E : scan_bytes v a b = scan_bytes v a b) by done. unfold scan_bytes in E at 2. revert E. generalize (scan_bytes v a b) as data.
  set (F1 := encode_field (WVarint 1 v)). intros data E. rewrite (version_round _ data v _ _ E Hv).
  rewrite (fingerprint_round _ data _ 2 a _ _ E) by auto. rewrite app_assoc in E.
  rewrite (fingerprint_round _ data (F1 ++ encode_field (WBytes 2 (encode_field (WBytes 1 a)))) 3 b []); [|by rewrite app_nil_r|auto|done].
  rewrite <- E. apply combined_end.
Qed.

Lemma decode_scan v a b : 0 <= v < 2 ^ 32 -> len a < 2 ^ 20 -> len b < 2 ^ 20 ->
  decodeCombinedFingerprints (scan_bytes v a b) = Ok {| cf_version := v; cf_local := a; cf_remote := b |}.
Proof.
  intros Hv Ha Hb. unfold decodeCombinedFingerprints. assert (L : (3 <= length (scan_bytes v a b))%nat).
  { unfold scan_bytes, encode_field. rewrite !length_app. pose proof (varint_length 9 (wtag (WVarint 1 v))). pose proof (varint_length 9 (wtag (WBytes 2 (varint 9 (wtag (WBytes 1 a)) ++ payload (WBytes 1 a))))).
    pose proof (varint_length 9 (wtag (WBytes 3 (varint 9 (wtag (WBytes 1 b)) ++ payload (WBytes 1 b))))). lia. }
  destruct (length (scan_bytes v a b)) as [|[|[|fuel]]]; try lia. by rewrite scan_rounds.
Qed.

Lemma length_field n d : len (encode_field (WBytes n d)) <= len d + 20.
Proof.
  unfold encode_field, payload. rewrite !len_app. pose proof (varint_length 9 (wtag (WBytes n d))). pose proof (varint_length 9 (len d)). unfold len in *. lia.
Qed.

Lemma encode_fingerprint_field n d : 0 <= n < 2 ^ 28 -> len d = 32 ->
  (l ← encodeLogicalFingerprint d; encodeBytesField n l) = Ok (encode_field (WBytes n (encode_field (WBytes 1 d)))).
Proof.
  intros Hn Hd. unfold encodeLogicalFingerprint. rewrite (encodeBytesField_ok 1 d) by lia. apply encodeBytesField_ok; [done|]. pose proof (length_field 1 d). lia.
Qed.

Lemma toBuffer_ok f : 0 <= sf_version f < 2 ^ 32 -> len (sf_local f) = 32 -> len (sf_remote f) = 32 -> toBuffer f = Ok (scan_bytes (sf_version f) (sf_local f) (sf_remote f)).
Proof.
  intros Hv Hl Hr. unfold toBuffer, encodeCombinedFingerprints. cbn [cf_version cf_local cf_remote].
  pose proof (encodeUint32Field_ok 1 (sf_version f) ltac:(lia) Hv) as E1. pose proof (encode_fingerprint_field 2 _ ltac:(lia) Hl) as E2.
  pose proof (encode_fingerprint_field 3 _ ltac:(lia) Hr) as E3. apply bind_Ok in E2 as (l & El & E2), E3 as (r & Er & E3).
  rewrite E1, El, Er. cbn [mbind result_bind]. rewrite E2, E3. cbn [mbind result_bind]. f_equal. unfold concatFields, scan_bytes. cbn [concat]. by rewrite app_nil_r.
Qed.

(** A scan compares the two fingerprints crosswise. *)
Lemma compareWith_spec f g : 0 <= sf_version f < 2 ^ 32 -> sf_version g = sf_version f -> len (sf_local g) = 32 -> len (sf_remote g) = 32 ->
  is_bytes (sf_local f) -> is_bytes (sf_remote f) -> is_bytes (sf_local g) -> is_bytes (sf_remote g) ->
  compareWith f g = Ok (if decide (sf_local g = sf_remote f /\ sf_remote g = sf_local f) then scan_match else scan_no_match).
Proof.
  intros Hv E Hl Hr B1 B2 B3 B4. unfold compareWith. rewrite toBuffer_ok by lia. cbn [mbind result_bind]. unfold compare_scanned. rewrite decode_scan by lia.
  cbn [cf_version cf_local cf_remote]. rewrite E, Z.eqb_refl, !constantTimeEqual_spec by done. cbn [negb]. f_equal.
  destruct (decide _) as [[H1 H2]|Hn]; [by rewrite !bool_decide_true|]. do 2 case_bool_decide; tauto.
Qed.

(** ** Both parties *)
Section SafetyNumbers.
Context {S : Sha256} {S5 : Sha512} {L5 : Sha512Laws S5} (bytesToHex : bytes -> jsstring).

Lemma iterate_hash_out iterations suffix hash : 0 < iterations -> exists m, iterate_hash iterations suffix hash = sha512Sync m.
Proof. intros Hi. unfold iterate_hash. destruct (Z.to_nat iterations) as [|n] eqn:E; [lia|]. cbn [Nat.iter]. by eexists. Qed.

(** A fingerprint of at least one round has 64 bytes, of which 32 are scanned. *)
Definition proper_hash (h : bytes) : Prop := is_bytes h /\ length h = 64%nat.

Lemma scannable_spec h : proper_hash h -> is_bytes (scannable (fingerprint_of h)) /\ len (scannable (fingerprint_of h)) = 32.
Proof.
  intros [Hb Hl]. unfold fingerprint_of, slice, len. cbn [scannable]. change (Z.to_nat 0) with 0%nat. rewrite drop_0, length_take, Hl. split; [by apply Forall_take|done].
Qed.

Lemma utf8_nonempty_any s : s <> [] -> len (utf8Encode s) <> 0.
Proof.
  destruct s as [|u s]; [done|]. intros _. assert (E : exists c cs, code_points (u :: s) = c :: cs).
  { cbn [code_points]. destruct (high_surrogate u); [destruct s as [|v s]; [by eexists _, _|destruct (low_surrogate v); by eexists _, _]|]. destruct (low_surrogate u); by eexists _, _. }
  destruct E as (c & cs & E). unfold utf8Encode. rewrite E. cbn [map concat]. unfold encode_point. repeat case_if; cbn [app]; rewrite len_cons; len_pos; lia.
Qed.

Lemma composite_fingerprint_ok identity userId ty iterations : ci_wf identity -> userId <> [] -> 0 < iterations ->
  exists h, proper_hash h /\ computeCompositeIndividualFingerprint identity userId ty iterations = Ok (fingerprint_of h).
Proof.
  intros Hi Hu Hn. unfold computeCompositeIndividualFingerprint, deriveIdentityCommitment, encodeCompositeSafetyIdentifier. rewrite encode_identity by done.
  cbn [mbind result_bind]. replace (len (utf8Encode userId) =? 0) with false by (symmetry; apply Z.eqb_neq; by apply utf8_nonempty_any). cbn [throw_when mbind result_bind].
  edestruct iterate_hash_out as [m E]; [exact Hn|]. rewrite E. exists (sha512Sync m). split; [|done]. split; [apply sha512_bytes|apply sha512_length].
Qed.

Lemma safety_number_ok version g h : 0 <= version < 2 ^ 32 -> proper_hash g -> proper_hash h ->
  let pair := orderFingerprintPair bytesToHex (fingerprint_of g) (fingerprint_of h) in
  let f := {| sf_local := scannable (fingerprint_of g); sf_remote := scannable (fingerprint_of h); sf_version := version |} in
  safety_number_of version pair = Ok {| numeric := displayable pair; emojis := formatEmojis (generateEmojiFingerprint (full (firstFingerprint pair)));
    sn_hex := fp_hex pair; sn_qrData := scan_bytes version (sf_local f) (sf_remote f); sn_scannable := f |}.
Proof.
  intros Hv Hg Hh pair f. apply scannable_spec in Hg as [_ Lg], Hh as [_ Lh]. unfold safety_number_of, new_ScannableFingerprint.
  change (localFingerprint pair) with (fingerprint_of g). change (remoteFingerprint pair) with (fingerprint_of h). unfold SCANNABLE_FINGERPRINT_BYTES. rewrite Lg, Lh.
  cbn [Z.eqb Pos.eqb negb throw_when mbind result_bind]. fold f. rewrite toBuffer_ok by done. done.
Qed.

(** C21: Safety numbers.  Two users each compute the safety number from the own
    identity and the identity they believe the other has.  Both computations
    succeed; the number is 60 digits; and a scan of the other's code matches
    exactly when for each user the other believes in an identity with the same
    fingerprint.  If both beliefs are true the two users see the same number,
    the same emojis and the same hex text, and the scan matches. *)
Theorem safety_numbers_agree alice bob alice_seen bob_seen a b ty : ci_wf alice -> ci_wf bob -> ci_wf alice_seen -> ci_wf bob_seen -> a <> [] -> b <> [] ->
  let fingerprint identity userId := scannable <$> computeCompositeIndividualFingerprint identity userId ty FINGERPRINT_ITERATIONS in
  exists sa sb, generateCompositeSafetyNumber bytesToHex alice bob_seen a b ty = Ok sa /\ generateCompositeSafetyNumber bytesToHex bob alice_seen b a ty = Ok sb /\
    isValidSafetyNumber (numeric sa) = true /\
    compareWith (sn_scannable sa) (sn_scannable sb) =
      Ok (if decide (fingerprint bob b = fingerprint bob_seen b /\ fingerprint alice_seen a = fingerprint alice a) then scan_match else scan_no_match) /\
    (alice_seen = alice -> bob_seen = bob ->
     numeric sa = numeric sb /\ emojis sa = emojis sb /\ sn_hex sa = sn_hex sb /\ compareWith (sn_scannable sa) (sn_scannable sb) = Ok scan_match).
Proof.
  intros Ha Hb Has Hbs Na Nb fingerprint. assert (Hit : 0 < FINGERPRINT_ITERATIONS) by done.
  destruct (composite_fingerprint_ok alice a ty _ Ha Na Hit) as (ga & Pa & Ea), (composite_fingerprint_ok bob b ty _ Hb Nb Hit) as (gb & Pb & Eb),
    (composite_fingerprint_ok alice_seen a ty _ Has Na Hit) as (gas & Pas & Eas), (composite_fingerprint_ok bob_seen b ty _ Hbs Nb Hit) as (gbs & Pbs & Ebs).
  unfold generateCompositeSafetyNumber, computeCompositeFingerprintPair. subst fingerprint. cbv beta. revert Ea Eb Eas Ebs. generalize FINGERPRINT_ITERATIONS as n. intros n Ea Eb Eas Ebs.
  rewrite Ea, Eb, Eas, Ebs. cbn [mbind result_bind fmap result_fmap]. rewrite !safety_number_ok by done. do 2 eexists. split; [reflexivity|]. split; [reflexivity|].
  cbn [numeric emojis sn_hex sn_scannable]. split; [apply order_valid|]. destruct (scannable_spec _ Pa), (scannable_spec _ Pb), (scannable_spec _ Pas), (scannable_spec _ Pbs).
  assert (C : forall P : Prop, (P <-> scannable (fingerprint_of gb) = scannable (fingerprint_of gbs) /\ scannable (fingerprint_of gas) = scannable (fingerprint_of ga)) -> forall d : Decision P,
    compareWith {| sf_local := scannable (fingerprint_of ga); sf_remote := scannable (fingerprint_of gbs); sf_version := COMPOSITE_FINGERPRINT_VERSION |}
      {| sf_local := scannable (fingerprint_of gb); sf_remote := scannable (fingerprint_of gas); sf_version := COMPOSITE_FINGERPRINT_VERSION |} =
    Ok (if d then scan_match else scan_no_match)).
  { intros P HP d. rewrite compareWith_spec by done. cbn [sf_local sf_remote]. destruct (decide _), d; tauto. }
  split; [apply C; split; intros [X Y]; split; congruence|]. intros -> ->. rewrite Ea in Eas. rewrite Eb in Ebs. injection Eas as Eas. injection Ebs as Ebs.
  destruct (order_symmetric bytesToHex ga gb) as (E1 & E2 & E3).
  assert (gas = ga) as -> by congruence. assert (gbs = gb) as -> by congruence. rewrite E1, E2, E3. do 3 (split; [done|]). by apply (C True (conj (fun _ => conj eq_refl eq_refl) (fun _ => I)) (left I)).
Qed.
End SafetyNumbers.

(** ** The cache *)
Section FingerprintCache.
Context {S5 : Sha512} (bytesToHex : bytes -> jsstring).

(** The safety number without the cache. *)
Definition computed (key : CacheKey) : result SafetyNumber :=
  let '(id1, key1, id2, key2) := key in
  pair ← computeFingerprintPair bytesToHex key1 key2 id1 id2; safety_number_of FINGERPRINT_VERSION pair.

Fixpoint generate_all (keys : list CacheKey) (cache : FingerprintCache) : list (result SafetyNumber) * FingerprintCache :=
  match keys with
  | [] => ([], cache)
  | (id1, key1, id2, key2) :: keys =>
      let '(cache, r) := generateSingleKeyReferenceSafetyNumber bytesToHex key1 key2 id1 id2 cache in
      let '(rs, cache) := generate_all keys cache in (r :: rs, cache)
  end.

(** The distinct keys in the order of their last use. *)
Fixpoint last_used (h : list CacheKey) : list CacheKey :=
  match h with [] => [] | k :: h => if decide (k ∈ h) then last_used h else k :: last_used h end.

Lemma last_used_snoc h k : last_used (h ++ [k]) = filter (fun x => x <> k) (last_used h) ++ [k].
Proof.
  induction h as [|x h IH]; [done|]. cbn [last_used app]. destruct (decide (x = k)) as [->|Hne].
  - rewrite decide_True, IH by (apply elem_of_app; right; left). f_equal. case_decide; [done|]. by rewrite filter_cons_False by auto.
  - destruct (decide (x ∈ h)); [rewrite decide_True by (apply elem_of_app; by left); done|]. rewrite decide_False, IH.
    + by rewrite filter_cons_True.
    + rewrite elem_of_app, list_elem_of_singleton. tauto.
Qed.

Lemma last_used_NoDup h : NoDup (last_used h) /\ forall k, k ∈ last_used h <-> k ∈ h.
Proof.
  induction h as [|k h [IH1 IH2]]; [split; [constructor|done]|]. cbn [last_used]. case_decide as Hk.
  - split; [done|]. intros x. rewrite IH2, elem_of_cons. split; [auto|]. by intros [->|].
  - split; [constructor; [by rewrite IH2|done]|]. intros x. by rewrite !elem_of_cons, IH2.
Qed.

Record cache_ok (h : list CacheKey) (cache : FingerprintCache) : Prop := {
  ok_values : forall k v, (k, v) ∈ cache -> computed k = Ok v;
  ok_recent : exists older, last_used h = older ++ cache.*1 /\ len cache <= CACHE_MAX_SIZE /\ (older <> [] -> len cache = CACHE_MAX_SIZE) }.

Lemma delete_keys k (cache : FingerprintCache) : (Map_delete k cache).*1 = filter (fun x => x <> k) cache.*1.
Proof.
  unfold Map_delete. induction cache as [|[x v] cache IH]; [done|]. rewrite fmap_cons, !filter_cons. cbn [fst]. case_decide; cbn [fmap list_fmap fst]; by rewrite <- IH.
Qed.

Lemma filter_absent (k : CacheKey) (l : list CacheKey) : k ∉ l -> filter (fun x => x <> k) l = l.
Proof.
  induction l as [|x l IH]; [done|]. intros H. rewrite not_elem_of_cons in H. destruct H. rewrite filter_cons_True by auto. by rewrite IH.
Qed.

Lemma set_absent k v (cache : FingerprintCache) : k ∉ cache.*1 -> Map_set k v cache = cache ++ [(k, v)].
Proof. induction cache as [|[x w] cache IH]; [done|]. cbn. rewrite not_elem_of_cons. intros [Hx Hk]. rewrite decide_False by done. by rewrite IH. Qed.

Lemma delete_absent k (cache : FingerprintCache) : k ∉ cache.*1 -> Map_delete k cache = cache.
Proof.
  unfold Map_delete. induction cache as [|[x w] cache IH]; [done|]. cbn [fmap list_fmap fst]. rewrite not_elem_of_cons. intros [Hx Hk].
  rewrite filter_cons_True by (cbn; auto). f_equal. by apply IH.
Qed.

Lemma length_cache_keys (cache : FingerprintCache) : len cache.*1 = len cache.
Proof. unfold len. by rewrite length_fmap. Qed.

Lemma filter_present (k : CacheKey) (l : list CacheKey) : NoDup l -> k ∈ l -> len (filter (fun x => x <> k) l) + 1 = len l.
Proof.
  induction l as [|x l IH]; intros Hd Hk; [by apply not_elem_of_nil in Hk|]. apply NoDup_cons in Hd as [Hx Hd]. destruct (decide (x = k)) as [->|Hne].
  - rewrite filter_cons_False, filter_absent, len_cons by auto. lia.
  - rewrite filter_cons_True, !len_cons by done. apply elem_of_cons in Hk as [->|Hk]; [done|]. rewrite <- (IH Hd Hk). lia.
Qed.

(** A hit moves the key to the end. *)
Lemma hit_ok h k v (cache : FingerprintCache) : cache_ok h cache -> Map_get k cache = Some v -> cache_ok (h ++ [k]) (Map_set k v (Map_delete k cache)).
Proof.
  intros [Hv (older & E & Hl & Hf)] Hk. destruct (last_used_NoDup h) as [Hd _]. rewrite E in Hd. apply NoDup_app in Hd as (Hd1 & Hd2 & Hd3).
  assert (Hin : k ∈ cache.*1) by (apply Map_get_In in Hk; apply list_elem_of_fmap; by exists (k, v)).
  rewrite set_absent by (rewrite delete_keys, list_elem_of_filter; tauto). split.
  - intros x w Hx. apply elem_of_app in Hx as [Hx|Hx]; [apply Hv; unfold Map_delete in Hx; by apply list_elem_of_filter in Hx as [_ ?]|].
    apply list_elem_of_singleton in Hx as [= -> ->]. by apply Hv, Map_get_In.
  - exists older. rewrite last_used_snoc, E, filter_app, fmap_app, delete_keys. cbn. rewrite (filter_absent k older) by (intros Ho; by apply (Hd2 k Ho)).
    rewrite <- app_assoc. split; [done|]. pose proof (filter_present k _ Hd3 Hin) as Hn. rewrite <- delete_keys, !length_cache_keys in Hn. rewrite len_app. change (len [(k, v)]) with 1. split; [lia|]. intros Ho. specialize (Hf Ho). lia.
Qed.

(** A miss evicts the least recently used entry when the cache is full. *)
Lemma miss_ok h k v (cache : FingerprintCache) : cache_ok h cache -> Map_get k cache = None -> computed k = Ok v -> cache_ok (h ++ [k]) (cacheSet k v cache).
Proof.
  intros [Hv (older & E & Hl & Hf)] Hk Hc. apply Map_get_None in Hk. destruct (last_used_NoDup h) as [Hd _]. rewrite E in Hd. apply NoDup_app in Hd as (Hd1 & Hd2 & Hd3).
  unfold cacheSet.
  rewrite delete_absent by done. set (rest := if _ >=? _ then _ else _).
  assert (R : exists first, cache.*1 = first ++ rest.*1 /\ len rest = Z.min (len cache) (CACHE_MAX_SIZE - 1) /\ (forall x, x ∈ rest -> x ∈ cache) /\ (len cache < CACHE_MAX_SIZE -> first = [])).
  { subst rest. case_if; b2p; [|exists []; split; [done|split; [lia|auto]]]. destruct cache as [|[x w] cache]; [unfold CACHE_MAX_SIZE, len in *; cbn [length] in *; lia|]. exists [x].
    assert (Ex : Map_delete x ((x, w) :: cache) = cache).
    { unfold Map_delete. rewrite filter_cons_False by (cbn; tauto). apply delete_absent. by apply NoDup_cons in Hd3 as [Hx _]. }
    rewrite Ex. rewrite len_cons in *. split; [done|]. split; [lia|]. split; [intros y Hy; by right|lia]. }
  clearbody rest. destruct R as (first & Ef & Hn & Hin & He). rewrite Ef in Hk. rewrite not_elem_of_app in Hk. destruct Hk as [Hk1 Hk2]. rewrite set_absent by done. split.
  - intros x w Hx. apply elem_of_app in Hx as [Hx|Hx]; [by apply Hv, Hin|]. by apply list_elem_of_singleton in Hx as [= -> ->].
  - exists (filter (fun x => x <> k) older ++ first). rewrite last_used_snoc, E, filter_app, Ef, filter_app, (filter_absent k first), (filter_absent k rest.*1), fmap_app, !app_assoc by done.
    split; [done|]. rewrite len_app. change (len [(k, v)]) with 1. split; [lia|]. intros Hne. destruct (decide (len cache < CACHE_MAX_SIZE)) as [Hlt|]; [|lia].
    rewrite (He Hlt), app_nil_r in Hne. destruct older; [done|]. assert (len cache = CACHE_MAX_SIZE) by by apply Hf. lia.
Qed.

Definition kept (key : CacheKey) : bool := is_ok (computed key).

Lemma generate_all_ok keys : forall h cache, cache_ok h cache ->
  (generate_all keys cache).1 = map computed keys /\ cache_ok (h ++ List.filter kept keys) (generate_all keys cache).2.
Proof.
  induction keys as [|[[[id1 key1] id2] key2] keys IH]; intros h cache H; [by rewrite app_nil_r|]. cbn [generate_all map List.filter].
  unfold generateSingleKeyReferenceSafetyNumber, getCacheKey, cacheGet, kept. set (k := ((id1, key1, id2, key2) : CacheKey)).
  change (pair ← computeFingerprintPair bytesToHex key1 key2 id1 id2; safety_number_of FINGERPRINT_VERSION pair) with (computed k).
  destruct (Map_get k cache) as [v|] eqn:Hk.
  - assert (Ec : computed k = Ok v) by (by apply (ok_values _ _ H), Map_get_In). rewrite Ec. cbn [is_ok]. pose proof (hit_ok h k v cache H Hk) as H'.
    cbv beta iota zeta. destruct (IH _ _ H') as [IH1 IH2]. destruct (generate_all keys _) as [rs cache']. cbn [fst snd] in *. split; [by rewrite IH1|]. by rewrite <- app_assoc in IH2.
  - destruct (computed k) as [v|e] eqn:Ec; cbn [is_ok].
    + pose proof (miss_ok h k v cache H Hk Ec) as H'. cbv beta iota zeta. destruct (IH _ _ H') as [IH1 IH2]. destruct (generate_all keys _) as [rs cache']. cbn [fst snd] in *. split; [by rewrite IH1|]. by rewrite <- app_assoc in IH2.
    + cbv beta iota zeta. destruct (IH _ _ H) as [IH1 IH2]. destruct (generate_all keys _) as [rs cache']. cbn [fst snd] in *. split; [by rewrite IH1|done].
Qed.

(** C22: The cache of safety numbers is transparent and least-recently-used.
    Whatever calls are made, each returns what the computation without the
    cache gives, errors included; and the cache holds exactly the last 50
    distinct inputs of successful calls, in the order of their last use. *)
Theorem safety_cache_is_lru keys : let '(results, cache) := generate_all keys [] in
  results = map computed keys /\
  cache.*1 = drop (length (last_used (List.filter kept keys)) - Z.to_nat CACHE_MAX_SIZE) (last_used (List.filter kept keys)).
Proof.
  assert (H0 : cache_ok [] []). { split; [intros k v Hk; by apply not_elem_of_nil in Hk|]. exists []. split; [done|]. split; [by vm_compute|done]. }
  destruct (generate_all_ok keys [] [] H0) as [H1 [_ (older & E & Hl & Hf)]]. destruct (generate_all keys []) as [results cache]. cbn [fst snd app] in *.
  split; [done|]. rewrite E, length_app, length_fmap. unfold len in *. destruct older as [|x older].
  - replace (_ - _)%nat with 0%nat by (cbn [length app]; lia). done.
  - specialize (Hf ltac:(done)). symmetry. replace (_ - _)%nat with (length (x :: older)) by lia. apply drop_app_length.
Qed.
End FingerprintCache.

(** ** Concrete instances *)
#[export] Instance toy_sha512 : Sha512 := {| sha512Sync m := map (fun x => x mod 256) (take 64 (rev_append m (replicate 64 7))) |}.
#[export] Instance toy_sha512_laws : Sha512Laws toy_sha512.
Proof.
  split; intros m; cbn [sha512Sync toy_sha512].
  - rewrite length_map, length_take, rev_append_rev, length_app, length_replicate. lia.
  - apply Forall_forall. intros x Hx. apply list_elem_of_In, in_map_iff in Hx as (y & <- & _). unfold is_byte. apply Z.mod_pos_bound. lia.
Qed.

Definition toy_scan (alice_seen bob_seen : CompositeIdentityV1) : result CompareResult :=
  sa ← generateCompositeSafetyNumber id (toy_identity 1) bob_seen [97] [98] aci;
  sb ← generateCompositeSafetyNumber id (toy_identity 3) alice_seen [98] [97] aci;
  compareWith (sn_scannable sa) (sn_scannable sb).

(** The scan matches for true beliefs, and not when the first user was given another identity. *)
Lemma safety_numbers_agree_witness : toy_scan (toy_identity 1) (toy_identity 3) = Ok scan_match /\ toy_scan (toy_identity 1) (toy_identity 5) = Ok scan_no_match.
Proof.
  pose proof (toy_identity_wf 1 ltac:(lia)) as W1. pose proof (toy_identity_wf 3 ltac:(lia)) as W3. pose proof (toy_identity_wf 5 ltac:(lia)) as W5.
  assert (Na : [97] <> []) by discriminate. assert (Nb : [98] <> []) by discriminate.
  destruct (safety_numbers_agree id _ _ _ _ _ _ aci W1 W3 W1 W3 Na Nb) as (sa & sb & Ea & Eb & _ & _ & H).
  destruct (safety_numbers_agree id _ _ _ _ _ _ aci W1 W3 W1 W5 Na Nb) as (sc & sd & Ec & Ed & _ & H2 & _).
  split; unfold toy_scan; [rewrite Ea, Eb; by destruct (H eq_refl eq_refl) as (_ & _ & _ & H1)|]. rewrite Ec, Ed. cbn [mbind result_bind]. rewrite H2.
  apply (f_equal Ok), decide_False. intros [E _]. revert E. vm_compute. discriminate.
Defined.

Definition toy_cache_keys : list CacheKey := [([97], replicate 32 1, [98], replicate 32 2); ([97], replicate 31 1, [98], replicate 32 2); ([98], replicate 32 2, [97], replicate 32 1); ([97], replicate 32 1, [98], replicate 32 2)].

(** The failing call is not kept; the repeated one has moved to the end. *)
Example toy_cache : (generate_all id toy_cache_keys []).2.*1 = [([98], replicate 32 2, [97], replicate 32 1); ([97], replicate 32 1, [98], replicate 32 2)].
Proof. vm_compute. reflexivity. Qed.
